(* ===== verification/_CoqProject ===== *)
-Q . S2P
Prelude.v
Gregorian.v
TimeZone.v
Timestamp.v
CalendarSyntax.v
CalendarEval.v
DbmsOutput.v
Utf8.v
Encoding.v
MbUtils.v
UtlUrl.v
Base64.v
Float8.v
UtlMatch.v
OraDate.v
OraInterval.v
HashFn.v
LockObject.v
LockTable.v
LockManager.v
Advisory.v
DbmsLock.v
CText.v
DateTokens.v
FloatText.v
IntervalDecode.v
YmInterval.v
DsInterval.v
Deadlock.v
DeadlockSort.v
DeadlockCheck.v
DeadlockFree.v
DeadlockContract.v
