(* ===== verification/Prelude.v ===== *)
(** * Verification of the Oracle-compatibility core of IvorySQL

    IvorySQL is a PostgreSQL server with an Oracle mode. This library models, by
    shallow embedding of the C sources under src/, packages of the extension
    contrib/ivorysql_ora and the server routines they rest on, and proves what
    makes them correct.

    ** Parts and files

    - Prelude: C integers and their wrap-around, [ereport] as an error value
      ([result]), session state that survives an error ([ST]) and sequences of
      calls ([run_calls], with its simulation lemma), bytes and C strings, loops
      with a measure ([while_loop]).
    - Gregorian (src/backend/utils/adt/datetime.c): [date2j], [j2date], [j2day].
    - TimeZone (src/timezone/localtime.c): [timesub], [localsub], [pg_localtime],
      [pg_next_dst_boundary] over a zone table, which is an argument.
    - Timestamp (timestamp.c, datetime.c): [timestamp2tm], [tm2timestamp],
      [DetermineTimeZoneOffset], and [date2j] with its Oracle-mode defaults.
    - CalendarSyntax, CalendarEval
      (builtin_packages/dbms_scheduler/scheduler_calendar.c): the parser of
      repeat intervals such as FREQ=MONTHLY;BYDAY=-1FRI and the search for the
      next run of a job, which calls Timestamp and TimeZone.
    - DbmsOutput (builtin_packages/dbms_output/dbms_output.c): the line buffer of
      a session, a linked list with head and tail pointers in an explicit store.
    - Utf8 (src/common/wchar.c, src/include/utils/ascii.h, mb/pg_wchar.h): the
      character check of UTF-8, the vectorised validator, code points.
    - Encoding (wchar.c, encnames.c): all other encodings, the table that selects
      their routines, encoding names. The class [Charset] states what an
      encoding's character check promises; each row of the table is an instance.
    - MbUtils (src/backend/utils/mb/mbutils.c and the LATIN1 conversion
      procedures): counting, clipping, verification, conversion to and from the
      database encoding. Its theorems use only [Charset]. The catalog of
      conversion procedures is part of the session record; the class
      [ConversionProcs] states what the server relies on.
    - UtlUrl, Base64, UtlMatch (builtin_packages/utl_url/utl_url.c,
      utl_encode/utl_encode.c with src/common/base64.c, utl_match/utl_match.c):
      the packages UTL_URL, UTL_ENCODE and UTL_MATCH over the parts above.
    - Float8: the C type double as IEEE binary64, with the exactness lemmas the
      similarity values of UTL_MATCH, the intervals and SLEEP use.
    - OraDate, OraInterval
      (builtin_functions/datetime_datatype_functions.c): LAST_DAY, ADD_MONTHS,
      NEXT_DAY, TRUNC, ROUND and NEW_TIME; MONTHS_BETWEEN, NUMTOYMINTERVAL and
      NUMTODSINTERVAL, which compute in double precision.
    - HashFn (src/common/hashfn.c): the hash functions, with the code paths for
      aligned and unaligned keys and for both byte orders.
    - LockObject, LockTable, LockManager (src/backend/storage/lmgr/lock.c, proc.c
      and the queue rearrangement of deadlock.c): one lockable object with its
      holders, counts, masks and wait queue; the shared lock table and the local
      table of each backend, with every operation as a [ST] computation of one
      backend and [reachable] as their interleavings; the contract of the lock
      manager over all reachable states.
    - Deadlock, DeadlockSort, DeadlockCheck, DeadlockFree, DeadlockContract
      (src/backend/storage/lmgr/deadlock.c, [CheckDeadLock] of proc.c): the deadlock
      detector as a function of the lock table: the search of the waits-for graph,
      the topological sort of a wait queue, the search for a rearrangement that
      breaks all cycles, and what the backend does with the result. Deadlock holds
      the definitions and the search for cycles, the others the sort, the search for
      a rearrangement, its effect on the table, and the contract over [reachable].
    - Advisory (src/backend/utils/adt/lockfuncs.c): the advisory lock functions.
      The class [AdvisoryService] is the interface to a session's advisory locks,
      [AdvisoryLaws] what it promises; the lock manager is an instance.
    - DbmsLock (builtin_packages/dbms_lock/dbms_lock.c): the package DBMS_LOCK,
      proved against [AdvisoryLaws] alone; [dbms_step] interleaves the rounds of
      the requests of any number of sessions.
    - CText, FloatText: the C library routines that the interval types call on
      text, such as strtol, strtod and sprintf, and rint; the error of reading a
      decimal fraction.
    - DateTokens (datetime.c): [ParseDateTime], which cuts a text into fields, and
      the tables of unit words with their binary search.
    - IntervalDecode, YmInterval, DsInterval (datatype/yminterval.c,
      datatype/dsinterval.c): the types INTERVAL YEAR TO MONTH and INTERVAL DAY TO
      SECOND; the routines of which both files have a copy are in IntervalDecode.

    ** How the code is translated

    Definitions keep the names of the C functions; a loop is a recursive function
    of its own next to the function that contains it. Integers are [Z], with the
    32-bit or 64-bit wrap written out where a result could leave the type ([int32],
    [uint32]); C's [/] and [%] are [Z.quot] and [Z.rem]. Lengths and array
    positions that cannot be negative are [nat]. A function that can raise an
    error returns [result]; the code of the error is kept, its text abridged.
    A read or write outside an array, a dangling pointer and an [Assert] of the
    code are values of their own ([None], or an internal error), and the theorems
    show that they do not occur. Memory from [palloc] has unspecified contents.
    Interrupt checks, memory contexts and frees that nothing observes are left out.

    ** What the theorems show

    - Dates: day numbers and dates are in bijection, count days one by one, and do
      not overflow in the supported range; local time is UTC plus the offset of the
      zone segment in force, also beyond the table; timestamps survive the
      conversion to broken-down time and back; the offset of a local time is found
      whenever that local time exists.
    - Calendars: the parser answers every string, what it accepts is within the
      bounds of the C arrays, which it never leaves, and every spelling of a rule,
      in any case and spacing, parses to the rule; the days of a month are those
      that satisfy all clauses; in a zone of fixed offset a next run that is found
      is the least occurrence after the last run, and none within reach of the
      search exists when none is found; a weekly rule takes no account of
      BYMONTHDAY and BYDATE.
    - DBMS_OUTPUT: every sequence of calls behaves as a queue of lines; the list
      invariant holds in every reachable state; the limit is kept.
    - Character sets: the vectorised validator equals the byte-wise one, and
      accepts exactly the encodings of Unicode scalar values; verified text can be
      walked, counted and clipped by character in every encoding; conversion to
      the server only yields valid text.
    - Packages: UNESCAPE undoes ESCAPE and returns valid text only; BASE64_DECODE
      undoes BASE64_ENCODE; EDIT_DISTANCE is the least number of edits.
    - Date functions: TRUNC and ROUND go to the period starts their formats name,
      ADD_MONTHS acts on months and is undone by MONTHS_BETWEEN, NEXT_DAY is the
      first later day of its name.
    - Locks: in every reachable state conflicting modes are never held by two lock
      groups, shared and local tables agree, a waiter waits behind a conflicting
      holder or request and gets its lock when the others end, calls fail only with
      their documented errors, and the end of a transaction releases its locks.
      DBMS_LOCK excludes through the advisory locks, as long as a session does not
      give them up behind its back, and a request ends when its timeout has passed.
    - Deadlocks: the search finds a cycle exactly when there is one and stays inside
      its arrays when all processes are backends; a sorted queue satisfies its
      constraints; after a check no deadlock is left, if there was none without the
      request of the backend; a hard deadlock is one that no order of the queues
      avoids, as long as the constraints fit into their array.
    - Hashes: all code paths give the same value, [mix] loses nothing.
    - Intervals: printing a value and reading it gives the value, to the
      microsecond; coercion rounds to the nearest unit; comparison is by length and
      sums and products are exact, within the bounds the theorems name.
    - Some theorems state where the code does not do what it means to: year 0 in
      Oracle mode, WEEKLY rules with BYMONTHDAY, the cut-off of the search for the
      next run, months before year 0, PUT_LINE after an overflow, UTL_URL in
      GB18030, base64 text after the padding, the sign of small negative month
      intervals, TRUNC to a century, NEXT_DAY of an unterminated text, a lock
      that DBMS_LOCK hands out twice and releases once, interval texts that wrap,
      comparisons of long intervals that overflow, sums of intervals with two
      signs, and differences refused without need.

    ** Bounds and fuel

    A recursion that is not structural takes fuel, and the theorems prove a
    result for the fuel the definitions use: the length of the input for the
    parsers, validators and copies, since every iteration consumes at least one
    byte; |rem| / 86400 + 2 and |days| / 365 + 2 for the loops of [timesub]; 2 for
    the one level of recursion of [localsub] and [pg_next_dst_boundary];
    SCHED_MAX_PERIODS, the bound of the code itself, for the periods of
    [eval_calendar]; for a lock request, which sleeps between rounds, any number of
    rounds by which the clock has passed the timeout ([time_passes]); MaxBackends + 1 for the depth of the search for
    cycles and of the search for a rearrangement, and the length of the queue for
    [TopoSort]. The width of a vector is a parameter of the UTF-8
    validator; the table of encodings uses 16 bytes. Base64 round trips are for
    values of up to 512 MB, where the length estimates do not overflow.

    Memory is unbounded unless a definition says otherwise: the text that UTL_URL
    builds is not cut off at the 1 GB of a StringInfo, the rows of EDIT_DISTANCE
    are always allocated, and the number of lines of DBMS_OUTPUT, an int in the
    code, is not bounded by its type.

    ** What is not modelled

    Reading time zone files, text input and output of dates and timestamps, the job tables and
    background workers of DBMS_SCHEDULER, the generated conversion maps, display
    widths, the scalar variant of [is_valid_ascii] for machines without vector
    registers, the fast path of relation locks, prepared transactions, the
    text of the deadlock report, PL/iSQL, the Oracle grammar, and the server
    itself (executor, storage, catalogs): they are file or network I/O, generated
    code, or far from the compatibility layer. *)

From Stdlib Require Export ZArith Lia Ascii.
From stdpp Require Export base numbers list list_numbers strings option.
From stdpp Require Import sets.

#[global] Open Scope Z_scope.

(** [lia] is used on C integer division throughout: make it understand
    [Z.quot]/[Z.rem] (C's truncating operators) and [Z.div]/[Z.modulo]. *)
Ltac Zify.zify_post_hook ::= Z.to_euclidean_division_equations.

(** ** C integers *)

Definition INT_MAX : Z := 2147483647.
Definition INT_MIN : Z := -2147483648.
Definition INT64_MAX : Z := 9223372036854775807.
Definition INT64_MIN : Z := -9223372036854775808.
Definition UINT32_MOD : Z := 4294967296.

Definition is_int32 (z : Z) : Prop := INT_MIN <= z <= INT_MAX.
Definition is_int64 (z : Z) : Prop := INT64_MIN <= z <= INT64_MAX.

(** Wrap-around of C's [unsigned int] and of a conversion to [int]. *)
Definition uint32 (z : Z) : Z := z mod UINT32_MOD.
Definition int32 (z : Z) : Z :=
  let u := z mod UINT32_MOD in if u <=? INT_MAX then u else u - UINT32_MOD.
Definition int64 (z : Z) : Z :=
  let u := z mod 18446744073709551616 in
  if u <=? INT64_MAX then u else u - 18446744073709551616.

#[export] Instance is_int32_dec z : Decision (is_int32 z).
Proof. unfold is_int32. apply _. Defined.

#[export] Instance is_int64_dec z : Decision (is_int64 z).
Proof. unfold is_int64. apply _. Defined.

Lemma uint32_small z : 0 <= z < UINT32_MOD -> uint32 z = z.
Proof. intros. by apply Z.mod_small. Qed.

Lemma int32_small z : is_int32 z -> int32 z = z.
Proof.
  unfold is_int32, int32, INT_MIN, INT_MAX, UINT32_MOD. intros.
  destruct (Z.leb_spec (z mod 4294967296) 2147483647); lia.
Qed.

Lemma int32_range z : is_int32 (int32 z).
Proof.
  unfold is_int32, int32, INT_MIN, INT_MAX, UINT32_MOD.
  destruct (Z.leb_spec (z mod 4294967296) 2147483647); lia.
Qed.

Lemma int64_small z : is_int64 z -> int64 z = z.
Proof.
  unfold is_int64, int64, INT64_MIN, INT64_MAX. intros.
  destruct (Z.leb_spec (z mod 18446744073709551616) 9223372036854775807); lia.
Qed.

(** ** Errors: [ereport(ERROR, ...)] as a value *)

Inductive sqlstate :=
  | ERRCODE_PROGRAM_LIMIT_EXCEEDED
  | ERRCODE_INVALID_PARAMETER_VALUE
  | ERRCODE_FEATURE_NOT_SUPPORTED
  | ERRCODE_DATETIME_VALUE_OUT_OF_RANGE
  | ERRCODE_DATETIME_FIELD_OVERFLOW
  | ERRCODE_INTERVAL_FIELD_OVERFLOW
  | ERRCODE_INVALID_DATETIME_FORMAT
  | ERRCODE_CHARACTER_NOT_IN_REPERTOIRE
  | ERRCODE_DIVISION_BY_ZERO
  | ERRCODE_UNDEFINED_FUNCTION
  | ERRCODE_UNTRANSLATABLE_CHARACTER
  | ERRCODE_OUT_OF_MEMORY
  | ERRCODE_PROTOCOL_VIOLATION
  | ERRCODE_INVALID_PRECEDING_OR_FOLLOWING_SIZE
  | ERRCODE_T_R_DEADLOCK_DETECTED
  | ERRCODE_OBJECT_NOT_IN_PREREQUISITE_STATE
  | ERRCODE_INTERNAL_ERROR.

#[export] Instance sqlstate_eq_dec : EqDecision sqlstate.
Proof. solve_decision. Defined.

Record error := mkError { err_code : sqlstate; err_msg : string }.

#[export] Instance error_eq_dec : EqDecision error.
Proof. solve_decision. Defined.

Inductive result (A : Type) :=
  | Ok (a : A)
  | Err (e : error).
Arguments Ok {A} a.
Arguments Err {A} e.

#[export] Instance result_ret : MRet result := @Ok.
#[export] Instance result_bind : MBind result := fun A B f m =>
  match m with Ok a => f a | Err e => Err e end.
#[export] Instance result_fmap : FMap result := fun A B f m =>
  match m with Ok a => Ok (f a) | Err e => Err e end.

Definition ereport {A} (c : sqlstate) (msg : string) : result A := Err (mkError c msg).

Definition is_ok {A} (r : result A) : bool := match r with Ok _ => true | Err _ => false end.

Lemma bind_Ok_inv {A B} (m : result A) (f : A -> result B) b :
  m ≫= f = Ok b -> exists a, m = Ok a /\ f a = Ok b.
Proof. destruct m; cbn; [eauto|discriminate]. Qed.

(** Invert a chain of monadic binds that produced [Ok]. *)
Ltac inv_bind :=
  repeat match goal with
  | H : ?m ≫= _ = Ok _ |- _ =>
      let a := fresh "a" in let Ha := fresh "Ha" in
      apply bind_Ok_inv in H as (a & Ha & H)
  | H : Ok _ = Ok _ |- _ => injection H as H; subst
  | H : Err _ = Ok _ |- _ => discriminate H
  | H : ereport _ _ = Ok _ |- _ => discriminate H
  end.

(** ** State and errors

    Session state survives an [ereport]: what was written before the error stays
    written, so a computation returns its result and the state it leaves. *)
Definition ST (S A : Type) : Type := S -> result A * S.

#[export] Instance ST_ret {S} : MRet (ST S) := fun A a s => (Ok a, s).
#[export] Instance ST_bind {S} : MBind (ST S) := fun A B f m s =>
  match m s with
  | (Ok a, s') => f a s'
  | (Err e, s') => (Err e, s')
  end.

Definition st_get {S} : ST S S := fun s => (Ok s, s).
Definition st_put {S} (s : S) : ST S unit := fun _ => (Ok tt, s).
Definition st_error {S A} (c : sqlstate) (msg : string) : ST S A := fun s => (Err (mkError c msg), s).

(** A sequence of calls: every result, in order; an error ends its call only. *)
Fixpoint run_calls {S C A} (exec : C -> ST S A) (cs : list C) (s : S) : list (result A) * S :=
  match cs with
  | [] => ([], s)
  | c :: cs' =>
      let '(r, s1) := exec c s in
      let '(rs, s2) := run_calls exec cs' s1 in
      (r :: rs, s2)
  end.

(** Forward simulation: calls that simulate each other one by one give the same
    results in every sequence. *)
Lemma run_calls_simulation {S T C A} (R : S -> T -> Prop) (exec : C -> ST S A) (spec : C -> ST T A) :
  (forall c s t, R s t -> (exec c s).1 = (spec c t).1 /\ R (exec c s).2 (spec c t).2) ->
  forall cs s t, R s t ->
    (run_calls exec cs s).1 = (run_calls spec cs t).1 /\ R (run_calls exec cs s).2 (run_calls spec cs t).2.
Proof.
  intros Hstep cs. induction cs as [|c cs IH]; intros s t HR; [done|]. cbn [run_calls].
  destruct (Hstep c s t HR) as [E HR'].
  destruct (exec c s) as [r s1], (spec c t) as [r' t1]. cbn [fst snd] in *. subst r'.
  destruct (IH s1 t1 HR') as [E2 HR2].
  destruct (run_calls exec cs s1), (run_calls spec cs t1). cbn [fst snd] in *. by rewrite E2.
Qed.

(** ** Bytes and C strings *)

(** A [char]/[uint8] is an [ascii] (eight bits); a C string or a buffer is a
    list of them, without the terminating NUL. *)
Abbreviation bytes := (list ascii).

Definition ord (c : ascii) : Z := Z.of_N (N_of_ascii c).
Definition chr (z : Z) : ascii := ascii_of_N (Z.to_N (z mod 256)).
Definition lit (s : string) : bytes := String.list_ascii_of_string s.

Lemma ord_range c : 0 <= ord c < 256.
Proof. unfold ord. pose proof (N_ascii_bounded c). lia. Qed.

Lemma chr_ord c : chr (ord c) = c.
Proof.
  unfold chr. rewrite Z.mod_small by apply ord_range.
  unfold ord. rewrite N2Z.id. apply ascii_N_embedding.
Qed.

Lemma ord_chr z : ord (chr z) = z mod 256.
Proof.
  unfold chr, ord. rewrite N_ascii_embedding; [rewrite Z2N.id|]; lia.
Qed.

Lemma ord_inj c d : ord c = ord d -> c = d.
Proof. intros H. by rewrite <- (chr_ord c), <- (chr_ord d), H. Qed.

(** A boolean property of bytes holds when its 256 cases do. *)
Lemma byte_cases (f : Z -> bool) :
  forallb f (map Z.of_nat (seq 0 256)) = true -> forall b, 0 <= b < 256 -> f b = true.
Proof.
  intros H b Hb. rewrite forallb_forall in H. apply H, in_map_iff.
  exists (Z.to_nat b). rewrite in_seq. lia.
Qed.

(** [strchr]: split at the first occurrence of a byte. *)
Fixpoint break_at (c : ascii) (s : bytes) : bytes * option bytes :=
  match s with
  | [] => ([], None)
  | x :: s' =>
      if decide (x = c) then ([], Some s')
      else let '(a, b) := break_at c s' in (x :: a, b)
  end.

Lemma break_at_length c s :
  forall a b, break_at c s = (a, Some b) -> length s = S (length a + length b).
Proof.
  induction s as [|x s IH]; intros a b; simpl; [done|].
  case_decide; [intros [= <- <-]; done|].
  destruct (break_at c s) as [a' b'] eqn:E. intros [= <- ->]. simpl.
  erewrite IH by done. lia.
Qed.

(** ** Boolean tests of the code as propositions *)

Ltac split_bool :=
  repeat match goal with
  | H : (_ && _)%bool = true |- _ => apply andb_true_iff in H as [? ?]
  | H : (_ || _)%bool = false |- _ => apply orb_false_iff in H as [? ?]
  | H : negb _ = true |- _ => apply negb_true_iff in H
  | H : negb _ = false |- _ => apply negb_false_iff in H
  end.

(** ** Lists of candidates: the first hit of an ascending list is its least *)

Lemma list_find_least {A} (f : A -> bool) (l : list A) :
  match List.find f l with
  | Some x => exists l1 l2, l = l1 ++ x :: l2 /\ f x = true /\ Forall (fun y => f y = false) l1
  | None => Forall (fun y => f y = false) l
  end.
Proof.
  induction l as [|x l IH]; simpl; [constructor|].
  destruct (f x) eqn:E.
  - exists [], l. auto.
  - destruct (List.find f l).
    + destruct IH as (l1 & l2 & -> & ? & ?). exists (x :: l1), l2. auto.
    + by constructor.
Qed.

(** ** Loops *)

(** [while (cond s) s = body s], where the body may leave through an error exit
    ([None]); the outer [option] is [None] when the fuel runs out. *)
Fixpoint while_loop {S} (fuel : nat) (cond : S -> bool) (body : S -> option S) (s : S)
    : option (option S) :=
  match fuel with
  | O => None
  | S fuel' =>
      if cond s then
        match body s with
        | Some s' => while_loop fuel' cond body s'
        | None => Some None
        end
      else Some (Some s)
  end.

(** A loop whose body keeps an invariant and decreases a measure ends, within
    as much fuel as the measure, in a state that satisfies the invariant. *)
Lemma while_loop_inv {S} (I : S -> Prop) (mu : S -> Z) cond body fuel (s : S) :
  I s -> 0 <= mu s < Z.of_nat fuel ->
  (forall s, I s -> 0 <= mu s) ->
  (forall s, I s -> cond s = true ->
     exists s', body s = Some s' /\ I s' /\ mu s' < mu s) ->
  exists s', while_loop fuel cond body s = Some (Some s') /\ I s' /\ cond s' = false.
Proof.
  intros HI Hmu Hnn Hstep. revert s HI Hmu.
  induction fuel as [|fuel IH]; intros s HI Hmu; [lia|]. simpl.
  destruct (cond s) eqn:Ec; [|eauto].
  destruct (Hstep s HI Ec) as (s' & -> & HI' & Hlt). apply IH; [done|].
  pose proof (Hnn s' HI'). lia.
Qed.

(** ** C arrays of counters, and sums over an index range *)

Definition aget (a : list Z) (i : Z) : Z := nth (Z.to_nat i) a 0.
Definition aset (a : list Z) (i v : Z) : list Z := <[Z.to_nat i := v]> a.

Lemma aset_length a i v : length (aset a i v) = length a.
Proof. apply length_insert. Qed.

Lemma aget_aset a i j v :
  0 <= i < Z.of_nat (length a) -> 0 <= j -> aget (aset a i v) j = if i =? j then v else aget a j.
Proof.
  intros Hi Hj. unfold aget, aset. rewrite !nth_lookup.
  destruct (Z.eqb_spec i j) as [->|Hne].
  - rewrite list_lookup_insert_eq by lia. done.
  - by rewrite list_lookup_insert_ne by lia.
Qed.

Fixpoint sumZ (f : Z -> Z) (l : list Z) : Z :=
  match l with [] => 0 | i :: l' => f i + sumZ f l' end.

Lemma sumZ_ext f g l : (forall i, i ∈ l -> f i = g i) -> sumZ f l = sumZ g l.
Proof.
  induction l as [|i l IH]; intros H; [done|]. simpl.
  rewrite H by set_solver. rewrite IH by set_solver. done.
Qed.

Lemma sumZ_nonneg f l : (forall i, i ∈ l -> 0 <= f i) -> 0 <= sumZ f l.
Proof.
  induction l as [|i l IH]; intros H; [done|]. simpl.
  pose proof (H i ltac:(set_solver)). pose proof (IH ltac:(set_solver)). lia.
Qed.

Lemma sumZ_zero f l :
  (forall i, i ∈ l -> 0 <= f i) -> sumZ f l = 0 <-> forall i, i ∈ l -> f i = 0.
Proof.
  induction l as [|i l IH]; intros H; simpl; [set_solver|].
  pose proof (H i ltac:(set_solver)). pose proof (sumZ_nonneg f l ltac:(set_solver)).
  specialize (IH ltac:(set_solver)). split.
  - intros E j [->|Hj]%elem_of_cons; [lia|]. apply IH; [lia|done].
  - intros E. rewrite (E i ltac:(set_solver)), (proj2 IH ltac:(set_solver)). lia.
Qed.

(** One entry of a sum changes by [d]. *)
Lemma sumZ_update f g l k d :
  NoDup l -> k ∈ l -> g k = f k + d -> (forall i, i ∈ l -> i <> k -> g i = f i) ->
  sumZ g l = sumZ f l + d.
Proof.
  induction l as [|i l IH]; intros Hnd Hk Hg Ho; [set_solver|].
  apply NoDup_cons in Hnd as [Hi Hnd]. simpl. destruct (decide (i = k)) as [->|Hne].
  - rewrite Hg, (sumZ_ext g f l); [lia|]. intros j Hj. apply Ho; [set_solver|]. by intros ->.
  - rewrite (Ho i) by set_solver. rewrite IH; [lia|done|set_solver|done|set_solver].
Qed.

(** ** Bit masks *)

Lemma testbit_shiftl_1 m i : 0 <= m -> Z.testbit (Z.shiftl 1 m) i = (m =? i).
Proof. intros. rewrite Z.shiftl_1_l. by apply Z.pow2_bits_eqb. Qed.

Lemma land_bit_zero x m : 0 <= m -> (Z.land x (Z.shiftl 1 m) =? 0) = negb (Z.testbit x m).
Proof.
  intros Hm. destruct (Z.eqb_spec (Z.land x (Z.shiftl 1 m)) 0) as [E|E].
  - apply (f_equal (fun z => Z.testbit z m)) in E. rewrite Z.bits_0, Z.land_spec in E.
    rewrite testbit_shiftl_1, Z.eqb_refl, andb_true_r in E by done. by rewrite E.
  - destruct (Z.testbit x m) eqn:Ex; [done|]. exfalso. apply E, Z.bits_inj'. intros i Hi.
    rewrite Z.bits_0, Z.land_spec, testbit_shiftl_1 by done.
    destruct (Z.eqb_spec m i) as [<-|_]; [by rewrite Ex|apply andb_false_r].
Qed.

(** Two masks meet exactly when they share a bit. *)
Lemma land_zero_iff x y :
  0 <= x -> Z.land x y = 0 <-> forall i, 0 <= i -> Z.testbit x i = true -> Z.testbit y i = false.
Proof.
  intros Hx. split.
  - intros E i Hi Hxi. apply (f_equal (fun z => Z.testbit z i)) in E.
    by rewrite Z.bits_0, Z.land_spec, Hxi in E.
  - intros H. apply Z.bits_inj'. intros i Hi. rewrite Z.bits_0, Z.land_spec.
    destruct (Z.testbit x i) eqn:E; [|done]. by rewrite (H i Hi E).
Qed.

Lemma land_nonzero_iff x y :
  0 <= x -> Z.land x y <> 0 <-> exists i, 0 <= i /\ Z.testbit x i = true /\ Z.testbit y i = true.
Proof.
  intros Hx. split.
  - intros H. assert (0 <= Z.land x y) by (apply Z.land_nonneg; auto).
    exists (Z.log2 (Z.land x y)). pose proof (Z.bit_log2 (Z.land x y) ltac:(lia)) as E.
    rewrite Z.land_spec in E. apply andb_true_iff in E. split; [apply Z.log2_nonneg|done].
  - intros (i & Hi & H1 & H2) E. by rewrite (proj1 (land_zero_iff x y Hx) E i Hi H1) in H2.
Qed.

(** A mask all of whose bits lie below a bound is not negative. *)
Lemma mask_nonneg x b : (forall i, b <= i -> Z.testbit x i = false) -> 0 <= x.
Proof.
  intros H. destruct (Z.le_gt_cases 0 x) as [|Hn]; [done|exfalso].
  pose proof (Z.bits_above_log2_neg x (Z.max b (Z.log2 (Z.pred (- x)) + 1)) Hn ltac:(lia)) as E.
  rewrite H in E by lia. done.
Qed.
