(* ===== verification/Gregorian.v ===== *)
(** * Gregorian calendar arithmetic: Julian day numbers

    The day-count routines every date computation of the server rests on:
    [isleap] and [day_tab] (src/include/utils/datetime.h, datetime.c), the
    arithmetic of [date2j], [j2date] and [j2day] (datetime.c).  IvorySQL's
    patched [date2j], which consults the clock for a zero year or month, is
    [date2j] of Timestamp.v; [date2j_civil] is the part below that patch.

    The theorems characterise the day number by the calendar itself: the next
    civil day has the next number, [date2j_civil] and [j2date] are inverse
    bijections between the valid dates and the supported numbers, and the
    order of dates is the order of their numbers. *)

From S2P Require Import Prelude.

(** ** Definitions *)

(** [#define isleap(y)]; C's [%] truncates. *)
Definition isleap (y : Z) : bool :=
  (Z.rem y 4 =? 0) && (negb (Z.rem y 100 =? 0) || (Z.rem y 400 =? 0)).

(** [day_tab[2][13]]: days per month, common and leap years. *)
Definition day_tab (leap : bool) : list Z :=
  if leap then [31; 29; 31; 30; 31; 30; 31; 31; 30; 31; 30; 31; 0]
  else [31; 28; 31; 30; 31; 30; 31; 31; 30; 31; 30; 31; 0].

(** [day_tab[isleap(year)][month - 1]]. *)
Definition month_days (year month : Z) : Z :=
  nth (Z.to_nat (month - 1)) (day_tab (isleap year)) 0.

(** The arithmetic of [date2j], after the Oracle-mode defaulting block. *)
Definition date2j_civil (year month day : Z) : Z :=
  let '(month, year) :=
    if 2 <? month then (month + 1, year + 4800) else (month + 13, year + 4799) in
  let century := Z.quot year 100 in
  let julian := year * 365 - 32167 in
  let julian := julian + (Z.quot year 4 - century + Z.quot century 4) in
  julian + (Z.quot (7834 * month) 256 + day).

(** The same computation with every operation in wrapping 32-bit [int]s. *)
Definition date2j_int (year month day : Z) : Z :=
  let '(month, year) :=
    if 2 <? month then (int32 (month + 1), int32 (year + 4800))
    else (int32 (month + 13), int32 (year + 4799)) in
  let century := Z.quot year 100 in
  let julian := int32 (int32 (year * 365) - 32167) in
  let julian := int32 (julian + int32 (int32 (Z.quot year 4 - century) + Z.quot century 4)) in
  int32 (julian + int32 (Z.quot (int32 (7834 * month)) 256 + day)).

(** [j2date], in unsigned 32-bit arithmetic. *)
Definition j2date (jd : Z) : Z * Z * Z :=
  let julian := uint32 jd in
  let julian := uint32 (julian + 32044) in
  let quad := julian / 146097 in
  let extra := uint32 ((julian - quad * 146097) * 4 + 3) in
  let julian := uint32 (julian + (60 + quad * 3 + extra / 146097)) in
  let quad := julian / 1461 in
  let julian := uint32 (julian - quad * 1461) in
  let y := uint32 (julian * 4) / 1461 in
  let julian :=
    (if negb (y =? 0) then (julian + 305) mod 365 else (julian + 306) mod 366) + 123 in
  let y := int32 (y + quad * 4) in
  let year := y - 4800 in
  let quad := uint32 (julian * 2141) / 65536 in
  let day := int32 (julian - uint32 (7834 * quad) / 256) in
  let month := (quad + 10) mod 12 + 1 in
  (year, month, day).

(** [j2day]: 0 = Sunday .. 6 = Saturday. *)
Definition j2day (date : Z) : Z :=
  let date := date + 1 in
  let date := Z.rem date 7 in
  if date <? 0 then date + 7 else date.

(** ** The civil calendar, as the specification *)

Definition valid_date (y m d : Z) : Prop :=
  1 <= m <= 12 /\ 1 <= d <= month_days y m.

#[export] Instance valid_date_dec y m d : Decision (valid_date y m d).
Proof. unfold valid_date. apply _. Defined.

(** The civil day after (y, m, d). *)
Definition next_day (y m d : Z) : Z * Z * Z :=
  if d <? month_days y m then (y, m, d + 1)
  else if m <? 12 then (y, m + 1, 1)
  else (y + 1, 1, 1).

(** Chronological order on dates. *)
Definition date_lt (y1 m1 d1 y2 m2 d2 : Z) : Prop :=
  y1 < y2 \/ (y1 = y2 /\ (m1 < m2 \/ (m1 = m2 /\ d1 < d2))).

(** ** Lemmas *)

(** Case analysis on a month number. *)
Ltac month_cases m :=
  let H := fresh in
  assert (H : m = 1 \/ m = 2 \/ m = 3 \/ m = 4 \/ m = 5 \/ m = 6 \/ m = 7 \/ m = 8 \/
              m = 9 \/ m = 10 \/ m = 11 \/ m = 12) by lia;
  repeat destruct H as [H|H]; subst m.

(** [isleap] as a proposition [lia] can use. *)
Lemma isleap_spec y :
  if isleap y then Z.rem y 4 = 0 /\ (Z.rem y 100 <> 0 \/ Z.rem y 400 = 0)
  else Z.rem y 4 <> 0 \/ (Z.rem y 100 = 0 /\ Z.rem y 400 <> 0).
Proof. unfold isleap. destruct (_ && _)%bool eqn:E; lia. Qed.

Lemma month_days_eq y m :
  1 <= m <= 12 ->
  month_days y m =
    if m =? 2 then (if isleap y then 29 else 28)
    else if (m =? 4) || (m =? 6) || (m =? 9) || (m =? 11) then 30 else 31.
Proof. intros. unfold month_days. month_cases m; destruct (isleap y); reflexivity. Qed.

Lemma month_days_range y m : 1 <= m <= 12 -> 28 <= month_days y m <= 31.
Proof. intros. rewrite month_days_eq by done. repeat case_match; lia. Qed.

(** Leap days up to year [y], as [date2j] counts them. *)
Definition leap_days (y : Z) : Z := Z.quot y 4 - Z.quot y 100 + Z.quot (Z.quot y 100) 4.

(** The two branches of [date2j]: its years start in March. *)
Lemma date2j_civil_lo y m d :
  m <= 2 ->
  date2j_civil y m d =
    365 * (y + 4799) + leap_days (y + 4799) + Z.quot (7834 * (m + 13)) 256 + d - 32167.
Proof. intros. unfold date2j_civil, leap_days. destruct (Z.ltb_spec 2 m); cbn zeta; lia. Qed.

Lemma date2j_civil_hi y m d :
  2 < m ->
  date2j_civil y m d =
    365 * (y + 4800) + leap_days (y + 4800) + Z.quot (7834 * (m + 1)) 256 + d - 32167.
Proof. intros. unfold date2j_civil, leap_days. destruct (Z.ltb_spec 2 m); cbn zeta; lia. Qed.

Lemma date2j_civil_day y m d : date2j_civil y m d = date2j_civil y m 0 + d.
Proof. unfold date2j_civil. case_match. lia. Qed.

Lemma isleap_shift y : isleap (y + 4800) = isleap y.
Proof.
  pose proof (isleap_spec y). pose proof (isleap_spec (y + 4800)).
  destruct (isleap y), (isleap (y + 4800)); try done; lia.
Qed.

(** Leap days accumulated up to year [y] (shifted by 4800) and up to [y - 1]. *)
Lemma leap_days_step y :
  -4800 < y ->
  leap_days (y + 4800) = leap_days (y + 4799) + (if isleap y then 1 else 0).
Proof.
  intros. unfold leap_days. rewrite <- isleap_shift. pose proof (isleap_spec (y + 4800)) as Hs.
  replace (y + 4799) with (y + 4800 - 1) by lia.
  remember (y + 4800) as Y. assert (0 < Y) by lia. clear HeqY.
  rewrite !Z.rem_mod_nonneg in Hs by lia.
  rewrite !Z.quot_div_nonneg by (try apply Z.quot_pos; lia).
  destruct (isleap Y); [destruct Hs as [? [?|?]]|destruct Hs as [?|[? ?]]]; lia.
Qed.

(** Month lengths, as differences of day numbers. *)
Lemma date2j_civil_month y m :
  -4799 <= y -> 1 <= m < 12 ->
  date2j_civil y (m + 1) 0 = date2j_civil y m 0 + month_days y m.
Proof.
  intros Hy Hm. rewrite month_days_eq by lia. pose proof (isleap_spec y).
  assert (Hc : m = 1 \/ m = 2 \/ 3 <= m) by lia.
  destruct Hc as [-> | [-> | Hc]].
  - rewrite !date2j_civil_lo by lia. cbn [Z.eqb Pos.eqb orb]. lia.
  - rewrite (date2j_civil_hi y (2 + 1)), (date2j_civil_lo y 2) by lia. pose proof (leap_days_step y).
    destruct (isleap y); cbn [Z.eqb Pos.eqb]; lia.
  - rewrite !date2j_civil_hi by lia.
    assert (Z.quot (7834 * (m + 1 + 1)) 256 - Z.quot (7834 * (m + 1)) 256 =
      if m =? 2 then (if isleap y then 29 else 28)
      else if (m =? 4) || (m =? 6) || (m =? 9) || (m =? 11) then 30 else 31) as <-.
    { month_cases m; try lia; reflexivity. }
    lia.
Qed.

Lemma date2j_civil_year y :
  -4799 <= y ->
  date2j_civil (y + 1) 1 0 = date2j_civil y 12 0 + 31.
Proof. 
  intros Hy. rewrite (date2j_civil_lo _ 1), (date2j_civil_hi _ 12) by lia.
  replace (y + 1 + 4799) with (y + 4800) by lia. lia.
 Qed.

(** The next civil day has the next day number. *)
Lemma date2j_civil_next y m d :
  -4799 <= y -> valid_date y m d ->
  let '(y', m', d') := next_day y m d in
  valid_date y' m' d' /\ date2j_civil y' m' d' = date2j_civil y m d + 1.
Proof.
  intros Hy [Hm Hd]. unfold next_day.
  destruct (Z.ltb_spec d (month_days y m)); [|destruct (Z.ltb_spec m 12)].
  - split; [split; lia|]. rewrite date2j_civil_day, (date2j_civil_day y m d). lia.
  - pose proof (month_days_range y (m + 1)). split; [split; lia|].
    rewrite date2j_civil_day, (date2j_civil_day y m d), date2j_civil_month by lia. lia.
  - pose proof (month_days_range (y + 1) 1). split; [split; lia|].
    assert (m = 12) as -> by lia.
    assert (month_days y 12 = 31) by (rewrite month_days_eq by lia; reflexivity).
    rewrite date2j_civil_day, (date2j_civil_day y 12 d), date2j_civil_year by lia. lia.
Qed.

(** *** Order *)

Lemma date2j_civil_month_mono y m1 m2 :
  -4799 <= y -> 1 <= m1 -> m1 < m2 <= 12 ->
  date2j_civil y m1 0 + month_days y m1 <= date2j_civil y m2 0.
Proof.
  intros Hy H1 H2. assert (exists n, 0 <= n /\ m2 = m1 + 1 + n) as (n & Hn & ->).
  { exists (m2 - m1 - 1). lia. }
  revert H2. pattern n. apply natlike_ind; [|clear n Hn; intros n Hn IH|done].
  - intros ?. rewrite Z.add_0_r, date2j_civil_month by lia. lia.
  - intros ?. replace (m1 + 1 + Z.succ n) with (m1 + 1 + n + 1) by lia.
    rewrite (date2j_civil_month y (m1 + 1 + n)) by lia.
    pose proof (month_days_range y (m1 + 1 + n)). lia.
Qed.

Lemma date2j_civil_month_end y m :
  -4799 <= y -> 1 <= m <= 12 ->
  date2j_civil y m 0 + month_days y m <= date2j_civil (y + 1) 1 0.
Proof.
  intros. rewrite date2j_civil_year by done.
  assert (month_days y 12 = 31) by (rewrite month_days_eq by lia; reflexivity).
  destruct (decide (m = 12)) as [->|]; [lia|].
  pose proof (date2j_civil_month_mono y m 12). lia.
Qed.

Lemma date2j_civil_year_mono y1 y2 :
  -4799 <= y1 -> y1 <= y2 -> date2j_civil y1 1 0 <= date2j_civil y2 1 0.
Proof.
  intros Hy H. assert (exists n, 0 <= n /\ y2 = y1 + n) as (n & Hn & ->).
  { exists (y2 - y1). lia. }
  clear H. revert n Hn. apply natlike_ind; [by rewrite Z.add_0_r|].
  intros n Hn IH. replace (y1 + Z.succ n) with (y1 + n + 1) by lia.
  pose proof (date2j_civil_month_end (y1 + n) 1). pose proof (month_days_range (y1 + n) 1). lia.
Qed.

Lemma date2j_civil_lt y1 m1 d1 y2 m2 d2 :
  -4799 <= y1 -> -4799 <= y2 -> valid_date y1 m1 d1 -> valid_date y2 m2 d2 ->
  date_lt y1 m1 d1 y2 m2 d2 -> date2j_civil y1 m1 d1 < date2j_civil y2 m2 d2.
Proof.
  intros Hy1 Hy2 [Hm1 Hd1] [Hm2 Hd2] Hlt.
  rewrite (date2j_civil_day y1), (date2j_civil_day y2).
  destruct Hlt as [Hlt | [<- [Hlt | [<- Hlt]]]].
  - pose proof (date2j_civil_month_end y1 m1). pose proof (date2j_civil_year_mono (y1 + 1) y2).
    assert (date2j_civil y2 1 0 <= date2j_civil y2 m2 0); [|lia].
    destruct (decide (m2 = 1)) as [->|]; [done|].
    pose proof (date2j_civil_month_mono y2 1 m2). pose proof (month_days_range y2 1). lia.
  - pose proof (date2j_civil_month_mono y1 m1 m2). lia.
  - lia.
Qed.

Lemma date_trichotomy y1 m1 d1 y2 m2 d2 :
  date_lt y1 m1 d1 y2 m2 d2 \/ (y1 = y2 /\ m1 = m2 /\ d1 = d2) \/ date_lt y2 m2 d2 y1 m1 d1.
Proof. unfold date_lt. lia. Qed.

Lemma date2j_civil_inj y1 m1 d1 y2 m2 d2 :
  -4799 <= y1 -> -4799 <= y2 -> valid_date y1 m1 d1 -> valid_date y2 m2 d2 ->
  date2j_civil y1 m1 d1 = date2j_civil y2 m2 d2 -> (y1, m1, d1) = (y2, m2, d2).
Proof.
  intros Hy1 Hy2 V1 V2 He.
  destruct (date_trichotomy y1 m1 d1 y2 m2 d2) as [H|[(->&->&->)|H]]; [|done|];
    apply date2j_civil_lt in H; auto; lia.
Qed.

(** *** [j2date] *)

(** The last step of [j2date]: the day of a year that starts in March gives
    month and day ([t] = 0 is the first of March). *)
Definition march_month (t : Z) : Z := ((t + 123) * 2141 / 65536 + 10) mod 12 + 1.
Definition march_day (t : Z) : Z := t + 123 - 7834 * ((t + 123) * 2141 / 65536) / 256.

Definition march_spec_at (t : Z) : Prop :=
  1 <= march_month t <= 12 /\
  (2 < march_month t ->
     1 <= march_day t <= month_days 1 (march_month t) /\ t <= 305 /\
     Z.quot (7834 * (march_month t + 1)) 256 + march_day t = t + 123) /\
  (march_month t <= 2 ->
     1 <= march_day t /\ 306 <= t /\
     (march_month t = 1 -> march_day t <= 31) /\
     (march_month t = 2 -> march_day t = t - 336) /\
     Z.quot (7834 * (march_month t + 13)) 256 + march_day t = t + 123).

#[export] Instance march_spec_at_dec t : Decision (march_spec_at t).
Proof. unfold march_spec_at. apply _. Defined.

(** Checked day by day over one year. *)
Lemma march_spec t : 0 <= t <= 365 -> march_spec_at t.
Proof.
  assert (Forall march_spec_at (seqZ 0 366)) as H
    by (apply (bool_decide_unpack _); vm_compute; exact I).
  rewrite Forall_forall in H. intros. apply H, list_elem_of_In, elem_of_seqZ. lia.
Qed.

(** The pure arithmetic of [j2date], for numbers whose 32-bit computation does
    not wrap. *)
Lemma j2date_unfold jd :
  0 <= jd <= INT_MAX ->
  exists q c s y0 t q2,
    0 <= q /\ 0 <= c <= 3 /\ 0 <= s < 1461 /\ 0 <= y0 <= 3 /\ 0 <= t <= 365 /\ 0 <= q2 /\
    (* centuries and years of the 400-year cycle *)
    146097 * q <= jd + 32044 < 146097 * (q + 1) /\
    146097 * c <= 4 * (jd + 32044 - 146097 * q) + 3 < 146097 * (c + 1) /\
    jd + 32104 + 3 * q + c = 1461 * q2 + s /\
    1461 * y0 <= 4 * s < 1461 * (y0 + 1) /\
    (if y0 =? 0 then t = (s + 306) mod 366 else t = (s + 305) mod 365) /\
    j2date jd = (4 * q2 + y0 - 4800, march_month t, march_day t).
Proof.
  intros H. unfold INT_MAX in H.
  set (q := (jd + 32044) / 146097).
  set (c := ((jd + 32044 - q * 146097) * 4 + 3) / 146097).
  set (J := jd + 32044 + (60 + q * 3 + c)).
  set (q2 := J / 1461). set (s := J - q2 * 1461). set (y0 := s * 4 / 1461).
  set (t := if y0 =? 0 then (s + 306) mod 366 else (s + 305) mod 365).
  assert (0 <= q <= 15000) by lia. assert (0 <= c <= 3) by lia.
  assert (0 <= s < 1461) by lia. assert (0 <= y0 <= 3) by lia.
  assert (0 <= t <= 365) by (subst t; destruct (y0 =? 0); lia).
  assert (0 <= q2 <= 1500000) by lia.
  exists q, c, s, y0, t, q2.
  repeat match goal with |- _ /\ _ => split end; try lia.
  - subst t. by destruct (y0 =? 0).
  - unfold j2date, uint32, UINT32_MOD.
    rewrite (Z.mod_small jd), (Z.mod_small (jd + 32044)) by lia. fold q.
    rewrite (Z.mod_small ((jd + 32044 - q * 146097) * 4 + 3)) by lia. fold c.
    rewrite (Z.mod_small (jd + 32044 + (60 + q * 3 + c))) by lia. fold J. fold q2.
    rewrite (Z.mod_small (J - q2 * 1461)) by lia. fold s.
    rewrite (Z.mod_small (s * 4)) by lia. fold y0.
    rewrite (int32_small (y0 + q2 * 4)) by (unfold is_int32, INT_MIN, INT_MAX; lia).
    replace ((if negb (y0 =? 0) then (s + 305) mod 365 else (s + 306) mod 366) + 123)
      with (t + 123) by (subst t; by destruct (y0 =? 0)).
    rewrite (Z.mod_small ((t + 123) * 2141)) by lia.
    rewrite (Z.mod_small (7834 * ((t + 123) * 2141 / 65536))) by lia.
    unfold march_month, march_day. rewrite int32_small.
    + by rewrite (Z.add_comm y0), (Z.mul_comm q2).
    + unfold is_int32, INT_MIN, INT_MAX. lia.
Qed.

(** Position [t] in the March-based year [z]: a day count in which every fourth
    year is a leap year. *)
Lemma march_position q2 s y0 t m :
  0 <= q2 -> 0 <= s < 1461 -> 0 <= y0 <= 3 -> 1461 * y0 <= 4 * s < 1461 * (y0 + 1) ->
  (if y0 =? 0 then t = (s + 306) mod 366 else t = (s + 305) mod 365) ->
  (2 < m -> t <= 305) -> (m <= 2 -> 306 <= t) ->
  let z := if 2 <? m then 4 * q2 + y0 else 4 * q2 + y0 - 1 in
  1461 * q2 + s - 60 = 365 * z + z / 4 + t /\ (t = 365 -> y0 = 0).
Proof.
  intros Hq Hs Hy Hb Et Hhi Hlo z. subst z.
  assert (H : y0 = 0 \/ y0 = 1 \/ y0 = 2 \/ y0 = 3) by lia.
  repeat destruct H as [H|H]; subst y0; cbn [Z.eqb] in Et; destruct (Z.ltb_spec 2 m); lia.
Qed.

(** The century corrections [q] and [c] are those of the March-based year. *)
Lemma march_century N q c z t :
  0 <= c <= 3 -> 0 <= t <= 365 -> 0 <= z ->
  146097 * q <= N < 146097 * (q + 1) ->
  146097 * c <= 4 * (N - 146097 * q) + 3 < 146097 * (c + 1) ->
  N + 3 * q + c = 365 * z + z / 4 + t ->
  z / 100 = 4 * q + c /\ (t = 365 -> (z + 1) mod 100 = 0 -> (z + 1) mod 400 = 0).
Proof.
  intros Hc Ht Hz Hq Hb He.
  assert (400 * q + 100 * c <= z < 400 * q + 100 * c + 100) as Hr by lia.
  split; [lia|]. intros -> H100.
  assert (z = 400 * q + 100 * c + 99) by lia.
  assert (c = 3) by lia. lia.
Qed.

Lemma j2date_spec jd y m d :
  0 <= jd <= INT_MAX -> j2date jd = (y, m, d) ->
  -4800 <= y <= 5874898 /\ valid_date y m d /\ date2j_civil y m d = jd.
Proof.
  intros H E.
  destruct (j2date_unfold jd H) as
    (q & c & s & y0 & t & q2 & Hq & Hc & Hs & Hy0 & Ht & Hq2 & Eq & Ec & Ej & Ey & Et & E').
  rewrite E in E'. injection E' as Yy Ym Yd. clear E. unfold INT_MAX in H.
  destruct (march_spec t Ht) as (Hm & Hhi & Hlo). rewrite <- Ym, <- Yd in *.
  destruct (march_position q2 s y0 t m) as [Ez H365]; [lia..|done|lia|lia|].
  set (z := if 2 <? m then 4 * q2 + y0 else 4 * q2 + y0 - 1) in *.
  destruct (march_century (jd + 32044) q c z t) as [Hcen Hleap]; [lia..|].
  assert (leap_days z = z / 4 - 3 * q - c) as Hl.
  { unfold leap_days. rewrite !Z.quot_div_nonneg by (try apply Z.quot_pos; lia). lia. }
  assert (0 <= z <= 5879698) by lia. clear Eq Ec Ey Hq2 Hs.
  subst z. destruct (Z.ltb_spec 2 m) as [Hm2|Hm2]; (split; [lia|split]).
  - destruct Hhi as (Hd & _); [done|]. split; [done|]. rewrite month_days_eq in * by done.
    by replace (m =? 2) with false in * by lia.
  - rewrite date2j_civil_hi by done. replace (y + 4800) with (4 * q2 + y0) by lia. lia.
  - destruct Hlo as (Hd1 & Hd2 & Hjan & Hfeb & _); [done|]. split; [done|].
    rewrite month_days_eq by done. assert (m = 1 \/ m = 2) as [->| ->] by lia; [cbn; lia|].
    cbn [Z.eqb Pos.eqb]. rewrite <- isleap_shift. pose proof (isleap_spec (y + 4800)) as Hlp.
    replace (y + 4800) with (4 * q2 + y0) in * by lia.
    rewrite !Z.rem_mod_nonneg in Hlp by lia.
    replace (4 * q2 + y0 - 1 + 1) with (4 * q2 + y0) in Hleap by lia.
    destruct (isleap (4 * q2 + y0)); [lia|].
    destruct (decide (t = 365)) as [->|]; [|lia]. exfalso. lia.
  - rewrite date2j_civil_lo by done. replace (y + 4799) with (4 * q2 + y0 - 1) by lia. lia.
Qed.

Lemma j2date_year jd y m d : 0 <= jd <= INT_MAX -> j2date jd = (y, m, d) -> -4799 <= y.
Proof.
  intros Hj E. pose proof (j2date_spec jd y m d Hj E) as (Hy & [Hm Hd] & He).
  enough (y <> -4800) by lia. intros ->. rewrite date2j_civil_day in He.
  pose proof (month_days_range (-4800) m).
  assert (date2j_civil (-4800) m 0 < -31); [|lia].
  clear -Hm. month_cases m; vm_compute; done.
Qed.

Lemma j2date_date2j_civil y m d :
  -4799 <= y -> valid_date y m d -> 0 <= date2j_civil y m d <= INT_MAX ->
  j2date (date2j_civil y m d) = (y, m, d).
Proof.
  intros Hy Hv Hj. destruct (j2date (date2j_civil y m d)) as [[y' m'] d'] eqn:E.
  pose proof (j2date_spec _ y' m' d' Hj E) as (_ & Hv' & He).
  pose proof (j2date_year _ y' m' d' Hj E). by apply date2j_civil_inj.
Qed.

(** ** Properties *)

(** C14. Day numbers and civil dates are in bijection: for every day number a
    32-bit [int] can hold and every valid date from year -4799 on, [date2j]'s
    arithmetic yields that number exactly when [j2date] yields that date (in
    particular each of the two functions inverts the other). *)
Theorem date_julian_bijection y m d jd :
  -4799 <= y -> valid_date y m d -> 0 <= jd <= INT_MAX ->
  date2j_civil y m d = jd <-> j2date jd = (y, m, d).
Proof.
  intros Hy Hv Hj. split.
  - intros <-. by apply j2date_date2j_civil.
  - intros E. by destruct (j2date_spec jd y m d Hj E) as (_ & _ & ?).
Qed.

Lemma date_julian_bijection_witness :
  date2j_civil 2024 2 29 = 2460370 <-> j2date 2460370 = (2024, 2, 29).
Proof.
  apply date_julian_bijection; [lia|split; vm_compute; split; discriminate|].
  split; vm_compute; discriminate.
Defined.

(** The day number counts civil days: the date after (y, m, d) has the next
    number, falls on the next weekday, and chronological order is numeric
    order. *)
Theorem date2j_counts_days y m d y2 m2 d2 :
  -4799 <= y <= 5874896 -> -4799 <= y2 <= 5874896 -> valid_date y m d -> valid_date y2 m2 d2 ->
  (let '(y', m', d') := next_day y m d in
   date2j_civil y' m' d' = date2j_civil y m d + 1 /\
   j2day (date2j_civil y' m' d') = (j2day (date2j_civil y m d) + 1) mod 7) /\
  (date_lt y m d y2 m2 d2 <-> date2j_civil y m d < date2j_civil y2 m2 d2).
Proof.
  intros [Hy _] [Hy2 _] Hv Hv2. pose proof (date2j_civil_next y m d Hy Hv) as Hn.
  split.
  - destruct (next_day y m d) as [[y' m'] d']. destruct Hn as [_ ->]. split; [done|].
    unfold j2day. set (J := date2j_civil y m d).
    destruct (Z.ltb_spec (Z.rem (J + 1 + 1) 7) 0), (Z.ltb_spec (Z.rem (J + 1) 7) 0); lia.
  - split; [by apply date2j_civil_lt|]. intros Hlt.
    destruct (date_trichotomy y m d y2 m2 d2) as [?|[(-> & -> & ->)|H]]; [done|lia|].
    apply date2j_civil_lt in H; auto. lia.
Qed.

Lemma date2j_counts_days_witness :
  date2j_civil 2024 3 1 = date2j_civil 2024 2 29 + 1 /\ date_lt 2024 2 29 2100 1 1.
Proof.
  destruct (date2j_counts_days 2024 2 29 2100 1 1) as [H1 H2];
    [lia|lia|split; vm_compute; split; discriminate|split; vm_compute; split; discriminate|].
  split; [apply H1|apply H2; vm_compute; reflexivity].
Defined.

Lemma date2j_int_exact Y M d :
  0 <= Y <= 5879697 -> 0 <= M <= 15 -> (13 < M -> Y <= 5879696) -> 0 <= d <= 31 ->
  int32 (int32 (int32 (int32 (Y * 365) - 32167) + int32 (int32 (Z.quot Y 4 - Z.quot Y 100) + Z.quot (Z.quot Y 100) 4))
         + int32 (Z.quot (int32 (7834 * M)) 256 + d))
  = Y * 365 - 32167 + (Z.quot Y 4 - Z.quot Y 100 + Z.quot (Z.quot Y 100) 4) + (Z.quot (7834 * M) 256 + d).
Proof.
  intros HY HM HYM Hd. rewrite (int32_small (7834 * M)) by (unfold is_int32, INT_MIN, INT_MAX; lia).
  assert (Hq : 0 <= Z.quot Y 4 <= 1469924 /\ 0 <= Z.quot Y 100 <= 58796 /\ 0 <= Z.quot (Z.quot Y 100) 4 <= 14699 /\
               0 <= Z.quot (7834 * M) 256 <= 459 /\ (M <= 13 -> Z.quot (7834 * M) 256 <= 397)) by lia.
  assert (Hleap : Z.quot Y 4 - Z.quot Y 100 + Z.quot (Z.quot Y 100) 4 <= 1425827) by lia.
  assert (H7 : Z.quot Y 100 <= Z.quot Y 4) by lia.
  set (a := Z.quot Y 4) in *. set (c := Z.quot (Z.quot Y 100) 4) in *. set (b := Z.quot Y 100) in *.
  set (e := Z.quot (7834 * M) 256) in *. clearbody c. clearbody a b e. unfold is_int32, INT_MIN, INT_MAX in *.
  rewrite (int32_small (Y * 365)) by (unfold is_int32, INT_MIN, INT_MAX; lia).
  rewrite (int32_small (a - b)) by (unfold is_int32, INT_MIN, INT_MAX; lia).
  rewrite (int32_small (Y * 365 - 32167)) by (unfold is_int32, INT_MIN, INT_MAX; lia).
  rewrite (int32_small (a - b + c)) by (unfold is_int32, INT_MIN, INT_MAX; lia).
  rewrite (int32_small (e + d)) by (unfold is_int32, INT_MIN, INT_MAX; lia).
  rewrite (int32_small (Y * 365 - 32167 + _)) by (unfold is_int32, INT_MIN, INT_MAX; lia).
  apply int32_small. unfold is_int32, INT_MIN, INT_MAX. lia.
Qed.

(** No overflow: for every date whose year lies between -4799 and 5874897
    (the years [IS_VALID_JULIAN] lets through), the computation in 32-bit [int]s
    is the exact one. *)
Theorem date2j_no_overflow y m d :
  -4799 <= y <= 5874897 -> 0 <= m <= 12 -> 0 <= d <= 31 -> date2j_int y m d = date2j_civil y m d.
Proof.
  intros Hy Hm Hd. unfold date2j_int, date2j_civil.
  destruct (Z.ltb_spec 2 m); rewrite ?(int32_small (m + _)), ?(int32_small (y + _))
    by (unfold is_int32, INT_MIN, INT_MAX; lia); apply date2j_int_exact; lia.
Qed.

Lemma date2j_no_overflow_witness : date2j_int 5874897 12 31 = 2147483493.
Proof. rewrite date2j_no_overflow by lia. vm_compute. reflexivity. Defined.
