(* ===== verification/TimeZone.v ===== *)
(** * Time zones: src/timezone/localtime.c

    The zone table ([struct state], what a compiled tz database file holds) and
    the routines that use it: [timesub] breaks a count of seconds into civil
    time by stepping through years, [localsub]/[pg_localtime] find the offset in
    force and call it, [pg_next_dst_boundary] reports the next transition.  The
    contents of the table come from the tz database and are an argument.

    The theorems tie [timesub]'s year-stepping algorithm to the Julian-day
    arithmetic of Gregorian.v and show that the table searches find the segment
    that contains the time. *)

From S2P Require Import Prelude Gregorian.

(** ** Definitions *)

Definition SECSPERDAY : Z := 86400.
Definition SECSPERHOUR : Z := 3600.
Definition SECSPERMIN : Z := 60.
Definition DAYSPERNYEAR : Z := 365.
Definition DAYSPERLYEAR : Z := 366.
Definition YEARSPERREPEAT : Z := 400.
Definition AVGSECSPERYEAR : Z := 31556952.
Definition SECSPERREPEAT : Z := YEARSPERREPEAT * AVGSECSPERYEAR.
Definition TM_YEAR_BASE : Z := 1900.
Definition EPOCH_YEAR : Z := 1970.
Definition EPOCH_WDAY : Z := 4.

(** [struct pg_tm]; [tm_zone] is the abbreviation's index, if any. *)
Record pg_tm := mk_tm {
  tm_sec : Z; tm_min : Z; tm_hour : Z; tm_mday : Z; tm_mon : Z; tm_year : Z;
  tm_wday : Z; tm_yday : Z; tm_isdst : Z; tm_gmtoff : Z; tm_zone : option Z
}.

Definition set_tm_year (y : Z) (t : pg_tm) : pg_tm :=
  mk_tm t.(tm_sec) t.(tm_min) t.(tm_hour) t.(tm_mday) t.(tm_mon) y
        t.(tm_wday) t.(tm_yday) t.(tm_isdst) t.(tm_gmtoff) t.(tm_zone).

Definition set_tm_zone (isdst : Z) (zone : option Z) (t : pg_tm) : pg_tm :=
  mk_tm t.(tm_sec) t.(tm_min) t.(tm_hour) t.(tm_mday) t.(tm_mon) t.(tm_year)
        t.(tm_wday) t.(tm_yday) isdst t.(tm_gmtoff) zone.

Record ttinfo := mk_ttinfo { tt_utoff : Z; tt_isdst : bool; tt_desigidx : Z }.
Record lsinfo := mk_lsinfo { ls_trans : Z; ls_corr : Z }.

(** [struct state]: [timecnt] and [leapcnt] are the lengths of the lists. *)
Record tzstate := mk_state {
  goback : bool; goahead : bool;
  ats : list Z; types : list nat; ttis : list ttinfo; lsis : list lsinfo;
  defaulttype : nat
}.

Definition timecnt (sp : tzstate) : Z := Z.of_nat (length sp.(ats)).
Definition at_ (sp : tzstate) (i : Z) : Z := nth (Z.to_nat i) sp.(ats) 0.
Definition type_ (sp : tzstate) (i : Z) : nat := nth (Z.to_nat i) sp.(types) 0%nat.
Definition tti_ (sp : tzstate) (i : nat) : ttinfo := nth i sp.(ttis) (mk_ttinfo 0 false 0).

Definition year_lengths (leap : bool) : Z := if leap then DAYSPERLYEAR else DAYSPERNYEAR.
Definition mon_lengths (leap : bool) : list Z :=
  if leap then [31; 29; 31; 30; 31; 30; 31; 31; 30; 31; 30; 31]
  else [31; 28; 31; 30; 31; 30; 31; 31; 30; 31; 30; 31].

(** [None]: the addition would overflow an [int]. *)
Definition increment_overflow (i j : Z) : option Z :=
  if (if 0 <=? i then INT_MAX - i <? j else j <? INT_MIN - i) then None else Some (i + j).

Definition leaps_thru_end_of_nonneg (y : Z) : Z := Z.quot y 4 - Z.quot y 100 + Z.quot y 400.
Definition leaps_thru_end_of (y : Z) : Z :=
  if y <? 0 then -1 - leaps_thru_end_of_nonneg (-1 - y) else leaps_thru_end_of_nonneg y.

(** The leap-second scan of [timesub], from the last entry down: correction in
    force and whether [t] is itself an inserted second. *)
Fixpoint leap_scan (t : Z) (rls : list lsinfo) : Z * bool :=
  match rls with
  | [] => (0, false)
  | lp :: rest =>
      if lp.(ls_trans) <=? t then
        (lp.(ls_corr),
         (t =? lp.(ls_trans)) &&
         ((match rest with [] => 0 | p :: _ => p.(ls_corr) end) <? lp.(ls_corr)))
      else leap_scan t rest
  end.

(** One turn of the year loop on (y, tdays). *)
Definition year_step (s : Z * Z) : option (Z * Z) :=
  let '(y, tdays) := s in
  let tdelta := Z.quot tdays DAYSPERLYEAR in
  if negb ((INT_MIN <=? tdelta) && (tdelta <=? INT_MAX)) then None
  else
    let idelta := if tdelta =? 0 then (if tdays <? 0 then -1 else 1) else tdelta in
    match increment_overflow y idelta with
    | None => None
    | Some newy =>
        let leapdays := leaps_thru_end_of (newy - 1) - leaps_thru_end_of (y - 1) in
        Some (newy, tdays - (newy - y) * DAYSPERNYEAR - leapdays)
    end.

Definition year_cond (s : Z * Z) : bool :=
  let '(y, tdays) := s in (tdays <? 0) || (year_lengths (isleap y) <=? tdays).

Definition YEAR_FUEL : nat := 64.

(** The two loops that bring [rem] into a day, on (rem, idays). *)
Definition rem_up (s : Z * Z) : option (Z * Z) := Some (s.1 + SECSPERDAY, s.2 - 1).
Definition rem_down (s : Z * Z) : option (Z * Z) := Some (s.1 - SECSPERDAY, s.2 + 1).
Definition rem_fuel (rem : Z) : nat := Z.to_nat (Z.abs rem / SECSPERDAY + 2).

(** The two loops that bring [idays] into a year, on (y, idays). *)
Definition day_up (s : Z * Z) : option (Z * Z) :=
  match increment_overflow s.1 (-1) with
  | None => None
  | Some y => Some (y, s.2 + year_lengths (isleap y))
  end.
Definition day_down (s : Z * Z) : option (Z * Z) :=
  let idays := s.2 - year_lengths (isleap s.1) in
  match increment_overflow s.1 1 with
  | None => None
  | Some y => Some (y, idays)
  end.
Definition day_fuel (idays : Z) : nat := Z.to_nat (Z.abs idays / 365 + 2).

(** [for (tm_mon = 0; idays >= ip[tm_mon]; ++tm_mon) idays -= ip[tm_mon];] *)
Fixpoint month_scan (ip : list Z) (mon idays : Z) : Z * Z :=
  match ip with
  | [] => (mon, idays)
  | l :: ip' => if l <=? idays then month_scan ip' (mon + 1) (idays - l) else (mon, idays)
  end.

Definition flatten {A} (o : option (option A)) : option A :=
  match o with Some x => x | None => None end.

(** [tm_wday]; the inner remainders avoid overflow. *)
Definition wday_of (y idays : Z) : Z :=
  let wday := EPOCH_WDAY + Z.rem (y - EPOCH_YEAR) 7 * Z.rem DAYSPERNYEAR 7
              + leaps_thru_end_of (y - 1) - leaps_thru_end_of (EPOCH_YEAR - 1) + idays in
  let wday := Z.rem wday 7 in
  if wday <? 0 then wday + 7 else wday.

(** The part of [timesub] after the year loop: from a year, a day number within
    it and a second count to the broken-down time. *)
Definition timesub_fields (y tdays rem offset corr : Z) (hit : bool) : option pg_tm :=
  let idays := int32 tdays in
  let rem := rem + (offset - corr) in
  '(rem, idays) ← flatten (while_loop (rem_fuel rem) (fun s => s.1 <? 0) rem_up (rem, idays));
  '(rem, idays) ← flatten (while_loop (rem_fuel rem) (fun s => SECSPERDAY <=? s.1) rem_down (rem, idays));
  '(y, idays) ← flatten (while_loop (day_fuel idays) (fun s => s.2 <? 0) day_up (y, idays));
  '(y, idays) ← flatten (while_loop (day_fuel idays)
                  (fun s => year_lengths (isleap s.1) <=? s.2) day_down (y, idays));
  tmyear ← increment_overflow y (- TM_YEAR_BASE);
  let yday := idays in
  let wday := wday_of y idays in
  let hour := Z.quot rem SECSPERHOUR in
  let rem := Z.rem rem SECSPERHOUR in
  let min := Z.quot rem SECSPERMIN in
  let sec := Z.rem rem SECSPERMIN + (if hit then 1 else 0) in
  let '(mon, idays) := month_scan (mon_lengths (isleap y)) 0 idays in
  Some (mk_tm sec min hour (idays + 1) mon tmyear wday yday 0 offset None).

(** [timesub]: [None] is the [out_of_range] exit. *)
Definition timesub (timep offset : Z) (sp : tzstate) : option pg_tm :=
  let '(corr, hit) := leap_scan timep (rev sp.(lsis)) in
  '(y, tdays) ← flatten (while_loop YEAR_FUEL year_cond year_step
                           (EPOCH_YEAR, Z.quot timep SECSPERDAY));
  timesub_fields y tdays (Z.rem timep SECSPERDAY) offset corr hit.

(** The binary search both table routines use: [lo] and [hi] close in on the
    first transition after [t]. *)
Definition search_step (sp : tzstate) (t : Z) (s : Z * Z) : option (Z * Z) :=
  let '(lo, hi) := s in
  let mid := Z.shiftr (lo + hi) 1 in
  if t <? at_ sp mid then Some (lo, mid) else Some (mid + 1, hi).

Definition search (sp : tzstate) (t lo hi : Z) : Z :=
  match while_loop (length sp.(ats) + 2) (fun s => s.1 <? s.2) (search_step sp t) (lo, hi) with
  | Some (Some (lo, _)) => lo
  | _ => 0
  end.

(** The type in force at [t], for a time inside the table's range. *)
Definition local_type (sp : tzstate) (t : Z) : nat :=
  if (timecnt sp =? 0) || (t <? at_ sp 0) then sp.(defaulttype)
  else type_ sp (search sp t 1 (timecnt sp) - 1).

(** The guard of the extrapolation branches: [t] lies outside the table and the
    table says that its pattern repeats every 400 years. *)
Definition outside (sp : tzstate) (t : Z) : bool :=
  (sp.(goback) && (t <? at_ sp 0)) || (sp.(goahead) && (at_ sp (timecnt sp - 1) <? t)).

(** Years by which [localsub] moves such a [t] to bring it into the table. *)
Definition repeat_years (sp : tzstate) (t : Z) : Z :=
  let seconds := (if t <? at_ sp 0 then at_ sp 0 - t else t - at_ sp (timecnt sp - 1)) - 1 in
  (Z.quot seconds SECSPERREPEAT + 1) * YEARSPERREPEAT.

Definition localsub_repeat (localsub : Z -> option pg_tm) (sp : tzstate) (t : Z) : option pg_tm :=
  let years := repeat_years sp t in
  let seconds := years * AVGSECSPERYEAR in
  let newt := if t <? at_ sp 0 then t + seconds else t - seconds in
  if (newt <? at_ sp 0) || (at_ sp (timecnt sp - 1) <? newt) then None
  else
    tm ← localsub newt;
    let newy := if t <? at_ sp 0 then tm.(tm_year) - years else tm.(tm_year) + years in
    if negb ((INT_MIN <=? newy) && (newy <=? INT_MAX)) then None
    else Some (set_tm_year newy tm).

Definition localsub_table (sp : tzstate) (t : Z) : option pg_tm :=
  let ttisp := tti_ sp (local_type sp t) in
  tm ← timesub t ttisp.(tt_utoff) sp;
  Some (set_tm_zone (if ttisp.(tt_isdst) then 1 else 0) (Some ttisp.(tt_desigidx)) tm).

Fixpoint localsub (fuel : nat) (sp : tzstate) (t : Z) : option pg_tm :=
  match fuel with
  | O => None
  | S fuel' =>
      if outside sp t then localsub_repeat (localsub fuel' sp) sp t
      else localsub_table sp t
  end.

(** [localsub] calls itself at most once, on a time inside the table. *)
Definition pg_localtime (t : Z) (sp : tzstate) : option pg_tm := localsub 2 sp t.

(** Result of [pg_next_dst_boundary]: its return code with the outputs set. *)
Inductive dst_boundary :=
  | DstNone (before_gmtoff : Z) (before_isdst : bool)
  | DstNext (before_gmtoff : Z) (before_isdst : bool) (boundary : Z)
            (after_gmtoff : Z) (after_isdst : bool)
  | DstFail.

Definition shift_boundary (d : Z) (b : dst_boundary) : dst_boundary :=
  match b with
  | DstNext bo bd b ao ad => DstNext bo bd (b + d) ao ad
  | _ => b
  end.

Fixpoint next_dst_fuel (fuel : nat) (sp : tzstate) (t : Z) : dst_boundary :=
  match fuel with
  | O => DstFail
  | S fuel' =>
      if timecnt sp =? 0 then
        let tt := tti_ sp sp.(defaulttype) in DstNone tt.(tt_utoff) tt.(tt_isdst)
      else if outside sp t then
        let seconds := (if t <? at_ sp 0 then at_ sp 0 - t else t - at_ sp (timecnt sp - 1)) - 1 in
        let icycles := Z.quot (Z.quot seconds YEARSPERREPEAT) AVGSECSPERYEAR + 1 in
        let seconds := icycles * YEARSPERREPEAT * AVGSECSPERYEAR in
        let newt := if t <? at_ sp 0 then t + seconds else t - seconds in
        if (newt <? at_ sp 0) || (at_ sp (timecnt sp - 1) <? newt) then DstFail
        else shift_boundary (if t <? at_ sp 0 then - seconds else seconds)
                            (next_dst_fuel fuel' sp newt)
      else if at_ sp (timecnt sp - 1) <=? t then
        let tt := tti_ sp (type_ sp (timecnt sp - 1)) in DstNone tt.(tt_utoff) tt.(tt_isdst)
      else if t <? at_ sp 0 then
        let tb := tti_ sp sp.(defaulttype) in
        let ta := tti_ sp (type_ sp 0) in
        DstNext tb.(tt_utoff) tb.(tt_isdst) (at_ sp 0) ta.(tt_utoff) ta.(tt_isdst)
      else
        let i := search sp t 1 (timecnt sp - 1) in
        let tb := tti_ sp (type_ sp (i - 1)) in
        let ta := tti_ sp (type_ sp i) in
        DstNext tb.(tt_utoff) tb.(tt_isdst) (at_ sp i) ta.(tt_utoff) ta.(tt_isdst)
  end.

Definition pg_next_dst_boundary (t : Z) (sp : tzstate) : dst_boundary := next_dst_fuel 2 sp t.

(** ** Lemmas: the year-stepping algorithm *)

Lemma leaps_thru_end_of_floor y : leaps_thru_end_of y = y / 4 - y / 100 + y / 400.
Proof.
  unfold leaps_thru_end_of, leaps_thru_end_of_nonneg.
  destruct (Z.ltb_spec y 0); rewrite !Z.quot_div_nonneg by lia; lia.
Qed.

Lemma leaps_step y :
  leaps_thru_end_of y = leaps_thru_end_of (y - 1) + (if isleap y then 1 else 0).
Proof.
  rewrite !leaps_thru_end_of_floor. pose proof (isleap_spec y) as Hs.
  destruct (isleap y); lia.
Qed.

Lemma leaps_range y n :
  0 <= n -> 0 <= leaps_thru_end_of (y + n) - leaps_thru_end_of y <= n.
Proof.
  revert n. apply natlike_ind; [rewrite Z.add_0_r; lia|]. intros n Hn IH.
  pose proof (leaps_step (y + Z.succ n)).
  replace (y + Z.succ n - 1) with (y + n) in * by lia. destruct (isleap _); lia.
Qed.

(** Day number of January 1st of year [y], by [timesub]'s own count. *)
Definition jan1 (y : Z) : Z := 365 * y + leaps_thru_end_of (y - 1) + 1721061.

Lemma jan1_civil y : -4799 <= y -> date2j_civil y 1 0 + 1 = jan1 y.
Proof.
  intros. rewrite date2j_civil_lo by lia. unfold jan1, leap_days.
  rewrite leaps_thru_end_of_floor, !Z.quot_div_nonneg by (try apply Z.quot_pos; lia). lia.
Qed.

Lemma jan1_succ y : jan1 (y + 1) = jan1 y + year_lengths (isleap y).
Proof.
  unfold jan1, year_lengths, DAYSPERLYEAR, DAYSPERNYEAR.
  pose proof (leaps_step y). replace (y + 1 - 1) with y by lia. destruct (isleap y); lia.
Qed.

Definition year_mu (s : Z * Z) : Z := if year_cond s then Z.log2 (Z.abs s.2) + 1 else 0.

(** Halving the distance lowers its logarithm. *)
Lemma log2_half a b :
  2 <= b -> 0 <= a -> 2 * a <= b \/ (a <= 366 /\ b = 731) -> Z.log2 a < Z.log2 b.
Proof.
  intros Hb Ha [H|[H ->]].
  - destruct (decide (a = 0)) as [->|Ha0]; [apply Z.log2_pos; lia|].
    pose proof (Z.log2_double a). pose proof (Z.log2_le_mono (2 * a) b). lia.
  - pose proof (Z.log2_le_mono a 366 H). change (Z.log2 366) with 8 in *.
    change (Z.log2 731) with 9. lia.
Qed.

Lemma increment_overflow_ok i j : is_int32 (i + j) -> increment_overflow i j = Some (i + j).
Proof.
  unfold is_int32, increment_overflow. intros.
  destruct (Z.leb_spec 0 i).
  - by replace (INT_MAX - i <? j) with false by lia.
  - by replace (j <? INT_MIN - i) with false by lia.
Qed.

(** One turn of the loop keeps the day number and closes in on the year. *)
Lemma year_step_spec y T :
  Z.abs y <= 20000000 -> Z.abs T <= 5000000000 -> year_cond (y, T) = true ->
  exists y' T', year_step (y, T) = Some (y', T') /\ jan1 y' + T' = jan1 y + T /\
    (0 <= T -> 0 <= T' /\ 365 <= T /\ (2 * T' <= T \/ (T' <= 366 /\ T = 731))) /\
    (T < 0 -> (T' <= 0 /\ T <= -366 /\ (2 * - T' <= - T \/ (- T' <= 366 /\ T = -731))) \/
              (0 <= T' < year_lengths (isleap y'))).
Proof.
  intros Hy HT Hc. unfold year_cond, year_lengths, DAYSPERLYEAR, DAYSPERNYEAR in Hc.
  unfold year_step. change DAYSPERLYEAR with 366. change DAYSPERNYEAR with 365.
  replace (negb _) with false by (unfold INT_MIN, INT_MAX; lia).
  set (dl := if Z.quot T 366 =? 0 then (if T <? 0 then -1 else 1) else Z.quot T 366).
  assert (Hd : (0 <= T -> 365 <= T /\ 1 <= dl /\ (dl = 1 \/ 366 * dl <= T) /\ T < 366 * (dl + 1)) /\
               (T < 0 -> dl <= -1 /\ ((dl = -1 /\ -366 < T) \/ (T <= 366 * dl /\ 366 * (dl - 1) < T)))).
  { subst dl. destruct (isleap y), (Z.eqb_spec (Z.quot T 366) 0), (Z.ltb_spec T 0); lia. }
  assert (Z.abs dl <= 20000000) by (subst dl; destruct (Z.eqb_spec (Z.quot T 366) 0), (Z.ltb_spec T 0); lia).
  clearbody dl. rewrite increment_overflow_ok by (unfold is_int32, INT_MIN, INT_MAX; lia).
  eexists _, _. split; [reflexivity|]. unfold jan1. split; [lia|].
  split; intros HT0.
  - pose proof (leaps_range (y - 1) dl) as Hl.
    replace (y - 1 + dl) with (y + dl - 1) in Hl by lia. destruct Hd as [Hd _].
    destruct (decide (dl = 1)) as [->|]; [|lia].
    pose proof (leaps_step (y + 1 - 1)) as Hs. replace (y + 1 - 1 - 1) with (y - 1) in Hs by lia.
    replace (y + 1 - 1) with y in * by lia. destruct (isleap y); lia.
  - pose proof (leaps_range (y + dl - 1) (- dl)) as Hl.
    replace (y + dl - 1 + - dl) with (y - 1) in Hl by lia. destruct Hd as [_ Hd].
    destruct (Hd HT0) as [Hd1 [[-> Hd2]|Hd2]]; [right|left; lia].
    pose proof (leaps_step (y - 1)) as Hs. replace (y + -1) with (y - 1) by lia.
    unfold year_lengths. destruct (isleap (y - 1)); unfold DAYSPERLYEAR, DAYSPERNYEAR; lia.
Qed.

(** The year loop ends, within its fuel, on the year of the day number. *)
Lemma year_loop_spec T0 :
  Z.abs T0 <= 2200000000 ->
  exists y T,
    while_loop YEAR_FUEL year_cond year_step (EPOCH_YEAR, T0) = Some (Some (y, T)) /\
    jan1 y + T = jan1 EPOCH_YEAR + T0 /\ 0 <= T < year_lengths (isleap y).
Proof.
  intros HT0.
  destruct (while_loop_inv
    (fun s => jan1 s.1 + s.2 = jan1 EPOCH_YEAR + T0 /\ Z.abs s.2 <= 2200000000)
    year_mu year_cond year_step YEAR_FUEL (EPOCH_YEAR, T0)) as ([y T] & E & [Hj _] & Hc).
  - done.
  - unfold year_mu. pose proof (Z.log2_nonneg (Z.abs T0)).
    pose proof (Z.log2_le_mono (Z.abs T0) 2200000000 HT0) as Hl.
    change (Z.log2 2200000000) with 31 in Hl. change (Z.of_nat YEAR_FUEL) with 64.
    cbn [snd]. destruct (year_cond _); lia.
  - intros s _. unfold year_mu. pose proof (Z.log2_nonneg (Z.abs s.2)). destruct (year_cond s); lia.
  - intros [y T] [Hj HT] Hc. cbn [fst snd] in *.
    destruct (year_step_spec y T) as (y' & T' & E & Hj' & Hp & Hn); [|lia|done|].
    { unfold jan1 in Hj. rewrite !leaps_thru_end_of_floor in Hj. change EPOCH_YEAR with 1970 in Hj. lia. }
    exists (y', T'). split; [done|]. cbn [fst snd].
    unfold year_mu. rewrite Hc. cbn [snd].
    assert (year_cond (y', T') = false \/ Z.log2 (Z.abs T') < Z.log2 (Z.abs T) /\ Z.abs T' <= Z.abs T) as Hlt.
    { destruct (Z.lt_ge_cases T 0) as [H0|H0]; [destruct (Hn H0) as [H1|H1]|specialize (Hp H0)].
      - right. split; [|lia]. apply log2_half; lia.
      - left. unfold year_cond. lia.
      - right. split; [|lia]. apply log2_half; lia. }
    pose proof (Z.log2_nonneg (Z.abs T)).
    destruct Hlt as [Hf|Hlt]; [|destruct (year_cond (y', T')); lia].
    rewrite Hf. split; [split; [lia|]|lia].
    unfold year_cond, year_lengths, DAYSPERLYEAR, DAYSPERNYEAR in Hf. destruct (isleap y'); lia.
  - exists y, T. split; [done|]. split; [done|]. unfold year_cond in Hc. lia.
Qed.

(** Both [rem] loops together: the second count is brought into one day, the
    total number of seconds unchanged. *)
Lemma rem_loops_spec rem idays :
  exists rem1 idays1 rem2 idays2,
    while_loop (rem_fuel rem) (fun s => s.1 <? 0) rem_up (rem, idays) = Some (Some (rem1, idays1)) /\
    while_loop (rem_fuel rem1) (fun s => SECSPERDAY <=? s.1) rem_down (rem1, idays1)
      = Some (Some (rem2, idays2)) /\
    rem2 = (idays * 86400 + rem) mod 86400 /\ idays2 = (idays * 86400 + rem) / 86400.
Proof.
  destruct (while_loop_inv
    (fun s => s.2 * 86400 + s.1 = idays * 86400 + rem)
    (fun s => if s.1 <? 0 then (- s.1 - 1) / 86400 + 1 else 0)
    (fun s : Z * Z => s.1 <? 0) rem_up (rem_fuel rem) (rem, idays)) as ([rem1 idays1] & E1 & H1 & C1).
  { done. }
  { unfold rem_fuel, SECSPERDAY. cbn [fst]. destruct (Z.ltb_spec rem 0); lia. }
  { intros [a b] _. cbn [fst]. destruct (Z.ltb_spec a 0); lia. }
  { intros [a b] HI Hc. eexists. split; [reflexivity|]. unfold SECSPERDAY. cbn [fst snd] in *.
    split; [lia|]. destruct (Z.ltb_spec a 0), (Z.ltb_spec (a + 86400) 0); lia. }
  destruct (while_loop_inv
    (fun s => s.2 * 86400 + s.1 = idays * 86400 + rem /\ 0 <= s.1)
    (fun s => s.1 / 86400)
    (fun s : Z * Z => SECSPERDAY <=? s.1) rem_down (rem_fuel rem1) (rem1, idays1))
    as ([rem2 idays2] & E2 & H2 & C2).
  { cbn [fst snd] in *. lia. }
  { unfold rem_fuel, SECSPERDAY. cbn [fst snd] in *. lia. }
  { intros [a b] [_ ?]. cbn [fst] in *. lia. }
  { intros [a b] HI Hc. eexists. split; [reflexivity|]. unfold SECSPERDAY in *. cbn [fst snd] in *. lia. }
  exists rem1, idays1, rem2, idays2. unfold SECSPERDAY in *. cbn [fst snd] in *.
  split; [done|]. split; [done|]. lia.
Qed.

(** Both [idays] loops together: the day count is brought into one year, the day
    number unchanged. *)
Lemma day_loops_spec y idays :
  Z.abs y <= 10000000 -> Z.abs idays <= 1000000000 ->
  exists y1 idays1 y2 idays2,
    while_loop (day_fuel idays) (fun s => s.2 <? 0) day_up (y, idays) = Some (Some (y1, idays1)) /\
    while_loop (day_fuel idays1) (fun s => year_lengths (isleap s.1) <=? s.2) day_down (y1, idays1)
      = Some (Some (y2, idays2)) /\
    jan1 y2 + idays2 = jan1 y + idays /\ 0 <= idays2 < year_lengths (isleap y2) /\
    Z.abs y2 <= 20000000.
Proof.
  intros Hy Hi.
  destruct (while_loop_inv
    (fun s => jan1 s.1 + s.2 = jan1 y + idays /\ Z.abs s.2 <= 1000000000 /\
       y - 3000000 < s.1 <= y /\ (s.2 < 0 -> -s.2 <= 1000000000 - 365 * (y - s.1)))
    (fun s => if s.2 <? 0 then (- s.2 - 1) / 365 + 1 else 0)
    (fun s : Z * Z => s.2 <? 0) day_up (day_fuel idays) (y, idays)) as ([y1 idays1] & E1 & H1 & C1).
  { cbn [fst snd]. lia. }
  { unfold day_fuel. cbn [snd]. destruct (Z.ltb_spec idays 0); lia. }
  { intros [a b] _. cbn [snd]. destruct (Z.ltb_spec b 0); lia. }
  { intros [a b] HI Hc. unfold day_up. cbn [fst snd] in *.
    rewrite increment_overflow_ok by (unfold is_int32, INT_MIN, INT_MAX; lia).
    eexists. split; [reflexivity|]. cbn [fst snd].
    pose proof (jan1_succ (a + -1)) as Hs. replace (a + -1 + 1) with a in Hs by lia.
    unfold year_lengths, DAYSPERLYEAR, DAYSPERNYEAR in *.
    destruct (isleap (a + -1)); (split; [lia|]); destruct (Z.ltb_spec b 0); try lia;
      match goal with |- context [?u <? 0] => destruct (Z.ltb_spec u 0) end; lia. }
  destruct (while_loop_inv
    (fun s => jan1 s.1 + s.2 = jan1 y + idays /\ 0 <= s.2 <= 1000000000 /\
       y - 3000000 < s.1 /\ s.2 <= 1000000000 - 365 * (s.1 - y))
    (fun s => s.2 / 365)
    (fun s : Z * Z => year_lengths (isleap s.1) <=? s.2) day_down (day_fuel idays1) (y1, idays1))
    as ([y2 idays2] & E2 & H2 & C2).
  { cbn [fst snd] in *. lia. }
  { unfold day_fuel. cbn [fst snd] in *. lia. }
  { intros [a b] HI. cbn [fst snd] in *. lia. }
  { intros [a b] HI Hc. unfold day_down. cbn [fst snd] in *.
    assert (a <= y + 2800000) by lia.
    rewrite increment_overflow_ok by (unfold is_int32, INT_MIN, INT_MAX; lia).
    eexists. split; [reflexivity|]. cbn [fst snd]. pose proof (jan1_succ a) as Hs.
    unfold year_lengths, DAYSPERLYEAR, DAYSPERNYEAR in *. destruct (isleap a); lia. }
  exists y1, idays1, y2, idays2. cbn [fst snd] in *.
  split; [done|]. split; [done|]. lia.
Qed.

(** The month scan inverts the month lengths. *)
Lemma month_scan_spec y idays :
  -4799 <= y -> 0 <= idays < year_lengths (isleap y) ->
  exists mon d, month_scan (mon_lengths (isleap y)) 0 idays = (mon, d) /\
    valid_date y (mon + 1) (d + 1) /\
    date2j_civil y (mon + 1) (d + 1) = jan1 y + idays.
Proof.
  intros Hy Hi. rewrite <- jan1_civil by done.
  assert (G : forall k idays, (k <= 12)%nat -> 0 <= idays ->
    date2j_civil y (Z.of_nat (12 - k) + 1) 0 + 1 + idays < date2j_civil (y + 1) 1 0 + 1 ->
    (k <> 0)%nat ->
    exists mon d, month_scan (drop (12 - k) (mon_lengths (isleap y))) (Z.of_nat (12 - k)) idays = (mon, d) /\
      valid_date y (mon + 1) (d + 1) /\
      date2j_civil y (mon + 1) (d + 1) = date2j_civil y (Z.of_nat (12 - k) + 1) 0 + 1 + idays).
  { clear idays Hi. induction k as [|k IH]; intros idays Hk H0 Hlt Hne; [done|].
    assert (Hm : 1 <= Z.of_nat (12 - S k) + 1 <= 12) by lia.
    assert (drop (12 - S k) (mon_lengths (isleap y)) =
      month_days y (Z.of_nat (12 - S k) + 1) :: drop (12 - k) (mon_lengths (isleap y))) as ->.
    { unfold month_days, mon_lengths, day_tab.
      do 12 (destruct k as [|k]; [destruct (isleap y); reflexivity|]). lia. }
    cbn [month_scan]. destruct (Z.leb_spec (month_days y (Z.of_nat (12 - S k) + 1)) idays).
    - destruct (decide (k = 0)%nat) as [->|Hk0].
      { exfalso. change (Z.of_nat (12 - 1) + 1) with 12 in *.
        rewrite date2j_civil_year in Hlt by done.
        assert (month_days y 12 = 31) by (rewrite month_days_eq by lia; reflexivity). lia. }
      replace (Z.of_nat (12 - S k) + 1) with (Z.of_nat (12 - k)) by lia.
      replace (Z.of_nat (12 - S k) + 1) with (Z.of_nat (12 - k)) in * by lia.
      pose proof (date2j_civil_month y (Z.of_nat (12 - k)) Hy) as Hms.
      destruct (IH (idays - month_days y (Z.of_nat (12 - k)))) as (mon & d & E & Hv & He);
        [lia..|]. exists mon, d. split; [done|]. split; [done|]. rewrite He. lia.
    - exists (Z.of_nat (12 - S k)), idays. split; [done|]. split; [split; lia|].
      rewrite date2j_civil_day. lia. }
  destruct (G 12%nat idays) as (mon & d & E & Hv & He); [lia|lia| |lia|].
  - change (Z.of_nat (12 - 12) + 1) with 1. rewrite !jan1_civil by lia. rewrite jan1_succ. lia.
  - exists mon, d. done.
Qed.

Lemma jan1_lower y i : 0 <= jan1 y + i -> i < 366 -> -4715 <= y.
Proof. unfold jan1. rewrite leaps_thru_end_of_floor. lia. Qed.

Lemma jan1_upper y i : jan1 y + i <= 5000000000 -> -366 <= i -> y <= 14000000.
Proof. unfold jan1. rewrite leaps_thru_end_of_floor. lia. Qed.

(** [timesub]'s day-of-week formula agrees with [j2day]. *)
Lemma wday_spec y i : 0 <= jan1 y + i -> wday_of y i = j2day (jan1 y + i).
Proof.
  intros H. unfold wday_of, j2day. cbn zeta. set (r := Z.rem (jan1 y + i + 1) 7).
  replace (r <? 0) with false by lia. subst r. unfold jan1 in *.
  change EPOCH_WDAY with 4. change EPOCH_YEAR with 1970. change (Z.rem DAYSPERNYEAR 7) with 1.
  change (leaps_thru_end_of (1970 - 1)) with 477.
  generalize dependent (leaps_thru_end_of (y - 1)). intros l Hl.
  match goal with |- context [?w <? 0] => destruct (Z.ltb_spec w 0) end; lia.
Qed.

(** The clock fields of a second of the day. *)
Lemma day_seconds_quot r : 0 <= r < 86400 -> Z.quot r 3600 = r / 3600.
Proof. lia. Qed.

Lemma day_seconds_min r : 0 <= r < 86400 -> Z.quot (Z.rem r 3600) 60 = r / 60 mod 60.
Proof. lia. Qed.

Lemma day_seconds_sec r : 0 <= r < 86400 -> Z.rem (Z.rem r 3600) 60 + 0 = r mod 60.
Proof. lia. Qed.

(** [timesub] on a zone table without leap seconds: total on the supported
    range, and equal to the Julian-day breakdown of the shifted time. *)
Lemma timesub_spec t off sp y m d :
  lsis sp = [] -> Z.abs off <= 2147483648 ->
  let jd := (t + off) / 86400 + 2440588 in
  let r := (t + off) mod 86400 in
  0 <= jd <= INT_MAX -> j2date jd = (y, m, d) ->
  timesub t off sp =
    Some (mk_tm (r mod 60) (r / 60 mod 60) (r / 3600) d (m - 1) (y - 1900)
                (j2day jd) (jd - jan1 y) 0 off None).
Proof.
  intros Hls Hoff jd r Hjd E. unfold timesub. rewrite Hls. cbn [rev leap_scan app].
  assert (Ht : Z.abs (Z.quot t SECSPERDAY) <= 2200000000)
    by (unfold SECSPERDAY, INT_MAX in *; lia).
  destruct (year_loop_spec _ Ht) as (y0 & T & -> & Hj0 & HT). cbn [flatten mbind option_bind].
  change (jan1 EPOCH_YEAR) with 2440588 in Hj0.
  assert (HT' : 0 <= T < 366) by (unfold year_lengths, DAYSPERLYEAR, DAYSPERNYEAR in HT; destruct (isleap y0); lia).
  unfold timesub_fields. rewrite int32_small by (unfold is_int32, INT_MIN, INT_MAX; lia).
  rewrite Z.sub_0_r.
  destruct (rem_loops_spec (Z.rem t SECSPERDAY + off) T) as (r1 & i1 & r2 & i2 & -> & E2 & Hr2 & Hi2).
  cbn [flatten mbind option_bind]. rewrite E2. cbn [flatten mbind option_bind]. clear E2.
  assert (Hd : T * 86400 + (Z.rem t SECSPERDAY + off) = t + off - 86400 * (jan1 y0 - 2440588))
    by (unfold SECSPERDAY in *; lia).
  rewrite Hd in Hr2, Hi2.
  assert (r2 = r) as -> by (unfold r; lia). assert (i2 = jd - jan1 y0) as -> by (unfold jd; lia).
  assert (Hjt : jan1 y0 + T = Z.quot t SECSPERDAY + 2440588) by lia.
  destruct (day_loops_spec y0 (jd - jan1 y0)) as (y1 & i1' & y2 & i2 & -> & E2 & Hj2 & Hi2' & Hy2).
  { unfold jan1 in Hjt. rewrite leaps_thru_end_of_floor in Hjt. unfold SECSPERDAY, INT_MAX in *. lia. }
  { unfold SECSPERDAY, INT_MAX in *. lia. }
  cbn [flatten mbind option_bind]. rewrite E2. cbn [flatten mbind option_bind]. clear E2.
  assert (Hi3 : 0 <= i2 < 366) by (unfold year_lengths, DAYSPERLYEAR, DAYSPERNYEAR in Hi2'; destruct (isleap y2); lia).
  rewrite increment_overflow_ok by (unfold is_int32, INT_MIN, INT_MAX, TM_YEAR_BASE; lia).
  cbn [mbind option_bind]. pose proof (jan1_lower y2 i2) as Hlow.
  destruct (month_scan_spec y2 i2) as (mon & dd & -> & Hv & He); [lia|done|].
  rewrite Hj2 in He. replace (jan1 y0 + (jd - jan1 y0)) with jd in * by lia.
  assert (j2date jd = (y2, mon + 1, dd + 1)) as E3
    by (rewrite <- He; apply j2date_date2j_civil; [lia|done|by rewrite He]).
  rewrite E in E3. injection E3 as -> -> ->.
  rewrite wday_spec, Hj2 by lia.
  f_equal. unfold SECSPERMIN, SECSPERHOUR, TM_YEAR_BASE.
  assert (Hr : 0 <= r < 86400) by (unfold r; lia).
  replace i2 with (jd - jan1 y2) by lia. clearbody r jd.
  rewrite (day_seconds_quot r Hr), (day_seconds_min r Hr), (day_seconds_sec r Hr).
  replace (mon + 1 - 1) with mon by lia. reflexivity.
Qed.

(** ** Lemmas: the table searches *)

(** Well-formed tables, as [tzload] leaves them: strictly ascending transitions,
    each with a type; no leap seconds (none of the zones PostgreSQL ships has
    any); a table that extrapolates spans a whole 400-year cycle
    ([differ_by_repeat]). *)
Record wf_state (sp : tzstate) : Prop := {
  wf_sorted : forall i j, 0 <= i < j -> j < timecnt sp -> at_ sp i < at_ sp j;
  wf_leap : lsis sp = [];
  wf_utoff : forall i, Z.abs (tt_utoff (tti_ sp i)) < SECSPERDAY;
  wf_repeat : goback sp || goahead sp = true ->
    0 < timecnt sp /\ SECSPERREPEAT <= at_ sp (timecnt sp - 1) - at_ sp 0 /\
    -210000000000 <= at_ sp 0 /\ at_ sp (timecnt sp - 1) <= 100000000000000
}.

(** [t] lies in segment [i]: after transition [i - 1], before transition [i]. *)
Definition in_segment (sp : tzstate) (t i : Z) : Prop :=
  0 <= i <= timecnt sp /\ (0 < i -> at_ sp (i - 1) <= t) /\ (i < timecnt sp -> t < at_ sp i).

(** The type in force in segment [i]. *)
Definition segment_type (sp : tzstate) (i : Z) : nat :=
  if i =? 0 then defaulttype sp else type_ sp (i - 1).

Lemma in_segment_unique sp t i j :
  wf_state sp -> in_segment sp t i -> in_segment sp t j -> i = j.
Proof.
  intros Hwf (Hi & Hi1 & Hi2) (Hj & Hj1 & Hj2).
  destruct (Z.lt_trichotomy i j) as [H|[H|H]]; [|done|].
  - destruct (decide (i = j - 1)) as [->|]; [lia|].
    pose proof (wf_sorted sp Hwf i (j - 1)). lia.
  - destruct (decide (j = i - 1)) as [->|]; [lia|].
    pose proof (wf_sorted sp Hwf j (i - 1)). lia.
Qed.

Lemma search_spec sp t lo hi :
  1 <= lo <= hi -> hi <= timecnt sp -> at_ sp (lo - 1) <= t ->
  lo <= search sp t lo hi <= hi /\
  at_ sp (search sp t lo hi - 1) <= t /\
  (search sp t lo hi = hi \/ t < at_ sp (search sp t lo hi)).
Proof.
  intros Hlh Hhi Hlo. unfold search.
  destruct (while_loop_inv
    (fun s => lo <= s.1 <= s.2 /\ s.2 <= hi /\ at_ sp (s.1 - 1) <= t /\ (s.2 = hi \/ t < at_ sp s.2))
    (fun s => s.2 - s.1) (fun s : Z * Z => s.1 <? s.2) (search_step sp t)
    (length (ats sp) + 2) (lo, hi)) as ([a b] & -> & Hinv & Hc).
  { cbn [fst snd]. lia. }
  { cbn [fst snd]. unfold timecnt in Hhi. lia. }
  { intros [a b] ?. cbn [fst snd] in *. lia. }
  { intros [a b] Hinv Hc. cbn [fst snd] in *. unfold search_step.
    rewrite Z.shiftr_div_pow2 by lia. change (2 ^ 1) with 2.
    destruct (Z.ltb_spec t (at_ sp ((a + b) / 2))); (eexists; split; [reflexivity|]);
      cbn [fst snd]; [lia|].
    replace ((a + b) / 2 + 1 - 1) with ((a + b) / 2) by lia. lia. }
  cbn [fst snd] in *. assert (a = b) as -> by lia. lia.
Qed.

Lemma timecnt_nonneg sp : 0 <= timecnt sp.
Proof. unfold timecnt. lia. Qed.

(** [localsub]'s lookup finds the segment of [t]. *)
Lemma local_type_spec sp t :
  wf_state sp -> exists i, in_segment sp t i /\ local_type sp t = segment_type sp i.
Proof.
  intros Hwf. pose proof (timecnt_nonneg sp). unfold local_type, segment_type, in_segment.
  destruct (Z.eqb_spec (timecnt sp) 0) as [H0|H0]; [exists 0; cbn; lia|].
  destruct (Z.ltb_spec t (at_ sp 0)) as [H1|H1]; [exists 0; cbn; split; [lia|done]|].
  cbn [orb]. destruct (search_spec sp t 1 (timecnt sp)) as (Ha & Hb & Hc); [lia|lia|exact H1|].
  exists (search sp t 1 (timecnt sp)). split; [lia|].
  by replace (search sp t 1 (timecnt sp) =? 0) with false by lia.
Qed.

(** The UTC offset in force at [t], the table extended by its 400-year cycle. *)
Definition repeat_shift (sp : tzstate) (t : Z) : Z :=
  if negb (outside sp t) then 0
  else if t <? at_ sp 0 then (Z.quot (at_ sp 0 - t - 1) SECSPERREPEAT + 1) * SECSPERREPEAT
  else - ((Z.quot (t - at_ sp (timecnt sp - 1) - 1) SECSPERREPEAT + 1) * SECSPERREPEAT).

Definition utoff_at (sp : tzstate) (t : Z) : Z :=
  tt_utoff (tti_ sp (local_type sp (t + repeat_shift sp t))).

(** The shifted time lies inside the table. *)
Lemma repeat_shift_inside sp t :
  wf_state sp -> outside sp t = true ->
  at_ sp 0 <= t + repeat_shift sp t <= at_ sp (timecnt sp - 1) /\
  outside sp (t + repeat_shift sp t) = false.
Proof.
  intros Hwf Ho. assert (Hg : goback sp || goahead sp = true).
  { unfold outside in Ho. destruct (goback sp), (goahead sp); done. }
  destruct (wf_repeat sp Hwf Hg) as (Hn & Hsp & _).
  assert (at_ sp 0 <= t + repeat_shift sp t <= at_ sp (timecnt sp - 1)) as Hin.
  { unfold repeat_shift. rewrite Ho. cbn [negb].
    change SECSPERREPEAT with 12622780800 in *.
    destruct (Z.ltb_spec t (at_ sp 0)); [lia|].
    assert (at_ sp (timecnt sp - 1) < t).
    { unfold outside in Ho. destruct (goback sp), (goahead sp); cbn in Ho; lia. }
    lia. }
  split; [done|]. unfold outside. lia.
Qed.

Lemma repeat_shift_years sp t :
  exists k, repeat_shift sp t = 12622780800 * k.
Proof.
  unfold repeat_shift. destruct (negb _); [exists 0; lia|].
  destruct (t <? at_ sp 0); change SECSPERREPEAT with 12622780800; [eexists; apply Z.mul_comm|].
  eexists. rewrite <- Z.mul_opp_l. apply Z.mul_comm.
Qed.

(** The Gregorian cycle: 400 years are 146097 days, a whole number of weeks. *)
Lemma isleap_400 y k : isleap (y + 400 * k) = isleap y.
Proof.
  pose proof (isleap_spec y) as H1. pose proof (isleap_spec (y + 400 * k)) as H2.
  assert (Z.rem (y + 400 * k) 4 = 0 <-> Z.rem y 4 = 0) by lia.
  assert (Z.rem (y + 400 * k) 100 = 0 <-> Z.rem y 100 = 0) by lia.
  assert (Z.rem (y + 400 * k) 400 = 0 <-> Z.rem y 400 = 0) by lia.
  destruct (isleap y), (isleap (y + 400 * k)); try done; tauto.
Qed.

Lemma jan1_400 y k : jan1 (y + 400 * k) = jan1 y + 146097 * k.
Proof. unfold jan1. rewrite !leaps_thru_end_of_floor. lia. Qed.

Lemma leap_days_400 y k : 0 <= y -> 0 <= y + 400 * k -> leap_days (y + 400 * k) = leap_days y + 97 * k.
Proof.
  intros. unfold leap_days. rewrite !Z.quot_div_nonneg by (try apply Z.quot_pos; lia). lia.
Qed.

Lemma date2j_civil_400 y m d k :
  -4799 <= y -> -4799 <= y + 400 * k ->
  date2j_civil (y + 400 * k) m d = date2j_civil y m d + 146097 * k.
Proof.
  intros. destruct (Z.le_gt_cases m 2).
  - rewrite !date2j_civil_lo by done. pose proof (leap_days_400 (y + 4799) k) as Hl.
    replace (y + 4799 + 400 * k) with (y + 400 * k + 4799) in Hl by lia. lia.
  - rewrite !date2j_civil_hi by done. pose proof (leap_days_400 (y + 4800) k) as Hl.
    replace (y + 4800 + 400 * k) with (y + 400 * k + 4800) in Hl by lia. lia.
Qed.

(** A valid date lies within its year. *)
Lemma year_position y m d :
  -4799 <= y -> valid_date y m d -> 0 <= date2j_civil y m d - jan1 y < 366.
Proof.
  intros Hy [Hm Hd]. rewrite date2j_civil_day.
  pose proof (date2j_civil_month_end y m Hy Hm) as He. pose proof (jan1_civil y Hy) as Hj.
  pose proof (jan1_civil (y + 1)) as Hj'. rewrite jan1_succ in Hj'.
  assert (date2j_civil y 1 0 <= date2j_civil y m 0).
  { destruct (decide (m = 1)) as [->|]; [done|].
    pose proof (date2j_civil_month_mono y 1 m). pose proof (month_days_range y 1). lia. }
  unfold year_lengths, DAYSPERLYEAR, DAYSPERNYEAR in *. destruct (isleap y); lia.
Qed.

Lemma j2date_400 jd k y m d :
  0 <= jd <= INT_MAX -> 0 <= jd + 146097 * k <= INT_MAX ->
  j2date jd = (y, m, d) -> j2date (jd + 146097 * k) = (y + 400 * k, m, d).
Proof.
  intros Hj Hk E. pose proof (j2date_spec jd y m d Hj E) as (_ & Hv & He).
  pose proof (j2date_year _ _ _ _ Hj E) as Hy. pose proof (year_position y m d Hy Hv) as Hp.
  assert (-4799 <= y + 400 * k).
  { pose proof (jan1_lower (y + 400 * k) (date2j_civil y m d - jan1 y)) as Hl.
    rewrite jan1_400 in Hl. lia. }
  rewrite <- He, <- date2j_civil_400 in * by done. apply j2date_date2j_civil; [done| |done].
  unfold valid_date, month_days in *. by rewrite isleap_400.
Qed.

Lemma j2day_400 jd k : 0 <= jd -> 0 <= jd + 146097 * k -> j2day (jd + 146097 * k) = j2day jd.
Proof.
  intros. unfold j2day. replace (Z.rem (jd + 146097 * k + 1) 7 <? 0) with false by lia.
  replace (Z.rem (jd + 1) 7 <? 0) with false by lia. lia.
Qed.

(** The broken-down local time of [t] at offset [off]. *)
Definition local_tm (t off isdst : Z) (zone : option Z) : pg_tm :=
  let jd := (t + off) / 86400 + 2440588 in
  let r := (t + off) mod 86400 in
  let '(y, m, d) := j2date jd in
  mk_tm (r mod 60) (r / 60 mod 60) (r / 3600) d (m - 1) (y - 1900)
        (j2day jd) (jd - jan1 y) isdst off zone.

Definition local_jd (t off : Z) : Z := (t + off) / 86400 + 2440588.

Lemma timesub_local sp t off :
  lsis sp = [] -> Z.abs off <= 2147483648 -> 0 <= local_jd t off <= INT_MAX ->
  timesub t off sp = Some (local_tm t off 0 None).
Proof.
  intros Hl Ho Hj. unfold local_tm. destruct (j2date _) as [[y m] d] eqn:E.
  by apply timesub_spec.
Qed.

Lemma tm_year_set y t : tm_year (set_tm_year y t) = y.
Proof. reflexivity. Qed.

(** Local times 400 years apart differ in the year only. *)
Lemma local_tm_400 t off isdst zone k :
  0 <= local_jd t off <= INT_MAX -> 0 <= local_jd (t + 12622780800 * k) off <= INT_MAX ->
  set_tm_year (tm_year (local_tm (t + 12622780800 * k) off isdst zone) - 400 * k)
              (local_tm (t + 12622780800 * k) off isdst zone)
  = local_tm t off isdst zone.
Proof.
  intros Hj Hk. unfold local_tm, local_jd in *.
  replace ((t + 12622780800 * k + off) / 86400 + 2440588)
    with ((t + off) / 86400 + 2440588 + 146097 * k) in * by lia.
  replace ((t + 12622780800 * k + off) mod 86400) with ((t + off) mod 86400) by lia.
  destruct (j2date ((t + off) / 86400 + 2440588)) as [[y m] d] eqn:E.
  rewrite (j2date_400 _ k y m d Hj Hk E). unfold set_tm_year.
  cbn [tm_sec tm_min tm_hour tm_mday tm_mon tm_year tm_wday tm_yday tm_isdst tm_gmtoff tm_zone].
  rewrite j2day_400, jan1_400 by lia.
  replace (y + 400 * k - 1900 - 400 * k) with (y - 1900) by lia.
  by replace ((t + off) / 86400 + 2440588 + 146097 * k - (jan1 y + 146097 * k))
    with ((t + off) / 86400 + 2440588 - jan1 y) by lia.
Qed.

Lemma local_tm_year t off isdst zone :
  0 <= local_jd t off <= INT_MAX -> -6700 <= tm_year (local_tm t off isdst zone) <= 5874898.
Proof.
  intros Hj. unfold local_tm, local_jd in *.
  destruct (j2date ((t + off) / 86400 + 2440588)) as [[y m] d] eqn:E.
  pose proof (j2date_spec _ y m d Hj E) as (Hy & _). cbn [tm_year]. lia.
Qed.

Definition type_at (sp : tzstate) (t : Z) : ttinfo :=
  tti_ sp (local_type sp (t + repeat_shift sp t)).

Lemma set_tm_zone_local t off isdst zone :
  set_tm_zone isdst zone (local_tm t off 0 None) = local_tm t off isdst zone.
Proof. unfold local_tm. by destruct (j2date _) as [[? ?] ?]. Qed.

(** [localsub] on a time inside the table. *)
Lemma localsub_table_spec sp t :
  wf_state sp ->
  let tt := tti_ sp (local_type sp t) in
  0 <= local_jd t (tt_utoff tt) <= INT_MAX ->
  localsub_table sp t =
    Some (local_tm t (tt_utoff tt) (if tt_isdst tt then 1 else 0) (Some (tt_desigidx tt))).
Proof.
  intros Hwf tt Hj. unfold localsub_table. fold tt.
  rewrite timesub_local; [|by apply wf_leap| |done].
  - cbn [mbind option_bind]. by rewrite set_tm_zone_local.
  - pose proof (wf_utoff sp Hwf (local_type sp t)) as H. unfold SECSPERDAY in H. unfold tt. lia.
Qed.

Lemma repeat_years_shift sp t k :
  outside sp t = true -> repeat_shift sp t = 12622780800 * k ->
  repeat_years sp t = if t <? at_ sp 0 then 400 * k else - (400 * k).
Proof.
  intros Ho Hk. unfold repeat_shift in Hk. rewrite Ho in Hk. cbn [negb] in Hk.
  unfold repeat_years. change SECSPERREPEAT with 12622780800 in *.
  change YEARSPERREPEAT with 400. destruct (t <? at_ sp 0); lia.
Qed.

(** [localsub] on a time outside the table, [k] cycles away from it. *)
Lemma localsub_repeat_spec rec sp t k off isdst zone :
  wf_state sp -> outside sp t = true -> repeat_shift sp t = 12622780800 * k ->
  rec (t + 12622780800 * k) = Some (local_tm (t + 12622780800 * k) off isdst zone) ->
  0 <= local_jd t off <= INT_MAX -> 0 <= local_jd (t + 12622780800 * k) off <= INT_MAX ->
  localsub_repeat rec sp t = Some (local_tm t off isdst zone).
Proof.
  intros Hwf Ho Hk Hrec Hj Hjk. pose proof (repeat_shift_inside sp t Hwf Ho) as [Hin _].
  rewrite Hk in Hin. unfold localsub_repeat. rewrite (repeat_years_shift sp t k Ho Hk).
  pose proof (local_tm_400 t off isdst zone k Hj Hjk) as He.
  pose proof (f_equal tm_year He) as Hy. rewrite tm_year_set in Hy.
  pose proof (local_tm_year t off isdst zone Hj) as Hr.
  destruct (t <? at_ sp 0).
  - replace (t + 400 * k * AVGSECSPERYEAR) with (t + 12622780800 * k)
      by (unfold AVGSECSPERYEAR; lia).
    replace ((_ <? _) || (_ <? _)) with false by lia. rewrite Hrec. cbn [mbind option_bind].
    replace (negb _) with false by (unfold INT_MIN, INT_MAX; lia). by rewrite He.
  - replace (t - - (400 * k) * AVGSECSPERYEAR) with (t + 12622780800 * k)
      by (unfold AVGSECSPERYEAR; lia).
    replace ((_ <? _) || (_ <? _)) with false by lia. rewrite Hrec. cbn [mbind option_bind].
    rewrite Z.add_opp_r.
    replace (negb _) with false by (unfold INT_MIN, INT_MAX; lia). by rewrite He.
Qed.

Lemma wf_repeat_jd sp t off :
  wf_state sp -> outside sp t = true -> Z.abs off < SECSPERDAY ->
  0 <= local_jd (t + repeat_shift sp t) off <= INT_MAX.
Proof.
  intros Hwf Ho Hoff. pose proof (repeat_shift_inside sp t Hwf Ho) as [Hin _].
  assert (Hg : goback sp || goahead sp = true).
  { unfold outside in Ho. destruct (goback sp), (goahead sp); done. }
  pose proof (wf_repeat sp Hwf Hg) as (_ & _ & Ha & Hb).
  unfold local_jd, SECSPERDAY, INT_MAX in *. lia.
Qed.

(** [pg_localtime] on a well-formed table: total on the supported range, the
    breakdown of [t] plus the offset in force. *)
Lemma pg_localtime_spec sp t :
  wf_state sp -> 0 <= local_jd t (utoff_at sp t) <= INT_MAX ->
  pg_localtime t sp =
    Some (local_tm t (utoff_at sp t) (if tt_isdst (type_at sp t) then 1 else 0)
                   (Some (tt_desigidx (type_at sp t)))).
Proof.
  intros Hwf Hj. unfold pg_localtime. cbn [localsub]. destruct (outside sp t) eqn:Ho.
  - destruct (repeat_shift_years sp t) as [k Hk].
    pose proof (repeat_shift_inside sp t Hwf Ho) as [_ Hout].
    pose proof (wf_repeat_jd sp t (utoff_at sp t) Hwf Ho (wf_utoff sp Hwf _)) as Hjk.
    apply (localsub_repeat_spec _ _ _ k); rewrite <- ?Hk; try done.
    rewrite Hout. by apply localsub_table_spec.
  - unfold utoff_at, type_at in *. assert (repeat_shift sp t = 0) as Hs.
    { unfold repeat_shift. by rewrite Ho. }
    rewrite Hs, Z.add_0_r in *. by apply localsub_table_spec.
Qed.

Lemma local_type_segment sp t i :
  wf_state sp -> in_segment sp t i -> local_type sp t = segment_type sp i.
Proof.
  intros Hwf Hi. destruct (local_type_spec sp t Hwf) as (j & Hj & ->).
  by rewrite (in_segment_unique sp t i j).
Qed.

(** What [pg_next_dst_boundary] reports for segment [i]. *)
Definition segment_boundary (sp : tzstate) (i : Z) : dst_boundary :=
  let tb := tti_ sp (segment_type sp i) in
  if i =? timecnt sp then DstNone tb.(tt_utoff) tb.(tt_isdst)
  else
    let ta := tti_ sp (segment_type sp (i + 1)) in
    DstNext tb.(tt_utoff) tb.(tt_isdst) (at_ sp i) ta.(tt_utoff) ta.(tt_isdst).

Lemma next_dst_segment sp t :
  wf_state sp -> outside sp t = false ->
  exists i, in_segment sp t i /\ pg_next_dst_boundary t sp = segment_boundary sp i.
Proof.
  intros Hwf Ho. pose proof (timecnt_nonneg sp). unfold pg_next_dst_boundary.
  cbn [next_dst_fuel]. rewrite Ho. unfold segment_boundary, in_segment, segment_type.
  destruct (Z.eqb_spec (timecnt sp) 0) as [H0|H0].
  { exists 0. rewrite H0. cbn. split; [lia|done]. }
  destruct (Z.leb_spec (at_ sp (timecnt sp - 1)) t) as [H1|H1].
  { exists (timecnt sp). rewrite Z.eqb_refl. split; [lia|].
    by replace (timecnt sp =? 0) with false by lia. }
  destruct (Z.ltb_spec t (at_ sp 0)) as [H2|H2].
  { exists 0. replace (0 =? timecnt sp) with false by lia. split; [lia|done]. }
  assert (timecnt sp <> 1) by (intros E; rewrite E in H1; change (1 - 1) with 0 in H1; lia).
  destruct (search_spec sp t 1 (timecnt sp - 1)) as (Ha & Hb & Hc); [lia|lia|exact H2|].
  set (i := search sp t 1 (timecnt sp - 1)) in *. exists i.
  replace (i =? timecnt sp) with false by lia. replace (i =? 0) with false by lia.
  replace (i + 1 =? 0) with false by lia. replace (i + 1 - 1) with i by lia.
  split; [|done]. split; [lia|]. split; [done|]. destruct Hc as [->|Hc]; lia.
Qed.

(** Outside the table the report is that of the shifted time, shifted back. *)
Lemma next_dst_outside n sp t :
  wf_state sp -> outside sp t = true ->
  next_dst_fuel (S n) sp t = shift_boundary (- repeat_shift sp t) (next_dst_fuel n sp (t + repeat_shift sp t)).
Proof.
  intros Hwf Ho. destruct (repeat_shift_inside sp t Hwf Ho) as [Hin _].
  assert (Hg : goback sp || goahead sp = true).
  { unfold outside in Ho. destruct (goback sp), (goahead sp); done. }
  destruct (wf_repeat sp Hwf Hg) as (Hn & _). cbn [next_dst_fuel].
  rewrite Ho. replace (timecnt sp =? 0) with false by lia.
  unfold repeat_shift in *. rewrite Ho in *. cbn [negb] in *.
  change SECSPERREPEAT with 12622780800 in *. change YEARSPERREPEAT with 400. change AVGSECSPERYEAR with 31556952.
  destruct (Z.ltb_spec t (at_ sp 0)) as [Hlt|Hge].
  - set (q := Z.quot (Z.quot (at_ sp 0 - t - 1) 400) 31556952).
    assert (Hq : q = Z.quot (at_ sp 0 - t - 1) 12622780800) by (unfold q; lia).
    replace ((q + 1) * 400 * 31556952) with ((q + 1) * 12622780800) by lia. rewrite Hq.
    by replace ((_ <? _) || (_ <? _)) with false by lia.
  - assert (at_ sp (timecnt sp - 1) < t).
    { unfold outside in Ho. destruct (goback sp), (goahead sp); cbn in Ho; lia. }
    set (q := Z.quot (Z.quot (t - at_ sp (timecnt sp - 1) - 1) 400) 31556952).
    assert (Hq : q = Z.quot (t - at_ sp (timecnt sp - 1) - 1) 12622780800) by (unfold q; lia).
    replace ((q + 1) * 400 * 31556952) with ((q + 1) * 12622780800) by lia. rewrite Hq.
    rewrite Z.opp_involutive, <- Z.add_opp_r.
    by replace ((_ <? _) || (_ <? _)) with false by lia.
Qed.

Lemma next_dst_extended sp t :
  wf_state sp ->
  exists i, in_segment sp (t + repeat_shift sp t) i /\
    pg_next_dst_boundary t sp = shift_boundary (- repeat_shift sp t) (segment_boundary sp i).
Proof.
  intros Hwf. destruct (outside sp t) eqn:Ho.
  - destruct (repeat_shift_inside sp t Hwf Ho) as [Hin Hout].
    destruct (next_dst_segment sp (t + repeat_shift sp t) Hwf Hout) as (i & Hi & Hb). exists i. split; [done|].
    rewrite <- Hb. unfold pg_next_dst_boundary. rewrite next_dst_outside by done.
    f_equal. cbn [next_dst_fuel]. by rewrite Hout.
  - assert (Hs : repeat_shift sp t = 0) by (unfold repeat_shift; by rewrite Ho).
    destruct (next_dst_segment sp t Hwf Ho) as (i & Hi & ->). exists i. rewrite Hs, Z.add_0_r. split; [done|].
    destruct (segment_boundary sp i); cbn [shift_boundary]; rewrite ?Z.add_0_r; done.
Qed.

(** The transition that ends a segment is the first one after its times. *)
Lemma segment_next sp t i a :
  wf_state sp -> in_segment sp t i -> i < timecnt sp -> In a (ats sp) -> t < a -> at_ sp i <= a.
Proof.
  intros Hwf (Hr & Hlo & _) Hi Ha Hlt. apply (In_nth _ _ 0) in Ha as (n & Hn & <-).
  assert (Hn' : nth n (ats sp) 0 = at_ sp (Z.of_nat n)) by (unfold at_; by rewrite Nat2Z.id).
  rewrite Hn' in *. destruct (Z.lt_trichotomy (Z.of_nat n) i) as [H|[<-|H]]; [|lia|].
  - exfalso. destruct (decide (Z.of_nat n = i - 1)) as [He|]; [rewrite He in *; lia|].
    pose proof (wf_sorted sp Hwf (Z.of_nat n) (i - 1)). lia.
  - pose proof (wf_sorted sp Hwf i (Z.of_nat n)). unfold timecnt in *. lia.
Qed.

Lemma at_In sp j : 0 <= j < timecnt sp -> In (at_ sp j) (ats sp).
Proof. intros Hj. apply nth_In. unfold timecnt in Hj. lia. Qed.

Lemma at_le sp i j : wf_state sp -> 0 <= i <= j -> j < timecnt sp -> at_ sp i <= at_ sp j.
Proof.
  intros Hwf Hij Hj. destruct (decide (i = j)) as [->|]; [lia|]. pose proof (wf_sorted sp Hwf i j). lia.
Qed.

(** [typesequiv] and [differ_by_repeat] as [tzload] tests them before it sets
    [goback]: some transition repeats the first one after 400 years. *)
Definition repeats_back (sp : tzstate) : Prop :=
  goback sp = true ->
  exists j, 0 < j < timecnt sp /\ at_ sp j = at_ sp 0 + SECSPERREPEAT /\
    tt_utoff (tti_ sp (type_ sp j)) = tt_utoff (tti_ sp (type_ sp 0)) /\
    tt_isdst (tti_ sp (type_ sp j)) = tt_isdst (tti_ sp (type_ sp 0)).

(** The offset and the DST flag in force at [t], the table extended by its
    400-year cycle. *)
Definition in_force (sp : tzstate) (t off : Z) (isdst : bool) : Prop :=
  tt_utoff (type_at sp t) = off /\ tt_isdst (type_at sp t) = isdst.

(** A time in the same segment of the same cycle has the same shift: from [t] up
    to the boundary [b] reported for it. *)
Lemma repeat_shift_stable sp t i u :
  wf_state sp -> repeats_back sp -> in_segment sp (t + repeat_shift sp t) i -> i < timecnt sp ->
  t <= u < at_ sp i - repeat_shift sp t -> repeat_shift sp u = repeat_shift sp t.
Proof.
  intros Hwf Hrep Hi Hlt Hu. destruct (outside sp t) eqn:Ho.
  - destruct (repeat_shift_inside sp t Hwf Ho) as [Hin _].
    assert (Hlast : at_ sp i <= at_ sp (timecnt sp - 1)) by (destruct Hi; apply at_le; [done|lia|lia]).
    unfold repeat_shift in Hin, Hu, Hi |- *. rewrite Ho in *. cbn [negb] in *.
    change SECSPERREPEAT with 12622780800 in *.
    destruct (Z.ltb_spec t (at_ sp 0)) as [Hb|Hb].
    + assert (Hgb : goback sp = true).
      { unfold outside in Ho. destruct (goback sp); [done|]. cbn in Ho.
        assert (0 < timecnt sp) by (destruct Hi; lia). pose proof (at_le sp 0 (timecnt sp - 1) Hwf). lia. }
      destruct (Hrep Hgb) as (j & Hj & Haj & _). change SECSPERREPEAT with 12622780800 in Haj.
      pose proof (segment_next sp _ i (at_ sp j) Hwf Hi Hlt (at_In sp j ltac:(lia))) as Hnext.
      assert (Hu0 : u < at_ sp 0) by lia.
      assert (outside sp u = true) as -> by (unfold outside; rewrite Hgb; replace (u <? at_ sp 0) with true by lia; done).
      cbn [negb]. replace (u <? at_ sp 0) with true by lia. lia.
    + assert (Hg : goahead sp = true /\ at_ sp (timecnt sp - 1) < t).
      { unfold outside in Ho. destruct (goback sp), (goahead sp); cbn in Ho; split; try done; lia. }
      destruct Hg as [Hga Htl].
      assert (outside sp u = true) as ->.
      { unfold outside. rewrite Hga. replace (at_ sp (timecnt sp - 1) <? u) with true by lia. by rewrite orb_true_r. }
      cbn [negb]. assert (at_ sp 0 <= at_ sp (timecnt sp - 1)) by (destruct Hi; apply at_le; [done|lia|lia]).
      replace (u <? at_ sp 0) with false by lia. lia.
  - assert (Hs : repeat_shift sp t = 0) by (unfold repeat_shift; by rewrite Ho). rewrite Hs in *.
    rewrite Z.add_0_r in Hi. unfold repeat_shift.
    assert (outside sp u = false) as ->; [|done].
    destruct Hi as (Hr & Hlo & Hhi). unfold outside in *.
    assert (at_ sp i <= at_ sp (timecnt sp - 1)) by (apply at_le; [done|lia|lia]).
    replace (at_ sp (timecnt sp - 1) <? u) with false by lia. rewrite andb_false_r, orb_false_r.
    destruct (goback sp); [|done]. cbn [andb] in *. lia.
Qed.

Lemma in_force_segment sp t i :
  wf_state sp -> in_segment sp (t + repeat_shift sp t) i ->
  in_force sp t (tt_utoff (tti_ sp (segment_type sp i))) (tt_isdst (tti_ sp (segment_type sp i))).
Proof. intros Hwf Hi. unfold in_force, type_at. by rewrite (local_type_segment sp _ i). Qed.

Lemma at_segment sp i : wf_state sp -> 0 <= i < timecnt sp -> in_segment sp (at_ sp i) (i + 1).
Proof.
  intros Hwf Hi. split; [lia|]. replace (i + 1 - 1) with i by lia. split; [lia|].
  intros. apply wf_sorted; [done|lia|lia].
Qed.

(** At the boundary reported for [t] the type of the transition is in force. *)
Lemma in_force_boundary sp t i :
  wf_state sp -> repeats_back sp -> in_segment sp (t + repeat_shift sp t) i -> i < timecnt sp ->
  in_force sp (at_ sp i - repeat_shift sp t)
    (tt_utoff (tti_ sp (type_ sp i))) (tt_isdst (tti_ sp (type_ sp i))).
Proof.
  intros Hwf Hrep Hi Hlt. pose proof Hi as (Hr & _ & Hhi). specialize (Hhi Hlt).
  set (b := at_ sp i - repeat_shift sp t).
  assert (Hseg : forall j, 0 <= j < timecnt sp -> b + repeat_shift sp b = at_ sp j ->
    in_force sp b (tt_utoff (tti_ sp (type_ sp j))) (tt_isdst (tti_ sp (type_ sp j)))).
  { intros j Hj E. pose proof (in_force_segment sp b (j + 1) Hwf) as H. rewrite E in H.
    specialize (H (at_segment sp j Hwf Hj)). unfold segment_type in H.
    replace (j + 1 =? 0) with false in H by lia. by replace (j + 1 - 1) with j in H by lia. }
  assert (Hsame : repeat_shift sp b = repeat_shift sp t -> in_force sp b
    (tt_utoff (tti_ sp (type_ sp i))) (tt_isdst (tti_ sp (type_ sp i)))) by (intros E; apply Hseg; lia).
  assert (Hlast : at_ sp i <= at_ sp (timecnt sp - 1)) by (apply at_le; [done|lia|lia]).
  assert (Hfst : at_ sp 0 <= at_ sp i) by (apply at_le; [done|lia|lia]).
  destruct (outside sp t) eqn:Ho.
  2:{ apply Hsame. unfold b, repeat_shift. rewrite Ho. cbn [negb]. rewrite Z.sub_0_r.
      assert (outside sp (at_ sp i) = false) as ->; [|done]. unfold outside. lia. }
  destruct (repeat_shift_inside sp t Hwf Ho) as [Hin _].
  destruct (Z.ltb_spec t (at_ sp 0)) as [Hb|Hb].
  - assert (Hgb : goback sp = true).
    { unfold outside in Ho. destruct (goback sp); [done|]. cbn in Ho. lia. }
    destruct (Hrep Hgb) as (j & Hj & Haj & E1 & E2).
    assert (Hs : repeat_shift sp t = (Z.quot (at_ sp 0 - t - 1) SECSPERREPEAT + 1) * SECSPERREPEAT)
      by (unfold repeat_shift; rewrite Ho; cbn [negb]; by replace (t <? at_ sp 0) with true by lia).
    change SECSPERREPEAT with 12622780800 in *.
    pose proof (segment_next sp _ i (at_ sp j) Hwf Hi Hlt (at_In sp j ltac:(lia)) ltac:(lia)) as Hnext.
    assert (Hsb : forall n, 0 <= n -> b = at_ sp 0 - n * 12622780800 -> repeat_shift sp b = n * 12622780800).
    { intros n Hn E. unfold repeat_shift, outside. rewrite Hgb. cbn [andb].
      assert (0 < timecnt sp) by lia. change SECSPERREPEAT with 12622780800.
      destruct (Z.ltb_spec b (at_ sp 0)); cbn [orb negb]; [lia|].
      assert (n = 0) as -> by lia. replace (at_ sp (timecnt sp - 1) <? b) with false by lia. by rewrite andb_false_r. }
    destruct (decide (at_ sp i = at_ sp j)) as [E|E].
    + assert (i = j) as ->.
      { destruct (Z.lt_trichotomy i j) as [H|[H|H]]; [|done|]; [pose proof (wf_sorted sp Hwf i j)|pose proof (wf_sorted sp Hwf j i)]; lia. }
      rewrite E1, E2. apply Hseg; [lia|].
      rewrite (Hsb (Z.quot (at_ sp 0 - t - 1) 12622780800)); unfold b; lia.
    + apply Hsame. assert (b < at_ sp 0) by (unfold b; lia). rewrite Hs. unfold repeat_shift.
      assert (outside sp b = true) as -> by (unfold outside; rewrite Hgb; replace (b <? at_ sp 0) with true by lia; done).
      cbn [negb]. replace (b <? at_ sp 0) with true by lia. change SECSPERREPEAT with 12622780800. unfold b. lia.
  - apply Hsame. assert (Hg : goahead sp = true /\ at_ sp (timecnt sp - 1) < t).
    { unfold outside in Ho. destruct (goback sp), (goahead sp); cbn in Ho; split; try done; lia. }
    destruct Hg as [Hga Htl].
    assert (Hs : repeat_shift sp t = - ((Z.quot (t - at_ sp (timecnt sp - 1) - 1) SECSPERREPEAT + 1) * SECSPERREPEAT))
      by (unfold repeat_shift; rewrite Ho; cbn [negb]; by replace (t <? at_ sp 0) with false by lia).
    change SECSPERREPEAT with 12622780800 in *. rewrite Hs. unfold repeat_shift.
    assert (t < b) by (unfold b; lia).
    assert (outside sp b = true) as ->.
    { unfold outside. rewrite Hga. replace (at_ sp (timecnt sp - 1) <? b) with true by lia. by rewrite orb_true_r. }
    cbn [negb]. replace (b <? at_ sp 0) with false by lia. change SECSPERREPEAT with 12622780800. unfold b. lia.
Qed.

(** After the last transition of a table that does not repeat forwards. *)
Lemma last_segment_forever sp t :
  wf_state sp -> in_segment sp (t + repeat_shift sp t) (timecnt sp) -> goahead sp = false ->
  let tt := tti_ sp (segment_type sp (timecnt sp)) in
  forall u, t <= u -> in_force sp u (tt_utoff tt) (tt_isdst tt).
Proof.
  intros Hwf (Hr & Hlo & _) Hg tt u Hu. apply in_force_segment; [done|].
  assert (Hno : forall v, t <= v -> outside sp v = false).
  { intros v Hv. unfold outside. rewrite Hg. cbn [andb]. rewrite orb_false_r.
    destruct (goback sp) eqn:Hgb; [|done]. cbn [andb].
    destruct (wf_repeat sp Hwf) as (Hn & Hsp & _); [by rewrite Hgb|]. specialize (Hlo Hn).
    apply Z.ltb_ge. destruct (Z.ltb_spec t (at_ sp 0)); [|lia].
    unfold repeat_shift, outside in Hlo. rewrite Hgb in Hlo. replace (t <? at_ sp 0) with true in Hlo by lia.
    cbn [andb orb negb] in Hlo. change SECSPERREPEAT with 12622780800 in *. lia. }
  unfold repeat_shift in *. rewrite Hno in Hlo by lia. rewrite Hno by done. cbn [negb] in *.
  split; [lia|]. split; [|lia]. intros Hp. specialize (Hlo Hp). lia.
Qed.

Lemma last_segment_repeats sp t :
  wf_state sp -> in_segment sp (t + repeat_shift sp t) (timecnt sp) -> goahead sp = true ->
  exists n, 0 <= n /\ t = at_ sp (timecnt sp - 1) + n * SECSPERREPEAT.
Proof.
  intros Hwf (Hr & Hlo & _) Hg. destruct (wf_repeat sp Hwf) as (Hn & Hsp & _); [by rewrite Hg, orb_true_r|].
  specialize (Hlo Hn). unfold repeat_shift, outside in Hlo. rewrite Hg in Hlo. cbn [andb] in Hlo.
  change SECSPERREPEAT with 12622780800 in *.
  destruct (Z.ltb_spec t (at_ sp 0)) as [Hb|Hb].
  - exfalso. destruct (goback sp); cbn [andb orb negb] in Hlo; [lia|].
    replace (at_ sp (timecnt sp - 1) <? t) with false in Hlo by lia. cbn [negb] in Hlo. lia.
  - rewrite andb_false_r in Hlo. cbn [orb] in Hlo.
    destruct (Z.ltb_spec (at_ sp (timecnt sp - 1)) t) as [Hl|Hl]; cbn [negb] in Hlo.
    + exists (Z.quot (t - at_ sp (timecnt sp - 1) - 1) 12622780800 + 1). lia.
    + exists 0. lia.
Qed.

(** ** Properties *)

(** C12. Local time is the Julian-day breakdown of UTC plus the offset in force:
    on a well-formed zone table, for every time whose local day number an [int]
    can hold, [pg_localtime] succeeds (its year-stepping and table-search loops
    end within their bounds, its overflow exits are not taken), and the fields
    are those of [j2date]/[j2day] applied to [t] plus the offset of the segment
    that contains [t]; for times beyond the table, that of the corresponding
    time of the 400-year cycle the table covers. *)
Theorem pg_localtime_correct sp t :
  wf_state sp -> 0 <= local_jd t (utoff_at sp t) <= INT_MAX ->
  exists tm i,
    pg_localtime t sp = Some tm /\
    in_segment sp (t + repeat_shift sp t) i /\
    tm_gmtoff tm = tt_utoff (tti_ sp (segment_type sp i)) /\
    j2date (local_jd t (tm_gmtoff tm)) = (tm_year tm + 1900, tm_mon tm + 1, tm_mday tm) /\
    tm_wday tm = j2day (local_jd t (tm_gmtoff tm)) /\
    tm_hour tm * 3600 + tm_min tm * 60 + tm_sec tm = (t + tm_gmtoff tm) mod 86400 /\
    0 <= tm_hour tm < 24 /\ 0 <= tm_min tm < 60 /\ 0 <= tm_sec tm < 60 /\
    (exists k, repeat_shift sp t = SECSPERREPEAT * k).
Proof.
  intros Hwf Hj. destruct (local_type_spec sp (t + repeat_shift sp t) Hwf) as (i & Hi & Ht).
  eexists _, i. split; [by apply pg_localtime_spec|]. split; [done|]. rewrite <- Ht.
  destruct (repeat_shift_years sp t) as [k Hk].
  assert (Hoff : tm_gmtoff (local_tm t (utoff_at sp t) (if tt_isdst (type_at sp t) then 1 else 0)
             (Some (tt_desigidx (type_at sp t)))) = utoff_at sp t)
    by (unfold local_tm; by destruct (j2date _) as [[? ?] ?]).
  rewrite Hoff. split; [done|]. clear Hoff. unfold local_tm. fold (local_jd t (utoff_at sp t)).
  destruct (j2date (local_jd t (utoff_at sp t))) as [[y m] d] eqn:E.
  cbn [tm_sec tm_min tm_hour tm_mday tm_mon tm_year tm_wday].
  assert (Hr : 0 <= (t + utoff_at sp t) mod 86400 < 86400) by lia.
  set (r := (t + utoff_at sp t) mod 86400) in *. clearbody r.
  replace (y - 1900 + 1900) with y by lia. replace (m - 1 + 1) with m by lia.
  split; [done|]. split; [done|]. repeat (split; [lia|]). exists k. exact Hk.
Qed.

(** A two-transition zone: standard time +1h, summer time +2h between the
    transitions. *)
Definition example_zone : tzstate :=
  mk_state false false [1000000; 2000000] [1%nat; 0%nat]
    [mk_ttinfo 3600 false 0; mk_ttinfo 7200 true 4] [] 0.

Lemma example_zone_wf : wf_state example_zone.
Proof.
  split.
  - intros i j Hij Hj. change (timecnt example_zone) with 2 in Hj.
    assert (i = 0 /\ j = 1) as [-> ->] by lia. reflexivity.
  - reflexivity.
  - intros i. do 3 (destruct i as [|i]; [vm_compute; reflexivity|]).
    unfold tti_. by rewrite nth_overflow by (cbn; lia).
  - discriminate.
Qed.

Lemma pg_localtime_correct_witness :
  exists tm, pg_localtime 1500000 example_zone = Some tm /\ tm_gmtoff tm = 7200.
Proof.
  destruct (pg_localtime_correct example_zone 1500000 example_zone_wf) as (tm & i & E & _).
  - vm_compute. split; discriminate.
  - exists tm. split; [exact E|].
    assert (H : pg_localtime 1500000 example_zone = Some
      (local_tm 1500000 7200 1 (Some 4))) by (vm_compute; reflexivity).
    rewrite H in E. injection E as <-. vm_compute. reflexivity.
Defined.

(** C25. The next-transition report is exact, inside the table and in its
    extrapolation: on a well-formed table [pg_next_dst_boundary] never fails.  A
    transition it reports lies after [t], corresponds to a transition of the
    table (shifted by whole 400-year cycles outside it), is the first such one,
    and comes with the offset in force from [t] up to it and the offset in force
    from it on.  When it reports none, the offset is the one in force at [t], and
    stays in force for ever if the table does not repeat; if it does, none is
    reported at the last transition of the table and at its repetitions only. *)
Theorem pg_next_dst_boundary_correct sp t :
  wf_state sp -> repeats_back sp ->
  match pg_next_dst_boundary t sp with
  | DstFail => False
  | DstNone off isdst =>
      in_force sp t off isdst /\
      (goahead sp = false -> forall u, t <= u -> in_force sp u off isdst) /\
      (goahead sp = true -> exists n, 0 <= n /\ t = at_ sp (timecnt sp - 1) + n * SECSPERREPEAT)
  | DstNext boff bisdst b aoff aisdst =>
      t < b /\ In (b + repeat_shift sp t) (ats sp) /\
      (forall a, In a (ats sp) -> t + repeat_shift sp t < a -> b + repeat_shift sp t <= a) /\
      (forall u, t <= u < b -> in_force sp u boff bisdst) /\ in_force sp b aoff aisdst
  end.
Proof.
  intros Hwf Hrep. destruct (next_dst_extended sp t Hwf) as (i & Hi & ->).
  pose proof Hi as (Hr & Hlo & Hhi). unfold segment_boundary.
  destruct (Z.eqb_spec i (timecnt sp)) as [->|Hne]; cbn [shift_boundary].
  - split; [by apply in_force_segment|]. split; [by apply last_segment_forever|by apply last_segment_repeats].
  - assert (Hlt : i < timecnt sp) by lia. specialize (Hhi Hlt).
    rewrite Z.add_opp_r. replace (at_ sp i - repeat_shift sp t + repeat_shift sp t) with (at_ sp i) by lia.
    split; [lia|]. split; [apply at_In; lia|]. split; [intros a; by apply segment_next|]. split.
    + intros u Hu. apply in_force_segment; [done|]. rewrite (repeat_shift_stable sp t i u) by done.
      split; [lia|]. split; [|lia]. intros Hp. specialize (Hlo Hp). lia.
    + unfold segment_type. replace (i + 1 =? 0) with false by lia. replace (i + 1 - 1) with i by lia.
      by apply in_force_boundary.
Qed.

(** A zone whose two transitions repeat after 400 years, both ways. *)
Definition cyclic_zone : tzstate :=
  mk_state true true [0; 100; 12622780800; 12622780900] [1%nat; 0%nat; 1%nat; 0%nat]
    [mk_ttinfo 3600 false 0; mk_ttinfo 7200 true 4] [] 0.

Lemma cyclic_zone_wf : wf_state cyclic_zone.
Proof.
  split.
  - intros i j Hij Hj. change (timecnt cyclic_zone) with 4 in Hj.
    assert (i = 0 /\ j = 1 \/ i = 0 /\ j = 2 \/ i = 0 /\ j = 3 \/ i = 1 /\ j = 2 \/ i = 1 /\ j = 3 \/ i = 2 /\ j = 3)
      as H by lia. destruct_or! H; destruct H as [-> ->]; reflexivity.
  - reflexivity.
  - intros i. do 3 (destruct i as [|i]; [vm_compute; reflexivity|]).
    unfold tti_. by rewrite nth_overflow by (cbn; lia).
  - intros _. vm_compute. repeat split; discriminate.
Qed.

(** The time 50 seconds after the last transition, the next one 400 years on. *)
Lemma pg_next_dst_boundary_correct_witness :
  pg_next_dst_boundary 12622780950 cyclic_zone = DstNext 3600 false 25245561600 7200 true /\
  in_force cyclic_zone 25245561600 7200 true.
Proof.
  pose proof (pg_next_dst_boundary_correct cyclic_zone 12622780950 cyclic_zone_wf) as H.
  assert (E : pg_next_dst_boundary 12622780950 cyclic_zone = DstNext 3600 false 25245561600 7200 true)
    by (vm_compute; reflexivity).
  split; [exact E|]. rewrite E in H. apply H. intros _. exists 2. vm_compute. repeat split; reflexivity.
Defined.
