(* ===== verification/Timestamp.v ===== *)
(** * Timestamps and broken-down time

    src/backend/utils/adt/timestamp.c ([timestamp2tm], [tm2timestamp],
    [dt2time], [time2t], [dt2local]) and datetime.c ([date2j] with IvorySQL's
    Oracle-mode defaulting, [DetermineTimeZoneOffset]).  A timestamp is a count
    of microseconds since 2000-01-01; the globals these routines read
    ([compatible_db], the clock, [session_timezone]) are a [session] record. *)

From S2P Require Import Prelude Gregorian TimeZone.

(** ** Definitions *)

Definition USECS_PER_DAY : Z := 86400000000.
Definition USECS_PER_HOUR : Z := 3600000000.
Definition USECS_PER_MINUTE : Z := 60000000.
Definition USECS_PER_SEC : Z := 1000000.
Definition SECS_PER_DAY : Z := 86400.
Definition UNIX_EPOCH_JDATE : Z := 2440588.
Definition POSTGRES_EPOCH_JDATE : Z := 2451545.
Definition JULIAN_MINYEAR : Z := -4713.
Definition JULIAN_MINMONTH : Z := 11.
Definition JULIAN_MAXYEAR : Z := 5874898.
Definition JULIAN_MAXMONTH : Z := 6.
Definition MIN_TIMESTAMP : Z := -211813488000000000.
Definition END_TIMESTAMP : Z := 9223371331200000000.

Definition IS_VALID_JULIAN (y m : Z) : bool :=
  ((JULIAN_MINYEAR <? y) || ((y =? JULIAN_MINYEAR) && (JULIAN_MINMONTH <=? m))) &&
  ((y <? JULIAN_MAXYEAR) || ((y =? JULIAN_MAXYEAR) && (m <? JULIAN_MAXMONTH))).

Definition IS_VALID_TIMESTAMP (t : Z) : bool := (MIN_TIMESTAMP <=? t) && (t <? END_TIMESTAMP).

Inductive db_mode := PG_PARSER | ORA_PARSER.

#[export] Instance db_mode_eq_dec : EqDecision db_mode.
Proof. solve_decision. Defined.

Record session := mk_session {
  compatible_db : db_mode;
  current_timestamp : Z;             (* what GetCurrentTimestamp() returns *)
  session_timezone : tzstate
}.

(** [TMODULO(t, q, u)] followed by the callers' correction for negative times:
    day number (relative to 2000-01-01) and microsecond of that day. *)
Definition split_day (dt : Z) : Z * Z :=
  let date := Z.quot dt USECS_PER_DAY in
  let time := if negb (date =? 0) then dt - date * USECS_PER_DAY else dt in
  if time <? 0 then (date - 1, time + USECS_PER_DAY) else (date, time).

(** [dt2time]: hour, minute, second, fraction. *)
Definition dt2time (jd : Z) : Z * Z * Z * Z :=
  let time := jd in
  let hour := Z.quot time USECS_PER_HOUR in
  let time := time - hour * USECS_PER_HOUR in
  let min := Z.quot time USECS_PER_MINUTE in
  let time := time - min * USECS_PER_MINUTE in
  let sec := Z.quot time USECS_PER_SEC in
  (hour, min, sec, time - sec * USECS_PER_SEC).

(** [timestamp2tm] with [tzp == NULL]; [None] is the -1 return. *)
Definition timestamp2tm_notz (dt : Z) : option (pg_tm * Z) :=
  let '(date, time) := split_day dt in
  let date := date + POSTGRES_EPOCH_JDATE in
  if (date <? 0) || (INT_MAX <? date) then None
  else
    let '(year, mon, mday) := j2date date in
    let '(hour, min, sec, fsec) := dt2time time in
    Some (mk_tm sec min hour mday mon year 0 0 (-1) 0 None, fsec).

(** [timestamp2tm] with a zone: broken-down time (absolute year, 1-based month),
    fraction and the zone displacement [*tzp].  [Err] is the dereference of the
    NULL that [pg_localtime] returns when it cannot represent the time. *)
Definition timestamp2tm (tz : tzstate) (dt : Z) : result (option (pg_tm * Z * Z)) :=
  match timestamp2tm_notz dt with
  | None => Ok None
  | Some (_, fsec) =>
      let utime := Z.quot (dt - fsec) USECS_PER_SEC
                   + (POSTGRES_EPOCH_JDATE - UNIX_EPOCH_JDATE) * SECS_PER_DAY in
      match pg_localtime utime tz with
      | None => ereport ERRCODE_INTERNAL_ERROR "NULL pg_tm"
      | Some tx =>
          Ok (Some (mk_tm tx.(tm_sec) tx.(tm_min) tx.(tm_hour) tx.(tm_mday)
                          (tx.(tm_mon) + 1) (tx.(tm_year) + 1900) 0 0
                          tx.(tm_isdst) tx.(tm_gmtoff) tx.(tm_zone),
                    fsec, - tx.(tm_gmtoff)))
      end
  end.

(** [date2j], with the Oracle-mode rule that a zero year or month is taken from
    the current date. *)
Definition date2j (ss : session) (year month day : Z) : result Z :=
  if ((year =? 0) || (month =? 0)) && bool_decide (compatible_db ss = ORA_PARSER) then
    r ← timestamp2tm (session_timezone ss) (current_timestamp ss);
    match r with
    | Some (tm, _, _) =>
        let year := if year =? 0 then tm.(tm_year) else year in
        let month := if month =? 0 then tm.(tm_mon) else month in
        if month_days year month <? day then
          ereport ERRCODE_DATETIME_FIELD_OVERFLOW
            "The value of day must be between 1 and the last day of the month."
        else Ok (date2j_civil year month day)
    | None => ereport ERRCODE_DATETIME_VALUE_OUT_OF_RANGE "timestamp out of range"
    end
  else Ok (date2j_civil year month day).

Definition time2t (hour min sec fsec : Z) : Z := ((hour * 60 + min) * 60 + sec) * USECS_PER_SEC + fsec.

Definition dt2local (dt timezone : Z) : Z := int64 (dt - timezone * USECS_PER_SEC).

(** [tm2timestamp]; [None] is the -1 return. *)
Definition tm2timestamp (ss : session) (tm : pg_tm) (fsec : Z) (tzp : option Z) : result (option Z) :=
  if negb (IS_VALID_JULIAN tm.(tm_year) tm.(tm_mon)) then Ok None
  else
    jd ← date2j ss tm.(tm_year) tm.(tm_mon) tm.(tm_mday);
    let date := jd - POSTGRES_EPOCH_JDATE in
    let time := time2t tm.(tm_hour) tm.(tm_min) tm.(tm_sec) fsec in
    let prod := date * USECS_PER_DAY in
    if negb (bool_decide (is_int64 prod)) then Ok None
    else if negb (bool_decide (is_int64 (prod + time))) then Ok None
    else
      let result := match tzp with
                    | Some tz => dt2local (prod + time) (- tz)
                    | None => prod + time
                    end in
      if IS_VALID_TIMESTAMP result then Ok (Some result) else Ok None.

(** [DetermineTimeZoneOffsetInternal]: the offset (seconds west), the UTC time
    [*tp] and the DST flag for a local time. *)
Definition DetermineTimeZoneOffsetInternal (ss : session) (tm : pg_tm) (tz : tzstate)
    : result (Z * Z * Z) :=
  let overflow := Ok (0, 0, 0) in
  let b2z (b : bool) := if b then 1 else 0 in
  if negb (IS_VALID_JULIAN tm.(tm_year) tm.(tm_mon)) then overflow
  else
    jd ← date2j ss tm.(tm_year) tm.(tm_mon) tm.(tm_mday);
    let date := jd - UNIX_EPOCH_JDATE in
    let day := date * SECS_PER_DAY in
    if negb (Z.quot day SECS_PER_DAY =? date) then overflow
    else
      let sec := tm.(tm_sec) + (tm.(tm_min) + tm.(tm_hour) * 60) * 60 in
      let mytime := day + sec in
      if (mytime <? 0) && (0 <? day) then overflow
      else
        let prevtime := mytime - SECS_PER_DAY in
        if (mytime <? 0) && (0 <? prevtime) then overflow
        else
          match pg_next_dst_boundary prevtime tz with
          | DstFail => overflow
          | DstNone before_gmtoff before_isdst =>
              Ok (- before_gmtoff, mytime - before_gmtoff, b2z before_isdst)
          | DstNext before_gmtoff before_isdst boundary after_gmtoff after_isdst =>
              let beforetime := mytime - before_gmtoff in
              let aftertime := mytime - after_gmtoff in
              if ((0 <? before_gmtoff) && (mytime <? 0) && (0 <? beforetime)) ||
                 ((before_gmtoff <=? 0) && (0 <? mytime) && (beforetime <? 0)) then overflow
              else if ((0 <? after_gmtoff) && (mytime <? 0) && (0 <? aftertime)) ||
                      ((after_gmtoff <=? 0) && (0 <? mytime) && (aftertime <? 0)) then overflow
              else if (beforetime <? boundary) && (aftertime <? boundary) then
                Ok (- before_gmtoff, beforetime, b2z before_isdst)
              else if (boundary <? beforetime) && (boundary <=? aftertime) then
                Ok (- after_gmtoff, aftertime, b2z after_isdst)
              else if aftertime <? beforetime then
                Ok (- before_gmtoff, beforetime, b2z before_isdst)
              else Ok (- after_gmtoff, aftertime, b2z after_isdst)
          end.

Definition DetermineTimeZoneOffset (ss : session) (tm : pg_tm) (tz : tzstate) : result Z :=
  '(off, _, _) ← DetermineTimeZoneOffsetInternal ss tm tz; Ok off.

(** ** Lemmas *)

Lemma split_day_spec dt : split_day dt = (dt / USECS_PER_DAY, dt mod USECS_PER_DAY).
Proof.
  unfold split_day, USECS_PER_DAY. cbn zeta.
  destruct (Z.eqb_spec (Z.quot dt 86400000000) 0) as [H|H]; cbn [negb];
    match goal with |- context [?x <? 0] => destruct (Z.ltb_spec x 0) end; f_equal; lia.
Qed.

Lemma dt2time_spec t :
  0 <= t < USECS_PER_DAY ->
  dt2time t = (t / USECS_PER_HOUR, t / USECS_PER_MINUTE mod 60, t / USECS_PER_SEC mod 60,
               t mod USECS_PER_SEC).
Proof.
  unfold dt2time, USECS_PER_DAY, USECS_PER_HOUR, USECS_PER_MINUTE, USECS_PER_SEC. intros H.
  rewrite Z.quot_div_nonneg by lia.
  rewrite (Z.quot_div_nonneg (t - t / 3600000000 * 3600000000)) by lia.
  set (h := t / 3600000000). set (m := (t - h * 3600000000) / 60000000).
  rewrite Z.quot_div_nonneg by lia. f_equal; [f_equal; [f_equal|]|]; lia.
Qed.

(** Outside the defaulting rule, IvorySQL's [date2j] is the civil day count. *)
Lemma date2j_plain ss y m d :
  (y <> 0 /\ m <> 0) \/ compatible_db ss = PG_PARSER -> date2j ss y m d = Ok (date2j_civil y m d).
Proof.
  intros H. unfold date2j. destruct H as [[Hy Hm]|H].
  - by replace ((y =? 0) || (m =? 0)) with false by lia.
  - rewrite bool_decide_eq_false_2, andb_false_r by (rewrite H; done). done.
Qed.

(** Dates of the supported day numbers pass the Julian-range check. *)
Lemma is_valid_julian_j2date jd y m d :
  0 <= jd <= 200000000 -> j2date jd = (y, m, d) -> IS_VALID_JULIAN y m = true.
Proof.
  intros Hj E. assert (Hj' : 0 <= jd <= INT_MAX) by (unfold INT_MAX; lia).
  pose proof (j2date_spec jd y m d Hj' E) as (Hr & Hv & He).
  pose proof (j2date_year jd y m d Hj' E) as Hy.
  assert (Hlo : ~ date_lt y m d (-4713) 11 24).
  { intros Hlt. apply date2j_civil_lt in Hlt; [|done|lia|done|].
    - change (date2j_civil (-4713) 11 24) with 0 in Hlt. lia.
    - split; [lia|vm_compute; split; discriminate]. }
  assert (Hhi : ~ date_lt 600000 1 1 y m d).
  { intros Hlt. apply date2j_civil_lt in Hlt; [|lia|done| |done].
    - change (date2j_civil 600000 1 1) with 220866560 in Hlt. lia.
    - split; [lia|vm_compute; split; discriminate]. }
  unfold date_lt in *. destruct Hv as [Hm _].
  unfold IS_VALID_JULIAN, JULIAN_MINYEAR, JULIAN_MINMONTH, JULIAN_MAXYEAR, JULIAN_MAXMONTH. lia.
Qed.

(** [tm2timestamp] assembles a time from a day number and a second of the day. *)
Lemma tm2timestamp_spec ss tm fsec jd tzp :
  0 <= jd <= 200000000 -> j2date jd = (tm_year tm, tm_mon tm, tm_mday tm) ->
  tm_year tm <> 0 \/ compatible_db ss = PG_PARSER ->
  let x := (jd - 2451545) * USECS_PER_DAY
           + (tm_hour tm * 3600 + tm_min tm * 60 + tm_sec tm) * USECS_PER_SEC + fsec in
  let res := match tzp with Some tz => x + tz * USECS_PER_SEC | None => x end in
  is_int64 ((jd - 2451545) * USECS_PER_DAY) -> is_int64 x -> IS_VALID_TIMESTAMP res = true ->
  tm2timestamp ss tm fsec tzp = Ok (Some res).
Proof.
  intros Hj E Hmode x res Hp Hx Hv. unfold tm2timestamp.
  assert (Hj' : 0 <= jd <= INT_MAX) by (unfold INT_MAX; lia).
  pose proof (j2date_spec _ _ _ _ Hj' E) as (_ & [Hm _] & He).
  rewrite (is_valid_julian_j2date _ _ _ _ Hj E). cbn [negb].
  rewrite date2j_plain by (destruct Hmode; [left; split; [done|lia]|by right]).
  cbn [mbind result_bind]. rewrite He. change POSTGRES_EPOCH_JDATE with 2451545.
  rewrite bool_decide_eq_true_2 by done. cbn [negb].
  replace ((jd - 2451545) * USECS_PER_DAY + time2t (tm_hour tm) (tm_min tm) (tm_sec tm) fsec)
    with x by (unfold x, time2t; lia).
  rewrite bool_decide_eq_true_2 by done. cbn [negb].
  assert (match tzp with Some tz => dt2local x (- tz) | None => x end = res) as ->.
  { unfold res. destruct tzp as [tz|]; [|done]. unfold dt2local.
    replace (x - - tz * USECS_PER_SEC) with (x + tz * USECS_PER_SEC) by lia.
    apply int64_small. unfold is_int64, INT64_MIN, INT64_MAX.
    unfold res, IS_VALID_TIMESTAMP, MIN_TIMESTAMP, END_TIMESTAMP in Hv. lia. }
  by rewrite Hv.
Qed.

Lemma timestamp2tm_notz_spec dt :
  IS_VALID_TIMESTAMP dt = true ->
  exists y m d h mi s,
    j2date (dt / USECS_PER_DAY + 2451545) = (y, m, d) /\
    0 <= dt / USECS_PER_DAY + 2451545 <= 109203527 /\
    h * 3600 + mi * 60 + s = dt mod USECS_PER_DAY / USECS_PER_SEC /\
    0 <= h < 24 /\ 0 <= mi < 60 /\ 0 <= s < 60 /\
    timestamp2tm_notz dt = Some (mk_tm s mi h d m y 0 0 (-1) 0 None, dt mod USECS_PER_SEC).
Proof.
  intros Hv. unfold IS_VALID_TIMESTAMP, MIN_TIMESTAMP, END_TIMESTAMP in Hv.
  assert (Hd : 0 <= dt / USECS_PER_DAY + 2451545 <= 109203527) by (unfold USECS_PER_DAY; lia).
  destruct (j2date (dt / USECS_PER_DAY + 2451545)) as [[y m] d] eqn:E.
  unfold timestamp2tm_notz. rewrite split_day_spec. change POSTGRES_EPOCH_JDATE with 2451545.
  replace (_ || _) with false by (unfold INT_MAX; lia). rewrite E.
  rewrite dt2time_spec by (apply Z.mod_pos_bound; done).
  set (t := dt mod USECS_PER_DAY) in *.
  assert (Ht : 0 <= t < USECS_PER_DAY) by (unfold t, USECS_PER_DAY; lia).
  assert (t mod USECS_PER_SEC = dt mod USECS_PER_SEC) as -> by (unfold t, USECS_PER_DAY, USECS_PER_SEC; lia).
  eexists y, m, d, _, _, _. split; [done|]. split; [done|].
  clearbody t. clear Hd E Hv. unfold USECS_PER_DAY, USECS_PER_HOUR, USECS_PER_MINUTE, USECS_PER_SEC in *.
  split; [|split; [|split; [|split; [|reflexivity]]]]; lia.
Qed.

(** Seconds since the Unix epoch of a timestamp. *)
Definition utime_of (dt : Z) : Z := dt / USECS_PER_SEC + 946684800.

Lemma timestamp2tm_spec tz dt :
  wf_state tz -> IS_VALID_TIMESTAMP dt = true ->
  let off := utoff_at tz (utime_of dt) in
  0 <= local_jd (utime_of dt) off ->
  exists tm, timestamp2tm tz dt = Ok (Some (tm, dt mod USECS_PER_SEC, - off)) /\
    local_jd (utime_of dt) off <= 109203528 /\ Z.abs off < 86400 /\
    j2date (local_jd (utime_of dt) off) = (tm_year tm, tm_mon tm, tm_mday tm) /\
    tm_hour tm * 3600 + tm_min tm * 60 + tm_sec tm = (utime_of dt + off) mod 86400 /\
    0 <= tm_hour tm < 24 /\ 0 <= tm_min tm < 60 /\ 0 <= tm_sec tm < 60.
Proof.
  intros Hwf Hv off Hj.
  destruct (timestamp2tm_notz_spec dt Hv) as (y & m & d & h & mi & s & _ & Hd & _ & _ & _ & _ & E).
  pose proof (wf_utoff tz Hwf (local_type tz (utime_of dt + repeat_shift tz (utime_of dt)))) as Ho.
  fold (utoff_at tz (utime_of dt)) in Ho. fold off in Ho. unfold SECSPERDAY in Ho.
  unfold timestamp2tm. rewrite E.
  assert (Z.quot (dt - dt mod USECS_PER_SEC) USECS_PER_SEC
          + (POSTGRES_EPOCH_JDATE - UNIX_EPOCH_JDATE) * SECS_PER_DAY = utime_of dt) as ->.
  { unfold utime_of. change ((POSTGRES_EPOCH_JDATE - UNIX_EPOCH_JDATE) * SECS_PER_DAY) with 946684800.
    unfold USECS_PER_SEC. lia. }
  assert (Hr : local_jd (utime_of dt) off <= 109203528).
  { unfold local_jd, utime_of, USECS_PER_SEC, USECS_PER_DAY in *. lia. }
  rewrite pg_localtime_spec by (fold off; unfold INT_MAX; done || lia). fold off.
  unfold local_tm. fold (local_jd (utime_of dt) off).
  destruct (j2date (local_jd (utime_of dt) off)) as [[y' m'] d'] eqn:E'.
  cbn [tm_sec tm_min tm_hour tm_mday tm_mon tm_year tm_isdst tm_gmtoff tm_zone].
  eexists. split; [reflexivity|]. cbn [tm_sec tm_min tm_hour tm_mday tm_mon tm_year].
  split; [done|]. split; [done|].
  replace (m' - 1 + 1) with m' by lia. replace (y' - 1900 + 1900) with y' by lia.
  split; [done|]. assert (Hm : 0 <= (utime_of dt + off) mod 86400 < 86400) by lia.
  set (r := (utime_of dt + off) mod 86400) in *. clearbody r. clear -Hm. lia.
Qed.

(** ** Properties *)

(** C13. Breaking a timestamp down in any time zone and reassembling it is the
    identity: for every valid timestamp and well-formed zone table whose local
    day number is not negative, [timestamp2tm] succeeds (the NULL of
    [pg_localtime] is not dereferenced), all clock fields are in range, and
    [tm2timestamp] on the fields and the reported displacement returns the same
    timestamp.  In Oracle mode this holds for every year but year 0. *)
Theorem timestamp_roundtrip ss tz dt :
  wf_state tz -> IS_VALID_TIMESTAMP dt = true ->
  0 <= local_jd (utime_of dt) (utoff_at tz (utime_of dt)) ->
  exists tm fsec tzoff,
    timestamp2tm tz dt = Ok (Some (tm, fsec, tzoff)) /\
    valid_date (tm_year tm) (tm_mon tm) (tm_mday tm) /\
    0 <= tm_hour tm < 24 /\ 0 <= tm_min tm < 60 /\ 0 <= tm_sec tm < 60 /\ 0 <= fsec < 1000000 /\
    (tm_year tm <> 0 \/ compatible_db ss = PG_PARSER ->
     tm2timestamp ss tm fsec (Some tzoff) = Ok (Some dt)).
Proof.
  intros Hwf Hv Hj.
  destruct (timestamp2tm_spec tz dt Hwf Hv Hj) as (tm & E & Hr & Ho & Ed & Et & Hh & Hmi & Hs).
  set (off := utoff_at tz (utime_of dt)) in *.
  assert (Hj' : 0 <= local_jd (utime_of dt) off <= INT_MAX) by (unfold INT_MAX; lia).
  destruct (j2date_spec _ _ _ _ Hj' Ed) as (_ & Hvd & _).
  exists tm, (dt mod USECS_PER_SEC), (- off). split; [done|]. split; [done|].
  do 3 (split; [done|]). split; [unfold USECS_PER_SEC; lia|]. intros Hmode.
  assert (Hx : (local_jd (utime_of dt) off - 2451545) * USECS_PER_DAY
     + (tm_hour tm * 3600 + tm_min tm * 60 + tm_sec tm) * USECS_PER_SEC + dt mod USECS_PER_SEC
     = dt + off * USECS_PER_SEC).
  { rewrite Et. unfold local_jd, utime_of, USECS_PER_DAY, USECS_PER_SEC. lia. }
  rewrite (tm2timestamp_spec ss tm (dt mod USECS_PER_SEC) (local_jd (utime_of dt) off) (Some (- off)));
    rewrite ?Hx; try done.
  - do 2 f_equal. lia.
  - lia.
  - clear -Hj Hr. unfold is_int64, INT64_MIN, INT64_MAX, USECS_PER_DAY. lia.
  - clear -Hv Ho. unfold IS_VALID_TIMESTAMP, MIN_TIMESTAMP, END_TIMESTAMP, is_int64, INT64_MIN, INT64_MAX, USECS_PER_SEC in *. lia.
  - by replace (dt + off * USECS_PER_SEC + - off * USECS_PER_SEC) with dt by lia.
Qed.

Lemma timestamp_roundtrip_witness :
  exists tm fsec tzoff,
    timestamp2tm example_zone (-945184799999999) = Ok (Some (tm, fsec, tzoff)) /\
    tm2timestamp (mk_session ORA_PARSER 0 example_zone) tm fsec (Some tzoff)
      = Ok (Some (-945184799999999)).
Proof.
  destruct (timestamp_roundtrip (mk_session ORA_PARSER 0 example_zone) example_zone (-945184799999999)
              example_zone_wf) as (tm & fsec & tzoff & E & _ & _ & _ & _ & _ & H).
  - reflexivity.
  - vm_compute. discriminate.
  - exists tm, fsec, tzoff. split; [exact E|]. apply H. left.
    assert (Hy : match timestamp2tm example_zone (-945184799999999) with
                 | Ok (Some (tm, _, _)) => tm_year tm | _ => 0 end = 1970)
      by (vm_compute; reflexivity).
    rewrite E in Hy. rewrite Hy. discriminate.
Defined.

(** [mytime] of [DetermineTimeZoneOffsetInternal]: the local time as if UTC. *)
Definition local_seconds (jd : Z) (tm : pg_tm) : Z :=
  (jd - 2440588) * 86400 + tm_hour tm * 3600 + tm_min tm * 60 + tm_sec tm.

Lemma utoff_at_segment sp t i :
  wf_state sp -> outside sp t = false -> in_segment sp t i ->
  utoff_at sp t = tt_utoff (tti_ sp (segment_type sp i)).
Proof.
  intros Hwf Ho Hi. unfold utoff_at. assert (repeat_shift sp t = 0) as ->.
  { unfold repeat_shift. by rewrite Ho. }
  rewrite Z.add_0_r. by rewrite (local_type_segment sp t i).
Qed.

Lemma utoff_at_bound sp t : wf_state sp -> Z.abs (utoff_at sp t) < 86400.
Proof. intros Hwf. apply (wf_utoff sp Hwf). Qed.

(** Around a local time [M] at most one transition counts: the first one after
    [M] minus a day. *)
Lemma utoff_around tz M i :
  wf_state tz ->
  (forall i, 0 <= i -> i + 1 < timecnt tz -> at_ tz i + 172800 <= at_ tz (i + 1)) ->
  (forall u, Z.abs (u - M) <= 86400 -> outside tz u = false) ->
  in_segment tz (M - 86400) i ->
  forall u, Z.abs (u - M) <= 86400 ->
  utoff_at tz u =
    if (i <? timecnt tz) && (at_ tz i <=? u) then tt_utoff (tti_ tz (segment_type tz (i + 1)))
    else tt_utoff (tti_ tz (segment_type tz i)).
Proof.
  intros Hwf Hgap Hout (Hir & Hilo & Hihi) u Hu.
  destruct ((i <? timecnt tz) && (at_ tz i <=? u)) eqn:E; apply utoff_at_segment; auto.
  - split; [lia|]. replace (i + 1 - 1) with i by lia. split; [lia|].
    intros Hlt. specialize (Hgap i). specialize (Hihi ltac:(lia)). lia.
  - split; [lia|]. split; [intros Hp; specialize (Hilo Hp)|intros Hlt]; lia.
Qed.

(** C35. [DetermineTimeZoneOffset] inverts [pg_localtime] on every local time
    that occurs: let the zone's transitions be at least 48 hours apart (the
    assumption the code states) and the neighbourhood of the local time lie in
    the table.  Then the routine returns an offset without overflow, its UTC
    time [tp] is the local time shifted by that offset, and whenever some UTC
    time has this local time, [tp] has it too (hence is that time, when it is
    unique; in a gap no UTC time has it). *)
Theorem DetermineTimeZoneOffset_inverts ss tz tm jd :
  wf_state tz ->
  (forall i, 0 <= i -> i + 1 < timecnt tz -> at_ tz i + 172800 <= at_ tz (i + 1)) ->
  0 <= jd <= 200000000 -> j2date jd = (tm_year tm, tm_mon tm, tm_mday tm) ->
  0 <= tm_hour tm < 24 -> 0 <= tm_min tm < 60 -> 0 <= tm_sec tm < 60 ->
  tm_year tm <> 0 \/ compatible_db ss = PG_PARSER ->
  (forall u, Z.abs (u - local_seconds jd tm) <= 86400 -> outside tz u = false) ->
  exists off tp isdst,
    DetermineTimeZoneOffsetInternal ss tm tz = Ok (off, tp, isdst) /\
    tp = local_seconds jd tm + off /\ Z.abs off < 86400 /\
    (forall u, u + utoff_at tz u = local_seconds jd tm -> tp + utoff_at tz tp = local_seconds jd tm).
Proof.
  intros Hwf Hgap Hj E Hh Hmi Hs Hmode Hout.
  assert (Hj' : 0 <= jd <= INT_MAX) by (unfold INT_MAX; lia).
  pose proof (j2date_spec _ _ _ _ Hj' E) as (_ & [Hm _] & He).
  unfold DetermineTimeZoneOffsetInternal.
  rewrite (is_valid_julian_j2date _ _ _ _ Hj E). cbn [negb].
  rewrite date2j_plain by (destruct Hmode; [left; split; [done|lia]|by right]).
  cbn [mbind result_bind]. rewrite He.
  replace ((jd - UNIX_EPOCH_JDATE) * SECS_PER_DAY + (tm_sec tm + (tm_min tm + tm_hour tm * 60) * 60))
    with (local_seconds jd tm) by (unfold local_seconds, UNIX_EPOCH_JDATE, SECS_PER_DAY; lia).
  set (M := local_seconds jd tm) in *.
  assert (HM : (jd - 2440588) * 86400 <= M) by (unfold M, local_seconds; lia).
  replace (Z.quot ((jd - UNIX_EPOCH_JDATE) * SECS_PER_DAY) SECS_PER_DAY =? jd - UNIX_EPOCH_JDATE)
    with true by (unfold SECS_PER_DAY; lia).
  cbn [negb]. replace ((M <? 0) && _) with false by (unfold UNIX_EPOCH_JDATE, SECS_PER_DAY; lia).
  unfold SECS_PER_DAY. replace ((M <? 0) && (0 <? M - 86400)) with false by lia.
  destruct (next_dst_segment tz (M - 86400) Hwf) as (i & Hi & ->); [apply Hout; lia|].
  pose proof Hi as (Hir & Hilo & Hihi). unfold segment_boundary.
  pose proof (wf_utoff tz Hwf (segment_type tz i)) as Hb.
  pose proof (wf_utoff tz Hwf (segment_type tz (i + 1))) as Ha. unfold SECSPERDAY in Ha, Hb.
  set (bo := tt_utoff (tti_ tz (segment_type tz i))) in *.
  set (ao := tt_utoff (tti_ tz (segment_type tz (i + 1)))) in *.
  pose proof (utoff_around tz M i Hwf Hgap Hout Hi) as Hu0. fold bo ao in Hu0.
  assert (Hreal : forall u, u + utoff_at tz u = M -> Z.abs (u - M) < 86400)
    by (intros u Hu; pose proof (utoff_at_bound tz u Hwf); lia).
  destruct (Z.eqb_spec i (timecnt tz)) as [->|Hne].
  - eexists _, _, _. split; [reflexivity|]. split; [lia|]. split; [lia|].
    intros u _. rewrite Hu0, Z.ltb_irrefl by lia. cbn [andb]. lia.
  - replace (i <? timecnt tz) with true in Hu0 by lia. cbn [andb] in Hu0.
    replace (_ || _) with false by lia. replace (_ || _) with false by lia.
    destruct ((M - bo <? at_ tz i) && (M - ao <? at_ tz i)) eqn:C1;
      [|destruct ((at_ tz i <? M - bo) && (at_ tz i <=? M - ao)) eqn:C2;
        [|destruct (M - ao <? M - bo) eqn:C3]];
      (eexists _, _, _; split; [reflexivity|]; split; [lia|]; split; [lia|]); intros u Hu;
      pose proof (Hreal u Hu); rewrite Hu0 in Hu by lia; rewrite Hu0 by lia;
      destruct (at_ tz i <=? u) eqn:Cu; case_match; lia.
Qed.

Definition example_tm : pg_tm := mk_tm 0 30 12 12 1 1970 0 0 (-1) 0 None.

Lemma DetermineTimeZoneOffset_inverts_witness :
  exists off tp isdst,
    DetermineTimeZoneOffsetInternal (mk_session ORA_PARSER 0 example_zone) example_tm example_zone
      = Ok (off, tp, isdst) /\ tp = local_seconds 2440599 example_tm + off.
Proof.
  destruct (DetermineTimeZoneOffset_inverts (mk_session ORA_PARSER 0 example_zone) example_zone
              example_tm 2440599 example_zone_wf) as (off & tp & isdst & H1 & H2 & _).
  - intros i Hi Hn. change (timecnt example_zone) with 2 in Hn.
    assert (i = 0) as -> by lia. vm_compute. discriminate.
  - lia.
  - vm_compute. reflexivity.
  - vm_compute. split; [discriminate|reflexivity].
  - vm_compute. split; [discriminate|reflexivity].
  - vm_compute. split; [discriminate|reflexivity].
  - left. vm_compute. discriminate.
  - reflexivity.
  - exists off, tp, isdst. split; [exact H1|exact H2].
Defined.

(** Year 0 (1 BC) in Oracle mode: [date2j] replaces it by the current year,
    so the day number of a date of year 0 is the one of the same day of the
    current year, or an error when that day does not exist there; it is never
    the day number of the date asked for. *)
Theorem date2j_year_zero_takes_clock ss m d tm fsec tz :
  compatible_db ss = ORA_PARSER ->
  timestamp2tm (session_timezone ss) (current_timestamp ss) = Ok (Some (tm, fsec, tz)) ->
  -4799 <= tm_year tm -> tm_year tm <> 0 -> valid_date 0 m d ->
  date2j ss 0 m d =
    (if decide (valid_date (tm_year tm) m d) then Ok (date2j_civil (tm_year tm) m d)
     else ereport ERRCODE_DATETIME_FIELD_OVERFLOW
            "The value of day must be between 1 and the last day of the month.") /\
  date2j ss 0 m d <> Ok (date2j_civil 0 m d).
Proof.
  intros Hmode Hnow Hy Hy0 [Hm Hd].
  assert (E : date2j ss 0 m d = if decide (valid_date (tm_year tm) m d)
    then Ok (date2j_civil (tm_year tm) m d)
    else ereport ERRCODE_DATETIME_FIELD_OVERFLOW
           "The value of day must be between 1 and the last day of the month.").
  { unfold date2j. rewrite Hnow, bool_decide_eq_true_2 by done.
    cbn [Z.eqb orb andb mbind result_bind]. replace (m =? 0) with false by lia.
    destruct (decide _) as [[_ Hv]|Hn].
    - by replace (month_days (tm_year tm) m <? d) with false by lia.
    - replace (month_days (tm_year tm) m <? d) with true; [done|].
      symmetry. apply Z.ltb_lt, Z.nle_gt. intros Hle. apply Hn. split; lia. }
  split; [done|]. rewrite E. destruct (decide _) as [Hv|]; [|discriminate].
  intros [= He]. apply date2j_civil_inj in He; [|lia|lia|done|done]. congruence.
Qed.

Lemma date2j_year_zero_takes_clock_witness :
  date2j (mk_session ORA_PARSER 800000000000000 example_zone) 0 2 29
    = ereport ERRCODE_DATETIME_FIELD_OVERFLOW
        "The value of day must be between 1 and the last day of the month." /\
  date2j (mk_session ORA_PARSER 800000000000000 example_zone) 0 2 29 <> Ok (date2j_civil 0 2 29).
Proof.
  destruct (timestamp2tm example_zone 800000000000000) as [[[[tm fsec] tz]|]|] eqn:E;
    [|vm_compute in E; discriminate|vm_compute in E; discriminate].
  assert (Hy : tm_year tm = 2025) by (vm_compute in E; injection E as <- _ _; reflexivity).
  destruct (date2j_year_zero_takes_clock (mk_session ORA_PARSER 800000000000000 example_zone)
              2 29 tm fsec tz) as [H1 H2].
  - reflexivity.
  - exact E.
  - rewrite Hy. discriminate.
  - rewrite Hy. discriminate.
  - vm_compute. repeat split; discriminate.
  - split; [|exact H2]. rewrite H1, Hy. vm_compute. reflexivity.
Defined.
