(* ===== verification/CalendarSyntax.v ===== *)
(** * DBMS_SCHEDULER calendar strings: parsing

    contrib/ivorysql_ora/src/builtin_packages/dbms_scheduler/scheduler_calendar.c,
    from [SchedFreq] to [parse_calendar].  Calendar strings are byte lists; the
    C arrays of [CalendarRule] with their counters are lists (the counter is the
    length), boolean sets keep their full length.  An access to an array at a
    computed index goes through [load] and [store], which answer an internal
    error outside the array; [seen[9]] is indexed by constants only. *)

From S2P Require Import Prelude Gregorian.

(** ** Data *)

Inductive SchedFreq :=
  | FREQ_YEARLY | FREQ_MONTHLY | FREQ_WEEKLY | FREQ_DAILY
  | FREQ_HOURLY | FREQ_MINUTELY | FREQ_SECONDLY.

#[export] Instance SchedFreq_eq_dec : EqDecision SchedFreq.
Proof. solve_decision. Defined.

Record SchedByDay := mk_byday { bd_dow : Z; bd_ord : Z }.
Record SchedByDate := mk_bydate { bt_year : Z; bt_mon : Z; bt_mday : Z }.

#[export] Instance SchedByDay_eq_dec : EqDecision SchedByDay.
Proof. solve_decision. Defined.
#[export] Instance SchedByDate_eq_dec : EqDecision SchedByDate.
Proof. solve_decision. Defined.

Record CalendarRule := mk_rule {
  freq : SchedFreq;
  interval : Z;
  bymonth : list bool; has_bymonth : bool;
  bymonthday : list Z;
  byday : list SchedByDay; byday_has_ord : bool;
  bydate : list SchedByDate;
  byhour : list bool; has_byhour : bool;
  byminute : list bool; has_byminute : bool;
  bysecond : list bool; has_bysecond : bool
}.

#[export] Instance CalendarRule_eq_dec : EqDecision CalendarRule.
Proof. solve_decision. Defined.

(** Field updates. *)
Definition set_freq v r := mk_rule v r.(interval) r.(bymonth) r.(has_bymonth) r.(bymonthday) r.(byday)
  r.(byday_has_ord) r.(bydate) r.(byhour) r.(has_byhour) r.(byminute) r.(has_byminute) r.(bysecond) r.(has_bysecond).
Definition set_interval v r := mk_rule r.(freq) v r.(bymonth) r.(has_bymonth) r.(bymonthday) r.(byday)
  r.(byday_has_ord) r.(bydate) r.(byhour) r.(has_byhour) r.(byminute) r.(has_byminute) r.(bysecond) r.(has_bysecond).
Definition set_bymonth v h r := mk_rule r.(freq) r.(interval) v h r.(bymonthday) r.(byday)
  r.(byday_has_ord) r.(bydate) r.(byhour) r.(has_byhour) r.(byminute) r.(has_byminute) r.(bysecond) r.(has_bysecond).
Definition set_bymonthday v r := mk_rule r.(freq) r.(interval) r.(bymonth) r.(has_bymonth) v r.(byday)
  r.(byday_has_ord) r.(bydate) r.(byhour) r.(has_byhour) r.(byminute) r.(has_byminute) r.(bysecond) r.(has_bysecond).
Definition set_byday v o r := mk_rule r.(freq) r.(interval) r.(bymonth) r.(has_bymonth) r.(bymonthday) v
  o r.(bydate) r.(byhour) r.(has_byhour) r.(byminute) r.(has_byminute) r.(bysecond) r.(has_bysecond).
Definition set_bydate v r := mk_rule r.(freq) r.(interval) r.(bymonth) r.(has_bymonth) r.(bymonthday) r.(byday)
  r.(byday_has_ord) v r.(byhour) r.(has_byhour) r.(byminute) r.(has_byminute) r.(bysecond) r.(has_bysecond).
Definition set_byhour v h r := mk_rule r.(freq) r.(interval) r.(bymonth) r.(has_bymonth) r.(bymonthday) r.(byday)
  r.(byday_has_ord) r.(bydate) v h r.(byminute) r.(has_byminute) r.(bysecond) r.(has_bysecond).
Definition set_byminute v h r := mk_rule r.(freq) r.(interval) r.(bymonth) r.(has_bymonth) r.(bymonthday) r.(byday)
  r.(byday_has_ord) r.(bydate) r.(byhour) r.(has_byhour) v h r.(bysecond) r.(has_bysecond).
Definition set_bysecond v h r := mk_rule r.(freq) r.(interval) r.(bymonth) r.(has_bymonth) r.(bymonthday) r.(byday)
  r.(byday_has_ord) r.(bydate) r.(byhour) r.(has_byhour) r.(byminute) r.(has_byminute) v h.

(** [MemSet(rule, 0, ...)] and [rule->interval = 1]. *)
Definition empty_rule : CalendarRule :=
  mk_rule FREQ_YEARLY 1 (replicate 13 false) false [] [] false []
    (replicate 24 false) false (replicate 60 false) false (replicate 60 false) false.

(** Accesses to a C array: [a[i]] and [a[i] = v].  An index outside the array,
    undefined behaviour in C, is an error of its own here. *)
Definition out_of_bounds {A} : result A := ereport ERRCODE_INTERNAL_ERROR "array index out of bounds".

Definition load {A} (a : list A) (i : Z) : result A :=
  if i <? 0 then out_of_bounds
  else match a !! Z.to_nat i with Some v => Ok v | None => out_of_bounds end.

Definition store {A} (a : list A) (i : Z) (v : A) : result (list A) :=
  if (0 <=? i) && (i <? Z.of_nat (length a)) then Ok (<[Z.to_nat i := v]> a) else out_of_bounds.

Definition month_names : list bytes :=
  map lit ["JAN"; "FEB"; "MAR"; "APR"; "MAY"; "JUN"; "JUL"; "AUG"; "SEP"; "OCT"; "NOV"; "DEC"]%string.

Definition day_names : list (bytes * Z) :=
  [(lit "SUN", 0); (lit "MON", 1); (lit "TUE", 2); (lit "WED", 3);
   (lit "THU", 4); (lit "FRI", 5); (lit "SAT", 6)].

(** ** Parsing *)

Definition calendar_error {A} (detail : string) : result A :=
  ereport ERRCODE_INVALID_PARAMETER_VALUE detail.

(** [pg_toupper]; what it does to bytes with the high bit set depends on the
    locale ([toupper_high]). *)
Definition pg_toupper (toupper_high : ascii -> ascii) (c : ascii) : ascii :=
  if (97 <=? ord c) && (ord c <=? 122) then chr (ord c - 32)
  else if 128 <=? ord c then toupper_high c
  else c.

Definition is_space (c : ascii) : bool :=
  bool_decide (c = " "%char) || bool_decide (c = "009"%char) ||
  bool_decide (c = "010"%char) || bool_decide (c = "013"%char).

(** Upper-cased copy without whitespace. *)
Fixpoint normalize_calendar (up : ascii -> ascii) (s : bytes) : bytes :=
  match s with
  | [] => []
  | c :: s' =>
      if is_space c then normalize_calendar up s'
      else pg_toupper up c :: normalize_calendar up s'
  end.

Fixpoint parse_digits (s : bytes) (val : Z) : option Z :=
  match s with
  | [] => Some val
  | c :: s' =>
      if (ord c <? 48) || (57 <? ord c) then None
      else if Z.quot (INT_MAX - 9) 10 <? val then None
      else parse_digits s' (val * 10 + (ord c - 48))
  end.

(** [parse_int(s, len, &result)]; [None] is the [false] return. *)
Definition parse_int (s : bytes) : option Z :=
  let '(sign, s') :=
    match s with
    | c :: s' => if bool_decide (c = "-"%char) then (-1, s')
                 else if bool_decide (c = "+"%char) then (1, s') else (1, s)
    | [] => (1, s)
    end in
  match s' with
  | [] => None
  | _ => val ← parse_digits s' 0; Some (sign * val)
  end.

(** The item callbacks of [parse_list]. *)
Abbreviation item_cb := (bytes -> CalendarRule -> result CalendarRule).

Fixpoint index_of (x : bytes) (l : list bytes) (i : Z) : Z :=
  match l with
  | [] => -1
  | y :: l' => if decide (x = y) then i else index_of x l' (i + 1)
  end.

Definition bymonth_cb : item_cb := fun item rule =>
  let val := if (length item =? 3)%nat then index_of item month_names 1 else -1 in
  let val := if val <? 0 then default (-1) (parse_int item) else val in
  if (val <? 1) || (12 <? val) then
    calendar_error "BYMONTH values must be month names or 1 through 12."
  else
    set ← store rule.(bymonth) val true;
    Ok (set_bymonth set rule.(has_bymonth) rule).

Definition bymonthday_cb : item_cb := fun item rule =>
  match parse_int item with
  | Some val =>
      if (val =? 0) || (val <? -31) || (31 <? val) then
        calendar_error "BYMONTHDAY values must be -31 through -1 or 1 through 31."
      else if (62 <=? length rule.(bymonthday))%nat then
        calendar_error "too many BYMONTHDAY values."
      else Ok (set_bymonthday (rule.(bymonthday) ++ [val]) rule)
  | None => calendar_error "BYMONTHDAY values must be -31 through -1 or 1 through 31."
  end.

Fixpoint day_of_name (x : bytes) (l : list (bytes * Z)) : Z :=
  match l with
  | [] => -1
  | (y, d) :: l' => if decide (x = y) then d else day_of_name x l'
  end.

Definition byday_ordinal (item : bytes) : result (Z * bytes) :=
  if (3 <? length item)%nat then
    let n := (length item - 3)%nat in
    match parse_int (take n item) with
    | Some ord =>
        if (ord =? 0) || (ord <? -5) || (5 <? ord) then
          calendar_error "BYDAY ordinal must be -5 through -1 or 1 through 5."
        else Ok (ord, drop n item)
    | None => calendar_error "BYDAY ordinal must be -5 through -1 or 1 through 5."
    end
  else Ok (0, item).

Definition byday_dow (item : bytes) : Z :=
  if (length item =? 3)%nat then day_of_name item day_names
  else if (length item =? 1)%nat then
    match parse_int item with
    | Some iso => if (1 <=? iso) && (iso <=? 7) then Z.rem iso 7 else -1
    | None => -1
    end
  else -1.

Definition byday_cb : item_cb := fun item rule =>
  '(ord, item) ← byday_ordinal item;
  let dow := byday_dow item in
  if dow <? 0 then
    calendar_error "BYDAY values must be day names (MON through SUN) or 1 through 7, with an optional ordinal."
  else if (64 <=? length rule.(byday))%nat then calendar_error "too many BYDAY values."
  else Ok (set_byday (rule.(byday) ++ [mk_byday dow ord])
                     (if negb (ord =? 0) then true else rule.(byday_has_ord)) rule).

(** [days_in_month] of scheduler_calendar.c. *)
Definition days_in_month (year month : Z) : result Z :=
  let md := [31; 28; 31; 30; 31; 30; 31; 31; 30; 31; 30; 31] in
  if (month =? 2) && isleap year then Ok 29 else load md (month - 1).

Definition bydate_year (item : bytes) : result (Z * bytes) :=
  if (length item =? 8)%nat then
    match parse_int (take 4 item) with
    | Some year =>
        if year <? 1 then calendar_error "BYDATE year must be a four-digit year."
        else Ok (year, drop 4 item)
    | None => calendar_error "BYDATE year must be a four-digit year."
    end
  else Ok (0, item).

Definition bydate_cb : item_cb := fun item rule =>
  if negb (length item =? 4)%nat && negb (length item =? 8)%nat then
    calendar_error "BYDATE values must be YYYYMMDD or MMDD."
  else
    '(year, item) ← bydate_year item;
    match parse_int (take 2 item), parse_int (take 2 (drop 2 item)) with
    | Some mon, Some mday =>
        if (mon <? 1) || (12 <? mon) then calendar_error "BYDATE month must be 01 through 12."
        else if (mday <? 1) || (31 <? mday) then calendar_error "BYDATE day must be 01 through 31."
        else
          dim ← days_in_month (if 0 <? year then year else 2000) mon;
          if dim <? mday then calendar_error "BYDATE day is out of range for its month."
          else if (64 <=? length rule.(bydate))%nat then calendar_error "too many BYDATE values."
          else Ok (set_bydate (rule.(bydate) ++ [mk_bydate year mon mday]) rule)
    | _, _ => calendar_error "BYDATE values must be YYYYMMDD or MMDD."
    end.

Definition byhour_cb : item_cb := fun item rule =>
  match parse_int item with
  | Some val =>
      if (val <? 0) || (23 <? val) then calendar_error "BYHOUR values must be 0 through 23."
      else
        set ← store rule.(byhour) val true;
        Ok (set_byhour set rule.(has_byhour) rule)
  | None => calendar_error "BYHOUR values must be 0 through 23."
  end.

Definition byminute_cb : item_cb := fun item rule =>
  match parse_int item with
  | Some val =>
      if (val <? 0) || (59 <? val) then calendar_error "BYMINUTE values must be 0 through 59."
      else
        set ← store rule.(byminute) val true;
        Ok (set_byminute set rule.(has_byminute) rule)
  | None => calendar_error "BYMINUTE values must be 0 through 59."
  end.

Definition bysecond_cb : item_cb := fun item rule =>
  match parse_int item with
  | Some val =>
      if (val <? 0) || (59 <? val) then calendar_error "BYSECOND values must be 0 through 59."
      else
        set ← store rule.(bysecond) val true;
        Ok (set_bysecond set rule.(has_bysecond) rule)
  | None => calendar_error "BYSECOND values must be 0 through 59."
  end.

(** The loop of [parse_list] over the rest [p] of the value. *)
Fixpoint parse_list_loop (fuel : nat) (cb : item_cb) (p : bytes) (rule : CalendarRule)
    : result CalendarRule :=
  match fuel, p with
  | _, [] => Ok rule
  | O, _ => ereport ERRCODE_INTERNAL_ERROR "fuel"
  | S fuel', _ =>
      let '(item, rest) := break_at ","%char p in
      if (length item =? 0)%nat then calendar_error "empty element in value list."
      else
        rule ← cb item rule;
        parse_list_loop fuel' cb (default [] rest) rule
  end.

Definition parse_list (value : bytes) (rule : CalendarRule) (cb : item_cb) : result CalendarRule :=
  match value with
  | [] => calendar_error "empty value list."
  | _ => parse_list_loop (S (length value)) cb value rule
  end.

(** The loop state of [parse_calendar]: the rule under construction,
    [has_freq], and [seen[9]]. *)
Record pstate := mk_pstate { ps_rule : CalendarRule; ps_has_freq : bool; ps_seen : list bool }.

Definition freq_names : list (bytes * SchedFreq) :=
  [(lit "YEARLY", FREQ_YEARLY); (lit "MONTHLY", FREQ_MONTHLY); (lit "WEEKLY", FREQ_WEEKLY);
   (lit "DAILY", FREQ_DAILY); (lit "HOURLY", FREQ_HOURLY); (lit "MINUTELY", FREQ_MINUTELY);
   (lit "SECONDLY", FREQ_SECONDLY)].

Fixpoint freq_of_name (x : bytes) (l : list (bytes * SchedFreq)) : option SchedFreq :=
  match l with
  | [] => None
  | (y, f) :: l' => if decide (x = y) then Some f else freq_of_name x l'
  end.

(** [if (seen[i]) error; seen[i] = true]. *)
Definition see (i : nat) (dup : string) (st : pstate) : result pstate :=
  if nth i st.(ps_seen) false then calendar_error dup
  else Ok (mk_pstate st.(ps_rule) st.(ps_has_freq) (<[i := true]> st.(ps_seen))).

Definition with_rule (st : pstate) (r : CalendarRule) : pstate :=
  mk_pstate r st.(ps_has_freq) st.(ps_seen).

(** One NAME=VALUE clause. *)
Definition parse_clause (name value : bytes) (st : pstate) : result pstate :=
  if decide (name = lit "FREQ") then
    st ← see 0 "duplicate FREQ clause." st;
    match freq_of_name value freq_names with
    | Some f => Ok (mk_pstate (set_freq f st.(ps_rule)) true st.(ps_seen))
    | None => calendar_error "FREQ must be one of YEARLY, MONTHLY, WEEKLY, DAILY, HOURLY, MINUTELY or SECONDLY."
    end
  else if decide (name = lit "INTERVAL") then
    st ← see 1 "duplicate INTERVAL clause." st;
    match parse_int value with
    | Some v =>
        if (v <? 1) || (99 <? v) then calendar_error "INTERVAL must be 1 through 99."
        else Ok (with_rule st (set_interval v st.(ps_rule)))
    | None => calendar_error "INTERVAL must be 1 through 99."
    end
  else if decide (name = lit "BYMONTH") then
    st ← see 2 "duplicate BYMONTH clause." st;
    r ← parse_list value (set_bymonth st.(ps_rule).(bymonth) true st.(ps_rule)) bymonth_cb;
    Ok (with_rule st r)
  else if decide (name = lit "BYMONTHDAY") then
    st ← see 3 "duplicate BYMONTHDAY clause." st;
    r ← parse_list value st.(ps_rule) bymonthday_cb;
    Ok (with_rule st r)
  else if decide (name = lit "BYDAY") then
    st ← see 4 "duplicate BYDAY clause." st;
    r ← parse_list value st.(ps_rule) byday_cb;
    Ok (with_rule st r)
  else if decide (name = lit "BYDATE") then
    st ← see 8 "duplicate BYDATE clause." st;
    r ← parse_list value st.(ps_rule) bydate_cb;
    Ok (with_rule st r)
  else if decide (name = lit "BYHOUR") then
    st ← see 5 "duplicate BYHOUR clause." st;
    r ← parse_list value (set_byhour st.(ps_rule).(byhour) true st.(ps_rule)) byhour_cb;
    Ok (with_rule st r)
  else if decide (name = lit "BYMINUTE") then
    st ← see 6 "duplicate BYMINUTE clause." st;
    r ← parse_list value (set_byminute st.(ps_rule).(byminute) true st.(ps_rule)) byminute_cb;
    Ok (with_rule st r)
  else if decide (name = lit "BYSECOND") then
    st ← see 7 "duplicate BYSECOND clause." st;
    r ← parse_list value (set_bysecond st.(ps_rule).(bysecond) true st.(ps_rule)) bysecond_cb;
    Ok (with_rule st r)
  else ereport ERRCODE_FEATURE_NOT_SUPPORTED "Clause is not supported.".

(** The clause loop over the rest of the normalised string. *)
Fixpoint parse_clauses (fuel : nat) (s : bytes) (st : pstate) : result pstate :=
  match fuel, s with
  | _, [] => Ok st
  | O, _ => ereport ERRCODE_INTERNAL_ERROR "fuel"
  | S fuel', _ =>
      let '(clause, rest) := break_at ";"%char s in
      if (length clause =? 0)%nat then parse_clauses fuel' (default [] rest) st
      else
        match break_at "="%char clause with
        | (_, None) => calendar_error "each clause must have the form NAME=VALUE."
        | (name, Some value) =>
            st ← parse_clause name value st;
            parse_clauses fuel' (default [] rest) st
        end
  end.

Definition parse_calendar (up : ascii -> ascii) (calendar : bytes) : result CalendarRule :=
  match calendar with
  | [] => ereport ERRCODE_INVALID_PARAMETER_VALUE "calendar string must not be empty"
  | _ =>
      let norm := normalize_calendar up calendar in
      st ← parse_clauses (S (length norm)) norm (mk_pstate empty_rule false (replicate 9 false));
      let rule := st.(ps_rule) in
      if negb st.(ps_has_freq) then calendar_error "FREQ clause is required."
      else if rule.(byday_has_ord) && negb (bool_decide (rule.(freq) = FREQ_YEARLY)) &&
              negb (bool_decide (rule.(freq) = FREQ_MONTHLY)) then
        calendar_error "BYDAY ordinals are only supported with FREQ=YEARLY or FREQ=MONTHLY."
      else Ok rule
  end.

(** [sched_calendar_validate]. *)
Definition sched_calendar_validate (up : ascii -> ascii) (calendar : bytes) : result unit :=
  _ ← parse_calendar up calendar; Ok tt.

(** ** Well-formed rules *)

Definition bydate_ok (b : SchedByDate) : Prop :=
  0 <= bt_year b <= 9999 /\
  1 <= bt_mon b <= 12 /\ 1 <= bt_mday b <= month_days (if 0 <? bt_year b then bt_year b else 2000) (bt_mon b).

Definition byday_ok (b : SchedByDay) : Prop := 0 <= bd_dow b <= 6 /\ -5 <= bd_ord b <= 5.

Definition has_ordinal (b : SchedByDay) : bool := negb (bd_ord b =? 0).

(** What [CalendarRule]'s declaration and the evaluator rely on: array bounds,
    value ranges, and flags that say whether a set is present. *)
Record rule_wf (r : CalendarRule) : Prop := {
  wf_interval : 1 <= interval r <= 99;
  wf_bymonth : length (bymonth r) = 13%nat /\ nth 0 (bymonth r) false = false;
  wf_bymonthday : (length (bymonthday r) <= 62)%nat /\ Forall (fun d => d <> 0 /\ -31 <= d <= 31) (bymonthday r);
  wf_byday : (length (byday r) <= 64)%nat /\ Forall byday_ok (byday r);
  wf_byday_ord : byday_has_ord r = existsb has_ordinal (byday r);
  wf_bydate : (length (bydate r) <= 64)%nat /\ Forall bydate_ok (bydate r);
  wf_times : length (byhour r) = 24%nat /\ length (byminute r) = 60%nat /\ length (bysecond r) = 60%nat
}.

(** A set is flagged as present exactly when it is not empty. *)
Definition flags_ok (r : CalendarRule) : Prop :=
  has_bymonth r = existsb id (bymonth r) /\ has_byhour r = existsb id (byhour r) /\
  has_byminute r = existsb id (byminute r) /\ has_bysecond r = existsb id (bysecond r).

(** ** Lemmas *)

(** The set after [set[i] = true]. *)
Definition mark (set : list bool) (i : Z) : list bool := <[Z.to_nat i := true]> set.

Lemma store_ok {A} (a : list A) i v :
  0 <= i < Z.of_nat (length a) -> store a i v = Ok (<[Z.to_nat i := v]> a).
Proof. intros. unfold store. by replace (_ && _) with true by lia. Qed.

Lemma store_inv {A} (a a' : list A) i v :
  store a i v = Ok a' -> 0 <= i < Z.of_nat (length a) /\ a' = <[Z.to_nat i := v]> a.
Proof. unfold store. destruct (_ && _) eqn:E; [|done]. intros [= <-]. split; [lia|done]. Qed.

Lemma load_ok {A} (d : A) a i : 0 <= i < Z.of_nat (length a) -> load a i = Ok (nth (Z.to_nat i) a d).
Proof.
  intros. unfold load. replace (i <? 0) with false by lia. rewrite nth_lookup.
  destruct (lookup_lt_is_Some_2 a (Z.to_nat i)) as [v ->]; [lia|done].
Qed.

Lemma days_in_month_eq y m : 1 <= m <= 12 -> days_in_month y m = Ok (month_days y m).
Proof.
  intros. rewrite month_days_eq by done. unfold days_in_month. destruct (isleap y); month_cases m; reflexivity.
Qed.

Lemma length_mark set i : length (mark set i) = length set.
Proof. apply length_insert. Qed.

Lemma existsb_mark set i :
  0 <= i < Z.of_nat (length set) -> existsb id (mark set i) = true.
Proof.
  intros Hi. apply existsb_exists. exists true. split; [|done].
  apply list_elem_of_In, (list_elem_of_lookup_2 _ (Z.to_nat i)), list_lookup_insert_eq. lia.
Qed.

Lemma nth_mark_ne set i j : (Z.to_nat i <> j) -> nth j (mark set i) false = nth j set false.
Proof.
  intros H. unfold mark. rewrite !nth_lookup. by rewrite list_lookup_insert_ne.
Qed.

(** Invariants carry through [parse_list]; a successful [parse_list] has run its
    callback at least once. *)
Lemma parse_list_loop_inv (I : CalendarRule -> Prop) cb :
  (forall item r r', I r -> cb item r = Ok r' -> I r') ->
  forall fuel p r r', I r -> parse_list_loop fuel cb p r = Ok r' -> I r'.
Proof.
  intros Hcb. induction fuel as [|fuel IH]; intros p r r' HI E.
  - destruct p; [|discriminate]. by injection E as <-.
  - destruct p as [|c p]; [by injection E as <-|]. cbn [parse_list_loop] in E.
    destruct (break_at "," (c :: p)) as [item rest]. destruct (length item =? 0)%nat; [done|].
    apply bind_Ok_inv in E as (r1 & E1 & E2). eauto.
Qed.

Lemma parse_list_inv (I J : CalendarRule -> Prop) cb value r r' :
  (forall item r r', I r -> cb item r = Ok r' -> J r') -> (forall r, J r -> I r) ->
  I r -> parse_list value r cb = Ok r' -> J r'.
Proof.
  intros Hcb HJI HI E. destruct value as [|c p]; [discriminate|].
  unfold parse_list in E. remember (length (c :: p)) as n eqn:Hn. clear Hn. cbn [parse_list_loop] in E.
  destruct (break_at "," (c :: p)) as [item rest]. destruct (length item =? 0)%nat; [done|].
  apply bind_Ok_inv in E as (r1 & E1 & E2).
  eapply (parse_list_loop_inv J); [|by eapply Hcb|exact E2].
  intros item' r2 r2' H2 E'. eapply Hcb; [by apply HJI|done].
Qed.

(** A successful callback, its tests as hypotheses. *)
Ltac inv_cb E :=
  repeat match type of E with
  | match ?x with _ => _ end = Ok _ => let C := fresh "C" in destruct x eqn:C; try discriminate E
  | (if ?x then _ else _) = Ok _ => let C := fresh "C" in destruct x eqn:C; try discriminate E
  | calendar_error _ = Ok _ => discriminate E
  | _ ≫= _ = Ok _ => let a := fresh "a" in let Ha := fresh "Ha" in
      apply bind_Ok_inv in E as (a & Ha & E)
  end.

Lemma bymonth_cb_spec item r r' :
  bymonth_cb item r = Ok r' ->
  exists v, 1 <= v <= 12 /\ r' = set_bymonth (mark (bymonth r) v) (has_bymonth r) r.
Proof.
  unfold bymonth_cb. intros E. cbn zeta in E.
  match type of E with (if (?v <? 1) || _ then _ else _) = _ => set (val := v) in E end.
  inv_cb E. injection E as <-. apply store_inv in Ha as [_ ->]. exists val. split; [lia|done].
Qed.

Lemma bymonthday_cb_spec item r r' :
  bymonthday_cb item r = Ok r' ->
  exists v, v <> 0 /\ -31 <= v <= 31 /\ (length (bymonthday r) < 62)%nat /\
    r' = set_bymonthday (bymonthday r ++ [v]) r.
Proof.
  unfold bymonthday_cb. intros E. inv_cb E. injection E as <-. eexists.
  split; [|split; [|split; [|reflexivity]]]; [lia|lia|apply Nat.leb_gt in C1; lia].
Qed.

Lemma byday_dow_range item : byday_dow item < 7.
Proof.
  unfold byday_dow. destruct (length item =? 3)%nat.
  - cbn [day_of_name day_names]. repeat case_decide; lia.
  - destruct (length item =? 1)%nat; [|lia]. destruct (parse_int item); [|lia].
    destruct (_ && _) eqn:E; lia.
Qed.

Lemma byday_ordinal_range item o it : byday_ordinal item = Ok (o, it) -> -5 <= o <= 5.
Proof. unfold byday_ordinal. intros E. inv_cb E; injection E as <- <-; lia. Qed.

Lemma byday_cb_spec item r r' :
  byday_cb item r = Ok r' ->
  exists b, byday_ok b /\ (length (byday r) < 64)%nat /\
    r' = set_byday (byday r ++ [b]) (byday_has_ord r || has_ordinal b) r.
Proof.
  unfold byday_cb. intros E. apply bind_Ok_inv in E as ([o it] & Ho & E).
  apply byday_ordinal_range in Ho. pose proof (byday_dow_range it).
  cbn zeta in E. inv_cb E. injection E as <-. exists (mk_byday (byday_dow it) o).
  split; [split; cbn; lia|]. split; [apply Nat.leb_gt in C0; lia|].
  unfold has_ordinal. cbn [bd_ord]. f_equal. by destruct (negb _), (byday_has_ord r).
Qed.

Lemma parse_digits_bound s : forall v v', parse_digits s v = Some v' -> 0 <= v ->
  0 <= v' < (v + 1) * 10 ^ Z.of_nat (length s).
Proof.
  induction s as [|c s IH]; intros v v' E Hv; cbn [parse_digits length] in *.
  - injection E as <-. rewrite Z.pow_0_r. lia.
  - destruct (_ || _) eqn:Ec; [done|]. destruct (_ <? v); [done|].
    apply IH in E; [|lia]. rewrite Nat2Z.inj_succ, Z.pow_succ_r by lia.
    assert (0 < 10 ^ Z.of_nat (length s)) by (apply Z.pow_pos_nonneg; lia). nia.
Qed.

Lemma parse_int_bound s v : parse_int s = Some v -> Z.abs v < 10 ^ Z.of_nat (length s).
Proof.
  unfold parse_int. intros E.
  assert (exists sg s', Z.abs sg = 1 /\ (length s' <= length s)%nat /\ s' <> [] /\
            (val ← parse_digits s' 0; Some (sg * val)) = Some v) as (sg & s' & Hsg & Hl & _ & E').
  { destruct s as [|c s]; [done|].
    destruct (bool_decide (c = "-"%char)); [|destruct (bool_decide (c = "+"%char))].
    - destruct s; [done|]. exists (-1). eexists. split; [done|]. split; [|split; [|exact E]]; [cbn; lia|done].
    - destruct s; [done|]. exists 1. eexists. split; [done|]. split; [|split; [|exact E]]; [cbn; lia|done].
    - exists 1. eexists. split; [done|]. split; [|split; [|exact E]]; [lia|done]. }
  destruct (parse_digits s' 0) as [val|] eqn:Ep; [|done]. injection E' as <-.
  apply parse_digits_bound in Ep; [|lia].
  pose proof (Z.pow_le_mono_r 10 (Z.of_nat (length s')) (Z.of_nat (length s))). nia.
Qed.

Lemma bydate_cb_spec item r r' :
  bydate_cb item r = Ok r' ->
  exists b, bydate_ok b /\ (length (bydate r) < 64)%nat /\ r' = set_bydate (bydate r ++ [b]) r.
Proof.
  unfold bydate_cb. intros E. destruct (_ && _); [done|].
  apply bind_Ok_inv in E as ([y it] & Hy & E).
  assert (0 <= y <= 9999).
  { unfold bydate_year in Hy. inv_cb Hy; injection Hy as <- <-; [|lia].
    apply parse_int_bound in C0.
    pose proof (Z.pow_le_mono_r 10 (Z.of_nat (length (take 4 item))) 4).
    rewrite length_take in *. lia. }
  cbn zeta in E. inv_cb E. injection E as <-. eexists. split; [|split; [|reflexivity]].
  - unfold bydate_ok. cbn [bt_year bt_mon bt_mday]. rewrite days_in_month_eq in Ha by lia.
    injection Ha as <-. lia.
  - apply Nat.leb_gt in C4. lia.
Qed.

Lemma byhour_cb_spec item r r' :
  byhour_cb item r = Ok r' ->
  exists v, 0 <= v <= 23 /\ r' = set_byhour (mark (byhour r) v) (has_byhour r) r.
Proof.
  unfold byhour_cb. intros E. inv_cb E. injection E as <-. apply store_inv in Ha as [_ ->].
  eexists. split; [|reflexivity]. lia.
Qed.

Lemma byminute_cb_spec item r r' :
  byminute_cb item r = Ok r' ->
  exists v, 0 <= v <= 59 /\ r' = set_byminute (mark (byminute r) v) (has_byminute r) r.
Proof.
  unfold byminute_cb. intros E. inv_cb E. injection E as <-. apply store_inv in Ha as [_ ->].
  eexists. split; [|reflexivity]. lia.
Qed.

Lemma bysecond_cb_spec item r r' :
  bysecond_cb item r = Ok r' ->
  exists v, 0 <= v <= 59 /\ r' = set_bysecond (mark (bysecond r) v) (has_bysecond r) r.
Proof.
  unfold bysecond_cb. intros E. inv_cb E. injection E as <-. apply store_inv in Ha as [_ ->].
  eexists. split; [|reflexivity]. lia.
Qed.

Create HintDb calendar.

(** Rebuild [rule_wf] after one field changed. *)
Ltac wf_update H :=
  destruct H; split; cbn; rewrite ?length_mark; try done.

Lemma wf_set_freq f r : rule_wf r -> rule_wf (set_freq f r).
Proof. intros H. by wf_update H. Qed.

Lemma wf_set_interval v r : rule_wf r -> 1 <= v <= 99 -> rule_wf (set_interval v r).
Proof. intros H ?. by wf_update H. Qed.

Lemma wf_set_bymonth_flag h r : rule_wf r -> rule_wf (set_bymonth (bymonth r) h r).
Proof. intros H. by wf_update H. Qed.

Lemma wf_set_byhour_flag h r : rule_wf r -> rule_wf (set_byhour (byhour r) h r).
Proof. intros H. by wf_update H. Qed.

Lemma wf_set_byminute_flag h r : rule_wf r -> rule_wf (set_byminute (byminute r) h r).
Proof. intros H. by wf_update H. Qed.

Lemma wf_set_bysecond_flag h r : rule_wf r -> rule_wf (set_bysecond (bysecond r) h r).
Proof. intros H. by wf_update H. Qed.

Lemma wf_mark_month v h r : rule_wf r -> 1 <= v <= 12 -> rule_wf (set_bymonth (mark (bymonth r) v) h r).
Proof.
  intros H Hv. wf_update H. destruct wf_bymonth0 as [Hl H0]. split; [done|].
  by rewrite nth_mark_ne by lia.
Qed.

Lemma wf_mark_hour v h r : rule_wf r -> rule_wf (set_byhour (mark (byhour r) v) h r).
Proof. intros H. by wf_update H. Qed.

Lemma wf_mark_minute v h r : rule_wf r -> rule_wf (set_byminute (mark (byminute r) v) h r).
Proof. intros H. by wf_update H. Qed.

Lemma wf_mark_second v h r : rule_wf r -> rule_wf (set_bysecond (mark (bysecond r) v) h r).
Proof. intros H. by wf_update H. Qed.

Lemma wf_push_monthday v r :
  rule_wf r -> (length (bymonthday r) < 62)%nat -> v <> 0 -> -31 <= v <= 31 ->
  rule_wf (set_bymonthday (bymonthday r ++ [v]) r).
Proof.
  intros H ???. wf_update H. rewrite length_app. cbn. split; [lia|].
  apply Forall_app. split; [apply wf_bymonthday0|]. by constructor.
Qed.

Lemma wf_push_byday b r :
  rule_wf r -> (length (byday r) < 64)%nat -> byday_ok b ->
  rule_wf (set_byday (byday r ++ [b]) (byday_has_ord r || has_ordinal b) r).
Proof.
  intros H ??. wf_update H.
  - rewrite length_app. cbn. split; [lia|]. apply Forall_app. split; [apply wf_byday0|by constructor].
  - rewrite existsb_app, wf_byday_ord0. cbn. by rewrite orb_false_r.
Qed.

Lemma wf_push_bydate b r :
  rule_wf r -> (length (bydate r) < 64)%nat -> bydate_ok b ->
  rule_wf (set_bydate (bydate r ++ [b]) r).
Proof.
  intros H ??. wf_update H. rewrite length_app. cbn. split; [lia|].
  apply Forall_app. split; [apply wf_bydate0|by constructor].
Qed.

#[export] Hint Resolve wf_set_freq wf_set_interval wf_set_bymonth_flag wf_set_byhour_flag
  wf_set_byminute_flag wf_set_bysecond_flag wf_mark_month wf_mark_hour wf_mark_minute
  wf_mark_second wf_push_monthday wf_push_byday wf_push_bydate : calendar.

(** What one clause does to the rule: it stays well formed, its flags stay
    exact. *)
Definition rule_inv (r : CalendarRule) : Prop := rule_wf r /\ flags_ok r.

(** Clauses that fill a flagged set: the flag goes up first, then the list, which
    is not empty, marks at least one element. *)
Lemma bymonth_clause value r r' :
  rule_inv r -> parse_list value (set_bymonth (bymonth r) true r) bymonth_cb = Ok r' -> rule_inv r'.
Proof.
  intros [W F] E.
  set (I := fun x => rule_wf x /\ has_bymonth x = true /\
    has_byhour x = existsb id (byhour x) /\
    has_byminute x = existsb id (byminute x) /\
    has_bysecond x = existsb id (bysecond x)).
  assert (HJ : I r' /\ existsb id (bymonth r') = true).
  { eapply (parse_list_inv I (fun x => I x /\ existsb id (bymonth x) = true));
      [|by intros ? [? ?]| |exact E].
    - intros item x y (Wx & Hx & Ox) Ec. apply bymonth_cb_spec in Ec as (v & Hv & ->).
      split; [split; [auto with calendar|by split]|].
      apply existsb_mark. destruct Wx. lia.
    - split; [auto with calendar|]. split; [done|]. by destruct F as (? & ? & ? & ?). }
  destruct HJ as ((W' & H' & O') & S'). split; [done|]. unfold flags_ok. rewrite H', S'. tauto.
Qed.

Lemma byhour_clause value r r' :
  rule_inv r -> parse_list value (set_byhour (byhour r) true r) byhour_cb = Ok r' -> rule_inv r'.
Proof.
  intros [W F] E.
  set (I := fun x => rule_wf x /\ has_byhour x = true /\
    has_bymonth x = existsb id (bymonth x) /\
    has_byminute x = existsb id (byminute x) /\
    has_bysecond x = existsb id (bysecond x)).
  assert (HJ : I r' /\ existsb id (byhour r') = true).
  { eapply (parse_list_inv I (fun x => I x /\ existsb id (byhour x) = true));
      [|by intros ? [? ?]| |exact E].
    - intros item x y (Wx & Hx & Ox) Ec. apply byhour_cb_spec in Ec as (v & Hv & ->).
      split; [split; [auto with calendar|by split]|].
      apply existsb_mark. destruct Wx. lia.
    - split; [auto with calendar|]. split; [done|]. by destruct F as (? & ? & ? & ?). }
  destruct HJ as ((W' & H' & O') & S'). split; [done|]. unfold flags_ok. rewrite H', S'. tauto.
Qed.

Lemma byminute_clause value r r' :
  rule_inv r -> parse_list value (set_byminute (byminute r) true r) byminute_cb = Ok r' -> rule_inv r'.
Proof.
  intros [W F] E.
  set (I := fun x => rule_wf x /\ has_byminute x = true /\
    has_bymonth x = existsb id (bymonth x) /\
    has_byhour x = existsb id (byhour x) /\
    has_bysecond x = existsb id (bysecond x)).
  assert (HJ : I r' /\ existsb id (byminute r') = true).
  { eapply (parse_list_inv I (fun x => I x /\ existsb id (byminute x) = true));
      [|by intros ? [? ?]| |exact E].
    - intros item x y (Wx & Hx & Ox) Ec. apply byminute_cb_spec in Ec as (v & Hv & ->).
      split; [split; [auto with calendar|by split]|].
      apply existsb_mark. destruct Wx. lia.
    - split; [auto with calendar|]. split; [done|]. by destruct F as (? & ? & ? & ?). }
  destruct HJ as ((W' & H' & O') & S'). split; [done|]. unfold flags_ok. rewrite H', S'. tauto.
Qed.

Lemma bysecond_clause value r r' :
  rule_inv r -> parse_list value (set_bysecond (bysecond r) true r) bysecond_cb = Ok r' -> rule_inv r'.
Proof.
  intros [W F] E.
  set (I := fun x => rule_wf x /\ has_bysecond x = true /\
    has_bymonth x = existsb id (bymonth x) /\
    has_byhour x = existsb id (byhour x) /\
    has_byminute x = existsb id (byminute x)).
  assert (HJ : I r' /\ existsb id (bysecond r') = true).
  { eapply (parse_list_inv I (fun x => I x /\ existsb id (bysecond x) = true));
      [|by intros ? [? ?]| |exact E].
    - intros item x y (Wx & Hx & Ox) Ec. apply bysecond_cb_spec in Ec as (v & Hv & ->).
      split; [split; [auto with calendar|by split]|].
      apply existsb_mark. destruct Wx. lia.
    - split; [auto with calendar|]. split; [done|]. by destruct F as (? & ? & ? & ?). }
  destruct HJ as ((W' & H' & O') & S'). split; [done|]. unfold flags_ok. rewrite H', S'. tauto.
Qed.

(** Clauses that append to an array. *)
Lemma bymonthday_clause value r r' :
  rule_inv r -> parse_list value r bymonthday_cb = Ok r' -> rule_inv r'.
Proof.
  intros H. eapply (parse_list_inv rule_inv rule_inv); [|done|done].
  intros item x y [Wx Fx] Ec. apply bymonthday_cb_spec in Ec as (v & ? & ? & ? & ->).
  split; [auto with calendar|exact Fx].
Qed.

Lemma byday_clause value r r' :
  rule_inv r -> parse_list value r byday_cb = Ok r' -> rule_inv r'.
Proof.
  intros H. eapply (parse_list_inv rule_inv rule_inv); [|done|done].
  intros item x y [Wx Fx] Ec. apply byday_cb_spec in Ec as (v & ? & ? & ->).
  split; [auto with calendar|exact Fx].
Qed.

Lemma bydate_clause value r r' :
  rule_inv r -> parse_list value r bydate_cb = Ok r' -> rule_inv r'.
Proof.
  intros H. eapply (parse_list_inv rule_inv rule_inv); [|done|done].
  intros item x y [Wx Fx] Ec. apply bydate_cb_spec in Ec as (v & ? & ? & ->).
  split; [auto with calendar|exact Fx].
Qed.

#[export] Hint Resolve bymonth_clause byhour_clause byminute_clause bysecond_clause
  bymonthday_clause byday_clause bydate_clause : calendar.

Lemma see_rule i dup st st' : see i dup st = Ok st' -> ps_rule st' = ps_rule st.
Proof. unfold see. destruct (nth _ _ _); [done|]. by intros [= <-]. Qed.

Lemma parse_clause_inv name value st st' :
  rule_inv (ps_rule st) -> parse_clause name value st = Ok st' -> rule_inv (ps_rule st').
Proof.
  intros H E. unfold parse_clause in E.
  repeat (case_decide; [inv_bind; rewrite <- (see_rule _ _ _ _ Ha) in H|]); try discriminate;
    try (cbn [ps_rule with_rule]; eauto with calendar; fail).
  - inv_cb E. injection E as <-. destruct H as [W F]. split; [cbn; auto with calendar|exact F].
  - inv_cb E. injection E as <-. destruct H as [W F]. split; [|exact F].
    apply wf_set_interval; [done|lia].
Qed.

Lemma parse_clauses_inv fuel : forall s st st',
  rule_inv (ps_rule st) -> parse_clauses fuel s st = Ok st' -> rule_inv (ps_rule st').
Proof.
  induction fuel as [|fuel IH]; intros s st st' H E.
  - destruct s; [|discriminate]. by injection E as <-.
  - destruct s as [|c s]; [by injection E as <-|]. cbn [parse_clauses] in E.
    destruct (break_at ";" (c :: s)) as [clause rest].
    destruct (length clause =? 0)%nat; [by eapply IH|].
    destruct (break_at "=" clause) as [name [value|]]; [|discriminate].
    apply bind_Ok_inv in E as (st1 & E1 & E2). eapply IH; [|exact E2].
    by eapply parse_clause_inv.
Qed.

Lemma empty_rule_inv : rule_inv empty_rule.
Proof. repeat split; cbn; try lia; constructor. Qed.

(** ** Printing a rule, and reading it back *)

Definition digit (d : Z) : ascii := chr (48 + d).

(** Decimal numbers of up to two digits; zero-padded numbers of two and four. *)
Definition dec (n : Z) : bytes :=
  (if n <? 0 then ["-"%char] else []) ++
  (let m := Z.abs n in if m <? 10 then [digit m] else [digit (m / 10); digit (m mod 10)]).
Definition dec2 (n : Z) : bytes := [digit (n / 10); digit (n mod 10)].
Definition dec4 (n : Z) : bytes :=
  [digit (n / 1000); digit (n / 100 mod 10); digit (n / 10 mod 10); digit (n mod 10)].

(** Indices of the elements of a boolean set. *)
Fixpoint indices (set : list bool) (i : Z) : list Z :=
  match set with
  | [] => []
  | b :: set' => (if b then [i] else []) ++ indices set' (i + 1)
  end.

Definition day_name (dow : Z) : bytes := nth (Z.to_nat dow) (map fst day_names) [].
Definition freq_name (f : SchedFreq) : bytes :=
  match f with
  | FREQ_YEARLY => lit "YEARLY" | FREQ_MONTHLY => lit "MONTHLY" | FREQ_WEEKLY => lit "WEEKLY"
  | FREQ_DAILY => lit "DAILY" | FREQ_HOURLY => lit "HOURLY" | FREQ_MINUTELY => lit "MINUTELY"
  | FREQ_SECONDLY => lit "SECONDLY"
  end.

Definition print_byday (b : SchedByDay) : bytes :=
  (if bd_ord b =? 0 then [] else dec (bd_ord b)) ++ day_name (bd_dow b).
Definition print_bydate (b : SchedByDate) : bytes :=
  (if bt_year b =? 0 then [] else dec4 (bt_year b)) ++ dec2 (bt_mon b) ++ dec2 (bt_mday b).

Fixpoint join_items (l : list bytes) : bytes :=
  match l with
  | [] => []
  | [x] => x
  | x :: l' => x ++ ","%char :: join_items l'
  end.

(** A clause per non-empty list, none for an empty one. *)
Definition list_clause (name : bytes) (items : list bytes) : list (bytes * bytes) :=
  match items with [] => [] | _ => [(name, join_items items)] end.

Definition rule_clauses (r : CalendarRule) : list (bytes * bytes) :=
  [(lit "FREQ", freq_name (freq r)); (lit "INTERVAL", dec (interval r))] ++
  list_clause (lit "BYMONTH") (map dec (indices (bymonth r) 0)) ++
  list_clause (lit "BYMONTHDAY") (map dec (bymonthday r)) ++
  list_clause (lit "BYDAY") (map print_byday (byday r)) ++
  list_clause (lit "BYDATE") (map print_bydate (bydate r)) ++
  list_clause (lit "BYHOUR") (map dec (indices (byhour r) 0)) ++
  list_clause (lit "BYMINUTE") (map dec (indices (byminute r) 0)) ++
  list_clause (lit "BYSECOND") (map dec (indices (bysecond r) 0)).

Definition print_clause (c : bytes * bytes) : bytes := fst c ++ "="%char :: snd c ++ [";"%char].

Definition print_rule (r : CalendarRule) : bytes := concat (map print_clause (rule_clauses r)).

(** Bytes the printer emits inside names and values: none of them is white
    space, a separator, or changed by upper-casing. *)
Definition clean (c : ascii) : bool :=
  ((65 <=? ord c) && (ord c <=? 90)) || ((48 <=? ord c) && (ord c <=? 57)) || (ord c =? 45).
Definition clean_bytes (s : bytes) : Prop := forallb clean s = true.

Lemma break_at_none c s : forallb (fun x => negb (bool_decide (x = c))) s = true -> break_at c s = (s, None).
Proof.
  induction s as [|x s IH]; [done|]. cbn [forallb break_at]. intros H.
  apply andb_prop in H as [H1 H2]. apply negb_true_iff, bool_decide_eq_false in H1.
  rewrite decide_False by done. by rewrite IH.
Qed.

Lemma break_at_some c s t :
  forallb (fun x => negb (bool_decide (x = c))) s = true -> break_at c (s ++ c :: t) = (s, Some t).
Proof.
  induction s as [|x s IH]; cbn [app forallb break_at]; intros H.
  - by rewrite decide_True.
  - apply andb_prop in H as [H1 H2]. apply negb_true_iff, bool_decide_eq_false in H1.
    rewrite decide_False by done. by rewrite IH.
Qed.

(** A byte that is not clean does not occur in clean bytes. *)
Lemma clean_free c s :
  clean c = false -> clean_bytes s -> forallb (fun x => negb (bool_decide (x = c))) s = true.
Proof.
  unfold clean_bytes. intros Hc. induction s as [|x s IH]; [done|]. cbn [forallb]. intros H.
  apply andb_prop in H as [H1 H2]. rewrite IH by done. rewrite andb_true_r.
  apply negb_true_iff, bool_decide_eq_false. intros ->. congruence.
Qed.

Fixpoint mfold (cb : item_cb) (items : list bytes) (r : CalendarRule) : result CalendarRule :=
  match items with
  | [] => Ok r
  | i :: items' => r ← cb i r; mfold cb items' r
  end.

Definition item_ok (i : bytes) : Prop := i <> [] /\ clean_bytes i.

(** [parse_list] on a comma-separated list runs the callback on each item. *)
Lemma parse_list_loop_join cb items : forall fuel r,
  Forall item_ok items -> items <> [] -> (length items <= fuel)%nat ->
  parse_list_loop fuel cb (join_items items) r = mfold cb items r.
Proof.
  induction items as [|x items IH]; intros fuel r Hok Hne Hf; [done|].
  inversion Hok as [|? ? [Hx Hc] Hok']; subst. destruct fuel as [|fuel]; [cbn in Hf; lia|].
  pose proof (clean_free ","%char x eq_refl Hc) as Hfree.
  assert (Hlen : (length x =? 0)%nat = false) by (destruct x; done).
  destruct items as [|y items].
  - cbn [join_items mfold]. destruct x as [|c x]; [done|]. cbn [parse_list_loop].
    rewrite break_at_none, Hlen by done. destruct (cb (c :: x) r) as [r1|]; [|done]. cbn.
    by destruct fuel.
  - change (join_items (x :: y :: items)) with (x ++ ","%char :: join_items (y :: items)).
    destruct x as [|c x]; [done|]. cbn [app parse_list_loop].
    rewrite app_comm_cons, break_at_some, Hlen by done. cbn [mfold].
    destruct (cb (c :: x) r) as [r1|]; [|done]. cbn [mbind result_bind from_option default id].
    apply IH; [done|done|]. cbn in *. lia.
Qed.

Lemma join_items_length items : Forall item_ok items -> (length items <= S (length (join_items items)))%nat.
Proof.
  induction items as [|x items IH]; [cbn; lia|]. intros Hok.
  inversion Hok as [|? ? [Hx Hc] Hok']; subst. specialize (IH Hok').
  destruct items as [|y items]; [destruct x; cbn in *; [done|lia]|].
  change (join_items (x :: y :: items)) with (x ++ ","%char :: join_items (y :: items)).
  rewrite length_app. cbn [length] in *. destruct x; [done|]. cbn [length]. lia.
Qed.

Lemma parse_list_join cb items r :
  Forall item_ok items -> items <> [] -> parse_list (join_items items) r cb = mfold cb items r.
Proof.
  intros Hok Hne. pose proof (join_items_length items Hok).
  unfold parse_list. destruct (join_items items) as [|c s] eqn:E.
  - destruct items as [|x items]; [done|]. inversion Hok as [|? ? [Hx ?] ?]; subst.
    destruct x as [|c x]; [done|]. destruct items; done.
  - rewrite <- E. apply parse_list_loop_join; [done|done|]. rewrite E in *. cbn in *. lia.
Qed.

(** *** Numbers *)

Lemma ord_digit d : 0 <= d <= 9 -> ord (digit d) = 48 + d.
Proof. intros. unfold digit. rewrite ord_chr. lia. Qed.

Lemma clean_digit d : 0 <= d <= 9 -> clean (digit d) = true.
Proof. intros. unfold clean. rewrite ord_digit by done. lia. Qed.

(** Checked number by number. *)
Lemma dec_roundtrip n : -99 <= n <= 99 -> parse_int (dec n) = Some n /\ item_ok (dec n).
Proof.
  assert (H : forallb (fun n => bool_decide (parse_int (dec n) = Some n) &&
                         negb (length (dec n) =? 0)%nat && forallb clean (dec n)) (seqZ (-99) 199) = true)
    by (vm_compute; reflexivity).
  rewrite forallb_forall in H. intros Hn. specialize (H n). rewrite <- list_elem_of_In, elem_of_seqZ in H.
  destruct (andb_prop _ _ (H ltac:(lia))) as [H1 H2]. apply andb_prop in H1 as [H0 H1].
  apply bool_decide_eq_true in H0. split; [done|]. split; [|done]. by destruct (dec n).
Qed.

Lemma parse_int_digit c s : 48 <= ord c <= 57 -> parse_int (c :: s) = parse_digits (c :: s) 0.
Proof.
  intros Hc. unfold parse_int.
  rewrite bool_decide_eq_false_2 by (intros ->; change (ord "-"%char) with 45 in Hc; lia).
  rewrite bool_decide_eq_false_2 by (intros ->; change (ord "+"%char) with 43 in Hc; lia).
  destruct (parse_digits (c :: s) 0) as [v|]; [|done]. cbn [mbind option_bind]. f_equal. lia.
Qed.

Lemma parse_digits_step d s v :
  0 <= d <= 9 -> 0 <= v <= 100000 -> parse_digits (digit d :: s) v = parse_digits s (v * 10 + d).
Proof.
  intros Hd Hv. cbn [parse_digits]. rewrite ord_digit by done.
  replace (_ || _) with false by lia.
  replace (Z.quot (INT_MAX - 9) 10 <? v) with false by (change (Z.quot (INT_MAX - 9) 10) with 214748363; lia).
  by replace (48 + d - 48) with d by lia.
Qed.

Lemma dec2_roundtrip n : 0 <= n <= 99 -> parse_int (dec2 n) = Some n.
Proof.
  intros. unfold dec2. rewrite parse_int_digit by (rewrite ord_digit; lia).
  rewrite !parse_digits_step by lia. cbn [parse_digits]. f_equal. lia.
Qed.

Lemma dec4_roundtrip n : 0 <= n <= 9999 -> parse_int (dec4 n) = Some n.
Proof.
  intros. unfold dec4. rewrite parse_int_digit by (rewrite ord_digit; lia).
  rewrite !parse_digits_step by lia. cbn [parse_digits]. f_equal. lia.
Qed.

(** *** Sets *)

Lemma indices_spec set : forall i x, In x (indices set i) <-> 0 <= x - i /\ set !! Z.to_nat (x - i) = Some true.
Proof.
  induction set as [|b set IH]; intros i x; cbn [indices].
  - rewrite lookup_nil. split; [done|]. by intros [? ?].
  - rewrite in_app_iff, IH. split.
    + intros [Hx|[Hle Hx]].
      * destruct b; [|done]. destruct Hx as [<-|[]]. rewrite Z.sub_diag. done.
      * split; [lia|]. replace (Z.to_nat (x - i)) with (S (Z.to_nat (x - (i + 1)))) by lia. done.
    + intros [Hle Hx]. destruct (decide (x = i)) as [->|].
      * rewrite Z.sub_diag in Hx. cbn in Hx. injection Hx as ->. by left; left.
      * right. split; [lia|]. by replace (Z.to_nat (x - i)) with (S (Z.to_nat (x - (i + 1)))) in Hx by lia.
Qed.

Lemma indices_range set i x :
  In x (indices set i) -> i <= x < i + Z.of_nat (length set).
Proof.
  rewrite indices_spec. intros [Hle Hx]. apply lookup_lt_Some in Hx. lia.
Qed.

(** Marking the elements of a set in an empty set builds the set. *)
Lemma foldl_mark_lookup l : forall base j,
  Forall (fun x => 0 <= x < Z.of_nat (length base)) l ->
  foldl mark base l !! j = if bool_decide (Z.of_nat j ∈ l) then Some true else base !! j.
Proof.
  induction l as [|x l IH]; intros base j Hl; [done|]. inversion Hl as [|? ? Hx Hl']; subst.
  cbn [foldl]. rewrite IH by (by rewrite length_mark).
  destruct (decide (Z.of_nat j ∈ l)) as [Hin|Hin].
  - rewrite !bool_decide_eq_true_2; [done|by apply elem_of_cons; right|done].
  - rewrite (bool_decide_eq_false_2 (_ ∈ l)) by done. unfold mark.
    destruct (decide (x = Z.of_nat j)) as [->|Hne].
    + rewrite bool_decide_eq_true_2 by (apply elem_of_cons; by left). rewrite Nat2Z.id. apply list_lookup_insert_eq. lia.
    + rewrite bool_decide_eq_false_2 by (rewrite elem_of_cons; intros [?|?]; congruence).
      apply list_lookup_insert_ne. lia.
Qed.

Lemma foldl_mark_indices set n :
  length set = n -> foldl mark (replicate n false) (indices set 0) = set.
Proof.
  intros <-. apply list_eq. intros j. rewrite foldl_mark_lookup.
  - destruct (decide (Z.of_nat j ∈ indices set 0)) as [Hin|Hin].
    + rewrite bool_decide_eq_true_2 by done. apply list_elem_of_In, indices_spec in Hin as [_ Hin].
      by rewrite Z.sub_0_r, Nat2Z.id in Hin.
    + rewrite bool_decide_eq_false_2 by done. rewrite list_elem_of_In, indices_spec, Z.sub_0_r, Nat2Z.id in Hin.
      destruct (set !! j) as [[]|] eqn:E.
      * exfalso. apply Hin. split; [lia|done].
      * apply lookup_replicate_2. by eapply lookup_lt_Some.
      * apply lookup_ge_None in E. apply lookup_ge_None. by rewrite length_replicate.
  - apply Forall_forall. intros x Hx. apply indices_range in Hx. rewrite length_replicate. lia.
Qed.

Lemma indices_nil set i : indices set i = [] <-> existsb id set = false.
Proof.
  revert i. induction set as [|[] set IH]; intros i; cbn; [done|done|apply IH].
Qed.

(** *** Callbacks on printed items *)

Lemma length_dec n : -99 <= n <= 99 -> 0 <= n -> (length (dec n) <= 2)%nat.
Proof.
  intros. unfold dec. replace (n <? 0) with false by lia. cbn [app].
  destruct (Z.abs n <? 10); cbn; lia.
Qed.

Lemma bymonth_cb_dec v r :
  1 <= v <= 12 -> length (bymonth r) = 13%nat ->
  bymonth_cb (dec v) r = Ok (set_bymonth (mark (bymonth r) v) (has_bymonth r) r).
Proof.
  intros Hv Hl. unfold bymonth_cb. pose proof (length_dec v).
  replace (length (dec v) =? 3)%nat with false by (symmetry; apply Nat.eqb_neq; lia).
  destruct (dec_roundtrip v) as [-> _]; [lia|]. cbn [from_option default id].
  change (-1 <? 0) with true. cbn match. replace (_ || _) with false by lia.
  by rewrite store_ok by lia.
Qed.

Lemma bymonthday_cb_dec v r :
  v <> 0 -> -31 <= v <= 31 -> (length (bymonthday r) < 62)%nat ->
  bymonthday_cb (dec v) r = Ok (set_bymonthday (bymonthday r ++ [v]) r).
Proof.
  intros Hv Hr Hl. unfold bymonthday_cb. destruct (dec_roundtrip v) as [-> _]; [lia|].
  replace (_ || _) with false by lia.
  by replace (62 <=? length (bymonthday r))%nat with false by (symmetry; apply Nat.leb_gt; lia).
Qed.

Lemma byhour_cb_dec v r :
  0 <= v <= 23 -> length (byhour r) = 24%nat ->
  byhour_cb (dec v) r = Ok (set_byhour (mark (byhour r) v) (has_byhour r) r).
Proof.
  intros Hv Hl. unfold byhour_cb. destruct (dec_roundtrip v) as [-> _]; [lia|].
  replace (_ || _) with false by lia. by rewrite store_ok by lia.
Qed.

Lemma byminute_cb_dec v r :
  0 <= v <= 59 -> length (byminute r) = 60%nat ->
  byminute_cb (dec v) r = Ok (set_byminute (mark (byminute r) v) (has_byminute r) r).
Proof.
  intros Hv Hl. unfold byminute_cb. destruct (dec_roundtrip v) as [-> _]; [lia|].
  replace (_ || _) with false by lia. by rewrite store_ok by lia.
Qed.

Lemma bysecond_cb_dec v r :
  0 <= v <= 59 -> length (bysecond r) = 60%nat ->
  bysecond_cb (dec v) r = Ok (set_bysecond (mark (bysecond r) v) (has_bysecond r) r).
Proof.
  intros Hv Hl. unfold bysecond_cb. destruct (dec_roundtrip v) as [-> _]; [lia|].
  replace (_ || _) with false by lia. by rewrite store_ok by lia.
Qed.

Definition byday_print_check (b : SchedByDay) : bool :=
  match byday_ordinal (print_byday b) with
  | Ok (o, it) => (o =? bd_ord b) && (byday_dow it =? bd_dow b)
  | Err _ => false
  end && negb (length (print_byday b) =? 0)%nat && forallb clean (print_byday b).

(** Checked for every weekday and ordinal. *)
Lemma byday_print b : byday_ok b -> byday_print_check b = true.
Proof.
  assert (H : forallb (fun d => forallb (fun o => byday_print_check (mk_byday d o)) (seqZ (-5) 11)) (seqZ 0 7) = true)
    by (vm_compute; reflexivity).
  destruct b as [d o]. intros [Hd Ho]. cbn [bd_dow bd_ord] in *.
  rewrite forallb_forall in H. specialize (H d). rewrite <- list_elem_of_In, elem_of_seqZ in H.
  specialize (H ltac:(lia)). rewrite forallb_forall in H. apply H.
  rewrite <- list_elem_of_In, elem_of_seqZ. lia.
Qed.

Lemma byday_item_ok b : byday_ok b -> item_ok (print_byday b).
Proof.
  intros Hb. apply byday_print in Hb. unfold byday_print_check in Hb. split_bool.
  split; [|done]. by destruct (print_byday b).
Qed.

Lemma byday_cb_print b r :
  byday_ok b -> (length (byday r) < 64)%nat ->
  byday_cb (print_byday b) r = Ok (set_byday (byday r ++ [b]) (byday_has_ord r || has_ordinal b) r).
Proof.
  intros Hb Hl. pose proof (byday_print b Hb) as Hp. unfold byday_print_check in Hp. split_bool.
  unfold byday_cb. destruct (byday_ordinal (print_byday b)) as [[o it]|]; [|done].
  cbn [mbind result_bind]. destruct b as [d o']. cbn [bd_dow bd_ord] in *.
  destruct Hb as [Hd Ho]. cbn in Hd. assert (o = o' /\ byday_dow it = d) as [-> ->] by lia.
  replace (d <? 0) with false by lia.
  replace (64 <=? length (byday r))%nat with false by (symmetry; apply Nat.leb_gt; lia).
  unfold has_ordinal. cbn [bd_ord]. f_equal. f_equal. by destruct (negb _), (byday_has_ord r).
Qed.

Lemma clean_dec2 n : 0 <= n <= 99 -> clean_bytes (dec2 n).
Proof. intros. unfold clean_bytes, dec2. cbn [forallb]. by rewrite !clean_digit by lia. Qed.

Lemma clean_dec4 n : 0 <= n <= 9999 -> clean_bytes (dec4 n).
Proof. intros. unfold clean_bytes, dec4. cbn [forallb]. by rewrite !clean_digit by lia. Qed.

Lemma bydate_item_ok b : bydate_ok b -> item_ok (print_bydate b).
Proof.
  intros (Hy & Hm & Hd). pose proof (month_days_range (if 0 <? bt_year b then bt_year b else 2000) (bt_mon b) Hm).
  unfold print_bydate. split; [by destruct (bt_year b =? 0)|].
  unfold clean_bytes. rewrite !forallb_app, !clean_dec2 by lia. rewrite andb_true_r.
  destruct (bt_year b =? 0); [done|]. by apply clean_dec4.
Qed.

Lemma bydate_cb_print b r :
  bydate_ok b -> (length (bydate r) < 64)%nat ->
  bydate_cb (print_bydate b) r = Ok (set_bydate (bydate r ++ [b]) r).
Proof.
  intros (Hy & Hm & Hd) Hl.
  pose proof (month_days_range (if 0 <? bt_year b then bt_year b else 2000) (bt_mon b) Hm).
  unfold bydate_cb.
  assert (bydate_year (print_bydate b) = Ok (bt_year b, dec2 (bt_mon b) ++ dec2 (bt_mday b))) as ->.
  { unfold bydate_year, print_bydate. destruct (Z.eqb_spec (bt_year b) 0) as [->|]; [done|].
    cbn [length app Nat.eqb]. change (take 4 (dec4 (bt_year b) ++ ?l)) with (dec4 (bt_year b)).
    rewrite dec4_roundtrip by done. by replace (bt_year b <? 1) with false by lia. }
  replace (negb _ && negb _) with false
    by (unfold print_bydate; by destruct (bt_year b =? 0)).
  cbn [mbind result_bind]. change (take 2 (dec2 (bt_mon b) ++ ?l)) with (dec2 (bt_mon b)).
  change (take 2 (drop 2 (dec2 (bt_mon b) ++ dec2 (bt_mday b)))) with (dec2 (bt_mday b)).
  rewrite !dec2_roundtrip by lia.
  replace (_ || _) with false by lia. replace (_ || _) with false by lia.
  rewrite days_in_month_eq by done. cbn [mbind result_bind].
  replace (month_days _ _ <? bt_mday b) with false by lia.
  replace (64 <=? length (bydate r))%nat with false by (symmetry; apply Nat.leb_gt; lia).
  by destruct b.
Qed.

(** *** Callbacks on printed lists *)

Lemma mfold_bymonth vs : forall r, Forall (fun v => 1 <= v <= 12) vs -> length (bymonth r) = 13%nat ->
  mfold bymonth_cb (map dec vs) r = Ok (set_bymonth (foldl mark (bymonth r) vs) (has_bymonth r) r).
Proof.
  induction vs as [|v vs IH]; intros r Hv Hl; [by destruct r|]. inversion Hv; subst.
  cbn [map mfold]. rewrite bymonth_cb_dec by done. cbn [mbind result_bind].
  by rewrite IH by (done || by rewrite <- Hl; apply length_mark).
Qed.

Lemma mfold_byhour vs : forall r, Forall (fun v => 0 <= v <= 23) vs -> length (byhour r) = 24%nat ->
  mfold byhour_cb (map dec vs) r = Ok (set_byhour (foldl mark (byhour r) vs) (has_byhour r) r).
Proof.
  induction vs as [|v vs IH]; intros r Hv Hl; [by destruct r|]. inversion Hv; subst.
  cbn [map mfold]. rewrite byhour_cb_dec by done. cbn [mbind result_bind].
  by rewrite IH by (done || by rewrite <- Hl; apply length_mark).
Qed.

Lemma mfold_byminute vs : forall r, Forall (fun v => 0 <= v <= 59) vs -> length (byminute r) = 60%nat ->
  mfold byminute_cb (map dec vs) r = Ok (set_byminute (foldl mark (byminute r) vs) (has_byminute r) r).
Proof.
  induction vs as [|v vs IH]; intros r Hv Hl; [by destruct r|]. inversion Hv; subst.
  cbn [map mfold]. rewrite byminute_cb_dec by done. cbn [mbind result_bind].
  by rewrite IH by (done || by rewrite <- Hl; apply length_mark).
Qed.

Lemma mfold_bysecond vs : forall r, Forall (fun v => 0 <= v <= 59) vs -> length (bysecond r) = 60%nat ->
  mfold bysecond_cb (map dec vs) r = Ok (set_bysecond (foldl mark (bysecond r) vs) (has_bysecond r) r).
Proof.
  induction vs as [|v vs IH]; intros r Hv Hl; [by destruct r|]. inversion Hv; subst.
  cbn [map mfold]. rewrite bysecond_cb_dec by done. cbn [mbind result_bind].
  by rewrite IH by (done || by rewrite <- Hl; apply length_mark).
Qed.

Lemma mfold_bymonthday vs : forall r, Forall (fun d => d <> 0 /\ -31 <= d <= 31) vs ->
  (length (bymonthday r) + length vs <= 62)%nat ->
  mfold bymonthday_cb (map dec vs) r = Ok (set_bymonthday (bymonthday r ++ vs) r).
Proof.
  induction vs as [|v vs IH]; intros r Hv Hl.
  - rewrite app_nil_r. by destruct r.
  - inversion Hv as [|? ? [Hv1 Hv2] ?]; subst. cbn [map mfold length] in *.
    rewrite bymonthday_cb_dec by (done || lia). cbn [mbind result_bind].
    rewrite IH; [|done|cbn; rewrite length_app; cbn; lia]. cbn. by rewrite <- app_assoc.
Qed.

Lemma mfold_byday bs : forall r, Forall byday_ok bs -> (length (byday r) + length bs <= 64)%nat ->
  mfold byday_cb (map print_byday bs) r =
    Ok (set_byday (byday r ++ bs) (byday_has_ord r || existsb has_ordinal bs) r).
Proof.
  induction bs as [|b bs IH]; intros r Hv Hl.
  - rewrite app_nil_r. cbn. rewrite orb_false_r. by destruct r.
  - inversion Hv; subst. cbn [map mfold length existsb] in *.
    rewrite byday_cb_print by (done || lia). cbn [mbind result_bind].
    rewrite IH; [|done|cbn; rewrite length_app; cbn; lia]. cbn. by rewrite <- app_assoc, orb_assoc.
Qed.

Lemma mfold_bydate bs : forall r, Forall bydate_ok bs -> (length (bydate r) + length bs <= 64)%nat ->
  mfold bydate_cb (map print_bydate bs) r = Ok (set_bydate (bydate r ++ bs) r).
Proof.
  induction bs as [|b bs IH]; intros r Hv Hl.
  - rewrite app_nil_r. by destruct r.
  - inversion Hv; subst. cbn [map mfold length] in *.
    rewrite bydate_cb_print by (done || lia). cbn [mbind result_bind].
    rewrite IH; [|done|cbn; rewrite length_app; cbn; lia]. cbn. by rewrite <- app_assoc.
Qed.

(** *** Clauses *)

Fixpoint cfold (cs : list (bytes * bytes)) (st : pstate) : result pstate :=
  match cs with
  | [] => Ok st
  | (n, v) :: cs' => st ← parse_clause n v st; cfold cs' st
  end.

Lemma cfold_app cs1 cs2 st : cfold (cs1 ++ cs2) st = st ← cfold cs1 st; cfold cs2 st.
Proof.
  revert st. induction cs1 as [|[n v] cs1 IH]; intros st; [done|]. cbn [app cfold].
  destruct (parse_clause n v st); [apply IH|done].
Qed.

(** Values hold clean bytes and commas. *)
Definition clean_value (s : bytes) : Prop := forallb (fun c => clean c || bool_decide (c = ","%char)) s = true.
Definition clause_ok (c : bytes * bytes) : Prop := fst c <> [] /\ clean_bytes (fst c) /\ clean_value (snd c).

Lemma clean_to_value s : clean_bytes s -> clean_value s.
Proof.
  unfold clean_bytes, clean_value. induction s as [|c s IH]; [done|]. cbn [forallb]. intros H.
  apply andb_prop in H as [-> H2]. by rewrite IH.
Qed.

Lemma clean_value_app s t : clean_value s -> clean_value t -> clean_value (s ++ t).
Proof. unfold clean_value. intros H1 H2. by rewrite forallb_app, H1, H2. Qed.

Lemma clean_join items : Forall item_ok items -> clean_value (join_items items).
Proof.
  induction items as [|x items IH]; [done|]. intros Hok. inversion Hok as [|? ? [? ?] ?]; subst.
  destruct items as [|y items]; [by apply clean_to_value|].
  change (join_items (x :: y :: items)) with (x ++ [","%char] ++ join_items (y :: items)).
  apply clean_value_app; [by apply clean_to_value|]. apply clean_value_app; [done|by apply IH].
Qed.

Lemma value_free c s :
  clean c = false -> c <> ","%char -> clean_value s ->
  forallb (fun x => negb (bool_decide (x = c))) s = true.
Proof.
  unfold clean_value. intros Hc Hne. induction s as [|x s IH]; [done|]. cbn [forallb]. intros H.
  apply andb_prop in H as [H1 H2]. rewrite IH, andb_true_r by done.
  apply negb_true_iff, bool_decide_eq_false. intros ->. rewrite Hc in H1. cbn in H1.
  by apply bool_decide_eq_true in H1.
Qed.

Lemma parse_clauses_print cs : forall fuel st,
  Forall clause_ok cs -> (length cs <= fuel)%nat ->
  parse_clauses fuel (concat (map print_clause cs)) st = cfold cs st.
Proof.
  induction cs as [|[n v] cs IH]; intros fuel st Hok Hf; [by destruct fuel|].
  inversion Hok as [|? ? (Hn & Hcn & Hcv) Hok']; subst. cbn [fst snd] in *.
  destruct fuel as [|fuel]; [cbn in Hf; lia|]. cbn [map concat cfold].
  assert (print_clause (n, v) ++ concat (map print_clause cs) =
          (n ++ "="%char :: v) ++ ";"%char :: concat (map print_clause cs)) as ->.
  { unfold print_clause. cbn [fst snd]. by rewrite <- !app_assoc, <- !app_comm_cons, <- app_assoc. }
  set (rest := concat (map print_clause cs)) in *.
  assert (Hfree : forallb (fun x => negb (bool_decide (x = ";"%char))) (n ++ "="%char :: v) = true).
  { rewrite forallb_app. cbn [forallb]. rewrite (clean_free ";"%char n eq_refl Hcn).
    by rewrite (value_free ";"%char v eq_refl). }
  destruct n as [|c n]; [done|].
  change (((c :: n) ++ "="%char :: v) ++ ";"%char :: rest) with (c :: (n ++ "="%char :: v) ++ ";"%char :: rest).
  cbn [parse_clauses].
  change (c :: (n ++ "="%char :: v) ++ ";"%char :: rest) with (((c :: n) ++ "="%char :: v) ++ ";"%char :: rest).
  rewrite break_at_some by done. cbn [app length Nat.eqb].
  change (c :: n ++ "="%char :: v) with ((c :: n) ++ "="%char :: v).
  rewrite break_at_some by (by apply clean_free).
  destruct (parse_clause (c :: n) v st) as [st'|]; [|done]. cbn [mbind result_bind from_option default id].
  apply IH; [done|]. cbn in Hf. lia.
Qed.

(** Running one optional list clause. *)
Lemma list_clause_run name idx dup cb pre items st r1 :
  (forall v st, parse_clause name v st =
     (st ← see idx dup st; r ← parse_list v (pre (ps_rule st)) cb; Ok (with_rule st r))) ->
  Forall item_ok items -> nth idx (ps_seen st) false = false ->
  (items = [] -> r1 = ps_rule st) ->
  (items <> [] -> mfold cb items (pre (ps_rule st)) = Ok r1) ->
  exists seen', cfold (list_clause name items) st = Ok (mk_pstate r1 (ps_has_freq st) seen') /\
    forall j, j <> idx -> nth j seen' false = nth j (ps_seen st) false.
Proof.
  intros Hname Hok Hseen Hnil Hcons. destruct items as [|x items].
  - exists (ps_seen st). rewrite Hnil by done. by destruct st.
  - exists (<[idx := true]> (ps_seen st)). split.
    + cbn [list_clause cfold]. rewrite Hname. unfold see. rewrite Hseen. cbn [mbind result_bind ps_rule].
      by rewrite parse_list_join, Hcons by done.
    + intros j Hj. rewrite !nth_lookup. by rewrite list_lookup_insert_ne.
Qed.

Lemma dec_items_ok vs : Forall (fun v => -99 <= v <= 99) vs -> Forall item_ok (map dec vs).
Proof. induction 1; cbn; constructor; [by apply dec_roundtrip|done]. Qed.

Lemma indices_within set i lo hi :
  lo <= i -> i + Z.of_nat (length set) <= hi + 1 -> Forall (fun v => lo <= v <= hi) (indices set i).
Proof. intros. apply Forall_forall. intros x Hx. apply indices_range in Hx. lia. Qed.

Lemma indices_month r : rule_wf r -> Forall (fun v => 1 <= v <= 12) (indices (bymonth r) 0).
Proof.
  intros H. destruct (wf_bymonth r H) as [Hl H0]. apply Forall_forall. intros x Hx.
  pose proof Hx as Hx2. apply indices_range in Hx. apply indices_spec in Hx2 as [_ Hx2].
  rewrite nth_lookup in H0. enough (x <> 0) by lia. intros ->.
  change (Z.to_nat (0 - 0)) with 0%nat in Hx2. by rewrite Hx2 in H0.
Qed.

Lemma empty_set set n i : length set = n -> indices set i = [] -> set = replicate n false /\ existsb id set = false.
Proof.
  intros Hl Hi. apply indices_nil in Hi as He. split; [|done].
  rewrite <- (foldl_mark_indices set n Hl). apply (indices_nil set 0) in He. by rewrite He.
Qed.

Lemma map_nil_inv {A B} (f : A -> B) l : map f l = [] -> l = [].
Proof. by destruct l. Qed.

Lemma Forall_weaken {A} (P Q : A -> Prop) l : Forall P l -> (forall x, P x -> Q x) -> Forall Q l.
Proof. intros H HPQ. by apply (Forall_impl _ HPQ). Qed.

(** Running the clause of a boolean set on a rule in which the set is empty. *)
Section RunSet.
Context (name : bytes) (idx : nat) (dup : string) (cb : item_cb).
Context (set : CalendarRule -> list bool) (flag : CalendarRule -> bool).
Context (upd : list bool -> bool -> CalendarRule -> CalendarRule) (n : nat) (in_range : Z -> Prop).
Hypothesis clause_eq : forall v st, parse_clause name v st =
  (st ← see idx dup st; r ← parse_list v (upd (set (ps_rule st)) true (ps_rule st)) cb; Ok (with_rule st r)).
Hypothesis cb_eq : forall vs r, Forall in_range vs -> length (set r) = n ->
  mfold cb (map dec vs) r = Ok (upd (foldl mark (set r) vs) (flag r) r).
Hypothesis set_upd : forall s f r, set (upd s f r) = s.
Hypothesis flag_upd : forall s f r, flag (upd s f r) = f.
Hypothesis upd_upd : forall s f s' f' r, upd s f (upd s' f' r) = upd s f r.
Hypothesis upd_id : forall r, upd (set r) (flag r) r = r.

Lemma run_set target st :
  length target = n -> Forall in_range (indices target 0) -> (n <= 60)%nat ->
  nth idx (ps_seen st) false = false ->
  set (ps_rule st) = replicate n false -> flag (ps_rule st) = false ->
  exists seen',
    cfold (list_clause name (map dec (indices target 0))) st =
      Ok (mk_pstate (upd target (existsb id target) (ps_rule st)) (ps_has_freq st) seen') /\
    forall j, j <> idx -> nth j seen' false = nth j (ps_seen st) false.
Proof using clause_eq cb_eq set_upd flag_upd upd_upd upd_id.
  intros Hl Hr Hn Hs Hset Hflag.
  eapply (list_clause_run name idx dup cb (fun r => upd (set r) true r)); [done| |done| |].
  - apply dec_items_ok. apply indices_within; lia.
  - intros Hnil. apply map_nil_inv in Hnil. destruct (empty_set target n 0 Hl Hnil) as [-> ->].
    by rewrite <- Hset, <- Hflag, upd_id.
  - intros Hne. rewrite cb_eq by (done || by rewrite set_upd, Hset, length_replicate).
    rewrite upd_upd, set_upd, flag_upd, Hset, foldl_mark_indices by done.
    destruct (existsb id target) eqn:E; [done|]. exfalso. apply Hne.
    apply (indices_nil target 0) in E. by rewrite E.
Qed.
End RunSet.

Lemma parse_clause_freq f st :
  nth 0 (ps_seen st) false = false ->
  parse_clause (lit "FREQ") (freq_name f) st =
    Ok (mk_pstate (set_freq f (ps_rule st)) true (<[0%nat := true]> (ps_seen st))).
Proof. intros H. unfold parse_clause, see. rewrite decide_True, H by done. by destruct f. Qed.

Lemma parse_clause_interval v st :
  1 <= v <= 99 -> nth 1 (ps_seen st) false = false ->
  parse_clause (lit "INTERVAL") (dec v) st =
    Ok (mk_pstate (set_interval v (ps_rule st)) (ps_has_freq st) (<[1%nat := true]> (ps_seen st))).
Proof.
  intros Hv H. unfold parse_clause, see. rewrite decide_False by done. rewrite decide_True, H by done.
  cbn [mbind result_bind]. destruct (dec_roundtrip v) as [-> _]; [lia|].
  by replace (_ || _) with false by lia.
Qed.

Lemma run_bymonth r st :
  rule_wf r -> nth 2 (ps_seen st) false = false ->
  bymonth (ps_rule st) = replicate 13 false -> has_bymonth (ps_rule st) = false ->
  exists seen',
    cfold (list_clause (lit "BYMONTH") (map dec (indices (bymonth r) 0))) st =
      Ok (mk_pstate (set_bymonth (bymonth r) (existsb id (bymonth r)) (ps_rule st)) (ps_has_freq st) seen') /\
    forall j, j <> 2%nat -> nth j seen' false = nth j (ps_seen st) false.
Proof.
  intros H Hs He Hf. apply (run_set (lit "BYMONTH") 2 "duplicate BYMONTH clause." bymonth_cb bymonth has_bymonth set_bymonth
    13 (fun v => 1 <= v <= 12));
    try reflexivity; try done.
  - apply mfold_bymonth.
  - by intros [].
  - by destruct (wf_bymonth r H).
  - by apply indices_month.
  - lia.
Qed.

Lemma run_byhour r st :
  rule_wf r -> nth 5 (ps_seen st) false = false ->
  byhour (ps_rule st) = replicate 24 false -> has_byhour (ps_rule st) = false ->
  exists seen',
    cfold (list_clause (lit "BYHOUR") (map dec (indices (byhour r) 0))) st =
      Ok (mk_pstate (set_byhour (byhour r) (existsb id (byhour r)) (ps_rule st)) (ps_has_freq st) seen') /\
    forall j, j <> 5%nat -> nth j seen' false = nth j (ps_seen st) false.
Proof.
  intros H Hs He Hf. apply (run_set (lit "BYHOUR") 5 "duplicate BYHOUR clause." byhour_cb byhour has_byhour set_byhour
    24 (fun v => 0 <= v <= 23));
    try reflexivity; try done.
  - apply mfold_byhour.
  - by intros [].
  - by destruct (wf_times r H) as (? & ? & ?).
  - apply indices_within; [lia|destruct (wf_times r H); lia].
  - lia.
Qed.

Lemma run_byminute r st :
  rule_wf r -> nth 6 (ps_seen st) false = false ->
  byminute (ps_rule st) = replicate 60 false -> has_byminute (ps_rule st) = false ->
  exists seen',
    cfold (list_clause (lit "BYMINUTE") (map dec (indices (byminute r) 0))) st =
      Ok (mk_pstate (set_byminute (byminute r) (existsb id (byminute r)) (ps_rule st)) (ps_has_freq st) seen') /\
    forall j, j <> 6%nat -> nth j seen' false = nth j (ps_seen st) false.
Proof.
  intros H Hs He Hf. apply (run_set (lit "BYMINUTE") 6 "duplicate BYMINUTE clause." byminute_cb byminute has_byminute set_byminute
    60 (fun v => 0 <= v <= 59));
    try reflexivity; try done.
  - apply mfold_byminute.
  - by intros [].
  - by destruct (wf_times r H) as (? & ? & ?).
  - apply indices_within; [lia|destruct (wf_times r H); lia].
Qed.

Lemma run_bysecond r st :
  rule_wf r -> nth 7 (ps_seen st) false = false ->
  bysecond (ps_rule st) = replicate 60 false -> has_bysecond (ps_rule st) = false ->
  exists seen',
    cfold (list_clause (lit "BYSECOND") (map dec (indices (bysecond r) 0))) st =
      Ok (mk_pstate (set_bysecond (bysecond r) (existsb id (bysecond r)) (ps_rule st)) (ps_has_freq st) seen') /\
    forall j, j <> 7%nat -> nth j seen' false = nth j (ps_seen st) false.
Proof.
  intros H Hs He Hf. apply (run_set (lit "BYSECOND") 7 "duplicate BYSECOND clause." bysecond_cb bysecond has_bysecond set_bysecond
    60 (fun v => 0 <= v <= 59));
    try reflexivity; try done.
  - apply mfold_bysecond.
  - by intros [].
  - by destruct (wf_times r H) as (? & ? & ?).
  - apply indices_within; [lia|destruct (wf_times r H); lia].
Qed.

Lemma run_bymonthday r st :
  rule_wf r -> nth 3 (ps_seen st) false = false -> bymonthday (ps_rule st) = [] ->
  exists seen',
    cfold (list_clause (lit "BYMONTHDAY") (map dec (bymonthday r))) st =
      Ok (mk_pstate (set_bymonthday (bymonthday r) (ps_rule st)) (ps_has_freq st) seen') /\
    forall j, j <> 3%nat -> nth j seen' false = nth j (ps_seen st) false.
Proof.
  intros H Hs He. destruct (wf_bymonthday r H) as [Hl Hf].
  apply (list_clause_run (lit "BYMONTHDAY") 3 "duplicate BYMONTHDAY clause." bymonthday_cb (fun r => r)); [done| |done| |].
  - apply dec_items_ok. eapply Forall_weaken; [exact Hf|]. cbn. lia.
  - intros Hn. apply map_nil_inv in Hn. rewrite Hn. destruct (ps_rule st). cbn in *. by rewrite He.
  - intros _. rewrite mfold_bymonthday by (rewrite ?He; done). by rewrite He.
Qed.

Lemma run_byday r st :
  rule_wf r -> nth 4 (ps_seen st) false = false -> byday (ps_rule st) = [] ->
  byday_has_ord (ps_rule st) = false ->
  exists seen',
    cfold (list_clause (lit "BYDAY") (map print_byday (byday r))) st =
      Ok (mk_pstate (set_byday (byday r) (byday_has_ord r) (ps_rule st)) (ps_has_freq st) seen') /\
    forall j, j <> 4%nat -> nth j seen' false = nth j (ps_seen st) false.
Proof.
  intros H Hs He Ho. destruct (wf_byday r H) as [Hl Hf].
  apply (list_clause_run (lit "BYDAY") 4 "duplicate BYDAY clause." byday_cb (fun r => r)); [done| |done| |].
  - apply List.Forall_map. eapply Forall_weaken; [exact Hf|]. apply byday_item_ok.
  - intros Hn. apply map_nil_inv in Hn. rewrite (wf_byday_ord r H), Hn. destruct (ps_rule st). cbn in *. by rewrite Ho, He.
  - intros _. rewrite mfold_byday by (rewrite ?He; done). by rewrite He, Ho, (wf_byday_ord r H).
Qed.

Lemma run_bydate r st :
  rule_wf r -> nth 8 (ps_seen st) false = false -> bydate (ps_rule st) = [] ->
  exists seen',
    cfold (list_clause (lit "BYDATE") (map print_bydate (bydate r))) st =
      Ok (mk_pstate (set_bydate (bydate r) (ps_rule st)) (ps_has_freq st) seen') /\
    forall j, j <> 8%nat -> nth j seen' false = nth j (ps_seen st) false.
Proof.
  intros H Hs He. destruct (wf_bydate r H) as [Hl Hf].
  apply (list_clause_run (lit "BYDATE") 8 "duplicate BYDATE clause." bydate_cb (fun r => r)); [done| |done| |].
  - apply List.Forall_map. eapply Forall_weaken; [exact Hf|]. apply bydate_item_ok.
  - intros Hn. apply map_nil_inv in Hn. rewrite Hn. destruct (ps_rule st). cbn in *. by rewrite He.
  - intros _. rewrite mfold_bydate by (rewrite ?He; done). by rewrite He.
Qed.

(** Run the next clause of [rule_clauses]. *)
Ltac run_clause L :=
  rewrite ?cfold_app;
  let s := fresh "seen" in let S := fresh "S" in
  edestruct L as (s & -> & S); cycle -1;
  [ cbn [mbind result_bind ps_rule ps_has_freq ps_seen] in * | .. ];
  [ | eassumption | cbn [ps_seen]; repeat match goal with Hs : forall j, _ -> nth j ?x false = _ |- nth _ ?x false = _ =>
        rewrite Hs by done end; reflexivity | .. ]; try reflexivity.

Lemma cfold_rule_clauses r :
  rule_wf r -> flags_ok r ->
  exists seen, cfold (rule_clauses r) (mk_pstate empty_rule false (replicate 9 false)) = Ok (mk_pstate r true seen).
Proof.
  intros H (F1 & F2 & F3 & F4). unfold rule_clauses. cbn [app cfold].
  rewrite parse_clause_freq by done. cbn [mbind result_bind].
  rewrite parse_clause_interval by (done || apply H). cbn [mbind result_bind].
  run_clause run_bymonth. run_clause run_bymonthday. run_clause run_byday. run_clause run_bydate.
  run_clause run_byhour. run_clause run_byminute. run_clause run_bysecond.
  eexists. rewrite <- F1, <- F2, <- F3, <- F4. by destruct r.
Qed.

(** *** Normalisation leaves printed text alone *)

Definition stable (c : ascii) : bool := negb (is_space c) && (ord c <? 97).

Lemma normalize_stable up s : forallb stable s = true -> normalize_calendar up s = s.
Proof.
  induction s as [|c s IH]; [done|]. cbn [forallb normalize_calendar]. intros H.
  apply andb_prop in H as [Hc H]. unfold stable in Hc. split_bool.
  destruct (is_space c); [done|]. rewrite IH by done. f_equal. unfold pg_toupper.
  replace (97 <=? ord c) with false by lia. by replace (128 <=? ord c) with false by lia.
Qed.

(** [spells s t]: the text [s] is [t] with white space inserted and letters in
    lower case. *)
Definition white : bytes := [" "; "009"; "010"; "013"]%char.
Definition letters : list (ascii * ascii) :=
  combine (lit "abcdefghijklmnopqrstuvwxyz") (lit "ABCDEFGHIJKLMNOPQRSTUVWXYZ").

Inductive spells : bytes -> bytes -> Prop :=
  | spells_end : spells [] []
  | spells_white w s t : w ∈ white -> spells s t -> spells (w :: s) t
  | spells_same c s t : spells s t -> spells (c :: s) (c :: t)
  | spells_lower l u s t : (l, u) ∈ letters -> spells s t -> spells (l :: s) (u :: t).

Lemma spells_nil_inv t : spells [] t -> t = [].
Proof. by inversion 1. Qed.

(** The loop of [normalize_calendar] undoes a spelling. *)
Lemma spells_normalize up s t : spells s t -> forallb stable t = true -> normalize_calendar up s = t.
Proof.
  induction 1 as [|w s t Hw _ IH|c s t _ IH|l u s t Hl _ IH]; intros Ht; [done|..].
  - cbn [normalize_calendar].
    assert (Hall : forallb is_space white = true) by done. rewrite forallb_forall in Hall.
    rewrite Hall by (by apply list_elem_of_In). by apply IH.
  - change (c :: s) with ([c] ++ s). cbn [forallb] in Ht. apply andb_prop in Ht as [Hc Ht].
    pose proof (normalize_stable up [c]) as Hn. cbn [forallb normalize_calendar app] in *. rewrite Hc in Hn.
    specialize (Hn eq_refl). destruct (is_space c); [done|]. injection Hn as ->. by rewrite IH.
  - assert (Hall : forallb (fun p => negb (is_space (fst p)) &&
      ((97 <=? ord (fst p)) && (ord (fst p) <=? 122)) && bool_decide (chr (ord (fst p) - 32) = snd p)) letters = true)
      by (by vm_compute).
    rewrite forallb_forall in Hall. specialize (Hall (l, u)). cbn [fst snd] in Hall.
    rewrite <- list_elem_of_In in Hall. specialize (Hall Hl). split_bool.
    cbn [forallb] in Ht. apply andb_prop in Ht as [_ Ht].
    cbn [normalize_calendar]. destruct (is_space l); [done|]. rewrite IH by done. f_equal. unfold pg_toupper.
    replace (_ && _) with true by lia. by eapply bool_decide_eq_true_1.
Qed.

(** A byte that is not clean and is no separator is not in a printed rule. *)
Lemma clean_stable c : clean c = true -> stable c = true.
Proof.
  unfold clean, stable. intros H. apply andb_true_intro. split; [|lia].
  apply negb_true_iff. unfold is_space. rewrite !orb_false_iff.
  repeat split; apply bool_decide_eq_false; intros ->; by vm_compute in H.
Qed.

Lemma value_stable s : clean_value s -> forallb stable s = true.
Proof.
  unfold clean_value. rewrite !forallb_forall. intros H c Hc. specialize (H c Hc).
  apply orb_prop in H as [H|H]; [by apply clean_stable|]. by apply bool_decide_eq_true in H as ->.
Qed.

Lemma print_stable cs : Forall clause_ok cs -> forallb stable (concat (map print_clause cs)) = true.
Proof.
  induction 1 as [|[n v] cs (Hn & Hcn & Hcv) _ IH]; [done|]. cbn [map concat fst snd] in *.
  rewrite forallb_app, IH, andb_true_r. unfold print_clause. cbn [fst snd]. rewrite forallb_app.
  cbn [forallb]. rewrite forallb_app.
  by rewrite (value_stable n), (value_stable v) by (done || by apply clean_to_value).
Qed.

Lemma list_clause_ok name items :
  name <> [] -> clean_bytes name -> Forall item_ok items -> Forall clause_ok (list_clause name items).
Proof.
  intros Hn Hc Hi. destruct items as [|x items]; [constructor|]. constructor; [|constructor].
  split; [done|]. split; [done|]. by apply clean_join.
Qed.

Lemma rule_clauses_ok r : rule_wf r -> Forall clause_ok (rule_clauses r).
Proof.
  intros H. unfold rule_clauses.
  assert (D : forall set, (length set <= 60)%nat -> Forall item_ok (map dec (indices set 0))).
  { intros set Hl. apply dec_items_ok, indices_within; lia. }
  destruct (wf_times r H) as (Hh & Hm & Hs). destruct (wf_bymonth r H) as [Hmo _].
  rewrite !Forall_app. repeat split; try (apply list_clause_ok; [done|done|]; try (apply D; lia)).
  - constructor; [|constructor; [|constructor]]; (split; [done|split; [done|]]); cbn [snd].
    + by destruct (freq r).
    + apply clean_to_value. apply dec_roundtrip. pose proof (wf_interval r H). lia.
  - apply dec_items_ok. eapply Forall_weaken; [apply (wf_bymonthday r H)|]. cbn. lia.
  - apply List.Forall_map. eapply Forall_weaken; [apply (wf_byday r H)|]. apply byday_item_ok.
  - apply List.Forall_map. eapply Forall_weaken; [apply (wf_bydate r H)|]. apply bydate_item_ok.
Qed.

Lemma rule_clauses_length r : (length (rule_clauses r) <= length (print_rule r))%nat.
Proof.
  unfold print_rule. induction (rule_clauses r) as [|c cs IH]; [done|].
  cbn [map concat length]. rewrite length_app.
  assert (1 <= length (print_clause c))%nat by (unfold print_clause; rewrite length_app; cbn [length]; lia). lia.
Qed.

(** *** The only errors are the two the parser reports *)

Definition reports {A} (m : result A) : Prop :=
  match m with
  | Ok _ => True
  | Err e => err_code e = ERRCODE_INVALID_PARAMETER_VALUE \/ err_code e = ERRCODE_FEATURE_NOT_SUPPORTED
  end.

Lemma reports_bind {A B} (m : result A) (k : A -> result B) :
  reports m -> (forall a, reports (k a)) -> reports (m ≫= k).
Proof. destruct m as [a|e]; intros H1 H2; [apply H2|exact H1]. Qed.

Ltac reports :=
  repeat match goal with
  | |- reports (match ?x with _ => _ end) => destruct x
  | |- reports (_ ≫= _) => apply reports_bind; [|intros ?]
  | |- reports (Ok _) => exact I
  | |- reports (calendar_error _) => by left
  | |- reports (ereport _ _) => first [by left | by right]
  end.

(** A callback that reports the parser's errors and keeps the rule well formed. *)
Definition cb_reports (cb : item_cb) : Prop :=
  forall item r, rule_wf r -> reports (cb item r) /\ (forall r', cb item r = Ok r' -> rule_wf r').

Lemma parse_list_reports cb value r : cb_reports cb -> rule_wf r -> reports (parse_list value r cb).
Proof.
  intros Hcb. unfold parse_list. destruct value as [|c s]; [intros; reports|].
  generalize (c :: s); clear c s. intros p.
  assert (Hf : (length p < S (length p))%nat) by lia. revert Hf. generalize (S (length p)). intros fuel.
  revert p r. induction fuel as [|fuel IH]; intros p r Hf W; [lia|].
  destruct p as [|c s]; [done|]. cbn [parse_list_loop].
  destruct (break_at "," (c :: s)) as [item rest] eqn:E.
  destruct (length item =? 0)%nat; [reports|]. destruct (Hcb item r W) as [R K].
  destruct (cb item r) as [r'|e]; [|exact R]. apply IH; [|by apply K].
  destruct rest as [t|]; cbn [default from_option id]; [|cbn; cbn in Hf; lia].
  apply break_at_length in E. lia.
Qed.

(** Every store of a callback is within its array. *)
Lemma store_reports (set : list bool) i (k : list bool -> result CalendarRule) :
  0 <= i < Z.of_nat (length set) -> (forall a, reports (k a)) -> reports (a ← store set i true; k a).
Proof. intros H Hk. rewrite store_ok by done. apply Hk. Qed.

Ltac callback_reports W :=
  unfold byday_ordinal, bydate_year; cbn zeta;
  repeat match goal with
  | |- reports (if ?c then _ else _) => let C := fresh "C" in destruct c eqn:C
  | |- reports (_ ← store _ _ _; _) => apply store_reports; [destruct W; lia|intros ?]
  | |- reports (_ ← days_in_month _ _; _) => rewrite days_in_month_eq by lia; cbn [mbind result_bind]
  | |- reports (match ?x with _ => _ end) => destruct x
  | |- reports (_ ≫= _) => apply reports_bind; [|intros ?]
  end; reports.

Lemma bymonth_cb_reports : cb_reports bymonth_cb.
Proof.
  intros item r W. split; [unfold bymonth_cb; callback_reports W|].
  intros r' E. apply bymonth_cb_spec in E as (v & ? & ->). auto with calendar.
Qed.

Lemma bymonthday_cb_reports : cb_reports bymonthday_cb.
Proof.
  intros item r W. split; [unfold bymonthday_cb; callback_reports W|].
  intros r' E. apply bymonthday_cb_spec in E as (v & ? & ? & ? & ->). auto with calendar.
Qed.

Lemma byday_cb_reports : cb_reports byday_cb.
Proof.
  intros item r W. split; [unfold byday_cb; callback_reports W|].
  intros r' E. apply byday_cb_spec in E as (v & ? & ? & ->). auto with calendar.
Qed.

Lemma bydate_cb_reports : cb_reports bydate_cb.
Proof.
  intros item r W. split; [unfold bydate_cb; callback_reports W|].
  intros r' E. apply bydate_cb_spec in E as (v & ? & ? & ->). auto with calendar.
Qed.

Lemma byhour_cb_reports : cb_reports byhour_cb.
Proof.
  intros item r W. split; [unfold byhour_cb; callback_reports W|].
  intros r' E. apply byhour_cb_spec in E as (v & ? & ->). auto with calendar.
Qed.

Lemma byminute_cb_reports : cb_reports byminute_cb.
Proof.
  intros item r W. split; [unfold byminute_cb; callback_reports W|].
  intros r' E. apply byminute_cb_spec in E as (v & ? & ->). auto with calendar.
Qed.

Lemma bysecond_cb_reports : cb_reports bysecond_cb.
Proof.
  intros item r W. split; [unfold bysecond_cb; callback_reports W|].
  intros r' E. apply bysecond_cb_spec in E as (v & ? & ->). auto with calendar.
Qed.

#[export] Hint Resolve bymonth_cb_reports bymonthday_cb_reports byday_cb_reports bydate_cb_reports
  byhour_cb_reports byminute_cb_reports bysecond_cb_reports parse_list_reports : calendar.

Lemma parse_clause_reports name value st : rule_wf (ps_rule st) -> reports (parse_clause name value st).
Proof.
  intros W. unfold parse_clause.
  repeat (case_decide; [unfold see; destruct (nth _ _ _); [by left|]; cbn [mbind result_bind ps_rule];
    reports; auto with calendar|]).
  reports.
Qed.

Lemma parse_clauses_reports fuel : forall s st,
  (length s < fuel)%nat -> rule_inv (ps_rule st) -> reports (parse_clauses fuel s st).
Proof.
  induction fuel as [|fuel IH]; intros s st Hf W; [lia|]. destruct s as [|c s]; [done|].
  cbn [parse_clauses]. destruct (break_at ";" (c :: s)) as [clause rest] eqn:E.
  assert (length (default [] rest) < fuel)%nat.
  { destruct rest as [t|]; cbn [default from_option id]; [|cbn; cbn in Hf; lia].
    apply break_at_length in E. lia. }
  destruct (length clause =? 0)%nat; [by apply IH|].
  destruct (break_at "=" clause) as [name [value|]]; [|by left].
  pose proof (parse_clause_reports name value st (proj1 W)) as R.
  destruct (parse_clause name value st) as [st'|e] eqn:Ec; [|exact R].
  apply IH; [done|]. by eapply parse_clause_inv.
Qed.

(** ** Properties *)

(** Ordinals (BYDAY=2MON) need a yearly or monthly rule. *)
Definition ordinals_ok (r : CalendarRule) : Prop :=
  byday_has_ord r = true -> freq r = FREQ_YEARLY \/ freq r = FREQ_MONTHLY.

(** C37. Every calendar string is answered, by a rule or by one of the two
    documented errors: the loops of the parser end, and no callback stores
    outside an array of the rule (which would be an internal error). A rule the parser returns
    is one the evaluator can use: interval 1 through 99, all array indices
    within the C arrays, all values in their ranges, presence flags exactly
    where a set is not empty, ordinals only in yearly and monthly rules. *)
Theorem parse_calendar_total_wf up s :
  match parse_calendar up s with
  | Ok r => rule_wf r /\ flags_ok r /\ ordinals_ok r
  | Err e => err_code e = ERRCODE_INVALID_PARAMETER_VALUE \/ err_code e = ERRCODE_FEATURE_NOT_SUPPORTED
  end.
Proof.
  unfold parse_calendar. destruct s as [|c s]; [by left|].
  set (norm := normalize_calendar up (c :: s)).
  pose proof (parse_clauses_reports (S (length norm)) norm (mk_pstate empty_rule false (replicate 9 false))) as R.
  destruct (parse_clauses _ _ _) as [st|e] eqn:E; cbn [mbind result_bind]; [|apply R; [lia|exact empty_rule_inv]].
  assert (rule_inv (ps_rule st)) as [W F] by (eapply parse_clauses_inv; [|exact E]; exact empty_rule_inv).
  destruct (ps_has_freq st); [|by left]. cbn [negb].
  destruct (_ && _) eqn:O; [by left|]. split; [done|]. split; [done|]. intros Ho. rewrite Ho in O.
  destruct (decide (freq (ps_rule st) = FREQ_YEARLY)) as [|Hy]; [by left|].
  rewrite (bool_decide_eq_false_2 _ Hy) in O. right. by case_bool_decide.
Qed.

(** C15. Printing and parsing agree: the parser recovers a well-formed rule
    from its clause form, and from every spelling of it with any letters in
    lower case and blanks, tabs, line feeds and carriage returns anywhere. *)
Theorem parse_calendar_print up r s :
  rule_wf r -> flags_ok r -> ordinals_ok r -> spells s (print_rule r) ->
  parse_calendar up s = Ok r.
Proof.
  intros W F O Hs. pose proof (rule_clauses_ok r W) as Hok.
  assert (Hn : normalize_calendar up s = print_rule r)
    by (by apply spells_normalize, print_stable).
  unfold parse_calendar. destruct s as [|c s]; [by apply spells_nil_inv in Hs|]. rewrite Hn.
  unfold print_rule at 2. rewrite parse_clauses_print; [|done|pose proof (rule_clauses_length r); lia].
  destruct (cfold_rule_clauses r W F) as [seen ->]. cbn [mbind result_bind ps_rule ps_has_freq negb].
  destruct (byday_has_ord r) eqn:E; [|done]. by destruct (O E) as [-> | ->].
Qed.

(** A decision procedure for [spells] of printed text, which has no white space. *)
Fixpoint spelled (s t : bytes) : bool :=
  match s with
  | [] => match t with [] => true | _ => false end
  | c :: s' =>
      if bool_decide (c ∈ white) then spelled s' t
      else
        match t with
        | [] => false
        | u :: t' => if bool_decide (c = u) || bool_decide ((c, u) ∈ letters) then spelled s' t' else false
        end
  end.

Lemma spelled_spells s : forall t, spelled s t = true -> spells s t.
Proof.
  induction s as [|c s IH]; intros t H; [destruct t; [constructor|done]|]. cbn [spelled] in H.
  case_bool_decide; [apply spells_white; auto|]. destruct t as [|u t]; [done|].
  destruct (_ || _) eqn:E; [|done].
  apply orb_prop in E as [E|E]; apply bool_decide_eq_true in E; [subst; apply spells_same|apply spells_lower]; auto.
Qed.

(** Second Monday of March and November at 03:30, every second year. *)
Definition example_rule : CalendarRule :=
  mk_rule FREQ_YEARLY 2 (mark (mark (replicate 13 false) 3) 11) true [] [mk_byday 1 2] true []
    (mark (replicate 24 false) 3) true (mark (replicate 60 false) 30) true (replicate 60 false) false.

Lemma example_rule_wf : rule_wf example_rule /\ flags_ok example_rule /\ ordinals_ok example_rule.
Proof.
  split; [constructor; vm_compute; repeat (constructor || discriminate)|]. split; [by vm_compute|].
  intros _. by left.
Qed.

Lemma parse_calendar_print_witness :
  parse_calendar id (lit "freq=Yearly; interval=2; byMonth=3,11; byday=2Mon; byhour=3; byminute=30;") = Ok example_rule.
Proof.
  apply (parse_calendar_print id example_rule); [apply example_rule_wf..|].
  apply spelled_spells. vm_compute. reflexivity.
Defined.
