(* ===== verification/CalendarEval.v ===== *)
(** * DBMS_SCHEDULER calendars: evaluation

    contrib/ivorysql_ora/src/builtin_packages/dbms_scheduler/scheduler_calendar.c,
    from [bydate_matches] to [eval_calendar] and [sched_calendar_next]: the next
    run of a job, given its rule, its start date and the time of the last run.
    The routines read the session's time zone and mode through a [session]; an
    [Err] is an [ereport] inside them, or an access outside an array
    ([load] and [store] of CalendarSyntax). *)

From Stdlib Require Import Sorted.
From S2P Require Import Prelude Gregorian TimeZone Timestamp CalendarSyntax.

(** ** Definitions *)

Definition SCHED_MAX_PERIODS : Z := 4000.

(** Does (year, mon, mday) appear in the BYDATE list? *)
Definition bydate_matches (rule : CalendarRule) (year mon mday : Z) : bool :=
  existsb (fun bd => (bt_mon bd =? mon) && (bt_mday bd =? mday) &&
                     ((bt_year bd =? 0) || (bt_year bd =? year))) rule.(bydate).

(** A local calendar time as a timestamp in the session's zone; [None] is the
    [false] return. *)
Definition local_time_to_timestamptz (ss : session) (year mon mday hour min sec : Z)
    : result (option Z) :=
  let tm := mk_tm sec min hour mday mon year 0 0 (-1) 0 None in
  tz ← DetermineTimeZoneOffset ss tm (session_timezone ss);
  tm2timestamp ss tm 0 (Some tz).

(** BYMONTHDAY as generator of candidate days; [mk] is the array [mark[32]] of
    [month_day_list]. *)
Fixpoint mark_monthdays (dim : Z) (l : list Z) (mk : list bool) : result (list bool) :=
  match l with
  | [] => Ok mk
  | d :: l' =>
      let d := if d <? 0 then dim + d + 1 else d in
      mk ← (if (1 <=? d) && (d <=? dim) then store mk d true else Ok mk);
      mark_monthdays dim l' mk
  end.

(** The inner loop of the BYDAY filter: does some entry accept day [d]? *)
Fixpoint byday_accepts (ss : session) (year mon dim d : Z) (l : list SchedByDay) : result bool :=
  match l with
  | [] => Ok false
  | b :: l' =>
      jd ← date2j ss year mon d;
      if negb (j2day jd =? bd_dow b) then byday_accepts ss year mon dim d l'
      else if bd_ord b =? 0 then Ok true
      else
        j1 ← date2j ss year mon 1;
        let first_match := 1 + Z.rem (bd_dow b - j2day j1 + 7) 7 in
        let nth := Z.quot (d - first_match) 7 + 1 in
        if 0 <? bd_ord b then
          if nth =? bd_ord b then Ok true else byday_accepts ss year mon dim d l'
        else if nth =? Z.quot (dim - first_match) 7 + 1 + bd_ord b + 1 then Ok true
        else byday_accepts ss year mon dim d l'
  end.

(** The BYDAY filter over the marked days of [ds]. *)
Fixpoint byday_filter (ss : session) (year mon dim : Z) (bds : list SchedByDay) (ds : list Z)
    (mk : list bool) : result (list bool) :=
  match ds with
  | [] => Ok mk
  | d :: ds' =>
      on ← load mk d;
      if negb on then byday_filter ss year mon dim bds ds' mk
      else
        hit ← byday_accepts ss year mon dim d bds;
        mk ← (if (hit : bool) then Ok mk else store mk d false);
        byday_filter ss year mon dim bds ds' mk
  end.

(** [for (d = first; d <= dim; d += 7) mark[d] = true]; a month has at most five
    such days. *)
Fixpoint mark_weekdays (fuel : nat) (d dim : Z) (mk : list bool) : result (list bool) :=
  match fuel with
  | O => Ok mk
  | S fuel' => if d <=? dim then mk ← store mk d true; mark_weekdays fuel' (d + 7) dim mk else Ok mk
  end.

(** BYDAY as generator. *)
Fixpoint mark_bydays (ss : session) (year mon dim : Z) (l : list SchedByDay) (mk : list bool)
    : result (list bool) :=
  match l with
  | [] => Ok mk
  | b :: l' =>
      j1 ← date2j ss year mon 1;
      let first_match := 1 + Z.rem (bd_dow b - j2day j1 + 7) 7 in
      let count := Z.quot (dim - first_match) 7 + 1 in
      mk ← (if bd_ord b =? 0 then mark_weekdays 5 first_match dim mk
            else if 0 <? bd_ord b then
              if bd_ord b <=? count then store mk (first_match + (bd_ord b - 1) * 7) true else Ok mk
            else if - bd_ord b <=? count then store mk (first_match + (count + bd_ord b) * 7) true else Ok mk);
      mark_bydays ss year mon dim l' mk
  end.

(** BYDATE as generator. *)
Fixpoint mark_bydates (year mon dim : Z) (l : list SchedByDate) (mk : list bool) : result (list bool) :=
  match l with
  | [] => Ok mk
  | bd :: l' =>
      mk ← (if negb (bt_mon bd =? mon) || (negb (bt_year bd =? 0) && negb (bt_year bd =? year)) then Ok mk
            else if bt_mday bd <=? dim then store mk (bt_mday bd) true else Ok mk);
      mark_bydates year mon dim l' mk
  end.

(** BYDATE as filter. *)
Fixpoint filter_bydates (rule : CalendarRule) (year mon : Z) (ds : list Z) (mk : list bool)
    : result (list bool) :=
  match ds with
  | [] => Ok mk
  | d :: ds' =>
      on ← load mk d;
      mk ← (if on && negb (bydate_matches rule year mon d) then store mk d false else Ok mk);
      filter_bydates rule year mon ds' mk
  end.

(** The days that are still marked. *)
Fixpoint marked_days (mk : list bool) (ds : list Z) : result (list Z) :=
  match ds with
  | [] => Ok []
  | d :: ds' =>
      on ← load mk d;
      rest ← marked_days mk ds';
      Ok (if (on : bool) then d :: rest else rest)
  end.

Definition present {A} (l : list A) : bool := negb (length l =? 0)%nat.

(** The first clause that is present generates the candidate days. *)
Definition candidate_days (ss : session) (rule : CalendarRule) (year mon dim fallback_mday : Z)
    (mk : list bool) : result (list bool) :=
  if present rule.(bymonthday) then
    mk ← mark_monthdays dim rule.(bymonthday) mk;
    if present rule.(byday) then byday_filter ss year mon dim rule.(byday) (seqZ 1 dim) mk else Ok mk
  else if present rule.(byday) then mark_bydays ss year mon dim rule.(byday) mk
  else if present rule.(bydate) then mark_bydates year mon dim rule.(bydate) mk
  else if fallback_mday <=? dim then store mk fallback_mday true else Ok mk.

(** [month_day_list]: the ascending list of matching days of a month. *)
Definition month_day_list (ss : session) (rule : CalendarRule) (year mon fallback_mday : Z)
    : result (list Z) :=
  dim ← days_in_month year mon;
  mk ← candidate_days ss rule year mon dim fallback_mday (replicate 32 false);
  mk ← (if present rule.(bydate) && (present rule.(bymonthday) || present rule.(byday)) then
          filter_bydates rule year mon (seqZ 1 dim) mk
        else Ok mk);
  marked_days mk (seqZ 1 dim).

(** [set_to_list] over the indices of a boolean array. *)
Definition set_to_list (set : list bool) (has_set : bool) (fallback : Z) : list Z :=
  if has_set then indices set 0 else [fallback].

(** [rule->has_x && !rule->x[i]]: a clause used as a filter rejects [i]. *)
Definition rejected (has : bool) (set : list bool) (i : Z) : result bool :=
  if has then on ← load set i; Ok (negb on) else Ok false.

(** [date_matches]: the date filters of the periods that determine the date. *)
Definition date_matches (ss : session) (rule : CalendarRule) (year mon mday : Z) : result bool :=
  no ← rejected rule.(has_bymonth) rule.(bymonth) mon;
  if (no : bool) then Ok false
  else
    day_ok ← (if present rule.(bymonthday) then
                dim ← days_in_month year mon;
                Ok (existsb (fun d => (if d <? 0 then dim + d + 1 else d) =? mday) rule.(bymonthday))
              else Ok true);
    if negb day_ok then Ok false
    else
      dow_ok ← (if present rule.(byday) then
                  jd ← date2j ss year mon mday;
                  Ok (existsb (fun b => bd_dow b =? j2day jd) rule.(byday))
                else Ok true);
      if negb dow_ok then Ok false
      else if present rule.(bydate) && negb (bydate_matches rule year mon mday) then Ok false
      else Ok true.

(** [consider_candidate]; [best]/[found] are an [option]. *)
Definition consider_candidate (cand start after : Z) (best : option Z) : bool * option Z :=
  if (cand <=? after) || (cand <? start) then (false, best)
  else
    (true, match best with
           | None => Some cand
           | Some b => if cand <? b then Some cand else best
           end).

(** The three nested loops of [scan_times_on_date]; they are left at the first
    accepted candidate. *)
Fixpoint scan_loop (ss : session) (year mon mday : Z) (times : list (Z * Z * Z)) (start after : Z)
    (best : option Z) : result (option Z) :=
  match times with
  | [] => Ok best
  | (h, mi, s) :: times' =>
      c ← local_time_to_timestamptz ss year mon mday h mi s;
      match c with
      | None => scan_loop ss year mon mday times' start after best
      | Some cand =>
          let '(accepted, best) := consider_candidate cand start after best in
          if accepted then Ok best else scan_loop ss year mon mday times' start after best
      end
  end.

Definition nested_times (hours minutes seconds : list Z) : list (Z * Z * Z) :=
  flat_map (fun h => flat_map (fun mi => map (fun s => (h, mi, s)) seconds) minutes) hours.

Definition scan_times_on_date (ss : session) (rule : CalendarRule) (year mon mday : Z)
    (hour_fixed min_fixed sec_fixed : Z) (tm_start : pg_tm) (start after : Z) (best : option Z)
    : result (option Z) :=
  let hours := if 0 <=? hour_fixed then [hour_fixed]
               else set_to_list rule.(byhour) rule.(has_byhour) tm_start.(tm_hour) in
  let minutes := if 0 <=? min_fixed then [min_fixed]
                 else set_to_list rule.(byminute) rule.(has_byminute) tm_start.(tm_min) in
  let seconds := if 0 <=? sec_fixed then [sec_fixed]
                 else set_to_list rule.(bysecond) rule.(has_bysecond) tm_start.(tm_sec) in
  scan_loop ss year mon mday (nested_times hours minutes seconds) start after best.

(** [for (di = 0; di < nd && !found; di++) scan_times_on_date(...)]. *)
Fixpoint scan_days (ss : session) (rule : CalendarRule) (year mon : Z) (days : list Z)
    (tm_start : pg_tm) (start after : Z) (best : option Z) : result (option Z) :=
  match days, best with
  | d :: days', None =>
      best ← scan_times_on_date ss rule year mon d (-1) (-1) (-1) tm_start start after best;
      scan_days ss rule year mon days' tm_start start after best
  | _, _ => Ok best
  end.

(** The month loop of FREQ=YEARLY. *)
Fixpoint scan_months (ss : session) (rule : CalendarRule) (year : Z) (months : list Z)
    (tm_start : pg_tm) (start after : Z) (best : option Z) : result (option Z) :=
  match months with
  | [] => Ok best
  | m :: months' =>
      days ← month_day_list ss rule year m tm_start.(tm_mday);
      best ← scan_days ss rule year m days tm_start start after best;
      match best with
      | Some _ => Ok best
      | None => scan_months ss rule year months' tm_start start after best
      end
  end.

Definition yearly_period (ss : session) (rule : CalendarRule) (tm_start : pg_tm) (start after k : Z)
    : result (option Z) :=
  let year := tm_start.(tm_year) + int32 (k * rule.(interval)) in
  let months :=
    if rule.(has_bymonth) then set_to_list rule.(bymonth) true tm_start.(tm_mon)
    else if present rule.(bydate) then seqZ 1 12
    else [tm_start.(tm_mon)] in
  scan_months ss rule year months tm_start start after None.

(** Year and month of period [k] of FREQ=MONTHLY. *)
Definition monthly_index (rule : CalendarRule) (tm_start : pg_tm) (k : Z) : Z * Z :=
  let mindex := tm_start.(tm_year) * 12 + (tm_start.(tm_mon) - 1) + k * rule.(interval) in
  (int32 (Z.quot mindex 12), int32 (Z.rem mindex 12) + 1).

Definition monthly_period (ss : session) (rule : CalendarRule) (tm_start : pg_tm) (start after k : Z)
    : result (option Z) :=
  let '(year, mon) := monthly_index rule tm_start k in
  no ← rejected rule.(has_bymonth) rule.(bymonth) mon;
  if (no : bool) then Ok None
  else
    days ← month_day_list ss rule year mon tm_start.(tm_mday);
    scan_days ss rule year mon days tm_start start after None.

(** The window of seven days of FREQ=WEEKLY; [ds] are the days left. *)
Fixpoint week_loop (ss : session) (rule : CalendarRule) (j0 : Z) (ds : list Z)
    (tm_start : pg_tm) (start after : Z) (best : option Z) : result (option Z) :=
  match ds, best with
  | d :: ds', None =>
      let jd := j0 + d in
      let skip :=
        if present rule.(byday) then negb (existsb (fun b => bd_dow b =? j2day jd) rule.(byday))
        else negb (d =? 0) in
      if (skip : bool) then week_loop ss rule j0 ds' tm_start start after best
      else
        let '(year, mon, mday) := j2date jd in
        no ← rejected rule.(has_bymonth) rule.(bymonth) mon;
        if (no : bool) then
          week_loop ss rule j0 ds' tm_start start after best
        else
          best ← scan_times_on_date ss rule year mon mday (-1) (-1) (-1) tm_start start after best;
          week_loop ss rule j0 ds' tm_start start after best
  | _, _ => Ok best
  end.

Definition weekly_period (ss : session) (rule : CalendarRule) (tm_start : pg_tm) (start after k : Z)
    : result (option Z) :=
  j ← date2j ss tm_start.(tm_year) tm_start.(tm_mon) tm_start.(tm_mday);
  let j0 := j + int32 (k * rule.(interval) * 7) in
  week_loop ss rule j0 (seqZ 0 7) tm_start start after None.

Definition daily_period (ss : session) (rule : CalendarRule) (tm_start : pg_tm) (start after k : Z)
    : result (option Z) :=
  j ← date2j ss tm_start.(tm_year) tm_start.(tm_mon) tm_start.(tm_mday);
  let jd := j + int32 (k * rule.(interval)) in
  let '(year, mon, mday) := j2date jd in
  ok ← date_matches ss rule year mon mday;
  if negb ok then Ok None
  else scan_times_on_date ss rule year mon mday (-1) (-1) (-1) tm_start start after None.

Definition step_usec (rule : CalendarRule) : Z :=
  match rule.(freq) with
  | FREQ_HOURLY => rule.(interval) * USECS_PER_HOUR
  | FREQ_MINUTELY => rule.(interval) * USECS_PER_MINUTE
  | _ => rule.(interval) * USECS_PER_SEC
  end.

(** FREQ=HOURLY, MINUTELY and SECONDLY. *)
Definition clock_period (ss : session) (rule : CalendarRule) (tm_start : pg_tm) (start after k : Z)
    : result (option Z) :=
  let base := int64 (start + k * step_usec rule) in
  r ← timestamp2tm (session_timezone ss) base;
  match r with
  | None => Ok None
  | Some (tm, f2, _) =>
      ok ← date_matches ss rule tm.(tm_year) tm.(tm_mon) tm.(tm_mday);
      if negb ok then Ok None
      else
        no_hour ← rejected rule.(has_byhour) rule.(byhour) tm.(tm_hour);
        if (no_hour : bool) then Ok None
        else
          match rule.(freq) with
          | FREQ_HOURLY =>
              scan_times_on_date ss rule tm.(tm_year) tm.(tm_mon) tm.(tm_mday) tm.(tm_hour) (-1) (-1)
                tm_start start after None
          | FREQ_MINUTELY =>
              no_minute ← rejected rule.(has_byminute) rule.(byminute) tm.(tm_min);
              if (no_minute : bool) then Ok None
              else scan_times_on_date ss rule tm.(tm_year) tm.(tm_mon) tm.(tm_mday) tm.(tm_hour) tm.(tm_min) (-1)
                     tm_start start after None
          | _ =>
              no_minute ← rejected rule.(has_byminute) rule.(byminute) tm.(tm_min);
              if (no_minute : bool) then Ok None
              else
                no_second ← rejected rule.(has_bysecond) rule.(bysecond) tm.(tm_sec);
                if (no_second : bool) then Ok None
                else Ok (consider_candidate (base - f2) start after None).2
          end
  end.

Definition eval_period (ss : session) (rule : CalendarRule) (tm_start : pg_tm) (start after k : Z)
    : result (option Z) :=
  match rule.(freq) with
  | FREQ_YEARLY => yearly_period ss rule tm_start start after k
  | FREQ_MONTHLY => monthly_period ss rule tm_start start after k
  | FREQ_WEEKLY => weekly_period ss rule tm_start start after k
  | FREQ_DAILY => daily_period ss rule tm_start start after k
  | _ => clock_period ss rule tm_start start after k
  end.

(** The fast-forward: the first period to look at. *)
Definition first_period (rule : CalendarRule) (start after : Z) : Z :=
  if start <? after then
    let diff_usec := int64 (after - start) in
    let periods :=
      match rule.(freq) with
      | FREQ_SECONDLY => Z.quot diff_usec (rule.(interval) * USECS_PER_SEC)
      | FREQ_MINUTELY => Z.quot diff_usec (rule.(interval) * USECS_PER_MINUTE)
      | FREQ_HOURLY => Z.quot diff_usec (rule.(interval) * USECS_PER_HOUR)
      | FREQ_DAILY => Z.quot diff_usec (rule.(interval) * USECS_PER_DAY)
      | FREQ_WEEKLY => Z.quot diff_usec (rule.(interval) * 7 * USECS_PER_DAY)
      | FREQ_MONTHLY => Z.quot (Z.quot (Z.quot diff_usec USECS_PER_DAY) 32) rule.(interval)
      | FREQ_YEARLY => Z.quot (Z.quot (Z.quot diff_usec USECS_PER_DAY) 366) rule.(interval)
      end in
    if 2 <? periods then periods - 2 else 0
  else 0.

(** The period loop; [n] is the number of periods left to search. *)
Fixpoint period_loop (n : nat) (period : Z -> result (option Z)) (k : Z) : result (option Z) :=
  match n with
  | O => Ok None
  | S n' =>
      best ← period k;
      match best with
      | Some t => Ok (Some t)
      | None => period_loop n' period (k + 1)
      end
  end.

Definition eval_calendar (ss : session) (rule : CalendarRule) (start after : Z) : result (option Z) :=
  r ← timestamp2tm (session_timezone ss) start;
  match r with
  | None => ereport ERRCODE_DATETIME_VALUE_OUT_OF_RANGE "timestamp out of range"
  | Some (tm_start, _, _) =>
      period_loop (Z.to_nat SCHED_MAX_PERIODS) (eval_period ss rule tm_start start after)
        (first_period rule start after)
  end.

(** [sched_calendar_next]: the first matching time after [after] and not before
    [start_date]. *)
Definition sched_calendar_next (up : ascii -> ascii) (ss : session) (calendar : bytes)
    (start_date after : Z) : result (option Z) :=
  rule ← parse_calendar up calendar;
  eval_calendar ss rule start_date after.

(** ** Specification: which days of a month a rule selects *)

Definition absent {A} (l : list A) : bool := negb (present l).

(** Is the entry for [d] of a boolean set on? *)
Definition marked (mk : list bool) (d : Z) : bool := nth (Z.to_nat d) mk false.

(** The day of the week of a Julian day number, 0 for Sunday. *)
Definition weekday (jd : Z) : Z := (jd + 1) mod 7.

(** BYMONTHDAY: counted from the start, or from the end, of the month. *)
Definition monthday_clause (rule : CalendarRule) (y m d : Z) : bool :=
  existsb (fun x => d =? (if x <? 0 then month_days y m + x + 1 else x)) rule.(bymonthday).

(** BYDAY: the weekday, and with an ordinal the position of the day among the
    days of the month that fall on it, from the start or from the end. *)
Definition byday_entry (y m d : Z) (b : SchedByDay) : bool :=
  (weekday (date2j_civil y m d) =? bd_dow b) &&
  ((bd_ord b =? 0) || (bd_ord b =? (d - 1) / 7 + 1) || (bd_ord b =? - ((month_days y m - d) / 7 + 1))).

(** BYDATE: the month and the day, and the year where the entry names one. *)
Definition bydate_clause (rule : CalendarRule) (y m d : Z) : bool :=
  existsb (fun b => bool_decide (bt_mon b = m /\ bt_mday b = d /\ (bt_year b = 0 \/ bt_year b = y))) rule.(bydate).

(** Every clause that is present accepts the day; without any, the day is the
    one of the start date. *)
Definition day_selected (rule : CalendarRule) (y m d0 d : Z) : bool :=
  (absent rule.(bymonthday) || monthday_clause rule y m d) &&
  (absent rule.(byday) || existsb (byday_entry y m d) rule.(byday)) &&
  (absent rule.(bydate) || bydate_clause rule y m d) &&
  (negb (absent rule.(bymonthday) && absent rule.(byday) && absent rule.(bydate)) || (d =? d0)).

(** ** The days of a month *)

Lemma j2day_weekday x : j2day x = weekday x.
Proof. unfold j2day, weekday. destruct (Z.ltb_spec (Z.rem (x + 1) 7) 0); lia. Qed.

(** The array after [mark[d] = false]. *)
Definition unmark (mk : list bool) (d : Z) : list bool := <[Z.to_nat d := false]> mk.

Lemma load_marked mk d : 0 <= d < Z.of_nat (length mk) -> load mk d = Ok (marked mk d).
Proof. apply load_ok. Qed.

(** The loops over the array as functions on it, without the bounds check. *)
Definition monthday_marks (dim : Z) (l : list Z) (mk : list bool) : list bool :=
  foldl (fun mk d =>
           let d := if d <? 0 then dim + d + 1 else d in
           if (1 <=? d) && (d <=? dim) then mark mk d else mk) mk l.

Fixpoint weekday_marks (fuel : nat) (d dim : Z) (mk : list bool) : list bool :=
  match fuel with
  | O => mk
  | S fuel' => if d <=? dim then weekday_marks fuel' (d + 7) dim (mark mk d) else mk
  end.

Definition bydate_marks (year mon dim : Z) (l : list SchedByDate) (mk : list bool) : list bool :=
  foldl (fun mk bd =>
           if negb (bt_mon bd =? mon) || (negb (bt_year bd =? 0) && negb (bt_year bd =? year)) then mk
           else if bt_mday bd <=? dim then mark mk (bt_mday bd) else mk) mk l.

Definition bydate_filtered (rule : CalendarRule) (year mon : Z) (ds : list Z) (mk : list bool) : list bool :=
  foldl (fun mk d => if marked mk d && negb (bydate_matches rule year mon d) then unmark mk d else mk) mk ds.

Lemma bydate_matches_clause rule y m d : bydate_matches rule y m d = bydate_clause rule y m d.
Proof.
  unfold bydate_matches, bydate_clause. induction (bydate rule) as [|b l IH]; [done|].
  cbn [existsb]. rewrite IH. f_equal. apply eq_true_iff_eq.
  rewrite !andb_true_iff, orb_true_iff, !Z.eqb_eq, bool_decide_eq_true. tauto.
Qed.

Lemma marked_mark mk i d :
  0 <= i < Z.of_nat (length mk) -> 0 <= d -> marked (mark mk i) d = (d =? i) || marked mk d.
Proof.
  intros Hi Hd. unfold marked, mark. rewrite !nth_lookup. destruct (Z.eqb_spec d i) as [->|Hne].
  - by rewrite list_lookup_insert_eq by lia.
  - by rewrite list_lookup_insert_ne by lia.
Qed.

Lemma marked_unmark mk i d :
  0 <= i < Z.of_nat (length mk) -> 0 <= d -> marked (unmark mk i) d = negb (d =? i) && marked mk d.
Proof.
  intros Hi Hd. unfold marked, unmark. rewrite !nth_lookup. destruct (Z.eqb_spec d i) as [->|Hne].
  - by rewrite list_lookup_insert_eq by lia.
  - by rewrite list_lookup_insert_ne by lia.
Qed.

Lemma marked_none n d : marked (replicate n false) d = false.
Proof. unfold marked. rewrite nth_lookup. destruct (replicate n false !! Z.to_nat d) eqn:E; [|done]. by apply lookup_replicate in E as [-> _]. Qed.

Lemma length_unmark mk i : length (unmark mk i) = length mk.
Proof. apply length_insert. Qed.

(** The weekday of a day of the month, from the one of the first. *)
Lemma weekday_step y m d :
  j2day (date2j_civil y m d) = (j2day (date2j_civil y m 1) + (d - 1)) mod 7.
Proof. rewrite !j2day_weekday, (date2j_civil_day y m d), (date2j_civil_day y m 1). unfold weekday. lia. Qed.

Lemma weekday_range x : 0 <= j2day x <= 6.
Proof. rewrite j2day_weekday. unfold weekday. lia. Qed.

Lemma sevenths x : x mod 7 = 0 -> exists p, x = 7 * p.
Proof. intros H. exists (x / 7). lia. Qed.

Lemma orb_false_r_eq a b : b = false -> a || b = a.
Proof. intros ->. apply orb_false_r. Qed.

Section MonthDays.

Context (ss : session) (rule : CalendarRule) (y m : Z).
Hypothesis Hwf : rule_wf rule.
Hypothesis Hm : 1 <= m <= 12.
Hypothesis Hplain : forall d, date2j ss y m d = Ok (date2j_civil y m d).

Let dim := month_days y m.

Lemma dim_range : 28 <= dim <= 31.
Proof using Hm. by apply month_days_range. Qed.

Lemma monthday_marks_spec l mk d :
  length mk = 32%nat -> 1 <= d <= dim ->
  marked (monthday_marks dim l mk) d =
    marked mk d || existsb (fun x => d =? (if x <? 0 then dim + x + 1 else x)) l.
Proof using Hm.
  pose proof dim_range. unfold monthday_marks. revert mk.
  induction l as [|x l IH]; intros mk Hl Hd; [by rewrite orb_false_r|]. cbn [foldl existsb].
  set (z := if x <? 0 then dim + x + 1 else x). destruct ((1 <=? z) && (z <=? dim)) eqn:Hz.
  - rewrite IH, marked_mark by (rewrite ?length_mark; lia). destruct (d =? z), (marked mk d); done.
  - rewrite IH by done. by replace (d =? z) with false by lia.
Qed.

Lemma length_monthday_marks l mk : length (monthday_marks dim l mk) = length mk.
Proof using.
  unfold monthday_marks. revert mk. induction l as [|x l IH]; intros mk; [done|]. cbn [foldl].
  rewrite IH. by destruct (_ && _); rewrite ?length_mark.
Qed.

Lemma mark_monthdays_checked l : forall mk,
  length mk = 32%nat -> mark_monthdays dim l mk = Ok (monthday_marks dim l mk).
Proof using Hm.
  pose proof dim_range. unfold monthday_marks. induction l as [|x l IH]; intros mk Hl; [done|].
  cbn [mark_monthdays foldl]. set (z := if x <? 0 then dim + x + 1 else x).
  destruct ((1 <=? z) && (z <=? dim)) eqn:Hz; [|by apply IH].
  rewrite store_ok by lia. apply IH. rewrite <- Hl. apply length_insert.
Qed.

(** Position of a weekday in the month: first occurrence, and which one a day is. *)
Lemma first_match_spec dow d :
  0 <= dow <= 6 -> 1 <= d <= dim ->
  let first := 1 + Z.rem (dow - j2day (date2j_civil y m 1) + 7) 7 in
  1 <= first <= 7 /\
  ((j2day (date2j_civil y m d) =? dow) = true <-> first <= d /\ (d - first) mod 7 = 0).
Proof using.
  intros Hdow Hd. cbn zeta. pose proof (weekday_range (date2j_civil y m 1)).
  rewrite (weekday_step y m d). set (w := j2day (date2j_civil y m 1)) in *. clearbody w. rewrite Z.eqb_eq.
  assert (Hf : exists q, Z.rem (dow - w + 7) 7 = dow - w + 7 * q /\ 0 <= dow - w + 7 * q < 7).
  { destruct (Z.le_gt_cases w dow); [exists 0|exists 1]; lia. }
  destruct Hf as (q & -> & Hq). split; [lia|]. split.
  - intros E. assert (exists p, w + (d - 1) = dow + 7 * p) as [p Hp] by (exists ((w + (d - 1)) / 7); lia).
    split; lia.
  - intros [Hle E]. apply sevenths in E as [p Hp]. lia.
Qed.

Lemma byday_accepts_spec l d :
  Forall byday_ok l -> 1 <= d <= dim ->
  byday_accepts ss y m dim d l = Ok (existsb (byday_entry y m d) l).
Proof using Hm Hplain.
  intros Hl Hd. pose proof dim_range. induction Hl as [|b l [Hdow Hord] Hl IH]; [done|].
  cbn [byday_accepts existsb]. rewrite !Hplain. cbn [mbind result_bind].
  destruct (first_match_spec (bd_dow b) d Hdow Hd) as [Hf Hw]. unfold byday_entry at 1. rewrite <- j2day_weekday. fold dim.
  set (first := 1 + Z.rem _ 7) in *. clearbody first.
  destruct (j2day (date2j_civil y m d) =? bd_dow b) eqn:E; cbn [negb andb orb]; [|exact IH].
  destruct (proj1 Hw eq_refl) as [Hle Hmod]. destruct (Z.eqb_spec (bd_ord b) 0) as [H0|H0]; [done|]. cbn [orb].
  assert (Hn : Z.quot (d - first) 7 + 1 = (d - 1) / 7 + 1) by lia.
  assert (Hp : 0 <= (dim - d) / 7 /\ 0 <= (d - 1) / 7) by (clear -Hd; clearbody dim; lia).
  assert (Hc : Z.quot (dim - first) 7 + 1 - (Z.quot (d - first) 7 + 1) = (dim - d) / 7) by lia.
  destruct (Z.ltb_spec 0 (bd_ord b)) as [Hpos|Hneg].
  - rewrite Hn. replace (bd_ord b =? - ((dim - d) / 7 + 1)) with false
      by (symmetry; apply Z.eqb_neq; clear -Hp Hpos; clearbody dim; lia). rewrite orb_false_r, (Z.eqb_sym (bd_ord b)).
    rewrite IH. by destruct ((d - 1) / 7 + 1 =? bd_ord b).
  - replace (bd_ord b =? (d - 1) / 7 + 1) with false
      by (symmetry; apply Z.eqb_neq; clear -Hp Hneg; lia).
    rewrite <- Hc.
    replace (bd_ord b =? _) with (Z.quot (d - first) 7 + 1 =? Z.quot (dim - first) 7 + 1 + bd_ord b + 1)
      by (apply eq_true_iff_eq; rewrite !Z.eqb_eq; clear; lia).
    rewrite IH. cbn [orb]. by destruct (Z.quot (d - first) 7 + 1 =? Z.quot (dim - first) 7 + 1 + bd_ord b + 1).
Qed.

Lemma byday_filter_spec bds ds mk :
  Forall byday_ok bds -> length mk = 32%nat -> Forall (fun d => 1 <= d <= dim) ds -> NoDup ds ->
  exists mk', byday_filter ss y m dim bds ds mk = Ok mk' /\ length mk' = 32%nat /\
    forall d, 1 <= d <= dim ->
      marked mk' d = marked mk d && (negb (bool_decide (d ∈ ds)) || existsb (byday_entry y m d) bds).
Proof using Hm Hplain.
  intros Hb Hl Hds Hnd. pose proof dim_range. revert mk Hl.
  induction Hds as [|x ds Hx Hds IH]; intros mk Hl.
  { exists mk. split; [done|]. split; [done|]. intros d Hd. by rewrite andb_true_r. }
  inversion Hnd as [|? ? Hnin Hnd']; subst. cbn [byday_filter]. specialize (IH Hnd').
  rewrite load_marked by lia. cbn [mbind result_bind].
  destruct (marked mk x) eqn:Ex; cbn [negb].
  - rewrite byday_accepts_spec by done. cbn [mbind result_bind].
    destruct (IH (if existsb (byday_entry y m x) bds then mk else unmark mk x)) as (mk' & E & Hl' & Hs).
    { by destruct (existsb _ _); rewrite ?length_unmark. }
    exists mk'. split; [rewrite <- E; destruct (existsb _ _); [done|by rewrite store_ok by lia]|]. split; [done|]. intros d Hd. rewrite Hs by done.
    destruct (decide (d = x)) as [->|Hne].
    + rewrite bool_decide_eq_false_2 by done. rewrite bool_decide_eq_true_2 by (by left).
      destruct (existsb (byday_entry y m x) bds); [done|]. rewrite marked_unmark by lia.
      by rewrite Z.eqb_refl, andb_false_r.
    + rewrite (bool_decide_ext (d ∈ x :: ds) (d ∈ ds)) by (rewrite elem_of_cons; naive_solver).
      f_equal. destruct (existsb (byday_entry y m x) bds); [done|]. rewrite marked_unmark by lia.
      by replace (d =? x) with false by lia.
  - destruct (IH mk Hl) as (mk' & E & Hl' & Hs). exists mk'. split; [done|]. split; [done|].
    intros d Hd. rewrite Hs by done. destruct (decide (d = x)) as [->|Hne].
    + by rewrite Ex.
    + by rewrite (bool_decide_ext (d ∈ x :: ds) (d ∈ ds)) by (rewrite elem_of_cons; naive_solver).
Qed.

Lemma length_weekday_marks fuel : forall d0 mk, length (weekday_marks fuel d0 dim mk) = length mk.
Proof using.
  induction fuel as [|fuel IH]; intros d0 mk; cbn; [done|]. destruct (d0 <=? dim); [|done].
  by rewrite IH, length_mark.
Qed.

Lemma weekday_marks_spec fuel : forall d0 mk d,
  length mk = 32%nat -> 1 <= d <= dim -> 1 <= d0 -> dim < d0 + 7 * Z.of_nat fuel ->
  marked (weekday_marks fuel d0 dim mk) d = marked mk d || ((d0 <=? d) && ((d - d0) mod 7 =? 0)).
Proof using Hm.
  pose proof dim_range as Hdim. clearbody dim. induction fuel as [|fuel IH]; intros d0 mk d Hl Hd H0 Hf; cbn [weekday_marks].
  { replace (d0 <=? d) with false by lia. by rewrite orb_false_r. }
  destruct (Z.leb_spec d0 dim) as [Hle|Hgt].
  2:{ replace (d0 <=? d) with false by lia. by rewrite orb_false_r. }
  rewrite IH, marked_mark by (rewrite ?length_mark; lia).
  rewrite (orb_comm (d =? d0)), <- orb_assoc. f_equal. clear -Hd. apply eq_true_iff_eq.
  rewrite orb_true_iff, !andb_true_iff, !Z.leb_le, !Z.eqb_eq. split.
  - intros [->|[? ?]]; lia.
  - intros [? Hx]. apply sevenths in Hx as [p Hp]. lia.
Qed.

Lemma mark_weekdays_checked fuel : forall d0 mk,
  length mk = 32%nat -> 1 <= d0 -> mark_weekdays fuel d0 dim mk = Ok (weekday_marks fuel d0 dim mk).
Proof using Hm.
  pose proof dim_range. induction fuel as [|fuel IH]; intros d0 mk Hl H0; [done|].
  cbn [mark_weekdays weekday_marks]. destruct (Z.leb_spec d0 dim); [|done].
  rewrite store_ok by lia. apply IH; [rewrite <- Hl; apply length_insert|lia].
Qed.

(** One BYDAY entry as generator marks the days it accepts. *)
Lemma mark_byday_entry b mk d :
  byday_ok b -> length mk = 32%nat -> 1 <= d <= dim ->
  let first := 1 + Z.rem (bd_dow b - j2day (date2j_civil y m 1) + 7) 7 in
  let count := Z.quot (dim - first) 7 + 1 in
  marked (if bd_ord b =? 0 then weekday_marks 5 first dim mk
          else if 0 <? bd_ord b then
            if bd_ord b <=? count then mark mk (first + (bd_ord b - 1) * 7) else mk
          else if - bd_ord b <=? count then mark mk (first + (count + bd_ord b) * 7) else mk) d
  = marked mk d || byday_entry y m d b.
Proof using Hm.
  intros [Hdow Hord] Hl Hd first count. pose proof dim_range as Hdim.
  destruct (first_match_spec (bd_dow b) d Hdow Hd) as [Hf Hw]. fold first in Hf, Hw.
  unfold byday_entry. rewrite <- j2day_weekday. fold dim. clearbody first dim.
  assert (Hw' : (j2day (date2j_civil y m d) =? bd_dow b) = ((first <=? d) && ((d - first) mod 7 =? 0))).
  { apply eq_true_iff_eq. by rewrite Hw, andb_true_iff, Z.leb_le, Z.eqb_eq. }
  rewrite Hw'. clear Hw Hw'. destruct (Z.eqb_spec (bd_ord b) 0) as [H0|H0].
  { rewrite weekday_marks_spec by lia. cbn [orb]. by rewrite andb_true_r. }
  assert (Hq : Z.quot (dim - first) 7 = (dim - first) / 7) by (apply Z.quot_div_nonneg; lia).
  cbn [orb]. destruct (Z.ltb_spec 0 (bd_ord b)) as [Hpos|Hneg].
  - destruct (Z.leb_spec (bd_ord b) count) as [Hc|Hc].
    + rewrite marked_mark by lia. rewrite orb_comm. f_equal. apply eq_true_iff_eq.
      rewrite andb_true_iff, orb_true_iff, andb_true_iff, Z.leb_le, !Z.eqb_eq. split; [lia|].
      intros [[Hle Hmod] Ho]. apply sevenths in Hmod as [p Hp]. lia.
    + symmetry. apply orb_false_r_eq.
      apply not_true_iff_false. rewrite andb_true_iff, orb_true_iff, andb_true_iff, Z.leb_le, !Z.eqb_eq.
      intros [[Hle Hmod] Ho]. apply sevenths in Hmod as [p Hp]. lia.
  - destruct (Z.leb_spec (- bd_ord b) count) as [Hc|Hc].
    + rewrite marked_mark by lia. rewrite orb_comm. f_equal. apply eq_true_iff_eq.
      rewrite andb_true_iff, orb_true_iff, andb_true_iff, Z.leb_le, !Z.eqb_eq. split; [lia|].
      intros [[Hle Hmod] Ho]. apply sevenths in Hmod as [p Hp]. lia.
    + symmetry. apply orb_false_r_eq.
      apply not_true_iff_false. rewrite andb_true_iff, orb_true_iff, andb_true_iff, Z.leb_le, !Z.eqb_eq.
      intros [[Hle Hmod] Ho]. apply sevenths in Hmod as [p Hp]. lia.
Qed.

Lemma mark_byday_checked b mk :
  byday_ok b -> length mk = 32%nat ->
  let first := 1 + Z.rem (bd_dow b - j2day (date2j_civil y m 1) + 7) 7 in
  let count := Z.quot (dim - first) 7 + 1 in
  (if bd_ord b =? 0 then mark_weekdays 5 first dim mk
   else if 0 <? bd_ord b then
     if bd_ord b <=? count then store mk (first + (bd_ord b - 1) * 7) true else Ok mk
   else if - bd_ord b <=? count then store mk (first + (count + bd_ord b) * 7) true else Ok mk)
  = Ok (if bd_ord b =? 0 then weekday_marks 5 first dim mk
        else if 0 <? bd_ord b then
          if bd_ord b <=? count then mark mk (first + (bd_ord b - 1) * 7) else mk
        else if - bd_ord b <=? count then mark mk (first + (count + bd_ord b) * 7) else mk).
Proof using Hm.
  intros [Hdow Hord] Hl first count. pose proof dim_range as Hdim.
  destruct (first_match_spec (bd_dow b) 1 Hdow ltac:(lia)) as [Hf _]. fold first in Hf. clearbody first dim.
  assert (Hq : Z.quot (dim - first) 7 = (dim - first) / 7) by (apply Z.quot_div_nonneg; lia).
  destruct (Z.eqb_spec (bd_ord b) 0); [apply mark_weekdays_checked; [done|lia]|].
  destruct (Z.ltb_spec 0 (bd_ord b)).
  - destruct (Z.leb_spec (bd_ord b) count); [apply store_ok; lia|done].
  - destruct (Z.leb_spec (- bd_ord b) count); [apply store_ok; lia|done].
Qed.

Lemma mark_bydays_spec l : forall mk,
  Forall byday_ok l -> length mk = 32%nat ->
  exists mk', mark_bydays ss y m dim l mk = Ok mk' /\ length mk' = 32%nat /\
    forall d, 1 <= d <= dim -> marked mk' d = marked mk d || existsb (byday_entry y m d) l.
Proof using Hm Hplain.
  induction l as [|b l IH]; intros mk Hb Hl.
  { exists mk. split; [done|]. split; [done|]. intros d Hd. by rewrite orb_false_r. }
  inversion Hb as [|? ? Hb1 Hb2]; subst. cbn [mark_bydays existsb]. rewrite Hplain. cbn [mbind result_bind].
  rewrite mark_byday_checked by done. cbn [mbind result_bind].
  edestruct IH as (mk' & -> & Hl' & Hs); [done| |].
  2:{ exists mk'. split; [done|]. split; [done|]. intros d Hd. rewrite Hs by done.
      rewrite mark_byday_entry by done. by rewrite orb_assoc. }
  destruct (bd_ord b =? 0); [by rewrite length_weekday_marks|].
  destruct (0 <? bd_ord b); destruct (_ <=? _); by rewrite ?length_mark.
Qed.

Lemma bydate_marks_spec l : forall mk d,
  Forall bydate_ok l -> length mk = 32%nat -> 1 <= d <= dim ->
  marked (bydate_marks y m dim l mk) d =
    marked mk d || existsb (fun bd => (bt_mon bd =? m) && (bt_mday bd =? d) &&
                                      ((bt_year bd =? 0) || (bt_year bd =? y))) l.
Proof using Hm.
  unfold bydate_marks. pose proof dim_range. induction l as [|b l IH]; intros mk d Hb Hl Hd; [by rewrite orb_false_r|].
  inversion Hb as [|? ? (_ & _ & Hb1) Hb2]; subst. cbn [foldl existsb].
  destruct (bt_mon b =? m) eqn:Em; cbn [negb orb andb]; [|by rewrite IH].
  rewrite <- negb_orb. destruct ((bt_year b =? 0) || (bt_year b =? y)); cbn [negb].
  2:{ rewrite IH by done. by rewrite andb_false_r. }
  rewrite andb_true_r. destruct (Z.leb_spec (bt_mday b) dim).
  - rewrite IH, marked_mark by (rewrite ?length_mark; done || lia).
    rewrite (Z.eqb_sym d). by destruct (bt_mday b =? d), (marked mk d).
  - rewrite IH by done. by replace (bt_mday b =? d) with false by lia.
Qed.

Lemma mark_bydates_checked l : forall mk,
  Forall bydate_ok l -> length mk = 32%nat -> mark_bydates y m dim l mk = Ok (bydate_marks y m dim l mk).
Proof using Hm.
  unfold bydate_marks. pose proof dim_range. induction l as [|b l IH]; intros mk Hb Hl; [done|].
  inversion Hb as [|? ? (_ & _ & Hb1) Hb2]; subst. cbn [mark_bydates foldl].
  destruct (_ || _); [by apply IH|]. destruct (Z.leb_spec (bt_mday b) dim); [|by apply IH].
  rewrite store_ok by lia. apply IH; [done|]. rewrite <- Hl. apply length_insert.
Qed.

Lemma filter_bydates_checked ds : forall mk,
  length mk = 32%nat -> Forall (fun d => 1 <= d <= dim) ds ->
  filter_bydates rule y m ds mk = Ok (bydate_filtered rule y m ds mk) /\
  length (bydate_filtered rule y m ds mk) = 32%nat.
Proof using Hm.
  unfold bydate_filtered. pose proof dim_range. induction ds as [|x ds IH]; intros mk Hl Hds; [done|].
  inversion Hds; subst. cbn [filter_bydates foldl]. rewrite load_marked by lia. cbn [mbind result_bind].
  destruct (_ && _); [|by apply IH]. rewrite store_ok by lia. apply IH; [rewrite <- Hl; apply length_insert|done].
Qed.

Lemma marked_days_checked ds mk :
  length mk = 32%nat -> Forall (fun d => 1 <= d <= dim) ds -> marked_days mk ds = Ok (List.filter (marked mk) ds).
Proof using Hm.
  pose proof dim_range. intros Hl. induction 1 as [|x ds Hx Hds IH]; [done|]. cbn [marked_days List.filter].
  rewrite load_marked, IH by lia. done.
Qed.

Lemma seqZ_days : Forall (fun d => 1 <= d <= dim) (seqZ 1 dim).
Proof using. apply Forall_forall. intros d Hin. apply list_elem_of_In, elem_of_seqZ in Hin. lia. Qed.

Lemma bydate_filtered_spec ds : forall mk d,
  length mk = 32%nat -> Forall (fun d => 1 <= d <= dim) ds -> 1 <= d <= dim ->
  marked (bydate_filtered rule y m ds mk) d =
    marked mk d && (negb (bool_decide (d ∈ ds)) || bydate_matches rule y m d).
Proof using Hm.
  unfold bydate_filtered. pose proof dim_range. induction ds as [|x ds IH]; intros mk d Hl Hds Hd.
  { by rewrite andb_true_r. }
  inversion Hds as [|? ? Hx Hds']; subst. cbn [foldl].
  rewrite IH by (try done; destruct (_ && _); rewrite ?length_unmark; done).
  destruct (decide (d = x)) as [->|Hne].
  - rewrite (bool_decide_eq_true_2 (x ∈ x :: ds)) by (by left).
    destruct (marked mk x) eqn:Em; cbn [andb]; [|by rewrite Em].
    destruct (bydate_matches rule y m x); cbn [negb orb]; [by rewrite Em, orb_true_r|].
    by rewrite marked_unmark, Z.eqb_refl by lia.
  - rewrite (bool_decide_ext (d ∈ x :: ds) (d ∈ ds)) by (rewrite elem_of_cons; naive_solver).
    f_equal. destruct (_ && _); [|done]. rewrite marked_unmark by lia. by replace (d =? x) with false by lia.
Qed.

Lemma length_bydate_marks l : forall mk, length (bydate_marks y m dim l mk) = length mk.
Proof using.
  unfold bydate_marks. induction l as [|b l IH]; intros mk; [done|]. cbn [foldl]. rewrite IH.
  destruct (_ || _); [done|]. by destruct (_ <=? _); rewrite ?length_mark.
Qed.

Lemma candidate_days_spec d0 :
  1 <= d0 <= 31 ->
  exists mk, candidate_days ss rule y m dim d0 (replicate 32 false) = Ok mk /\ length mk = 32%nat /\
    forall d, 1 <= d <= dim -> marked mk d =
      (absent (bymonthday rule) || monthday_clause rule y m d) &&
      (absent (byday rule) || existsb (byday_entry y m d) (byday rule)) &&
      (negb (absent (bymonthday rule) && absent (byday rule)) ||
       if absent (bydate rule) then d =? d0 else bydate_clause rule y m d).
Proof using Hwf Hm Hplain.
  intros Hd0. pose proof dim_range as Hdim. set (e := replicate 32 false).
  assert (He : forall d, marked e d = false) by (intros; apply marked_none).
  destruct (wf_byday rule Hwf) as [_ Hbd]. destruct (wf_bydate rule Hwf) as [_ Hbt].
  unfold candidate_days, monthday_clause, absent. fold dim.
  destruct (present (bymonthday rule)); cbn [negb andb orb]; destruct (present (byday rule)); cbn [negb andb orb].
  - rewrite mark_monthdays_checked by done. cbn [mbind result_bind].
    destruct (byday_filter_spec (byday rule) (seqZ 1 dim) (monthday_marks dim (bymonthday rule) e) Hbd)
      as (mk & -> & Hl & Hs); [by rewrite length_monthday_marks|apply seqZ_days|apply NoDup_seqZ|].
    exists mk. split; [done|]. split; [done|]. intros d Hd.
    rewrite Hs, monthday_marks_spec, He, bool_decide_eq_true_2, andb_true_r by (done || apply elem_of_seqZ; lia). done.
  - rewrite mark_monthdays_checked by done. eexists; split; [reflexivity|].
    split; [by rewrite length_monthday_marks|]. intros d Hd.
    by rewrite monthday_marks_spec, He, !andb_true_r by done.
  - destruct (mark_bydays_spec (byday rule) e Hbd eq_refl) as (mk & -> & Hl & Hs).
    exists mk. split; [done|]. split; [done|]. intros d Hd. by rewrite Hs, He, andb_true_r by done.
  - destruct (present (bydate rule)); cbn [negb].
    + rewrite mark_bydates_checked by done. eexists; split; [reflexivity|].
      split; [by rewrite length_bydate_marks|].
      intros d Hd. rewrite bydate_marks_spec, He by done. apply bydate_matches_clause.
    + exists (if d0 <=? dim then mark e d0 else e).
      split; [destruct (_ <=? _); [apply store_ok; cbn; lia|done]|].
      split; [by destruct (_ <=? _); rewrite ?length_mark|].
      intros d Hd. destruct (Z.leb_spec d0 dim).
      * rewrite marked_mark, He by (cbn; lia). by rewrite orb_false_r.
      * rewrite He. by replace (d =? d0) with false by lia.
Qed.

Lemma month_day_list_spec d0 :
  1 <= d0 <= 31 ->
  month_day_list ss rule y m d0 = Ok (List.filter (day_selected rule y m d0) (seqZ 1 dim)).
Proof using Hwf Hm Hplain.
  intros Hd0. unfold month_day_list. rewrite days_in_month_eq by done. cbn [mbind result_bind]. fold dim.
  destruct (candidate_days_spec d0 Hd0) as (mk & -> & Hl & Hs). cbn [mbind result_bind].
  set (mk' := if present (bydate rule) && (present (bymonthday rule) || present (byday rule))
              then bydate_filtered rule y m (seqZ 1 dim) mk else mk).
  destruct (filter_bydates_checked (seqZ 1 dim) mk Hl seqZ_days) as [Hf Hfl].
  assert (Hmk : (if present (bydate rule) && (present (bymonthday rule) || present (byday rule))
                 then filter_bydates rule y m (seqZ 1 dim) mk else Ok mk) = Ok mk')
    by (unfold mk'; clear Hs; by destruct (_ && (_ || _))).
  assert (Hl' : length mk' = 32%nat) by (unfold mk'; clear Hs; by destruct (_ && (_ || _))).
  rewrite Hmk. cbn [mbind result_bind]. rewrite marked_days_checked by (done || apply seqZ_days).
  f_equal. apply filter_ext_in. intros d Hd. apply list_elem_of_In, elem_of_seqZ in Hd. unfold mk'.
  unfold day_selected, absent in *. destruct (_ && (_ || _)) eqn:Ef.
  - rewrite bydate_filtered_spec, bool_decide_eq_true_2, Hs, bydate_matches_clause
      by (done || lia || apply seqZ_days || apply elem_of_seqZ; lia).
    destruct (present (bymonthday rule)), (present (byday rule)), (present (bydate rule)); try done;
      cbn [negb andb orb]; by rewrite ?andb_true_r, ?orb_true_r.
  - rewrite Hs by lia.
    destruct (present (bymonthday rule)), (present (byday rule)), (present (bydate rule)); try done;
      cbn [negb andb orb]; by rewrite ?andb_true_r, ?orb_true_r.
Qed.

End MonthDays.

(** ** What the evaluator needs of the clock

    Local wall-clock time in microseconds since 2000-01-01 00:00, as a function
    of the fields. *)
Definition wall (y m d h mi s : Z) : Z :=
  (date2j_civil y m d - 2451545) * USECS_PER_DAY + (h * 3600 + mi * 60 + s) * USECS_PER_SEC.

Definition time_fields (h mi s : Z) : Prop := 0 <= h < 24 /\ 0 <= mi < 60 /\ 0 <= s < 60.

(** A session whose zone has a constant displacement [off] (seconds east):
    conversion in both directions is a shift by it. *)
Class FixedClock (ss : session) (off : Z) : Prop := {
  clock_off : Z.abs off < 86400;
  clock_date2j : forall y m d, 1 <= y -> m <> 0 -> date2j ss y m d = Ok (date2j_civil y m d);
  clock_of_local : forall y m d h mi s,
    1 <= y <= 1000000 -> valid_date y m d -> time_fields h mi s ->
    local_time_to_timestamptz ss y m d h mi s =
      Ok (let t := wall y m d h mi s - off * USECS_PER_SEC in
          if IS_VALID_TIMESTAMP t then Some t else None);
  clock_to_local : forall t,
    IS_VALID_TIMESTAMP t = true -> 0 <= local_jd (utime_of t) off ->
    exists tm, timestamp2tm (session_timezone ss) t = Ok (Some (tm, t mod USECS_PER_SEC, - off)) /\
      -4799 <= tm_year tm <= 300000 /\
      valid_date (tm_year tm) (tm_mon tm) (tm_mday tm) /\ time_fields (tm_hour tm) (tm_min tm) (tm_sec tm) /\
      wall (tm_year tm) (tm_mon tm) (tm_mday tm) (tm_hour tm) (tm_min tm) (tm_sec tm) =
        t - t mod USECS_PER_SEC + off * USECS_PER_SEC
}.

Definition fixed_zone (tz : tzstate) (off : Z) : Prop :=
  wf_state tz /\ ats tz = [] /\ tt_utoff (tti_ tz (defaulttype tz)) = off.

Lemma fixed_zone_utoff tz off t : fixed_zone tz off -> utoff_at tz t = off.
Proof.
  intros (Hwf & Ha & Ho). unfold utoff_at, local_type, timecnt. rewrite Ha. exact Ho.
Qed.

(** No day of a year comes before the first of January. *)
Lemma date2j_civil_first y m d : -4799 <= y -> valid_date y m d -> date2j_civil y 1 0 < date2j_civil y m d.
Proof.
  intros Hy [Hm Hd]. rewrite (date2j_civil_day y m d). destruct (decide (m = 1)) as [->|]; [lia|].
  pose proof (date2j_civil_month_mono y 1 m). pose proof (month_days_range y 1). lia.
Qed.

Lemma civil_positive y m d : 1 <= y -> valid_date y m d -> 1721426 <= date2j_civil y m d.
Proof.
  intros Hy Hv. pose proof (date2j_civil_first y m d ltac:(lia) Hv).
  pose proof (date2j_civil_year_mono 1 y ltac:(lia) Hy) as H1. change (date2j_civil 1 1 0) with 1721425 in H1. lia.
Qed.

Lemma civil_upper y m d : 1 <= y <= 1000000 -> valid_date y m d -> date2j_civil y m d <= 367000000.
Proof.
  intros Hy [Hm Hd]. rewrite date2j_civil_day.
  pose proof (date2j_civil_month_end y m ltac:(lia) Hm) as H1.
  pose proof (date2j_civil_year_mono (y + 1) 1000001 ltac:(lia) ltac:(lia)) as H2.
  change (date2j_civil 1000001 1 0) with 366963925 in H2. lia.
Qed.

Lemma fixed_zone_offset ss tm off :
  fixed_zone (session_timezone ss) off -> 1 <= tm_year tm <= 1000000 ->
  valid_date (tm_year tm) (tm_mon tm) (tm_mday tm) -> time_fields (tm_hour tm) (tm_min tm) (tm_sec tm) ->
  DetermineTimeZoneOffset ss tm (session_timezone ss) = Ok (- off).
Proof.
  intros (Hwf & Ha & Ho) Hy Hv (Hh & Hmi & Hs). pose proof Hv as [Hm Hd].
  pose proof (civil_positive _ _ _ (proj1 Hy) Hv). pose proof (civil_upper _ _ _ Hy Hv).
  unfold DetermineTimeZoneOffset, DetermineTimeZoneOffsetInternal.
  assert (IS_VALID_JULIAN (tm_year tm) (tm_mon tm) = true) as ->
    by (unfold IS_VALID_JULIAN, JULIAN_MINYEAR, JULIAN_MAXYEAR; lia).
  rewrite date2j_plain by lia. cbn [negb mbind result_bind].
  set (j := date2j_civil _ _ _) in *. clearbody j. unfold SECS_PER_DAY, UNIX_EPOCH_JDATE.
  replace (Z.quot ((j - 2440588) * 86400) 86400 =? j - 2440588) with true by lia. cbn [negb].
  do 2 (replace (_ && _) with false by lia).
  unfold pg_next_dst_boundary. cbn [next_dst_fuel]. unfold timecnt. rewrite Ha. cbn [length Z.of_nat Z.eqb].
  by rewrite Ho.
Qed.

(** In such a zone a local time is the wall-clock time minus the offset, when
    that is in the range of timestamps. *)
Lemma fixed_zone_timestamp ss off y m d h mi s :
  fixed_zone (session_timezone ss) off -> Z.abs off < 86400 ->
  1 <= y <= 1000000 -> valid_date y m d -> time_fields h mi s ->
  local_time_to_timestamptz ss y m d h mi s =
    Ok (let t := wall y m d h mi s - off * USECS_PER_SEC in if IS_VALID_TIMESTAMP t then Some t else None).
Proof.
  intros Hz Hoff Hy Hv Ht. unfold local_time_to_timestamptz.
  rewrite (fixed_zone_offset ss _ off) by done. cbn [mbind result_bind].
  pose proof (civil_positive _ _ _ (proj1 Hy) Hv). pose proof (civil_upper _ _ _ Hy Hv).
  destruct Hv as [Hm Hd]. destruct Ht as (Hh & Hmi & Hs). unfold tm2timestamp. cbn [tm_year tm_mon tm_mday tm_hour tm_min tm_sec].
  replace (IS_VALID_JULIAN y m) with true by (unfold IS_VALID_JULIAN, JULIAN_MINYEAR, JULIAN_MAXYEAR; lia).
  rewrite date2j_plain by lia. cbn [negb mbind result_bind]. unfold wall.
  set (j := date2j_civil y m d) in *. clearbody j. unfold time2t, dt2local, POSTGRES_EPOCH_JDATE.
  unfold USECS_PER_DAY, USECS_PER_SEC in *.
  set (p := (j - 2451545) * 86400000000). set (q := (h * 3600 + mi * 60 + s) * 1000000).
  replace (((h * 60 + mi) * 60 + s) * 1000000 + 0) with q by lia.
  assert (0 <= q < 86400000000) by lia. assert (-86400000000000000 <= p) by lia. clearbody p q.
  destruct (bool_decide_reflect (is_int64 p)) as [Hp|Hp]; cbn [negb].
  2:{ replace (IS_VALID_TIMESTAMP _) with false; [done|].
      unfold IS_VALID_TIMESTAMP, END_TIMESTAMP, is_int64, INT64_MIN, INT64_MAX in *. lia. }
  destruct (bool_decide_reflect (is_int64 (p + q))) as [Hq|Hq]; cbn [negb].
  2:{ replace (IS_VALID_TIMESTAMP _) with false; [done|].
      unfold IS_VALID_TIMESTAMP, END_TIMESTAMP, is_int64, INT64_MIN, INT64_MAX in *. lia. }
  replace (p + q - - - off * 1000000) with (p + q - off * 1000000) by lia.
  destruct (decide (is_int64 (p + q - off * 1000000))) as [Hi|Hi]; [rewrite int64_small by done|].
  - by destruct (IS_VALID_TIMESTAMP _).
  - unfold is_int64, int64, IS_VALID_TIMESTAMP, MIN_TIMESTAMP, END_TIMESTAMP, INT64_MIN, INT64_MAX in *. cbn zeta.
    assert (Hx : 9223372036854775807 < p + q - off * 1000000 < 18446744073709551616) by lia.
    rewrite Z.mod_small by lia. replace (_ <=? 9223372036854775807) with false by lia.
    replace ((_ <=? p + q - off * 1000000) && _) with false by lia.
    by replace (-211813488000000000 <=? _) with false by lia.
Qed.

#[export] Instance fixed_zone_clock ss off :
  fixed_zone (session_timezone ss) off -> FixedClock ss off.
Proof.
  intros Hz. pose proof Hz as (Hwf & Ha & Ho).
  assert (Hoff : Z.abs off < 86400) by (rewrite <- Ho; apply (wf_utoff _ Hwf)).
  split; [done|intros; apply date2j_plain; left; lia|..].
  - intros. by apply fixed_zone_timestamp.
  - intros t Hv Hj. pose proof (timestamp2tm_spec (session_timezone ss) t Hwf Hv) as H.
    rewrite (fixed_zone_utoff _ off) in H by done. cbv zeta in H. specialize (H Hj).
    destruct H as (tm & E & Hr & _ & Ed & Et & Hf). exists tm. split; [done|].
    assert (Hj' : 0 <= local_jd (utime_of t) off <= INT_MAX) by (unfold INT_MAX; lia).
    pose proof (j2date_year _ _ _ _ Hj' Ed). destruct (j2date_spec _ _ _ _ Hj' Ed) as (_ & Hvd & He).
    split.
    { split; [done|]. apply Z.nlt_ge. intros Hlt.
      pose proof (date2j_civil_year_mono 300001 (tm_year tm) ltac:(lia) ltac:(lia)) as Hc.
      pose proof (date2j_civil_first (tm_year tm) _ _ ltac:(lia) Hvd) as Hd.
      change (date2j_civil 300001 1 0) with 111294175 in Hc. lia. }
    split; [done|]. split; [exact Hf|]. unfold wall. rewrite He.
    replace (tm_hour tm * 3600 + tm_min tm * 60 + tm_sec tm) with ((utime_of t + off) mod 86400) by lia.
    clear. unfold local_jd, utime_of, USECS_PER_DAY, USECS_PER_SEC. lia.
Qed.

(** ** Specification: the occurrences of a rule *)

(** A time field is in its set, or without the clause that of the start date. *)
Definition sel (has : bool) (set : list bool) (fallback v : Z) : bool :=
  if has then marked set v else v =? fallback.

(** A clause used as a filter. *)
Definition filt (has : bool) (set : list bool) (v : Z) : bool := negb has || marked set v.

Lemma rejected_filt has set v :
  0 <= v < Z.of_nat (length set) -> rejected has set v = Ok (negb (filt has set v)).
Proof. intros Hv. unfold rejected, filt. destruct has; [by rewrite load_marked|done]. Qed.

(** The dates that the search of a period accepts, frequency by frequency. *)
Definition weekday_clause (rule : CalendarRule) (y m d : Z) : bool :=
  existsb (fun b => bd_dow b =? j2day (date2j_civil y m d)) rule.(byday).

Definition period_date (rule : CalendarRule) (tm0 : pg_tm) (y m d : Z) : bool :=
  match rule.(freq) with
  | FREQ_YEARLY =>
      (if rule.(has_bymonth) then marked rule.(bymonth) m
       else present rule.(bydate) || (m =? tm_mon tm0)) &&
      day_selected rule y m (tm_mday tm0) d
  | FREQ_MONTHLY =>
      filt rule.(has_bymonth) rule.(bymonth) m && day_selected rule y m (tm_mday tm0) d
  | FREQ_WEEKLY =>
      filt rule.(has_bymonth) rule.(bymonth) m &&
      (if present rule.(byday) then weekday_clause rule y m d
       else j2day (date2j_civil y m d) =?
            j2day (date2j_civil (tm_year tm0) (tm_mon tm0) (tm_mday tm0)))
  | _ =>
      filt rule.(has_bymonth) rule.(bymonth) m &&
      (absent rule.(bymonthday) || monthday_clause rule y m d) &&
      (absent rule.(byday) || weekday_clause rule y m d) &&
      (absent rule.(bydate) || bydate_matches rule y m d)
  end.

Definition time_selected (rule : CalendarRule) (tm0 : pg_tm) (h mi s : Z) : bool :=
  let hour_filter := filt rule.(has_byhour) rule.(byhour) h in
  let minute_filter := filt rule.(has_byminute) rule.(byminute) mi in
  let second_filter := filt rule.(has_bysecond) rule.(bysecond) s in
  let hour_sel := sel rule.(has_byhour) rule.(byhour) (tm_hour tm0) h in
  let minute_sel := sel rule.(has_byminute) rule.(byminute) (tm_min tm0) mi in
  let second_sel := sel rule.(has_bysecond) rule.(bysecond) (tm_sec tm0) s in
  match rule.(freq) with
  | FREQ_HOURLY => hour_filter && minute_sel && second_sel
  | FREQ_MINUTELY => hour_filter && minute_filter && second_sel
  | FREQ_SECONDLY => hour_filter && minute_filter && second_filter
  | _ => hour_sel && minute_sel && second_sel
  end.

(** Period [k] of the rule; [w0] is the wall-clock time of the start date. *)
Definition in_period (rule : CalendarRule) (tm0 : pg_tm) (w0 k y m d h mi s : Z) : Prop :=
  let n := k * rule.(interval) in
  let j0 := date2j_civil (tm_year tm0) (tm_mon tm0) (tm_mday tm0) in
  match rule.(freq) with
  | FREQ_YEARLY => y = tm_year tm0 + n
  | FREQ_MONTHLY => y * 12 + m = tm_year tm0 * 12 + tm_mon tm0 + n
  | FREQ_WEEKLY => j0 + 7 * n <= date2j_civil y m d < j0 + 7 * n + 7
  | FREQ_DAILY => date2j_civil y m d = j0 + n
  | FREQ_HOURLY => wall y m d h 0 0 <= w0 + n * USECS_PER_HOUR < wall y m d h 0 0 + USECS_PER_HOUR
  | FREQ_MINUTELY => wall y m d h mi 0 <= w0 + n * USECS_PER_MINUTE < wall y m d h mi 0 + USECS_PER_MINUTE
  | FREQ_SECONDLY => wall y m d h mi s <= w0 + n * USECS_PER_SEC < wall y m d h mi s + USECS_PER_SEC
  end.

(** A date satisfies every clause that is present. *)
Definition date_clauses (rule : CalendarRule) (y m d : Z) : bool :=
  filt rule.(has_bymonth) rule.(bymonth) m &&
  (absent rule.(bymonthday) || monthday_clause rule y m d) &&
  (absent rule.(byday) || existsb (byday_entry y m d) rule.(byday)) &&
  (absent rule.(bydate) || bydate_clause rule y m d).

(** The components of the date that neither the period nor a clause determines
    are those of the start date: the month (YEARLY) and the day (YEARLY,
    MONTHLY), or the day of the week (WEEKLY). *)
Definition date_inherited (rule : CalendarRule) (tm0 : pg_tm) (y m d : Z) : bool :=
  let day_clause := present rule.(bymonthday) || present rule.(byday) || present rule.(bydate) in
  match rule.(freq) with
  | FREQ_YEARLY =>
      (rule.(has_bymonth) || present rule.(bydate) || (m =? tm_mon tm0)) && (day_clause || (d =? tm_mday tm0))
  | FREQ_MONTHLY => day_clause || (d =? tm_mday tm0)
  | FREQ_WEEKLY =>
      day_clause || (weekday (date2j_civil y m d) =?
                     weekday (date2j_civil (tm_year tm0) (tm_mon tm0) (tm_mday tm0)))
  | _ => true
  end.

Definition date_selected (rule : CalendarRule) (tm0 : pg_tm) (y m d : Z) : bool :=
  date_clauses rule y m d && date_inherited rule tm0 y m d.

(** [t] is the time of a date and a time of day that belong to period [k], the
    date accepted by [date] and the time of day by the time clauses. *)
Definition time_of_period (date : CalendarRule -> pg_tm -> Z -> Z -> Z -> bool)
    (off : Z) (rule : CalendarRule) (tm0 : pg_tm) (start k t : Z) : Prop :=
  exists y m d h mi s,
    1 <= y /\ valid_date y m d /\ time_fields h mi s /\
    in_period rule tm0 (start + off * USECS_PER_SEC) k y m d h mi s /\
    date rule tm0 y m d = true /\ time_selected rule tm0 h mi s = true /\
    t = wall y m d h mi s - off * USECS_PER_SEC /\ IS_VALID_TIMESTAMP t = true.

(** An occurrence of the rule in period [k], and a time that the search of the
    period accepts. *)
Definition occurrence := time_of_period date_selected.
Definition searched := time_of_period period_date.

(** A weekly rule has neither BYMONTHDAY nor BYDATE. *)
Definition weekly_plain (rule : CalendarRule) : Prop :=
  freq rule = FREQ_WEEKLY -> bymonthday rule = [] /\ bydate rule = [].

(** Without ordinals, a BYDAY entry is its weekday. *)
Lemma byday_entry_plain rule y m d :
  byday_has_ord rule = existsb has_ordinal (byday rule) -> byday_has_ord rule = false ->
  existsb (byday_entry y m d) (byday rule) = weekday_clause rule y m d.
Proof.
  intros -> H. unfold weekday_clause. induction (byday rule) as [|b l IH]; [done|]. cbn [existsb] in *.
  apply orb_false_iff in H as [Hb H]. rewrite IH by done. f_equal. unfold byday_entry, has_ordinal in *.
  apply negb_false_iff in Hb. rewrite Hb, <- j2day_weekday, Z.eqb_sym. by rewrite !orb_true_l, andb_true_r.
Qed.

(** The search accepts the dates that satisfy the clauses. *)
Lemma period_date_selected rule tm0 y m d :
  rule_wf rule -> ordinals_ok rule -> weekly_plain rule ->
  period_date rule tm0 y m d = date_selected rule tm0 y m d.
Proof.
  intros Hwf Ho Hw. pose proof (byday_entry_plain rule y m d (wf_byday_ord rule Hwf)) as Hb.
  unfold ordinals_ok, weekly_plain in *.
  unfold period_date, date_selected, date_clauses, date_inherited, day_selected, filt, absent.
  rewrite ?bydate_matches_clause, ?j2day_weekday.
  destruct (freq rule).
  1-2: by destruct (has_bymonth rule), (marked (bymonth rule) m), (present (bymonthday rule)), (present (byday rule)),
    (present (bydate rule)), (monthday_clause rule y m d), (existsb (byday_entry y m d) (byday rule)),
    (bydate_clause rule y m d), (m =? tm_mon tm0), (d =? tm_mday tm0).
  all: rewrite Hb by (destruct (byday_has_ord rule); [by destruct Ho|done]).
  { destruct Hw as [-> ->]; [done|]. cbn [present length Nat.eqb negb orb andb]. rewrite !andb_true_r.
    by destruct (negb _ || _), (present (byday rule)), (weekday_clause rule y m d). }
  all: by rewrite andb_true_r.
Qed.

Lemma searched_occurrence off rule tm0 start k t :
  rule_wf rule -> ordinals_ok rule -> weekly_plain rule ->
  searched off rule tm0 start k t <-> occurrence off rule tm0 start k t.
Proof.
  intros Hwf Ho Hw. unfold searched, occurrence, time_of_period.
  by setoid_rewrite (fun y m d => period_date_selected rule tm0 y m d Hwf Ho Hw).
Qed.

(** ** Ascending lists *)

Definition ascending (l : list Z) : Prop := StronglySorted Z.lt l.

Lemma sorted_flat_map {A B} (R : A -> A -> Prop) (S : B -> B -> Prop) (f : A -> list B) l :
  StronglySorted R l -> (forall x, In x l -> StronglySorted S (f x)) ->
  (forall x y a b, In x l -> In y l -> R x y -> In a (f x) -> In b (f y) -> S a b) ->
  StronglySorted S (flat_map f l).
Proof.
  induction 1 as [|x l Hl IH Hx]; intros Hf Hc; [constructor|]. cbn [flat_map].
  assert (Happ : forall u v, StronglySorted S u -> StronglySorted S v ->
            (forall a b, In a u -> In b v -> S a b) -> StronglySorted S (u ++ v)).
  { clear. intros u v Hu Hv Huv. induction Hu as [|a u Hu IH Ha]; [done|]. cbn [app]. constructor.
    - apply IH. intros; apply Huv; [by right|done].
    - apply Forall_app. split; [done|]. apply Forall_forall. intros b Hb. apply Huv; [by left|done]. }
  apply Happ.
  - apply Hf. by left.
  - apply IH; [intros; apply Hf; by right|]. intros x' y a b Hx' Hy HR Ha Hb. apply (Hc x' y); [by right|by right|done..].
  - intros a b Ha Hb. apply in_flat_map in Hb as (y & Hy & Hb).
    rewrite Forall_forall in Hx. eapply (Hc x y); [by left|by right|by apply Hx|done|done].
Qed.

Lemma sorted_map {A B} (R : A -> A -> Prop) (S : B -> B -> Prop) (f : A -> B) l :
  StronglySorted R l -> (forall x y, R x y -> S (f x) (f y)) -> StronglySorted S (map f l).
Proof.
  induction 1 as [|x l Hl IH Hx]; intros Hf; cbn; constructor; [by apply IH|].
  apply List.Forall_map. eapply Forall_weaken; [exact Hx|]. intros y. apply Hf.
Qed.

Lemma sorted_filter {A} (R : A -> A -> Prop) (f : A -> bool) l :
  StronglySorted R l -> StronglySorted R (List.filter f l).
Proof.
  induction 1 as [|x l Hl IH Hx]; cbn; [constructor|]. destruct (f x); [|done]. constructor; [done|].
  rewrite Forall_forall in Hx |- *. intros y Hy. apply filter_In in Hy as [Hy _]. by apply Hx.
Qed.

Lemma indices_ascending set : forall i, ascending (indices set i).
Proof.
  induction set as [|b set IH]; intros i; cbn [indices]; [constructor|].
  destruct b; cbn [app]; [|apply IH]. constructor; [apply IH|].
  apply Forall_forall. intros x Hx. apply indices_range in Hx. lia.
Qed.

Lemma seqZ_ascending n : forall i, ascending (seqZ i (Z.of_nat n)).
Proof.
  induction n as [|n IH]; intros i; [constructor|]. rewrite seqZ_cons by lia.
  replace (Z.pred (Z.of_nat (S n))) with (Z.of_nat n) by lia. constructor; [apply IH|].
  apply Forall_forall. intros x Hx. apply list_elem_of_In, elem_of_seqZ in Hx. lia.
Qed.

Lemma marked_indices set v : 0 <= v -> In v (indices set 0) <-> marked set v = true.
Proof.
  intros Hv. rewrite indices_spec, Z.sub_0_r. unfold marked. rewrite nth_lookup.
  destruct (set !! Z.to_nat v) as [[]|]; cbn; naive_solver.
Qed.

Lemma set_to_list_spec set has fb v :
  0 <= v -> In v (set_to_list set has fb) <-> sel has set fb v = true.
Proof.
  intros Hv. unfold set_to_list, sel. destruct has; [by apply marked_indices|].
  rewrite Z.eqb_eq. cbn. split; [by intros [->|[]]|by left].
Qed.

Lemma set_to_list_ascending set has fb : ascending (set_to_list set has fb).
Proof. unfold set_to_list. destruct has; [apply indices_ascending|]. repeat constructor. Qed.

Lemma set_to_list_range set has fb n :
  length set = n -> 0 <= fb < Z.of_nat n -> Forall (fun v => 0 <= v < Z.of_nat n) (set_to_list set has fb).
Proof.
  intros Hl Hf. unfold set_to_list. destruct has; [|by constructor; [|constructor]].
  apply Forall_forall. intros v Hv. apply indices_range in Hv. lia.
Qed.

Definition clock_lt (a b : Z * Z * Z) : Prop :=
  let '(h, mi, s) := a in let '(h', mi', s') := b in
  h * 3600 + mi * 60 + s < h' * 3600 + mi' * 60 + s'.

Lemma nested_times_sorted hs ms ss :
  ascending hs -> ascending ms -> ascending ss ->
  Forall (fun v => 0 <= v < 60) ms -> Forall (fun v => 0 <= v < 60) ss ->
  StronglySorted clock_lt (nested_times hs ms ss).
Proof.
  intros Hh Hm Hs Rm Rs. rewrite Forall_forall in Rm, Rs. unfold nested_times.
  eapply sorted_flat_map; [exact Hh| |].
  - intros h _. eapply sorted_flat_map; [exact Hm| |].
    + intros mi _. eapply sorted_map; [exact Hs|]. intros x y Hlt. unfold clock_lt. lia.
    + intros x y a b _ _ Hlt Ha Hb. apply in_map_iff in Ha as (s1 & <- & H1). apply in_map_iff in Hb as (s2 & <- & H2).
      apply Rs in H1, H2. unfold clock_lt. lia.
  - intros x y a b _ _ Hlt Ha Hb. apply in_flat_map in Ha as (m1 & M1 & Ha). apply in_flat_map in Hb as (m2 & M2 & Hb).
    apply in_map_iff in Ha as (s1 & <- & H1). apply in_map_iff in Hb as (s2 & <- & H2).
    apply Rs in H1, H2. apply Rm in M1, M2. unfold clock_lt. lia.
Qed.

Lemma nested_times_in hs ms ss h mi s :
  In (h, mi, s) (nested_times hs ms ss) <-> In h hs /\ In mi ms /\ In s ss.
Proof.
  unfold nested_times. rewrite in_flat_map. setoid_rewrite in_flat_map. setoid_rewrite in_map_iff.
  split.
  - intros (h' & Hh & mi' & Hm & s' & E & Hs). by simplify_eq.
  - intros (Hh & Hm & Hs). exists h. split; [done|]. exists mi. split; [done|]. by exists s.
Qed.

(** ** Lengths of runs of years and months *)

Lemma year_span y n : -4799 <= y -> 0 <= n -> date2j_civil (y + n) 1 0 <= date2j_civil y 1 0 + 366 * n.
Proof.
  intros Hy Hn. pattern n. apply natlike_ind; [rewrite Z.add_0_r; lia| |done]. clear n Hn. intros n Hn IH.
  replace (y + Z.succ n) with (y + n + 1) by lia. rewrite date2j_civil_year by lia.
  rewrite (date2j_civil_hi (y + n) 12), (date2j_civil_lo (y + n) 1) in * by lia.
  replace (y + n + 4800) with (y + n + 4799 + 1) by lia. unfold leap_days in *. lia.
Qed.

(** First day (minus one) of the month with index [i], counted from year 0. *)
Definition month_start (i : Z) : Z := date2j_civil (i / 12) (i mod 12 + 1) 0.

Lemma month_span i n : 0 <= i -> 0 <= n -> month_start (i + n) <= month_start i + 31 * n.
Proof.
  intros Hi Hn. pattern n. apply natlike_ind; [rewrite Z.add_0_r; lia| |done]. clear n Hn. intros n Hn IH.
  enough (month_start (i + Z.succ n) <= month_start (i + n) + 31) by lia. clear IH.
  replace (i + Z.succ n) with (i + n + 1) by lia. set (j := i + n). assert (Hj : 0 <= j) by lia. unfold month_start.
  destruct (decide (j mod 12 = 11)) as [E|E].
  - replace ((j + 1) / 12) with (j / 12 + 1) by lia. replace ((j + 1) mod 12) with 0 by lia.
    rewrite E. change (0 + 1) with 1. change (11 + 1) with 12. rewrite date2j_civil_year by lia. lia.
  - replace ((j + 1) / 12) with (j / 12) by lia. replace ((j + 1) mod 12 + 1) with (j mod 12 + 1 + 1) by lia.
    rewrite date2j_civil_month by lia. pose proof (month_days_range (j / 12) (j mod 12 + 1)). lia.
Qed.

Lemma month_start_eq y m d : 1 <= m <= 12 -> date2j_civil y m d = month_start (y * 12 + m - 1) + d.
Proof.
  intros Hm. unfold month_start. replace ((y * 12 + m - 1) / 12) with y by lia.
  replace ((y * 12 + m - 1) mod 12 + 1) with m by lia. apply date2j_civil_day.
Qed.

(** ** Evaluation in a fixed-offset zone *)

Section Evaluation.

Context (ss : session) (off : Z) {clock : FixedClock ss off}.
Context (rule : CalendarRule) (Hwf : rule_wf rule).
Context (tm0 : pg_tm) (start after : Z).
Hypothesis Hdate0 : valid_date (tm_year tm0) (tm_mon tm0) (tm_mday tm0).
Hypothesis Htime0 : time_fields (tm_hour tm0) (tm_min tm0) (tm_sec tm0).
Hypothesis Hyear0 : 1 <= tm_year tm0 <= 300000.

Definition acceptable (t : Z) : Prop := after < t /\ start <= t.

(** [r] is the least acceptable element of [C], if there is any. *)
Definition least (C : Z -> Prop) (r : option Z) : Prop :=
  match r with
  | Some t => C t /\ acceptable t /\ forall t', C t' -> acceptable t' -> t <= t'
  | None => forall t', C t' -> ~ acceptable t'
  end.

Lemma least_ext C D r : (forall t, C t <-> D t) -> least C r -> least D r.
Proof. destruct r as [t|]; cbn; naive_solver. Qed.

Lemma least_empty C : (forall t, ~ C t) -> least C None.
Proof. cbn. naive_solver. Qed.

(** The first part already has an acceptable element: later ones do not count. *)
Lemma least_here C D t :
  least C (Some t) -> (forall t1 t2, C t1 -> D t2 -> t1 < t2) -> least (fun t => C t \/ D t) (Some t).
Proof.
  intros (Hc & Ha & Hl) Hlt. split; [by left|]. split; [done|].
  intros t' [H|H] Ht'; [by apply Hl|]. specialize (Hlt t t' Hc H). lia.
Qed.

Lemma least_later C D r : least C None -> least D r -> least (fun t => C t \/ D t) r.
Proof.
  intros Hn. destruct r as [t|]; cbn in *.
  - intros (Hc & Ha & Hl). split; [by right|]. split; [done|].
    intros t' [H|H] Ht'; [by destruct (Hn t')|by apply Hl].
  - intros Hd t' [H|H]; [by apply Hn|by apply Hd].
Qed.

(** Candidates of one date at the times [ts]. *)
Definition at_times (y m d : Z) (ts : list (Z * Z * Z)) (t : Z) : Prop :=
  exists h mi s, In (h, mi, s) ts /\ t = wall y m d h mi s - off * USECS_PER_SEC /\ IS_VALID_TIMESTAMP t = true.

Lemma scan_loop_least y m d ts :
  1 <= y <= 1000000 -> valid_date y m d ->
  StronglySorted clock_lt ts -> Forall (fun '(h, mi, s) => time_fields h mi s) ts ->
  exists r, scan_loop ss y m d ts start after None = Ok r /\ least (at_times y m d ts) r.
Proof.
  intros Hy Hv Hs Hf. induction Hs as [|[[h mi] s] ts Hs IH Hlt].
  { exists None. split; [done|]. apply least_empty. intros t (h & mi & s & [] & _). }
  inversion Hf as [|? ? Hf1 Hf2]; subst. destruct (IH Hf2) as (r & E & Hl). clear IH.
  assert (Hext : forall t, (t = wall y m d h mi s - off * USECS_PER_SEC /\ IS_VALID_TIMESTAMP t = true) \/
                           at_times y m d ts t <-> at_times y m d ((h, mi, s) :: ts) t).
  { intros t. unfold at_times. split.
    - intros [[H1 H2]|(h' & mi' & s' & Hi & H1 & H2)]; [exists h, mi, s|exists h', mi', s']; cbn; auto.
    - intros (h' & mi' & s' & [[= <- <- <-]|Hi] & H1 & H2); [by left|right]. by exists h', mi', s'. }
  cbn [scan_loop]. rewrite (clock_of_local y m d h mi s Hy Hv Hf1). cbn [mbind result_bind]. cbv zeta.
  set (t0 := wall y m d h mi s - off * USECS_PER_SEC) in *.
  destruct (IS_VALID_TIMESTAMP t0) eqn:Ev.
  - unfold consider_candidate. destruct ((t0 <=? after) || (t0 <? start)) eqn:Ea.
    + exists r. split; [done|]. eapply least_ext; [exact Hext|]. apply least_later; [|done].
      intros t' [-> _] [? ?]. lia.
    + exists (Some t0). split; [done|]. eapply least_ext; [exact Hext|]. apply least_here.
      * split; [done|]. split; [unfold acceptable; lia|]. intros t' [-> _] _. lia.
      * intros t1 t2 [-> _] (h' & mi' & s' & Hi & -> & _). rewrite Forall_forall in Hlt. specialize (Hlt _ Hi).
        cbn in Hlt. unfold t0, wall, USECS_PER_SEC. lia.
  - exists r. split; [done|]. eapply least_ext; [exact Hext|]. apply least_later; [|done].
    intros t' [-> Hx]. congruence.
Qed.

(** The three lists of [scan_times_on_date]. *)
Definition fixed_or (fixed : Z) (set : list bool) (has : bool) (fb v : Z) : bool :=
  if 0 <=? fixed then v =? fixed else sel has set fb v.

Definition on_date (y m d hf mf sf t : Z) : Prop :=
  exists h mi s, time_fields h mi s /\
    fixed_or hf (byhour rule) (has_byhour rule) (tm_hour tm0) h = true /\
    fixed_or mf (byminute rule) (has_byminute rule) (tm_min tm0) mi = true /\
    fixed_or sf (bysecond rule) (has_bysecond rule) (tm_sec tm0) s = true /\
    t = wall y m d h mi s - off * USECS_PER_SEC /\ IS_VALID_TIMESTAMP t = true.

Lemma fixed_list fixed set has fb n :
  length set = n -> 0 <= fb < Z.of_nat n -> fixed < Z.of_nat n ->
  let l := if 0 <=? fixed then [fixed] else set_to_list set has fb in
  ascending l /\ Forall (fun v => 0 <= v < Z.of_nat n) l /\
  forall v, 0 <= v -> In v l <-> fixed_or fixed set has fb v = true.
Proof.
  intros Hl Hf Hx. cbn zeta. unfold fixed_or. destruct (Z.leb_spec 0 fixed).
  - split; [repeat constructor|]. split; [by constructor; [lia|constructor]|].
    intros v Hv. rewrite Z.eqb_eq. cbn. split; [by intros [->|[]]|by left].
  - split; [apply set_to_list_ascending|]. split; [by apply set_to_list_range|].
    intros v Hv. by apply set_to_list_spec.
Qed.

Lemma scan_times_least y m d hf mf sf :
  1 <= y <= 1000000 -> valid_date y m d -> hf < 24 -> mf < 60 -> sf < 60 ->
  exists r, scan_times_on_date ss rule y m d hf mf sf tm0 start after None = Ok r /\
    least (on_date y m d hf mf sf) r.
Proof.
  intros Hy Hv Hhf Hmf Hsf. destruct (wf_times rule Hwf) as (Lh & Lm & Ls). destruct Htime0 as (Rh & Rm & Rs).
  destruct (fixed_list hf (byhour rule) (has_byhour rule) (tm_hour tm0) 24 Lh Rh Hhf) as (Ah & Fh & Eh).
  destruct (fixed_list mf (byminute rule) (has_byminute rule) (tm_min tm0) 60 Lm Rm Hmf) as (Am & Fm & Em).
  destruct (fixed_list sf (bysecond rule) (has_bysecond rule) (tm_sec tm0) 60 Ls Rs Hsf) as (As & Fs & Es).
  unfold scan_times_on_date. cbn zeta.
  set (hs := if 0 <=? hf then _ else _) in *. set (ms := if 0 <=? mf then _ else _) in *.
  set (sl := if 0 <=? sf then _ else _) in *.
  pose proof Fh as Fh'. pose proof Fm as Fm'. pose proof Fs as Fs'. rewrite Forall_forall in Fh', Fm', Fs'.
  destruct (scan_loop_least y m d (nested_times hs ms sl) Hy Hv) as (r & E & Hl).
  - by apply nested_times_sorted.
  - apply Forall_forall. intros [[h mi] s] Hi. apply nested_times_in in Hi as (H1 & H2 & H3).
    apply Fh' in H1. apply Fm' in H2. apply Fs' in H3. done.
  - exists r. split; [done|]. eapply least_ext; [|exact Hl]. intros t. split.
    + intros (h & mi & s & Hi & H1 & H2). apply nested_times_in in Hi as (I1 & I2 & I3).
      pose proof (Fh' _ I1). pose proof (Fm' _ I2). pose proof (Fs' _ I3).
      exists h, mi, s. split; [done|]. rewrite <- Eh, <- Em, <- Es by lia. done.
    + intros (h & mi & s & (T1 & T2 & T3) & I1 & I2 & I3 & H1 & H2).
      exists h, mi, s. rewrite nested_times_in, Eh, Em, Es by lia. done.
Qed.

Lemma wall_day y m d h mi s :
  time_fields h mi s ->
  (date2j_civil y m d - 2451545) * USECS_PER_DAY <= wall y m d h mi s
    < (date2j_civil y m d - 2451544) * USECS_PER_DAY.
Proof. intros (? & ? & ?). unfold wall, USECS_PER_DAY, USECS_PER_SEC. lia. Qed.

Lemma on_date_lt y m d hf mf sf y' m' d' hf' mf' sf' t t' :
  date2j_civil y m d < date2j_civil y' m' d' ->
  on_date y m d hf mf sf t -> on_date y' m' d' hf' mf' sf' t' -> t < t'.
Proof.
  intros Hlt (h & mi & s & Ht & _ & _ & _ & -> & _) (h' & mi' & s' & Ht' & _ & _ & _ & -> & _).
  pose proof (wall_day y m d h mi s Ht). pose proof (wall_day y' m' d' h' mi' s' Ht').
  unfold USECS_PER_DAY in *. lia.
Qed.

Abbreviation any_time y m d := (on_date y m d (-1) (-1) (-1)).

Lemma scan_days_least y m days :
  1 <= y <= 1000000 -> ascending days -> Forall (fun d => valid_date y m d) days ->
  exists r, scan_days ss rule y m days tm0 start after None = Ok r /\
    least (fun t => exists d, In d days /\ any_time y m d t) r.
Proof.
  intros Hy Ha Hv. induction Ha as [|d days Ha IH Hlt].
  { exists None. split; [done|]. apply least_empty. by intros t (d & [] & _). }
  inversion Hv as [|? ? Hd Hv']; subst. destruct (IH Hv') as (r & E & Hl).
  assert (Hext : forall t, any_time y m d t \/ (exists d, In d days /\ any_time y m d t) <->
                           exists d', In d' (d :: days) /\ any_time y m d' t).
  { intros t. split; [intros [?|(x & ? & ?)]; eexists; cbn; eauto|]. intros (x & [->|?] & ?); eauto. }
  cbn [scan_days]. destruct (scan_times_least y m d (-1) (-1) (-1) Hy Hd) as (r1 & -> & Hl1); try lia.
  cbn [mbind result_bind]. destruct r1 as [t|].
  - exists (Some t). split; [by destruct days|]. eapply least_ext; [exact Hext|]. apply least_here; [done|].
    intros t1 t2 H1 (d' & Hi & H2). rewrite Forall_forall in Hlt. specialize (Hlt d' Hi).
    eapply on_date_lt; [|exact H1|exact H2]. rewrite (date2j_civil_day y m d), (date2j_civil_day y m d'). lia.
  - exists r. split; [done|]. eapply least_ext; [exact Hext|]. by apply least_later.
Qed.

(** The days of a month that [month_day_list] finds, scanned. *)
Definition in_month (y m t : Z) : Prop :=
  exists d, valid_date y m d /\ day_selected rule y m (tm_mday tm0) d = true /\ any_time y m d t.

Lemma scan_month_least y m :
  1 <= y <= 1000000 -> 1 <= m <= 12 ->
  exists days r, month_day_list ss rule y m (tm_mday tm0) = Ok days /\
    scan_days ss rule y m days tm0 start after None = Ok r /\ least (in_month y m) r.
Proof.
  intros Hy Hm. eexists. destruct Hdate0 as [Hm0 Hd0]. pose proof (month_days_range (tm_year tm0) (tm_mon tm0) Hm0).
  pose proof (month_days_range y m Hm).
  setoid_rewrite (month_day_list_spec ss rule y m Hwf Hm);
    [|intros d; apply (clock_date2j y m d); lia|lia].
  set (days := List.filter _ _).
  assert (Hin : forall d, In d days <-> valid_date y m d /\ day_selected rule y m (tm_mday tm0) d = true).
  { intros d. unfold days. rewrite filter_In, <- list_elem_of_In, elem_of_seqZ. unfold valid_date.
    split; intros [? ?]; (split; [lia|done]). }
  destruct (scan_days_least y m days Hy) as (r & E & Hl).
  - apply sorted_filter. rewrite <- (Z2Nat.id (month_days y m)) by lia. apply seqZ_ascending.
  - apply Forall_forall. intros d Hd. by apply Hin.
  - exists r. split; [reflexivity|]. split; [exact E|]. eapply least_ext; [|exact Hl]. intros t.
    unfold in_month. split; intros (d & H1); exists d; rewrite Hin in *; naive_solver.
Qed.

Lemma scan_months_least y months :
  1 <= y <= 1000000 -> ascending months -> Forall (fun m => 1 <= m <= 12) months ->
  exists r, scan_months ss rule y months tm0 start after None = Ok r /\
    least (fun t => exists m, In m months /\ in_month y m t) r.
Proof.
  intros Hy Ha Hr. induction Ha as [|m months Ha IH Hlt].
  { exists None. split; [done|]. apply least_empty. by intros t (m & [] & _). }
  inversion Hr as [|? ? Hm Hr']; subst. destruct (IH Hr') as (r & E & Hl).
  assert (Hext : forall t, in_month y m t \/ (exists m, In m months /\ in_month y m t) <->
                           exists m', In m' (m :: months) /\ in_month y m' t).
  { intros t. split; [intros [?|(x & ? & ?)]; eexists; cbn; eauto|]. intros (x & [->|?] & ?); eauto. }
  cbn [scan_months]. destruct (scan_month_least y m Hy Hm) as (days & r1 & -> & E1 & Hl1).
  cbn [mbind result_bind]. rewrite E1. cbn [mbind result_bind]. destruct r1 as [t|].
  - exists (Some t). split; [done|]. eapply least_ext; [exact Hext|]. apply least_here; [done|].
    intros t1 t2 (d1 & V1 & _ & H1) (m' & Hi & d2 & V2 & _ & H2). rewrite Forall_forall in Hlt. specialize (Hlt m' Hi).
    eapply on_date_lt; [|exact H1|exact H2]. apply date2j_civil_lt; [lia|lia|done|done|]. right. split; [done|]. by left.
  - exists r. split; [done|]. eapply least_ext; [exact Hext|]. by apply least_later.
Qed.

(** The frequencies that enumerate dates. *)
Definition date_freq : bool :=
  match freq rule with FREQ_YEARLY | FREQ_MONTHLY | FREQ_WEEKLY | FREQ_DAILY => true | _ => false end.

Lemma occurrence_dates k t :
  date_freq = true ->
  searched off rule tm0 start k t <->
  exists y m d, 1 <= y /\ valid_date y m d /\
    in_period rule tm0 (start + off * USECS_PER_SEC) k y m d 0 0 0 /\
    period_date rule tm0 y m d = true /\ any_time y m d t.
Proof.
  intros Hf. unfold searched, time_of_period, on_date, fixed_or, time_selected, in_period, date_freq in *.
  change (0 <=? -1) with false. cbn match.
  split.
  - intros (y & m & d & h & mi & s & H1 & H2 & H3 & H4 & H5 & H6 & H7).
    exists y, m, d. split; [done|]. split; [done|]. split; [by destruct (freq rule)|]. split; [done|].
    exists h, mi, s. split; [done|]. destruct (freq rule); try done; split_bool; done.
  - intros (y & m & d & H1 & H2 & H4 & H5 & h & mi & s & H3 & Sh & Sm & Sx & H7).
    exists y, m, d, h, mi, s. split; [done|]. split; [done|]. split; [done|].
    split; [by destruct (freq rule)|]. split; [done|]. split; [|done].
    rewrite Sh, Sm, Sx. by destruct (freq rule).
Qed.

Lemma yearly_least k :
  freq rule = FREQ_YEARLY -> 0 <= k * interval rule <= 690000 ->
  exists r, yearly_period ss rule tm0 start after k = Ok r /\ least (searched off rule tm0 start k) r.
Proof.
  intros Hf Hk. unfold yearly_period. rewrite int32_small by (unfold is_int32, INT_MIN, INT_MAX; lia).
  set (y := tm_year tm0 + k * interval rule). set (months := if has_bymonth rule then _ else _).
  assert (Hmonths : ascending months /\ (forall m, In m months <-> 1 <= m <= 12 /\
     (if has_bymonth rule then marked (bymonth rule) m else present (bydate rule) || (m =? tm_mon tm0)) = true)).
  { destruct Hdate0 as [Hm0 _]. unfold months. destruct (has_bymonth rule); [|destruct (present (bydate rule))].
    - split; [apply indices_ascending|]. intros m. cbn [set_to_list]. unfold set_to_list.
      split; [|intros [? ?]; by apply marked_indices; [lia|]].
      intros Hi. pose proof (indices_month rule Hwf) as Hr. rewrite Forall_forall in Hr. specialize (Hr m Hi). cbn in Hr.
      split; [lia|]. by apply marked_indices; [lia|].
    - split; [apply (seqZ_ascending 12)|]. intros m. rewrite <- list_elem_of_In, elem_of_seqZ. cbn. split; [split; [lia|done]|lia].
    - split; [repeat constructor|]. intros m. cbn [orb In]. rewrite Z.eqb_eq. split; [by intros [<-|[]]|naive_solver]. }
  destruct Hmonths as [Ha Hin].
  destruct (scan_months_least y months) as (r & E & Hl); [lia|done|apply Forall_forall; intros m Hi; by apply Hin|].
  exists r. split; [done|]. eapply least_ext; [|exact Hl]. intros t.
  rewrite occurrence_dates by (unfold date_freq; by rewrite Hf). unfold in_period, period_date, in_month. rewrite Hf. split.
  - intros (m & Hi & d & Hv & Hs & Ho). apply Hin in Hi as [Hm Hi]. exists y, m, d. rewrite Hi, Hs. split; [lia|]. done.
  - intros (y' & m & d & Hy' & Hv & -> & Hs & Ho). split_bool. exists m. rewrite Hin. split; [|by exists d].
    split; [by destruct Hv|done].
Qed.

Lemma monthly_least k :
  freq rule = FREQ_MONTHLY -> 0 <= k * interval rule <= 8000000 ->
  exists r, monthly_period ss rule tm0 start after k = Ok r /\ least (searched off rule tm0 start k) r.
Proof.
  intros Hf Hk. unfold monthly_period, monthly_index. destruct Hdate0 as [Hm0 _].
  set (i := tm_year tm0 * 12 + (tm_mon tm0 - 1) + k * interval rule).
  assert (Hi : 12 <= i <= 11700000) by lia.
  rewrite !int32_small by (unfold is_int32, INT_MIN, INT_MAX; lia).
  rewrite Z.quot_div_nonneg, Z.rem_mod_nonneg by lia.
  assert (Hocc : forall t, searched off rule tm0 start k t <->
    filt (has_bymonth rule) (bymonth rule) (i mod 12 + 1) = true /\ in_month (i / 12) (i mod 12 + 1) t).
  { intros t. rewrite occurrence_dates by (unfold date_freq; by rewrite Hf).
    unfold in_period, period_date, in_month. rewrite Hf. split.
    - intros (y & m & d & Hy & Hv & Hp & Hs & Ho). destruct Hv as [Hm Hd].
      assert (y = i / 12 /\ m = i mod 12 + 1) as [-> ->] by lia. split_bool. split; [done|]. by exists d.
    - intros (Hfl & d & Hv & Hs & Ho). exists (i / 12), (i mod 12 + 1), d. rewrite Hfl, Hs.
      split; [lia|]. split; [done|]. split; [lia|]. done. }
  destruct (wf_bymonth rule Hwf) as [Hlm _]. rewrite rejected_filt by lia. cbn [mbind result_bind].
  destruct (filt _ _ _) eqn:Eb; cbn [negb]; cycle 1.
  - exists None. split; [done|]. apply least_empty. intros t Ht. apply Hocc in Ht as [Ht _]. done.
  - destruct (scan_month_least (i / 12) (i mod 12 + 1)) as (days & r & -> & E & Hl); [lia|lia|].
    exists r. split; [done|]. eapply least_ext; [|exact Hl]. intros t. rewrite Hocc. naive_solver.
Qed.

Abbreviation jd0 := (date2j_civil (tm_year tm0) (tm_mon tm0) (tm_mday tm0)).

Lemma jd0_range : 1721426 <= jd0 <= 111400000.
Proof.
  split; [apply civil_positive; [lia|done]|].
  destruct Hdate0 as [Hm Hd]. rewrite date2j_civil_day.
  pose proof (date2j_civil_month_end (tm_year tm0) (tm_mon tm0) ltac:(lia) Hm) as H1.
  pose proof (date2j_civil_year_mono (tm_year tm0 + 1) 300001 ltac:(lia) ltac:(lia)) as H2.
  change (date2j_civil 300001 1 0) with 111294175 in H2. lia.
Qed.

(** The date of a day number at or after the start date. *)
Lemma date_of_jd jd y m d :
  jd0 <= jd <= 300000000 -> j2date jd = (y, m, d) ->
  1 <= y <= 1000000 /\ valid_date y m d /\ date2j_civil y m d = jd.
Proof.
  intros Hj E. pose proof jd0_range as Hj0. assert (Hj' : 0 <= jd <= INT_MAX) by (unfold INT_MAX; lia).
  pose proof (j2date_year _ _ _ _ Hj' E) as Hy0. destruct (j2date_spec _ _ _ _ Hj' E) as (_ & Hv & He).
  split; [|done]. pose proof (date2j_civil_first y m d Hy0 Hv) as Hfirst. destruct Hv as [Hm Hd].
  pose proof (date2j_civil_month_end y m ltac:(lia) Hm) as H1. rewrite (date2j_civil_day y m d) in He, Hfirst. split.
  - apply Z.nlt_ge. intros Hy. pose proof (date2j_civil_year_mono (y + 1) 1 ltac:(lia) ltac:(lia)) as H2.
    change (date2j_civil 1 1 0) with 1721425 in H2. lia.
  - apply Z.nlt_ge. intros Hy. pose proof (date2j_civil_year_mono 1000001 y ltac:(lia) ltac:(lia)) as H2.
    change (date2j_civil 1000001 1 0) with 366963925 in H2. lia.
Qed.

(** The days of a week window that the loop does not skip. *)
Definition week_day (j0 i t : Z) : Prop :=
  exists y m d, 1 <= y /\ valid_date y m d /\ date2j_civil y m d = j0 + i /\
    filt (has_bymonth rule) (bymonth rule) m = true /\
    (if present (byday rule) then weekday_clause rule y m d else i =? 0) = true /\ any_time y m d t.

Lemma week_loop_least j0 ds :
  jd0 <= j0 <= 299999990 -> ascending ds -> Forall (fun i => 0 <= i <= 6) ds ->
  exists r, week_loop ss rule j0 ds tm0 start after None = Ok r /\
    least (fun t => exists i, In i ds /\ week_day j0 i t) r.
Proof.
  intros Hj Ha Hr. induction Ha as [|i ds Ha IH Hlt].
  { exists None. split; [done|]. apply least_empty. by intros t (m & [] & _). }
  inversion Hr as [|? ? Hi Hr']; subst. destruct (IH Hr') as (r & E & Hl).
  assert (Hext : forall t, week_day j0 i t \/ (exists i, In i ds /\ week_day j0 i t) <->
                           exists i', In i' (i :: ds) /\ week_day j0 i' t).
  { intros t. split; [intros [?|(x & ? & ?)]; eexists; cbn; eauto|]. intros (x & [->|?] & ?); eauto. }
  cbn [week_loop]. destruct (j2date (j0 + i)) as [[y m] d] eqn:Ed.
  destruct (date_of_jd (j0 + i) y m d ltac:(lia) Ed) as (Hy & Hv & He).
  assert (Huniq : forall y' m' d', 1 <= y' -> valid_date y' m' d' -> date2j_civil y' m' d' = j0 + i -> (y', m', d') = (y, m, d)).
  { intros. apply date2j_civil_inj; [lia|lia|done|done|lia]. }
  assert (Hskip : least (week_day j0 i) None -> exists r', week_loop ss rule j0 ds tm0 start after None = Ok r' /\
            least (fun t => exists i', In i' (i :: ds) /\ week_day j0 i' t) r').
  { intros Hn. exists r. split; [done|]. eapply least_ext; [exact Hext|]. by apply least_later. }
  destruct (if present (byday rule) then _ else _) eqn:Es.
  { apply Hskip, least_empty. intros t (y' & m' & d' & H1 & H2 & H3 & _ & H4 & _).
    unfold weekday_clause in H4. rewrite H3 in H4. destruct (present (byday rule)); [|by rewrite H4 in Es].
    by rewrite H4 in Es. }
  destruct (wf_bymonth rule Hwf) as [Hlm _]. rewrite rejected_filt by (destruct Hv; lia). cbn [mbind result_bind].
  destruct (filt (has_bymonth rule) (bymonth rule) m) eqn:Eb; cbn [negb].
  2:{ apply Hskip, least_empty. intros t (y' & m' & d' & H1 & H2 & H3 & H4 & _ & _).
    specialize (Huniq _ _ _ H1 H2 H3). injection Huniq as -> -> ->. congruence. }
  destruct (scan_times_least y m d (-1) (-1) (-1) Hy Hv) as (r1 & -> & Hl1); try lia. cbn [mbind result_bind].
  assert (Hday : forall t, any_time y m d t <-> week_day j0 i t).
  { intros t. split.
    - intros Ht. exists y, m, d. split; [lia|]. split; [done|]. split; [done|]. unfold weekday_clause. rewrite He.
      split; [done|]. split; [|done].
      destruct (present (byday rule)); by apply negb_false_iff.
    - intros (y' & m' & d' & H1 & H2 & H3 & _ & _ & H4). specialize (Huniq _ _ _ H1 H2 H3). by simplify_eq. }
  apply (least_ext _ _ _ Hday) in Hl1. destruct r1 as [t|]; [|by apply Hskip].
  exists (Some t). split; [by destruct ds|]. eapply least_ext; [exact Hext|]. apply least_here; [done|].
  intros t1 t2 (y1 & m1 & d1 & _ & _ & E1 & _ & _ & H1) (i' & Hi' & y2 & m2 & d2 & _ & _ & E2 & _ & _ & H2).
  rewrite Forall_forall in Hlt. specialize (Hlt i' Hi'). eapply on_date_lt; [|exact H1|exact H2]. lia.
Qed.

Lemma weekly_least k :
  freq rule = FREQ_WEEKLY -> 0 <= k * interval rule * 7 <= 150000000 ->
  exists r, weekly_period ss rule tm0 start after k = Ok r /\ least (searched off rule tm0 start k) r.
Proof.
  intros Hf Hk. pose proof jd0_range as Hj0. unfold weekly_period.
  rewrite (clock_date2j (tm_year tm0) (tm_mon tm0)) by (destruct Hdate0; lia). cbn [mbind result_bind].
  rewrite int32_small by (unfold is_int32, INT_MIN, INT_MAX; lia).
  destruct (week_loop_least (jd0 + k * interval rule * 7) (seqZ 0 7)) as (r & E & Hl); [lia|apply (seqZ_ascending 7)| |].
  { apply Forall_forall. intros i Hi. apply list_elem_of_In, elem_of_seqZ in Hi. lia. }
  exists r. split; [done|]. eapply least_ext; [|exact Hl]. intros t.
  rewrite occurrence_dates by (unfold date_freq; by rewrite Hf).
  unfold in_period, period_date, week_day. rewrite Hf.
  assert (Hsame : forall j i, 0 <= i <= 6 -> j = jd0 + k * interval rule * 7 + i -> (j2day j =? j2day jd0) = (i =? 0)).
  { intros j i Hi ->. rewrite !j2day_weekday. unfold weekday. apply eq_true_iff_eq. rewrite !Z.eqb_eq. split; [|intros ->]; lia. }
  split.
  - intros (i & Hi & y & m & d & Hy & Hv & He & Hb & Hw & Ht). apply list_elem_of_In, elem_of_seqZ in Hi.
    exists y, m, d. split; [done|]. split; [done|]. split; [lia|]. split; [|done]. rewrite Hb. cbn [andb].
    destruct (present (byday rule)); [done|]. rewrite (Hsame _ i); [done|lia|lia].
  - intros (y & m & d & Hy & Hv & Hp & Hs & Ht). apply andb_prop in Hs as [Hb Hs].
    exists (date2j_civil y m d - (jd0 + k * interval rule * 7)). rewrite <- list_elem_of_In, elem_of_seqZ.
    split; [lia|]. exists y, m, d. split; [done|]. split; [done|]. split; [lia|]. split; [done|]. split; [|done].
    destruct (present (byday rule)); [done|]. by rewrite <- (Hsame (date2j_civil y m d)) by lia.
Qed.

Lemma date_matches_spec y m d :
  1 <= y -> 1 <= m <= 12 ->
  date_matches ss rule y m d =
    Ok (filt (has_bymonth rule) (bymonth rule) m &&
        (absent (bymonthday rule) || monthday_clause rule y m d) &&
        (absent (byday rule) || weekday_clause rule y m d) &&
        (absent (bydate rule) || bydate_matches rule y m d)).
Proof.
  intros Hy Hm. unfold date_matches. destruct (wf_bymonth rule Hwf) as [Hlm _].
  rewrite rejected_filt by lia. cbn [mbind result_bind]. unfold absent, monthday_clause, weekday_clause.
  destruct (filt _ _ _); cbn [negb andb orb]; [|done].
  rewrite days_in_month_eq, clock_date2j by lia. cbn [mbind result_bind].
  replace (existsb (fun x => (if x <? 0 then _ else _) =? d) (bymonthday rule)) with
    (existsb (fun x => d =? (if x <? 0 then month_days y m + x + 1 else x)) (bymonthday rule))
    by (induction (bymonthday rule); cbn; [done|]; f_equal; [apply Z.eqb_sym|done]).
  destruct (present (bymonthday rule)), (existsb _ (bymonthday rule)); cbn [negb andb orb mbind result_bind]; try done;
    (destruct (present (byday rule)), (existsb _ (byday rule)); cbn [negb andb orb mbind result_bind]; try done);
    by destruct (present (bydate rule)), (bydate_matches rule y m d).
Qed.

Lemma daily_least k :
  freq rule = FREQ_DAILY -> 0 <= k * interval rule <= 150000000 ->
  exists r, daily_period ss rule tm0 start after k = Ok r /\ least (searched off rule tm0 start k) r.
Proof.
  intros Hf Hk. pose proof jd0_range as Hj0. unfold daily_period.
  rewrite (clock_date2j (tm_year tm0) (tm_mon tm0)) by (destruct Hdate0; lia). cbn [mbind result_bind].
  rewrite int32_small by (unfold is_int32, INT_MIN, INT_MAX; lia).
  destruct (j2date (jd0 + k * interval rule)) as [[y m] d] eqn:Ed.
  destruct (date_of_jd (jd0 + k * interval rule) y m d ltac:(lia) Ed) as (Hy & Hv & He).
  rewrite date_matches_spec by (destruct Hv; lia). cbn [mbind result_bind].
  assert (Hocc : forall t, searched off rule tm0 start k t <-> period_date rule tm0 y m d = true /\ any_time y m d t).
  { intros t. rewrite occurrence_dates by (unfold date_freq; by rewrite Hf). unfold in_period. rewrite Hf. split.
    - intros (y' & m' & d' & H1 & H2 & H3 & H4 & H5).
      assert ((y', m', d') = (y, m, d)) by (apply date2j_civil_inj; [lia|lia|done|done|lia]). by simplify_eq.
    - intros [H1 H2]. exists y, m, d. split; [lia|]. done. }
  unfold period_date in Hocc. rewrite Hf in Hocc. cbn match in Hocc.
  match goal with |- context [negb ?b] => destruct b eqn:Eb end; cbn [negb].
  - destruct (scan_times_least y m d (-1) (-1) (-1) Hy Hv) as (r & -> & Hl); try lia.
    exists r. split; [done|]. eapply least_ext; [|exact Hl]. intros t. rewrite Hocc. naive_solver.
  - exists None. split; [done|]. apply least_empty. intros t Ht. apply Hocc in Ht as [Ht _]. congruence.
Qed.

Hypothesis Hstart : IS_VALID_TIMESTAMP start = true.
Hypothesis Hwall0 : wall (tm_year tm0) (tm_mon tm0) (tm_mday tm0) (tm_hour tm0) (tm_min tm0) (tm_sec tm0) =
                    start - start mod USECS_PER_SEC + off * USECS_PER_SEC.

(** The local time of a timestamp at or after the start date. *)
Lemma base_local base :
  start <= base -> IS_VALID_TIMESTAMP base = true ->
  exists tm, timestamp2tm (session_timezone ss) base = Ok (Some (tm, base mod USECS_PER_SEC, - off)) /\
    1 <= tm_year tm <= 1000000 /\ valid_date (tm_year tm) (tm_mon tm) (tm_mday tm) /\
    time_fields (tm_hour tm) (tm_min tm) (tm_sec tm) /\
    wall (tm_year tm) (tm_mon tm) (tm_mday tm) (tm_hour tm) (tm_min tm) (tm_sec tm) =
      base - base mod USECS_PER_SEC + off * USECS_PER_SEC.
Proof.
  intros Hb Hv. pose proof jd0_range as Hj0. pose proof (wall_day (tm_year tm0) (tm_mon tm0) (tm_mday tm0) _ _ _ Htime0) as Hw0.
  rewrite Hwall0 in Hw0. destruct (clock_to_local base Hv) as (tm & E & Hy & Hvd & Htf & Hw).
  { unfold local_jd, utime_of, USECS_PER_DAY, USECS_PER_SEC in *. lia. }
  exists tm. split; [done|]. split; [|done]. pose proof (wall_day (tm_year tm) (tm_mon tm) (tm_mday tm) _ _ _ Htf) as Hw1.
  rewrite Hw in Hw1. split; [|lia]. apply Z.nlt_ge. intros Hlt.
  pose proof (date2j_civil_year_mono (tm_year tm + 1) 1 ltac:(lia) ltac:(lia)) as H2.
  change (date2j_civil 1 1 0) with 1721425 in H2. destruct Hvd as [Hm Hd].
  pose proof (date2j_civil_month_end (tm_year tm) (tm_mon tm) ltac:(lia) Hm) as H1.
  rewrite (date2j_civil_day (tm_year tm)) in Hw1. unfold USECS_PER_DAY, USECS_PER_SEC in *. lia.
Qed.

(** Two times in the same clock unit of a wall-clock time [w] have the same fields. *)
Lemma same_unit y m d h mi s y' m' d' h' mi' s' w :
  1 <= y -> 1 <= y' -> valid_date y m d -> valid_date y' m' d' -> time_fields h mi s -> time_fields h' mi' s' ->
  (wall y m d h 0 0 <= w < wall y m d h 0 0 + USECS_PER_HOUR ->
   wall y' m' d' h' 0 0 <= w < wall y' m' d' h' 0 0 + USECS_PER_HOUR -> (y, m, d, h) = (y', m', d', h')) /\
  (wall y m d h mi 0 <= w < wall y m d h mi 0 + USECS_PER_MINUTE ->
   wall y' m' d' h' mi' 0 <= w < wall y' m' d' h' mi' 0 + USECS_PER_MINUTE ->
   (y, m, d, h, mi) = (y', m', d', h', mi')) /\
  (wall y m d h mi s <= w < wall y m d h mi s + USECS_PER_SEC ->
   wall y' m' d' h' mi' s' <= w < wall y' m' d' h' mi' s' + USECS_PER_SEC ->
   (y, m, d, h, mi, s) = (y', m', d', h', mi', s')).
Proof.
  intros Hy Hy' Hv Hv' (Hh & Hmi & Hs) (Hh' & Hmi' & Hs').
  assert (Hinj : date2j_civil y m d = date2j_civil y' m' d' -> (y, m, d) = (y', m', d'))
    by (intros; apply date2j_civil_inj; [lia|lia|done|done|lia]).
  unfold wall, USECS_PER_HOUR, USECS_PER_MINUTE, USECS_PER_SEC, USECS_PER_DAY in *.
  set (c := date2j_civil y m d) in *. set (c' := date2j_civil y' m' d') in *. clearbody c c'.
  split; [|split]; intros H1 H2.
  - assert (c = c' /\ h = h') as [Hc ->] by lia. by rewrite (Hinj Hc).
  - assert (c = c' /\ h = h' /\ mi = mi') as (Hc & -> & ->) by lia. by rewrite (Hinj Hc).
  - assert (c = c' /\ h = h' /\ mi = mi' /\ s = s') as (Hc & -> & -> & ->) by lia. by rewrite (Hinj Hc).
Qed.

(** The fields of a time of period [k] are those of [base], down to the unit. *)
Lemma clock_fields k tm y m d h mi s :
  let base := start + k * step_usec rule in
  1 <= tm_year tm -> valid_date (tm_year tm) (tm_mon tm) (tm_mday tm) ->
  time_fields (tm_hour tm) (tm_min tm) (tm_sec tm) ->
  wall (tm_year tm) (tm_mon tm) (tm_mday tm) (tm_hour tm) (tm_min tm) (tm_sec tm) =
    base - base mod USECS_PER_SEC + off * USECS_PER_SEC ->
  1 <= y -> valid_date y m d -> time_fields h mi s -> date_freq = false ->
  in_period rule tm0 (start + off * USECS_PER_SEC) k y m d h mi s <->
  (y, m, d, h) = (tm_year tm, tm_mon tm, tm_mday tm, tm_hour tm) /\
  (freq rule <> FREQ_HOURLY -> mi = tm_min tm) /\
  (freq rule = FREQ_SECONDLY -> s = tm_sec tm).
Proof.
  intros base Hy0 Hv0 Ht0 Hw Hy Hv Ht Hf. unfold in_period, date_freq in *.
  pose proof (same_unit y m d h mi s _ _ _ _ _ _ (base + off * USECS_PER_SEC) Hy Hy0 Hv Hv0 Ht Ht0) as (U1 & U2 & U3).
  assert (Hb : start + off * USECS_PER_SEC + k * interval rule * (step_usec rule / interval rule) = base + off * USECS_PER_SEC /\
               step_usec rule / interval rule = match freq rule with FREQ_HOURLY => USECS_PER_HOUR
                 | FREQ_MINUTELY => USECS_PER_MINUTE | _ => USECS_PER_SEC end).
  { pose proof (wf_interval rule Hwf). unfold base, step_usec.
    destruct (freq rule); rewrite (Z.mul_comm (interval rule)), Z.div_mul by lia; split; try done; lia. }
  destruct Hb as [Hb Hu]. rewrite Hu in Hb.
  assert (Hw1 : wall (tm_year tm) (tm_mon tm) (tm_mday tm) (tm_hour tm) (tm_min tm) (tm_sec tm) <= base + off * USECS_PER_SEC
                < wall (tm_year tm) (tm_mon tm) (tm_mday tm) (tm_hour tm) (tm_min tm) (tm_sec tm) + USECS_PER_SEC).
  { rewrite Hw. unfold USECS_PER_SEC. lia. }
  assert (Hw2 : wall (tm_year tm) (tm_mon tm) (tm_mday tm) (tm_hour tm) (tm_min tm) 0 <= base + off * USECS_PER_SEC
                < wall (tm_year tm) (tm_mon tm) (tm_mday tm) (tm_hour tm) (tm_min tm) 0 + USECS_PER_MINUTE).
  { destruct Ht0 as (? & ? & ?). unfold wall, USECS_PER_SEC, USECS_PER_MINUTE, USECS_PER_DAY in *. lia. }
  assert (Hw3 : wall (tm_year tm) (tm_mon tm) (tm_mday tm) (tm_hour tm) 0 0 <= base + off * USECS_PER_SEC
                < wall (tm_year tm) (tm_mon tm) (tm_mday tm) (tm_hour tm) 0 0 + USECS_PER_HOUR).
  { destruct Ht0 as (? & ? & ?). unfold wall, USECS_PER_SEC, USECS_PER_HOUR, USECS_PER_DAY in *. lia. }
  clear Hw Hu. destruct (freq rule); try done; rewrite Hb.
  - split; [intros H; split; [by apply U1|done]|]. intros ([= -> -> -> ->] & _). done.
  - split; [intros H; specialize (U2 H Hw2); by simplify_eq|]. intros ([= -> -> -> ->] & Hmi & _). by rewrite Hmi.
  - split; [intros H; specialize (U3 H Hw1); by simplify_eq|]. intros ([= -> -> -> ->] & Hmi & Hs). by rewrite Hmi, Hs.
Qed.

(** The times of a clock period on the date of [base]: fields coarser than the
    unit are those of [base], filtered; finer ones come from the lists. *)
Definition base_time (tm : pg_tm) (t : Z) : Prop :=
  exists mi s, time_fields (tm_hour tm) mi s /\
    (freq rule <> FREQ_HOURLY -> mi = tm_min tm) /\ (freq rule = FREQ_SECONDLY -> s = tm_sec tm) /\
    period_date rule tm0 (tm_year tm) (tm_mon tm) (tm_mday tm) = true /\
    time_selected rule tm0 (tm_hour tm) mi s = true /\
    t = wall (tm_year tm) (tm_mon tm) (tm_mday tm) (tm_hour tm) mi s - off * USECS_PER_SEC /\
    IS_VALID_TIMESTAMP t = true.

Lemma base_time_on_date tm hf mf t :
  time_fields (tm_hour tm) (tm_min tm) (tm_sec tm) ->
  (freq rule = FREQ_HOURLY /\ hf = tm_hour tm /\ mf = -1) \/
  (freq rule = FREQ_MINUTELY /\ hf = tm_hour tm /\ mf = tm_min tm) ->
  period_date rule tm0 (tm_year tm) (tm_mon tm) (tm_mday tm) = true ->
  filt (has_byhour rule) (byhour rule) (tm_hour tm) = true ->
  (freq rule = FREQ_MINUTELY -> filt (has_byminute rule) (byminute rule) (tm_min tm) = true) ->
  on_date (tm_year tm) (tm_mon tm) (tm_mday tm) hf mf (-1) t <-> base_time tm t.
Proof.
  intros Ht Hc Hd Hh Hm. pose proof Ht as (T1 & T2 & T3). unfold on_date, base_time, fixed_or, time_selected.
  rewrite Hh. destruct Hc as [(Hf & -> & ->)|(Hf & -> & ->)]; rewrite Hf; cbn [andb]; change (0 <=? -1) with false;
    cbn match; (replace (0 <=? tm_hour tm) with true by lia).
  - split.
    + intros (h & mi & s & Hx & Eh & Em & Es & Hr). apply Z.eqb_eq in Eh as ->. exists mi, s. by rewrite Em, Es.
    + intros (mi & s & Hx & _ & _ & _ & Hs & Hr). split_bool. exists (tm_hour tm), mi, s. by rewrite Z.eqb_refl.
  - specialize (Hm Hf). replace (0 <=? tm_min tm) with true by lia. split.
    + intros (h & mi & s & Hx & Eh & Em & Es & Hr). apply Z.eqb_eq in Eh as ->, Em as ->. exists (tm_min tm), s. by rewrite Hm, Es.
    + intros (mi & s & Hx & Hmi & _ & _ & Hs & Hr). rewrite (Hmi ltac:(done)) in *. split_bool.
      exists (tm_hour tm), (tm_min tm), s. by rewrite !Z.eqb_refl.
Qed.

Lemma clock_period_date y m d :
  date_freq = false ->
  period_date rule tm0 y m d =
    filt (has_bymonth rule) (bymonth rule) m &&
    (absent (bymonthday rule) || monthday_clause rule y m d) &&
    (absent (byday rule) || weekday_clause rule y m d) &&
    (absent (bydate rule) || bydate_matches rule y m d).
Proof. unfold period_date, date_freq. by destruct (freq rule). Qed.

(** The occurrences of a clock period are the times of its base. *)
Lemma clock_occurrence k tm t :
  let base := start + k * step_usec rule in
  date_freq = false -> 1 <= tm_year tm <= 1000000 -> valid_date (tm_year tm) (tm_mon tm) (tm_mday tm) ->
  time_fields (tm_hour tm) (tm_min tm) (tm_sec tm) ->
  wall (tm_year tm) (tm_mon tm) (tm_mday tm) (tm_hour tm) (tm_min tm) (tm_sec tm) =
    base - base mod USECS_PER_SEC + off * USECS_PER_SEC ->
  searched off rule tm0 start k t <-> base_time tm t.
Proof.
  intros base Hf Hy Hvd Ht Hw. unfold searched, time_of_period, base_time. split.
  - intros (y & m & d & h & mi & s & H1 & H2 & H3 & H4 & H5 & H6 & H7).
    apply (clock_fields k tm) in H4 as ([= -> -> -> ->] & Hmi & Hs); try done; [by exists mi, s|lia].
  - intros (mi & s & H3 & Hmi & Hs & H5 & H6 & H7).
    exists (tm_year tm), (tm_mon tm), (tm_mday tm), (tm_hour tm), mi, s.
    split; [lia|]. split; [done|]. split; [done|]. split; [|done].
    apply (clock_fields k tm); try done; lia.
Qed.

(** What the early returns of [clock_period] test holds of each of its times. *)
Lemma base_time_filters tm t :
  date_freq = false -> base_time tm t ->
  period_date rule tm0 (tm_year tm) (tm_mon tm) (tm_mday tm) = true /\
  filt (has_byhour rule) (byhour rule) (tm_hour tm) = true /\
  (freq rule <> FREQ_HOURLY -> filt (has_byminute rule) (byminute rule) (tm_min tm) = true) /\
  (freq rule = FREQ_SECONDLY -> filt (has_bysecond rule) (bysecond rule) (tm_sec tm) = true).
Proof.
  unfold date_freq. intros Hf (mi & s & _ & Hmi & Hs & Hd & Ht & _). split; [done|].
  unfold time_selected in Ht. destruct (freq rule); try done; split_bool.
  - done.
  - rewrite <- (Hmi ltac:(done)). done.
  - rewrite <- (Hmi ltac:(done)), <- (Hs eq_refl). done.
Qed.

(** A SECONDLY period holds one time, its base cut to the second. *)
Lemma base_time_secondly tm t :
  freq rule = FREQ_SECONDLY -> time_fields (tm_hour tm) (tm_min tm) (tm_sec tm) ->
  period_date rule tm0 (tm_year tm) (tm_mon tm) (tm_mday tm) = true ->
  filt (has_byhour rule) (byhour rule) (tm_hour tm) = true ->
  filt (has_byminute rule) (byminute rule) (tm_min tm) = true ->
  filt (has_bysecond rule) (bysecond rule) (tm_sec tm) = true ->
  base_time tm t <->
  t = wall (tm_year tm) (tm_mon tm) (tm_mday tm) (tm_hour tm) (tm_min tm) (tm_sec tm) - off * USECS_PER_SEC /\
  IS_VALID_TIMESTAMP t = true.
Proof.
  intros Hf Ht Hd Hh Hm Hs. unfold base_time. split.
  - intros (mi & s & _ & Hmi & Hsec & _ & _ & -> & Hx). rewrite (Hsec Hf), (Hmi ltac:(congruence)) in *. done.
  - intros [-> Hx]. exists (tm_min tm), (tm_sec tm). unfold time_selected. by rewrite Hf, Hh, Hm, Hs.
Qed.

Lemma least_single t0 : least (fun t => t = t0) (consider_candidate t0 start after None).2.
Proof.
  unfold consider_candidate. destruct ((_ <=? after) || _) eqn:Ea; cbn.
  - intros t -> [? ?]. lia.
  - split; [done|]. split; [unfold acceptable; lia|]. intros t' -> _. lia.
Qed.

Lemma clock_least k :
  date_freq = false -> 0 <= k -> IS_VALID_TIMESTAMP (start + k * step_usec rule) = true ->
  exists r, clock_period ss rule tm0 start after k = Ok r /\ least (searched off rule tm0 start k) r.
Proof.
  intros Hf Hk Hv. unfold clock_period.
  assert (Hb : start <= start + k * step_usec rule).
  { unfold step_usec. pose proof (wf_interval rule Hwf).
    unfold USECS_PER_HOUR, USECS_PER_MINUTE, USECS_PER_SEC. destruct (freq rule); nia. }
  rewrite int64_small by (unfold IS_VALID_TIMESTAMP, MIN_TIMESTAMP, END_TIMESTAMP, is_int64, INT64_MIN, INT64_MAX in *; lia).
  destruct (base_local _ Hb Hv) as (tm & -> & Hy & Hvd & Ht & Hw). cbn [mbind result_bind].
  rewrite date_matches_spec by (destruct Hvd; lia). cbn [mbind result_bind].
  pose proof (fun t => clock_occurrence k tm t Hf Hy Hvd Ht Hw) as Hocc. cbv zeta in Hocc.
  set (base := start + k * step_usec rule) in *.
  rewrite <- (clock_period_date (tm_year tm) (tm_mon tm) (tm_mday tm) Hf).
  destruct (wf_times rule Hwf) as (Lh & Lm & Ls).
  assert (Hnone : (forall t, base_time tm t -> False) -> exists r, Ok None = Ok r /\ least (searched off rule tm0 start k) r).
  { intros Hn. exists None. split; [done|]. apply least_empty. intros t Ht'. apply Hocc in Ht'. by apply (Hn t). }
  pose proof (fun t => base_time_filters tm t Hf) as Hfil.
  destruct (period_date _ _ _ _ _) eqn:Ed; cbn [negb]; [|apply Hnone; intros t (Hx & _)%Hfil; done].
  pose proof Ht as (T1 & T2 & T3). rewrite (rejected_filt (has_byhour rule)) by lia. cbn [mbind result_bind].
  destruct (filt (has_byhour rule) _ _) eqn:Eh; cbn [negb]; [|apply Hnone; intros t (_ & Hx & _)%Hfil; done].
  destruct (freq rule) eqn:Efr; try (unfold date_freq in Hf; rewrite Efr in Hf; done).
  - destruct (scan_times_least (tm_year tm) (tm_mon tm) (tm_mday tm) (tm_hour tm) (-1) (-1) Hy Hvd) as (r & -> & Hl); [lia..|].
    exists r. split; [done|]. eapply least_ext; [|exact Hl]. intros t. rewrite Hocc.
    apply base_time_on_date; [done|by left|done|done|congruence].
  - rewrite (rejected_filt (has_byminute rule)) by lia. cbn [mbind result_bind].
    destruct (filt (has_byminute rule) _ _) eqn:Em; cbn [negb]; [|apply Hnone; intros t (_ & _ & Hx & _)%Hfil; by specialize (Hx ltac:(done))].
    destruct (scan_times_least (tm_year tm) (tm_mon tm) (tm_mday tm) (tm_hour tm) (tm_min tm) (-1) Hy Hvd) as (r & -> & Hl); [lia..|].
    exists r. split; [done|]. eapply least_ext; [|exact Hl]. intros t. rewrite Hocc.
    apply base_time_on_date; [done|by right|done|done|done].
  - rewrite (rejected_filt (has_byminute rule)) by lia. cbn [mbind result_bind].
    destruct (filt (has_byminute rule) _ _) eqn:Em; cbn [negb]; [|apply Hnone; intros t (_ & _ & Hx & _)%Hfil; by specialize (Hx ltac:(done))].
    rewrite (rejected_filt (has_bysecond rule)) by lia. cbn [mbind result_bind].
    destruct (filt (has_bysecond rule) _ _) eqn:Es; cbn [negb]; [|apply Hnone; intros t (_ & _ & _ & Hx)%Hfil; by specialize (Hx ltac:(done))].
    eexists. split; [reflexivity|]. eapply least_ext; [|apply least_single]. intros t. cbn beta.
    rewrite Hocc, base_time_secondly by done. rewrite Hw. split; [intros ->; split; [lia|]|intros [-> _]; lia].
    unfold IS_VALID_TIMESTAMP, MIN_TIMESTAMP, END_TIMESTAMP, USECS_PER_SEC in *. lia.
Qed.

(** Periods follow each other. *)
Lemma period_order k k' t t' :
  k < k' -> searched off rule tm0 start k t -> searched off rule tm0 start k' t' -> t < t'.
Proof.
  intros Hk (y & m & d & h & mi & s & Hy & Hv & Ht & Hp & _ & _ & -> & _)
    (y' & m' & d' & h' & mi' & s' & Hy' & Hv' & Ht' & Hp' & _ & _ & -> & _).
  pose proof (wf_interval rule Hwf) as Hi.
  assert (Hn : k * interval rule + 1 <= k' * interval rule) by nia.
  assert (Hdates : date2j_civil y m d < date2j_civil y' m' d' -> wall y m d h mi s < wall y' m' d' h' mi' s').
  { intros Hd. pose proof (wall_day y m d _ _ _ Ht). pose proof (wall_day y' m' d' _ _ _ Ht'). unfold USECS_PER_DAY in *. lia. }
  enough (wall y m d h mi s < wall y' m' d' h' mi' s') by lia.
  unfold in_period in *. destruct (freq rule).
  - apply Hdates, date2j_civil_lt; [lia|lia|done|done|left; lia].
  - apply Hdates, date2j_civil_lt; [lia|lia|done|done|]. destruct Hv as [Hm _], Hv' as [Hm' _]. unfold date_lt. lia.
  - apply Hdates. lia.
  - apply Hdates. lia.
  - destruct Ht as (? & ? & ?), Ht' as (? & ? & ?). unfold wall, USECS_PER_DAY, USECS_PER_HOUR, USECS_PER_SEC in *. lia.
  - destruct Ht as (? & ? & ?), Ht' as (? & ? & ?). unfold wall, USECS_PER_DAY, USECS_PER_MINUTE, USECS_PER_SEC in *. lia.
  - unfold USECS_PER_SEC in *. lia.
Qed.

(** Lower bound on the length of a period, per unit of the interval. *)
Definition period_unit : Z :=
  match freq rule with
  | FREQ_YEARLY => 366 * USECS_PER_DAY
  | FREQ_MONTHLY => 32 * USECS_PER_DAY
  | FREQ_WEEKLY => 7 * USECS_PER_DAY
  | FREQ_DAILY => USECS_PER_DAY
  | FREQ_HOURLY => USECS_PER_HOUR
  | FREQ_MINUTELY => USECS_PER_MINUTE
  | FREQ_SECONDLY => USECS_PER_SEC
  end.

(** A time of period [k] comes before the end of the span of [k] periods
    of that length. *)
Lemma occurrence_bound k t :
  0 <= k -> searched off rule tm0 start k t -> t < start + (k * interval rule + 1) * period_unit.
Proof.
  intros Hk (y & m & d & h & mi & s & Hy & Hv & Ht & Hp & _ & _ & -> & _).
  pose proof (wf_interval rule Hwf) as Hi. assert (Hn : 0 <= k * interval rule) by nia.
  pose proof (wall_day y m d _ _ _ Ht) as Hw.
  pose proof (wall_day (tm_year tm0) (tm_mon tm0) (tm_mday tm0) _ _ _ Htime0) as Hw0. rewrite Hwall0 in Hw0.
  unfold in_period in Hp. cbn zeta in Hp. set (n := k * interval rule) in *. clearbody n.
  unfold period_unit. destruct (freq rule).
  - subst y. destruct Hv as [Hm Hd]. pose proof (date2j_civil_first (tm_year tm0) (tm_mon tm0) (tm_mday tm0) ltac:(lia) Hdate0).
    pose proof (year_span (tm_year tm0) (n + 1) ltac:(lia) ltac:(lia)) as Hs.
    replace (tm_year tm0 + (n + 1)) with (tm_year tm0 + n + 1) in Hs by lia.
    pose proof (date2j_civil_month_end (tm_year tm0 + n) m ltac:(lia) Hm) as He.
    rewrite (date2j_civil_day (tm_year tm0 + n) m d) in Hw. unfold USECS_PER_DAY, USECS_PER_SEC in *. lia.
  - destruct Hv as [Hm Hd]. pose proof Hdate0 as [Hm0 Hd0]. pose proof (month_days_range y m Hm).
    pose proof (month_span (tm_year tm0 * 12 + tm_mon tm0 - 1) n ltac:(lia) Hn) as Hs.
    replace (tm_year tm0 * 12 + tm_mon tm0 - 1 + n) with (y * 12 + m - 1) in Hs by lia.
    rewrite (month_start_eq y m d) in Hw by done.
    rewrite (month_start_eq (tm_year tm0) (tm_mon tm0) (tm_mday tm0)) in Hw0 by done.
    unfold USECS_PER_DAY, USECS_PER_SEC in *. lia.
  - unfold USECS_PER_DAY, USECS_PER_SEC in *. lia.
  - unfold USECS_PER_DAY, USECS_PER_SEC in *. lia.
  - destruct Ht as (? & ? & ?). clear Hw Hw0. unfold wall, USECS_PER_DAY, USECS_PER_HOUR, USECS_PER_SEC in *. lia.
  - destruct Ht as (? & ? & ?). clear Hw Hw0. unfold wall, USECS_PER_DAY, USECS_PER_MINUTE, USECS_PER_SEC in *. lia.
  - clear Hw Hw0. unfold USECS_PER_SEC in *. lia.
Qed.

Lemma quot_le a b : 0 <= a -> 0 < b -> 0 <= Z.quot a b /\ Z.quot a b * b <= a.
Proof.
  intros Ha Hb. rewrite Z.quot_div_nonneg by lia. split; [by apply Z.div_pos|].
  rewrite Z.mul_comm. by apply Z.mul_div_le.
Qed.

Hypothesis Hrange : start <= 9000000000000000000 /\ MIN_TIMESTAMP <= after <= 9000000000000000000.

(** The fast-forward never skips past [after]. *)
Lemma first_period_spec :
  0 <= first_period rule start after /\
  (first_period rule start after = 0 \/
   (first_period rule start after + 2) * interval rule * period_unit <= after - start).
Proof.
  pose proof (wf_interval rule Hwf) as Hi. unfold first_period. destruct (Z.ltb_spec start after) as [Hlt|]; [|lia].
  rewrite int64_small by (unfold IS_VALID_TIMESTAMP, MIN_TIMESTAMP, is_int64, INT64_MIN, INT64_MAX in *; lia).
  set (D := after - start). assert (HD : 0 <= D) by lia.
  match goal with |- context [2 <? ?p] => assert (Hp : 0 <= p /\ p * interval rule * period_unit <= D) end.
  { clear -HD Hi. clearbody D. unfold period_unit, USECS_PER_DAY, USECS_PER_HOUR, USECS_PER_MINUTE, USECS_PER_SEC.
    destruct (freq rule).
    - pose proof (quot_le D 86400000000 HD ltac:(lia)) as [H1 H2].
      pose proof (quot_le _ 366 H1 ltac:(lia)) as [H3 H4]. pose proof (quot_le _ (interval rule) H3 ltac:(lia)) as [H5 H6]. lia.
    - pose proof (quot_le D 86400000000 HD ltac:(lia)) as [H1 H2].
      pose proof (quot_le _ 32 H1 ltac:(lia)) as [H3 H4]. pose proof (quot_le _ (interval rule) H3 ltac:(lia)) as [H5 H6]. lia.
    - pose proof (quot_le D (interval rule * 7 * 86400000000) HD ltac:(lia)). lia.
    - pose proof (quot_le D (interval rule * 86400000000) HD ltac:(lia)). lia.
    - pose proof (quot_le D (interval rule * 3600000000) HD ltac:(lia)). lia.
    - pose proof (quot_le D (interval rule * 60000000) HD ltac:(lia)). lia.
    - pose proof (quot_le D (interval rule * 1000000) HD ltac:(lia)). lia. }
  match goal with |- context [2 <? ?p] => set (P := p) in * end. clearbody P.
  destruct (Z.ltb_spec 2 P); [|lia]. split; [lia|right]. replace (P - 2 + 2) with P by lia. apply Hp.
Qed.

Lemma period_unit_pos : 1000000 <= period_unit.
Proof. unfold period_unit, USECS_PER_DAY, USECS_PER_HOUR, USECS_PER_MINUTE, USECS_PER_SEC. destruct (freq rule); lia. Qed.

(** Periods before the first one hold nothing after [after]. *)
Lemma skipped_periods k t :
  0 <= k < first_period rule start after -> searched off rule tm0 start k t -> ~ acceptable t.
Proof.
  intros Hk Ho [Ha _]. pose proof (wf_interval rule Hwf) as Hi. pose proof period_unit_pos as Hu.
  apply occurrence_bound in Ho; [|lia]. destruct first_period_spec as [_ [E|Hf]]; [lia|].
  assert ((k * interval rule + 1) * period_unit <= (first_period rule start after + 2) * interval rule * period_unit).
  { apply Z.mul_le_mono_nonneg_r; nia. }
  lia.
Qed.

Lemma eval_period_least k :
  0 <= k < first_period rule start after + SCHED_MAX_PERIODS ->
  exists r, eval_period ss rule tm0 start after k = Ok r /\ least (searched off rule tm0 start k) r.
Proof.
  intros Hk. pose proof (wf_interval rule Hwf) as Hi. unfold SCHED_MAX_PERIODS in Hk.
  destruct first_period_spec as [H0 Hf]. pose proof period_unit_pos as Hu.
  assert (Hn : 0 <= k * interval rule) by nia.
  assert (Hb : k * interval rule * period_unit <= Z.max 0 (after - start) + 3999 * 99 * period_unit).
  { set (f := first_period rule start after) in *. clearbody f. clear Hn Hrange Hwall0 Hstart Hyear0.
    assert (Hki : k * interval rule <= (f + 3999) * interval rule) by (apply Z.mul_le_mono_nonneg_r; lia).
    assert (Hfi : k * interval rule * period_unit <= (f * interval rule + 3999 * 99) * period_unit)
      by (apply Z.mul_le_mono_nonneg_r; lia).
    assert (0 <= interval rule * period_unit) by (apply Z.mul_nonneg_nonneg; lia).
    destruct Hf as [->|Hf]; lia. }
  assert (HD : after - start <= 9211813488000000000).
  { unfold IS_VALID_TIMESTAMP, MIN_TIMESTAMP in *. lia. }
  unfold period_unit, eval_period in *. clear Hf Hu.
  destruct (freq rule) eqn:Ef; unfold USECS_PER_DAY, USECS_PER_HOUR, USECS_PER_MINUTE, USECS_PER_SEC in Hb.
  - apply yearly_least; [done|lia].
  - apply monthly_least; [done|lia].
  - apply weekly_least; [done|lia].
  - apply daily_least; [done|lia].
  - apply clock_least; [unfold date_freq; by rewrite Ef|lia|]. unfold step_usec. rewrite Ef.
    unfold IS_VALID_TIMESTAMP, MIN_TIMESTAMP, END_TIMESTAMP, USECS_PER_HOUR in *. lia.
  - apply clock_least; [unfold date_freq; by rewrite Ef|lia|]. unfold step_usec. rewrite Ef.
    unfold IS_VALID_TIMESTAMP, MIN_TIMESTAMP, END_TIMESTAMP, USECS_PER_MINUTE in *. lia.
  - apply clock_least; [unfold date_freq; by rewrite Ef|lia|]. unfold step_usec. rewrite Ef.
    unfold IS_VALID_TIMESTAMP, MIN_TIMESTAMP, END_TIMESTAMP, USECS_PER_SEC in *. lia.
Qed.

(** The period loop finds the least acceptable time of all periods from
    its first one on, or none in the periods it looks at. *)
Lemma period_loop_least n : forall k,
  0 <= k -> k + Z.of_nat n <= first_period rule start after + SCHED_MAX_PERIODS ->
  match period_loop n (eval_period ss rule tm0 start after) k with
  | Ok (Some t) => acceptable t /\ (exists k', k <= k' < k + Z.of_nat n /\ searched off rule tm0 start k' t) /\
      forall k' t', k <= k' -> searched off rule tm0 start k' t' -> acceptable t' -> t <= t'
  | Ok None => forall k' t', k <= k' < k + Z.of_nat n -> searched off rule tm0 start k' t' -> ~ acceptable t'
  | Err _ => False
  end.
Proof.
  induction n as [|n IH]; intros k Hk Hn; cbn [period_loop]; [intros; lia|].
  destruct (eval_period_least k) as (r & -> & Hl); [lia|]. cbn [mbind result_bind]. destruct r as [t|].
  - destruct Hl as (Ho & Ha & Hl). split; [done|]. split; [by exists k; split; [lia|]|].
    intros k' t' Hk' Ho' Ha'. destruct (decide (k' = k)) as [->|]; [by apply Hl|].
    pose proof (period_order k k' t t' ltac:(lia) Ho Ho'). lia.
  - specialize (IH (k + 1) ltac:(lia) ltac:(lia)). cbn in Hl.
    destruct (period_loop n _ (k + 1)) as [[t|]|e]; [| |done].
    + destruct IH as (Ha & (k1 & Hk1 & Ho) & Hmin). split; [done|]. split; [exists k1; split; [lia|done]|].
      intros k' t' Hk' Ho' Ha'. destruct (decide (k' = k)) as [->|]; [by destruct (Hl t')|].
      apply (Hmin k'); [lia|done|done].
    + intros k' t' Hk' Ho'. destruct (decide (k' = k)) as [->|]; [by apply Hl|].
      apply (IH k'); [lia|done].
Qed.

End Evaluation.

(** ** Properties *)

(** [month_day_list] returns, in ascending order, exactly the days of the
    month that satisfy every BYMONTHDAY, BYDAY (with ordinals) and BYDATE clause
    that is present, and the start date's day when there is none. *)
Theorem month_day_list_correct ss rule y m d0 :
  rule_wf rule -> 1 <= m <= 12 -> 1 <= d0 <= 31 -> y <> 0 \/ compatible_db ss = PG_PARSER ->
  month_day_list ss rule y m d0 = Ok (List.filter (day_selected rule y m d0) (seqZ 1 (month_days y m))).
Proof.
  intros Hwf Hm Hd Hy. apply month_day_list_spec; [done|done| |done].
  intros d. apply date2j_plain. destruct Hy; [left; lia|by right].
Qed.

(** A zone without transitions, one hour east of UTC. *)
Definition plus_one : tzstate := mk_state false false [] [] [mk_ttinfo 3600 false 0] [] 0.
Definition example_session : session := mk_session ORA_PARSER 800000000000000 plus_one.

Lemma plus_one_fixed : fixed_zone plus_one 3600.
Proof.
  split; [|done]. split.
  - intros i j Hij Hj. change (timecnt plus_one) with 0 in Hj. lia.
  - done.
  - intros i. destruct i as [|i]; [vm_compute; reflexivity|]. unfold tti_.
    rewrite nth_overflow by (cbn; lia). vm_compute. reflexivity.
  - done.
Qed.

Lemma month_day_list_correct_witness :
  month_day_list example_session example_rule 2026 3 17 = Ok [9].
Proof.
  rewrite month_day_list_correct; [|apply example_rule_wf|lia|lia|left; lia]. vm_compute. reflexivity.
Defined.

(** The start date in the session's zone, for start dates from 0001-01-02 on. *)
Lemma start_local ss off start :
  FixedClock ss off -> IS_VALID_TIMESTAMP start = true -> -63082195200000000 <= start ->
  exists tm0, timestamp2tm (session_timezone ss) start = Ok (Some (tm0, start mod USECS_PER_SEC, - off)) /\
    1 <= tm_year tm0 <= 300000 /\
    valid_date (tm_year tm0) (tm_mon tm0) (tm_mday tm0) /\ time_fields (tm_hour tm0) (tm_min tm0) (tm_sec tm0) /\
    wall (tm_year tm0) (tm_mon tm0) (tm_mday tm0) (tm_hour tm0) (tm_min tm0) (tm_sec tm0) =
      start - start mod USECS_PER_SEC + off * USECS_PER_SEC.
Proof.
  intros Hc Hv Hs. pose proof (clock_off (ss := ss)) as Ho. destruct (clock_to_local start Hv) as (tm & E & Hy & Hd & Ht & Hw).
  { unfold local_jd, utime_of, USECS_PER_SEC. lia. }
  exists tm. split; [done|]. split; [|done]. split; [|lia]. apply Z.nlt_ge. intros Hlt.
  pose proof (wall_day (tm_year tm) (tm_mon tm) (tm_mday tm) _ _ _ Ht) as Hw1. rewrite Hw in Hw1.
  pose proof (date2j_civil_year_mono (tm_year tm + 1) 1 ltac:(lia) ltac:(lia)) as H2.
  change (date2j_civil 1 1 0) with 1721425 in H2. destruct Hd as [Hm Hd].
  pose proof (date2j_civil_month_end (tm_year tm) (tm_mon tm) ltac:(lia) Hm) as H1.
  rewrite (date2j_civil_day (tm_year tm)) in Hw1. unfold USECS_PER_DAY, USECS_PER_SEC in *. lia.
Qed.

Abbreviation LAST_TIME := 9000000000000000000.

(** C1. The next run.  In a zone of constant displacement, for every start
    date from year 1 on and every well-formed rule with ordinals only where the
    parser admits them, and without BYMONTHDAY and BYDATE in a weekly rule,
    [eval_calendar] reports no error and stays within its arrays.  A time it
    returns is an occurrence of the rule (a date and time of some period that
    satisfy every clause present, the other components inherited from the start
    date), lies after [after] and not before the start date, and is the least
    such time of all periods, although the search starts at the fast-forward
    estimate.  When it finds none, none of the periods up to
    [SCHED_MAX_PERIODS] past the estimate holds one; later ones may. *)
Theorem eval_calendar_least ss off rule start after :
  FixedClock ss off -> rule_wf rule -> ordinals_ok rule -> weekly_plain rule ->
  -63082195200000000 <= start <= LAST_TIME -> MIN_TIMESTAMP <= after <= LAST_TIME ->
  exists tm0 fsec tz, timestamp2tm (session_timezone ss) start = Ok (Some (tm0, fsec, tz)) /\
  match eval_calendar ss rule start after with
  | Ok (Some t) =>
      after < t /\ start <= t /\ (exists k, 0 <= k /\ occurrence off rule tm0 start k t) /\
      forall k t', 0 <= k -> occurrence off rule tm0 start k t' -> after < t' -> start <= t' -> t <= t'
  | Ok None =>
      forall k t', 0 <= k < first_period rule start after + SCHED_MAX_PERIODS ->
        occurrence off rule tm0 start k t' -> ~ (after < t' /\ start <= t')
  | Err _ => False
  end.
Proof.
  intros Hc Hwf Hord Hweek Hs Ha.
  assert (Hv : IS_VALID_TIMESTAMP start = true) by (unfold IS_VALID_TIMESTAMP, MIN_TIMESTAMP, END_TIMESTAMP; lia).
  destruct (start_local ss off start Hc Hv ltac:(lia)) as (tm0 & E & Hy & Hd & Ht & Hw).
  exists tm0, (start mod USECS_PER_SEC), (- off). split; [done|]. unfold eval_calendar. rewrite E. cbn [mbind result_bind].
  assert (Hr : start <= LAST_TIME /\ MIN_TIMESTAMP <= after <= LAST_TIME) by lia.
  pose proof (first_period_spec rule Hwf start after Hv Hr) as [H0 _].
  pose proof (period_loop_least ss off rule Hwf tm0 start after Hd Ht Hy Hv Hw Hr (Z.to_nat SCHED_MAX_PERIODS)
    (first_period rule start after) H0) as L.
  rewrite Z2Nat.id in L by (unfold SCHED_MAX_PERIODS; lia). specialize (L ltac:(lia)).
  pose proof (fun k t => searched_occurrence off rule tm0 start k t Hwf Hord Hweek) as So.
  assert (Sk : forall k t, 0 <= k < first_period rule start after -> searched off rule tm0 start k t ->
    ~ acceptable start after t) by (intros; eapply skipped_periods; eassumption).
  setoid_rewrite So in Sk. unfold acceptable in *.
  destruct (period_loop _ _ _) as [[t|]|e]; [| |done]; setoid_rewrite So in L.
  - destruct L as ((L1 & L2) & (k & Hk & Ho) & Hmin). split; [done|]. split; [done|]. split; [exists k; split; [lia|done]|].
    intros k' t' Hk' Ho' A1 A2. destruct (decide (k' < first_period rule start after)).
    + exfalso. by apply (Sk k' t').
    + apply (Hmin k'); [lia|done|done].
  - intros k t' Hk Ho. destruct (decide (k < first_period rule start after)); [apply (Sk k); [lia|done]|].
    apply (L k); [lia|done].
Qed.

Lemma eval_calendar_least_witness :
  exists t, eval_calendar example_session example_rule 800000000000000 800000000000000 = Ok (Some t) /\
    t = 816057020000000 /\ 800000000000000 < t.
Proof.
  destruct (eval_calendar_least example_session 3600 example_rule 800000000000000 800000000000000)
    as (tm0 & fsec & tz & _ & H).
  - apply fixed_zone_clock, plus_one_fixed.
  - apply example_rule_wf.
  - apply example_rule_wf.
  - discriminate.
  - lia.
  - unfold MIN_TIMESTAMP. lia.
  - assert (E : eval_calendar example_session example_rule 800000000000000 800000000000000 = Ok (Some 816057020000000))
      by (vm_compute; reflexivity).
    rewrite E in H. exists 816057020000000. split; [exact E|]. split; [reflexivity|]. apply H.
Defined.

Lemma period_loop_ext n f g k : (forall k, f k = g k) -> period_loop n f k = period_loop n g k.
Proof.
  intros H. revert k. induction n as [|n IH]; intros k; [done|]. cbn [period_loop]. rewrite H.
  destruct (g k) as [[t|]|]; [done| |done]. apply IH.
Qed.

Lemma week_loop_ignores ss rule ds dates j0 l tm0 start after :
  week_loop ss (set_bymonthday ds (set_bydate dates rule)) j0 l tm0 start after None =
  week_loop ss rule j0 l tm0 start after None.
Proof.
  generalize (@None Z). induction l as [|d l IH]; intros best; [done|]. cbn [week_loop]. destruct best; [done|].
  rewrite !IH. destruct (j2date (j0 + d)) as [[y m] mday].
  cbn [byday has_bymonth bymonth set_bymonthday set_bydate].
  destruct (if present (byday rule) then _ else _); [done|].
  destruct (rejected _ _ _) as [[]|]; cbn [mbind result_bind]; [done| |done].
  change (scan_times_on_date ss (set_bymonthday ds (set_bydate dates rule)) y m mday (-1) (-1) (-1) tm0 start after None)
    with (scan_times_on_date ss rule y m mday (-1) (-1) (-1) tm0 start after None).
  destruct (scan_times_on_date _ _ _ _ _ _ _ _ _ _ _ _) as [b|]; [|done]. cbn [mbind result_bind]. apply IH.
Qed.

(** C40. FREQ=WEEKLY does not look at BYMONTHDAY and BYDATE: whatever lists of
    them a weekly rule carries, the result is the same, error or not, in every
    session, so a weekly rule can return a date that violates a clause that is
    present. *)
Theorem weekly_ignores_month_days ss rule start after ds dates :
  freq rule = FREQ_WEEKLY ->
  eval_calendar ss (set_bymonthday ds (set_bydate dates rule)) start after = eval_calendar ss rule start after.
Proof.
  intros Hf. unfold eval_calendar. generalize (Z.to_nat SCHED_MAX_PERIODS). intros n.
  destruct (timestamp2tm _ start) as [[[[tm0 fsec] tz]|]|]; [|done|done]. cbn [mbind result_bind].
  change (first_period (set_bymonthday ds (set_bydate dates rule)) start after) with (first_period rule start after).
  apply period_loop_ext. intros k. unfold eval_period.
  change (freq (set_bymonthday ds (set_bydate dates rule))) with (freq rule). rewrite Hf.
  unfold weekly_period. destruct (date2j ss _ _ _) as [j|]; [|done]. cbn [mbind result_bind].
  apply week_loop_ignores.
Qed.

(** FREQ=WEEKLY;BYMONTHDAY=1 from 2025-05-08 on: the next run is 2025-05-15. *)
Lemma weekly_ignores_month_days_witness :
  eval_calendar example_session (set_bymonthday [1] (set_bydate [] (set_freq FREQ_WEEKLY empty_rule)))
    800000000000000 800000000000000
  = Ok (Some 800604800000000).
Proof.
  rewrite weekly_ignores_month_days by reflexivity. vm_compute. reflexivity.
Defined.

(** FREQ=SECONDLY;BYHOUR=3. *)
Definition secondly_at_three : CalendarRule :=
  set_byhour (mark (replicate 24 false) 3) true (set_freq FREQ_SECONDLY empty_rule).

Lemma secondly_at_three_wf : rule_wf secondly_at_three.
Proof. split; vm_compute; repeat (constructor || discriminate). Qed.

Lemma secondly_hour tm0 h mi s :
  time_selected secondly_at_three tm0 h mi s = true -> 0 <= h < 24 -> h = 3.
Proof.
  intros H Hh. assert (Hall : forallb (fun h => implb (marked (byhour secondly_at_three) h) (h =? 3)) (seqZ 0 24) = true)
    by (vm_compute; reflexivity).
  rewrite forallb_forall in Hall. specialize (Hall h).
  rewrite <- list_elem_of_In, elem_of_seqZ in Hall. specialize (Hall ltac:(lia)).
  unfold time_selected, filt in H. cbn [freq secondly_at_three set_byhour set_freq] in H.
  apply andb_prop in H as [H _]. apply andb_prop in H as [H _]. change (negb (has_byhour secondly_at_three)) with false in H. cbn [orb] in H.
  rewrite H in Hall. cbn [implb] in Hall. lia.
Qed.

(** Three o'clock of the next day is an occurrence. *)
Lemma next_three off tm0 start :
  -63082195200000000 <= start <= 8999000000000000000 -> Z.abs off < 86400 ->
  exists k t, 0 <= k /\ occurrence off secondly_at_three tm0 start k t /\ start < t.
Proof.
  intros Hs Ho. set (w := start + off * USECS_PER_SEC). set (j := w / USECS_PER_DAY + 2451546).
  assert (Hj : 1721426 <= j <= 106700000) by (unfold j, w, USECS_PER_DAY, USECS_PER_SEC; lia).
  destruct (j2date j) as [[y m] d] eqn:E.
  assert (Hj' : 0 <= j <= INT_MAX) by (unfold INT_MAX; lia).
  pose proof (j2date_year _ _ _ _ Hj' E) as Hy0. destruct (j2date_spec _ _ _ _ Hj' E) as (_ & Hv & He).
  assert (Hy : 1 <= y).
  { apply Z.nlt_ge. intros Hlt. pose proof (date2j_civil_year_mono (y + 1) 1 ltac:(lia) ltac:(lia)) as H2.
    change (date2j_civil 1 1 0) with 1721425 in H2. destruct Hv as [Hm Hd].
    pose proof (date2j_civil_month_end y m ltac:(lia) Hm) as H1. rewrite (date2j_civil_day y m d) in He. lia. }
  assert (Hx : wall y m d 3 0 0 = (w / USECS_PER_DAY + 1) * USECS_PER_DAY + 10800 * USECS_PER_SEC).
  { unfold wall. rewrite He. unfold j. lia. }
  set (x := wall y m d 3 0 0) in *.
  assert (Hk : exists k, x <= w + k * USECS_PER_SEC < x + USECS_PER_SEC).
  { exists (- ((w - x) / USECS_PER_SEC)). unfold USECS_PER_SEC. lia. }
  destruct Hk as [k Hk]. exists k, (x - off * USECS_PER_SEC).
  assert (Hw : w < x) by (rewrite Hx; unfold USECS_PER_DAY, USECS_PER_SEC; lia).
  split; [unfold USECS_PER_SEC in Hk; lia|]. split; [|unfold w in Hw; lia].
  exists y, m, d, 3, 0, 0. split; [done|]. split; [done|]. split; [unfold time_fields; lia|].
  split; [unfold in_period; cbn [freq secondly_at_three set_byhour set_freq interval empty_rule];
          fold w x; rewrite Z.mul_1_r; exact Hk|].
  do 3 (split; [reflexivity|]).
  unfold IS_VALID_TIMESTAMP, MIN_TIMESTAMP, END_TIMESTAMP. rewrite Hx. unfold w, USECS_PER_DAY, USECS_PER_SEC in *. lia.
Qed.

(** The search gives up too early for fine-grained rules with a coarse
    clause.  For FREQ=SECONDLY;BYHOUR=3, a start (and last run) between 04:00
    and 22:53 local time finds no next run, although the rule has occurrences:
    [SCHED_MAX_PERIODS] seconds do not reach the next 03:00. *)
Theorem secondly_gives_up ss off start :
  FixedClock ss off -> -63082195200000000 <= start <= 8999000000000000000 ->
  14400 <= (start + off * USECS_PER_SEC) mod USECS_PER_DAY / USECS_PER_SEC < 82400 ->
  eval_calendar ss secondly_at_three start start = Ok None /\
  exists tm0 fsec tz k t, timestamp2tm (session_timezone ss) start = Ok (Some (tm0, fsec, tz)) /\
    0 <= k /\ occurrence off secondly_at_three tm0 start k t /\ start < t.
Proof.
  intros Hc Hs Hsod. pose proof (clock_off (ss := ss)) as Ho.
  assert (Hv : IS_VALID_TIMESTAMP start = true) by (unfold IS_VALID_TIMESTAMP, MIN_TIMESTAMP, END_TIMESTAMP; lia).
  destruct (start_local ss off start Hc Hv ltac:(lia)) as (tm0 & E & Hy & Hd & Ht & Hw).
  split.
  - unfold eval_calendar. rewrite E. cbn [mbind result_bind].
    assert (first_period secondly_at_three start start = 0) as H0 by (unfold first_period; by rewrite Z.ltb_irrefl).
    assert (Hn : Z.of_nat (Z.to_nat SCHED_MAX_PERIODS) = 4000) by (apply Z2Nat.id; unfold SCHED_MAX_PERIODS; lia).
    revert Hn. generalize (Z.to_nat SCHED_MAX_PERIODS). intros n Hn.
    pose proof (period_loop_least ss off secondly_at_three secondly_at_three_wf tm0 start start Hd Ht Hy Hv Hw
      ltac:(unfold MIN_TIMESTAMP; lia) n 0 ltac:(lia)) as L.
    rewrite H0, Hn in *. specialize (L ltac:(unfold SCHED_MAX_PERIODS; lia)).
    destruct (period_loop _ _ _) as [[t|]|e]; [exfalso|done|done].
    destruct L as (_ & (k & Hk & (y & m & d & h & mi & s & _ & _ & Htf & Hp & _ & Hsel & _)) & _).
    apply secondly_hour in Hsel; [|apply Htf]. destruct Htf as (_ & Hmi & Hse).
    unfold in_period in Hp. cbn [freq secondly_at_three set_byhour set_freq interval empty_rule] in Hp.
    unfold wall, USECS_PER_DAY, USECS_PER_SEC in *. subst h.
    clear -Hp Hmi Hse Hk Hsod. lia.
  - destruct (next_three off tm0 start Hs Ho) as (k & t & Hk & Hocc & Hlt).
    by exists tm0, (start mod USECS_PER_SEC), (- off), k, t.
Qed.

Lemma secondly_gives_up_witness :
  eval_calendar example_session secondly_at_three 800000000000000 800000000000000 = Ok None.
Proof.
  apply (secondly_gives_up example_session 3600); [apply fixed_zone_clock, plus_one_fixed|lia|].
  vm_compute. split; [discriminate|reflexivity].
Defined.

(** Period arithmetic of FREQ=MONTHLY.  From year 0 on, the year and month
    of period [k] are those of the month [k * interval] months after the start.
    For a start date before that, C's truncating [%] gives a month below 1
    whenever the month index is negative and not a multiple of 12: the code then
    reads [bymonth[mon]] and [md[month - 1]] out of their bounds. *)
Theorem monthly_index_spec rule tm0 k :
  -1000000 <= tm_year tm0 <= 1000000 -> 1 <= tm_mon tm0 <= 12 -> 0 <= k * interval rule <= 1000000000 ->
  let i := tm_year tm0 * 12 + (tm_mon tm0 - 1) + k * interval rule in
  let '(year, mon) := monthly_index rule tm0 k in
  year * 12 + (mon - 1) = i /\
  (0 <= i -> 1 <= mon <= 12) /\
  (i < 0 -> i mod 12 <> 0 -> -10 <= mon <= 0).
Proof.
  intros Hy Hm Hk. unfold monthly_index.
  set (i := tm_year tm0 * 12 + (tm_mon tm0 - 1) + k * interval rule).
  assert (Hi : -30000000 <= i <= 2000000000) by lia. clearbody i. cbn zeta.
  rewrite !int32_small by (unfold is_int32, INT_MIN, INT_MAX; lia). lia.
Qed.

(** A job started in March of 3 BC: period 0 falls in "month" -9. *)
Lemma monthly_index_spec_witness :
  let '(year, mon) := monthly_index empty_rule (mk_tm 0 0 0 15 3 (-2) 0 0 (-1) 0 None) 0 in
  year * 12 + (mon - 1) = -22 /\ mon <= 0.
Proof.
  pose proof (monthly_index_spec empty_rule (mk_tm 0 0 0 15 3 (-2) 0 0 (-1) 0 None) 0) as H.
  cbn [tm_year tm_mon interval empty_rule] in H.
  destruct (monthly_index _ _ _) as [year mon]. destruct H as (H1 & _ & H3); [lia|lia|lia|].
  split; [exact H1|]. apply H3; [lia|discriminate].
Defined.
