(* ===== verification/DbmsOutput.v ===== *)
(** * DBMS_OUTPUT: the session's output buffer

    contrib/ivorysql_ora/src/builtin_packages/dbms_output/dbms_output.c.  The
    buffer is a singly linked list of palloc'ed nodes with head and tail
    pointers; it is modelled with its store, pointers and frees, so that a
    dangling pointer would be an error.  The abstract machine [spec_call] keeps a
    queue of lines; [exec_call] is shown to refine it for every sequence of
    calls.  [line_count], an int in the code, is not bounded by its type.  The
    composite tuples and arrays the SQL functions build are the
    constructors of [value]. *)

From stdpp Require Import gmap.
From S2P Require Import Prelude.

(** ** Definitions *)

Definition DBMS_OUTPUT_MAX_LINE_LENGTH : Z := 32767.
Definition DBMS_OUTPUT_MIN_BUFFER_SIZE : Z := 2000.
Definition DBMS_OUTPUT_UNLIMITED : Z := -1.
Definition DBMS_OUTPUT_NULL_LINE_LEN : Z := -1.

Abbreviation loc := positive.

(** [DbmsOutputLine]: [len] is -1 for a NULL line. *)
Record DbmsOutputLine := mk_line { next : option loc; len : Z; data : bytes }.

Record DbmsOutputBuffer := mk_buffer {
  head : option loc;
  tail : option loc;
  buffer_size : Z;
  buffer_used : Z;
  line_count : Z;
  enabled : bool;
  current_line : bytes
}.

(** The static [output_buffer] and the nodes of its memory context. *)
Record ostate := mk_ostate { nodes : gmap loc DbmsOutputLine; output_buffer : option DbmsOutputBuffer }.

Definition init_ostate : ostate := mk_ostate ∅ None.

Definition set_buffer (b : DbmsOutputBuffer) (s : ostate) : ostate := mk_ostate (nodes s) (Some b).
Definition with_size v b := mk_buffer (head b) (tail b) v (buffer_used b) (line_count b) (enabled b) (current_line b).
Definition with_current v b :=
  mk_buffer (head b) (tail b) (buffer_size b) (buffer_used b) (line_count b) (enabled b) v.

(** Reading a node; a dangling pointer is an internal error. *)
Definition deref (l : loc) : ST ostate DbmsOutputLine := fun s =>
  match nodes s !! l with
  | Some n => (Ok n, s)
  | None => (Err (mkError ERRCODE_INTERNAL_ERROR "dangling pointer"), s)
  end.

Definition zlen (s : bytes) : Z := Z.of_nat (length s).

(** [cleanup_output_buffer]: deletes the memory context and the structure. *)
Definition cleanup_output_buffer : ST ostate unit := fun s =>
  match output_buffer s with
  | None => (Ok tt, s)
  | Some _ => (Ok tt, mk_ostate ∅ None)
  end.

Definition init_output_buffer (size : Z) : ST ostate unit := fun s =>
  match output_buffer s with
  | Some b =>
      if enabled b then (Ok tt, set_buffer (with_size size b) s)
      else (Ok tt, mk_ostate ∅ (Some (mk_buffer None None size 0 0 true [])))
  | None => (Ok tt, mk_ostate ∅ (Some (mk_buffer None None size 0 0 true [])))
  end.

(** Linking a new node at the tail. *)
Definition link_node (l : loc) (n : DbmsOutputLine) (b : DbmsOutputBuffer) : ST ostate unit :=
  match tail b with
  | None =>
      s ← st_get;
      st_put (mk_ostate (<[l := n]> (nodes s))
        (Some (mk_buffer (Some l) (Some l) (buffer_size b) (buffer_used b) (line_count b) (enabled b) (current_line b))))
  | Some t =>
      last ← deref t;
      s ← st_get;
      st_put (mk_ostate (<[t := mk_line (Some l) (len last) (data last)]> (<[l := n]> (nodes s)))
        (Some (mk_buffer (head b) (Some l) (buffer_size b) (buffer_used b) (line_count b) (enabled b) (current_line b))))
  end.

(** [add_line_to_buffer(line, line_len)]; [None] is a NULL line. *)
Definition add_line_to_buffer (line : option bytes) (line_len : Z) : ST ostate unit :=
  s ← st_get;
  match output_buffer s with
  | None => st_error ERRCODE_INTERNAL_ERROR "NULL output_buffer"
  | Some b =>
      if negb (buffer_size b =? DBMS_OUTPUT_UNLIMITED) && (buffer_size b - buffer_used b <? line_len) then
        st_error ERRCODE_PROGRAM_LIMIT_EXCEEDED "ORU-10027: buffer overflow"
      else
        let n := match line with
                 | None => mk_line None DBMS_OUTPUT_NULL_LINE_LEN []
                 | Some d => mk_line None line_len d
                 end in
        _ ← link_node (fresh (dom (nodes s))) n b;
        s ← st_get;
        match output_buffer s with
        | Some b =>
            st_put (set_buffer (mk_buffer (head b) (tail b) (buffer_size b) (buffer_used b + line_len)
                                          (line_count b + 1) (enabled b) (current_line b)) s)
        | None => st_error ERRCODE_INTERNAL_ERROR "NULL output_buffer"
        end
  end.

(** [pop_line_from_buffer] and the caller's [pfree]; [None] is the NULL return. *)
Definition pop_line_from_buffer : ST ostate (option DbmsOutputLine) :=
  s ← st_get;
  match output_buffer s with
  | None => mret None
  | Some b =>
      match head b with
      | None => mret None
      | Some l =>
          n ← deref l;
          _ ← st_put (mk_ostate (delete l (nodes s))
            (Some (mk_buffer (next n) (match next n with None => None | Some _ => tail b end)
                     (buffer_size b) (if 0 <? len n then buffer_used b - len n else buffer_used b)
                     (line_count b - 1) (enabled b) (current_line b))));
          mret (Some n)
      end
  end.

(** What the SQL functions return. *)
Inductive value :=
  | VVoid
  | VLine (line : option bytes) (status : Z)
  | VLines (lines : list (option bytes)) (count : Z).

Definition ora_dbms_output_enable (arg : option Z) : ST ostate value :=
  let size := match arg with
              | None => DBMS_OUTPUT_UNLIMITED
              | Some z => if z <? DBMS_OUTPUT_MIN_BUFFER_SIZE then DBMS_OUTPUT_MIN_BUFFER_SIZE else z
              end in
  _ ← init_output_buffer size; mret VVoid.

Definition ora_dbms_output_disable : ST ostate value := _ ← cleanup_output_buffer; mret VVoid.

(** [resetStringInfo] and [appendStringInfoString] on [current_line]. *)
Definition set_current (v : bytes) : ST ostate unit :=
  s ← st_get;
  match output_buffer s with
  | Some b => st_put (set_buffer (with_current v b) s)
  | None => st_error ERRCODE_INTERNAL_ERROR "NULL output_buffer"
  end.

Definition line_overflow {A} : ST ostate A :=
  st_error ERRCODE_PROGRAM_LIMIT_EXCEEDED "ORU-10028: line length overflow".

(** The buffer, when output is not discarded. *)
Definition active (s : ostate) : option DbmsOutputBuffer :=
  match output_buffer s with
  | Some b => if enabled b then Some b else None
  | None => None
  end.

Definition ora_dbms_output_put_line (arg : option bytes) : ST ostate value :=
  s ← st_get;
  match active s with
  | None => mret VVoid
  | Some b =>
      let line_len := match arg with Some l => zlen l | None => 0 end in
      if 0 <? zlen (current_line b) then
        if DBMS_OUTPUT_MAX_LINE_LENGTH <? zlen (current_line b) + line_len then line_overflow
        else
          let cur := match arg with Some l => current_line b ++ l | None => current_line b end in
          _ ← set_current cur;
          _ ← add_line_to_buffer (Some cur) (zlen cur);
          _ ← set_current [];
          mret VVoid
      else if DBMS_OUTPUT_MAX_LINE_LENGTH <? line_len then line_overflow
      else _ ← add_line_to_buffer arg line_len; mret VVoid
  end.

Definition ora_dbms_output_put (arg : option bytes) : ST ostate value :=
  s ← st_get;
  match active s, arg with
  | Some b, Some str =>
      if DBMS_OUTPUT_MAX_LINE_LENGTH <? zlen (current_line b) + zlen str then line_overflow
      else _ ← set_current (current_line b ++ str); mret VVoid
  | _, _ => mret VVoid
  end.

Definition ora_dbms_output_new_line : ST ostate value :=
  s ← st_get;
  match active s with
  | None => mret VVoid
  | Some b =>
      if 0 <? zlen (current_line b) then
        _ ← add_line_to_buffer (Some (current_line b)) (zlen (current_line b));
        _ ← set_current [];
        mret VVoid
      else _ ← add_line_to_buffer (Some []) 0; mret VVoid
  end.

(** The text of a node, NULL for a NULL line. *)
Definition line_text (n : DbmsOutputLine) : option bytes :=
  if len n =? DBMS_OUTPUT_NULL_LINE_LEN then None else Some (take (Z.to_nat (len n)) (data n)).

Definition ora_dbms_output_get_line : ST ostate value :=
  n ← pop_line_from_buffer;
  match n with
  | None => mret (VLine None 1)
  | Some n => mret (VLine (line_text n) 0)
  end.

(** The loop of [ora_dbms_output_get_lines]: at most [n] lines. *)
Fixpoint pop_lines (n : nat) : ST ostate (list (option bytes)) :=
  match n with
  | O => mret []
  | S n' =>
      node ← pop_line_from_buffer;
      match node with
      | None => mret []
      | Some node => rest ← pop_lines n'; mret (line_text node :: rest)
      end
  end.

Definition ora_dbms_output_get_lines (requested : Z) : ST ostate value :=
  let requested := if requested <? 0 then 0 else requested in
  s ← st_get;
  match output_buffer s with
  | None => mret (VLines [] 0)
  | Some b =>
      if (line_count b =? 0) || (requested =? 0) then mret (VLines [] 0)
      else
        let actual := if requested <? line_count b then requested else line_count b in
        lines ← pop_lines (Z.to_nat actual);
        mret (VLines lines (Z.of_nat (length lines)))
  end.

Definition ora_dbms_output_reset : ST ostate value := _ ← cleanup_output_buffer; mret VVoid.

(** The calls of the package. *)
Inductive call :=
  | Enable (size : option Z) | Disable | PutLine (line : option bytes) | Put (text : option bytes)
  | NewLine | GetLine | GetLines (n : Z) | ResetOutput.

Definition exec_call (c : call) : ST ostate value :=
  match c with
  | Enable size => ora_dbms_output_enable size
  | Disable => ora_dbms_output_disable
  | PutLine line => ora_dbms_output_put_line line
  | Put text => ora_dbms_output_put text
  | NewLine => ora_dbms_output_new_line
  | GetLine => ora_dbms_output_get_line
  | GetLines n => ora_dbms_output_get_lines n
  | ResetOutput => ora_dbms_output_reset
  end.

(** ** Specification: a queue of lines, a pending line and a limit *)

Record queue := mk_queue { q_lines : list (option bytes); q_pending : bytes; q_limit : option Z }.

(** Bytes that count against the limit. *)
Definition line_bytes (l : option bytes) : Z := match l with Some s => zlen s | None => 0 end.
Definition used_bytes (ls : list (option bytes)) : Z := foldr (fun l n => line_bytes l + n) 0 ls.

Definition over_limit (q : queue) (l : option bytes) : bool :=
  match q_limit q with
  | Some lim => lim <? used_bytes (q_lines q) + line_bytes l
  | None => false
  end.

Definition buffer_overflow {A} : result A := ereport ERRCODE_PROGRAM_LIMIT_EXCEEDED "ORU-10027: buffer overflow".
Definition length_overflow {A} : result A := ereport ERRCODE_PROGRAM_LIMIT_EXCEEDED "ORU-10028: line length overflow".

(** Append a line; on overflow the queue keeps its lines and [pending]. *)
Definition spec_push (l : option bytes) (pending : bytes) (q : queue) : result value * option queue :=
  if over_limit q l then (buffer_overflow, Some (mk_queue (q_lines q) pending (q_limit q)))
  else (Ok VVoid, Some (mk_queue (q_lines q ++ [l]) [] (q_limit q))).

Definition spec_call (c : call) : ST (option queue) value := fun t =>
  match c, t with
  | Enable size, _ =>
      let lim := match size with None => None | Some z => Some (Z.max z 2000) end in
      (Ok VVoid, Some (match t with Some q => mk_queue (q_lines q) (q_pending q) lim | None => mk_queue [] [] lim end))
  | Disable, _ | ResetOutput, _ => (Ok VVoid, None)
  | (PutLine _ | Put _ | NewLine), None => (Ok VVoid, None)
  | GetLine, None => (Ok (VLine None 1), None)
  | GetLines _, None => (Ok (VLines [] 0), None)
  | PutLine l, Some q =>
      if 32767 <? zlen (q_pending q) + line_bytes l then (length_overflow, Some q)
      else
        match q_pending q with
        | [] => spec_push l [] q
        | _ => let cur := q_pending q ++ default [] l in spec_push (Some cur) cur q
        end
  | Put l, Some q =>
      if 32767 <? zlen (q_pending q) + line_bytes l then (length_overflow, Some q)
      else (Ok VVoid, Some (mk_queue (q_lines q) (q_pending q ++ default [] l) (q_limit q)))
  | NewLine, Some q => spec_push (Some (q_pending q)) (q_pending q) q
  | GetLine, Some q =>
      match q_lines q with
      | [] => (Ok (VLine None 1), Some q)
      | l :: ls => (Ok (VLine l 0), Some (mk_queue ls (q_pending q) (q_limit q)))
      end
  | GetLines n, Some q =>
      let k := Z.to_nat n in
      (Ok (VLines (take k (q_lines q)) (Z.of_nat (length (take k (q_lines q))))),
       Some (mk_queue (drop k (q_lines q)) (q_pending q) (q_limit q)))
  end.

(** ** Representation of the queue by the linked list *)

Definition node_is (n : DbmsOutputLine) (x : option bytes) : Prop :=
  match x with
  | None => len n = -1
  | Some d => len n = zlen d /\ data n = d
  end.

(** From pointer [p], the nodes at [ls] hold the lines [xs] and end the list. *)
Fixpoint chain (h : gmap loc DbmsOutputLine) (p : option loc) (ls : list loc) (xs : list (option bytes)) : Prop :=
  match ls, xs with
  | [], [] => p = None
  | l :: ls', x :: xs' => p = Some l /\ exists n, h !! l = Some n /\ node_is n x /\ chain h (next n) ls' xs'
  | _, _ => False
  end.

Definition size_of (lim : option Z) : Z := match lim with Some z => z | None => -1 end.

Record represents (s : ostate) (b : DbmsOutputBuffer) (ls : list loc) (q : queue) : Prop := {
  rep_buffer : output_buffer s = Some b;
  rep_enabled : enabled b = true;
  rep_chain : chain (nodes s) (head b) ls (q_lines q);
  rep_tail : tail b = list.last ls;
  rep_nodup : NoDup ls;
  rep_dom : dom (nodes s) = list_to_set ls;
  rep_size : buffer_size b = size_of (q_limit q);
  rep_limit : match q_limit q with Some lim => 2000 <= lim | None => True end;
  rep_used : buffer_used b = used_bytes (q_lines q);
  rep_count : line_count b = Z.of_nat (length (q_lines q));
  rep_current : current_line b = q_pending q;
  rep_pending : zlen (q_pending q) <= 32767
}.

Definition refines (s : ostate) (t : option queue) : Prop :=
  match t with
  | None => output_buffer s = None /\ nodes s = ∅
  | Some q => exists b ls, represents s b ls q
  end.

Create HintDb output.

Lemma chain_frame h p ls xs l n : l ∉ ls -> chain h p ls xs -> chain (<[l := n]> h) p ls xs.
Proof.
  revert p xs. induction ls as [|k ls IH]; intros p [|x xs] Hl; [done..|].
  apply not_elem_of_cons in Hl as [Hne Hl]. intros (-> & m & Hm & Hx & Hc). split; [done|].
  exists m. rewrite lookup_insert_ne by done. eauto.
Qed.

Lemma chain_delete h p ls xs l : l ∉ ls -> chain h p ls xs -> chain (delete l h) p ls xs.
Proof.
  revert p xs. induction ls as [|k ls IH]; intros p [|x xs] Hl; [done..|].
  apply not_elem_of_cons in Hl as [Hne Hl]. intros (-> & m & Hm & Hx & Hc). split; [done|].
  exists m. rewrite lookup_delete_ne by done. eauto.
Qed.

Lemma chain_length h p ls xs : chain h p ls xs -> length ls = length xs.
Proof.
  revert p xs. induction ls as [|k ls IH]; intros p [|x xs]; try done. intros (_ & m & _ & _ & Hc). cbn. f_equal. eauto.
Qed.

(** Appending behind the last node [t]. *)
Lemma chain_snoc h p ls t xs l x n m :
  NoDup (ls ++ [t]) -> l ∉ ls ++ [t] -> node_is n x -> next n = None -> h !! t = Some m ->
  chain h p (ls ++ [t]) xs ->
  chain (<[t := mk_line (Some l) (len m) (data m)]> (<[l := n]> h)) p ((ls ++ [t]) ++ [l]) (xs ++ [x]).
Proof.
  revert p xs. induction ls as [|k ls IH]; intros p xs Hnd Hl Hn Hnx Ht Hc.
  - destruct xs as [|y [|z xs]]; [done| |by destruct Hc as (_ & ? & _ & _ & [])].
    destruct Hc as (-> & n0 & Hn0 & Hy & _). cbn [app]. assert (n0 = m) as -> by congruence.
    split; [done|]. exists (mk_line (Some l) (len m) (data m)). rewrite lookup_insert_eq. split; [done|].
    split; [exact Hy|]. split; [done|]. exists n. apply not_elem_of_cons in Hl as [Hne _].
    rewrite lookup_insert_ne, lookup_insert_eq by done. done.
  - destruct xs as [|y xs]; [done|]. destruct Hc as (-> & n0 & Hn0 & Hy & Hc). cbn [app] in *.
    inversion Hnd as [|? ? Hk Hnd']; subst. apply not_elem_of_cons in Hl as [Hne Hl].
    split; [done|]. exists n0. split; [|split; [done|by apply IH]].
    rewrite !lookup_insert_ne; [done| |]; [by apply not_eq_sym|].
    intros ->. apply Hk. apply elem_of_app. right. by left.
Qed.

Lemma used_bytes_app xs ys : used_bytes (xs ++ ys) = used_bytes xs + used_bytes ys.
Proof. unfold used_bytes. induction xs as [|x xs IH]; cbn [app foldr]; lia. Qed.

Lemma zlen_nonneg s : 0 <= zlen s.
Proof. unfold zlen. lia. Qed.

Lemma line_bytes_nonneg l : 0 <= line_bytes l.
Proof. destruct l; cbn; [apply zlen_nonneg|lia]. Qed.

Lemma zlen_app s t : zlen (s ++ t) = zlen s + zlen t.
Proof. unfold zlen. rewrite length_app. lia. Qed.

Lemma zlen_pos s : (0 <? zlen s) = match s with [] => false | _ => true end.
Proof. destruct s; reflexivity. Qed.

(** A node's text is its line. *)
Lemma line_text_node n x : node_is n x -> line_text n = x.
Proof.
  unfold line_text, DBMS_OUTPUT_NULL_LINE_LEN. destruct x as [d|]; cbn.
  - intros [-> ->]. pose proof (zlen_nonneg d). replace (zlen d =? -1) with false by lia.
    unfold zlen. by rewrite Nat2Z.id, take_ge by lia.
  - by intros ->.
Qed.

Lemma node_used n x u : node_is n x -> (if 0 <? len n then u - len n else u) = u - line_bytes x.
Proof.
  destruct x as [d|]; cbn.
  - intros [-> _]. pose proof (zlen_nonneg d). destruct (Z.ltb_spec 0 (zlen d)); lia.
  - intros ->. cbn. lia.
Qed.

(** The limit check of the code is the one of the specification. *)
Lemma overflow_check s b ls q l :
  represents s b ls q ->
  negb (buffer_size b =? DBMS_OUTPUT_UNLIMITED) && (buffer_size b - buffer_used b <? line_bytes l) = over_limit q l.
Proof.
  intros R. rewrite (rep_size _ _ _ _ R), (rep_used _ _ _ _ R). pose proof (rep_limit _ _ _ _ R).
  unfold over_limit, size_of, DBMS_OUTPUT_UNLIMITED. destruct (q_limit q) as [lim|]; [|done].
  replace (lim =? -1) with false by lia. cbn [negb andb]. lia.
Qed.

Lemma represents_current s b ls q v :
  represents s b ls q -> zlen v <= 32767 ->
  set_current v s = (Ok tt, set_buffer (with_current v b) s) /\
  represents (set_buffer (with_current v b) s) (with_current v b) ls (mk_queue (q_lines q) v (q_limit q)).
Proof.
  intros R Hv. unfold set_current, st_get, st_put, mbind, ST_bind. rewrite (rep_buffer _ _ _ _ R).
  split; [done|]. destruct R. by split.
Qed.

(** [add_line_to_buffer] appends to the queue or reports the overflow and
    changes nothing. *)
Lemma add_line_spec s b ls q l :
  represents s b ls q ->
  (over_limit q l = true -> add_line_to_buffer l (line_bytes l) s = (buffer_overflow, s)) /\
  (over_limit q l = false -> exists s' b' ls',
    add_line_to_buffer l (line_bytes l) s = (Ok tt, s') /\
    represents s' b' ls' (mk_queue (q_lines q ++ [l]) (q_pending q) (q_limit q))).
Proof.
  intros R. pose proof (overflow_check s b ls q l R) as Ho.
  unfold add_line_to_buffer, st_get, st_put, st_error, mbind, ST_bind. rewrite (rep_buffer _ _ _ _ R), Ho.
  split; intros Eo; rewrite Eo; [done|].
  set (n := match l with None => _ | Some d => _ end). set (k := fresh (dom (nodes s))).
  assert (Hk : k ∉ ls) by (pose proof (is_fresh (dom (nodes s))) as Hf; rewrite (rep_dom _ _ _ _ R) in Hf at 2; set_solver).
  assert (Hn : node_is n l /\ next n = None) by (by destruct l). destruct Hn as [Hn Hnx].
  unfold link_node, deref, st_get, st_put, mbind, ST_bind. destruct R as [_ He Hc Ht Hnd Hd Hs Hl Hu Hcnt Hcur Hp].
  destruct (list.last ls) as [t|] eqn:El; rewrite Ht.
  - apply list.last_Some in El as [ls0 ->].
    assert (exists m, nodes s !! t = Some m) as [m Hm].
    { apply elem_of_dom. rewrite Hd. set_solver. }
    rewrite Hm. eexists _, _, ((ls0 ++ [t]) ++ [k]). split; [reflexivity|].
    split; cbn [output_buffer set_buffer nodes head tail buffer_size buffer_used line_count enabled current_line q_lines q_pending q_limit];
      try done.
    + by apply chain_snoc.
    + by rewrite list.last_snoc.
    + apply list.NoDup_app. split; [done|]. split; [set_solver|]. apply list.NoDup_singleton.
    + rewrite !dom_insert_L, Hd. set_solver.
    + rewrite used_bytes_app. cbn. lia.
    + rewrite length_app. cbn. lia.
  - apply list.last_None in El as ->. eexists _, _, [k]. split; [reflexivity|].
    destruct (q_lines q) as [|? ?] eqn:Eq; [|done].
    split; cbn [output_buffer set_buffer nodes head tail buffer_size buffer_used line_count enabled current_line q_lines q_pending q_limit];
      try done.
    + split; [done|]. exists n. rewrite lookup_insert_eq. by rewrite Hnx.
    + apply list.NoDup_singleton.
    + rewrite dom_insert_L, Hd. set_solver.
    + cbn in *. lia.
    + cbn in *. lia.
Qed.

(** [pop_line_from_buffer] takes the first line and frees its node. *)
Lemma pop_line_spec s b ls q :
  represents s b ls q ->
  match q_lines q with
  | [] => pop_line_from_buffer s = (Ok None, s)
  | x :: xs => exists n s' b' ls', pop_line_from_buffer s = (Ok (Some n), s') /\ line_text n = x /\
      represents s' b' ls' (mk_queue xs (q_pending q) (q_limit q))
  end.
Proof.
  intros R. unfold pop_line_from_buffer, deref, st_get, st_put, mret, ST_ret, mbind, ST_bind. rewrite (rep_buffer _ _ _ _ R).
  destruct R as [_ He Hc Ht Hnd Hd Hs Hl Hu Hcnt Hcur Hp].
  destruct ls as [|l ls], (q_lines q) as [|x xs]; try done.
  { cbn in Hc. by rewrite Hc. }
  destruct Hc as (-> & n & Hn & Hx & Hc). inversion Hnd as [|? ? Hnl Hnd']; subst. rewrite Hn.
  eexists n, _, _, ls. split; [reflexivity|]. split; [by apply line_text_node|].
  split; cbn [output_buffer nodes head tail buffer_size buffer_used line_count enabled current_line q_lines q_pending q_limit];
    try done.
  - by apply chain_delete.
  - destruct ls as [|l2 ls]; destruct xs as [|x2 xs]; try done; cbn in Hc.
    + by rewrite Hc.
    + destruct Hc as (-> & _). exact Ht.
  - rewrite dom_delete_L, Hd. cbn. set_solver.
  - rewrite (node_used n x) by done.
    change (used_bytes (x :: xs)) with (line_bytes x + used_bytes xs) in Hu.
    cbn [buffer_used]. lia.
  - cbn [length line_count] in *. lia.
Qed.

Lemma pop_lines_spec k : forall s b ls q,
  represents s b ls q ->
  exists s' b' ls', pop_lines k s = (Ok (take k (q_lines q)), s') /\
    represents s' b' ls' (mk_queue (drop k (q_lines q)) (q_pending q) (q_limit q)).
Proof.
  induction k as [|k IH]; intros s b ls q R; cbn [pop_lines].
  - exists s, b, ls. split; [done|]. rewrite drop_0. by destruct q.
  - pose proof (pop_line_spec s b ls q R) as Hp. unfold mbind, ST_bind. destruct (q_lines q) as [|x xs] eqn:Eq.
    + rewrite Hp. exists s, b, ls. split; [done|]. cbn. rewrite <- Eq. by destruct q.
    + destruct Hp as (n & s1 & b1 & ls1 & -> & <- & R1).
      destruct (IH _ _ _ _ R1) as (s2 & b2 & ls2 & -> & R2). exists s2, b2, ls2. done.
Qed.

(** ** Every call simulates its specification *)

Lemma active_represents s b ls q : represents s b ls q -> active s = Some b.
Proof. intros R. unfold active. by rewrite (rep_buffer _ _ _ _ R), (rep_enabled _ _ _ _ R). Qed.

(** The tail of PUT_LINE and NEW_LINE on a pending line: add it, then reset. *)
Lemma flush_spec s b ls q cur :
  represents s b ls q -> q_pending q = cur ->
  let '(r, s') := ((_ ← add_line_to_buffer (Some cur) (zlen cur); _ ← set_current []; mret VVoid) : ST ostate value) s in
  let '(r', t') := spec_push (Some cur) cur q in
  r = r' /\ refines s' t'.
Proof.
  intros R Hcur. destruct (add_line_spec s b ls q (Some cur) R) as [Hov Hok]. cbn [line_bytes] in Hov, Hok.
  unfold spec_push, mbind, ST_bind. destruct (over_limit q (Some cur)).
  - rewrite (Hov eq_refl). split; [done|]. exists b, ls. subst cur. by destruct q.
  - destruct (Hok eq_refl) as (s' & b' & ls' & -> & R').
    destruct (represents_current s' b' ls' _ [] R') as [-> R'']; [done|]. split; [done|]. eexists _, _. exact R''.
Qed.

Lemma put_line_simulates l s t :
  refines s t -> let '(r, s') := ora_dbms_output_put_line l s in let '(r', t') := spec_call (PutLine l) t in
  r = r' /\ refines s' t'.
Proof.
  intros HR. unfold ora_dbms_output_put_line, st_get. unfold mbind at 1, ST_bind at 1. destruct t as [q|]; cbn [spec_call].
  2:{ destruct HR as [Hb Hn]. unfold active. rewrite Hb. done. }
  destruct HR as (b & ls & R). rewrite (active_represents s b ls q R), (rep_current _ _ _ _ R), zlen_pos.
  change DBMS_OUTPUT_MAX_LINE_LENGTH with 32767. fold (line_bytes l).
  destruct (q_pending q) as [|c cur] eqn:Ep.
  - change (zlen [] + line_bytes l) with (line_bytes l). destruct (32767 <? line_bytes l).
    { split; [done|]. by exists b, ls. }
    destruct (add_line_spec s b ls q l R) as [Hov Hok]. unfold spec_push, mbind, ST_bind.
    destruct (over_limit q l).
    + rewrite (Hov eq_refl). split; [done|]. exists b, ls. rewrite <- Ep. by destruct q.
    + destruct (Hok eq_refl) as (s' & b' & ls' & -> & R'). split; [done|]. rewrite Ep in R'. by exists b', ls'.
  - destruct (Z.ltb_spec 32767 (zlen (c :: cur) + line_bytes l)) as [|Hle].
    { split; [done|]. by exists b, ls. }
    set (new := (c :: cur) ++ default [] l).
    replace (match l with Some l => (c :: cur) ++ l | None => c :: cur end) with new
      by (unfold new; destruct l; cbn; [done|by rewrite app_nil_r]).
    destruct (represents_current s b ls q new R) as [E R'].
    { unfold new. rewrite zlen_app. destruct l; cbn [default from_option line_bytes id] in *; [lia|]. unfold zlen in *; cbn in *; lia. }
    unfold mbind at 1, ST_bind at 1. rewrite E.
    pose proof (flush_spec _ _ _ _ new R' eq_refl) as H. exact H.
Qed.

Lemma new_line_simulates s t :
  refines s t -> let '(r, s') := ora_dbms_output_new_line s in let '(r', t') := spec_call NewLine t in
  r = r' /\ refines s' t'.
Proof.
  intros HR. unfold ora_dbms_output_new_line, st_get. unfold mbind at 1, ST_bind at 1. destruct t as [q|]; cbn [spec_call].
  2:{ destruct HR as [Hb Hn]. unfold active. rewrite Hb. done. }
  destruct HR as (b & ls & R). rewrite (active_represents s b ls q R), (rep_current _ _ _ _ R), zlen_pos.
  destruct (q_pending q) as [|c cur] eqn:Ep; [|by apply (flush_spec s b ls q)].
  destruct (add_line_spec s b ls q (Some []) R) as [Hov Hok]. change (line_bytes (Some [])) with 0 in *.
  unfold spec_push, mbind, ST_bind. destruct (over_limit q (Some [])).
  - rewrite (Hov eq_refl). split; [done|]. exists b, ls. rewrite <- Ep. by destruct q.
  - destruct (Hok eq_refl) as (s' & b' & ls' & -> & R'). split; [done|]. rewrite Ep in R'. by exists b', ls'.
Qed.

Lemma put_simulates l s t :
  refines s t -> let '(r, s') := ora_dbms_output_put l s in let '(r', t') := spec_call (Put l) t in
  r = r' /\ refines s' t'.
Proof.
  intros HR. unfold ora_dbms_output_put, st_get. unfold mbind at 1, ST_bind at 1. destruct t as [q|]; cbn [spec_call].
  2:{ destruct HR as [Hb Hn]. unfold active. rewrite Hb. done. }
  destruct HR as (b & ls & R). rewrite (active_represents s b ls q R), (rep_current _ _ _ _ R).
  change DBMS_OUTPUT_MAX_LINE_LENGTH with 32767. destruct l as [l|]; cbn [line_bytes default from_option id].
  - destruct (Z.ltb_spec 32767 (zlen (q_pending q) + zlen l)) as [|Hle]; [split; [done|]; by exists b, ls|].
    destruct (represents_current s b ls q (q_pending q ++ l) R) as [E R']; [rewrite zlen_app; lia|].
    unfold mbind, ST_bind. rewrite E. split; [done|]. eexists _, _. exact R'.
  - pose proof (rep_pending _ _ _ _ R). replace (32767 <? zlen (q_pending q) + 0) with false by lia.
    split; [done|]. rewrite app_nil_r. exists b, ls. by destruct q.
Qed.

Lemma get_simulates c s t :
  refines s t -> c = GetLine \/ (exists n, c = GetLines n) ->
  let '(r, s') := exec_call c s in let '(r', t') := spec_call c t in r = r' /\ refines s' t'.
Proof.
  intros HR [->|[n ->]]; cbn [exec_call].
  - unfold ora_dbms_output_get_line. unfold mbind at 1, ST_bind at 1. destruct t as [q|]; cbn [spec_call].
    + destruct HR as (b & ls & R). pose proof (pop_line_spec s b ls q R) as Hp. destruct (q_lines q) as [|x xs].
      * rewrite Hp. split; [done|]. by exists b, ls.
      * destruct Hp as (n & s' & b' & ls' & -> & <- & R'). split; [done|]. by exists b', ls'.
    + pose proof HR as [Hb Hn]. unfold pop_line_from_buffer, st_get, mbind, ST_bind. rewrite Hb. done.
  - unfold ora_dbms_output_get_lines, st_get. unfold mbind at 1, ST_bind at 1. destruct t as [q|]; cbn [spec_call].
    + destruct HR as (b & ls & R). rewrite (rep_buffer _ _ _ _ R), (rep_count _ _ _ _ R).
      set (k := if n <? 0 then 0 else n). destruct ((Z.of_nat (length (q_lines q)) =? 0) || (k =? 0)) eqn:E0.
      * assert (take (Z.to_nat n) (q_lines q) = [] /\ drop (Z.to_nat n) (q_lines q) = q_lines q) as [-> ->].
        { destruct (q_lines q) as [|x xs]; [by rewrite take_nil, drop_nil|].
          replace (Z.to_nat n) with 0%nat; [done|]. revert E0. unfold k. cbn [length].
          rewrite orb_true_iff, !Z.eqb_eq. destruct (Z.ltb_spec n 0); lia. }
        split; [done|]. exists b, ls. by destruct q.
      * set (a := Z.to_nat (if k <? _ then k else _)).
        assert (take (Z.to_nat n) (q_lines q) = take a (q_lines q) /\ drop (Z.to_nat n) (q_lines q) = drop a (q_lines q)) as [-> ->].
        { revert E0. unfold a, k. destruct (Z.ltb_spec n 0); [lia|]. intros _.
          destruct (Z.ltb_spec n (Z.of_nat (length (q_lines q)))); [done|].
          rewrite Nat2Z.id, !take_ge, !drop_ge by lia. done. }
        destruct (pop_lines_spec a s b ls q R) as (s' & b' & ls' & E & R').
        unfold mbind, ST_bind. rewrite E. split; [done|]. by exists b', ls'.
    + destruct HR as [Hb Hn]. rewrite Hb. done.
Qed.

Lemma enable_simulates size s t :
  refines s t -> let '(r, s') := exec_call (Enable size) s in let '(r', t') := spec_call (Enable size) t in
  r = r' /\ refines s' t'.
Proof.
  intros HR. cbn [exec_call spec_call]. unfold ora_dbms_output_enable, init_output_buffer. unfold mbind, ST_bind.
  set (sz := match size with None => _ | Some z => _ end).
  set (lim := match size with None => _ | Some z => _ end).
  assert (Hs : sz = size_of lim /\ match lim with Some z => 2000 <= z | None => True end).
  { unfold sz, lim, DBMS_OUTPUT_MIN_BUFFER_SIZE. destruct size as [z|]; [|done]. cbn. destruct (Z.ltb_spec z 2000); lia. }
  destruct Hs as [Hs Hl].
  destruct t as [q|].
  - destruct HR as (b & ls & R). rewrite (rep_buffer _ _ _ _ R), (rep_enabled _ _ _ _ R). split; [done|].
    exists (with_size sz b), ls. destruct R. by split.
  - destruct HR as [Hb Hn]. rewrite Hb. split; [done|]. eexists _, []. split; cbn; try done.
    apply base.NoDup_nil_2.
Qed.

Lemma exec_call_simulates c s t :
  refines s t -> (exec_call c s).1 = (spec_call c t).1 /\ refines (exec_call c s).2 (spec_call c t).2.
Proof.
  intros HR.
  enough (let '(r, s') := exec_call c s in let '(r', t') := spec_call c t in r = r' /\ refines s' t') as H
    by (destruct (exec_call c s), (spec_call c t); exact H).
  destruct c.
  - by apply enable_simulates.
  - cbn. unfold ora_dbms_output_disable, cleanup_output_buffer, mbind, ST_bind. destruct (output_buffer s) eqn:E; [done|].
    destruct t as [q|]; [|done]. destruct HR as (b & ls & R). rewrite (rep_buffer _ _ _ _ R) in E. done.
  - by apply put_line_simulates.
  - by apply put_simulates.
  - by apply new_line_simulates.
  - by apply get_simulates; [|left].
  - by apply get_simulates; [|right; eexists].
  - cbn. unfold ora_dbms_output_reset, cleanup_output_buffer, mbind, ST_bind. destruct (output_buffer s) eqn:E; [done|].
    destruct t as [q|]; [|done]. destruct HR as (b & ls & R). rewrite (rep_buffer _ _ _ _ R) in E. done.
Qed.

Lemma init_refines : refines init_ostate None.
Proof. done. Qed.

(** ** Properties *)

(** C2. The linked buffer refines the queue: for every sequence of calls the
    results of the package, errors included, are those of the abstract machine
    (a queue of lines, a pending line, a limit on the bytes queued).  In
    particular no call follows a dangling pointer, lines come out in the order
    in which they were completed, and a call that fails keeps the queue. *)
Theorem exec_refines_queue cs :
  (run_calls exec_call cs init_ostate).1 = (run_calls spec_call cs None).1.
Proof. apply (run_calls_simulation refines); [apply exec_call_simulates|apply init_refines]. Qed.

(** Invariant of every reachable state: the tail pointer is the last node,
    the line count and the byte count are those of the nodes reachable from the
    head, no node is leaked (the store holds exactly the list), and no line or
    pending text exceeds 32767 bytes. *)
Theorem reachable_buffer_invariant cs b :
  let s := (run_calls exec_call cs init_ostate).2 in
  output_buffer s = Some b ->
  exists ls xs, chain (nodes s) (head b) ls xs /\ tail b = list.last ls /\ dom (nodes s) = list_to_set ls /\ NoDup ls /\
    line_count b = Z.of_nat (length xs) /\ buffer_used b = used_bytes xs /\
    zlen (current_line b) <= 32767 /\ enabled b = true.
Proof.
  cbv zeta. intros Hb. pose proof (run_calls_simulation refines exec_call spec_call exec_call_simulates cs
    init_ostate None init_refines) as [_ HR].
  set (s := (run_calls exec_call cs init_ostate).2) in *. destruct (run_calls spec_call cs None).2 as [q|].
  - destruct HR as (b' & ls & R). rewrite (rep_buffer _ _ _ _ R) in Hb. injection Hb as <-.
    exists ls, (q_lines q). destruct R as [_ He Hc Ht Hnd Hd Hs Hl Hu Hcnt Hcur Hp]. rewrite Hcur. done.
  - destruct HR as [Hn _]. congruence.
Qed.

Lemma reachable_buffer_invariant_witness :
  exists ls xs, chain (nodes (run_calls exec_call [Enable None; PutLine (Some (lit "hello"))] init_ostate).2) (Some 1%positive) ls xs
    /\ used_bytes xs = 5.
Proof.
  destruct (reachable_buffer_invariant [Enable None; PutLine (Some (lit "hello"))]
    (mk_buffer (Some 1%positive) (Some 1%positive) (-1) 5 1 true [])) as (ls & xs & H1 & _ & _ & _ & _ & H2 & _).
  - vm_compute. reflexivity.
  - exists ls, xs. split; [exact H1|]. symmetry. exact H2.
Defined.

(** Results of the package, as results of the specification. *)
Lemma run_from cs s t : refines s t -> (run_calls exec_call cs s).1 = (run_calls spec_call cs t).1.
Proof. intros HR. by apply (run_calls_simulation refines); [apply exec_call_simulates|]. Qed.

Lemma run_calls_app {S C A} (f : C -> ST S A) cs ds s :
  run_calls f (cs ++ ds) s =
    let '(rs, s1) := run_calls f cs s in let '(rs', s2) := run_calls f ds s1 in (rs ++ rs', s2).
Proof.
  revert s. induction cs as [|c cs IH]; intros s; cbn [app run_calls]; [by destruct (run_calls f ds s)|].
  destruct (f c s) as [r s1]. rewrite IH. destruct (run_calls f cs s1) as [rs s2]. by destruct (run_calls f ds s2).
Qed.

Lemma spec_put_lines ls : forall done,
  Forall (fun l => line_bytes l <= 32767) ls ->
  run_calls spec_call (map PutLine ls) (Some (mk_queue done [] None)) =
    (map (fun _ => Ok VVoid) ls, Some (mk_queue (done ++ ls) [] None)).
Proof.
  induction ls as [|l ls IH]; intros done Hl; cbn [map run_calls]; [by rewrite app_nil_r|].
  inversion Hl as [|? ? H1 H2]; subst. cbn [spec_call q_pending q_lines q_limit].
  change (zlen [] + line_bytes l) with (line_bytes l). replace (32767 <? line_bytes l) with false by lia.
  unfold spec_push, over_limit. cbn [q_limit q_lines]. rewrite IH by done. by rewrite <- app_assoc.
Qed.

(** What is put comes out: after ENABLE(NULL), any lines of at most 32767
    bytes written with PUT_LINE (NULL lines included) are returned by GET_LINES,
    in order and unchanged. *)
Theorem put_lines_get_lines ls n :
  Forall (fun l => line_bytes l <= 32767) ls -> Z.of_nat (length ls) <= n ->
  List.last (run_calls exec_call (Enable None :: map PutLine ls ++ [GetLines n]) init_ostate).1 (Ok VVoid) =
    Ok (VLines ls (Z.of_nat (length ls))).
Proof.
  intros Hl Hn. rewrite (run_from _ _ None) by apply init_refines. cbn [run_calls spec_call].
  rewrite run_calls_app, spec_put_lines by done. cbn [run_calls spec_call q_lines q_pending q_limit app fst].
  rewrite take_ge by lia. rewrite app_comm_cons. apply last_last.
Qed.

Lemma put_lines_get_lines_witness :
  List.last (run_calls exec_call [Enable None; PutLine (Some (lit "a")); PutLine None; GetLines 5] init_ostate).1 (Ok VVoid) =
    Ok (VLines [Some (lit "a"); None] 2).
Proof.
  apply (put_lines_get_lines [Some (lit "a"); None] 5); [|cbn; lia].
  apply List.Forall_cons; [vm_compute; discriminate|]. apply List.Forall_cons; [vm_compute; discriminate|].
  apply List.Forall_nil.
Defined.

Definition is_enable (c : call) : bool := match c with Enable _ => true | _ => false end.

Definition within (lim : Z) (t : option queue) : Prop :=
  match t with Some q => q_limit q = Some lim /\ used_bytes (q_lines q) <= lim | None => True end.

Lemma used_bytes_nonneg xs : 0 <= used_bytes xs.
Proof. unfold used_bytes. induction xs as [|x xs IH]; cbn [foldr]; [lia|]. pose proof (line_bytes_nonneg x). lia. Qed.

Lemma within_push lim l p q : within lim (Some q) -> within lim (spec_push l p q).2.
Proof.
  intros [Hl Hu]. unfold spec_push, over_limit. rewrite Hl.
  destruct (Z.ltb_spec lim (used_bytes (q_lines q) + line_bytes l)); cbn; [done|]. split; [done|].
  rewrite used_bytes_app. unfold used_bytes at 2. cbn [foldr]. lia.
Qed.

Lemma within_step lim c t : is_enable c = false -> within lim t -> within lim (spec_call c t).2.
Proof.
  intros Hc Ht. destruct c as [size| |l|l| | |n|]; try done; destruct t as [q|]; try done; cbn [spec_call].
  - destruct (32767 <? _); [done|]. destruct (q_pending q); by apply within_push.
  - destruct (32767 <? _); [done|]. exact Ht.
  - by apply within_push.
  - destruct Ht as [Hl Hu]. destruct (q_lines q) as [|x xs] eqn:E; cbn [snd within q_limit q_lines]; [by rewrite E|]. split; [done|].
    pose proof (line_bytes_nonneg x). change (used_bytes (x :: xs)) with (line_bytes x + used_bytes xs) in Hu. lia.
  - destruct Ht as [Hl Hu]. cbn [snd within q_limit q_lines]. split; [done|]. rewrite <- (take_drop (Z.to_nat n) (q_lines q)), used_bytes_app in Hu.
    pose proof (used_bytes_nonneg (take (Z.to_nat n) (q_lines q))). lia.
Qed.

Lemma within_run lim cs : forall t, Forall (fun c => is_enable c = false) cs -> within lim t ->
  within lim (run_calls spec_call cs t).2.
Proof.
  induction cs as [|c cs IH]; intros t Hc Ht; [done|]. inversion Hc as [|? ? H1 H2]; subst. cbn [run_calls].
  pose proof (within_step lim c t H1 Ht) as Hw. destruct (spec_call c t) as [r t1]. cbn in Hw.
  specialize (IH t1 H2 Hw). by destruct (run_calls spec_call cs t1).
Qed.

(** The limit of ENABLE holds until the next ENABLE: whatever is called in
    between, the bytes queued never exceed it (2000 when less was asked for). *)
Theorem buffer_within_limit z cs b :
  Forall (fun c => is_enable c = false) cs ->
  output_buffer (run_calls exec_call (Enable (Some z) :: cs) init_ostate).2 = Some b ->
  buffer_used b <= buffer_size b /\ buffer_size b = Z.max z 2000.
Proof.
  intros Hc Hb. pose proof (run_calls_simulation refines exec_call spec_call exec_call_simulates (Enable (Some z) :: cs)
    init_ostate None init_refines) as [_ HR].
  assert (Hw : within (Z.max z 2000) (run_calls spec_call (Enable (Some z) :: cs) None).2).
  { cbn [run_calls spec_call].
    pose proof (within_run (Z.max z 2000) cs (Some (mk_queue [] [] (Some (Z.max z 2000)))) Hc) as H.
    destruct (run_calls spec_call cs _). apply H. split; [done|].
    change (used_bytes _) with 0. lia. }
  destruct (run_calls spec_call (Enable (Some z) :: cs) None).2 as [q|].
  - destruct HR as (b' & ls & R). rewrite (rep_buffer _ _ _ _ R) in Hb. injection Hb as <-.
    destruct Hw as [Hl Hu]. rewrite (rep_size _ _ _ _ R), (rep_used _ _ _ _ R), Hl. done.
  - destruct HR as [Hn _]. congruence.
Qed.

Lemma buffer_within_limit_witness :
  let b := mk_buffer (Some 1%positive) (Some 1%positive) 2000 3 1 true [] in
  buffer_used b <= buffer_size b /\ buffer_size b = Z.max 5 2000.
Proof.
  apply (buffer_within_limit 5 [PutLine (Some (lit "abc"))]).
  - apply List.Forall_cons; [reflexivity|]. apply List.Forall_nil.
  - vm_compute. reflexivity.
Defined.

(** After a buffer overflow, PUT_LINE has already appended its text to a
    pending line and does not take it back: the failed call leaves
    [pending ++ text] behind, so repeating the call after reading the buffer
    produces the text twice. *)
Theorem put_line_overflow_keeps_text cs b text e :
  let s := (run_calls exec_call cs init_ostate).2 in
  output_buffer s = Some b -> current_line b <> [] -> zlen (current_line b) + zlen text <= 32767 ->
  (ora_dbms_output_put_line (Some text) s).1 = Err e ->
  exists b', output_buffer (ora_dbms_output_put_line (Some text) s).2 = Some b' /\
    current_line b' = current_line b ++ text.
Proof.
  cbv zeta. intros Hb Hne Hlen He.
  pose proof (run_calls_simulation refines exec_call spec_call exec_call_simulates cs init_ostate None init_refines) as [_ HR].
  set (s := (run_calls exec_call cs init_ostate).2) in *. set (t := (run_calls spec_call cs None).2) in *.
  destruct t as [q|]; [|destruct HR; congruence].
  pose proof (put_line_simulates (Some text) s (Some q) HR) as Hs.
  destruct HR as (b0 & ls & R). rewrite (rep_buffer _ _ _ _ R) in Hb. injection Hb as ->.
  rewrite (rep_current _ _ _ _ R) in *. cbn [spec_call line_bytes] in Hs.
  replace (32767 <? zlen (q_pending q) + zlen text) with false in Hs by lia.
  destruct (ora_dbms_output_put_line (Some text) s) as [r s']. cbn [fst snd] in *. subst r.
  destruct (q_pending q) as [|c cur] eqn:Ep; [done|]. cbn [default from_option id] in Hs. unfold spec_push in Hs.
  destruct (over_limit q _); [|by destruct Hs].
  destruct Hs as [_ (b' & ls' & R')]. exists b'. split; [apply (rep_buffer _ _ _ _ R')|apply (rep_current _ _ _ _ R')].
Qed.

Lemma put_line_overflow_keeps_text_witness :
  let full := PutLine (Some (replicate 1999 "x"%char)) in
  exists b', output_buffer (ora_dbms_output_put_line (Some (lit "cd"))
      (run_calls exec_call [Enable (Some 2000); full; Put (Some (lit "ab"))] init_ostate).2).2 = Some b' /\
    current_line b' = lit "abcd".
Proof.
  intros full.
  apply (put_line_overflow_keeps_text [Enable (Some 2000); full; Put (Some (lit "ab"))]
    (mk_buffer (Some 1%positive) (Some 1%positive) 2000 1999 1 true (lit "ab")) (lit "cd")
    (mkError ERRCODE_PROGRAM_LIMIT_EXCEEDED "ORU-10027: buffer overflow")).
  - vm_compute. reflexivity.
  - discriminate.
  - vm_compute. discriminate.
  - vm_compute. reflexivity.
Defined.
