(* ===== verification/Utf8.v ===== *)
(** * UTF-8 validation and conversion

    src/common/wchar.c: the character check [pg_utf8_verifychar] /
    [pg_utf8_islegal], and [pg_utf8_verifystr], which runs a shift-based
    automaton over whole vectors, skips vectors of plain ASCII, and falls back to
    the character check at the end of the input or on an error;
    src/include/utils/ascii.h [is_valid_ascii]; src/include/mb/pg_wchar.h
    [utf8_to_unicode], [unicode_to_utf8].

    The vector width [vw] is [sizeof(Vector8)]; the SIMD operations act lane by
    lane, so a vector is the list of its bytes. *)

From S2P Require Import Prelude.

(** ** Definitions *)

Definition IS_HIGHBIT_SET (c : ascii) : bool := negb (Z.land (ord c) 128 =? 0).

(** Byte [i] of a buffer, and NUL past its end. *)
Definition byte_at (s : bytes) (i : nat) : Z := ord (nth i s "000"%char).

(** The read of byte [i] of a buffer; there is none past its end. *)
Definition read_byte (s : bytes) (i : nat) : option Z := ord <$> s !! i.

(** [pg_utf_mblen]. *)
Definition pg_utf_mblen (b : Z) : nat :=
  if Z.land b 128 =? 0 then 1
  else if Z.land b 224 =? 192 then 2
  else if Z.land b 240 =? 224 then 3
  else if Z.land b 248 =? 240 then 4
  else 1.

Definition in_range (a lo hi : Z) : bool := negb ((a <? lo) || (hi <? a)).

(** The restrictions on the second byte, by lead byte. *)
Definition second_legal (lead a : Z) : bool :=
  if lead =? 224 then in_range a 160 191
  else if lead =? 237 then in_range a 128 159
  else if lead =? 240 then in_range a 144 191
  else if lead =? 244 then in_range a 128 143
  else in_range a 128 191.

Definition lead_legal (a : Z) : bool := negb ((128 <=? a) && (a <? 194)) && negb (244 <? a).

(** [pg_utf8_islegal]: the cases of the switch fall through. *)
Definition pg_utf8_islegal (source : bytes) (length : nat) : option bool :=
  let case1 := a ← read_byte source 0; Some (lead_legal a) in
  let case2 := a ← read_byte source 1; lead ← read_byte source 0;
               if second_legal lead a then case1 else Some false in
  let case3 := a ← read_byte source 2; if in_range a 128 191 then case2 else Some false in
  let case4 := a ← read_byte source 3; if in_range a 128 191 then case3 else Some false in
  match length with
  | 1 => case1 | 2 => case2 | 3 => case3 | 4 => case4 | _ => Some false
  end%nat.

(** [pg_utf8_verifychar]; the inner [None] is -1. *)
Definition pg_utf8_verifychar (s : bytes) : option (option nat) :=
  b ← read_byte s 0;
  if Z.land b 128 =? 0 then Some (if b =? 0 then None else Some 1%nat)
  else
    let l := if Z.land b 224 =? 192 then 2%nat
             else if Z.land b 240 =? 224 then 3%nat
             else if Z.land b 248 =? 240 then 4%nat else 1%nat in
    if (length s <? l)%nat then Some None
    else
      legal ← pg_utf8_islegal s l;
      if negb legal then Some None else Some (Some l).

(** One iteration of the byte-wise loop: the length of the next character. *)
Definition verify_step (s : bytes) : option (option nat) :=
  match s with
  | [] => Some None
  | c :: _ =>
      if negb (IS_HIGHBIT_SET c) then Some (if ord c =? 0 then None else Some 1%nat)
      else pg_utf8_verifychar s
  end.

(** The byte-wise loop ("check remaining bytes"): how many bytes it accepts. *)
Fixpoint verify_bytes (fuel : nat) (s : bytes) : option nat :=
  match fuel with
  | O => Some O
  | S fuel' =>
      next ← verify_step s;
      match next with
      | None => Some O
      | Some l => n ← verify_bytes fuel' (drop l s); Some (l + n)
      end
  end%nat.

(** The automaton: states, transition words and table. *)
Definition ERR : Z := 0.
Definition BGN : Z := 11.
Definition CS1 : Z := 16.
Definition CS2 : Z := 1.
Definition CS3 : Z := 5.
Definition P3A : Z := 6.
Definition P3B : Z := 20.
Definition P4A : Z := 25.
Definition P4B : Z := 30.
Definition END : Z := BGN.

Local Infix "<<" := Z.shiftl (at level 36, left associativity).
Definition ASC : Z := END << BGN.
Definition L2A : Z := CS1 << BGN.
Definition L3A : Z := P3A << BGN.
Definition L3B : Z := CS2 << BGN.
Definition L3C : Z := P3B << BGN.
Definition L4A : Z := P4A << BGN.
Definition L4B : Z := CS3 << BGN.
Definition L4C : Z := P4B << BGN.
Definition lor_all (l : list Z) : Z := foldr Z.lor 0 l.
Definition CR1 : Z := lor_all [END << CS1; CS1 << CS2; CS2 << CS3; CS1 << P3B; CS2 << P4B].
Definition CR2 : Z := lor_all [END << CS1; CS1 << CS2; CS2 << CS3; CS1 << P3B; CS2 << P4A].
Definition CR3 : Z := lor_all [END << CS1; CS1 << CS2; CS2 << CS3; CS1 << P3A; CS2 << P4A].
Definition ILL : Z := ERR.

(** [Utf8Transition[256]], row by row. *)
Definition Utf8Transition : list Z :=
  (ILL :: replicate 127 ASC) ++
  replicate 16 CR1 ++ replicate 16 CR2 ++ replicate 32 CR3 ++
  [ILL; ILL] ++ replicate 30 L2A ++
  [L3A] ++ replicate 12 L3B ++ [L3C] ++ replicate 2 L3B ++
  [L4A] ++ replicate 3 L4B ++ [L4C] ++ replicate 11 ILL.

Definition utf8_shift (state : Z) (b : Z) : Z :=
  Z.shiftr (nth (Z.to_nat b) Utf8Transition 0) (Z.land state 31).

(** [utf8_advance] over the bytes of a stride. *)
Definition utf8_advance (s : bytes) (state : Z) : Z :=
  Z.land (foldl (fun st c => utf8_shift st (ord c)) state s) 31.

(** [is_valid_ascii]: accumulate, over the vectors of the input, the bytes and
    the lanes that are zero. *)
Definition vector8_or (a b : list Z) : list Z := zip_with Z.lor a b.
Definition vector8_eq (a b : list Z) : list Z := zip_with (fun x y => if x =? y then 255 else 0) a b.
Definition vector8_broadcast (vw : nat) (c : Z) : list Z := replicate vw c.
Definition vector8_is_highbit_set (v : list Z) : bool := existsb (fun x => 127 <? x) v.

Fixpoint ascii_accumulate (fuel vw : nat) (s : bytes) (highbit_cum : list Z) : list Z :=
  match fuel, s with
  | S fuel', _ :: _ =>
      let chunk := map ord (take vw s) in
      let cum := vector8_or highbit_cum (vector8_eq chunk (vector8_broadcast vw 0)) in
      ascii_accumulate fuel' vw (drop vw s) (vector8_or cum chunk)
  | _, _ => highbit_cum
  end.

Definition is_valid_ascii (vw : nat) (s : bytes) : bool :=
  negb (vector8_is_highbit_set (ascii_accumulate (length s) vw s (vector8_broadcast vw 0))).

(** The stride loop: the state and what is left of the input. *)
Fixpoint stride_loop (fuel vw : nat) (s : bytes) (state : Z) : Z * bytes :=
  match fuel with
  | O => (state, s)
  | S fuel' =>
      let stride := (2 * vw)%nat in
      if (length s <? stride)%nat then (state, s)
      else
        let chunk := take stride s in
        let state := if negb (state =? END) || negb (is_valid_ascii vw chunk) then utf8_advance chunk state
                     else state in
        stride_loop fuel' vw (drop stride s) state
  end.

(** [do s--; while (pg_utf_mblen(s) <= 1)] from position [i]; [None] would read
    before the start of the string. *)
Fixpoint back_up (s : bytes) (i : nat) : option nat :=
  match i with
  | O => None
  | S i' => if (pg_utf_mblen (byte_at s i') <=? 1)%nat then back_up s i' else Some i'
  end.

(** [pg_utf8_verifystr]: number of valid bytes. *)
Definition pg_utf8_verifystr (vw : nat) (s : bytes) : option nat :=
  let n := length s in
  if (n <? 2 * vw)%nat then verify_bytes n s
  else
    let '(state, rest) := stride_loop n vw s BGN in
    if state =? ERR then verify_bytes n s
    else
      start ← (if negb (state =? END) then back_up s (n - length rest) else Some (n - length rest)%nat);
      accepted ← verify_bytes (n - start) (drop start s);
      Some (start + accepted)%nat.

(** [utf8_to_unicode] and [unicode_to_utf8]. *)
Definition utf8_to_unicode (s : bytes) : Z :=
  let b i := byte_at s i in
  if Z.land (b 0%nat) 128 =? 0 then b 0%nat
  else if Z.land (b 0%nat) 224 =? 192 then
    Z.lor (Z.land (b 0%nat) 31 << 6) (Z.land (b 1%nat) 63)
  else if Z.land (b 0%nat) 240 =? 224 then
    Z.lor (Z.lor (Z.land (b 0%nat) 15 << 12) (Z.land (b 1%nat) 63 << 6)) (Z.land (b 2%nat) 63)
  else if Z.land (b 0%nat) 248 =? 240 then
    Z.lor (Z.lor (Z.lor (Z.land (b 0%nat) 7 << 18) (Z.land (b 1%nat) 63 << 12)) (Z.land (b 2%nat) 63 << 6))
          (Z.land (b 3%nat) 63)
  else 4294967295.

Definition unicode_to_utf8 (c : Z) : bytes :=
  let cont x := chr (Z.lor 128 (Z.land x 63)) in
  if c <=? 127 then [chr c]
  else if c <=? 2047 then [chr (Z.lor 192 (Z.land (Z.shiftr c 6) 31)); cont c]
  else if c <=? 65535 then
    [chr (Z.lor 224 (Z.land (Z.shiftr c 12) 15)); cont (Z.shiftr c 6); cont c]
  else
    [chr (Z.lor 240 (Z.land (Z.shiftr c 18) 7)); cont (Z.shiftr c 12); cont (Z.shiftr c 6); cont c].

(** ** The reference: characters and automaton by byte ranges

    The checks of a character as functions of the bytes, with NUL past the end. *)

(** A legal sequence of the length its lead byte announces. *)
Definition islegal (s : bytes) (length : nat) : bool :=
  let case1 := lead_legal (byte_at s 0) in
  let case2 := second_legal (byte_at s 0) (byte_at s 1) && case1 in
  let case3 := in_range (byte_at s 2) 128 191 && case2 in
  let case4 := in_range (byte_at s 3) 128 191 && case3 in
  match length with
  | 1 => case1 | 2 => case2 | 3 => case3 | 4 => case4 | _ => false
  end%nat.

(** The character at the start of the buffer, if there is one. *)
Definition accepted_char (s : bytes) : option nat :=
  let b := byte_at s 0 in
  if Z.land b 128 =? 0 then if b =? 0 then None else Some 1%nat
  else
    let l := if Z.land b 224 =? 192 then 2%nat
             else if Z.land b 240 =? 224 then 3%nat
             else if Z.land b 248 =? 240 then 4%nat else 1%nat in
    if (length s <? l)%nat then None
    else if negb (islegal s l) then None
    else Some l.

(** The length of the next character other than NUL. *)
Definition accepted_step (s : bytes) : option nat :=
  match s with
  | [] => None
  | c :: _ =>
      if negb (IS_HIGHBIT_SET c) then if ord c =? 0 then None else Some 1%nat
      else accepted_char s
  end.

(** The length of the longest prefix of characters. *)
Fixpoint accepted_bytes (fuel : nat) (s : bytes) : nat :=
  match fuel with
  | O => O
  | S fuel' =>
      match accepted_step s with
      | None => O
      | Some l => l + accepted_bytes fuel' (drop l s)
      end
  end%nat.

(** The checks read inside the buffer and give the verdicts above. *)

Lemma read_byte_at s i : (i < length s)%nat -> read_byte s i = Some (byte_at s i).
Proof.
  intros H. unfold read_byte, byte_at. destruct (s !! i) as [c|] eqn:E; [|apply lookup_ge_None in E; lia].
  by rewrite (nth_lookup_Some _ _ _ _ E).
Qed.

Lemma islegal_checked s l : (l <= length s)%nat -> pg_utf8_islegal s l = Some (islegal s l).
Proof.
  intros H. unfold pg_utf8_islegal, islegal. cbv zeta.
  destruct l as [|[|[|[|[|l]]]]]; [done|..|done]; rewrite !read_byte_at by lia; cbn [mbind option_bind];
    repeat (case_match; cbn [andb]); done.
Qed.

Lemma accepted_char_checked s : s <> [] -> pg_utf8_verifychar s = Some (accepted_char s).
Proof.
  intros H. assert (0 < length s)%nat by (destruct s; [done|cbn; lia]).
  unfold pg_utf8_verifychar, accepted_char. rewrite read_byte_at by done. cbn [mbind option_bind]. cbv zeta.
  destruct (Z.land (byte_at s 0) 128 =? 0); [done|].
  match goal with |- context [(length s <? ?l)%nat] => destruct (Nat.ltb_spec (length s) l) end; [done|].
  rewrite islegal_checked by done. cbn [mbind option_bind]. by destruct (islegal _ _).
Qed.

Lemma accepted_step_checked s : verify_step s = Some (accepted_step s).
Proof.
  unfold verify_step, accepted_step. destruct s as [|c s]; [done|]. case_match; [done|]. by apply accepted_char_checked.
Qed.

Lemma accepted_bytes_checked fuel s : verify_bytes fuel s = Some (accepted_bytes fuel s).
Proof.
  revert s. induction fuel as [|fuel IH]; intros s; [done|]. cbn [verify_bytes accepted_bytes].
  rewrite accepted_step_checked. cbn [mbind option_bind]. destruct (accepted_step s) as [l|]; [|done].
  rewrite IH. done.
Qed.

(** The transitions the table encodes, in the terms of RFC 3629. *)
Definition next_state (q b : Z) : Z :=
  let cont lo hi q' := if in_range b lo hi then q' else ERR in
  if q =? BGN then
    if in_range b 1 127 then END else if in_range b 194 223 then CS1
    else if b =? 224 then P3A else if b =? 237 then P3B
    else if in_range b 225 239 then CS2
    else if b =? 240 then P4A else if in_range b 241 243 then CS3
    else if b =? 244 then P4B else ERR
  else if q =? CS1 then cont 128 191 END
  else if q =? CS2 then cont 128 191 CS1
  else if q =? CS3 then cont 128 191 CS2
  else if q =? P3A then cont 160 191 CS1
  else if q =? P3B then cont 128 159 CS1
  else if q =? P4A then cont 144 191 CS2
  else if q =? P4B then cont 128 143 CS2
  else ERR.

Definition states : list Z := [ERR; BGN; CS1; CS2; CS3; P3A; P3B; P4A; P4B].

(** The number of bytes a lead byte announces, by ranges. *)
Definition lead_len (b : Z) : nat :=
  if b <? 192 then 1 else if b <? 224 then 2 else if b <? 240 then 3 else if b <? 248 then 4 else 1.

Lemma pg_utf_mblen_ranges b : 0 <= b < 256 -> pg_utf_mblen b = lead_len b.
Proof.
  intros Hb. apply Nat.eqb_eq. revert b Hb. apply byte_cases. vm_compute. reflexivity.
Qed.

Lemma land_highbit b : 0 <= b < 256 -> (Z.land b 128 =? 0) = (b <? 128).
Proof.
  intros Hb. apply eqb_true_iff. revert b Hb. apply byte_cases. vm_compute. reflexivity.
Qed.

Lemma table_next_state q b : In q states -> 0 <= b < 256 ->
  Z.land (utf8_shift q b) 31 = next_state q b.
Proof.
  intros Hq Hb. apply Z.eqb_eq. revert b Hb. apply byte_cases.
  repeat destruct Hq as [<-|Hq]; [vm_compute; reflexivity ..|done].
Qed.

Lemma next_state_closed q b : In (next_state q b) states.
Proof. unfold next_state, states. repeat case_match; simpl; tauto. Qed.

Lemma utf8_advance_fold s q : In q states ->
  utf8_advance s q = foldl (fun st c => next_state st (ord c)) q s.
Proof.
  unfold utf8_advance. intros Hq.
  assert (G : forall s x q, In q states -> Z.land x 31 = q ->
    Z.land (foldl (fun st c => utf8_shift st (ord c)) x s) 31 =
    foldl (fun st c => next_state st (ord c)) q s).
  { clear. induction s as [|c s IH]; intros x q Hq Hx; simpl; [done|].
    apply IH; [apply next_state_closed|]. rewrite <- (table_next_state q) by (done || apply ord_range).
    unfold utf8_shift. subst q. rewrite <- Z.land_assoc. done. }
  apply G; [done|]. unfold states in Hq. simpl in Hq. intuition (subst; reflexivity).
Qed.

(** *** The byte-wise loop *)

(** [accepted_step] by ranges. *)
Lemma verify_step_ranges c s :
  accepted_step (c :: s) =
  let b := ord c in
  if b <? 128 then if b =? 0 then None else Some 1%nat
  else if (length (c :: s) <? lead_len b)%nat then None
  else if islegal (c :: s) (lead_len b) then Some (lead_len b) else None.
Proof.
  pose proof (ord_range c) as Hc. cbv zeta. cbn [accepted_step].
  unfold IS_HIGHBIT_SET. rewrite negb_involutive, land_highbit by done.
  destruct (Z.ltb_spec (ord c) 128); [done|].
  unfold accepted_char. change (byte_at (c :: s) 0) with (ord c). rewrite land_highbit by done.
  destruct (Z.ltb_spec (ord c) 128); [lia|].
  rewrite <- pg_utf_mblen_ranges by done. unfold pg_utf_mblen. rewrite land_highbit by done.
  destruct (Z.ltb_spec (ord c) 128); [lia|].
  repeat case_match; simplify_eq/=; try done.
Qed.

(** A character: a byte sequence the step accepts as a whole. *)
Definition legal_char (ch : bytes) : Prop := accepted_step ch = Some (length ch).

Lemma byte_at_app s u i : (i < length s)%nat -> byte_at (s ++ u) i = byte_at s i.
Proof. intros. unfold byte_at. by rewrite app_nth1. Qed.

Lemma islegal_app s u l : (l <= length s)%nat -> islegal (s ++ u) l = islegal s l.
Proof.
  intros Hl. unfold islegal.
  destruct l as [|[|[|[|[|l]]]]]; rewrite ?byte_at_app by lia; done.
Qed.

Lemma verify_step_app ch u : legal_char ch -> accepted_step (ch ++ u) = Some (length ch).
Proof.
  unfold legal_char. destruct ch as [|c ch]; [done|]. rewrite <- app_comm_cons, !verify_step_ranges.
  cbv zeta. case_match; [done|]. destruct (Nat.ltb_spec (length (c :: ch)) (lead_len (ord c))); [done|].
  rewrite app_comm_cons, length_app, islegal_app by lia.
  destruct (Nat.ltb_spec (length (c :: ch) + length u) (lead_len (ord c))); [lia|done].
Qed.

Lemma verify_step_pos s l : accepted_step s = Some l -> (0 < l <= length s)%nat.
Proof.
  destruct s as [|c s]; [done|]. rewrite verify_step_ranges. cbv zeta.
  case_match; [case_match; [done|]; intros [= <-]; simpl; lia|].
  destruct (Nat.ltb_spec (length (c :: s)) (lead_len (ord c))); [done|].
  case_match; [|done]. intros [= <-]. unfold lead_len in *. repeat case_match; lia.
Qed.

(** How many bytes the byte-wise loop accepts, with enough fuel. *)
Definition valid_prefix (s : bytes) : nat := accepted_bytes (length s) s.

Lemma verify_bytes_fuel n s : (length s <= n)%nat -> accepted_bytes n s = valid_prefix s.
Proof.
  unfold valid_prefix. remember (length s) as m eqn:Em. assert (length s <= m)%nat as Hm by lia. clear Em.
  intros Hn. revert s m Hm Hn. induction n as [|n IH]; intros s m Hm Hn.
  - destruct m; [done|]. destruct s; simpl in *; [done|lia].
  - destruct m as [|m]; cbn [accepted_bytes]; destruct (accepted_step s) as [l|] eqn:E; try done;
      apply verify_step_pos in E; [lia|]. f_equal. apply IH; rewrite ?length_drop; lia.
Qed.

Lemma valid_prefix_char ch u : legal_char ch -> valid_prefix (ch ++ u) = (length ch + valid_prefix u)%nat.
Proof.
  intros H. pose proof (verify_step_pos _ _ H) as Hp. unfold valid_prefix at 1.
  destruct (length (ch ++ u)) as [|n] eqn:E; rewrite length_app in E; [lia|]. cbn [accepted_bytes].
  rewrite verify_step_app by done. rewrite drop_app_length. f_equal. apply verify_bytes_fuel. lia.
Qed.

Lemma valid_prefix_chars chs u : Forall legal_char chs ->
  valid_prefix (concat chs ++ u) = (length (concat chs) + valid_prefix u)%nat.
Proof.
  induction 1 as [|ch chs Hch _ IH]; [done|]. cbn [concat].
  rewrite <- app_assoc, valid_prefix_char by done. rewrite IH, length_app. lia.
Qed.

(** *** The automaton follows the characters *)

Lemma in_range_spec a lo hi : BoolSpec (lo <= a <= hi) (a < lo \/ hi < a) (in_range a lo hi).
Proof.
  unfold in_range. destruct (Z.ltb_spec a lo), (Z.ltb_spec hi a); constructor; lia.
Qed.

Lemma in_range_true a lo hi : lo <= a <= hi -> in_range a lo hi = true.
Proof. destruct (in_range_spec a lo hi); [done|lia]. Qed.

(** Case analysis on the range tests of a goal. *)
Ltac split_ranges :=
  repeat match goal with
  | |- context [in_range ?a ?lo ?hi] => destruct (in_range_spec a lo hi)
  | |- context [Z.eqb ?a ?b] => destruct (Z.eqb_spec a b)
  | |- context [Z.leb ?a ?b] => destruct (Z.leb_spec a b)
  | |- context [Z.ltb ?a ?b] => destruct (Z.ltb_spec a b)
  end; try lia.

Lemma next_state_BGN b : 0 <= b < 256 -> next_state BGN b <> ERR ->
  (1 <= b <= 127 /\ next_state BGN b = BGN) \/ (194 <= b <= 244 /\ next_state BGN b <> BGN).
Proof.
  intros Hb. unfold next_state. rewrite Z.eqb_refl. cbv zeta.
  split_ranges; intros ?; first [left; split; [lia|done] | right; split; [lia|done] | done].
Qed.

(** After a lead byte, the second byte is checked as [islegal] does. *)
Lemma next_state_second l a : 194 <= l <= 244 ->
  next_state (next_state BGN l) a =
  if second_legal l a then
    (if lead_len l =? 2 then END else if lead_len l =? 3 then CS1 else CS2)%nat
  else ERR.
Proof.
  intros Hl. unfold second_legal.
  assert (l <= 223 \/ l = 224 \/ 225 <= l <= 236 \/ l = 237 \/ 238 <= l <= 239 \/ l = 240 \/ 241 <= l <= 243 \/ l = 244)
    as C by lia.
  destruct C as [C|[->|[C|[->|[C|[->|[C| ->]]]]]]]; try reflexivity;
    (assert (H : next_state BGN l = if l <=? 223 then CS1 else if l <=? 239 then CS2 else CS3);
     [unfold next_state; rewrite Z.eqb_refl; cbv zeta; by split_ranges|]);
    (assert (L : lead_len l = if l <=? 223 then 2%nat else if l <=? 239 then 3%nat else 4%nat);
     [unfold lead_len; by split_ranges|]);
    rewrite H, L, !(proj2 (Z.eqb_neq l _)) by lia;
    destruct (Z.leb_spec l 223), (Z.leb_spec l 239); lia || reflexivity.
Qed.

Lemma next_state_CS1 b : next_state CS1 b = if in_range b 128 191 then END else ERR.
Proof. reflexivity. Qed.

Lemma next_state_CS2 b : next_state CS2 b = if in_range b 128 191 then CS1 else ERR.
Proof. reflexivity. Qed.

Lemma next_state_ERR b : next_state ERR b = ERR.
Proof. reflexivity. Qed.

(** [t] is the beginning of a character that leaves the automaton in [q]. *)
Definition partial (t : bytes) (q : Z) : Prop :=
  match t with
  | [] => q = BGN
  | [l] => 194 <= ord l <= 244 /\ q = next_state BGN (ord l) /\ q <> BGN
  | [l; a] =>
      194 <= ord l <= 244 /\ second_legal (ord l) (ord a) = true /\
      ((lead_len (ord l) = 3%nat /\ q = CS1) \/ (lead_len (ord l) = 4%nat /\ q = CS2))
  | [l; a; b] =>
      194 <= ord l <= 244 /\ second_legal (ord l) (ord a) = true /\ in_range (ord b) 128 191 = true /\
      lead_len (ord l) = 4%nat /\ q = CS1
  | _ => False
  end.

Lemma islegal_2 l a : islegal [l; a] 2 = second_legal (ord l) (ord a) && lead_legal (ord l).
Proof. reflexivity. Qed.

Lemma islegal_3 l a b :
  islegal [l; a; b] 3 =
  in_range (ord b) 128 191 && (second_legal (ord l) (ord a) && lead_legal (ord l)).
Proof. reflexivity. Qed.

Lemma islegal_4 l a b c :
  islegal [l; a; b; c] 4 =
  in_range (ord c) 128 191 && (in_range (ord b) 128 191 &&
    (second_legal (ord l) (ord a) && lead_legal (ord l))).
Proof. reflexivity. Qed.

Lemma legal_char_intro l t : 194 <= ord l <= 244 -> lead_len (ord l) = S (length t) ->
  islegal (l :: t) (S (length t)) = true -> legal_char (l :: t).
Proof.
  intros Hl Hn Hleg. unfold legal_char. rewrite verify_step_ranges. cbv zeta. rewrite Hn, Hleg.
  destruct (Z.ltb_spec (ord l) 128); [lia|]. cbn [length]. by rewrite Nat.ltb_irrefl.
Qed.

Lemma lead_legal_ok l : 194 <= l <= 244 -> lead_legal l = true.
Proof. intros. unfold lead_legal. lia. Qed.

Lemma lead_len_multi l : 194 <= l <= 244 ->
  lead_len l = 2%nat \/ lead_len l = 3%nat \/ lead_len l = 4%nat.
Proof. intros. unfold lead_len. split_ranges. Qed.

Lemma partial_step t q c : partial t q -> next_state q (ord c) <> ERR ->
  (next_state q (ord c) = BGN /\ legal_char (t ++ [c])) \/ partial (t ++ [c]) (next_state q (ord c)).
Proof.
  pose proof (ord_range c) as Hc.
  destruct t as [|l [|a [|b [|]]]]; cbn [partial app]; intros Hp Hn; [| | | |done].
  - subst q. destruct (next_state_BGN _ Hc Hn) as [[Hr E]|[Hr E]]; [left|right; auto].
    split; [done|]. unfold legal_char. rewrite verify_step_ranges. cbv zeta.
    destruct (Z.ltb_spec (ord c) 128); [|lia]. destruct (Z.eqb_spec (ord c) 0); [lia|done].
  - destruct Hp as (Hl & -> & _). rewrite next_state_second in * by done.
    destruct (second_legal _ _) eqn:E2; [|done].
    destruct (lead_len_multi _ Hl) as [L|[L|L]]; rewrite L in *; cbn [Nat.eqb]; [left|right; auto 10 ..].
    split; [done|]. apply legal_char_intro; [done..|].
    by rewrite islegal_2, E2, lead_legal_ok.
  - destruct Hp as (Hl & E2 & [[L ->]|[L ->]]); rewrite ?next_state_CS1, ?next_state_CS2 in *;
      destruct (in_range _ _ _) eqn:E3; try done; [left|right; auto 10].
    split; [done|]. apply legal_char_intro; [done..|].
    by rewrite islegal_3, E2, E3, lead_legal_ok.
  - destruct Hp as (Hl & E2 & E3 & L & ->). rewrite next_state_CS1 in *.
    destruct (in_range (ord c) _ _) eqn:E4; [|done]. left.
    split; [done|]. apply legal_char_intro; [done..|]. by rewrite islegal_4, E2, E3, E4, lead_legal_ok.
Qed.

Lemma partial_BGN t : partial t BGN -> t = [].
Proof.
  destruct t as [|l [|a [|b [|]]]]; cbn; [done|tauto| | |done].
  - intros (_ & _ & [[_ H]|[_ H]]); discriminate.
  - intros (_ & _ & _ & _ & H). discriminate.
Qed.

(** The input read so far: whole characters and the beginning of one more. *)
Definition consumed (p : bytes) (q : Z) : Prop :=
  q <> ERR -> exists chs t, p = concat chs ++ t /\ Forall legal_char chs /\ partial t q.

Lemma consumed_step p q c : consumed p q -> consumed (p ++ [c]) (next_state q (ord c)).
Proof.
  intros H Hn. destruct H as (chs & t & -> & Hchs & Ht); [intros ->; by rewrite next_state_ERR in Hn|].
  destruct (partial_step t q c Ht Hn) as [[E Hleg]|Hp].
  - exists (chs ++ [t ++ [c]]), []. rewrite concat_app. cbn [concat]. rewrite !app_nil_r, app_assoc.
    split_and!; [done|by apply Forall_app_2; [|constructor]|done].
  - exists chs, (t ++ [c]). by rewrite app_assoc.
Qed.

Lemma consumed_advance s p q : In q states -> consumed p q -> consumed (p ++ s) (utf8_advance s q).
Proof.
  intros Hq. rewrite utf8_advance_fold by done. clear Hq. revert p q.
  induction s as [|c s IH]; intros p q H; cbn [foldl]; [by rewrite app_nil_r|].
  replace (p ++ c :: s) with ((p ++ [c]) ++ s) by by rewrite <- app_assoc.
  by apply IH, consumed_step.
Qed.

(** *** Skipping ASCII *)

Lemma lor_small a b : 0 <= a -> 0 <= b -> Z.lor a b <= 127 -> a <= 127 /\ b <= 127.
Proof.
  intros Ha Hb H.
  pose proof (Z.log2_lor a b Ha Hb) as Hl.
  assert (Z.log2 (Z.lor a b) <= 6) by (apply (Z.log2_le_mono _ 127) in H; exact H).
  split; apply Z.nlt_ge; intros Hx%Z.le_succ_l; apply (Z.log2_le_mono 128) in Hx;
    change (Z.log2 128) with 7 in Hx; lia.
Qed.

Definition nonneg_lanes (v : list Z) : Prop := Forall (fun x => 0 <= x) v.
Definition low_lanes (v : list Z) : Prop := Forall (fun x => x <= 127) v.

Lemma vector8_or_low u v : length u = length v -> nonneg_lanes u -> nonneg_lanes v ->
  nonneg_lanes (vector8_or u v) /\ (low_lanes (vector8_or u v) -> low_lanes u /\ low_lanes v).
Proof.
  revert v. induction u as [|a u IH]; intros [|b v] Hl Hu Hv; try discriminate Hl; [by split|].
  inversion_clear Hu. inversion_clear Hv. injection Hl as Hl. destruct (IH v) as [I1 I2]; [done..|]. split.
  - constructor; [by apply Z.lor_nonneg|done].
  - intros H'. inversion_clear H'. destruct (lor_small a b); [done..|]. destruct I2; [done|].
    split; by constructor.
Qed.

Lemma vector8_eq_zero_low vw u : (length u <= vw)%nat ->
  nonneg_lanes (vector8_eq u (vector8_broadcast vw 0)) /\
  (low_lanes (vector8_eq u (vector8_broadcast vw 0)) -> Forall (fun x => x <> 0) u).
Proof.
  revert vw. induction u as [|a u IH]; intros [|vw] Hl; cbn in Hl; try lia;
    [split; constructor..|].
  destruct (IH vw) as [I1 I2]; [lia|]. cbn. split.
  - constructor; [case_match; lia|done].
  - intros H. inversion_clear H. constructor; [|by apply I2]. intros ->. done.
Qed.

Lemma ascii_accumulate_low fuel vw : forall s cum, (0 < vw)%nat ->
  (length s <= fuel)%nat -> (exists k, length s = (k * vw)%nat) ->
  length cum = vw -> nonneg_lanes cum -> low_lanes (ascii_accumulate fuel vw s cum) ->
  low_lanes cum /\ Forall (fun c => 1 <= ord c <= 127) s.
Proof.
  induction fuel as [|fuel IH]; intros s cum Hw Hf [k Hk] Hc Hn H.
  { destruct s; [by split|cbn in Hf; lia]. }
  destruct s as [|c s]; [by split|]. cbn [ascii_accumulate] in H.
  destruct k as [|k]; [discriminate Hk|]. set (s' := c :: s) in *.
  assert (length (take vw s') = vw) as Ht by (rewrite length_take; lia).
  assert (nonneg_lanes (map ord (take vw s'))) as Hnt.
  { apply List.Forall_map, List.Forall_forall. intros x _. apply ord_range. }
  set (chunk := map ord (take vw s')) in *.
  assert (length chunk = vw) as Hch by (unfold chunk; by rewrite length_map).
  destruct (vector8_eq_zero_low vw chunk) as [Z1 Z2]; [lia|].
  assert (length (vector8_eq chunk (vector8_broadcast vw 0)) = vw) as Hle.
  { unfold vector8_eq, vector8_broadcast. rewrite length_zip_with, length_replicate. lia. }
  destruct (vector8_or_low cum _ (eq_trans Hc (eq_sym Hle)) Hn Z1) as [A1 A2].
  set (cum1 := vector8_or cum _) in *.
  assert (length cum1 = vw) as Hl1 by (unfold cum1, vector8_or; rewrite length_zip_with; lia).
  destruct (vector8_or_low cum1 chunk (eq_trans Hl1 (eq_sym Hch)) A1 Hnt) as [B1 B2].
  apply IH in H as [H1 H2]; [|done|rewrite length_drop; lia|exists k; rewrite length_drop; lia
    |unfold vector8_or; rewrite length_zip_with; lia|done].
  destruct B2 as [L1 L2]; [done|]. destruct A2 as [L3 L4]; [done|]. split; [done|].
  rewrite <- (take_drop vw s'). apply Forall_app_2; [|done].
  specialize (Z2 L4). unfold low_lanes in L2. rewrite List.Forall_forall in *. intros x Hx.
  apply (in_map ord) in Hx. specialize (Z2 _ Hx). specialize (L2 _ Hx). pose proof (ord_range x). lia.
Qed.

Lemma is_valid_ascii_sound vw s k : (0 < vw)%nat -> length s = (k * vw)%nat ->
  is_valid_ascii vw s = true -> Forall (fun c => 1 <= ord c <= 127) s.
Proof.
  intros Hw Hk. unfold is_valid_ascii, vector8_is_highbit_set, vector8_broadcast. rewrite negb_true_iff. intros H.
  eapply (ascii_accumulate_low (length s) vw s (replicate vw 0)); [done|done|by exists k|apply length_replicate| |].
  - by apply Forall_replicate.
  - apply List.Forall_forall. intros x Hx. apply Z.ltb_ge. destruct (127 <? x) eqn:E; [|done].
    rewrite <- H. symmetry. apply existsb_exists. by exists x.
Qed.

Lemma ascii_legal_char c : 1 <= ord c <= 127 -> legal_char [c].
Proof.
  intros. unfold legal_char. rewrite verify_step_ranges. cbv zeta.
  destruct (Z.ltb_spec (ord c) 128); [|lia]. destruct (Z.eqb_spec (ord c) 0); [lia|done].
Qed.

Lemma consumed_ascii s p : Forall (fun c => 1 <= ord c <= 127) s -> consumed p BGN -> consumed (p ++ s) BGN.
Proof.
  intros Hs H _. destruct H as (chs & t & -> & Hchs & Ht); [done|]. apply partial_BGN in Ht as ->.
  exists (chs ++ map (fun c => [c]) s), []. rewrite concat_app, !app_nil_r. split_and!; [| |done].
  - f_equal. clear. induction s; cbn; congruence.
  - apply Forall_app_2; [done|]. apply List.Forall_map. eapply Forall_impl; [|done]. apply ascii_legal_char.
Qed.

Lemma utf8_advance_states s q : In q states -> In (utf8_advance s q) states.
Proof.
  intros Hq. rewrite utf8_advance_fold by done. revert q Hq.
  induction s as [|c s IH]; intros q Hq; cbn [foldl]; [done|]. apply IH, next_state_closed.
Qed.

(** The stride loop ends with less than a stride to read, having consumed the
    rest as characters unless it is in the error state. *)
Lemma stride_loop_consumed vw fuel : forall s p q, (0 < vw)%nat -> (length s <= fuel)%nat ->
  In q states -> consumed p q ->
  let '(q', rest) := stride_loop fuel vw s q in
  In q' states /\ (length rest < 2 * vw)%nat /\ exists r, s = r ++ rest /\ consumed (p ++ r) q'.
Proof.
  induction fuel as [|fuel IH]; intros s p q Hw Hf Hq Hc.
  { cbn [stride_loop]. split_and!; [done|lia|]. exists []. by rewrite app_nil_r. }
  cbn [stride_loop]. destruct (Nat.ltb_spec (length s) (2 * vw)) as [Hlt|Hge].
  { split_and!; [done|lia|]. exists []. by rewrite app_nil_r. }
  set (q1 := if negb (q =? END) || _ then _ else _).
  assert (In q1 states /\ consumed (p ++ take (2 * vw) s) q1) as [Hq1 Hc1].
  { unfold q1. destruct (Z.eqb_spec q END) as [->|]; cbn [negb orb].
    - destruct (is_valid_ascii vw _) eqn:E; cbn [negb].
      + split; [done|]. apply consumed_ascii; [|done].
        apply (is_valid_ascii_sound vw _ 2); [done| |done]. rewrite length_take. lia.
      + split; [by apply utf8_advance_states|by apply consumed_advance].
    - split; [by apply utf8_advance_states|by apply consumed_advance]. }
  specialize (IH (drop (2 * vw) s) _ q1 Hw ltac:(rewrite length_drop; lia) Hq1 Hc1).
  destruct (stride_loop fuel vw _ q1) as [q' rest]. destruct IH as (H1 & H2 & r & E & H3).
  split_and!; [done|done|]. exists (take (2 * vw) s ++ r).
  rewrite <- app_assoc, <- E, take_drop. split; [done|]. by rewrite app_assoc.
Qed.

(** *** Resuming at the lead byte *)

Lemma back_up_spec s i n : (i < n)%nat -> (1 < pg_utf_mblen (byte_at s i))%nat ->
  (forall j, i < j < n -> pg_utf_mblen (byte_at s j) <= 1)%nat -> back_up s n = Some i.
Proof.
  intros Hi Hl Hc. induction n as [|n IH]; [lia|]. cbn [back_up].
  destruct (decide (i = n)) as [<-|].
  - destruct (Nat.leb_spec (pg_utf_mblen (byte_at s i)) 1); [lia|done].
  - rewrite (proj2 (Nat.leb_le _ _)) by (apply Hc; lia). apply IH; [lia|]. intros j Hj. apply Hc. lia.
Qed.

Lemma second_legal_cont l a : second_legal l a = true -> 128 <= a <= 191.
Proof. unfold second_legal. split_ranges; done. Qed.

Lemma second_legal_true l a : 128 <= a <= 191 -> (l = 224 -> 160 <= a) -> (l = 237 -> a <= 159) ->
  (l = 240 -> 144 <= a) -> (l = 244 -> a <= 143) -> second_legal l a = true.
Proof. intros. unfold second_legal. by split_ranges. Qed.

(** The bytes of an unfinished character: a lead byte, then continuation bytes. *)
Lemma partial_shape t q : partial t q -> q <> BGN ->
  exists l r, t = l :: r /\ 194 <= ord l <= 244 /\ Forall (fun c => 128 <= ord c <= 191) r.
Proof.
  destruct t as [|l [|a [|b [|]]]]; cbn; [done| | | |done].
  - intros (? & _) _. by exists l, [].
  - intros (? & ?%second_legal_cont & _) _. exists l, [a]. split_and!; [done|lia|lia|repeat (constructor; [lia|]); constructor].
  - intros (? & ?%second_legal_cont & E & _) _. destruct (in_range_spec (ord b) 128 191); [|done].
    exists l, [a; b]. split_and!; [done|lia|lia|repeat (constructor; [lia|]); constructor].
Qed.

Lemma byte_at_middle p t u i : (i < length t)%nat -> byte_at (p ++ t ++ u) (length p + i) = byte_at t i.
Proof.
  intros. unfold byte_at. rewrite app_nth2 by lia. replace (length p + i - length p)%nat with i by lia.
  by rewrite app_nth1.
Qed.

Lemma back_up_partial p t u q : partial t q -> q <> BGN ->
  back_up (p ++ t ++ u) (length p + length t) = Some (length p).
Proof.
  intros Ht Hq. destruct (partial_shape t q Ht Hq) as (l & r & -> & Hl & Hr).
  apply back_up_spec; [cbn; lia| |].
  - pose proof (byte_at_middle p (l :: r) u 0 ltac:(cbn; lia)) as E. rewrite Nat.add_0_r in E. rewrite E.
    change (byte_at (l :: r) 0) with (ord l). rewrite pg_utf_mblen_ranges by lia.
    unfold lead_len. split_ranges.
  - intros j Hj. replace j with (length p + (j - length p))%nat by lia.
    rewrite byte_at_middle by lia. destruct (j - length p)%nat as [|i] eqn:Ei; [lia|].
    change (byte_at (l :: r) (S i)) with (byte_at r i).
    assert (128 <= byte_at r i <= 191) as Hb.
    { rewrite List.Forall_forall in Hr. apply Hr, nth_In. cbn in Hj. lia. }
    rewrite pg_utf_mblen_ranges by lia. unfold lead_len. split_ranges.
Qed.

Lemma verifystr_valid_prefix vw s : (0 < vw)%nat -> pg_utf8_verifystr vw s = Some (valid_prefix s).
Proof.
  intros Hw. unfold pg_utf8_verifystr, valid_prefix. rewrite !accepted_bytes_checked. case_match; [done|].
  pose proof (stride_loop_consumed vw (length s) s [] BGN Hw (Nat.le_refl _)) as H'.
  destruct (stride_loop _ _ _ _) as [q rest]. destruct H' as (_ & _ & r & -> & Hc); [by right; left| |].
  { intros _. by exists [], []. }
  destruct (Z.eqb_spec q ERR) as [|Hq]; [done|]. destruct (Hc Hq) as (chs & t & E & Hchs & Ht).
  cbn [app] in E. subst r. rewrite length_app.
  replace (_ - length rest)%nat with (length (concat chs) + length t)%nat by (rewrite length_app; lia).
  assert ((if negb (q =? END) then back_up ((concat chs ++ t) ++ rest) (length (concat chs) + length t)
           else Some (length (concat chs) + length t)%nat) = Some (length (concat chs))) as ->.
  { destruct (Z.eqb_spec q END) as [->|Hne]; cbn [negb].
    - apply partial_BGN in Ht as ->. cbn [length]. by rewrite Nat.add_0_r.
    - rewrite <- app_assoc. by apply (back_up_partial _ _ _ q). }
  cbn [mbind option_bind]. rewrite accepted_bytes_checked. cbn [mbind option_bind]. f_equal.
  rewrite <- app_assoc, drop_app_length, (verify_bytes_fuel (_ - _)) by (rewrite !length_app; lia).
  fold (valid_prefix rest). rewrite <- valid_prefix_chars by done. symmetry. apply verify_bytes_fuel. rewrite !length_app. lia.
Qed.

(** C11. The vectorised validator agrees with the byte-wise one: for every vector
    width and every input, neither [pg_utf8_verifystr] nor the loop over
    [pg_utf8_verifychar] reads outside the string, and the former reports exactly
    the length of the prefix that the latter accepts, whether or not the automaton
    ended in an error or inside a character. *)
Theorem pg_utf8_verifystr_equiv vw s : (0 < vw)%nat ->
  exists n, verify_bytes (length s) s = Some n /\ pg_utf8_verifystr vw s = Some n.
Proof. intros Hw. exists (valid_prefix s). by rewrite accepted_bytes_checked, verifystr_valid_prefix. Qed.

(** Two-byte vectors: the automaton stops inside a three-byte character. *)
Lemma pg_utf8_verifystr_equiv_witness :
  exists n, verify_bytes 6 (lit "ab" ++ map chr [226; 130; 172; 65]) = Some n /\
    pg_utf8_verifystr 2 (lit "ab" ++ map chr [226; 130; 172; 65]) = Some n.
Proof. exact (pg_utf8_verifystr_equiv 2 (lit "ab" ++ map chr [226; 130; 172; 65]) ltac:(lia)). Defined.

(** ** Code points *)

(** Unicode scalar values. *)
Definition scalar (c : Z) : Prop := 0 <= c <= 1114111 /\ ~ (55296 <= c <= 57343).

Lemma land_mask x n : 0 <= n -> Z.land x (2 ^ n - 1) = x mod 2 ^ n.
Proof. intros. rewrite <- Z.land_ones, Z.ones_equiv by done. by rewrite Z.sub_1_r. Qed.

Lemma land_63 x : Z.land x 63 = x mod 64.
Proof. by apply (land_mask x 6). Qed.

Lemma land_31 x : Z.land x 31 = x mod 32.
Proof. by apply (land_mask x 5). Qed.

Lemma land_15 x : Z.land x 15 = x mod 16.
Proof. by apply (land_mask x 4). Qed.

Lemma land_7 x : Z.land x 7 = x mod 8.
Proof. by apply (land_mask x 3). Qed.

Lemma lor_shiftl a d n : 0 <= n -> 0 <= d < 2 ^ n -> Z.lor (Z.shiftl a n) d = a * 2 ^ n + d.
Proof.
  intros Hn Hd. rewrite <- Z.shiftl_mul_pow2 by done.
  assert (Z.land (Z.shiftl a n) d = 0) as H0.
  { apply Z.bits_inj'. intros i Hi. rewrite Z.land_spec, Z.bits_0. destruct (Z.ltb_spec i n).
    - by rewrite Z.shiftl_spec_low.
    - rewrite <- (Z.mod_small d (2 ^ n)), Z.mod_pow2_bits_high by lia. apply andb_false_r. }
  by rewrite Z.add_nocarry_lxor, Z.lxor_lor.
Qed.

Lemma lor_lead k y n : 0 <= n -> 0 <= y < 2 ^ n -> Z.lor (k * 2 ^ n) y = k * 2 ^ n + y.
Proof. intros. rewrite <- Z.shiftl_mul_pow2 by done. rewrite lor_shiftl by done. by rewrite Z.shiftl_mul_pow2. Qed.

Lemma cont_byte x : Z.lor 128 (Z.land x 63) = 128 + x mod 64.
Proof. rewrite land_63. apply (lor_lead 2 _ 6); [lia|]. apply Z.mod_pos_bound. lia. Qed.

(** [unicode_to_utf8] in arithmetic. *)
Lemma unicode_to_utf8_arith c : 0 <= c <= 1114111 ->
  unicode_to_utf8 c =
  map chr (if c <=? 127 then [c]
           else if c <=? 2047 then [192 + c / 64; 128 + c mod 64]
           else if c <=? 65535 then [224 + c / 4096; 128 + c / 64 mod 64; 128 + c mod 64]
           else [240 + c / 262144; 128 + c / 4096 mod 64; 128 + c / 64 mod 64; 128 + c mod 64]).
Proof.
  intros Hc. unfold unicode_to_utf8. rewrite !cont_byte, !Z.shiftr_div_pow2 by lia.
  rewrite land_31, land_15, land_7.
  assert (forall y, 0 <= y < 32 -> Z.lor 192 y = 192 + y) as -> by (intros; by apply (lor_lead 6 y 5)).
  2: { apply Z.mod_pos_bound. lia. }
  assert (forall y, 0 <= y < 16 -> Z.lor 224 y = 224 + y) as -> by (intros; by apply (lor_lead 14 y 4)).
  2: { apply Z.mod_pos_bound. lia. }
  assert (forall y, 0 <= y < 8 -> Z.lor 240 y = 240 + y) as -> by (intros; by apply (lor_lead 30 y 3)).
  2: { apply Z.mod_pos_bound. lia. }
  change (2 ^ 6) with 64. change (2 ^ 12) with 4096. change (2 ^ 18) with 262144.
  split_ranges; cbn [map]; repeat f_equal; lia.
Qed.

Lemma lead_tests b : 0 <= b < 256 ->
  (Z.land b 224 =? 192) = in_range b 192 223 /\ (Z.land b 240 =? 224) = in_range b 224 239 /\
  (Z.land b 248 =? 240) = in_range b 240 247.
Proof.
  intros Hb. split_and!; apply eqb_true_iff; revert b Hb; apply byte_cases; vm_compute; reflexivity.
Qed.

(** [utf8_to_unicode] in arithmetic, by the length the lead byte announces. *)
Lemma utf8_to_unicode_arith s :
  let b i := byte_at s i in
  utf8_to_unicode s =
  if b 0%nat <? 128 then b 0%nat
  else if in_range (b 0%nat) 192 223 then b 0%nat mod 32 * 64 + b 1%nat mod 64
  else if in_range (b 0%nat) 224 239 then b 0%nat mod 16 * 4096 + b 1%nat mod 64 * 64 + b 2%nat mod 64
  else if in_range (b 0%nat) 240 247 then
    b 0%nat mod 8 * 262144 + b 1%nat mod 64 * 4096 + b 2%nat mod 64 * 64 + b 3%nat mod 64
  else 4294967295.
Proof.
  cbv zeta. unfold utf8_to_unicode. pose proof (ord_range (nth 0 s "000"%char)) as Hr. fold (byte_at s 0) in Hr.
  destruct (lead_tests _ Hr) as (-> & -> & ->). rewrite (land_highbit _ Hr).
  rewrite land_31, land_15, land_7, !land_63.
  assert (forall i, 0 <= byte_at s i mod 64 < 64) as B6 by (intros; apply Z.mod_pos_bound; lia).
  pose proof (B6 1%nat). pose proof (B6 2%nat). pose proof (B6 3%nat).
  generalize dependent (byte_at s 1 mod 64). generalize dependent (byte_at s 2 mod 64).
  generalize dependent (byte_at s 3 mod 64). clear. intros b3 H3 b2 H2 b1 H1.
  assert (b1 << 6 = b1 * 64) as S1 by (rewrite Z.shiftl_mul_pow2; lia).
  assert (b2 << 6 = b2 * 64) as S2 by (rewrite Z.shiftl_mul_pow2; lia).
  assert (b1 << 12 = b1 * 4096) as S3 by (rewrite Z.shiftl_mul_pow2; lia).
  rewrite S1, S2, S3, <- !Z.lor_assoc.
  rewrite <- S1, (lor_shiftl b1 b2 6), S1 by lia.
  rewrite <- S2, (lor_shiftl b2 b3 6), S2 by lia. change (2 ^ 6) with 64.
  rewrite <- S3, (lor_shiftl b1 _ 12), S3 by lia. change (2 ^ 12) with 4096.
  rewrite (lor_shiftl _ b1 6), (lor_shiftl _ (b1 * 64 + b2) 12), (lor_shiftl _ (b1 * 4096 + _) 18) by lia.
  change (2 ^ 6) with 64. change (2 ^ 12) with 4096. change (2 ^ 18) with 262144.
  repeat case_match; lia.
Qed.

Lemma byte_at_chr z s : 0 <= z < 256 -> byte_at (chr z :: s) 0 = z.
Proof. intros. unfold byte_at. cbn [nth]. rewrite ord_chr. lia. Qed.

Lemma byte_at_S c s i : byte_at (c :: s) (S i) = byte_at s i.
Proof. done. Qed.

(** A code point survives encoding: [utf8_to_unicode], reading from the start
    of any buffer that begins with [unicode_to_utf8 c], returns [c], for every
    code point up to U+10FFFF. *)
Theorem utf8_to_unicode_to_utf8 c rest : 0 <= c <= 1114111 ->
  utf8_to_unicode (unicode_to_utf8 c ++ rest) = c.
Proof.
  intros Hc. rewrite unicode_to_utf8_arith by done.
  destruct (Z.leb_spec c 127); [|destruct (Z.leb_spec c 2047); [|destruct (Z.leb_spec c 65535)]];
    cbn [map app]; rewrite utf8_to_unicode_arith; cbv zeta;
    rewrite ?byte_at_S, ?byte_at_chr by lia; split_ranges.
Qed.

(** The euro sign, U+20AC. *)
Lemma utf8_to_unicode_to_utf8_witness :
  0 <= 8364 <= 1114111 /\ unicode_to_utf8 8364 = map chr [226; 130; 172] /\
  utf8_to_unicode (unicode_to_utf8 8364 ++ lit "x") = 8364.
Proof.
  split; [lia|]. split; [reflexivity|]. exact (utf8_to_unicode_to_utf8 8364 (lit "x") ltac:(lia)).
Defined.

Lemma legal_char_encode c : scalar c -> c <> 0 -> legal_char (unicode_to_utf8 c).
Proof.
  unfold scalar. intros [Hc Hs] H0. rewrite unicode_to_utf8_arith by done.
  destruct (Z.leb_spec c 127); [|destruct (Z.leb_spec c 2047); [|destruct (Z.leb_spec c 65535)]]; cbn [map].
  - apply ascii_legal_char. rewrite ord_chr. lia.
  - assert (ord (chr (192 + c / 64)) = 192 + c / 64) as E by (rewrite ord_chr; lia).
    apply legal_char_intro; rewrite ?E; [lia|unfold lead_len; split_ranges; done|].
    cbn [length]. rewrite islegal_2, E, lead_legal_ok, !ord_chr by lia.
    rewrite ?in_range_true by lia. cbn [andb]. rewrite andb_true_r.
    apply second_legal_true; lia.
  - assert (ord (chr (224 + c / 4096)) = 224 + c / 4096) as E by (rewrite ord_chr; lia).
    apply legal_char_intro; rewrite ?E; [lia|unfold lead_len; split_ranges; done|].
    cbn [length]. rewrite islegal_3, E, lead_legal_ok, !ord_chr by lia.
    rewrite ?in_range_true by lia. cbn [andb]. rewrite andb_true_r.
    apply second_legal_true; lia.
  - assert (ord (chr (240 + c / 262144)) = 240 + c / 262144) as E by (rewrite ord_chr; lia).
    apply legal_char_intro; rewrite ?E; [lia|unfold lead_len; split_ranges; done|].
    cbn [length]. rewrite islegal_4, E, lead_legal_ok, !ord_chr by lia.
    rewrite ?in_range_true by lia. cbn [andb]. rewrite andb_true_r.
    apply second_legal_true; lia.
Qed.

(** The bytes of a character. *)
Lemma legal_char_inv ch : legal_char ch ->
  (exists a, ch = [a] /\ 1 <= ord a <= 127) \/
  (exists a b, ch = [a; b] /\ 194 <= ord a <= 223 /\ 128 <= ord b <= 191) \/
  (exists a b c, ch = [a; b; c] /\ 224 <= ord a <= 239 /\ second_legal (ord a) (ord b) = true /\
     128 <= ord c <= 191) \/
  (exists a b c d, ch = [a; b; c; d] /\ 240 <= ord a <= 244 /\ second_legal (ord a) (ord b) = true /\
     128 <= ord c <= 191 /\ 128 <= ord d <= 191).
Proof.
  unfold legal_char. destruct ch as [|a ch]; [done|]. rewrite verify_step_ranges. cbv zeta.
  pose proof (ord_range a) as Ha. destruct (Z.ltb_spec (ord a) 128).
  { destruct (Z.eqb_spec (ord a) 0); [done|]. intros [= Hl]. destruct ch; [|discriminate Hl].
    left. exists a. split; [done|lia]. }
  destruct (Nat.ltb_spec (length (a :: ch)) (lead_len (ord a))); [done|].
  destruct (islegal (a :: ch) (lead_len (ord a))) eqn:E; [|done]. intros [= Hl]. rewrite Hl in E.
  assert (lead_legal (ord a) = true -> 194 <= ord a <= 244) as L by (unfold lead_legal; lia).
  unfold lead_len in Hl. right.
  destruct ch as [|b [|c [|d [|e ch]]]]; cbn [length] in E, Hl;
    rewrite ?islegal_2, ?islegal_3, ?islegal_4 in E; [| | | |exfalso; revert Hl; split_ranges].
  - change (lead_legal (ord a) = true) in E. specialize (L E). exfalso. revert Hl. split_ranges.
  - split_bool. left. exists a, b. split; [done|]. specialize (L ltac:(done)).
    split; [revert Hl; split_ranges|by eapply second_legal_cont].
  - split_bool. right; left. exists a, b, c. specialize (L ltac:(done)).
    destruct (in_range_spec (ord c) 128 191); [|done]. split_and!; try done; revert Hl; split_ranges.
  - split_bool. right; right. exists a, b, c, d. specialize (L ltac:(done)).
    destruct (in_range_spec (ord c) 128 191), (in_range_spec (ord d) 128 191); try done.
    split_and!; try done; revert Hl; split_ranges.
Qed.

Lemma second_legal_ranges l a : second_legal l a = true ->
  128 <= a <= 191 /\ (l = 224 -> 160 <= a) /\ (l = 237 -> a <= 159) /\ (l = 240 -> 144 <= a) /\
  (l = 244 -> a <= 143).
Proof. unfold second_legal. split_ranges; done. Qed.

Lemma encode_bytes c s : 0 <= c <= 1114111 ->
  (if c <=? 127 then [c]
   else if c <=? 2047 then [192 + c / 64; 128 + c mod 64]
   else if c <=? 65535 then [224 + c / 4096; 128 + c / 64 mod 64; 128 + c mod 64]
   else [240 + c / 262144; 128 + c / 4096 mod 64; 128 + c / 64 mod 64; 128 + c mod 64]) = map ord s ->
  s = unicode_to_utf8 c.
Proof.
  intros Hc E. rewrite unicode_to_utf8_arith, E by done. clear. induction s as [|x s IH]; [done|].
  cbn [map]. by rewrite chr_ord, <- IH.
Qed.

(** Every character is the encoding of a scalar value other than NUL. *)
Lemma legal_char_decode ch : legal_char ch -> exists c, scalar c /\ c <> 0 /\ ch = unicode_to_utf8 c.
Proof.
  intros H. unfold scalar.
  destruct (legal_char_inv ch H) as [(a & -> & Ha)|[(a & b & -> & Ha & Hb)|[(a & b & c & -> & Ha & Hb & Hc)|
    (a & b & c & d & -> & Ha & Hb & Hc & Hd)]]].
  - exists (ord a). split_and!; try lia. apply encode_bytes; [lia|]. split_ranges. done.
  - exists ((ord a - 192) * 64 + (ord b - 128)). split_and!; try lia. apply encode_bytes; [lia|].
    split_ranges. cbn [map]. repeat f_equal; lia.
  - apply second_legal_ranges in Hb as (? & ? & ? & ? & ?).
    exists ((ord a - 224) * 4096 + (ord b - 128) * 64 + (ord c - 128)). split_and!; try lia.
    apply encode_bytes; [lia|]. split_ranges. cbn [map]. repeat f_equal; lia.
  - apply second_legal_ranges in Hb as (? & ? & ? & ? & ?).
    exists ((ord a - 240) * 262144 + (ord b - 128) * 4096 + (ord c - 128) * 64 + (ord d - 128)).
    split_and!; try lia. apply encode_bytes; [lia|]. split_ranges. cbn [map]. repeat f_equal; lia.
Qed.

(** What the step accepts is a character by itself. *)
Lemma verify_step_take s l : accepted_step s = Some l -> legal_char (take l s).
Proof.
  intros E. pose proof (verify_step_pos _ _ E) as Hl. revert E.
  destruct s as [|c s]; [done|]. unfold legal_char. destruct l as [|l]; [lia|].
  rewrite length_take_le by lia. intros E. cbn [firstn take] in *. revert E. rewrite !verify_step_ranges.
  cbv zeta. case_match; [done|]. case_match; [done|].
  destruct (islegal (c :: s) _) eqn:Eleg; [|done]. intros [= El]. rewrite El in *.
  rewrite <- (take_drop (S l) (c :: s)), islegal_app in Eleg by (rewrite length_take; lia).
  cbn [firstn take] in Eleg. rewrite Eleg. cbn [length] in *. rewrite length_take_le by lia.
  by rewrite Nat.ltb_irrefl.
Qed.

Lemma valid_prefix_split s : exists chs rest, s = concat chs ++ rest /\ Forall legal_char chs /\
  length (concat chs) = valid_prefix s.
Proof.
  induction s as [s IH] using (induction_ltof1 _ (@length ascii)). unfold ltof in IH.
  destruct (accepted_step s) as [l|] eqn:E.
  - pose proof (verify_step_pos _ _ E) as Hl.
    pose proof (verify_step_take _ _ E) as Hch.
    destruct (IH (drop l s)) as (chs & rest & E' & Hchs & Hlen); [rewrite length_drop; lia|].
    exists (take l s :: chs), rest. cbn [concat]. rewrite <- app_assoc, <- E', take_drop.
    split_and!; [done|by constructor|]. rewrite <- (take_drop l s) at 2.
    rewrite valid_prefix_char, length_app, Hlen by done. done.
  - exists [], s. split_and!; [done|constructor|]. unfold valid_prefix.
    destruct s; [done|]. cbn [length accepted_bytes concat]. by rewrite E.
Qed.

(** C36. A string is accepted exactly when it is UTF-8 in the sense of RFC 3629:
    [pg_utf8_verifystr] reports the whole length if and only if the bytes are the
    encodings of a sequence of Unicode scalar values (no surrogates, nothing above
    U+10FFFF, no overlong form), none of them NUL. *)
Theorem pg_utf8_verifystr_accepts vw s : (0 < vw)%nat ->
  pg_utf8_verifystr vw s = Some (length s) <->
  exists cs, Forall (fun c => scalar c /\ c <> 0) cs /\ s = concat (map unicode_to_utf8 cs).
Proof.
  intros Hw. rewrite verifystr_valid_prefix by done. split.
  - intros [= E]. destruct (valid_prefix_split s) as (chs & rest & -> & Hchs & Hl).
    rewrite E, length_app in Hl. destruct rest; [|cbn in Hl; lia]. rewrite app_nil_r. clear E Hl.
    induction Hchs as [|ch chs Hch _ (cs & Hcs & IH)]; [by exists []|].
    destruct (legal_char_decode ch Hch) as (c & Hs & H0 & ->). exists (c :: cs). cbn [concat map].
    rewrite IH. split; [|done]. by constructor.
  - intros (cs & Hcs & ->). f_equal. rewrite <- (app_nil_r (concat _)) at 1. rewrite valid_prefix_chars.
    + unfold valid_prefix. cbn. lia.
    + apply List.Forall_map. eapply Forall_impl; [|done]. intros c [??]. by apply legal_char_encode.
Qed.

(** A string of a one-byte and a four-byte character is accepted. *)
Lemma pg_utf8_verifystr_accepts_witness :
  (0 < 16)%nat /\ pg_utf8_verifystr 16 (map chr [65; 240; 159; 152; 128]) = Some 5%nat.
Proof.
  split; [lia|]. apply (proj2 (pg_utf8_verifystr_accepts 16 (map chr [65; 240; 159; 152; 128]) ltac:(lia))).
  exists [65; 128512]. split; [|reflexivity]. repeat constructor; (lia || discriminate).
Defined.
