(* ===== verification/Encoding.v ===== *)
(** * Character sets of the server

    src/common/wchar.c: for every encoding, the length of a character
    ([mblen]), the check of a character ([verifychar]) and of a string
    ([verifystr]), the table that selects them, and [pg_encoding_set_invalid];
    src/common/encnames.c: the lookup of an encoding by name.

    The checks take a length and must not read past it: a buffer is exactly its
    bytes and a read past its end is a value of its own.  The [mblen] functions take
    no length; they read a string up to its terminating NUL. *)

From S2P Require Import Prelude Utf8.

(** ** Encodings *)

Inductive pg_enc :=
  | PG_SQL_ASCII | PG_EUC_JP | PG_EUC_CN | PG_EUC_KR | PG_EUC_TW | PG_EUC_JIS_2004 | PG_UTF8
  | PG_UNUSED_1 | PG_LATIN1 | PG_LATIN2 | PG_LATIN3 | PG_LATIN4 | PG_LATIN5 | PG_LATIN6 | PG_LATIN7
  | PG_LATIN8 | PG_LATIN9 | PG_LATIN10 | PG_WIN1256 | PG_WIN1258 | PG_WIN866 | PG_WIN874 | PG_KOI8R
  | PG_WIN1251 | PG_WIN1252 | PG_ISO_8859_5 | PG_ISO_8859_6 | PG_ISO_8859_7 | PG_ISO_8859_8
  | PG_WIN1250 | PG_WIN1253 | PG_WIN1254 | PG_WIN1255 | PG_WIN1257 | PG_GB18030 | PG_KOI8U | PG_SJIS
  | PG_BIG5 | PG_GBK | PG_UHC | PG_JOHAB | PG_SHIFT_JIS_2004.

#[export] Instance pg_enc_eq_dec : EqDecision pg_enc.
Proof. solve_decision. Defined.

Definition PG_VALID_ENCODING (e : pg_enc) : bool := negb (bool_decide (e = PG_UNUSED_1)).

(** The encodings a database may use: all but the client-only ones. *)
Definition PG_VALID_BE_ENCODING (e : pg_enc) : bool :=
  match e with
  | PG_UNUSED_1 | PG_SJIS | PG_BIG5 | PG_GBK | PG_UHC | PG_JOHAB | PG_SHIFT_JIS_2004 => false
  | _ => true
  end.

Definition SS2 : Z := 142.
Definition SS3 : Z := 143.
Definition NONUTF8_INVALID_BYTE0 : Z := 141.
Definition NONUTF8_INVALID_BYTE1 : Z := 32.

Definition highbit (b : Z) : bool := negb (Z.land b 128 =? 0).
Definition IS_EUC_RANGE_VALID (c : Z) : bool := in_range c 161 254.
Definition ISSJISHEAD (c : Z) : bool := in_range c 129 159 || in_range c 224 252.
Definition ISSJISTAIL (c : Z) : bool := in_range c 64 126 || in_range c 128 252.

(** ** Length of a character *)

Definition pg_ascii_mblen (s : bytes) : nat := 1.
Definition pg_latin1_mblen (s : bytes) : nat := 1.

Definition pg_euc_mblen (s : bytes) : nat :=
  if byte_at s 0 =? SS2 then 2 else if byte_at s 0 =? SS3 then 3 else if highbit (byte_at s 0) then 2 else 1.

Definition pg_eucjp_mblen (s : bytes) : nat := pg_euc_mblen s.
Definition pg_euckr_mblen (s : bytes) : nat := pg_euc_mblen s.
Definition pg_johab_mblen (s : bytes) : nat := pg_euc_mblen s.

Definition pg_euccn_mblen (s : bytes) : nat :=
  if byte_at s 0 =? SS2 then 3 else if byte_at s 0 =? SS3 then 3 else if highbit (byte_at s 0) then 2 else 1.

Definition pg_euctw_mblen (s : bytes) : nat :=
  if byte_at s 0 =? SS2 then 4 else if byte_at s 0 =? SS3 then 3 else if highbit (byte_at s 0) then 2 else 1.

Definition pg_sjis_mblen (s : bytes) : nat :=
  if in_range (byte_at s 0) 161 223 then 1 else if highbit (byte_at s 0) then 2 else 1.

Definition pg_big5_mblen (s : bytes) : nat := if highbit (byte_at s 0) then 2 else 1.
Definition pg_gbk_mblen (s : bytes) : nat := if highbit (byte_at s 0) then 2 else 1.
Definition pg_uhc_mblen (s : bytes) : nat := if highbit (byte_at s 0) then 2 else 1.

Definition pg_gb18030_mblen (s : bytes) : nat :=
  if negb (highbit (byte_at s 0)) then 1 else if in_range (byte_at s 1) 48 57 then 4 else 2.

(** ** Check of a character

    The outer [None] is a read past the end of the buffer, the inner one is -1. *)

Definition accept (l : nat) : option (option nat) := Some (Some l).
Definition reject : option (option nat) := Some None.
Definition has (s : bytes) (l : nat) : bool := (l <=? length s)%nat.

(** [while (--l > 0) ... *++s]: the [n] bytes from the [i]-th on. *)
Fixpoint trail_check (f : Z -> bool) (s : bytes) (i n : nat) : option bool :=
  match n with
  | O => Some true
  | S n' => c ← read_byte s i; if f c then trail_check f s (S i) n' else Some false
  end.

Definition pg_ascii_verifychar (s : bytes) : option (option nat) := accept 1.
Definition pg_latin1_verifychar (s : bytes) : option (option nat) := accept 1.

Definition pg_eucjp_verifychar (s : bytes) : option (option nat) :=
  c1 ← read_byte s 0;
  if c1 =? SS2 then
    if negb (has s 2) then reject
    else
      c2 ← read_byte s 1;
      if (c2 <? 161) || (223 <? c2) then reject else accept 2
  else if c1 =? SS3 then
    if negb (has s 3) then reject
    else
      c2 ← read_byte s 1;
      if negb (IS_EUC_RANGE_VALID c2) then reject
      else
        c2 ← read_byte s 2;
        if negb (IS_EUC_RANGE_VALID c2) then reject else accept 3
  else if highbit c1 then
    if negb (has s 2) then reject
    else if negb (IS_EUC_RANGE_VALID c1) then reject
    else
      c2 ← read_byte s 1;
      if negb (IS_EUC_RANGE_VALID c2) then reject else accept 2
  else accept 1.

Definition pg_euckr_verifychar (s : bytes) : option (option nat) :=
  c1 ← read_byte s 0;
  if highbit c1 then
    if negb (has s 2) then reject
    else if negb (IS_EUC_RANGE_VALID c1) then reject
    else
      c2 ← read_byte s 1;
      if negb (IS_EUC_RANGE_VALID c2) then reject else accept 2
  else accept 1.

Definition pg_euctw_verifychar (s : bytes) : option (option nat) :=
  c1 ← read_byte s 0;
  if c1 =? SS2 then
    if negb (has s 4) then reject
    else
      c2 ← read_byte s 1;
      if (c2 <? 161) || (167 <? c2) then reject
      else
        c2 ← read_byte s 2;
        if negb (IS_EUC_RANGE_VALID c2) then reject
        else
          c2 ← read_byte s 3;
          if negb (IS_EUC_RANGE_VALID c2) then reject else accept 4
  else if c1 =? SS3 then reject
  else if highbit c1 then
    if negb (has s 2) then reject
    else
      c2 ← read_byte s 1;
      if negb (IS_EUC_RANGE_VALID c2) then reject else accept 2
  else accept 1.

Definition pg_johab_verifychar (s : bytes) : option (option nat) :=
  let mbl := pg_johab_mblen s in
  if negb (has s mbl) then reject
  else
    c ← read_byte s 0;
    if negb (highbit c) then accept mbl
    else
      ok ← trail_check IS_EUC_RANGE_VALID s 1 (mbl - 1);
      if negb ok then reject else accept mbl.

Definition pg_sjis_verifychar (s : bytes) : option (option nat) :=
  let mbl := pg_sjis_mblen s in
  if negb (has s mbl) then reject
  else if (mbl =? 1)%nat then accept mbl
  else
    c1 ← read_byte s 0;
    c2 ← read_byte s 1;
    if negb (ISSJISHEAD c1) || negb (ISSJISTAIL c2) then reject else accept mbl.

(** The body BIG5, GBK and UHC share. *)
Definition double_byte_verifychar (mblen : bytes -> nat) (s : bytes) : option (option nat) :=
  let mbl := mblen s in
  if negb (has s mbl) then reject
  else
    invalid ← (if (mbl =? 2)%nat then
                 b0 ← read_byte s 0;
                 if b0 =? NONUTF8_INVALID_BYTE0 then
                   b1 ← read_byte s 1; Some (b1 =? NONUTF8_INVALID_BYTE1)
                 else Some false
               else Some false);
    if (invalid : bool) then reject
    else
      ok ← trail_check (fun b => negb (b =? 0)) s 1 (mbl - 1);
      if negb ok then reject else accept mbl.

Definition pg_big5_verifychar (s : bytes) : option (option nat) := double_byte_verifychar pg_big5_mblen s.
Definition pg_gbk_verifychar (s : bytes) : option (option nat) := double_byte_verifychar pg_gbk_mblen s.
Definition pg_uhc_verifychar (s : bytes) : option (option nat) := double_byte_verifychar pg_uhc_mblen s.

Definition pg_gb18030_verifychar (s : bytes) : option (option nat) :=
  b0 ← read_byte s 0;
  if negb (highbit b0) then accept 1
  else
    four ← (if has s 4 then b1 ← read_byte s 1; Some (in_range b1 48 57) else Some false);
    if (four : bool) then
      if negb (in_range b0 129 254) then reject
      else
        b2 ← read_byte s 2;
        if negb (in_range b2 129 254) then reject
        else
          b3 ← read_byte s 3;
          if in_range b3 48 57 then accept 4 else reject
    else if has s 2 && in_range b0 129 254 then
      b1 ← read_byte s 1;
      if in_range b1 64 126 || in_range b1 128 254 then accept 2 else reject
    else reject.

(** ** Check of a string: the number of valid bytes *)

(** One iteration of the loop of every multibyte [verifystr]: ASCII directly, the
    rest through the encoding's [verifychar]. *)
Definition mb_next (verifychar : bytes -> option (option nat)) (s : bytes) : option (option nat) :=
  match s with
  | [] => reject
  | c :: _ =>
      if negb (highbit (ord c)) then if ord c =? 0 then reject else accept 1
      else verifychar s
  end.

Fixpoint mb_loop (verifychar : bytes -> option (option nat)) (fuel : nat) (s : bytes) : option nat :=
  match fuel with
  | O => Some O
  | S fuel' =>
      next ← mb_next verifychar s;
      match next with
      | None => Some O
      | Some l => n ← mb_loop verifychar fuel' (drop l s); Some (l + n)
      end
  end%nat.

Definition mb_verifystr (verifychar : bytes -> option (option nat)) (s : bytes) : option nat :=
  mb_loop verifychar (length s) s.

(** [memchr(s, 0, len)]: single-byte encodings reject only NUL. *)
Fixpoint nul_prefix (s : bytes) : nat :=
  match s with
  | [] => O
  | c :: s' => if ord c =? 0 then O else S (nul_prefix s')
  end.

Definition pg_ascii_verifystr (s : bytes) : option nat := Some (nul_prefix s).
Definition pg_latin1_verifystr (s : bytes) : option nat := Some (nul_prefix s).
Definition pg_eucjp_verifystr (s : bytes) : option nat := mb_verifystr pg_eucjp_verifychar s.
Definition pg_euckr_verifystr (s : bytes) : option nat := mb_verifystr pg_euckr_verifychar s.
Definition pg_euctw_verifystr (s : bytes) : option nat := mb_verifystr pg_euctw_verifychar s.
Definition pg_johab_verifystr (s : bytes) : option nat := mb_verifystr pg_johab_verifychar s.
Definition pg_sjis_verifystr (s : bytes) : option nat := mb_verifystr pg_sjis_verifychar s.
Definition pg_big5_verifystr (s : bytes) : option nat := mb_verifystr pg_big5_verifychar s.
Definition pg_gbk_verifystr (s : bytes) : option nat := mb_verifystr pg_gbk_verifychar s.
Definition pg_uhc_verifystr (s : bytes) : option nat := mb_verifystr pg_uhc_verifychar s.
Definition pg_gb18030_verifystr (s : bytes) : option nat := mb_verifystr pg_gb18030_verifychar s.

(** [sizeof(Vector8)] with SSE2 or Neon. *)
Definition Vector8_size : nat := 16.

(** ** The table *)

Record pg_wchar_tbl := mk_wchar_tbl {
  mblen : bytes -> nat;
  mbverifychar : bytes -> option (option nat);
  mbverifystr : bytes -> option nat;
  maxmblen : nat
}.

Definition pg_wchar_table (e : pg_enc) : pg_wchar_tbl :=
  let single := mk_wchar_tbl pg_latin1_mblen pg_latin1_verifychar pg_latin1_verifystr 1 in
  match e with
  | PG_SQL_ASCII => mk_wchar_tbl pg_ascii_mblen pg_ascii_verifychar pg_ascii_verifystr 1
  | PG_EUC_JP => mk_wchar_tbl pg_eucjp_mblen pg_eucjp_verifychar pg_eucjp_verifystr 3
  | PG_EUC_CN => mk_wchar_tbl pg_euccn_mblen pg_euckr_verifychar pg_euckr_verifystr 3
  | PG_EUC_KR => mk_wchar_tbl pg_euckr_mblen pg_euckr_verifychar pg_euckr_verifystr 3
  | PG_EUC_TW => mk_wchar_tbl pg_euctw_mblen pg_euctw_verifychar pg_euctw_verifystr 4
  | PG_EUC_JIS_2004 => mk_wchar_tbl pg_eucjp_mblen pg_eucjp_verifychar pg_eucjp_verifystr 3
  | PG_UTF8 => mk_wchar_tbl (fun s => pg_utf_mblen (byte_at s 0)) pg_utf8_verifychar (pg_utf8_verifystr Vector8_size) 4
  | PG_GB18030 => mk_wchar_tbl pg_gb18030_mblen pg_gb18030_verifychar pg_gb18030_verifystr 4
  | PG_SJIS => mk_wchar_tbl pg_sjis_mblen pg_sjis_verifychar pg_sjis_verifystr 2
  | PG_BIG5 => mk_wchar_tbl pg_big5_mblen pg_big5_verifychar pg_big5_verifystr 2
  | PG_GBK => mk_wchar_tbl pg_gbk_mblen pg_gbk_verifychar pg_gbk_verifystr 2
  | PG_UHC => mk_wchar_tbl pg_uhc_mblen pg_uhc_verifychar pg_uhc_verifystr 2
  | PG_JOHAB => mk_wchar_tbl pg_johab_mblen pg_johab_verifychar pg_johab_verifystr 3
  | PG_SHIFT_JIS_2004 => mk_wchar_tbl pg_sjis_mblen pg_sjis_verifychar pg_sjis_verifystr 2
  | PG_UNUSED_1 => mk_wchar_tbl pg_ascii_mblen pg_ascii_verifychar pg_ascii_verifystr 1
  (* LATIN, WIN, KOI8 and ISO 8859 *)
  | _ => single
  end%nat.

Definition pg_encoding_mblen (e : pg_enc) (s : bytes) : nat := mblen (pg_wchar_table e) s.
Definition pg_encoding_verifymbchar (e : pg_enc) (s : bytes) : option (option nat) := mbverifychar (pg_wchar_table e) s.
Definition pg_encoding_verifymbstr (e : pg_enc) (s : bytes) : option nat := mbverifystr (pg_wchar_table e) s.
Definition pg_encoding_max_length (e : pg_enc) : nat := maxmblen (pg_wchar_table e).

Definition pg_encoding_set_invalid (e : pg_enc) : bytes :=
  [chr (if bool_decide (e = PG_UTF8) then 192 else NONUTF8_INVALID_BYTE0); chr NONUTF8_INVALID_BYTE1].

(** ** Names *)

Definition NAMEDATALEN : nat := 64.

Definition pg_encname_tbl : list (string * pg_enc) :=
  [("abc", PG_WIN1258); ("alt", PG_WIN866); ("big5", PG_BIG5); ("euccn", PG_EUC_CN);
   ("eucjis2004", PG_EUC_JIS_2004); ("eucjp", PG_EUC_JP); ("euckr", PG_EUC_KR);
   ("euctw", PG_EUC_TW); ("gb18030", PG_GB18030); ("gbk", PG_GBK); ("iso88591", PG_LATIN1);
   ("iso885910", PG_LATIN6); ("iso885913", PG_LATIN7); ("iso885914", PG_LATIN8);
   ("iso885915", PG_LATIN9); ("iso885916", PG_LATIN10); ("iso88592", PG_LATIN2);
   ("iso88593", PG_LATIN3); ("iso88594", PG_LATIN4); ("iso88595", PG_ISO_8859_5);
   ("iso88596", PG_ISO_8859_6); ("iso88597", PG_ISO_8859_7); ("iso88598", PG_ISO_8859_8);
   ("iso88599", PG_LATIN5); ("johab", PG_JOHAB); ("koi8", PG_KOI8R); ("koi8r", PG_KOI8R);
   ("koi8u", PG_KOI8U); ("latin1", PG_LATIN1); ("latin10", PG_LATIN10); ("latin2", PG_LATIN2);
   ("latin3", PG_LATIN3); ("latin4", PG_LATIN4); ("latin5", PG_LATIN5); ("latin6", PG_LATIN6);
   ("latin7", PG_LATIN7); ("latin8", PG_LATIN8); ("latin9", PG_LATIN9); ("mskanji", PG_SJIS);
   ("shiftjis", PG_SJIS); ("shiftjis2004", PG_SHIFT_JIS_2004); ("sjis", PG_SJIS);
   ("sqlascii", PG_SQL_ASCII); ("tcvn", PG_WIN1258); ("tcvn5712", PG_WIN1258); ("uhc", PG_UHC);
   ("unicode", PG_UTF8); ("utf8", PG_UTF8); ("vscii", PG_WIN1258); ("win", PG_WIN1251);
   ("win1250", PG_WIN1250); ("win1251", PG_WIN1251); ("win1252", PG_WIN1252);
   ("win1253", PG_WIN1253); ("win1254", PG_WIN1254); ("win1255", PG_WIN1255);
   ("win1256", PG_WIN1256); ("win1257", PG_WIN1257); ("win1258", PG_WIN1258); ("win866", PG_WIN866);
   ("win874", PG_WIN874); ("win932", PG_SJIS); ("win936", PG_GBK); ("win949", PG_UHC);
   ("win950", PG_BIG5); ("windows1250", PG_WIN1250); ("windows1251", PG_WIN1251);
   ("windows1252", PG_WIN1252); ("windows1253", PG_WIN1253); ("windows1254", PG_WIN1254);
   ("windows1255", PG_WIN1255); ("windows1256", PG_WIN1256); ("windows1257", PG_WIN1257);
   ("windows1258", PG_WIN1258); ("windows866", PG_WIN866); ("windows874", PG_WIN874);
   ("windows932", PG_SJIS); ("windows936", PG_GBK); ("windows949", PG_UHC); ("windows950", PG_BIG5)]%string.

(** [clean_encoding_name], with [isalnum] of the C locale. *)
Definition isalnum (c : ascii) : bool :=
  in_range (ord c) 48 57 || in_range (ord c) 65 90 || in_range (ord c) 97 122.
Definition clean_encoding_name (key : bytes) : bytes :=
  map (fun c => if in_range (ord c) 65 90 then chr (ord c + 97 - 65) else c) (filter (fun c => isalnum c = true) key).

(** [strcmp]: the difference at the first byte that differs; the end is NUL. *)
Fixpoint strcmp (a b : bytes) : Z :=
  match a, b with
  | [], [] => 0
  | [], y :: _ => - ord y
  | x :: _, [] => ord x
  | x :: a', y :: b' => if ord x =? ord y then strcmp a' b' else ord x - ord y
  end.

(** A [char] as an [int] where [char] is signed. *)
Definition schar (b : Z) : Z := if b <? 128 then b else b - 256.

Definition key_cmp (key name : bytes) : Z :=
  let result := schar (byte_at key 0) - schar (byte_at name 0) in
  if result =? 0 then strcmp key name else result.

(** The binary search over positions [base..last]. *)
Fixpoint encname_search (fuel : nat) (key : bytes) (base last : Z) : option pg_enc :=
  match fuel with
  | O => None
  | S fuel' =>
      if base <=? last then
        let position := base + Z.shiftr (last - base) 1 in
        '(name, enc) ← pg_encname_tbl !! Z.to_nat position;
        let result := key_cmp key (lit name) in
        if result =? 0 then Some enc
        else if result <? 0 then encname_search fuel' key base (position - 1)
        else encname_search fuel' key (position + 1) last
      else None
  end.

Definition pg_char_to_encoding (name : bytes) : option pg_enc :=
  if (length name =? 0)%nat then None
  else if (NAMEDATALEN <=? length name)%nat then None
  else
    let nel := Z.of_nat (length pg_encname_tbl) in
    encname_search (length pg_encname_tbl) (clean_encoding_name name) 0 (nel - 1).

(** ** The reference: characters as functions of the bytes

    What the checks accept, with NUL past the end of the buffer. *)

Definition guard_char (ok : bool) (l : nat) : option nat := if ok then Some l else None.

(** The bytes after the first, up to the [l]-th. *)
Definition trail_all (f : Z -> bool) (s : bytes) (l : nat) : bool :=
  forallb (fun i => f (byte_at s i)) (seq 1 (l - 1)).

Definition ascii_char (s : bytes) : option nat := Some 1%nat.
Definition latin1_char (s : bytes) : option nat := Some 1%nat.

Definition eucjp_char (s : bytes) : option nat :=
  let c1 := byte_at s 0 in
  if c1 =? SS2 then guard_char (has s 2 && in_range (byte_at s 1) 161 223) 2
  else if c1 =? SS3 then
    guard_char (has s 3 && IS_EUC_RANGE_VALID (byte_at s 1) && IS_EUC_RANGE_VALID (byte_at s 2)) 3
  else if highbit c1 then guard_char (has s 2 && IS_EUC_RANGE_VALID c1 && IS_EUC_RANGE_VALID (byte_at s 1)) 2
  else Some 1%nat.

Definition euckr_char (s : bytes) : option nat :=
  let c1 := byte_at s 0 in
  if highbit c1 then guard_char (has s 2 && IS_EUC_RANGE_VALID c1 && IS_EUC_RANGE_VALID (byte_at s 1)) 2
  else Some 1%nat.

Definition euctw_char (s : bytes) : option nat :=
  let c1 := byte_at s 0 in
  if c1 =? SS2 then
    guard_char (has s 4 && in_range (byte_at s 1) 161 167 &&
                IS_EUC_RANGE_VALID (byte_at s 2) && IS_EUC_RANGE_VALID (byte_at s 3)) 4
  else if c1 =? SS3 then None
  else if highbit c1 then guard_char (has s 2 && IS_EUC_RANGE_VALID (byte_at s 1)) 2
  else Some 1%nat.

Definition johab_char (s : bytes) : option nat :=
  let mbl := pg_johab_mblen s in
  if negb (has s mbl) then None
  else if negb (highbit (byte_at s 0)) then Some mbl
  else guard_char (trail_all IS_EUC_RANGE_VALID s mbl) mbl.

Definition sjis_char (s : bytes) : option nat :=
  let mbl := pg_sjis_mblen s in
  if negb (has s mbl) then None
  else if (mbl =? 1)%nat then Some mbl
  else guard_char (ISSJISHEAD (byte_at s 0) && ISSJISTAIL (byte_at s 1)) mbl.

Definition double_byte_char (mblen : bytes -> nat) (s : bytes) : option nat :=
  let mbl := mblen s in
  if negb (has s mbl) then None
  else if (mbl =? 2)%nat && (byte_at s 0 =? NONUTF8_INVALID_BYTE0) && (byte_at s 1 =? NONUTF8_INVALID_BYTE1)
  then None
  else guard_char (trail_all (fun b => negb (b =? 0)) s mbl) mbl.

Definition big5_char (s : bytes) : option nat := double_byte_char pg_big5_mblen s.
Definition gbk_char (s : bytes) : option nat := double_byte_char pg_gbk_mblen s.
Definition uhc_char (s : bytes) : option nat := double_byte_char pg_uhc_mblen s.

Definition gb18030_char (s : bytes) : option nat :=
  let b i := byte_at s i in
  if negb (highbit (b 0%nat)) then Some 1%nat
  else if has s 4 && in_range (b 1%nat) 48 57 then
    guard_char (in_range (b 0%nat) 129 254 && in_range (b 2%nat) 129 254 && in_range (b 3%nat) 48 57) 4
  else if has s 2 && in_range (b 0%nat) 129 254 then
    guard_char (in_range (b 1%nat) 64 126 || in_range (b 1%nat) 128 254) 2
  else None.

Definition encoding_char (e : pg_enc) : bytes -> option nat :=
  match e with
  | PG_EUC_JP | PG_EUC_JIS_2004 => eucjp_char
  | PG_EUC_CN | PG_EUC_KR => euckr_char
  | PG_EUC_TW => euctw_char
  | PG_UTF8 => accepted_char
  | PG_GB18030 => gb18030_char
  | PG_SJIS | PG_SHIFT_JIS_2004 => sjis_char
  | PG_BIG5 => big5_char
  | PG_GBK => gbk_char
  | PG_UHC => uhc_char
  | PG_JOHAB => johab_char
  | _ => fun _ => Some 1%nat
  end.

(** The longest prefix of characters other than NUL. *)
Definition next_char (verifychar : bytes -> option nat) (s : bytes) : option nat :=
  match s with
  | [] => None
  | c :: _ =>
      if negb (highbit (ord c)) then if ord c =? 0 then None else Some 1%nat
      else verifychar s
  end.

Fixpoint verify_loop (verifychar : bytes -> option nat) (fuel : nat) (s : bytes) : nat :=
  match fuel with
  | O => O
  | S fuel' =>
      match next_char verifychar s with
      | None => O
      | Some l => l + verify_loop verifychar fuel' (drop l s)
      end
  end%nat.

Definition verifystr (verifychar : bytes -> option nat) (s : bytes) : nat :=
  verify_loop verifychar (length s) s.

(** *** The checks read inside the buffer and give these verdicts *)

Lemma nonempty_length (s : bytes) : s <> [] -> (0 < length s)%nat.
Proof. destruct s; [done|]. cbn. lia. Qed.

Lemma trail_checked f s i n :
  (i + n <= length s)%nat -> trail_check f s i n = Some (forallb (fun j => f (byte_at s j)) (seq i n)).
Proof.
  revert i. induction n as [|n IH]; intros i H; [done|]. cbn [trail_check seq forallb].
  rewrite read_byte_at by lia. cbn [mbind option_bind]. destruct (f (byte_at s i)); [|done]. apply IH. lia.
Qed.

(** Decide the length tests, follow the reads, and compare the verdicts. *)
Ltac same_verdict :=
  repeat match goal with
  | |- context [has ?s ?l] => destruct (Nat.leb_spec l (@length ascii s)) as [?Hl|?Hl];
      [assert (has s l = true) as -> by (by apply Nat.leb_le)
      |assert (has s l = false) as -> by (by apply Nat.leb_gt)]
  end; try lia;
  repeat first
    [ progress cbn [negb andb orb mbind option_bind Nat.eqb]
    | rewrite read_byte_at by lia
    | rewrite trail_checked by lia
    | match goal with
      | |- context [IS_EUC_RANGE_VALID ?x] => destruct (IS_EUC_RANGE_VALID x)
      | |- context [ISSJISHEAD ?x] => destruct (ISSJISHEAD x)
      | |- context [ISSJISTAIL ?x] => destruct (ISSJISTAIL x)
      | |- context [in_range ?x ?lo ?hi] => destruct (in_range x lo hi)
      | |- context [highbit ?x] => destruct (highbit x)
      | |- context [?x =? ?y] => destruct (x =? y)
      | |- context [?x <? ?y] => destruct (x <? y)
      | |- context [forallb ?f ?l] => destruct (forallb f l)
      end ]; try done.

Ltac verdict defs := intros ?%nonempty_length; defs; unfold guard_char, trail_all, accept, reject; cbv zeta; same_verdict.

Lemma eucjp_checked s : s <> [] -> pg_eucjp_verifychar s = Some (eucjp_char s).
Proof. verdict ltac:(unfold pg_eucjp_verifychar, eucjp_char, in_range). Qed.

Lemma euckr_checked s : s <> [] -> pg_euckr_verifychar s = Some (euckr_char s).
Proof. verdict ltac:(unfold pg_euckr_verifychar, euckr_char). Qed.

Lemma euctw_checked s : s <> [] -> pg_euctw_verifychar s = Some (euctw_char s).
Proof. verdict ltac:(unfold pg_euctw_verifychar, euctw_char, in_range). Qed.

Lemma johab_checked s : s <> [] -> pg_johab_verifychar s = Some (johab_char s).
Proof.
  intros H. unfold pg_johab_verifychar, johab_char. cbv zeta. generalize (pg_johab_mblen s). intros mbl. revert H.
  verdict idtac.
Qed.

Lemma sjis_checked s : s <> [] -> pg_sjis_verifychar s = Some (sjis_char s).
Proof.
  unfold pg_sjis_verifychar, sjis_char, pg_sjis_mblen.
  destruct (in_range (byte_at s 0) 161 223); [verdict idtac|]. destruct (highbit (byte_at s 0)); verdict idtac.
Qed.

Lemma double_byte_checked ml s :
  (ml s = 1 \/ ml s = 2)%nat -> s <> [] -> double_byte_verifychar ml s = Some (double_byte_char ml s).
Proof. unfold double_byte_verifychar, double_byte_char. intros [->| ->]; verdict idtac. Qed.

Lemma two_byte_mblen s : ((if highbit (byte_at s 0) then 2 else 1) = 1 \/ (if highbit (byte_at s 0) then 2 else 1) = 2)%nat.
Proof. destruct (highbit _); auto. Qed.

Lemma gb18030_checked s : s <> [] -> pg_gb18030_verifychar s = Some (gb18030_char s).
Proof. verdict ltac:(unfold pg_gb18030_verifychar, gb18030_char). Qed.

(** The check of every row of the table reads inside the buffer. *)
Lemma table_verifychar e s : s <> [] -> pg_encoding_verifymbchar e s = Some (encoding_char e s).
Proof.
  intros H. destruct e; try reflexivity;
    first [by apply eucjp_checked|by apply euckr_checked|by apply euctw_checked|by apply johab_checked|by apply sjis_checked
          |by apply gb18030_checked|by apply accepted_char_checked|by apply double_byte_checked; [apply two_byte_mblen|]].
Qed.

Lemma mb_next_checked vc f s : (forall s, s <> [] -> vc s = Some (f s)) -> mb_next vc s = Some (next_char f s).
Proof. intros H. destruct s as [|c s]; [done|]. cbn [mb_next next_char]. rewrite H by done. by repeat case_match. Qed.

Lemma mb_verifystr_checked vc f s : (forall s, s <> [] -> vc s = Some (f s)) -> mb_verifystr vc s = Some (verifystr f s).
Proof.
  intros H. unfold mb_verifystr, verifystr. generalize (length s). intros n. revert s.
  induction n as [|n IH]; intros s; [done|]. cbn [mb_loop verify_loop]. rewrite (mb_next_checked vc f) by done.
  cbn [mbind option_bind]. destruct (next_char f s) as [l|]; [|done]. by rewrite IH.
Qed.

(** ** What a character check promises *)

(** The contract between an encoding's [verifychar] and [mblen] that every client
    of verified strings relies on: an accepted character lies inside the buffer,
    has the length [mblen] reports (at most [maxmblen]) and no NUL byte, and being
    accepted depends on its own bytes only. *)
Class Charset (vc : bytes -> option nat) (ml : bytes -> nat) (mx : nat) : Prop := {
  cs_bounds s l : vc s = Some l -> highbit (byte_at s 0) = true -> (1 <= l <= length s)%nat /\ (l <= mx)%nat;
  cs_mblen s l : vc s = Some l -> highbit (byte_at s 0) = true -> ml s = l;
  cs_nonul s l i : vc s = Some l -> highbit (byte_at s 0) = true -> (i < l)%nat -> byte_at s i <> 0;
  cs_local s l u : vc s = Some l -> highbit (byte_at s 0) = true -> vc (take l s ++ u) = Some l;
  cs_ascii s : highbit (byte_at s 0) = false -> ml s = 1%nat;
  cs_max : (1 <= mx)%nat
}.

Lemma highbit_ge b : 0 <= b < 256 -> highbit b = (128 <=? b).
Proof. intros. unfold highbit. rewrite land_highbit by done. lia. Qed.

Lemma byte_at_range s i : 0 <= byte_at s i < 256.
Proof. apply ord_range. Qed.

Lemma highbit_true s i : highbit (byte_at s i) = true -> 128 <= byte_at s i /\ (i < length s)%nat.
Proof.
  rewrite highbit_ge by apply byte_at_range. intros H. split; [lia|].
  destruct (Nat.ltb_spec i (length s)); [done|]. unfold byte_at in H.
  rewrite nth_overflow in H by done. done.
Qed.

Lemma byte_at_take s l u i : (i < l <= length s)%nat -> byte_at (take l s ++ u) i = byte_at s i.
Proof.
  intros H. rewrite <- (take_drop l s) at 2. rewrite !byte_at_app; [done|..]; rewrite length_take; lia.
Qed.

Lemma has_take s l u k : (k <= l <= length s)%nat -> has (take l s ++ u) k = true.
Proof. intros. unfold has. apply Nat.leb_le. rewrite length_app, length_take. lia. Qed.

Lemma trail_take f s l u k : (k <= l <= length s)%nat -> trail_all f (take l s ++ u) k = trail_all f s k.
Proof.
  intros. unfold trail_all. assert (forall i, In i (seq 1 (k - 1)) -> (i < l)%nat) as Hi by (intros i Hi%in_seq; lia).
  revert Hi. induction (seq 1 (k - 1)) as [|j js IH]; intros Hi; cbn [forallb]; [done|].
  rewrite byte_at_take, IH; [done| |]; [intros; apply Hi; by right|]. split; [apply Hi; by left|lia].
Qed.

Lemma trail_nth f s l i : trail_all f s l = true -> (1 <= i < l)%nat -> f (byte_at s i) = true.
Proof.
  unfold trail_all. rewrite forallb_forall. intros H Hi. apply (H i), in_seq. lia.
Qed.

Lemma in_range_elim a lo hi : in_range a lo hi = true -> lo <= a <= hi.
Proof. by destruct (in_range_spec a lo hi). Qed.

Lemma guard_char_Some ok l l' : guard_char ok l = Some l' -> ok = true /\ l' = l.
Proof. destruct ok; [|done]. by intros [= ->]. Qed.

Lemma has_true s l : has s l = true -> (l <= length s)%nat.
Proof. apply Nat.leb_le. Qed.

(** Turn what a check tested into bounds. *)
Ltac checked :=
  unfold IS_EUC_RANGE_VALID, ISSJISHEAD, ISSJISTAIL in *;
  repeat match goal with
  | H : guard_char _ _ = Some _ |- _ => apply guard_char_Some in H as [H ->]
  | H : Some _ = Some _ |- _ => injection H as <-
  | H : None = Some _ |- _ => discriminate H
  | H : context [if ?b then _ else _] |- _ =>
      match type of H with _ = Some _ => destruct b eqn:? end
  end; split_bool;
  repeat match goal with
  | H : (_ || _) = true |- _ => apply orb_true_iff in H as [H|H]
  | H : in_range _ _ _ = true |- _ => apply in_range_elim in H
  | H : has _ _ = true |- _ => apply has_true in H
  | H : highbit (byte_at _ _) = true |- _ => apply highbit_true in H as [? ?]
  | H : highbit (byte_at ?s ?i) = false |- _ => rewrite highbit_ge in H by apply byte_at_range
  | H : (_ =? _)%nat = true |- _ => apply Nat.eqb_eq in H
  end.

(** A test that the bounds decide. *)
Ltac decide_tests :=
  unfold guard_char, IS_EUC_RANGE_VALID, ISSJISHEAD, ISSJISTAIL in *;
  repeat case_match; try done; split_bool;
  repeat match goal with
  | H : (_ && _) = false |- _ => apply andb_false_iff in H as [H|H]
  | H : (_ || _) = false |- _ => apply orb_false_iff in H as [? ?]
  | H : (_ && _) = true |- _ => apply andb_true_iff in H as [? ?]
  | H : negb _ = _ |- _ => apply negb_true_iff in H || apply negb_false_iff in H
  | H : (_ || _) = true |- _ => apply orb_true_iff in H as [H|H]
  | H : in_range ?a ?lo ?hi = ?b |- _ => revert H; destruct (in_range_spec a lo hi) as [?Hin|?Hin]; intros H; try discriminate H; clear H
  | H : has _ _ = true |- _ => apply has_true in H
  | H : has (take _ _ ++ _) _ = false |- _ => rewrite has_take in H by lia; discriminate H
  | H : highbit (byte_at _ _) = _ |- _ => rewrite highbit_ge in H by apply byte_at_range
  | H : (_ =? _)%nat = true |- _ => apply Nat.eqb_eq in H
  end; try lia; try congruence.

Ltac small_index i := destruct i as [|[|[|[|i]]]]; try lia.

Ltac charset_instance defs :=
  split;
  [ defs; intros; checked; lia
  | defs; intros; checked; decide_tests
  | defs; intros ? ? i ? ? ?; checked; small_index i
  | defs; intros s l u ? ?; checked; rewrite ?byte_at_take by lia; decide_tests
  | defs; intros; checked; decide_tests
  | lia ].

(** The instances, one per row of the table. *)

#[export] Instance single_byte_charset : Charset (fun _ => Some 1%nat) (fun _ => 1%nat) 1.
Proof.
  split; intros; checked; auto with lia. small_index i.
Qed.

#[export] Instance eucjp_charset : Charset eucjp_char pg_eucjp_mblen 3.
Proof. charset_instance ltac:(unfold eucjp_char, pg_eucjp_mblen, pg_euc_mblen, SS2, SS3). Qed.

#[export] Instance euckr_charset : Charset euckr_char pg_euckr_mblen 3.
Proof. charset_instance ltac:(unfold euckr_char, pg_euckr_mblen, pg_euc_mblen, SS2, SS3). Qed.

#[export] Instance euccn_charset : Charset euckr_char pg_euccn_mblen 3.
Proof. charset_instance ltac:(unfold euckr_char, pg_euccn_mblen, SS2, SS3). Qed.

#[export] Instance euctw_charset : Charset euctw_char pg_euctw_mblen 4.
Proof. charset_instance ltac:(unfold euctw_char, pg_euctw_mblen, SS2, SS3). Qed.

Lemma Charset_ext vc vc' ml mx : (forall s, vc s = vc' s) -> Charset vc' ml mx -> Charset vc ml mx.
Proof. intros E C. split; intros *; rewrite ?E; apply C. Qed.

#[export] Instance sjis_charset : Charset sjis_char pg_sjis_mblen 2.
Proof.
  apply (Charset_ext _ (fun s =>
    if in_range (byte_at s 0) 161 223 then guard_char (has s 1) 1
    else if highbit (byte_at s 0) then
      guard_char (has s 2 && (ISSJISHEAD (byte_at s 0) && ISSJISTAIL (byte_at s 1))) 2
    else guard_char (has s 1) 1)).
  - intros s. unfold sjis_char, pg_sjis_mblen.
    destruct (in_range (byte_at s 0) 161 223), (highbit (byte_at s 0));
      cbv zeta; cbn [Nat.eqb]; by destruct (has s 1), (has s 2).
  - charset_instance ltac:(unfold pg_sjis_mblen).
Qed.

#[export] Instance gb18030_charset : Charset gb18030_char pg_gb18030_mblen 4.
Proof. charset_instance ltac:(unfold gb18030_char, pg_gb18030_mblen; cbv zeta). Qed.

#[export] Instance johab_charset : Charset johab_char pg_johab_mblen 3.
Proof.
  apply (Charset_ext _ (fun s =>
    if byte_at s 0 =? SS2 then guard_char (has s 2 && IS_EUC_RANGE_VALID (byte_at s 1)) 2
    else if byte_at s 0 =? SS3 then
      guard_char (has s 3 && (IS_EUC_RANGE_VALID (byte_at s 1) && IS_EUC_RANGE_VALID (byte_at s 2))) 3
    else if highbit (byte_at s 0) then guard_char (has s 2 && IS_EUC_RANGE_VALID (byte_at s 1)) 2
    else guard_char (has s 1) 1)).
  - intros s. unfold johab_char, pg_johab_mblen, pg_euc_mblen, trail_all.
    destruct (Z.eqb_spec (byte_at s 0) SS2) as [E|]; [|destruct (Z.eqb_spec (byte_at s 0) SS3) as [E|]];
      [rewrite E..|destruct (highbit (byte_at s 0))]; cbn [seq Nat.sub forallb negb]; rewrite ?andb_true_r;
      cbv zeta; by destruct (has s 1), (has s 2), (has s 3).
  - charset_instance ltac:(unfold pg_johab_mblen, pg_euc_mblen, SS2, SS3).
Qed.

(** BIG5, GBK and UHC: a high-bit byte and any byte but NUL, except one pair. *)
Lemma double_byte_charset ml : (forall s, ml s = if highbit (byte_at s 0) then 2%nat else 1%nat) ->
  Charset (double_byte_char ml) ml 2.
Proof.
  intros Hml. apply (Charset_ext _ (fun s =>
    if highbit (byte_at s 0) then
      guard_char (has s 2 && (negb ((byte_at s 0 =? NONUTF8_INVALID_BYTE0) && (byte_at s 1 =? NONUTF8_INVALID_BYTE1)) &&
                  negb (byte_at s 1 =? 0))) 2
    else guard_char (has s 1) 1)).
  - intros s. unfold double_byte_char, trail_all. rewrite Hml.
    destruct (highbit (byte_at s 0)); cbn [seq Nat.sub forallb negb Nat.eqb andb]; rewrite ?andb_true_r;
      [destruct (has s 2)|by destruct (has s 1)]; cbn [negb andb]; [|done]. by case_match.
  - unfold NONUTF8_INVALID_BYTE0, NONUTF8_INVALID_BYTE1. split.
    + intros. checked; lia.
    + intros. rewrite Hml. checked; decide_tests.
    + intros ? ? i ? ? ?. checked; small_index i.
    + intros s l u ? ?. checked; try lia; rewrite ?byte_at_take, highbit_ge by (lia || apply byte_at_range).
      rewrite has_take, H1, H2 by lia. by destruct (Z.leb_spec 128 (byte_at s 0)); [|lia].
    + intros. by rewrite Hml, H.
    + lia.
Qed.

#[export] Instance big5_charset : Charset big5_char pg_big5_mblen 2.
Proof. by apply double_byte_charset. Qed.

#[export] Instance gbk_charset : Charset gbk_char pg_gbk_mblen 2.
Proof. by apply double_byte_charset. Qed.

#[export] Instance uhc_charset : Charset uhc_char pg_uhc_mblen 2.
Proof. by apply double_byte_charset. Qed.

Lemma verifychar_verify_step s : highbit (byte_at s 0) = true -> accepted_char s = accepted_step s.
Proof.
  destruct s as [|c s]; [done|]. intros H. cbn [accepted_step]. unfold IS_HIGHBIT_SET.
  unfold highbit in H. change (byte_at (c :: s) 0) with (ord c) in H. by rewrite H.
Qed.

Lemma legal_char_nonul ch i : legal_char ch -> (i < length ch)%nat -> byte_at ch i <> 0.
Proof.
  intros H Hi.
  destruct (legal_char_inv ch H) as [(a & -> & Ha)|[(a & b & -> & Ha & Hb)|[(a & b & c & -> & Ha & Hb%second_legal_cont & Hc)|
    (a & b & c & d & -> & Ha & Hb%second_legal_cont & Hc & Hd)]]]; small_index i; unfold byte_at; cbn in *; lia.
Qed.

#[export] Instance utf8_charset : Charset accepted_char (fun s => pg_utf_mblen (byte_at s 0)) 4.
Proof.
  assert (forall s l, accepted_step s = Some l -> highbit (byte_at s 0) = true -> lead_len (byte_at s 0) = l) as HL.
  { intros [|c s] l; [done|]. rewrite verify_step_ranges. cbv zeta. change (byte_at (c :: s) 0) with (ord c).
    rewrite highbit_ge by apply ord_range. intros E ?. destruct (Z.ltb_spec (ord c) 128); [lia|].
    repeat case_match; by simplify_eq. }
  split.
  - intros s l H Hb. rewrite verifychar_verify_step in H by done.
    pose proof (verify_step_pos _ _ H). apply HL in H; [|done]. unfold lead_len in H. repeat case_match; lia.
  - intros s l H Hb. rewrite verifychar_verify_step in H by done.
    rewrite pg_utf_mblen_ranges by apply byte_at_range. by apply HL.
  - intros s l i H Hb Hi. rewrite verifychar_verify_step in H by done.
    pose proof (verify_step_pos _ _ H). rewrite <- (byte_at_take s l []), app_nil_r by lia.
    apply legal_char_nonul; [by apply verify_step_take|]. rewrite length_take. lia.
  - intros s l u H Hb. rewrite verifychar_verify_step in H by done. pose proof (verify_step_pos _ _ H).
    rewrite verifychar_verify_step by by rewrite byte_at_take by lia.
    rewrite verify_step_app by by apply verify_step_take. rewrite length_take. f_equal. lia.
  - intros s Hb. rewrite pg_utf_mblen_ranges by apply byte_at_range. rewrite highbit_ge in Hb by apply byte_at_range.
    unfold lead_len. split_ranges.
  - lia.
Qed.

(** ** Verified strings, for every charset *)

Section verified.
Context {vc : bytes -> option nat} {ml : bytes -> nat} {mx : nat} `{C : !Charset vc ml mx}.

(** A character of the charset. *)
Definition is_char (ch : bytes) : Prop := next_char vc ch = Some (length ch).

Lemma next_char_spec s l : next_char vc s = Some l ->
  (1 <= l <= length s)%nat /\ (l <= mx)%nat /\ ml s = l /\ (forall i, (i < l)%nat -> byte_at s i <> 0).
Proof.
  destruct s as [|c s]; [done|]. cbn [next_char]. change (ord c) with (byte_at (c :: s) 0).
  destruct (highbit _) eqn:Hb; cbn [negb].
  - intros H. destruct (cs_bounds _ _ H Hb). split_and!; try lia; [by apply cs_mblen|].
    intros i Hi. by apply (cs_nonul _ l).
  - destruct (Z.eqb_spec (byte_at (c :: s) 0) 0); [done|]. intros [= <-]. cbn [length].
    split_and!; [lia..|pose proof cs_max; lia|by apply cs_ascii|]. intros i Hi. by destruct i; [|lia].
Qed.

Lemma next_char_local s l u : next_char vc s = Some l -> next_char vc (take l s ++ u) = Some l.
Proof.
  intros H. destruct (next_char_spec _ _ H) as (Hl & _). revert H.
  destruct s as [|c s]; [done|]. destruct l as [|l]; [lia|]. cbn [take firstn app next_char].
  destruct (highbit (ord c)) eqn:Hb; cbn [negb]; [|done].
  intros H. by apply (cs_local (c :: s) (S l) u H).
Qed.

Lemma next_char_is_char s l : next_char vc s = Some l -> is_char (take l s).
Proof.
  intros H. destruct (next_char_spec _ _ H) as (Hl & _). unfold is_char.
  rewrite length_take_le by lia. rewrite <- (app_nil_r (take l s)). by apply next_char_local.
Qed.

Lemma is_char_app ch u : is_char ch -> next_char vc (ch ++ u) = Some (length ch).
Proof. intros H. rewrite <- (firstn_all ch) at 1. by apply next_char_local. Qed.

Lemma verify_loop_fuel n s : (length s <= n)%nat -> verify_loop vc n s = verifystr vc s.
Proof.
  unfold verifystr. remember (length s) as m eqn:Em. assert (length s <= m)%nat as Hm by lia. clear Em.
  intros Hn. revert s m Hm Hn. induction n as [|n IH]; intros s m Hm Hn.
  - destruct m; [done|]. destruct s; simpl in *; [done|lia].
  - destruct m as [|m]; cbn [verify_loop]; destruct (next_char vc s) as [l|] eqn:E; try done;
      apply next_char_spec in E as [E _]; [lia|]. f_equal. apply IH; rewrite ?length_drop; lia.
Qed.

Lemma verifystr_char ch u : is_char ch -> verifystr vc (ch ++ u) = (length ch + verifystr vc u)%nat.
Proof.
  intros H. destruct (next_char_spec _ _ H) as [Hp _]. unfold verifystr at 1.
  destruct (length (ch ++ u)) as [|n] eqn:E; rewrite length_app in E; [lia|]. cbn [verify_loop].
  rewrite is_char_app by done. rewrite drop_app_length. f_equal. apply verify_loop_fuel. lia.
Qed.

Lemma verifystr_chars chs u : Forall is_char chs ->
  verifystr vc (concat chs ++ u) = (length (concat chs) + verifystr vc u)%nat.
Proof.
  induction 1 as [|ch chs Hch _ IH]; [done|]. cbn [concat].
  rewrite <- app_assoc, verifystr_char by done. rewrite IH, length_app. lia.
Qed.

Lemma verifystr_split s : exists chs rest, s = concat chs ++ rest /\ Forall is_char chs /\
  next_char vc rest = None /\ length (concat chs) = verifystr vc s.
Proof.
  induction s as [s IH] using (induction_ltof1 _ (@length ascii)). unfold ltof in IH.
  destruct (next_char vc s) as [l|] eqn:E.
  - pose proof (next_char_spec _ _ E) as [Hl _]. pose proof (next_char_is_char _ _ E) as Hch.
    destruct (IH (drop l s)) as (chs & rest & E' & Hchs & Hr & Hlen); [rewrite length_drop; lia|].
    exists (take l s :: chs), rest. cbn [concat]. rewrite <- app_assoc, <- E', take_drop.
    split_and!; [done|by constructor|done|]. rewrite <- (take_drop l s) at 2.
    rewrite verifystr_char, length_app, Hlen by done. done.
  - exists [], s. split_and!; [done|constructor|done|]. unfold verifystr.
    destruct s; [done|]. cbn [length verify_loop concat]. by rewrite E.
Qed.

(** A string passes exactly when it is a sequence of characters. *)
Lemma verifystr_accepts s : verifystr vc s = length s <-> exists chs, Forall is_char chs /\ s = concat chs.
Proof.
  split.
  - intros E. destruct (verifystr_split s) as (chs & rest & -> & Hchs & _ & Hl).
    rewrite E, length_app in Hl. destruct rest; [|cbn in Hl; lia]. exists chs. by rewrite app_nil_r.
  - intros (chs & Hchs & ->). rewrite <- (app_nil_r (concat chs)) at 1. rewrite verifystr_chars by done.
    unfold verifystr. cbn. lia.
Qed.

End verified.
Arguments is_char vc ch : clear implicits.

(** ** The table keeps the contract *)

#[export] Instance table_charset e :
  Charset (encoding_char e) (pg_encoding_mblen e) (pg_encoding_max_length e).
Proof. destruct e; apply _. Qed.

Lemma nul_prefix_verifystr s : nul_prefix s = verifystr (fun _ => Some 1%nat) s.
Proof.
  induction s as [|c s IH]; [done|]. unfold verifystr. cbn [length verify_loop next_char nul_prefix].
  destruct (highbit (ord c)) eqn:Hb; cbn [negb].
  - destruct (Z.eqb_spec (ord c) 0) as [E|]; [by rewrite E in Hb|]. cbn [drop skipn]. by rewrite IH.
  - case_match; [done|]. cbn [drop skipn]. by rewrite IH.
Qed.

Lemma valid_prefix_verifystr s : valid_prefix s = verifystr accepted_char s.
Proof.
  unfold valid_prefix, verifystr. generalize (length s) as n. intros n. revert s.
  induction n as [|n IH]; intros s; [done|]. cbn [accepted_bytes verify_loop].
  assert (next_char accepted_char s = accepted_step s) as -> by by destruct s.
  destruct (accepted_step s); [|done]. by rewrite IH.
Qed.

(** Every row of the table counts the bytes its character check accepts. *)
Lemma table_verifystr e s :
  pg_encoding_verifymbstr e s = Some (verifystr (encoding_char e) s).
Proof.
  pose proof (mb_verifystr_checked _ _ s (table_verifychar e)) as H.
  destruct e; try exact H; try (cbn; unfold pg_ascii_verifystr, pg_latin1_verifystr; by rewrite nul_prefix_verifystr).
  change (pg_utf8_verifystr Vector8_size s = Some (verifystr accepted_char s)).
  rewrite verifystr_valid_prefix by (unfold Vector8_size; lia). by rewrite valid_prefix_verifystr.
Qed.

(** C24. In every encoding, the verified part of a string can be walked safely:
    [pg_encoding_verifymbstr] reads only inside the buffer and reports the length
    of a prefix made of characters, each of at most [pg_encoding_max_length]
    bytes and without NUL, whose length [pg_encoding_mblen] reports whatever
    follows; and the prefix is the longest one: what comes next is not a
    character the encoding's check accepts. *)
Theorem verifymbstr_characters e s :
  exists chs rest, s = concat chs ++ rest /\
    pg_encoding_verifymbstr e s = Some (length (concat chs)) /\
    Forall (fun ch => (1 <= length ch <= pg_encoding_max_length e)%nat /\
      (forall i, (i < length ch)%nat -> byte_at ch i <> 0) /\
      (forall u, pg_encoding_mblen e (ch ++ u) = length ch)) chs /\
    (rest = [] \/ byte_at rest 0 = 0 \/ pg_encoding_verifymbchar e rest = Some None).
Proof.
  rewrite table_verifystr. destruct (verifystr_split (C := table_charset e) s) as (chs & rest & -> & Hchs & Hr & Hl).
  exists chs, rest. split_and!; [done|by rewrite Hl| |].
  - eapply Forall_impl; [|exact Hchs]. intros ch Hch. cbn beta.
    destruct (next_char_spec (C := table_charset e) _ _ Hch) as (? & ? & _ & Hnn). split_and!; [lia..|done|].
    intros u. by destruct (next_char_spec (C := table_charset e) _ _ (is_char_app ch u Hch)) as (_ & _ & ? & _).
  - destruct rest as [|c rest]; [by left|right]. cbn [next_char] in Hr. revert Hr.
    destruct (highbit (ord c)); cbn [negb]; [intros E; right; by rewrite table_verifychar, E|].
    change (byte_at (c :: rest) 0) with (ord c). destruct (Z.eqb_spec (ord c) 0); [by left|done].
Qed.

Lemma verifystr_rejected vc s : next_char vc s = None -> verifystr vc s = O.
Proof. unfold verifystr. destruct s; [done|]. intros H. cbn [length verify_loop]. by rewrite H. Qed.

(** The two bytes [pg_encoding_set_invalid] writes are invalid in every
    multibyte encoding, whatever bytes follow them: they look like one two-byte
    character and no byte of the string is accepted. (The comment at its
    definition claims this; quoting code relies on it.) *)
Theorem set_invalid_rejected e u : (1 < pg_encoding_max_length e)%nat ->
  pg_encoding_mblen e (pg_encoding_set_invalid e ++ u) = 2%nat /\
  pg_encoding_verifymbstr e (pg_encoding_set_invalid e ++ u) = Some O.
Proof.
  intros Hmx. rewrite table_verifystr, verifystr_rejected.
  - destruct e; try (cbn in Hmx; lia); split; reflexivity.
  - destruct e; try (cbn in Hmx; lia); try reflexivity.
    change (gb18030_char (chr 141 :: chr 32 :: u) = None). unfold gb18030_char.
    change (byte_at (chr 141 :: chr 32 :: u) 0) with 141. change (byte_at (chr 141 :: chr 32 :: u) 1) with 32.
    by destruct (has (chr 141 :: chr 32 :: u) 4).
Qed.

(** GBK. *)
Lemma set_invalid_rejected_witness :
  (1 < pg_encoding_max_length PG_GBK)%nat /\
  pg_encoding_verifymbstr PG_GBK (pg_encoding_set_invalid PG_GBK ++ lit "'") = Some O.
Proof.
  split; [cbn; lia|]. exact (proj2 (set_invalid_rejected PG_GBK (lit "'") ltac:(cbn; lia))).
Defined.

(** ** Encoding names *)

(** The table is sorted: comparing two entries compares their positions. *)
Definition sorted_at (i j : nat) : bool :=
  match pg_encname_tbl !! i, pg_encname_tbl !! j with
  | Some (a, _), Some (b, _) =>
      match Z.compare (key_cmp (lit a) (lit b)) 0, Nat.compare i j with
      | Eq, Eq | Lt, Lt | Gt, Gt => true
      | _, _ => false
      end
  | _, _ => true
  end.

Lemma encname_tbl_sorted i j a e b f :
  pg_encname_tbl !! i = Some (a, e) -> pg_encname_tbl !! j = Some (b, f) ->
  Z.compare (key_cmp (lit a) (lit b)) 0 = Nat.compare i j.
Proof.
  intros Hi Hj.
  assert (H : forallb (fun i => forallb (sorted_at i) (seq 0 80)) (seq 0 80) = true) by (vm_compute; reflexivity).
  rewrite forallb_forall in H. specialize (H i).
  rewrite forallb_forall in H. specialize (H ltac:(apply in_seq; apply lookup_lt_Some in Hi; cbn in Hi; lia) j).
  specialize (H ltac:(apply in_seq; apply lookup_lt_Some in Hj; cbn in Hj; lia)).
  unfold sorted_at in H. rewrite Hi, Hj in H. by destruct (Z.compare _ _), (Nat.compare _ _).
Qed.

Lemma shiftr1_half z : 0 <= z -> Z.shiftr z 1 = z / 2.
Proof. intros. by rewrite Z.shiftr_div_pow2. Qed.

(** An entry within the bounds is found. *)
Lemma encname_search_complete fuel k a e : forall base last,
  pg_encname_tbl !! k = Some (a, e) -> 0 <= base -> last < 80 -> base <= Z.of_nat k <= last ->
  last - base < Z.of_nat fuel -> encname_search fuel (lit a) base last = Some e.
Proof.
  induction fuel as [|fuel IH]; intros base last Hk Hb Hl Hr Hf; [lia|]. cbn [encname_search].
  destruct (Z.leb_spec base last); [|lia]. rewrite shiftr1_half by lia.
  set (p := base + (last - base) / 2). assert (base <= p <= last) as Hp by (unfold p; lia).
  destruct (pg_encname_tbl !! Z.to_nat p) as [[b f]|] eqn:Ep.
  - cbn [mbind option_bind]. pose proof (encname_tbl_sorted _ _ _ _ _ _ Hk Ep) as Hc.
    destruct (Z.eqb_spec (key_cmp (lit a) (lit b)) 0) as [E0|]; [|destruct (Z.ltb_spec (key_cmp (lit a) (lit b)) 0) as [El|Eg]].
    + rewrite E0 in Hc. symmetry in Hc. apply Nat.compare_eq in Hc. subst k. by simplify_eq.
    + rewrite (proj2 (Z.compare_lt_iff _ _) El) in Hc. symmetry in Hc. apply Nat.compare_lt_iff in Hc.
      apply IH; lia || done.
    + assert (Z.compare (key_cmp (lit a) (lit b)) 0 = Gt) as Eg' by (apply Z.compare_gt_iff; lia).
      rewrite Eg' in Hc. symmetry in Hc. apply Nat.compare_gt_iff in Hc. apply IH; lia || done.
  - apply lookup_ge_None in Ep. cbn in Ep. lia.
Qed.

Definition nonul (s : bytes) : Prop := Forall (fun c => ord c <> 0) s.

Lemma strcmp_zero a : forall b, nonul a -> nonul b -> strcmp a b = 0 -> a = b.
Proof.
  induction a as [|x a IH]; intros [|y b] Ha Hb; cbn [strcmp]; [done| | |].
  - inversion_clear Hb. lia.
  - inversion_clear Ha. lia.
  - inversion_clear Ha. inversion_clear Hb. destruct (Z.eqb_spec (ord x) (ord y)) as [E|]; [|lia].
    intros Hs. f_equal; [by apply ord_inj|by apply IH].
Qed.

Lemma encname_search_sound fuel key e : nonul key -> forall base last,
  encname_search fuel key base last = Some e -> exists a, In (a, e) pg_encname_tbl /\ lit a = key.
Proof.
  intros Hkey. induction fuel as [|fuel IH]; intros base last; [done|]. cbn [encname_search].
  destruct (base <=? last); [|done]. destruct (pg_encname_tbl !! _) as [[b f]|] eqn:Ep; [|done].
  cbn [mbind option_bind]. destruct (Z.eqb_spec (key_cmp key (lit b)) 0) as [E0|]; [|case_match; apply IH].
  intros [= ->]. exists b. assert (In (b, e) pg_encname_tbl) as Hin by (by eapply list_elem_of_In, list_elem_of_lookup_2).
  split; [done|]. symmetry. apply strcmp_zero; [done| |].
  - assert (H : forallb (fun x => forallb (fun c => negb (ord c =? 0)) (lit x.1)) pg_encname_tbl = true)
      by (vm_compute; reflexivity).
    rewrite forallb_forall in H. specialize (H _ Hin). cbn [fst] in H. rewrite forallb_forall in H.
    apply List.Forall_forall. intros c Hc. specialize (H c Hc). lia.
  - unfold key_cmp in E0. destruct (Z.eqb_spec (schar (byte_at key 0) - schar (byte_at (lit b) 0)) 0); [done|lia].
Qed.

Lemma clean_nonul name : nonul (clean_encoding_name name).
Proof.
  unfold clean_encoding_name. apply List.Forall_map, List.Forall_forall. intros c Hc.
  apply list_elem_of_In, list_elem_of_filter in Hc as [Hc _]. unfold isalnum in Hc.
  destruct (in_range_spec (ord c) 65 90); [rewrite ord_chr; lia|].
  destruct (in_range_spec (ord c) 48 57), (in_range_spec (ord c) 97 122); cbn in Hc; done || lia.
Qed.

(** An encoding is found by name exactly when the name, with everything but
    letters and digits dropped and folded to lower case, is an entry of the alias
    table: the binary search misses no entry and finds nothing else. *)
Theorem pg_char_to_encoding_correct name e :
  name <> [] -> (length name < NAMEDATALEN)%nat ->
  pg_char_to_encoding name = Some e <->
  exists a, In (a, e) pg_encname_tbl /\ lit a = clean_encoding_name name.
Proof.
  intros Hne Hlen. unfold pg_char_to_encoding. destruct (Nat.eqb_spec (length name) 0).
  { by destruct name. }
  destruct (Nat.leb_spec NAMEDATALEN (length name)); [lia|]. split.
  - apply encname_search_sound, clean_nonul.
  - intros (a & Hin & <-). apply list_elem_of_In, list_elem_of_lookup_1 in Hin as [k Hk].
    pose proof (lookup_lt_Some _ _ _ Hk) as Hlt. cbn in Hlt.
    apply (encname_search_complete _ k); [done|cbn; lia..].
Qed.

(** The IANA name of LATIN1. *)
Lemma pg_char_to_encoding_correct_witness :
  lit "ISO-8859-1" <> [] /\ (length (lit "ISO-8859-1") < NAMEDATALEN)%nat /\
  pg_char_to_encoding (lit "ISO-8859-1") = Some PG_LATIN1.
Proof.
  split; [discriminate|]. split; [cbn; unfold NAMEDATALEN; lia|].
  apply (proj2 (pg_char_to_encoding_correct (lit "ISO-8859-1") PG_LATIN1 ltac:(discriminate)
                  ltac:(cbn; unfold NAMEDATALEN; lia))).
  exists "iso88591"%string. split; [|reflexivity]. apply list_elem_of_In, (list_elem_of_lookup_2 _ 10). reflexivity.
Defined.
