(* ===== verification/MbUtils.v ===== *)
(** * Strings in the database encoding

    src/backend/utils/mb/mbutils.c: counting and clipping strings by character
    ([pg_mbstrlen_with_len], [pg_encoding_mbcliplen], [pg_mbcharcliplen]), their
    verification ([pg_verify_mbstr], [pg_verify_mbstr_len]) and the conversions
    between the database encoding and others ([pg_any_to_server],
    [pg_server_to_any], [pg_do_encoding_conversion]).

    The conversion procedures are catalog entries ([FindDefaultConversionProc]):
    they are a parameter of the session, with what the code relies on as
    hypotheses. *)

From S2P Require Import Prelude Utf8 Encoding.

(** ** Walking a string *)

Definition report_invalid_encoding {A} : result A :=
  ereport ERRCODE_CHARACTER_NOT_IN_REPERTOIRE "invalid byte sequence for encoding".

(** [pg_mblen_with_len]: the length of the first character, an error when the
    character would pass the end of the range. *)
Definition pg_mblen_with_len (e : pg_enc) (mbstr : bytes) (limit : nat) : result nat :=
  let length := mblen (pg_wchar_table e) mbstr in
  if (limit <? length)%nat then report_invalid_encoding else Ok length.

(** The loop of [pg_mbstrlen_with_len]; every iteration consumes a byte. *)
Fixpoint mbstrlen_loop (fuel : nat) (e : pg_enc) (mbstr : bytes) (limit len : nat) : result nat :=
  match fuel with
  | O => Ok len
  | S fuel' =>
      if (0 <? limit)%nat && negb (byte_at mbstr 0 =? 0) then
        l ← pg_mblen_with_len e mbstr limit;
        mbstrlen_loop fuel' e (drop l mbstr) (limit - l) (S len)
      else Ok len
  end.

Definition pg_mbstrlen_with_len (e : pg_enc) (mbstr : bytes) (limit : nat) : result nat :=
  if (maxmblen (pg_wchar_table e) =? 1)%nat then Ok limit else mbstrlen_loop limit e mbstr limit 0.

(** [cliplen]: single-byte encodings. *)
Fixpoint cliplen_loop (str : bytes) (len : nat) : nat :=
  match len, str with
  | S len', c :: str' => if ord c =? 0 then O else S (cliplen_loop str' len')
  | _, _ => O
  end.

Definition cliplen (str : bytes) (len limit : nat) : nat := cliplen_loop str (Nat.min len limit).

Fixpoint mbcliplen_loop (fuel : nat) (e : pg_enc) (mbstr : bytes) (len limit clen : nat) : nat :=
  match fuel with
  | O => clen
  | S fuel' =>
      if (0 <? len)%nat && negb (byte_at mbstr 0 =? 0) then
        let l := mblen (pg_wchar_table e) mbstr in
        if (limit <? clen + l)%nat then clen
        else
          let clen := (clen + l)%nat in
          if (clen =? limit)%nat then clen
          else mbcliplen_loop fuel' e (drop l mbstr) (len - l) limit clen
      else clen
  end.

Definition pg_encoding_mbcliplen (e : pg_enc) (mbstr : bytes) (len limit : nat) : nat :=
  if (pg_encoding_max_length e =? 1)%nat then cliplen mbstr len limit
  else mbcliplen_loop len e mbstr len limit 0.

Fixpoint mbcharcliplen_loop (fuel : nat) (e : pg_enc) (mbstr : bytes) (len limit clen nch : nat) : result nat :=
  match fuel with
  | O => Ok clen
  | S fuel' =>
      if (0 <? len)%nat && negb (byte_at mbstr 0 =? 0) then
        l ← pg_mblen_with_len e mbstr len;
        if (limit <? S nch)%nat then Ok clen
        else mbcharcliplen_loop fuel' e (drop l mbstr) (len - l) limit (clen + l) (S nch)
      else Ok clen
  end.

Definition pg_mbcharcliplen (e : pg_enc) (mbstr : bytes) (len limit : nat) : result nat :=
  if (maxmblen (pg_wchar_table e) =? 1)%nat then Ok (cliplen mbstr len limit)
  else mbcharcliplen_loop len e mbstr len limit 0 0.

(** ** Verification *)

(** [pg_verify_mbstr] with [noError = false]. *)
Definition pg_verify_mbstr (e : pg_enc) (mbstr : bytes) : result bool :=
  match mbverifystr (pg_wchar_table e) mbstr with
  | Some oklen => if (oklen =? length mbstr)%nat then Ok true else report_invalid_encoding
  | None => ereport ERRCODE_INTERNAL_ERROR "read outside the buffer"
  end.

Fixpoint verify_len_loop (fuel : nat) (e : pg_enc) (mbstr : bytes) (mb_len : nat) : result nat :=
  match fuel, mbstr with
  | S fuel', c :: rest =>
      if negb (highbit (ord c)) then
        if ord c =? 0 then report_invalid_encoding else verify_len_loop fuel' e rest (S mb_len)
      else
        match mbverifychar (pg_wchar_table e) mbstr with
        | None => ereport ERRCODE_INTERNAL_ERROR "read outside the buffer"
        | Some None => report_invalid_encoding
        | Some (Some l) => verify_len_loop fuel' e (drop l mbstr) (S mb_len)
        end
  | _, _ => Ok mb_len
  end.

(** [pg_verify_mbstr_len] with [noError = false]. *)
Definition pg_verify_mbstr_len (e : pg_enc) (mbstr : bytes) : result nat :=
  if (pg_encoding_max_length e <=? 1)%nat then
    if (nul_prefix mbstr =? length mbstr)%nat then Ok (length mbstr) else report_invalid_encoding
  else verify_len_loop (length mbstr) e mbstr 0.

(** ** Conversion *)

(** The session: the two encodings, the catalog's default conversions and those
    [SetClientEncoding] has cached. *)
Record mb_session := mk_mb_session {
  DatabaseEncoding : pg_enc;
  ClientEncoding : pg_enc;
  FindDefaultConversionProc : pg_enc -> pg_enc -> option (bytes -> result bytes);
  ToServerConvProc : option (bytes -> result bytes);
  ToClientConvProc : option (bytes -> result bytes)
}.

Definition MaxAllocSize : Z := 1073741823.

(** The check of a long result before it is handed back; a conversion result is
    a C string. *)
Definition check_result_size (src result : bytes) : Prelude.result bytes :=
  if (1000000 <? Z.of_nat (length src)) && (MaxAllocSize <=? Z.of_nat (length result))
  then ereport ERRCODE_PROGRAM_LIMIT_EXCEEDED "out of memory"
  else Ok result.

(** [pg_do_encoding_conversion], inside a transaction. *)
Definition pg_do_encoding_conversion (m : mb_session) (src : bytes) (src_encoding dest_encoding : pg_enc)
    : result bytes :=
  if (length src =? 0)%nat then Ok src
  else if bool_decide (src_encoding = dest_encoding) then Ok src
  else if bool_decide (dest_encoding = PG_SQL_ASCII) then Ok src
  else if bool_decide (src_encoding = PG_SQL_ASCII) then
    _ ← pg_verify_mbstr dest_encoding src; Ok src
  else
    match FindDefaultConversionProc m src_encoding dest_encoding with
    | None => ereport ERRCODE_UNDEFINED_FUNCTION "default conversion function does not exist"
    | Some proc => r ← proc src; check_result_size src r
    end.

Definition perform_default_encoding_conversion (m : mb_session) (src : bytes) (is_client_to_server : bool)
    : result bytes :=
  match (if is_client_to_server then ToServerConvProc m else ToClientConvProc m) with
  | None => Ok src
  | Some proc => r ← proc src; check_result_size src r
  end.

Definition ascii_only (s : bytes) : bool := forallb (fun c => negb ((ord c =? 0) || highbit (ord c))) s.

Definition pg_any_to_server (m : mb_session) (s : bytes) (encoding : pg_enc) : result bytes :=
  if (length s =? 0)%nat then Ok s
  else if bool_decide (encoding = DatabaseEncoding m) || bool_decide (encoding = PG_SQL_ASCII) then
    _ ← pg_verify_mbstr (DatabaseEncoding m) s; Ok s
  else if bool_decide (DatabaseEncoding m = PG_SQL_ASCII) then
    if PG_VALID_BE_ENCODING encoding then _ ← pg_verify_mbstr encoding s; Ok s
    else if ascii_only s then Ok s
    else ereport ERRCODE_CHARACTER_NOT_IN_REPERTOIRE "invalid byte value for encoding"
  else if bool_decide (encoding = ClientEncoding m) then perform_default_encoding_conversion m s true
  else pg_do_encoding_conversion m s encoding (DatabaseEncoding m).

Definition pg_server_to_any (m : mb_session) (s : bytes) (encoding : pg_enc) : result bytes :=
  if (length s =? 0)%nat then Ok s
  else if bool_decide (encoding = DatabaseEncoding m) || bool_decide (encoding = PG_SQL_ASCII) then Ok s
  else if bool_decide (DatabaseEncoding m = PG_SQL_ASCII) then
    _ ← pg_verify_mbstr encoding s; Ok s
  else if bool_decide (encoding = ClientEncoding m) then perform_default_encoding_conversion m s false
  else pg_do_encoding_conversion m s (DatabaseEncoding m) encoding.

(** ** The LATIN1 conversions (utf8_and_iso8859_1.c), with [noError = false] *)

Fixpoint iso8859_1_to_utf8 (src : bytes) : result bytes :=
  match src with
  | [] => Ok []
  | ch :: src' =>
      let c := ord ch in
      if c =? 0 then report_invalid_encoding
      else
        dest ← iso8859_1_to_utf8 src';
        Ok ((if negb (highbit c) then [chr c]
             else [chr (Z.lor (Z.shiftr c 6) 192); chr (Z.lor (Z.land c 63) 128)]) ++ dest)
  end.

Definition report_untranslatable_char {A} : result A :=
  ereport ERRCODE_UNTRANSLATABLE_CHARACTER "character has no equivalent in encoding".

Fixpoint utf8_to_iso8859_1_loop (fuel : nat) (src : bytes) : result bytes :=
  match fuel, src with
  | S fuel', ch :: src' =>
      let c := ord ch in
      if c =? 0 then report_invalid_encoding
      else if negb (highbit c) then dest ← utf8_to_iso8859_1_loop fuel' src'; Ok (chr c :: dest)
      else
        let l := pg_utf_mblen c in
        match (if (length src <? l)%nat then Some false else pg_utf8_islegal src l) with
        | None => ereport ERRCODE_INTERNAL_ERROR "read outside the buffer"
        | Some false => report_invalid_encoding
        | Some true =>
            if negb (l =? 2)%nat then report_untranslatable_char
            else
              let c1 := Z.land (byte_at src 1) 63 in
              let c := Z.lor (Z.shiftl (Z.land c 31) 6) c1 in
              if (128 <=? c) && (c <=? 255) then dest ← utf8_to_iso8859_1_loop fuel' (drop 2 src); Ok (chr c :: dest)
              else report_untranslatable_char
        end
  | _, _ => Ok []
  end.

Definition utf8_to_iso8859_1 (src : bytes) : result bytes := utf8_to_iso8859_1_loop (length src) src.

(** ** Valid strings are sequences of characters *)

Definition valid (e : pg_enc) (s : bytes) : Prop := pg_verify_mbstr e s = Ok true.
Abbreviation is_char_of e := (is_char (encoding_char e)).

Lemma pg_verify_mbstr_cases e s :
  pg_verify_mbstr e s =
  if (verifystr (encoding_char e) s =? length s)%nat then Ok true else report_invalid_encoding.
Proof. unfold pg_verify_mbstr. fold (pg_encoding_verifymbstr e s). by rewrite table_verifystr. Qed.

Lemma valid_chars e s : valid e s <-> exists chs, Forall (is_char_of e) chs /\ s = concat chs.
Proof.
  unfold valid. rewrite pg_verify_mbstr_cases, <- (verifystr_accepts (C := table_charset e)).
  destruct (Nat.eqb_spec (verifystr (encoding_char e) s) (length s)); split; done.
Qed.

Lemma char_length e ch : is_char_of e ch -> (1 <= length ch <= pg_encoding_max_length e)%nat.
Proof. intros H. destruct (next_char_spec (C := table_charset e) _ _ H) as (? & ? & _). lia. Qed.

Lemma char_mblen e ch u : is_char_of e ch -> mblen (pg_wchar_table e) (ch ++ u) = length ch.
Proof.
  intros H. by destruct (next_char_spec (C := table_charset e) _ _ (is_char_app (C := table_charset e) ch u H))
    as (_ & _ & ? & _).
Qed.

Lemma char_lead e ch u : is_char_of e ch -> (byte_at (ch ++ u) 0 =? 0) = false.
Proof.
  intros H. pose proof (char_length e ch H).
  destruct (next_char_spec (C := table_charset e) _ _ (is_char_app (C := table_charset e) ch u H)) as (_ & _ & _ & Hn).
  apply Z.eqb_neq, Hn. lia.
Qed.

Lemma char_nonul e ch : is_char_of e ch -> nonul ch.
Proof.
  intros H. destruct (next_char_spec (C := table_charset e) _ _ H) as (_ & _ & _ & Hn).
  apply List.Forall_forall. intros c Hc. destruct (In_nth _ _ "000"%char Hc) as (i & Hi & <-). by apply (Hn i).
Qed.

Lemma valid_nonul e s : valid e s -> nonul s.
Proof.
  intros (chs & Hchs & ->)%valid_chars. induction Hchs as [|ch chs Hch _ IH]; [constructor|].
  cbn [concat]. apply Forall_app_2; [by eapply char_nonul|done].
Qed.

Lemma valid_concat e chs : Forall (is_char_of e) chs -> valid e (concat chs).
Proof. intros H. apply valid_chars. by exists chs. Qed.

Lemma valid_app e s t : valid e s -> valid e t -> valid e (s ++ t).
Proof.
  intros (a & Ha & ->)%valid_chars (b & Hb & ->)%valid_chars. rewrite <- concat_app.
  apply valid_concat. by apply Forall_app_2.
Qed.

(** Plain ASCII is valid in every encoding. *)
Lemma valid_ascii e s : Forall (fun c => 1 <= ord c <= 127) s -> valid e s.
Proof.
  intros H. apply valid_chars. exists (map (fun c => [c]) s). split.
  - apply List.Forall_map. eapply Forall_impl; [|exact H]. intros c Hc. cbn beta in Hc. unfold is_char. cbn [next_char length].
    rewrite highbit_ge by apply ord_range. destruct (Z.leb_spec 128 (ord c)); [lia|].
    destruct (Z.eqb_spec (ord c) 0); [lia|done].
  - clear H. induction s; cbn; congruence.
Qed.

(** In single-byte encodings anything without NUL is valid. *)
Lemma valid_single e s : pg_encoding_max_length e = 1%nat -> nonul s -> valid e s.
Proof.
  intros He H. apply valid_chars. exists (map (fun c => [c]) s). split.
  - apply List.Forall_map. eapply Forall_impl; [|exact H]. intros c Hc. cbn beta in Hc. unfold is_char. cbn [next_char length].
    destruct (Z.eqb_spec (ord c) 0); [done|].
    by destruct e; try discriminate He; destruct (negb _).
  - clear H. induction s; cbn; congruence.
Qed.

(** ** Counting *)

Lemma drop_char (ch u : bytes) : drop (length ch) (ch ++ u) = u.
Proof. apply drop_app_length. Qed.

Lemma mbstrlen_loop_chars e chs : Forall (is_char_of e) chs -> forall fuel len,
  (length (concat chs) <= fuel)%nat ->
  mbstrlen_loop fuel e (concat chs) (length (concat chs)) len = Ok (len + length chs)%nat.
Proof.
  induction 1 as [|ch chs Hch Hchs IH]; intros fuel len Hf; cbn [concat] in *.
  { cbn. rewrite Nat.add_0_r. by destruct fuel. }
  rewrite length_app in *. pose proof (char_length e ch Hch). destruct fuel as [|fuel]; [lia|].
  cbn [mbstrlen_loop]. rewrite (char_lead e) by done. unfold pg_mblen_with_len. rewrite char_mblen by done.
  destruct (Nat.ltb_spec 0 (length ch + length (concat chs))); [|lia]. cbn [negb andb].
  destruct (Nat.ltb_spec (length ch + length (concat chs)) (length ch)); [lia|]. cbn [mbind result_bind].
  rewrite drop_char, Nat.add_comm, Nat.add_sub, IH by lia. cbn [length]. f_equal. lia.
Qed.

Lemma single_chars e chs : pg_encoding_max_length e = 1%nat -> Forall (is_char_of e) chs ->
  length (concat chs) = length chs.
Proof.
  intros He. induction 1 as [|ch chs Hch _ IH]; [done|]. cbn [concat length].
  rewrite length_app, IH. pose proof (char_length e ch Hch). lia.
Qed.

Lemma mbstrlen_chars e chs : Forall (is_char_of e) chs ->
  pg_mbstrlen_with_len e (concat chs) (length (concat chs)) = Ok (length chs).
Proof.
  intros H. unfold pg_mbstrlen_with_len. fold (pg_encoding_max_length e).
  destruct (Nat.eqb_spec (pg_encoding_max_length e) 1) as [E|].
  - by rewrite (single_chars e).
  - by rewrite mbstrlen_loop_chars.
Qed.

Lemma next_char_verify_len e s mb n :
  verify_len_loop (S n) e s mb =
  match s with
  | [] => Ok mb
  | _ :: _ =>
      match next_char (encoding_char e) s with
      | None => report_invalid_encoding
      | Some l => verify_len_loop n e (drop l s) (S mb)
      end
  end.
Proof.
  destruct s as [|c s]; [done|]. cbn [verify_len_loop next_char].
  destruct (negb (highbit (ord c))); [by destruct (ord c =? 0)|].
  fold (pg_encoding_verifymbchar e (c :: s)). rewrite table_verifychar by done. by destruct (encoding_char e (c :: s)).
Qed.

Lemma verify_len_chars e chs : Forall (is_char_of e) chs -> forall fuel mb rest,
  (length (concat chs) + length rest <= fuel)%nat -> next_char (encoding_char e) rest = None ->
  verify_len_loop fuel e (concat chs ++ rest) mb =
  if (length rest =? 0)%nat then Ok (mb + length chs)%nat else report_invalid_encoding.
Proof.
  induction 1 as [|ch chs Hch Hchs IH]; intros fuel mb rest Hf Hr; cbn [concat] in *.
  { cbn [app length]. destruct fuel as [|fuel]; [destruct rest; [|cbn in Hf; lia]; cbn; by rewrite Nat.add_0_r|].
    rewrite next_char_verify_len, Hr. destruct rest; cbn; [by rewrite Nat.add_0_r|done]. }
  rewrite length_app in Hf. pose proof (char_length e ch Hch). destruct fuel as [|fuel]; [lia|].
  rewrite next_char_verify_len, <- app_assoc, is_char_app by done.
  destruct (ch ++ concat chs ++ rest) as [|c0 r0] eqn:E; [destruct ch; [cbn in *; lia|done]|].
  rewrite <- E, drop_char, IH by (lia || done). cbn [length]. case_match; [f_equal; lia|done].
Qed.

(** The two ways to count agree: [pg_verify_mbstr_len] accepts exactly the
    strings [pg_verify_mbstr] accepts, and on those it returns the number of
    characters that [pg_mbstrlen_with_len] counts by [mblen] alone, without ever
    raising an error. *)
Theorem verify_len_counts e s :
  pg_verify_mbstr_len e s =
  (_ ← pg_verify_mbstr e s; pg_mbstrlen_with_len e s (length s)).
Proof.
  rewrite pg_verify_mbstr_cases. destruct (verifystr_split (C := table_charset e) s) as (chs & rest & -> & Hchs & Hr & <-).
  rewrite length_app. destruct (Nat.eqb_spec (length (concat chs)) (length (concat chs) + length rest)) as [E|E].
  - destruct rest; [|cbn in E; lia]. cbn [mbind result_bind length]. rewrite app_nil_r, Nat.add_0_r, mbstrlen_chars by done.
    unfold pg_verify_mbstr_len. destruct (Nat.leb_spec (pg_encoding_max_length e) 1) as [He|He].
    + assert (pg_encoding_max_length e = 1%nat) as He1 by (destruct e; cbn in *; lia).
      pose proof (valid_nonul e _ (valid_concat e chs Hchs)) as Hn.
      assert (nul_prefix (concat chs) = length (concat chs)) as ->.
      { clear -Hn. induction Hn as [|c l Hc _ IH]; [done|]. cbn [nul_prefix length]. rewrite IH.
        by destruct (Z.eqb_spec (ord c) 0). }
      by rewrite Nat.eqb_refl, (single_chars e).
    + rewrite <- (app_nil_r (concat chs)) at 2. rewrite verify_len_chars; [done..|cbn; lia|done].
  - cbn [mbind result_bind]. unfold pg_verify_mbstr_len.
    destruct (Nat.leb_spec (pg_encoding_max_length e) 1) as [He|He].
    + assert (pg_encoding_max_length e = 1%nat) as He1 by (destruct e; cbn in *; lia).
      destruct (Nat.eqb_spec (nul_prefix (concat chs ++ rest)) (length (concat chs ++ rest))) as [En|]; [|done].
      exfalso. apply E.
      assert (valid e (concat chs ++ rest)) as Hv.
      { apply valid_single; [done|]. clear -En. revert En. generalize (concat chs ++ rest). intros l.
        induction l as [|c l IH]; [constructor|]. cbn [nul_prefix length]. destruct (Z.eqb_spec (ord c) 0); [done|].
        intros [= En]. constructor; [done|by apply IH]. }
      unfold valid in Hv. rewrite pg_verify_mbstr_cases, (verifystr_chars (C := table_charset e)), length_app in Hv by done.
      rewrite verifystr_rejected, Nat.add_0_r in Hv by done. by case_match; [apply Nat.eqb_eq|].
    + rewrite verify_len_chars by (rewrite ?length_app; lia || done).
      destruct (Nat.eqb_spec (length rest) 0); [lia|done].
Qed.

(** ** Clipping *)

(** [pre] is the longest sequence of leading characters within [limit] bytes. *)
Definition clipped (chs pre post : list bytes) (limit : nat) : Prop :=
  chs = pre ++ post /\ (length (concat pre) <= limit)%nat /\
  forall ch, head post = Some ch -> (limit < length (concat pre) + length ch)%nat.

Lemma mbcliplen_loop_chars e chs : Forall (is_char_of e) chs -> forall fuel limit clen,
  (length (concat chs) <= fuel)%nat -> (clen < limit)%nat ->
  exists pre post, clipped chs pre post (limit - clen) /\
    mbcliplen_loop fuel e (concat chs) (length (concat chs)) limit clen = (clen + length (concat pre))%nat.
Proof.
  induction 1 as [|ch chs Hch Hchs IH]; intros fuel limit clen Hf Hlim; cbn [concat] in *.
  { exists [], []. split; [by split_and!; [|cbn; lia|]|]. rewrite Nat.add_0_r. by destruct fuel. }
  rewrite length_app in *. pose proof (char_length e ch Hch). destruct fuel as [|fuel]; [lia|].
  cbn [mbcliplen_loop]. rewrite (char_lead e), char_mblen by done.
  destruct (Nat.ltb_spec 0 (length ch + length (concat chs))); [|lia]. cbn [negb andb].
  destruct (Nat.ltb_spec limit (clen + length ch)).
  { exists [], (ch :: chs). split; [|cbn; lia]. split_and!; [done|cbn; lia|]. intros ? [= <-]. cbn. lia. }
  destruct (Nat.eqb_spec (clen + length ch) limit) as [E|].
  { exists [ch], chs. cbn [concat]. rewrite app_nil_r. split; [|done]. split_and!; [done|cbn; rewrite app_nil_r; lia|].
    cbn. rewrite app_nil_r. intros ch' Hch'. destruct chs as [|? ?]; [done|]. injection Hch' as ->.
    inversion_clear Hchs. pose proof (char_length e ch' ltac:(done)). lia. }
  rewrite drop_char. replace (length ch + length (concat chs) - length ch)%nat with (length (concat chs)) by lia.
  destruct (IH fuel limit (clen + length ch)%nat) as (pre & post & (-> & Hfit & Hnext) & ->); [lia..|].
  exists (ch :: pre), post. cbn [concat]. rewrite length_app. split; [|lia]. split_and!; [done|..].
  - cbn. rewrite length_app. lia.
  - intros ch' Hch'. cbn [concat]. rewrite length_app. specialize (Hnext ch' Hch'). lia.
Qed.

Lemma cliplen_nonul s limit : nonul s -> cliplen s (length s) limit = Nat.min (length s) limit.
Proof.
  intros H. unfold cliplen. remember (Nat.min (length s) limit) as n eqn:E.
  assert (n <= length s)%nat as Hn by lia. clear E. revert n Hn.
  induction H as [|c s Hc _ IH]; intros [|n] Hn; cbn in *; try done; [lia|].
  destruct (Z.eqb_spec (ord c) 0); [done|]. by rewrite IH by lia.
Qed.

(** Cutting single-byte characters. *)
Lemma clipped_single e chs limit : pg_encoding_max_length e = 1%nat -> Forall (is_char_of e) chs ->
  clipped chs (take limit chs) (drop limit chs) limit /\
  length (concat (take limit chs)) = Nat.min (length (concat chs)) limit.
Proof.
  intros He H.
  assert (Forall (is_char_of e) (take limit chs)) as Ht by by apply Forall_take.
  rewrite !(single_chars e), length_take by done. split; [|lia]. split_and!.
  - by rewrite take_drop.
  - rewrite (single_chars e), length_take by done. lia.
  - intros ch Hch. rewrite (single_chars e), length_take by done.
    assert (In ch chs) as Hin.
    { rewrite <- (take_drop limit chs). apply in_or_app. right. destruct (drop limit chs); [done|].
      injection Hch as ->. by left. }
    rewrite List.Forall_forall in H. pose proof (char_length e ch (H ch Hin)).
    assert (limit < length chs)%nat; [|lia].
    destruct (Nat.ltb_spec limit (length chs)); [done|]. by rewrite drop_ge in Hch.
Qed.

(** The longest sequence of whole characters within a byte limit. *)
Lemma mbcliplen_longest e chs limit : Forall (is_char_of e) chs ->
  exists pre post, clipped chs pre post limit /\
    pg_encoding_mbcliplen e (concat chs) (length (concat chs)) limit = length (concat pre).
Proof.
  intros H. unfold pg_encoding_mbcliplen.
  destruct (Nat.eqb_spec (pg_encoding_max_length e) 1) as [He|He].
  - destruct (clipped_single e chs limit He H) as [Hc Hl]. exists (take limit chs), (drop limit chs).
    split; [done|]. rewrite cliplen_nonul, Hl; [done|]. by apply (valid_nonul e), valid_concat.
  - destruct limit as [|limit].
    + exists [], chs. split; [|]. 
      * split_and!; [done|cbn; lia|]. intros ch Hch. cbn. destruct chs; [done|]. injection Hch as ->.
        inversion_clear H. pose proof (char_length e ch ltac:(done)). lia.
      * destruct H as [|ch chs Hch _]; [done|]. pose proof (char_length e ch Hch). cbn [concat].
        destruct (length (ch ++ concat chs)) eqn:E; [done|]. cbn [mbcliplen_loop].
        rewrite (char_lead e), char_mblen by done. cbn [Nat.ltb negb andb].
        destruct (Nat.ltb_spec 0 (0 + length ch)); [|lia]. by case_match.
    + destruct (mbcliplen_loop_chars e chs H (length (concat chs)) (S limit) 0) as (pre & post & Hc & E); [lia..|].
      exists pre, post. by rewrite Nat.sub_0_r in Hc.
Qed.

Lemma mbcharcliplen_loop_chars e chs : Forall (is_char_of e) chs -> forall fuel limit clen nch,
  (length (concat chs) <= fuel)%nat ->
  mbcharcliplen_loop fuel e (concat chs) (length (concat chs)) limit clen nch =
  Ok (clen + length (concat (take (limit - nch) chs)))%nat.
Proof.
  induction 1 as [|ch chs Hch Hchs IH]; intros fuel limit clen nch Hf; cbn [concat] in *.
  { rewrite take_nil. cbn. rewrite Nat.add_0_r. by destruct fuel. }
  rewrite length_app in *. pose proof (char_length e ch Hch). destruct fuel as [|fuel]; [lia|].
  cbn [mbcharcliplen_loop]. rewrite (char_lead e) by done. unfold pg_mblen_with_len. rewrite char_mblen by done.
  destruct (Nat.ltb_spec 0 (length ch + length (concat chs))); [|lia]. cbn [negb andb].
  destruct (Nat.ltb_spec (length ch + length (concat chs)) (length ch)); [lia|]. cbn [mbind result_bind].
  destruct (Nat.ltb_spec limit (S nch)).
  { replace (limit - nch)%nat with O by lia. cbn. by rewrite Nat.add_0_r. }
  rewrite drop_char. replace (length ch + length (concat chs) - length ch)%nat with (length (concat chs)) by lia.
  rewrite IH by lia. replace (limit - nch)%nat with (S (limit - S nch)) by lia. cbn [firstn take concat].
  rewrite length_app. f_equal. lia.
Qed.

(** The first characters. *)
Lemma mbcharcliplen_takes e chs limit : Forall (is_char_of e) chs ->
  pg_mbcharcliplen e (concat chs) (length (concat chs)) limit = Ok (length (concat (take limit chs))).
Proof.
  intros H. unfold pg_mbcharcliplen. fold (pg_encoding_max_length e).
  destruct (Nat.eqb_spec (pg_encoding_max_length e) 1) as [He|He].
  - destruct (clipped_single e chs limit He H) as [_ ->].
    by rewrite cliplen_nonul by by apply (valid_nonul e), valid_concat.
  - rewrite mbcharcliplen_loop_chars by done. by rewrite Nat.sub_0_r.
Qed.

(** Clipping never splits a character: on a valid string,
    [pg_encoding_mbcliplen] returns the length of the longest sequence of whole
    leading characters that fits in [limit] bytes, and [pg_mbcharcliplen] that of
    exactly the first [limit] characters, without an error. *)
Theorem clip_whole_characters e chs limit : Forall (is_char_of e) chs ->
  (exists pre post, clipped chs pre post limit /\
    pg_encoding_mbcliplen e (concat chs) (length (concat chs)) limit = length (concat pre)) /\
  pg_mbcharcliplen e (concat chs) (length (concat chs)) limit = Ok (length (concat (take limit chs))).
Proof. intros H. split; [by apply mbcliplen_longest|by apply mbcharcliplen_takes]. Qed.

(** A four-byte character of GB18030 and a letter. *)
Lemma clip_whole_characters_witness :
  Forall (is_char_of PG_GB18030) [map chr [129; 48; 129; 48]; lit "a"] /\
  (exists pre post, clipped [map chr [129; 48; 129; 48]; lit "a"] pre post 3 /\
    pg_encoding_mbcliplen PG_GB18030 (concat [map chr [129; 48; 129; 48]; lit "a"]) 5 3 = length (concat pre)) /\
  pg_mbcharcliplen PG_GB18030 (concat [map chr [129; 48; 129; 48]; lit "a"]) 5 3 = Ok 5%nat.
Proof.
  assert (Forall (is_char_of PG_GB18030) [map chr [129; 48; 129; 48]; lit "a"]) as H
    by (repeat constructor; vm_compute; reflexivity).
  split; [exact H|]. exact (clip_whole_characters PG_GB18030 [map chr [129; 48; 129; 48]; lit "a"] 3 H).
Defined.

(** ** Conversion to the server encoding *)

(** What the server relies on: a conversion's result is valid in its target
    encoding, and [SetClientEncoding] has cached the default conversions when one
    is needed. *)
Class ConversionProcs (m : mb_session) : Prop := {
  conv_valid a b proc s r : FindDefaultConversionProc m a b = Some proc -> proc s = Ok r -> valid b r;
  conv_cached : ClientEncoding m <> DatabaseEncoding m -> ClientEncoding m <> PG_SQL_ASCII ->
    DatabaseEncoding m <> PG_SQL_ASCII ->
    exists to_server to_client,
      ToServerConvProc m = Some to_server /\ ToClientConvProc m = Some to_client /\
      FindDefaultConversionProc m (ClientEncoding m) (DatabaseEncoding m) = Some to_server /\
      FindDefaultConversionProc m (DatabaseEncoding m) (ClientEncoding m) = Some to_client
}.

Lemma valid_nil e : valid e [].
Proof. apply (valid_concat e []). constructor. Qed.

Lemma check_result_size_Ok s r r' : check_result_size s r = Ok r' -> r' = r.
Proof. unfold check_result_size. case_match; [done|]. by intros [= ->]. Qed.

Lemma pg_verify_mbstr_true e s b : pg_verify_mbstr e s = Ok b -> valid e s.
Proof. unfold valid. rewrite pg_verify_mbstr_cases. by case_match. Qed.

Lemma ascii_only_nonul s : ascii_only s = true -> nonul s.
Proof.
  unfold ascii_only. rewrite forallb_forall. intros H. apply List.Forall_forall. intros c Hc.
  specialize (H c Hc). apply negb_true_iff, orb_false_iff in H as [H _]. by apply Z.eqb_neq.
Qed.

Lemma any_to_server_valid m `{!ConversionProcs m} s e r :
  pg_any_to_server m s e = Ok r -> valid (DatabaseEncoding m) r.
Proof.
  unfold pg_any_to_server. destruct (Nat.eqb_spec (length s) 0) as [E|].
  { intros [= <-]. destruct s; [apply valid_nil|done]. }
  case_bool_decide as H1; cbn [orb]; [intros H; inv_bind; by eapply pg_verify_mbstr_true|].
  case_bool_decide as H2; cbn [orb]; [intros H; inv_bind; by eapply pg_verify_mbstr_true|].
  case_bool_decide as H3.
  { rewrite H3. intros H. apply valid_single; [done|]. case_match.
    - inv_bind. by eapply (valid_nonul e), pg_verify_mbstr_true.
    - destruct (ascii_only s) eqn:Ha; [|done]. injection H as <-. by apply ascii_only_nonul. }
  case_bool_decide as H4.
  - unfold perform_default_encoding_conversion. subst e.
    destruct conv_cached as (p & q & -> & _ & Hp & _); [done..|]. intros H. inv_bind.
    apply check_result_size_Ok in H as ->. by eapply conv_valid.
  - unfold pg_do_encoding_conversion. destruct (Nat.eqb_spec (length s) 0); [done|].
    rewrite !bool_decide_eq_false_2 by done.
    destruct (FindDefaultConversionProc m e (DatabaseEncoding m)) eqn:Hp; [|done]. intros H. inv_bind.
    apply check_result_size_Ok in H as ->. by eapply conv_valid.
Qed.

(** Whatever bytes come from outside and whatever encoding they claim to be
    in, what [pg_any_to_server] returns is valid in the database encoding. *)
Theorem pg_any_to_server_validates m s e r : ConversionProcs m ->
  pg_any_to_server m s e = Ok r -> pg_verify_mbstr (DatabaseEncoding m) r = Ok true.
Proof. intros Hm. apply any_to_server_valid. done. Qed.

(** *** LATIN1 *)

(** The encoding of a LATIN1 string: its bytes are its code points. *)
Definition latin1_utf8 (s : bytes) : bytes := concat (map (fun c => unicode_to_utf8 (ord c)) s).

Lemma latin1_high_bytes c : 128 <= c < 256 ->
  unicode_to_utf8 c = [chr (Z.lor (Z.shiftr c 6) 192); chr (Z.lor (Z.land c 63) 128)].
Proof.
  intros Hc. unfold unicode_to_utf8. destruct (Z.leb_spec c 127); [lia|]. destruct (Z.leb_spec c 2047); [|lia].
  rewrite (Z.lor_comm _ 192), (Z.lor_comm _ 128). repeat f_equal.
  rewrite Z.shiftr_div_pow2, land_31 by lia. change (2 ^ 6) with 64. lia.
Qed.

Lemma iso8859_1_to_utf8_nonul s : nonul s -> iso8859_1_to_utf8 s = Ok (latin1_utf8 s).
Proof.
  induction 1 as [|c s Hc _ IH]; [done|]. cbn [iso8859_1_to_utf8]. destruct (Z.eqb_spec (ord c) 0); [done|].
  rewrite IH. cbn [mbind result_bind]. unfold latin1_utf8 at 2. cbn [map concat]. fold (latin1_utf8 s).
  pose proof (ord_range c). rewrite highbit_ge by done. destruct (Z.leb_spec 128 (ord c)); cbn [negb].
  - by rewrite latin1_high_bytes by lia.
  - unfold unicode_to_utf8. destruct (Z.leb_spec (ord c) 127); [done|lia].
Qed.

Lemma latin1_char c : ord c <> 0 -> is_char_of PG_UTF8 (unicode_to_utf8 (ord c)).
Proof.
  intros H0. pose proof (ord_range c). assert (legal_char (unicode_to_utf8 (ord c))) as Hl.
  { apply legal_char_encode; [unfold scalar; lia|done]. }
  unfold is_char. unfold legal_char in Hl. rewrite <- Hl.
  by destruct (unicode_to_utf8 (ord c)).
Qed.

Lemma latin1_utf8_valid s : nonul s -> valid PG_UTF8 (latin1_utf8 s).
Proof.
  intros H. apply valid_concat, List.Forall_map. eapply Forall_impl; [|exact H]. apply latin1_char.
Qed.

Lemma latin1_utf8_length s : nonul s -> (length s <= length (latin1_utf8 s))%nat.
Proof.
  unfold latin1_utf8. induction 1 as [|c s Hc _ IH]; [done|]. cbn [map concat length]. rewrite length_app.
  pose proof (char_length PG_UTF8 _ (latin1_char c Hc)). lia.
Qed.

Lemma legal_checked src l :
  (if (length src <? l)%nat then Some false else pg_utf8_islegal src l) = Some (negb (length src <? l)%nat && islegal src l).
Proof. destruct (Nat.ltb_spec (length src) l); [done|]. by rewrite islegal_checked. Qed.

Lemma utf8_to_iso_latin1 s : nonul s -> forall fuel, (length (latin1_utf8 s) <= fuel)%nat ->
  utf8_to_iso8859_1_loop fuel (latin1_utf8 s) = Ok s.
Proof.
  induction 1 as [|c s Hc Hs IH]; intros fuel Hf; [by destruct fuel|].
  unfold latin1_utf8 in *. cbn [map concat] in *. rewrite length_app in Hf.
  pose proof (char_length PG_UTF8 _ (latin1_char c Hc)) as Hlen. pose proof (ord_range c) as Hr.
  pose proof (latin1_char c Hc) as Hchar. unfold is_char in Hchar.
  destruct fuel as [|fuel]; [lia|].
  destruct (Z.ltb_spec (ord c) 128) as [Hlow|Hhigh].
  - assert (unicode_to_utf8 (ord c) = [c]) as E.
    { unfold unicode_to_utf8. destruct (Z.leb_spec (ord c) 127); [by rewrite chr_ord|lia]. }
    rewrite E in *. cbn [app utf8_to_iso8859_1_loop length] in *. destruct (Z.eqb_spec (ord c) 0); [done|].
    rewrite highbit_ge by done. destruct (Z.leb_spec 128 (ord c)); [lia|]. cbn [negb].
    rewrite IH by lia. cbn [mbind result_bind]. by rewrite chr_ord.
  - assert (unicode_to_utf8 (ord c) = map chr [192 + ord c / 64; 128 + ord c mod 64]) as E.
    { rewrite unicode_to_utf8_arith by lia. by split_ranges. }
    rewrite E in *. cbn [map app length] in *.
    assert (ord (chr (192 + ord c / 64)) = 192 + ord c / 64) as E1 by (rewrite ord_chr; lia).
    assert (ord (chr (128 + ord c mod 64)) = 128 + ord c mod 64) as E2 by (rewrite ord_chr; lia).
    set (a := chr (192 + ord c / 64)) in *. set (b := chr (128 + ord c mod 64)) in *.
    set (u := concat _) in *. cbn [utf8_to_iso8859_1_loop]. rewrite E1.
    destruct (Z.eqb_spec (192 + ord c / 64) 0); [lia|]. rewrite highbit_ge by lia.
    destruct (Z.leb_spec 128 (192 + ord c / 64)); [|lia]. cbn [negb].
    rewrite pg_utf_mblen_ranges by lia. assert (lead_len (192 + ord c / 64) = 2%nat) as -> by (unfold lead_len; split_ranges).
    change (byte_at (a :: b :: u) 1) with (ord b). rewrite E2, legal_checked.
    assert (islegal (a :: b :: u) 2 = true) as ->.
    { change (a :: b :: u) with ([a; b] ++ u). rewrite islegal_app, islegal_2, E1, E2, lead_legal_ok by (cbn; lia).
      rewrite andb_true_r. apply second_legal_true; lia. }
    cbn [length Nat.ltb Nat.leb negb andb Nat.eqb]. rewrite land_31, land_63, lor_shiftl by lia.
    change (2 ^ 6) with 64.
    replace ((192 + ord c / 64) mod 32 * 64 + (128 + ord c mod 64) mod 64) with (ord c) by lia.
    destruct (Z.leb_spec 128 (ord c)); [|lia]. destruct (Z.leb_spec (ord c) 255); [|lia]. cbn [andb drop skipn].
    rewrite IH by lia. cbn [mbind result_bind]. by rewrite chr_ord.
Qed.

Lemma iso8859_1_to_utf8_Ok s u : iso8859_1_to_utf8 s = Ok u -> nonul s /\ u = latin1_utf8 s.
Proof.
  intros H. assert (nonul s) as Hs.
  { revert u H. induction s as [|c s IH]; intros u; [constructor|]. cbn [iso8859_1_to_utf8].
    destruct (Z.eqb_spec (ord c) 0); [done|]. intros H. inv_bind. constructor; [done|by eapply IH]. }
  split; [done|]. rewrite iso8859_1_to_utf8_nonul in H by done. by injection H.
Qed.

(** A two-byte character below U+0100 is the encoding of its code point. *)
Lemma two_byte_decode a b : 194 <= ord a <= 223 -> 128 <= ord b <= 191 ->
  let c := Z.lor (Z.shiftl (Z.land (ord a) 31) 6) (Z.land (ord b) 63) in
  c <= 255 -> ord (chr c) = c /\ unicode_to_utf8 (ord (chr c)) = [a; b].
Proof.
  intros Ha Hb. cbv zeta. rewrite land_31, land_63, lor_shiftl by lia. change (2 ^ 6) with 64. intros Hc.
  rewrite ord_chr. rewrite Z.mod_small by lia. split; [done|]. symmetry. apply encode_bytes; [lia|].
  cbn [map]. split_ranges; repeat f_equal; lia.
Qed.

Lemma utf8_to_iso_inv fuel : forall u s, (length u <= fuel)%nat ->
  utf8_to_iso8859_1_loop fuel u = Ok s -> nonul s /\ u = latin1_utf8 s.
Proof.
  induction fuel as [|fuel IH]; intros u s Hf.
  { destruct u; [|cbn in Hf; lia]. intros [= <-]. split; [constructor|done]. }
  destruct u as [|a u]; [intros [= <-]; split; [constructor|done]|]. cbn [utf8_to_iso8859_1_loop].
  pose proof (ord_range a) as Ha. destruct (Z.eqb_spec (ord a) 0); [done|].
  rewrite highbit_ge by done. destruct (Z.leb_spec 128 (ord a)); cbn [negb].
  - rewrite pg_utf_mblen_ranges, legal_checked by done. destruct (negb _ && _) eqn:Eb; [|done].
    apply andb_true_iff in Eb as [El Eg].
    destruct (Nat.eqb_spec (lead_len (ord a)) 2) as [L|]; [|done]. rewrite L in *. cbn [negb].
    destruct u as [|b u]; [done|].
    change (a :: b :: u) with ([a; b] ++ u) in Eg. rewrite islegal_app, islegal_2 in Eg by (cbn; lia).
    apply andb_true_iff in Eg as [Hs%second_legal_cont Hlead]. unfold lead_legal in Hlead.
    change (byte_at (a :: b :: u) 1) with (ord b). change (drop 2 (a :: b :: u)) with u.
    assert (194 <= ord a <= 223) as Ha2 by (revert L; unfold lead_len; split_ranges).
    destruct (Z.leb_spec (Z.lor (Z.shiftl (Z.land (ord a) 31) 6) (Z.land (ord b) 63)) 255) as [Hc|];
      [|by rewrite andb_false_r].
    destruct (two_byte_decode a b Ha2 Hs Hc) as [Eo Eu]. set (c := Z.lor _ _) in *.
    destruct (Z.leb_spec 128 c); [|done]. cbn [andb]. intros H'. inv_bind.
    apply IH in Ha0 as [Hn ->]; [|cbn in *; lia]. split; [constructor; [lia|done]|].
    unfold latin1_utf8. cbn [map concat]. by rewrite Eu.
  - intros H'. inv_bind. apply IH in Ha0 as [Hn ->]; [|cbn in *; lia]. rewrite chr_ord.
    split; [by constructor|]. unfold latin1_utf8. cbn [map concat].
    unfold unicode_to_utf8 at 2. destruct (Z.leb_spec (ord a) 127); [by rewrite chr_ord|lia].
Qed.

(** The LATIN1 conversions are inverse to each other: [utf8_to_iso8859_1]
    turns [u] into [s] exactly when [iso8859_1_to_utf8] turns [s] into [u]; it
    fails on every other string. *)
Theorem latin1_conversions_inverse s u :
  utf8_to_iso8859_1 u = Ok s <-> iso8859_1_to_utf8 s = Ok u.
Proof.
  unfold utf8_to_iso8859_1. split.
  - intros (Hs & ->)%utf8_to_iso_inv; [|done]. by apply iso8859_1_to_utf8_nonul.
  - intros (Hs & ->)%iso8859_1_to_utf8_Ok. by apply utf8_to_iso_latin1.
Qed.

(** A UTF-8 database with these two conversions. *)
Definition latin1_session : mb_session :=
  mk_mb_session PG_UTF8 PG_UTF8
    (fun a b => if bool_decide (a = PG_LATIN1 /\ b = PG_UTF8) then Some iso8859_1_to_utf8
                else if bool_decide (a = PG_UTF8 /\ b = PG_LATIN1) then Some utf8_to_iso8859_1 else None)
    None None.

#[export] Instance latin1_session_procs : ConversionProcs latin1_session.
Proof.
  split; [|done]. intros a b proc s r. cbn. case_bool_decide as H; [|case_bool_decide as H2; [|done]].
  - intros [= <-] (Hs & ->)%iso8859_1_to_utf8_Ok. destruct H as [_ ->]. by apply latin1_utf8_valid.
  - intros [= <-]. unfold utf8_to_iso8859_1. intros (Hs & _)%utf8_to_iso_inv; [|done]. destruct H2 as [_ ->].
    by apply valid_single.
Qed.

Lemma pg_any_to_server_validates_witness :
  ConversionProcs latin1_session /\
  pg_any_to_server latin1_session [chr 233] PG_LATIN1 = Ok (map chr [195; 169]) /\
  pg_verify_mbstr PG_UTF8 (map chr [195; 169]) = Ok true.
Proof.
  split; [apply _|]. split; [reflexivity|].
  exact (pg_any_to_server_validates latin1_session [chr 233] PG_LATIN1 (map chr [195; 169]) latin1_session_procs eq_refl).
Defined.
