(* ===== verification/UtlUrl.v ===== *)
(** * The UTL_URL package

    contrib/ivorysql_ora/src/builtin_packages/utl_url/utl_url.c:
    [UTL_URL.ESCAPE] and [UTL_URL.UNESCAPE] over the character sets of
    [Encoding] and the conversions of [MbUtils].  The text under construction, a
    StringInfo, may grow without the limit of 1 GB that the server sets it. *)

From S2P Require Import Prelude Utf8 Encoding MbUtils.

(** ** Definitions *)

(** [strchr(chars, c) != NULL] for [c] other than NUL. *)
Definition strchr (chars : string) (c : Z) : bool := existsb (fun x => ord x =? c) (lit chars).

Definition UTL_URL_UNRESERVED_CHARS : string := "-_.!~*'()".
Definition UTL_URL_RESERVED_CHARS : string := ";/?:@&=+$,".

Definition utl_url_is_unreserved (c : Z) : bool :=
  if in_range c 65 90 || in_range c 97 122 || in_range c 48 57 then true
  else negb (c =? 0) && strchr UTL_URL_UNRESERVED_CHARS c.

Definition utl_url_is_reserved (c : Z) : bool := negb (c =? 0) && strchr UTL_URL_RESERVED_CHARS c.

Definition utl_url_hexval (c : Z) : Z :=
  if in_range c 48 57 then c - 48
  else if in_range c 65 70 then c - 65 + 10
  else if in_range c 97 102 then c - 97 + 10
  else -1.

Definition utl_url_charset_to_encoding (charset : bytes) : result pg_enc :=
  match pg_char_to_encoding charset with
  | Some e => Ok e
  | None => ereport ERRCODE_INVALID_PARAMETER_VALUE "UTL_URL: unrecognized URL character set"
  end.

(** The digits of printf's [%02X]. *)
Definition hex_digit (d : Z) : ascii := if d <? 10 then chr (48 + d) else chr (65 + (d - 10)).
Definition hex2 (c : Z) : bytes := [hex_digit (c / 16); hex_digit (c mod 16)].

Definition percent : ascii := "%"%char.

(** The body of the loop of ESCAPE. *)
Definition escape_byte (escape_reserved : bool) (ch : ascii) : bytes :=
  let c := ord ch in
  if utl_url_is_unreserved c || (negb escape_reserved && utl_url_is_reserved c) then [ch]
  else percent :: hex2 c.

Definition escape_bytes (escape_reserved : bool) (s : bytes) : bytes :=
  concat (map (escape_byte escape_reserved) s).

(** A buffer read as a C string. *)
Definition c_string (s : bytes) : bytes := take (nul_prefix s) s.

Definition encoding_arg (m : mb_session) (charset : option bytes) : result pg_enc :=
  match charset with
  | None => Ok (DatabaseEncoding m)
  | Some name => utl_url_charset_to_encoding name
  end.

(** NULL arguments are [None]. *)
Definition ivorysql_utl_url_escape (m : mb_session) (url : option bytes) (escape_reserved_chars : option bool)
    (url_charset : option bytes) : result (option bytes) :=
  match url with
  | None => Ok None
  | Some src =>
      let escape_reserved := match escape_reserved_chars with None => false | Some b => b end in
      target_encoding ← encoding_arg m url_charset;
      converted ← pg_server_to_any m src target_encoding;
      Ok (Some (escape_bytes escape_reserved (c_string converted)))
  end.

(** Flush of the accumulated bytes. *)
Definition flush (m : mb_session) (source_encoding : pg_enc) (pending out : bytes) : result bytes :=
  if (0 <? length pending)%nat then
    converted ← pg_any_to_server m pending source_encoding; Ok (out ++ c_string converted)
  else Ok out.

Fixpoint unescape_loop (m : mb_session) (source_encoding : pg_enc) (src pending out : bytes) : result bytes :=
  match src with
  | [] => flush m source_encoding pending out
  | c :: rest =>
      if ord c =? ord percent then
        match rest with
        | h :: l :: rest' =>
            let hi := utl_url_hexval (ord h) in
            let lo := utl_url_hexval (ord l) in
            if (hi <? 0) || (lo <? 0) then
              ereport ERRCODE_INVALID_PARAMETER_VALUE "UTL_URL.UNESCAPE: badly formed escape code sequence in URL"
            else if (hi =? 0) && (lo =? 0) then
              ereport ERRCODE_INVALID_PARAMETER_VALUE "UTL_URL.UNESCAPE: escaped NUL character is not supported"
            else unescape_loop m source_encoding rest' (pending ++ [chr (Z.lor (Z.shiftl hi 4) lo)]) out
        | _ =>
            ereport ERRCODE_INVALID_PARAMETER_VALUE "UTL_URL.UNESCAPE: truncated escape code sequence in URL"
        end
      else
        out ← flush m source_encoding pending out;
        unescape_loop m source_encoding rest [] (out ++ [c])
  end.

Definition ivorysql_utl_url_unescape (m : mb_session) (url : option bytes) (url_charset : option bytes)
    : result (option bytes) :=
  match url with
  | None => Ok None
  | Some src =>
      source_encoding ← encoding_arg m url_charset;
      out ← unescape_loop m source_encoding src [] [];
      Ok (Some out)
  end.

(** ** Bytes *)

Lemma c_string_nonul s : nonul s -> c_string s = s.
Proof.
  unfold c_string. induction 1 as [|c s Hc _ IH]; [done|]. cbn [nul_prefix].
  destruct (Z.eqb_spec (ord c) 0); [done|]. cbn [take firstn]. by rewrite IH.
Qed.

Lemma unreserved_range c : 0 <= c < 256 -> utl_url_is_unreserved c = true -> 33 <= c <= 126 /\ c <> 37.
Proof.
  intros Hc H. cut (negb (utl_url_is_unreserved c) || (in_range c 33 126 && negb (c =? 37)) = true).
  { rewrite H. cbn [negb orb]. destruct (in_range_spec c 33 126); [lia|done]. }
  clear H. revert c Hc. apply byte_cases. vm_compute. reflexivity.
Qed.

Lemma reserved_range c : 0 <= c < 256 -> utl_url_is_reserved c = true -> 33 <= c <= 126 /\ c <> 37.
Proof.
  intros Hc H. cut (negb (utl_url_is_reserved c) || (in_range c 33 126 && negb (c =? 37)) = true).
  { rewrite H. cbn [negb orb]. destruct (in_range_spec c 33 126); [lia|done]. }
  clear H. revert c Hc. apply byte_cases. vm_compute. reflexivity.
Qed.

(** The escape of a byte decodes to the byte. *)
Lemma hex2_decode c : 0 <= c < 256 ->
  exists h l, hex2 c = [h; l] /\ 0 <= utl_url_hexval (ord h) /\ 0 <= utl_url_hexval (ord l) /\
    Z.lor (Z.shiftl (utl_url_hexval (ord h)) 4) (utl_url_hexval (ord l)) = c /\
    in_range (ord h) 48 90 && in_range (ord l) 48 90 = true.
Proof.
  intros Hc. exists (hex_digit (c / 16)), (hex_digit (c mod 16)). split; [done|].
  set (h := utl_url_hexval _). set (l := utl_url_hexval (ord (hex_digit (c mod 16)))).
  cut ((0 <=? h) && (0 <=? l) && (Z.lor (Z.shiftl h 4) l =? c) &&
       (in_range (ord (hex_digit (c / 16))) 48 90 && in_range (ord (hex_digit (c mod 16))) 48 90) = true).
  { intros H. apply andb_true_iff in H as [H ?]. split_and!; [lia..|done]. }
  subst h l. revert c Hc. apply byte_cases. vm_compute. reflexivity.
Qed.

(** ** Bytes of multibyte characters *)

(** Every byte of an accepted multibyte character is at least [lo]. *)
Definition bytes_from (lo : Z) (vc : bytes -> option nat) : Prop :=
  forall s l i, vc s = Some l -> highbit (byte_at s 0) = true -> (i < l)%nat -> lo <= byte_at s i.

Lemma single_bytes : bytes_from 128 (fun _ => Some 1%nat).
Proof. intros s l i H Hb Hi. checked. small_index i. Qed.

Lemma eucjp_bytes : bytes_from 128 eucjp_char.
Proof. intros s l i H Hb Hi. unfold eucjp_char in H. checked; small_index i. Qed.

Lemma euckr_bytes : bytes_from 128 euckr_char.
Proof. intros s l i H Hb Hi. unfold euckr_char in H. checked; small_index i. Qed.

Lemma euctw_bytes : bytes_from 128 euctw_char.
Proof. intros s l i H Hb Hi. unfold euctw_char in H. checked; small_index i. Qed.

Lemma gb18030_bytes : bytes_from 48 gb18030_char.
Proof. intros s l i H Hb Hi. unfold gb18030_char in H. cbv zeta in H. checked; small_index i. Qed.

Lemma utf8_bytes : bytes_from 128 accepted_char.
Proof.
  intros s l i H Hb Hi. rewrite verifychar_verify_step in H by done.
  pose proof (verify_step_pos _ _ H). pose proof (verify_step_take _ _ H) as Hl.
  apply highbit_true in Hb as [Hb _]. rewrite <- (byte_at_take s l []), app_nil_r in Hb |- * by lia.
  assert (i < length (take l s))%nat as Hi' by (rewrite length_take; lia). clear H Hi. revert Hl Hb Hi'.
  generalize (take l s) as ch. intros ch Hl Hb Hi.
  destruct (legal_char_inv ch Hl) as [(a & -> & Ha)|[(a & b & -> & Ha & Hc)|[(a & b & c & -> & Ha & Hc%second_legal_cont & Hd)|
    (a & b & c & d & -> & Ha & Hc%second_legal_cont & Hd & He)]]]; small_index i; unfold byte_at in *; cbn in *; lia.
Qed.

(** In the database encodings all bytes of a multibyte character have the high
    bit set, except in GB18030, where none is below ['0']. *)
Lemma table_bytes e : PG_VALID_BE_ENCODING e = true ->
  bytes_from (if bool_decide (e = PG_GB18030) then 48 else 128) (encoding_char e).
Proof.
  intros He. destruct e; try discriminate He;
    solve [apply single_bytes|apply eucjp_bytes|apply euckr_bytes|apply euctw_bytes|apply gb18030_bytes|apply utf8_bytes].
Qed.

Lemma char_bytes e ch : PG_VALID_BE_ENCODING e = true -> is_char_of e ch ->
  (exists c, ch = [c] /\ 1 <= ord c <= 127) \/
  Forall (fun c => (if bool_decide (e = PG_GB18030) then 48 else 128) <= ord c) ch.
Proof.
  intros He Hch. pose proof (char_length e ch Hch) as Hlen. unfold is_char in Hch.
  destruct ch as [|c ch]; [cbn in Hlen; lia|]. cbn [next_char] in Hch.
  destruct (highbit (ord c)) eqn:Hh; cbn [negb] in Hch.
  - right. apply List.Forall_forall. intros x Hx. destruct (In_nth _ _ "000"%char Hx) as (i & Hi & <-).
    by apply (table_bytes e He (c :: ch) _ i Hch).
  - left. destruct (Z.eqb_spec (ord c) 0); [done|]. injection Hch as Hl. destruct ch; [|done]. exists c.
    split; [done|]. rewrite highbit_ge in Hh by apply ord_range. pose proof (ord_range c). lia.
Qed.

(** ** ESCAPE *)

(** The shape of ESCAPE's output for one byte. *)
Lemma escape_byte_cases er c :
  (escape_byte er c = [c] /\ 33 <= ord c <= 126 /\ ord c <> 37) \/
  (escape_byte er c = percent :: hex2 (ord c) /\ utl_url_is_unreserved (ord c) = false).
Proof.
  unfold escape_byte. pose proof (ord_range c) as Hc.
  destruct (utl_url_is_unreserved (ord c)) eqn:E; cbn [orb].
  - left. destruct (unreserved_range _ Hc E). split_and!; done || lia.
  - destruct er; cbn [negb andb]; [by right|]. destruct (utl_url_is_reserved (ord c)) eqn:E2; [|by right].
    left. destruct (reserved_range _ Hc E2). split_and!; done || lia.
Qed.

Lemma high_escaped er c : 128 <= ord c -> escape_byte er c = percent :: hex2 (ord c).
Proof. intros H. destruct (escape_byte_cases er c) as [(_ & ? & _)|[? _]]; [lia|done]. Qed.

Definition printable (c : ascii) : Prop := 33 <= ord c <= 126.

Lemma escape_bytes_printable er s : Forall printable (escape_bytes er s).
Proof.
  unfold escape_bytes. induction s as [|c s IH]; [constructor|]. cbn [map concat]. apply Forall_app_2; [|done].
  destruct (escape_byte_cases er c) as [(-> & ? & _)|[-> _]]; [constructor; [done|constructor]|].
  destruct (hex2_decode (ord c) (ord_range c)) as (h & l & -> & _ & _ & _ & H).
  apply andb_true_iff in H as [H1%in_range_elim H2%in_range_elim].
  unfold printable. repeat constructor; try lia; vm_compute; discriminate.
Qed.

(** ** UNESCAPE after ESCAPE *)

Lemma percent_37 : ord percent = 37.
Proof. reflexivity. Qed.

(** An escaped byte joins the pending ones. *)
Lemma unescape_escaped m e c rest pending out : ord c <> 0 ->
  unescape_loop m e ((percent :: hex2 (ord c)) ++ rest) pending out = unescape_loop m e rest (pending ++ [c]) out.
Proof.
  intros H0. destruct (hex2_decode (ord c) (ord_range c)) as (h & l & -> & Hh & Hl & E & _).
  cbn [app unescape_loop]. rewrite Z.eqb_refl. set (hi := utl_url_hexval (ord h)) in *.
  set (lo := utl_url_hexval (ord l)) in *.
  destruct (Z.ltb_spec hi 0); [lia|]. destruct (Z.ltb_spec lo 0); [lia|]. cbn [orb].
  destruct (Z.eqb_spec hi 0) as [E1|]; [|by rewrite E, chr_ord].
  destruct (Z.eqb_spec lo 0) as [E2|]; [|by rewrite E, chr_ord]. rewrite E1, E2 in E. by rewrite <- E in H0.
Qed.

(** A literal byte flushes them. *)
Lemma unescape_literal m e c rest pending out : ord c <> 37 ->
  unescape_loop m e (c :: rest) pending out =
  (out' ← flush m e pending out; unescape_loop m e rest [] (out' ++ [c])).
Proof. intros H. cbn [unescape_loop]. rewrite percent_37. by destruct (Z.eqb_spec (ord c) 37). Qed.

Section roundtrip.
(** The characters of a string in the URL's character set, and what the server
    makes of one. *)
Context (m : mb_session) (e : pg_enc) (P : bytes -> Prop) (f : bytes -> bytes) (limit : nat).
(** The server converts sequences of characters, one by one, if the result is
    not too long. *)
Hypothesis convert : forall chs, Forall P chs -> chs <> [] -> (length (concat (map f chs)) < limit)%nat ->
  pg_any_to_server m (concat chs) e = Ok (concat (map f chs)).
Hypothesis convert_nonul : forall ch, P ch -> nonul (f ch).
(** A character is a plain ASCII byte, which conversion leaves alone, or all its
    bytes have the high bit set. *)
Hypothesis char_shape : forall ch, P ch ->
  (exists c, ch = [c] /\ 1 <= ord c <= 127 /\ f ch = ch) \/ Forall (fun c => 128 <= ord c) ch.
Hypothesis char_nonempty : forall ch, P ch -> ch <> [].

Lemma flush_chars pend out : Forall P pend -> (length (concat (map f pend)) < limit)%nat ->
  flush m e (concat pend) out = Ok (out ++ concat (map f pend)).
Proof.
  intros H Hlim. unfold flush. destruct H as [|ch pend Hch Hp]; [by rewrite app_nil_r|].
  assert (0 < length (concat (ch :: pend)))%nat as Hl.
  { cbn [concat]. rewrite length_app. pose proof (char_nonempty ch Hch). destruct ch; [done|cbn; lia]. }
  rewrite (proj2 (Nat.ltb_lt _ _) Hl), convert by (done || by constructor). cbn [mbind result_bind].
  rewrite c_string_nonul; [done|]. assert (Forall P (ch :: pend)) as HP by by constructor.
  clear -HP convert_nonul. induction HP; [constructor|]. cbn [map concat]. apply Forall_app_2; [by apply convert_nonul|done].
Qed.

Lemma unescape_high er ch rest pend out : Forall (fun c => 128 <= ord c) ch ->
  unescape_loop m e (escape_bytes er ch ++ rest) pend out = unescape_loop m e rest (pend ++ ch) out.
Proof.
  intros H. revert pend. induction H as [|c ch Hc _ IH]; intros pend; [by rewrite app_nil_r|].
  unfold escape_bytes. cbn [map concat]. fold (escape_bytes er ch).
  rewrite high_escaped, <- app_assoc, unescape_escaped by lia. rewrite IH.
  by rewrite <- app_assoc.
Qed.

Lemma unescape_chars er chs : Forall P chs -> forall pend out, Forall P pend ->
  (length (concat (map f (pend ++ chs))) < limit)%nat ->
  unescape_loop m e (escape_bytes er (concat chs)) (concat pend) out =
  Ok (out ++ concat (map f (pend ++ chs))).
Proof.
  induction 1 as [|ch chs Hch _ IH]; intros pend out Hpend Hlim.
  { rewrite app_nil_r in *. cbn [concat escape_bytes map unescape_loop]. by apply flush_chars. }
  unfold escape_bytes. cbn [concat]. rewrite map_app, concat_app. fold (escape_bytes er ch) (escape_bytes er (concat chs)).
  assert (forall out, unescape_loop m e (escape_bytes er (concat chs)) (concat pend ++ ch) out =
    Ok (out ++ concat (map f (pend ++ ch :: chs)))) as Hpush.
  { intros out'. pose proof (IH (pend ++ [ch]) out') as IH'. rewrite concat_app in IH'. cbn [concat] in IH'.
    rewrite app_nil_r, <- app_assoc in IH'. apply IH'; [|done].
    apply Forall_app_2; [done|by constructor]. }
  destruct (char_shape ch Hch) as [(c & -> & Hc & Hf)|Hhigh]; [|by rewrite unescape_high].
  unfold escape_bytes at 1. cbn [map concat]. rewrite app_nil_r.
  destruct (escape_byte_cases er c) as [(-> & _ & Hne)|[-> _]].
  - assert (length (concat (map f pend)) + length (concat (map f chs)) < limit)%nat as Hlim2.
    { revert Hlim. rewrite map_app, concat_app. cbn [map concat]. rewrite !length_app. lia. }
    cbn [app]. rewrite unescape_literal, flush_chars by (done || lia). cbn [mbind result_bind].
    rewrite (IH [] _ (Forall_nil _)) by (cbn [app]; lia). cbn [app]. rewrite map_app, concat_app. cbn [map concat].
    by rewrite Hf, <- !app_assoc.
  - rewrite unescape_escaped by lia. apply Hpush.
Qed.

End roundtrip.

(** ** Theorems *)

Lemma any_to_server_same m s : valid (DatabaseEncoding m) s -> pg_any_to_server m s (DatabaseEncoding m) = Ok s.
Proof.
  intros H. unfold pg_any_to_server. case_match; [done|]. rewrite bool_decide_eq_true_2 by done. cbn [orb].
  unfold valid in H. by rewrite H.
Qed.

Lemma server_to_any_same m s : pg_server_to_any m s (DatabaseEncoding m) = Ok s.
Proof. unfold pg_server_to_any. case_match; [done|]. by rewrite bool_decide_eq_true_2. Qed.

(** C19. In a database of any server encoding but GB18030, UNESCAPE gives back
    every string that ESCAPE was given, whichever delimiters were escaped. *)
Theorem unescape_escape m s er :
  PG_VALID_BE_ENCODING (DatabaseEncoding m) = true -> DatabaseEncoding m <> PG_GB18030 ->
  valid (DatabaseEncoding m) s ->
  exists r, ivorysql_utl_url_escape m (Some s) er None = Ok (Some r) /\
    ivorysql_utl_url_unescape m (Some r) None = Ok (Some s).
Proof.
  intros He Hgb Hv. cbn [ivorysql_utl_url_escape encoding_arg mbind result_bind].
  rewrite server_to_any_same. cbn [mbind result_bind]. eexists. split; [done|].
  rewrite c_string_nonul by by eapply valid_nonul. apply valid_chars in Hv as (chs & Hchs & ->).
  cbn [ivorysql_utl_url_unescape encoding_arg mbind result_bind].
  rewrite (unescape_chars m (DatabaseEncoding m) (is_char_of (DatabaseEncoding m)) id (S (length (concat chs))))
    with (pend := []); [by rewrite map_id| | | | |done|constructor|rewrite map_id; cbn; lia].
  - intros cs Hcs _ _. rewrite map_id. by apply any_to_server_same, valid_concat.
  - intros ch. apply char_nonul.
  - intros ch Hch. destruct (char_bytes _ ch He Hch) as [(c & -> & Hc)|H]; [left; by exists c|right].
    by rewrite bool_decide_eq_false_2 in H.
  - intros ch Hch. pose proof (char_length _ ch Hch). by destruct ch; [cbn in *; lia|].
Qed.

(** A UTF-8 URL with a space and a two-byte character. *)
Lemma unescape_escape_witness :
  PG_VALID_BE_ENCODING (DatabaseEncoding latin1_session) = true /\
  valid (DatabaseEncoding latin1_session) (lit "a b" ++ map chr [195; 169]) /\
  exists r, ivorysql_utl_url_escape latin1_session (Some (lit "a b" ++ map chr [195; 169])) None None = Ok (Some r) /\
    ivorysql_utl_url_unescape latin1_session (Some r) None = Ok (Some (lit "a b" ++ map chr [195; 169])).
Proof.
  split; [reflexivity|]. split; [vm_compute; reflexivity|].
  exact (unescape_escape latin1_session (lit "a b" ++ map chr [195; 169]) None eq_refl ltac:(discriminate)
           ltac:(vm_compute; reflexivity)).
Defined.

Lemma latin1_encoding_arg : encoding_arg latin1_session (Some (lit "ISO-8859-1")) = Ok PG_LATIN1.
Proof. vm_compute. reflexivity. Qed.

(** The conversions of that session, below the allocation limit. *)
Lemma latin1_any_to_server t : nonul t -> Z.of_nat (length (latin1_utf8 t)) < MaxAllocSize ->
  pg_any_to_server latin1_session t PG_LATIN1 = Ok (latin1_utf8 t).
Proof.
  intros Ht Hlen. destruct t as [|c t]; [done|].
  change (pg_any_to_server latin1_session (c :: t) PG_LATIN1) with
    (r ← iso8859_1_to_utf8 (c :: t); check_result_size (c :: t) r).
  rewrite iso8859_1_to_utf8_nonul by done. cbn [mbind result_bind]. unfold check_result_size.
  destruct (Z.leb_spec MaxAllocSize (Z.of_nat (length (latin1_utf8 (c :: t))))); [lia|]. by rewrite andb_false_r.
Qed.

Lemma latin1_server_to_any t : nonul t -> Z.of_nat (length (latin1_utf8 t)) < MaxAllocSize ->
  pg_server_to_any latin1_session (latin1_utf8 t) PG_LATIN1 = Ok t.
Proof.
  intros Ht Hlen. pose proof (latin1_utf8_length t Ht) as Hle.
  destruct (latin1_utf8 t) as [|c u] eqn:E; [by destruct t; [|cbn in Hle; lia]|]. rewrite <- E.
  assert (utf8_to_iso8859_1 (latin1_utf8 t) = Ok t) as Hconv.
  { unfold utf8_to_iso8859_1. by apply utf8_to_iso_latin1. }
  assert (pg_server_to_any latin1_session (latin1_utf8 t) PG_LATIN1 =
          (r ← utf8_to_iso8859_1 (latin1_utf8 t); check_result_size (latin1_utf8 t) r)) as -> by by rewrite E.
  rewrite Hconv. cbn [mbind result_bind]. unfold check_result_size.
  destruct (Z.leb_spec MaxAllocSize (Z.of_nat (length t))); [lia|]. by rewrite andb_false_r.
Qed.

Lemma concat_singletons (t : bytes) : concat (map (fun c => [c]) t) = t.
Proof. induction t; cbn; congruence. Qed.

(** A LATIN1 character. *)
Definition latin1_single (ch : bytes) : Prop := exists c, ch = [c] /\ ord c <> 0.

(** Converting LATIN1 characters one by one converts the string. *)
Lemma latin1_pieces chs : Forall latin1_single chs ->
  concat (map latin1_utf8 chs) = latin1_utf8 (concat chs) /\ nonul (concat chs).
Proof.
  induction 1 as [|ch chs (c & -> & Hc) _ [IH1 IH2]]; [split; [done|constructor]|].
  cbn [map concat app]. split; [|by constructor]. rewrite IH1.
  unfold latin1_utf8. cbn [map concat]. by rewrite app_nil_r.
Qed.

(** The same with a character set of the URL other than the database's: in a
    UTF-8 database whose LATIN1 conversions are the server's own, ESCAPE and
    UNESCAPE with [url_charset => 'ISO-8859-1'] restore every text of LATIN1
    characters, although UNESCAPE converts the escaped runs piecewise. *)
Theorem unescape_escape_latin1 t er : nonul t -> Z.of_nat (length (latin1_utf8 t)) < MaxAllocSize ->
  exists r, ivorysql_utl_url_escape latin1_session (Some (latin1_utf8 t)) er (Some (lit "ISO-8859-1")) = Ok (Some r) /\
    ivorysql_utl_url_unescape latin1_session (Some r) (Some (lit "ISO-8859-1")) = Ok (Some (latin1_utf8 t)).
Proof.
  intros Ht Hlen. unfold ivorysql_utl_url_escape, ivorysql_utl_url_unescape. rewrite latin1_encoding_arg.
  cbn [mbind result_bind]. rewrite latin1_server_to_any by done. cbn [mbind result_bind]. eexists. split; [done|].
  rewrite c_string_nonul by done. set (chs := map (fun c : ascii => [c]) t).
  assert (concat chs = t) as Ec by apply concat_singletons. rewrite <- Ec at 1.
  assert (Forall latin1_single chs) as Hchs.
  { apply List.Forall_map. eapply Forall_impl; [|exact Ht]. intros c Hc. by exists c. }
  rewrite (unescape_chars latin1_session PG_LATIN1 latin1_single latin1_utf8 (Z.to_nat MaxAllocSize)) with (pend := []);
    [cbn [app mbind result_bind]; by rewrite (proj1 (latin1_pieces chs Hchs)), Ec| | | | |exact Hchs|constructor|].
  - intros cs Hcs _. destruct (latin1_pieces cs Hcs) as [-> Hn]. intros Hl. apply latin1_any_to_server; [done|].
    apply Nat2Z.inj_lt in Hl. by rewrite Z2Nat.id in Hl.
  - intros ch (c & -> & Hc). eapply (valid_nonul PG_UTF8), latin1_utf8_valid. by constructor.
  - intros ch (c & -> & Hc). pose proof (ord_range c). destruct (Z.ltb_spec (ord c) 128); [left|right; by constructor].
    exists c. split_and!; [done|lia|lia|]. unfold latin1_utf8. cbn [map concat]. unfold unicode_to_utf8.
    destruct (Z.leb_spec (ord c) 127); [by rewrite chr_ord|lia].
  - intros ch (c & -> & _). done.
  - cbn [app]. rewrite (proj1 (latin1_pieces chs Hchs)), Ec. apply Nat2Z.inj_lt. by rewrite Z2Nat.id.
Qed.

(** The letter e with an acute accent, alone and after a space. *)
Lemma unescape_escape_latin1_witness :
  nonul (chr 233 :: lit " " ++ [chr 233]) /\
  exists r, ivorysql_utl_url_escape latin1_session (Some (latin1_utf8 (chr 233 :: lit " " ++ [chr 233]))) None
      (Some (lit "ISO-8859-1")) = Ok (Some r) /\
    ivorysql_utl_url_unescape latin1_session (Some r) (Some (lit "ISO-8859-1")) =
      Ok (Some (latin1_utf8 (chr 233 :: lit " " ++ [chr 233]))).
Proof.
  assert (nonul (chr 233 :: lit " " ++ [chr 233])) as H by (repeat constructor; discriminate).
  split; [exact H|].
  exact (unescape_escape_latin1 (chr 233 :: lit " " ++ [chr 233]) None H ltac:(vm_compute; reflexivity)).
Defined.

(** *** What UNESCAPE returns is valid *)

Lemma flush_valid m `{!ConversionProcs m} e pending out out' : valid (DatabaseEncoding m) out ->
  flush m e pending out = Ok out' -> valid (DatabaseEncoding m) out'.
Proof.
  intros Ho. unfold flush. case_match; [|by intros [= <-]]. intros H'. inv_bind.
  apply any_to_server_valid in Ha; [|done]. rewrite c_string_nonul by by eapply valid_nonul. by apply valid_app.
Qed.

(** A character without a percent sign is copied whole. *)
Lemma unescape_literals m e ch rest out : Forall (fun c => ord c <> 37) ch ->
  unescape_loop m e (ch ++ rest) [] out = unescape_loop m e rest [] (out ++ ch).
Proof.
  intros H. revert out. induction H as [|c ch Hc _ IH]; intros out; [by rewrite app_nil_r|].
  cbn [app]. rewrite unescape_literal by done. cbn [flush length Nat.ltb Nat.leb mbind result_bind].
  by rewrite IH, <- app_assoc.
Qed.

Lemma char_no_percent e ch : PG_VALID_BE_ENCODING e = true -> is_char_of e ch -> ch <> [percent] ->
  Forall (fun c => ord c <> 37) ch.
Proof.
  intros He Hch Hne. destruct (char_bytes e ch He Hch) as [(c & -> & Hc)|H].
  - constructor; [|constructor]. intros E. apply Hne. f_equal. by apply ord_inj.
  - eapply Forall_impl; [|exact H]. intros c Hc. cbn beta in Hc. case_bool_decide; lia.
Qed.

(** A character that starts with a hexadecimal digit is that digit. *)
Lemma char_hex e ch rest h u : PG_VALID_BE_ENCODING e = true -> is_char_of e ch ->
  ch ++ rest = h :: u -> 0 <= utl_url_hexval (ord h) -> ch = [h] /\ rest = u.
Proof.
  intros He Hch E Hh. pose proof (char_length e ch Hch) as Hlen.
  destruct ch as [|c ch]; [cbn in Hlen; lia|]. cbn [app] in E. injection E as -> E.
  assert (ord h < 128) as Hlow.
  { revert Hh. unfold utl_url_hexval. split_ranges. }
  unfold is_char in Hch. cbn [next_char] in Hch. rewrite highbit_ge in Hch by apply ord_range.
  destruct (Z.leb_spec 128 (ord h)); [lia|]. cbn [negb] in Hch.
  destruct (ord h =? 0); [done|]. injection Hch as Hl. by destruct ch.
Qed.

Lemma unescape_loop_valid m `{!ConversionProcs m} e n : PG_VALID_BE_ENCODING (DatabaseEncoding m) = true ->
  forall chs pending out r, (length chs <= n)%nat -> Forall (is_char_of (DatabaseEncoding m)) chs ->
  valid (DatabaseEncoding m) out ->
  unescape_loop m e (concat chs) pending out = Ok r -> valid (DatabaseEncoding m) r.
Proof.
  intros He. induction n as [|n IH]; intros chs pending out r Hn Hchs Ho Hr.
  { destruct chs; [|cbn in Hn; lia]. exact (flush_valid m e pending out r Ho Hr). }
  destruct Hchs as [|ch chs Hch Hchs]; [exact (flush_valid m e pending out r Ho Hr)|]. cbn [concat length] in *.
  destruct (decide (ch = [percent])) as [->|Hne].
  - cbn [app unescape_loop] in Hr. rewrite Z.eqb_refl in Hr.
    destruct (concat chs) as [|h [|l u]] eqn:Eu; [done..|].
    destruct (Z.ltb_spec (utl_url_hexval (ord h)) 0); [done|]. destruct (Z.ltb_spec (utl_url_hexval (ord l)) 0); [done|].
    cbn [orb] in Hr. destruct (_ && _); [done|].
    destruct Hchs as [|ch1 chs Hch1 Hchs]; [done|]. cbn [concat] in Eu.
    destruct (char_hex _ _ _ _ _ He Hch1 Eu ltac:(lia)) as [-> Eu2].
    destruct Hchs as [|ch2 chs Hch2 Hchs]; [done|]. cbn [concat] in Eu2.
    destruct (char_hex _ _ _ _ _ He Hch2 Eu2 ltac:(lia)) as [-> <-].
    eapply IH; [|exact Hchs|exact Ho|exact Hr]. cbn in Hn. lia.
  - pose proof (char_no_percent _ ch He Hch Hne) as Hnp. pose proof (char_length _ ch Hch) as Hlen.
    destruct Hnp as [|c ch Hc Hnp]; [cbn in Hlen; lia|]. cbn [app] in Hr.
    rewrite unescape_literal in Hr by done. apply bind_Ok_inv in Hr as (out' & Hf & Hr).
    rewrite unescape_literals in Hr by done. eapply IH; [|exact Hchs| |exact Hr]; [lia|].
    rewrite <- app_assoc. apply valid_app; [by eapply flush_valid|]. apply valid_chars. exists [c :: ch].
    split; [by constructor|]. cbn. by rewrite app_nil_r.
Qed.

(** UNESCAPE cannot be used to store badly encoded text: for every URL of the
    database and every [url_charset], what it returns is valid in the database
    encoding, whatever bytes the %XX groups stand for. *)
Theorem unescape_valid m url charset r : ConversionProcs m ->
  PG_VALID_BE_ENCODING (DatabaseEncoding m) = true -> valid (DatabaseEncoding m) url ->
  ivorysql_utl_url_unescape m (Some url) charset = Ok (Some r) -> valid (DatabaseEncoding m) r.
Proof.
  intros Hm He Hv H. cbn [ivorysql_utl_url_unescape] in H. apply bind_Ok_inv in H as (e & _ & H).
  apply bind_Ok_inv in H as (out & H & [= ->]). apply valid_chars in Hv as (chs & Hchs & ->).
  by eapply (unescape_loop_valid m e (length chs)); [..|apply valid_nil|exact H].
Qed.

(** The groups of the euro sign. *)
Lemma unescape_valid_witness :
  ConversionProcs latin1_session /\ valid PG_UTF8 (lit "x%E2%82%AC") /\
  ivorysql_utl_url_unescape latin1_session (Some (lit "x%E2%82%AC")) None = Ok (Some (lit "x" ++ map chr [226; 130; 172])) /\
  valid PG_UTF8 (lit "x" ++ map chr [226; 130; 172]).
Proof.
  split; [apply _|]. split; [vm_compute; reflexivity|]. split; [vm_compute; reflexivity|].
  exact (unescape_valid latin1_session (lit "x%E2%82%AC") None (lit "x" ++ map chr [226; 130; 172]) latin1_session_procs
           eq_refl ltac:(vm_compute; reflexivity) ltac:(vm_compute; reflexivity)).
Defined.

(** ESCAPE emits a legal URL: every character it returns is unreserved, a
    percent sign, or a reserved delimiter the caller asked to keep; so the result
    is valid in every encoding. *)
Theorem escape_alphabet m s er charset r :
  ivorysql_utl_url_escape m (Some s) er charset = Ok (Some r) ->
  Forall (fun c => utl_url_is_unreserved (ord c) = true \/ c = percent \/
    (er <> Some true /\ utl_url_is_reserved (ord c) = true)) r /\
  forall e, pg_verify_mbstr e r = Ok true.
Proof.
  intros H. cbn [ivorysql_utl_url_escape] in H. apply bind_Ok_inv in H as (e & _ & H).
  apply bind_Ok_inv in H as (conv & _ & [= <-]). split.
  - set (b := match er with None => false | Some b => b end). generalize (c_string conv) as t. intros t.
    unfold escape_bytes. induction t as [|c t IH]; [constructor|]. cbn [map concat]. apply Forall_app_2; [|done].
    unfold escape_byte. destruct (_ || _) eqn:E.
    + constructor; [|constructor]. apply orb_true_iff in E as [E|E]; [by left|right; right].
      apply andb_true_iff in E as [E1%negb_true_iff E2]. split; [|done]. intros ->. done.
    + assert (forall d, 0 <= d < 256 -> Forall (fun c => utl_url_is_unreserved (ord c) = true) (hex2 d)) as Hd.
      { intros d Hd. cut (forallb (fun c => utl_url_is_unreserved (ord c)) (hex2 d) = true).
        { rewrite forallb_forall. intros Hf. by apply List.Forall_forall. }
        revert d Hd. apply byte_cases. vm_compute. reflexivity. }
      constructor; [by right; left|]. eapply Forall_impl; [|apply Hd, ord_range]. intros x Hx. by left.
  - intros e'. apply valid_ascii. eapply Forall_impl; [|apply escape_bytes_printable]. intros c Hc. unfold printable in Hc. lia.
Qed.

Lemma escape_alphabet_witness :
  ivorysql_utl_url_escape latin1_session (Some (lit "a/b c")) (Some true) None = Ok (Some (lit "a%2Fb%20c")) /\
  pg_verify_mbstr PG_EUC_JP (lit "a%2Fb%20c") = Ok true.
Proof.
  split; [vm_compute; reflexivity|].
  exact (proj2 (escape_alphabet latin1_session (lit "a/b c") (Some true) None (lit "a%2Fb%20c")
                  ltac:(vm_compute; reflexivity)) PG_EUC_JP).
Defined.

(** GB18030 is a database encoding whose characters may contain ASCII
    letters and digits. For each two-byte character whose second byte is an ASCII
    letter, ESCAPE leaves that byte literal ("%81A"), and UNESCAPE, which flushes
    the lead byte alone when it meets the letter, rejects ESCAPE's own output. *)
Theorem gb18030_unescape_fails m a b er :
  DatabaseEncoding m = PG_GB18030 -> 129 <= ord a <= 254 -> 65 <= ord b <= 90 ->
  valid (DatabaseEncoding m) [a; b] /\
  ivorysql_utl_url_escape m (Some [a; b]) er None = Ok (Some ((percent :: hex2 (ord a)) ++ [b])) /\
  ivorysql_utl_url_unescape m (Some ((percent :: hex2 (ord a)) ++ [b])) None = report_invalid_encoding.
Proof.
  intros Hm Ha Hb.
  assert (valid (DatabaseEncoding m) [a; b]) as Hv.
  { rewrite Hm. apply valid_chars. exists [[a; b]]. split; [|done]. constructor; [|constructor].
    unfold is_char. cbn [next_char]. rewrite highbit_ge by lia. destruct (Z.leb_spec 128 (ord a)); [|lia]. cbn [negb].
    change (gb18030_char [a; b] = Some 2%nat). unfold gb18030_char. cbv zeta.
    change (byte_at [a; b] 0) with (ord a). change (byte_at [a; b] 1) with (ord b).
    rewrite highbit_ge by lia. destruct (Z.leb_spec 128 (ord a)); [|lia]. cbn [negb].
    change (has [a; b] 4) with false. change (has [a; b] 2) with true. cbn [andb].
    rewrite (in_range_true (ord a)), (in_range_true (ord b) 64 126) by lia. done. }
  split_and!; [done|..].
  - cbn [ivorysql_utl_url_escape encoding_arg mbind result_bind]. rewrite server_to_any_same. cbn [mbind result_bind].
    rewrite c_string_nonul by by eapply valid_nonul. unfold escape_bytes. cbn [map concat].
    rewrite high_escaped by lia. do 3 f_equal. unfold escape_byte, utl_url_is_unreserved.
    by rewrite (in_range_true (ord b)) by lia.
  - cbn [ivorysql_utl_url_unescape encoding_arg mbind result_bind].
    rewrite unescape_escaped, unescape_literal by lia. unfold flush. cbn [length app Nat.ltb Nat.leb].
    unfold pg_any_to_server. cbn [length Nat.eqb]. rewrite bool_decide_eq_true_2 by done. cbn [orb].
    rewrite Hm, pg_verify_mbstr_cases, verifystr_rejected; [done|]. cbn [next_char].
    rewrite highbit_ge by lia. destruct (Z.leb_spec 128 (ord a)); [|lia]. cbn [negb].
    change (gb18030_char [a] = None). unfold gb18030_char. cbv zeta.
    change (byte_at [a] 0) with (ord a). rewrite highbit_ge by lia. by destruct (Z.leb_spec 128 (ord a)); [|lia].
Qed.

Definition gb18030_session : mb_session := mk_mb_session PG_GB18030 PG_UTF8 (fun _ _ => None) None None.

Lemma gb18030_unescape_fails_witness :
  DatabaseEncoding gb18030_session = PG_GB18030 /\
  ivorysql_utl_url_unescape gb18030_session (Some ((percent :: hex2 (ord (chr 129))) ++ [chr 65])) None =
    report_invalid_encoding.
Proof.
  split; [reflexivity|].
  exact (proj2 (proj2 (gb18030_unescape_fails gb18030_session (chr 129) (chr 65) None eq_refl
                         ltac:(vm_compute; split; discriminate) ltac:(vm_compute; split; discriminate)))).
Defined.
