(* ===== verification/Base64.v ===== *)
(** * Base64 and the UTL_ENCODE package

    src/common/base64.c ([pg_b64_encode], [pg_b64_decode] and the length
    estimates) and contrib/ivorysql_ora/src/builtin_packages/utl_encode/utl_encode.c
    (BASE64_ENCODE with lines of 64 characters, BASE64_DECODE). *)

From S2P Require Import Prelude Utf8 MbUtils.

(** ** Definitions *)

Definition _base64 : bytes := lit "ABCDEFGHIJKLMNOPQRSTUVWXYZabcdefghijklmnopqrstuvwxyz0123456789+/".

Definition b64lookup : list Z :=
  replicate 43 (-1) ++ [62; -1; -1; -1; 63; 52; 53; 54; 55; 56; 57; 58; 59; 60; 61] ++ replicate 7 (-1) ++
  [0; 1; 2; 3; 4; 5; 6; 7; 8; 9; 10; 11; 12; 13; 14; 15; 16; 17; 18; 19; 20; 21; 22; 23; 24; 25] ++
  replicate 6 (-1) ++
  [26; 27; 28; 29; 30; 31; 32; 33; 34; 35; 36; 37; 38; 39; 40; 41; 42; 43; 44; 45; 46; 47; 48; 49; 50; 51] ++
  replicate 5 (-1).

Definition pad : ascii := "="%char.

(** [_base64[(buf >> sh) & 0x3f]]. *)
Definition b64_at (buf sh : Z) : ascii := nth (Z.to_nat (Z.land (Z.shiftr buf sh) 63)) _base64 "000"%char.

(** The loop of [pg_b64_encode]; [None] is the overflow exit. *)
Fixpoint b64_encode_loop (src : bytes) (dstlen pos buf : Z) (dst : bytes) : option (Z * Z * bytes) :=
  match src with
  | [] => Some (pos, buf, dst)
  | s :: src' =>
      let buf := uint32 (Z.lor buf (Z.shiftl (ord s) (Z.shiftl pos 3))) in
      let pos := pos - 1 in
      if pos <? 0 then
        if dstlen <? Z.of_nat (length dst) + 4 then None
        else b64_encode_loop src' dstlen 2 0 (dst ++ [b64_at buf 18; b64_at buf 12; b64_at buf 6; b64_at buf 0])
      else b64_encode_loop src' dstlen pos buf dst
  end.

Definition pg_b64_encode (src : bytes) (dstlen : Z) : option bytes :=
  '(pos, buf, dst) ← b64_encode_loop src dstlen 2 0 [];
  if negb (pos =? 2) then
    if dstlen <? Z.of_nat (length dst) + 4 then None
    else Some (dst ++ [b64_at buf 18; b64_at buf 12; if pos =? 0 then b64_at buf 6 else pad; pad])
  else Some dst.

(** Whitespace, as the decoders test it. *)
Definition b64_space (c : Z) : bool := (c =? 32) || (c =? 9) || (c =? 10) || (c =? 13).

(** The value of a character other than the padding; [char] is signed, so bytes
    from 128 on are below 0. *)
Definition b64_value (c : Z) : Z :=
  if (0 <? c) && (c <? 127) then nth (Z.to_nat c) b64lookup (-1) else -1.

(** Append a byte to the output unless it is full. *)
Definition put_byte (dstlen : Z) (v : Z) (dst : bytes) : option bytes :=
  if dstlen <? Z.of_nat (length dst) + 1 then None else Some (dst ++ [chr (Z.land v 255)]).

(** The bytes of a complete group of four characters. *)
Definition b64_group (dstlen buf end_ : Z) (dst : bytes) : option bytes :=
  dst ← put_byte dstlen (Z.shiftr buf 16) dst;
  dst ← (if (end_ =? 0) || (1 <? end_) then put_byte dstlen (Z.shiftr buf 8) dst else Some dst);
  if (end_ =? 0) || (2 <? end_) then put_byte dstlen buf dst else Some dst.

Fixpoint b64_decode_loop (src : bytes) (dstlen buf pos end_ : Z) (dst : bytes) : option bytes :=
  match src with
  | [] => if negb (pos =? 0) then None else Some dst
  | ch :: src' =>
      let c := ord ch in
      if b64_space c then None
      else
        '(b, end_) ←
          (if c =? ord pad then
             if end_ =? 0 then
               if pos =? 2 then Some (0, 1) else if pos =? 3 then Some (0, 2) else None
             else Some (0, end_)
           else let b := b64_value c in if b <? 0 then None else Some (b, end_));
        let buf := uint32 (Z.shiftl buf 6 + b) in
        let pos := pos + 1 in
        if pos =? 4 then dst ← b64_group dstlen buf end_ dst; b64_decode_loop src' dstlen 0 0 end_ dst
        else b64_decode_loop src' dstlen buf pos end_ dst
  end.

Definition pg_b64_decode (src : bytes) (dstlen : Z) : option bytes := b64_decode_loop src dstlen 0 0 0 [].

(** Length estimates, on [int]. *)
Definition pg_b64_enc_len (srclen : Z) : Z := int32 (Z.quot (int32 (srclen + 2)) 3 * 4).
Definition pg_b64_dec_len (srclen : Z) : Z := Z.shiftr (int32 (srclen * 3)) 2.

Definition UTL_ENCODE_B64_LINE_LEN : nat := 64.
Definition VARHDRSZ : Z := 4.

(** [palloc]: an [int] size is converted to [Size], so a negative one is too big. *)
Definition palloc (size : Z) : result unit :=
  if (0 <=? size) && (size <=? MaxAllocSize) then Ok tt
  else ereport ERRCODE_INTERNAL_ERROR "invalid memory alloc request size".

(** Copy of the lines, a LF after each. *)
Fixpoint b64_lines (fuel : nat) (p : bytes) : bytes :=
  match fuel, p with
  | S fuel', _ :: _ =>
      let chunk := if (UTL_ENCODE_B64_LINE_LEN <=? length p)%nat then UTL_ENCODE_B64_LINE_LEN else length p in
      take chunk p ++ [chr 10] ++ b64_lines fuel' (drop chunk p)
  | _, _ => []
  end.

Definition num_lines_of (b64_len : Z) : Z :=
  Z.quot (b64_len + Z.of_nat UTL_ENCODE_B64_LINE_LEN - 1) (Z.of_nat UTL_ENCODE_B64_LINE_LEN).

Definition ivorysql_utl_encode_base64_encode (src : bytes) : result bytes :=
  let src_len := Z.of_nat (length src) in
  if src_len =? 0 then Ok []
  else
    let b64_len := pg_b64_enc_len src_len in
    let num_lines := num_lines_of b64_len in
    let result_len := int32 (b64_len + num_lines) in
    _ ← palloc (b64_len + 1);
    match pg_b64_encode src b64_len with
    | None => ereport ERRCODE_INTERNAL_ERROR "UTL_ENCODE.BASE64_ENCODE: encoding failed"
    | Some raw_b64 =>
        _ ← palloc (int32 (VARHDRSZ + result_len));
        Ok (b64_lines (length raw_b64) raw_b64)
    end.

Definition strip_space (src : bytes) : bytes := filter (fun c => b64_space (ord c) = false) src.

Definition ivorysql_utl_encode_base64_decode (src : bytes) : result bytes :=
  if (length src =? 0)%nat then Ok []
  else
    let clean_buf := strip_space src in
    let clean_len := Z.of_nat (length clean_buf) in
    if clean_len =? 0 then Ok []
    else
      let dec_buf_len := pg_b64_dec_len clean_len in
      _ ← palloc (int32 (VARHDRSZ + dec_buf_len));
      match pg_b64_decode clean_buf dec_buf_len with
      | None => ereport ERRCODE_INVALID_PARAMETER_VALUE "UTL_ENCODE.BASE64_DECODE: invalid base64 input"
      | Some dst => Ok dst
      end.

(** ** The code of a group *)

(** The character of a six-bit value. *)
Definition sext (v : Z) : ascii := nth (Z.to_nat v) _base64 "000"%char.

Lemma sext_ok v : 0 <= v < 64 ->
  b64_space (ord (sext v)) = false /\ (ord (sext v) =? ord pad) = false /\ b64_value (ord (sext v)) = v.
Proof.
  intros Hv.
  assert (H : forallb (fun v => negb (b64_space (ord (sext v))) && negb (ord (sext v) =? ord pad) &&
                (b64_value (ord (sext v)) =? v)) (map Z.of_nat (seq 0 64)) = true) by (vm_compute; reflexivity).
  rewrite forallb_forall in H. specialize (H v). rewrite in_map_iff in H.
  specialize (H ltac:(exists (Z.to_nat v); rewrite in_seq; lia)). split_bool. split_and!; [done..|lia].
Qed.

(** Three bytes as a word, and its four characters. *)
Definition word (a b c : Z) : Z := a * 65536 + b * 256 + c.

Lemma word_lor a b c : 0 <= a < 256 -> 0 <= b < 256 -> 0 <= c < 256 ->
  uint32 (Z.lor 0 (Z.shiftl a (Z.shiftl 2 3))) = word a 0 0 /\
  uint32 (Z.lor (word a 0 0) (Z.shiftl b (Z.shiftl (2 - 1) 3))) = word a b 0 /\
  uint32 (Z.lor (word a b 0) (Z.shiftl c (Z.shiftl (2 - 1 - 1) 3))) = word a b c.
Proof.
  intros Ha Hb Hc. unfold word.
  change (Z.shiftl 2 3) with 16. change (Z.shiftl (2 - 1) 3) with 8. change (Z.shiftl (2 - 1 - 1) 3) with 0.
  rewrite Z.lor_0_l, Z.shiftl_0_r, !Z.shiftl_mul_pow2 by lia.
  change (2 ^ 16) with 65536. change (2 ^ 8) with 256. split_and!.
  - rewrite uint32_small by (unfold UINT32_MOD; lia). lia.
  - replace (a * 65536 + 0 * 256 + 0) with (a * 2 ^ 16) by lia. rewrite lor_lead by lia.
    rewrite uint32_small by (unfold UINT32_MOD; lia). lia.
  - replace (a * 65536 + b * 256 + 0) with ((a * 256 + b) * 2 ^ 8) by lia.
    rewrite lor_lead by lia. change (2 ^ 8) with 256. rewrite uint32_small by (unfold UINT32_MOD; lia). lia.
Qed.

Lemma b64_at_sext w sh : 0 <= w -> 0 <= sh -> b64_at w sh = sext (w / 2 ^ sh mod 64).
Proof. intros. unfold b64_at, sext. by rewrite land_63, Z.shiftr_div_pow2. Qed.

(** The characters of a word. *)
Definition quad (w : Z) : bytes := [sext (w / 262144 mod 64); sext (w / 4096 mod 64); sext (w / 64 mod 64); sext (w mod 64)].

Lemma quad_b64_at w : 0 <= w -> [b64_at w 18; b64_at w 12; b64_at w 6; b64_at w 0] = quad w.
Proof. intros. rewrite !b64_at_sext by lia. unfold quad. change (2 ^ 0) with 1. by rewrite Z.div_1_r. Qed.

(** Reference encoder: groups of three bytes, the last one padded. *)
Fixpoint enc (s : bytes) : bytes :=
  match s with
  | a :: b :: c :: s' => quad (word (ord a) (ord b) (ord c)) ++ enc s'
  | [a; b] => take 3 (quad (word (ord a) (ord b) 0)) ++ [pad]
  | [a] => take 2 (quad (word (ord a) 0 0)) ++ [pad; pad]
  | [] => []
  end.

(** Induction by groups. *)
Lemma group_ind (P : bytes -> Prop) :
  P [] -> (forall a, P [a]) -> (forall a b, P [a; b]) -> (forall a b c s, P s -> P (a :: b :: c :: s)) -> forall s, P s.
Proof.
  intros H0 H1 H2 H3. fix IH 1. intros [|a [|b [|c s]]]; [done|apply H1|apply H2|apply H3, IH].
Qed.

Lemma enc_length s : Z.of_nat (length (enc s)) = (Z.of_nat (length s) + 2) / 3 * 4.
Proof.
  induction s as [|a|a b|a b c s IH] using group_ind; [done..|].
  cbn [enc]. rewrite length_app, Nat2Z.inj_add, IH. cbn [length quad]. lia.
Qed.

Lemma word_nonneg a b c : 0 <= word (ord a) (ord b) (ord c) < 16777216.
Proof. unfold word. pose proof (ord_range a). pose proof (ord_range b). pose proof (ord_range c). lia. Qed.

Lemma b64_encode_loop_group a b c s dstlen dst :
  b64_encode_loop (a :: b :: c :: s) dstlen 2 0 dst =
  if dstlen <? Z.of_nat (length dst) + 4 then None
  else b64_encode_loop s dstlen 2 0 (dst ++ quad (word (ord a) (ord b) (ord c))).
Proof.
  cbn [b64_encode_loop]. destruct (word_lor (ord a) (ord b) (ord c)) as (-> & -> & ->); [apply ord_range..|].
  change (2 - 1 <? 0) with false. change (2 - 1 - 1 <? 0) with false. change (2 - 1 - 1 - 1 <? 0) with true. cbv iota.
  by rewrite quad_b64_at by apply word_nonneg.
Qed.

(** The loop and its tail compute the reference. *)
Lemma b64_encode_enc s : forall dstlen dst, Z.of_nat (length dst) + Z.of_nat (length (enc s)) <= dstlen ->
  ('(pos, buf, dst) ← b64_encode_loop s dstlen 2 0 dst;
   if negb (pos =? 2) then
     if dstlen <? Z.of_nat (length dst) + 4 then None
     else Some (dst ++ [b64_at buf 18; b64_at buf 12; if pos =? 0 then b64_at buf 6 else pad; pad])
   else Some dst) = Some (dst ++ enc s).
Proof.
  induction s as [|a|a b|a b c s IH] using group_ind; intros dstlen dst Hl.
  - cbn. by rewrite app_nil_r.
  - destruct (word_lor (ord a) 0 0) as (Ea & _ & _); [apply ord_range|lia..|].
    cbn [b64_encode_loop]. rewrite Ea. cbn [mbind option_bind negb].
    change (2 - 1 <? 0) with false. cbn [mbind option_bind]. change (2 - 1 =? 2) with false. cbn [negb].
    cbn [enc length take firstn app quad] in Hl.
    destruct (Z.ltb_spec dstlen (Z.of_nat (length dst) + 4)); [lia|]. change (2 - 1 =? 0) with false. cbv iota.
    pose proof (ord_range a). rewrite !b64_at_sext by (unfold word; lia). reflexivity.
  - destruct (word_lor (ord a) (ord b) 0) as (Ea & Eb & _); [apply ord_range..|lia|].
    cbn [b64_encode_loop]. rewrite Ea. change (2 - 1 <? 0) with false. cbv iota. rewrite Eb.
    change (2 - 1 - 1 <? 0) with false. cbv iota. cbn [mbind option_bind]. change (2 - 1 - 1 =? 2) with false. cbn [negb].
    cbn [enc length take firstn app quad] in Hl.
    destruct (Z.ltb_spec dstlen (Z.of_nat (length dst) + 4)); [lia|]. change (2 - 1 - 1 =? 0) with true. cbv iota.
    pose proof (ord_range a). pose proof (ord_range b). rewrite !b64_at_sext by (unfold word; lia). reflexivity.
  - cbn [enc] in Hl. rewrite length_app in Hl. cbn [length quad] in Hl. rewrite b64_encode_loop_group.
    destruct (Z.ltb_spec dstlen (Z.of_nat (length dst) + 4)); [lia|].
    rewrite IH by (rewrite length_app; cbn [length quad]; lia). cbn [enc]. by rewrite <- app_assoc.
Qed.

(** ** Decoding *)

(** One six-bit value. *)
Lemma decode_sext v rest dstlen buf pos end_ dst : 0 <= v < 64 ->
  b64_decode_loop (sext v :: rest) dstlen buf pos end_ dst =
  if pos + 1 =? 4 then dst ← b64_group dstlen (uint32 (Z.shiftl buf 6 + v)) end_ dst; b64_decode_loop rest dstlen 0 0 end_ dst
  else b64_decode_loop rest dstlen (uint32 (Z.shiftl buf 6 + v)) (pos + 1) end_ dst.
Proof.
  intros Hv. destruct (sext_ok v Hv) as (H1 & H2 & H3). cbn [b64_decode_loop]. rewrite H1, H2, H3.
  destruct (Z.ltb_spec v 0); [lia|]. done.
Qed.

(** A padding character. *)
Lemma decode_pad rest dstlen buf pos end_ end' dst :
  (if end_ =? 0 then if pos =? 2 then Some 1 else if pos =? 3 then Some 2 else None else Some end_) = Some end' ->
  b64_decode_loop (pad :: rest) dstlen buf pos end_ dst =
  if pos + 1 =? 4 then dst ← b64_group dstlen (uint32 (Z.shiftl buf 6 + 0)) end' dst; b64_decode_loop rest dstlen 0 0 end' dst
  else b64_decode_loop rest dstlen (uint32 (Z.shiftl buf 6 + 0)) (pos + 1) end' dst.
Proof.
  intros He. cbn [b64_decode_loop]. change (b64_space (ord pad)) with false. rewrite Z.eqb_refl. cbv iota.
  destruct (end_ =? 0); [destruct (pos =? 2); [|destruct (pos =? 3)]|]; by simplify_eq.
Qed.

Lemma shift6 buf v : 0 <= buf < 262144 -> 0 <= v < 64 -> uint32 (Z.shiftl buf 6 + v) = buf * 64 + v.
Proof. intros. rewrite Z.shiftl_mul_pow2 by lia. change (2 ^ 6) with 64. apply uint32_small. unfold UINT32_MOD. lia. Qed.

Lemma four_sextets v1 v2 v3 v4 : 0 <= v1 < 64 -> 0 <= v2 < 64 -> 0 <= v3 < 64 -> 0 <= v4 < 64 ->
  uint32 (Z.shiftl (uint32 (Z.shiftl (uint32 (Z.shiftl (uint32 (Z.shiftl 0 6 + v1)) 6 + v2)) 6 + v3)) 6 + v4) =
  ((v1 * 64 + v2) * 64 + v3) * 64 + v4.
Proof.
  intros. rewrite (shift6 0 v1), Z.mul_0_l, Z.add_0_l, (shift6 v1 v2), (shift6 (v1 * 64 + v2) v3), shift6 by lia. done.
Qed.

(** A word restored from its characters. *)
Lemma quad_word w : 0 <= w < 16777216 ->
  ((w / 262144 mod 64 * 64 + w / 4096 mod 64) * 64 + w / 64 mod 64) * 64 + w mod 64 = w.
Proof. intros. lia. Qed.

(** A whole group; [end_] is what an earlier padding left. *)
Lemma decode_quad w rest dstlen end_ dst : 0 <= w < 16777216 ->
  b64_decode_loop (quad w ++ rest) dstlen 0 0 end_ dst =
  (dst ← b64_group dstlen w end_ dst; b64_decode_loop rest dstlen 0 0 end_ dst).
Proof.
  intros Hw. unfold quad. cbn [app].
  assert (forall x, 0 <= x mod 64 < 64) as Hm by (intros; apply Z.mod_pos_bound; lia).
  pose proof (Hm (w / 262144)). pose proof (Hm (w / 4096)). pose proof (Hm (w / 64)). pose proof (Hm w).
  rewrite !decode_sext by apply Hm. change (0 + 1 =? 4) with false. change (0 + 1 + 1 =? 4) with false.
  change (0 + 1 + 1 + 1 =? 4) with false. change (0 + 1 + 1 + 1 + 1 =? 4) with true. cbv iota.
  by rewrite four_sextets, quad_word by done.
Qed.

(** Groups with one and two padding characters. *)
Lemma decode_pad1 w rest dstlen dst : 0 <= w < 16777216 -> w mod 64 = 0 ->
  b64_decode_loop ((take 3 (quad w) ++ [pad]) ++ rest) dstlen 0 0 0 dst =
  (dst ← b64_group dstlen w 2 dst; b64_decode_loop rest dstlen 0 0 2 dst).
Proof.
  intros Hw H0. cbn [quad take firstn app].
  assert (forall x, 0 <= x mod 64 < 64) as Hm by (intros; apply Z.mod_pos_bound; lia).
  pose proof (Hm (w / 262144)). pose proof (Hm (w / 4096)). pose proof (Hm (w / 64)).
  rewrite !decode_sext by apply Hm. change (0 + 1 =? 4) with false. change (0 + 1 + 1 =? 4) with false.
  change (0 + 1 + 1 + 1 =? 4) with false. cbv iota. rewrite (decode_pad _ _ _ _ _ 2) by done.
  change (0 + 1 + 1 + 1 + 1 =? 4) with true. cbv iota.
  rewrite four_sextets by lia.
  replace (((w / 262144 mod 64 * 64 + w / 4096 mod 64) * 64 + w / 64 mod 64) * 64 + 0) with w by lia. done.
Qed.

Lemma decode_pad2 w rest dstlen dst : 0 <= w < 16777216 -> w mod 4096 = 0 ->
  b64_decode_loop ((take 2 (quad w) ++ [pad; pad]) ++ rest) dstlen 0 0 0 dst =
  (dst ← b64_group dstlen w 1 dst; b64_decode_loop rest dstlen 0 0 1 dst).
Proof.
  intros Hw H0. cbn [quad take firstn app].
  assert (forall x, 0 <= x mod 64 < 64) as Hm by (intros; apply Z.mod_pos_bound; lia).
  pose proof (Hm (w / 262144)). pose proof (Hm (w / 4096)).
  rewrite !decode_sext by apply Hm. change (0 + 1 =? 4) with false. change (0 + 1 + 1 =? 4) with false. cbv iota.
  rewrite (decode_pad _ _ _ _ _ 1) by done. change (0 + 1 + 1 + 1 =? 4) with false. cbv iota.
  rewrite (decode_pad _ _ _ _ _ 1) by done. change (0 + 1 + 1 + 1 + 1 =? 4) with true. cbv iota.
  rewrite four_sextets by lia.
  replace (((w / 262144 mod 64 * 64 + w / 4096 mod 64) * 64 + 0) * 64 + 0) with w by lia. done.
Qed.

Lemma put_byte_room dstlen v dst : Z.of_nat (length dst) + 1 <= dstlen ->
  put_byte dstlen v dst = Some (dst ++ [chr (v mod 256)]).
Proof.
  intros H. unfold put_byte. destruct (Z.ltb_spec dstlen (Z.of_nat (length dst) + 1)); [lia|].
  do 4 f_equal. by apply (land_mask v 8).
Qed.

(** How many bytes of a group are kept: all, or as many as the padding said. *)
Definition kept (end_ : Z) : nat := if end_ =? 0 then 3 else Z.to_nat end_.

Lemma b64_group_word dstlen a b c end_ dst : 0 <= end_ <= 2 ->
  Z.of_nat (length dst) + Z.of_nat (kept end_) <= dstlen ->
  b64_group dstlen (word (ord a) (ord b) (ord c)) end_ dst = Some (dst ++ take (kept end_) [a; b; c]).
Proof.
  intros He Hl. unfold b64_group. pose proof (ord_range a). pose proof (ord_range b). pose proof (ord_range c).
  rewrite !Z.shiftr_div_pow2 by lia. change (2 ^ 16) with 65536. change (2 ^ 8) with 256.
  assert (chr (word (ord a) (ord b) (ord c) / 65536 mod 256) = a) as E1.
  { apply ord_inj. rewrite ord_chr. unfold word. lia. }
  assert (chr (word (ord a) (ord b) (ord c) / 256 mod 256) = b) as E2.
  { apply ord_inj. rewrite ord_chr. unfold word. lia. }
  assert (chr (word (ord a) (ord b) (ord c) mod 256) = c) as E3.
  { apply ord_inj. rewrite ord_chr. unfold word. lia. }
  assert (end_ = 0 \/ end_ = 1 \/ end_ = 2) as He3 by lia.
  destruct He3 as [->|[->| ->]];
    [change (kept 0) with 3%nat in *|change (kept 1) with 1%nat in *|change (kept 2) with 2%nat in *];
    rewrite put_byte_room by lia; rewrite E1; cbn [mbind option_bind].
  - change ((0 =? 0) || (1 <? 0)) with true. change ((0 =? 0) || (2 <? 0)) with true. cbv iota.
    rewrite put_byte_room by (rewrite length_app; cbn; lia). cbn [mbind option_bind].
    rewrite put_byte_room by (rewrite !length_app; cbn; lia). by rewrite E2, E3, <- !app_assoc.
  - done.
  - change ((2 =? 0) || (1 <? 2)) with true. change ((2 =? 0) || (2 <? 2)) with false. cbv iota.
    rewrite put_byte_room by (rewrite length_app; cbn; lia). cbn [mbind option_bind]. by rewrite E2, <- !app_assoc.
Qed.

Lemma ord_000 : ord "000"%char = 0.
Proof. reflexivity. Qed.

(** What the padding of an encoding leaves for the groups after it. *)
Definition end_of (s : bytes) : Z := Z.of_nat (length s) mod 3.

(** Decoding the reference encoding restores the bytes. *)
Lemma decode_enc_app s rest : forall dstlen dst, Z.of_nat (length dst) + Z.of_nat (length s) <= dstlen ->
  b64_decode_loop (enc s ++ rest) dstlen 0 0 0 dst = b64_decode_loop rest dstlen 0 0 (end_of s) (dst ++ s).
Proof.
  unfold end_of. induction s as [|a|a b|a b c s IH] using group_ind; intros dstlen dst Hl; cbn [length] in Hl.
  - by rewrite app_nil_r.
  - pose proof (ord_range a). cbn [enc]. rewrite decode_pad2 by (unfold word; lia).
    pose proof (b64_group_word dstlen a "000" "000" 1 dst ltac:(lia) ltac:(cbn; lia)) as E.
    rewrite ord_000 in E. by rewrite E.
  - pose proof (ord_range a). pose proof (ord_range b). cbn [enc]. rewrite decode_pad1 by (unfold word; lia).
    pose proof (b64_group_word dstlen a b "000" 2 dst ltac:(lia) ltac:(cbn; lia)) as E.
    rewrite ord_000 in E. by rewrite E.
  - cbn [enc]. rewrite <- app_assoc, decode_quad by apply word_nonneg. rewrite b64_group_word by (cbn; lia).
    cbn [mbind option_bind]. rewrite IH by (rewrite length_app; cbn; lia). rewrite <- app_assoc. cbn [length].
    f_equal. lia.
Qed.

Lemma decode_enc s dstlen : Z.of_nat (length s) <= dstlen -> pg_b64_decode (enc s) dstlen = Some s.
Proof. intros H. unfold pg_b64_decode. by rewrite <- (app_nil_r (enc s)), decode_enc_app. Qed.

(** Of every three bytes, the first. *)
Fixpoint firsts (s : bytes) : bytes :=
  match s with
  | a :: _ :: _ :: s' => a :: firsts s'
  | _ => []
  end.

Lemma firsts_length s : (length (firsts s) <= length s)%nat.
Proof. induction s as [|a|a b|a b c s IH] using group_ind; cbn [firsts length]; lia. Qed.

(** After a group with two padding characters only one byte of a group is kept. *)
Lemma decode_after_pad2 s : Z.of_nat (length s) mod 3 = 0 -> forall dstlen dst,
  Z.of_nat (length dst) + Z.of_nat (length s) <= dstlen ->
  b64_decode_loop (enc s) dstlen 0 0 1 dst = Some (dst ++ firsts s).
Proof.
  induction s as [|a|a b|a b c s IH] using group_ind; cbn [length]; intros Hm dstlen dst Hl; [|lia..|].
  - by rewrite app_nil_r.
  - cbn [enc firsts]. rewrite decode_quad by apply word_nonneg. rewrite b64_group_word by (cbn; lia).
    cbn [mbind option_bind]. change (take (kept 1) [a; b; c]) with [a].
    rewrite IH by (rewrite ?length_app; cbn [length]; lia). by rewrite <- app_assoc.
Qed.

(** ** Lines *)

(** Lines of [n] characters, the last one possibly shorter. *)
Definition lines_of (n : nat) (ls : list bytes) (p : bytes) : Prop :=
  p = concat ls /\ Forall (fun l => (1 <= length l <= n)%nat) ls /\
  forall ls1 l ls2, ls = ls1 ++ l :: ls2 -> ls2 <> [] -> length l = n.

Definition add_lf (l : bytes) : bytes := l ++ [chr 10].

Lemma b64_lines_spec fuel : forall p, (length p <= fuel)%nat ->
  exists ls, lines_of UTL_ENCODE_B64_LINE_LEN ls p /\ b64_lines fuel p = concat (map add_lf ls).
Proof.
  unfold UTL_ENCODE_B64_LINE_LEN. induction fuel as [|fuel IH]; intros p Hp.
  { destruct p; [|cbn in Hp; lia]. exists []. split; [|done]. split_and!; [done|constructor|]. by intros [|? ?]. }
  destruct p as [|c p]; [exists []; split; [|done]; split_and!; [done|constructor|]; by intros [|? ?]|].
  cbn [b64_lines]. set (q := c :: p) in *. unfold UTL_ENCODE_B64_LINE_LEN.
  set (n := if (64 <=? length q)%nat then 64%nat else length q).
  assert (1 <= n <= 64 /\ n <= length q /\ (n < length q -> n = 64))%nat as (Hn & Hn1 & Hn2).
  { unfold n. destruct (Nat.leb_spec 64 (length q)); [lia|]. cbn in *. lia. }
  destruct (IH (drop n q)) as (ls & (E & Hf & Hlast) & ->); [rewrite length_drop; lia|].
  exists (take n q :: ls). split; [|cbn [map concat]; unfold add_lf at 2; by rewrite <- app_assoc]. split_and!.
  - cbn [concat]. by rewrite <- E, take_drop.
  - constructor; [|done]. rewrite length_take. lia.
  - intros [|x ls1] l ls2 [= E1 E2] Hne.
    + subst l ls2. rewrite length_take. destruct ls as [|y ls]; [done|].
      assert (0 < length (drop n q))%nat as Hd.
      { rewrite E. cbn [concat]. rewrite length_app. inversion_clear Hf. lia. }
      rewrite length_drop in Hd. lia.
    + by eapply Hlast.
Qed.

Lemma strip_nonspace p : Forall (fun c => b64_space (ord c) = false) p -> strip_space p = p.
Proof.
  unfold strip_space. induction 1 as [|c p Hc _ IH]; [done|]. by rewrite filter_cons_True, IH.
Qed.

Lemma strip_lines ls : Forall (fun c => b64_space (ord c) = false) (concat ls) ->
  strip_space (concat (map add_lf ls)) = concat ls.
Proof.
  induction ls as [|l ls IH]; [done|]. cbn [concat map]. intros (H1 & H2)%List.Forall_app.
  unfold strip_space in *. rewrite list.filter_app, IH by done. unfold add_lf. rewrite list.filter_app.
  fold (strip_space l). rewrite strip_nonspace by done. by rewrite filter_cons_False, app_nil_r.
Qed.

Lemma quad_nonspace w : Forall (fun c => b64_space (ord c) = false) (quad w).
Proof.
  assert (forall x, 0 <= x mod 64 < 64) as Hm by (intros; apply Z.mod_pos_bound; lia).
  repeat constructor; apply sext_ok, Hm.
Qed.

Lemma enc_nonspace s : Forall (fun c => b64_space (ord c) = false) (enc s).
Proof.
  induction s as [|a|a b|a b c s IH] using group_ind; cbn [enc]; [constructor|..].
  - apply Forall_app_2; [apply Forall_take, quad_nonspace|repeat constructor].
  - apply Forall_app_2; [apply Forall_take, quad_nonspace|repeat constructor].
  - apply Forall_app_2; [apply quad_nonspace|done].
Qed.

(** ** The package *)

(** The largest input whose encoding BASE64_DECODE can size (512 MB). *)
Definition b64_max_input : Z := 536870910.

Lemma enc_len_exact n : 0 <= n <= b64_max_input -> pg_b64_enc_len n = (n + 2) / 3 * 4.
Proof.
  unfold b64_max_input, pg_b64_enc_len. intros H. rewrite (int32_small (n + 2)) by (unfold is_int32, INT_MIN, INT_MAX; lia).
  rewrite int32_small by (unfold is_int32, INT_MIN, INT_MAX; lia). lia.
Qed.

Lemma dec_len_exact n : 0 <= n <= 715827882 -> pg_b64_dec_len n = n * 3 / 4.
Proof.
  intros H. unfold pg_b64_dec_len. rewrite int32_small by (unfold is_int32, INT_MIN, INT_MAX; lia).
  by rewrite Z.shiftr_div_pow2.
Qed.

Lemma palloc_ok n : 0 <= n <= MaxAllocSize -> palloc n = Ok tt.
Proof. intros. unfold palloc. by rewrite (proj2 (Z.leb_le 0 n)), (proj2 (Z.leb_le n MaxAllocSize)) by lia. Qed.

(** BASE64_ENCODE: the lines of the reference encoding. *)
Lemma base64_encode_lines src : Z.of_nat (length src) <= b64_max_input ->
  exists ls, lines_of UTL_ENCODE_B64_LINE_LEN ls (enc src) /\
    ivorysql_utl_encode_base64_encode src = Ok (concat (map add_lf ls)).
Proof.
  intros Hl. unfold ivorysql_utl_encode_base64_encode. destruct (Z.eqb_spec (Z.of_nat (length src)) 0) as [E|].
  { destruct src; [|cbn in E; lia]. exists []. split; [|done]. split_and!; [done|constructor|]. by intros [|? ?]. }
  pose proof (enc_length src) as Hel. rewrite enc_len_exact, <- Hel by lia. unfold b64_max_input in Hl.
  assert (0 <= num_lines_of (Z.of_nat (length (enc src))) <= 11184811) as Hn.
  { unfold num_lines_of, UTL_ENCODE_B64_LINE_LEN. lia. }
  rewrite (palloc_ok (Z.of_nat (length (enc src)) + 1)) by (unfold MaxAllocSize; lia). cbn [mbind result_bind].
  unfold pg_b64_encode. rewrite b64_encode_enc by (cbn; lia). cbn [app].
  rewrite (int32_small (Z.of_nat (length (enc src)) + _)) by (unfold is_int32, INT_MIN, INT_MAX; lia).
  rewrite int32_small, palloc_ok by (unfold is_int32, INT_MIN, INT_MAX, MaxAllocSize, VARHDRSZ; lia).
  cbn [mbind result_bind].
  destruct (b64_lines_spec (length (enc src)) (enc src)) as (ls & H1 & ->); [done|]. by exists ls.
Qed.

(** C20. BASE64_DECODE undoes BASE64_ENCODE on every value of up to 512 MB, line
    breaks and padding included; neither raises an error. *)
Theorem base64_decode_encode src : Z.of_nat (length src) <= b64_max_input ->
  exists r, ivorysql_utl_encode_base64_encode src = Ok r /\ ivorysql_utl_encode_base64_decode r = Ok src.
Proof.
  intros Hl. destruct (base64_encode_lines src Hl) as (ls & (E & _) & ->). eexists. split; [done|].
  unfold ivorysql_utl_encode_base64_decode.
  pose proof (enc_nonspace src) as Hns. pose proof (enc_length src) as Hel. rewrite E in Hns.
  destruct (Nat.eqb_spec (length (concat (map add_lf ls))) 0) as [E0|].
  { destruct ls as [|l ls]; [|cbn [map concat] in E0; unfold add_lf in E0; rewrite !length_app in E0; cbn [length] in E0; lia].
    rewrite E in Hel. cbn [concat length] in Hel. destruct src; [done|cbn [length] in Hel; lia]. }
  rewrite strip_lines, <- E by done. rewrite Hel.
  destruct (Z.eqb_spec ((Z.of_nat (length src) + 2) / 3 * 4) 0) as [E0|].
  { destruct src; [done|cbn [length] in E0; lia]. }
  unfold b64_max_input in Hl. rewrite dec_len_exact by lia.
  rewrite int32_small, palloc_ok by (unfold is_int32, INT_MIN, INT_MAX, MaxAllocSize, VARHDRSZ; lia).
  cbn [mbind result_bind]. by rewrite decode_enc by lia.
Qed.

Lemma base64_decode_encode_witness :
  Z.of_nat (length (lit "Hello, World!")) <= b64_max_input /\
  ivorysql_utl_encode_base64_encode (lit "Hello, World!") = Ok (lit "SGVsbG8sIFdvcmxkIQ==" ++ [chr 10]) /\
  exists r, ivorysql_utl_encode_base64_encode (lit "Hello, World!") = Ok r /\
    ivorysql_utl_encode_base64_decode r = Ok (lit "Hello, World!").
Proof.
  split; [vm_compute; discriminate|]. split; [vm_compute; reflexivity|].
  exact (base64_decode_encode (lit "Hello, World!") ltac:(vm_compute; discriminate)).
Defined.

Lemma lines_count n ls p : (0 < n)%nat -> lines_of n ls p ->
  Z.of_nat (length (concat (map add_lf ls))) = Z.of_nat (length p) + (Z.of_nat (length p) + Z.of_nat n - 1) / Z.of_nat n.
Proof.
  intros Hn (-> & Hf & Hlast).
  assert (Z.of_nat (length ls) = (Z.of_nat (length (concat ls)) + Z.of_nat n - 1) / Z.of_nat n) as Hc.
  { induction Hf as [|l ls Hl Hf IH]; [cbn [concat length]; symmetry; apply Z.div_small; lia|].
    cbn [concat length]. rewrite length_app. destruct ls as [|l2 ls].
    - cbn [concat length]. rewrite Nat.add_0_r. apply (Z.div_unique _ _ _ (Z.of_nat (length l) - 1)); lia.
    - rewrite (Hlast [] l (l2 :: ls)) by done. rewrite Nat2Z.inj_succ, IH.
      + replace (Z.of_nat (n + length (concat (l2 :: ls))) + Z.of_nat n - 1) with
          (1 * Z.of_nat n + (Z.of_nat (length (concat (l2 :: ls))) + Z.of_nat n - 1)) by lia.
        rewrite Z.div_add_l by lia. lia.
      + intros ls1 l' ls2 E. apply (Hlast (l :: ls1) l' ls2). by rewrite E. }
  rewrite <- Hc. clear. unfold add_lf. induction ls as [|l ls IH]; [done|]. cbn [map concat length].
  rewrite !length_app. cbn [length]. lia.
Qed.

(** The format of BASE64_ENCODE: the base64 text of the input broken into
    lines of exactly 64 characters (the last one of 1 to 64), each followed by a
    line feed; the result fills exactly the buffer that was allocated for it. *)
Theorem base64_encode_format src : Z.of_nat (length src) <= b64_max_input ->
  exists ls r, lines_of 64 ls (enc src) /\ ivorysql_utl_encode_base64_encode src = Ok r /\
    r = concat (map (fun l => l ++ [chr 10]) ls) /\
    Z.of_nat (length r) = pg_b64_enc_len (Z.of_nat (length src)) + num_lines_of (pg_b64_enc_len (Z.of_nat (length src))).
Proof.
  intros Hl. destruct (base64_encode_lines src Hl) as (ls & Hls & E). exists ls, (concat (map add_lf ls)).
  split; [done|]. split; [done|]. split; [done|].
  rewrite (lines_count 64 ls (enc src)) by (lia || done).
  rewrite enc_len_exact, <- enc_length by lia. unfold num_lines_of. f_equal. unfold UTL_ENCODE_B64_LINE_LEN. lia.
Qed.

Lemma base64_encode_format_witness :
  Z.of_nat (length (lit "abc")) <= b64_max_input /\
  exists ls r, lines_of 64 ls (enc (lit "abc")) /\ ivorysql_utl_encode_base64_encode (lit "abc") = Ok r /\
    r = concat (map (fun l => l ++ [chr 10]) ls) /\ Z.of_nat (length r) = pg_b64_enc_len 3 + num_lines_of (pg_b64_enc_len 3).
Proof.
  split; [vm_compute; discriminate|]. exact (base64_encode_format (lit "abc") ltac:(vm_compute; discriminate)).
Defined.

(** Text after the padding is not an error: BASE64_DECODE of two encodings
    put together succeeds and silently drops two bytes of every three of the second
    one, when the first one ends in two padding characters. *)
Theorem decode_after_padding a b : Z.of_nat (length a) <= 200000000 -> Z.of_nat (length b) <= 200000000 ->
  Z.of_nat (length a) mod 3 = 1 -> Z.of_nat (length b) mod 3 = 0 ->
  exists ra rb, ivorysql_utl_encode_base64_encode a = Ok ra /\ ivorysql_utl_encode_base64_encode b = Ok rb /\
    ivorysql_utl_encode_base64_decode (ra ++ rb) = Ok (a ++ firsts b).
Proof.
  intros Ha Hb Hma Hmb.
  destruct (base64_encode_lines a) as (la & (Ea & _) & ->); [unfold b64_max_input; lia|].
  destruct (base64_encode_lines b) as (lb & (Eb & _) & ->); [unfold b64_max_input; lia|].
  eexists _, _. split; [done|]. split; [done|]. unfold ivorysql_utl_encode_base64_decode.
  rewrite <- concat_app, <- map_app.
  assert (Forall (fun c => b64_space (ord c) = false) (concat (la ++ lb))) as Hns.
  { rewrite concat_app, <- Ea, <- Eb. apply Forall_app_2; apply enc_nonspace. }
  pose proof (enc_length a) as Hla. pose proof (enc_length b) as Hlb.
  destruct (Nat.eqb_spec (length (concat (map add_lf (la ++ lb)))) 0) as [E0|].
  { exfalso. destruct la as [|l la]; [rewrite Ea in Hla; cbn [concat length] in Hla; lia|].
    cbn [app map concat] in E0. unfold add_lf in E0. rewrite !length_app in E0. cbn [length] in E0. lia. }
  rewrite strip_lines, concat_app, <- Ea, <- Eb, length_app, Nat2Z.inj_add, Hla, Hlb by done.
  destruct (Z.eqb_spec ((Z.of_nat (length a) + 2) / 3 * 4 + (Z.of_nat (length b) + 2) / 3 * 4) 0); [lia|].
  rewrite dec_len_exact by lia.
  rewrite int32_small, palloc_ok by (unfold is_int32, INT_MIN, INT_MAX, MaxAllocSize, VARHDRSZ; lia).
  cbn [mbind result_bind]. unfold pg_b64_decode. rewrite decode_enc_app by (cbn [length]; lia).
  unfold end_of. rewrite Hma. cbn [app]. rewrite decode_after_pad2 by lia. done.
Qed.

(** Of "A" and "BCD" only "AB" remains. *)
Lemma decode_after_padding_witness :
  exists ra rb, ivorysql_utl_encode_base64_encode (lit "A") = Ok ra /\
    ivorysql_utl_encode_base64_encode (lit "BCD") = Ok rb /\
    ivorysql_utl_encode_base64_decode (ra ++ rb) = Ok (lit "AB").
Proof.
  exact (decode_after_padding (lit "A") (lit "BCD") ltac:(vm_compute; discriminate) ltac:(vm_compute; discriminate)
           eq_refl eq_refl).
Defined.
