(* ===== verification/Float8.v ===== *)
(** * C doubles

    The type [float8] and the operations of the C code on it, as IEEE 754 binary64
    with rounding to nearest even: the specification floats of the Standard
    Library at precision 53.  The lemmas say when integers pass through exactly. *)

From Stdlib Require Export SpecFloat.
From S2P Require Import Prelude.

Definition float8 : Type := spec_float.

Definition f_add : float8 -> float8 -> float8 := SFadd 53 1024.
Definition f_sub : float8 -> float8 -> float8 := SFsub 53 1024.
Definition f_mul : float8 -> float8 -> float8 := SFmul 53 1024.
Definition f_div : float8 -> float8 -> float8 := SFdiv 53 1024.
Definition f_lt : float8 -> float8 -> bool := SFltb.
Definition f_le : float8 -> float8 -> bool := SFleb.

(** Conversion of an integer. *)
Definition of_int (z : Z) : float8 := binary_normalize 53 1024 z 0 false.

(** A decimal literal [n / d]. *)
Definition lit_frac (n d : Z) : float8 := f_div (of_int n) (of_int d).

(** Conversion to an integer: the value without its fraction.  Infinities and NaN
    have none, and C leaves undefined what does not fit the integer type. *)
Definition trunc_float (x : float8) : option Z :=
  match x with
  | S754_zero _ => Some 0
  | S754_finite s m e =>
      let v := if 0 <=? e then Z.pos m * 2 ^ e else Z.pos m / 2 ^ (- e) in
      Some (if s then - v else v)
  | _ => None
  end.

Definition to_int32 (x : float8) : option Z :=
  match trunc_float x with
  | Some z => if bool_decide (is_int32 z) then Some z else None
  | None => None
  end.

Definition to_int64 (x : float8) : option Z :=
  match trunc_float x with
  | Some z => if bool_decide (is_int64 z) then Some z else None
  | None => None
  end.

(** ** Exact integers *)

Definition ndigits (p : positive) : Z := Z.pos (digits2_pos p).

Lemma ndigits_spec p : 1 <= ndigits p /\ 2 ^ (ndigits p - 1) <= Z.pos p < 2 ^ ndigits p.
Proof.
  unfold ndigits. induction p as [p IH|p IH|]; cbn [digits2_pos]; [| |vm_compute; intuition congruence].
  all: rewrite Pos2Z.inj_succ; destruct IH as (H1 & H2 & H3); split; [lia|].
  all: replace (Z.succ (Z.pos (digits2_pos p)) - 1) with (Z.pos (digits2_pos p)) by lia.
  all: rewrite Z.pow_succ_r by lia; replace (Z.pos (digits2_pos p)) with (Z.succ (Z.pos (digits2_pos p) - 1)) at 1 by lia;
    rewrite Z.pow_succ_r by lia; lia.
Qed.

Lemma ndigits_unique p d : 1 <= d -> 2 ^ (d - 1) <= Z.pos p < 2 ^ d -> ndigits p = d.
Proof.
  intros Hd [Hl Hh]. destruct (ndigits_spec p) as (H1 & Hl' & Hh').
  assert (d - 1 < ndigits p) by (apply (Z.pow_lt_mono_r_iff 2); lia).
  assert (ndigits p - 1 < d) by (apply (Z.pow_lt_mono_r_iff 2); lia). lia.
Qed.

Lemma ndigits_shift p q j : 0 <= j -> Z.pos q = Z.pos p * 2 ^ j -> ndigits q = ndigits p + j.
Proof.
  intros Hj Hq. destruct (ndigits_spec p) as (H1 & Hl & Hh). apply ndigits_unique; [lia|].
  replace (ndigits p + j - 1) with (ndigits p - 1 + j) by lia. rewrite !Z.pow_add_r by lia. rewrite Hq. nia.
Qed.

Lemma ndigits_le p d : 1 <= d -> Z.pos p < 2 ^ d -> ndigits p <= d.
Proof.
  intros Hd Hp. destruct (ndigits_spec p) as (H1 & Hl & _).
  assert (ndigits p - 1 < d) by (apply (Z.pow_lt_mono_r_iff 2); lia). lia.
Qed.

(** Shifting out zero bits loses nothing. *)
Lemma shr_exact n a :
  0 < a -> SpecFloat.iter_pos shr_1 n {| shr_m := a * 2 ^ Z.pos n; shr_r := false; shr_s := false |}
           = {| shr_m := a; shr_r := false; shr_s := false |}.
Proof.
  revert a. assert (H1 : forall a, 0 < a -> shr_1 {| shr_m := a * 2; shr_r := false; shr_s := false |}
      = {| shr_m := a; shr_r := false; shr_s := false |}).
  { intros a Ha. destruct a as [|p|p]; [lia| |lia]. rewrite Z.mul_comm. done. }
  induction n as [n IH|n IH|]; intros a Ha; cbn [SpecFloat.iter_pos].
  - replace (a * 2 ^ Z.pos n~1) with (a * 2 ^ Z.pos n * 2 ^ Z.pos n * 2).
    + rewrite H1, !IH by (try apply Z.mul_pos_pos; lia). done.
    + replace (Z.pos n~1) with (Z.pos n + Z.pos n + 1) by lia. rewrite !Z.pow_add_r by lia. lia.
  - replace (a * 2 ^ Z.pos n~0) with (a * 2 ^ Z.pos n * 2 ^ Z.pos n).
    + rewrite !IH by (try apply Z.mul_pos_pos; lia). done.
    + replace (Z.pos n~0) with (Z.pos n + Z.pos n) by lia. rewrite Z.pow_add_r by lia. lia.
  - change (2 ^ 1) with 2. by apply H1.
Qed.

(** The double with value [+-p], a positive integer of at most 53 bits: the
    mantissa is filled up to 53 bits. *)
Definition int_float (s : bool) (p : positive) : float8 :=
  S754_finite s (Z.to_pos (Z.pos p * 2 ^ (53 - ndigits p))) (ndigits p - 53).

Lemma fexp_normal e : -1021 <= e -> fexp 53 1024 e = e - 53.
Proof. intros He. unfold fexp, emin. lia. Qed.

Lemma shr_fexp_full m e :
  ndigits m = 53 -> -1074 <= e -> shr_fexp 53 1024 (Z.pos m) e loc_Exact = ({| shr_m := Z.pos m; shr_r := false; shr_s := false |}, e).
Proof.
  intros Hm He. unfold shr_fexp. change (Zdigits2 (Z.pos m)) with (ndigits m). rewrite Hm, fexp_normal by lia.
  replace (53 + e - 53 - e) with 0 by lia. done.
Qed.

(** Rounding [p * 2^j * 2^(-j)] gives [p]. *)
Lemma round_int s p j m :
  ndigits p <= 53 -> 53 - ndigits p <= j <= 200 -> Z.pos m = Z.pos p * 2 ^ j ->
  binary_round_aux 53 1024 s (Z.pos m) (- j) loc_Exact = int_float s p.
Proof.
  intros Hp Hj Hm. destruct (ndigits_spec p) as (H1 & Hl & Hh).
  assert (Hd : ndigits m = ndigits p + j) by (apply ndigits_shift; [lia|done]).
  assert (Hpos : 0 < Z.pos p * 2 ^ (53 - ndigits p)) by (apply Z.mul_pos_pos; [lia|apply Z.pow_pos_nonneg; lia]).
  set (q := Z.to_pos (Z.pos p * 2 ^ (53 - ndigits p))).
  assert (Hq : Z.pos q = Z.pos p * 2 ^ (53 - ndigits p)) by (unfold q; by rewrite Z2Pos.id).
  assert (Hdq : ndigits q = 53) by (rewrite (ndigits_shift p q (53 - ndigits p)); [lia|lia|done]).
  assert (Hsh : shr_fexp 53 1024 (Z.pos m) (- j) loc_Exact
                = ({| shr_m := Z.pos q; shr_r := false; shr_s := false |}, ndigits p - 53)).
  { unfold shr_fexp. change (Zdigits2 (Z.pos m)) with (ndigits m). rewrite fexp_normal by lia.
    replace (ndigits m + - j - 53 - - j) with (ndigits p + j - 53) by lia. cbn [shr_record_of_loc].
    destruct (ndigits p + j - 53) as [|n|n] eqn:En; [| |lia].
    - cbn [shr]. replace j with (53 - ndigits p) in * by lia. rewrite <- Hq in Hm. rewrite Hm. f_equal. lia.
    - cbn [shr]. rewrite Hm. replace (Z.pos p * 2 ^ j) with (Z.pos q * 2 ^ Z.pos n).
      + rewrite shr_exact by lia. f_equal. lia.
      + rewrite Hq, <- Z.mul_assoc, <- Z.pow_add_r by lia. f_equal. f_equal. lia. }
  unfold binary_round_aux. rewrite Hsh. cbn [shr_m loc_of_shr_record round_nearest_even].
  rewrite shr_fexp_full by (done || lia). cbn [shr_m]. replace (_ <=? 1024 - 53) with true by lia. done.
Qed.

Lemma shl_align_shift p e : 0 <= e -> shl_align p 0 (- e) = (Z.to_pos (Z.pos p * 2 ^ e), - e).
Proof.
  intros He. unfold shl_align. rewrite Z.sub_0_r. destruct e as [|d|d]; [|cbn [Z.opp]|lia].
  - by rewrite Z.mul_1_r.
  - f_equal. assert (H : Z.pos (Pos.iter xO p d) = Z.pos p * 2 ^ Z.pos d); [|by rewrite <- H].
    revert p. induction d as [|d IH] using Pos.peano_ind; intros p; [cbn; lia|].
    rewrite Pos.iter_succ, Pos2Z.inj_xO, IH, Pos2Z.inj_succ, Z.pow_succ_r by lia. lia.
Qed.

Lemma of_int_pos p : Z.pos p < 2 ^ 53 -> of_int (Z.pos p) = int_float false p /\ of_int (Z.neg p) = int_float true p.
Proof.
  intros Hp. pose proof (ndigits_le p 53 ltac:(lia) Hp) as Hd. destruct (ndigits_spec p) as (H1 & _).
  assert (Hb : forall s, binary_round 53 1024 s p 0 = int_float s p); [|by split; apply Hb].
  intros s. unfold binary_round. change (Z.pos (digits2_pos p)) with (ndigits p). rewrite Z.add_0_r, fexp_normal by lia.
  replace (ndigits p - 53) with (- (53 - ndigits p)) by lia. rewrite shl_align_shift by lia.
  apply round_int; [done|lia|]. apply Z2Pos.id. apply Z.mul_pos_pos; [lia|apply Z.pow_pos_nonneg; lia].
Qed.

Lemma int_float_mul s1 p1 s2 p2 :
  Z.pos p1 * Z.pos p2 < 2 ^ 53 -> f_mul (int_float s1 p1) (int_float s2 p2) = int_float (xorb s1 s2) (p1 * p2).
Proof.
  intros Hp. unfold f_mul, int_float at 1 2. cbn [SFmul].
  assert (Hp1 : Z.pos p1 < 2 ^ 53) by nia. assert (Hp2 : Z.pos p2 < 2 ^ 53) by nia.
  pose proof (ndigits_le p1 53 ltac:(lia) Hp1). pose proof (ndigits_le p2 53 ltac:(lia) Hp2).
  destruct (ndigits_spec p1) as (L1 & A1 & _). destruct (ndigits_spec p2) as (L2 & A2 & _).
  destruct (ndigits_spec (p1 * p2)) as (L & _ & B). pose proof (ndigits_le (p1 * p2) 53 ltac:(lia) Hp).
  assert (ndigits p1 - 1 + (ndigits p2 - 1) < ndigits (p1 * p2)).
  { apply (Z.pow_lt_mono_r_iff 2); [lia|lia|]. rewrite Z.pow_add_r by lia. rewrite Pos2Z.inj_mul in B. nia. }
  replace (ndigits p1 - 53 + (ndigits p2 - 53)) with (- (106 - ndigits p1 - ndigits p2)) by lia.
  apply round_int; [done|lia|].
  rewrite !Pos2Z.inj_mul, !Z2Pos.id by (apply Z.mul_pos_pos; [lia|apply Z.pow_pos_nonneg; lia]).
  replace (106 - ndigits p1 - ndigits p2) with ((53 - ndigits p1) + (53 - ndigits p2)) by lia.
  rewrite Z.pow_add_r by lia. lia.
Qed.

Lemma int_float_trunc s p : Z.pos p < 2 ^ 53 -> trunc_float (int_float s p) = Some (if s then Z.neg p else Z.pos p).
Proof.
  intros Hp. pose proof (ndigits_le p 53 ltac:(lia) Hp). destruct (ndigits_spec p) as (L & _ & _). unfold int_float. cbn [trunc_float].
  rewrite Z2Pos.id by (apply Z.mul_pos_pos; [lia|apply Z.pow_pos_nonneg; lia]).
  destruct (Z.leb_spec 0 (ndigits p - 53)).
  - replace (ndigits p) with 53 by lia. cbn. f_equal. destruct s; lia.
  - replace (- (ndigits p - 53)) with (53 - ndigits p) by lia. rewrite Z.div_mul by (apply Z.pow_nonzero; lia).
    by destruct s.
Qed.

Lemma int_float_div s1 s2 p q :
  Z.pos p * Z.pos q < 2 ^ 53 -> f_div (int_float s1 (p * q)) (int_float s2 q) = int_float (xorb s1 s2) p.
Proof.
  intros Hpq. assert (Hp : Z.pos p < 2 ^ 53) by nia. assert (Hq : Z.pos q < 2 ^ 53) by nia.
  pose proof (ndigits_le p 53 ltac:(lia) Hp). pose proof (ndigits_le q 53 ltac:(lia) Hq).
  pose proof (ndigits_le (p * q) 53 ltac:(lia) Hpq).
  destruct (ndigits_spec p) as (Lp & Ap & Bp). destruct (ndigits_spec q) as (Lq & Aq & Bq).
  destruct (ndigits_spec (p * q)) as (L & A & B). rewrite Pos2Z.inj_mul in A, B.
  assert (Hlo : ndigits p - 1 + (ndigits q - 1) < ndigits (p * q)).
  { apply (Z.pow_lt_mono_r_iff 2); [lia|lia|]. rewrite Z.pow_add_r by lia. nia. }
  assert (Hhi : ndigits (p * q) - 1 < ndigits p + ndigits q).
  { apply (Z.pow_lt_mono_r_iff 2); [lia|lia|]. rewrite Z.pow_add_r by lia. nia. }
  set (d := ndigits (p * q)) in *. set (dq := ndigits q) in *.
  assert (Hpos : forall x k, 0 < Z.pos x * 2 ^ k \/ k < 0) by (intros x k; destruct (decide (k < 0)); [by right|left;
    apply Z.mul_pos_pos; [lia|apply Z.pow_pos_nonneg; lia]]).
  unfold f_div, int_float at 1 2. cbn [SFdiv]. fold d dq.
  set (m1 := Z.to_pos (Z.pos (p * q) * 2 ^ (53 - d))). set (m2 := Z.to_pos (Z.pos q * 2 ^ (53 - dq))).
  assert (E1 : Z.pos m1 = Z.pos (p * q) * 2 ^ (53 - d)) by (apply Z2Pos.id; destruct (Hpos (p * q)%positive (53 - d)); [done|lia]).
  assert (E2 : Z.pos m2 = Z.pos q * 2 ^ (53 - dq)) by (apply Z2Pos.id; destruct (Hpos q (53 - dq)); [done|lia]).
  assert (D1 : ndigits m1 = 53) by (rewrite (ndigits_shift (p * q) m1 (53 - d)); [fold d; lia|lia|done]).
  assert (D2 : ndigits m2 = 53) by (rewrite (ndigits_shift q m2 (53 - dq)); [fold dq; lia|lia|done]).
  set (j := 53 - d + dq). set (m := Z.to_pos (Z.pos p * 2 ^ j)).
  assert (Em : Z.pos m = Z.pos p * 2 ^ j) by (apply Z2Pos.id; destruct (Hpos p j); [done|lia]).
  assert (Hcore : SFdiv_core_binary 53 1024 (Z.pos m1) (d - 53) (Z.pos m2) (dq - 53) = (Z.pos m, - j, loc_Exact)).
  { unfold SFdiv_core_binary. change (Zdigits2 (Z.pos m1)) with (ndigits m1). change (Zdigits2 (Z.pos m2)) with (ndigits m2).
    rewrite D1, D2, fexp_normal, Z.min_l by lia. replace (_ - _ - (_ - _ - 53)) with 53 by lia.
    assert (Hmul : Z.shiftl (Z.pos m1) 53 = Z.pos m * Z.pos m2).
    { rewrite Z.shiftl_mul_pow2 by lia. rewrite E1, E2, Em, Pos2Z.inj_mul.
      transitivity (Z.pos p * Z.pos q * (2 ^ (53 - d) * 2 ^ 53)); [ring|].
      replace (2 ^ (53 - d) * 2 ^ 53) with (2 ^ j * 2 ^ (53 - dq)); [ring|rewrite <- !Z.pow_add_r by lia; f_equal; lia]. }
    rewrite Hmul. pose proof (Z_div_mod (Z.pos m * Z.pos m2) (Z.pos m2) ltac:(lia)) as Hdm.
    destruct (Z.div_eucl (Z.pos m * Z.pos m2) (Z.pos m2)) as [u r]. destruct Hdm as [Hu Hr].
    assert (u = Z.pos m /\ r = 0) as [-> ->] by nia. f_equal; [f_equal; lia|].
    unfold new_location, new_location_even, new_location_odd. by destruct (Z.even _). }
  rewrite Hcore. apply round_int; [done|lia|done].
Qed.

(** *** Statements on integers *)

Lemma of_int_nonzero a : a <> 0 -> Z.abs a < 2 ^ 53 -> exists p, Z.abs a = Z.pos p /\ of_int a = int_float (a <? 0) p.
Proof.
  intros Ha Hb. destruct a as [|p|p]; [done|exists p..]; (split; [done|]); apply of_int_pos; exact Hb.
Qed.

Lemma of_int_mul a b : a <> 0 -> b <> 0 -> Z.abs (a * b) < 2 ^ 53 -> f_mul (of_int a) (of_int b) = of_int (a * b).
Proof.
  intros Ha Hb Hab. destruct (of_int_nonzero a Ha ltac:(nia)) as (p & Ep & ->).
  destruct (of_int_nonzero b Hb ltac:(nia)) as (q & Eq & ->).
  destruct (of_int_nonzero (a * b) ltac:(nia) Hab) as (r & Er & ->).
  rewrite Z.abs_mul, Ep, Eq in Er. rewrite int_float_mul by (rewrite Z.abs_mul, Ep, Eq in Hab; exact Hab).
  f_equal; [|lia]. destruct (Z.ltb_spec a 0), (Z.ltb_spec b 0), (Z.ltb_spec (a * b) 0); cbn; nia.
Qed.

Lemma of_int_div a b : a <> 0 -> b <> 0 -> Z.abs (a * b) < 2 ^ 53 -> f_div (of_int (a * b)) (of_int b) = of_int a.
Proof.
  intros Ha Hb Hab. destruct (of_int_nonzero a Ha ltac:(nia)) as (p & Ep & ->).
  destruct (of_int_nonzero b Hb ltac:(nia)) as (q & Eq & ->).
  destruct (of_int_nonzero (a * b) ltac:(nia) Hab) as (r & Er & ->).
  rewrite Z.abs_mul, Ep, Eq in Er, Hab. assert (r = (p * q)%positive) as -> by lia.
  rewrite int_float_div by exact Hab. f_equal. destruct (Z.ltb_spec a 0), (Z.ltb_spec b 0), (Z.ltb_spec (a * b) 0); cbn; nia.
Qed.

Lemma of_int_trunc a : Z.abs a < 2 ^ 53 -> trunc_float (of_int a) = Some a.
Proof.
  intros Ha. destruct (decide (a = 0)) as [->|Hne]; [done|]. destruct (of_int_nonzero a Hne Ha) as (p & Ep & ->).
  rewrite int_float_trunc by lia. f_equal. destruct (Z.ltb_spec a 0); lia.
Qed.

Lemma of_int_add_zero a : Z.abs a < 2 ^ 53 -> f_add (of_int a) (S754_zero false) = of_int a.
Proof.
  intros Ha. destruct (decide (a = 0)) as [->|Hne]; [done|]. by destruct (of_int_nonzero a Hne Ha) as (p & Ep & ->).
Qed.

Lemma of_int_sub_self a : Z.abs a < 2 ^ 53 -> f_sub (of_int a) (of_int a) = S754_zero false.
Proof.
  intros Ha. destruct (decide (a = 0)) as [->|Hne]; [done|]. destruct (of_int_nonzero a Hne Ha) as (p & Ep & ->).
  unfold f_sub, int_float. cbn [SFsub]. by rewrite Z.sub_diag.
Qed.

Lemma int_float_compare s p q :
  Z.pos p < 2 ^ 53 -> Z.pos q < 2 ^ 53 ->
  SFcompare (int_float s p) (int_float s q) = Some (if s then CompOpp (Z.pos p ?= Z.pos q) else Z.pos p ?= Z.pos q).
Proof.
  intros Hp Hq. pose proof (ndigits_le p 53 ltac:(lia) Hp). pose proof (ndigits_le q 53 ltac:(lia) Hq).
  destruct (ndigits_spec p) as (Lp & Ap & Bp). destruct (ndigits_spec q) as (Lq & Aq & Bq).
  unfold int_float. cbn [SFcompare].
  assert (Hc : match ndigits p - 53 ?= ndigits q - 53 with
               | Eq => Pos.compare_cont Eq (Z.to_pos (Z.pos p * 2 ^ (53 - ndigits p))) (Z.to_pos (Z.pos q * 2 ^ (53 - ndigits q)))
               | Lt => Lt | Gt => Gt end = (Z.pos p ?= Z.pos q)).
  { destruct (Z.compare_spec (ndigits p - 53) (ndigits q - 53)) as [E|E|E].
    - assert (ndigits q = ndigits p) as -> by lia.
      change (Pos.compare_cont Eq ?a ?b) with (Z.pos a ?= Z.pos b).
      assert (0 < 2 ^ (53 - ndigits p)) by (apply Z.pow_pos_nonneg; lia).
      rewrite !Z2Pos.id by (apply Z.mul_pos_pos; lia). symmetry. apply Zmult_compare_compat_r. lia.
    - symmetry. apply Z.compare_lt_iff. pose proof (Z.pow_le_mono_r 2 (ndigits p) (ndigits q - 1) ltac:(lia) ltac:(lia)). lia.
    - symmetry. apply Z.compare_gt_iff. pose proof (Z.pow_le_mono_r 2 (ndigits q) (ndigits p - 1) ltac:(lia) ltac:(lia)). lia. }
  rewrite <- Hc. destruct s; by destruct (ndigits p - 53 ?= ndigits q - 53).
Qed.

Lemma of_int_compare a b : Z.abs a < 2 ^ 53 -> Z.abs b < 2 ^ 53 -> SFcompare (of_int a) (of_int b) = Some (a ?= b).
Proof.
  intros Ha Hb. destruct a as [|p|p], b as [|q|q]; try (pose proof (of_int_pos p ltac:(exact Ha)) as [P1 P2]);
    try (pose proof (of_int_pos q ltac:(exact Hb)) as [Q1 Q2]); rewrite ?P1, ?P2, ?Q1, ?Q2; try done;
    rewrite int_float_compare by done; done.
Qed.

Lemma of_int_lt a b : Z.abs a < 2 ^ 53 -> Z.abs b < 2 ^ 53 -> f_lt (of_int a) (of_int b) = (a <? b).
Proof. intros. unfold f_lt, SFltb. rewrite of_int_compare by done. unfold Z.ltb. by destruct (a ?= b). Qed.
