(* ===== verification/UtlMatch.v ===== *)
(** * The UTL_MATCH package

    contrib/ivorysql_ora/src/builtin_packages/utl_match/utl_match.c: the edit
    distance by dynamic programming on two rows, and the matching and
    transposition counts of the Jaro similarity, and the similarities computed
    from these numbers in double precision. The comparisons are on bytes.
    Interrupt checks have no effect on the result and are left out, and [palloc]
    never refuses a row for its size. *)

From S2P Require Import Prelude Utf8 Float8.

(** ** Edit distance *)

Section edit_distance.
(** [palloc]: an array of the given length with unspecified contents. *)
Context (palloc : nat -> list Z).

(** [for (j = 0; j <= n2; j++) prev[j] = j]. *)
Fixpoint init_row (n j : nat) (prev : list Z) : list Z :=
  match n with
  | O => prev
  | S n' => init_row n' (S j) (<[j := Z.of_nat j]> prev)
  end.

(** The inner loop: columns [j ..] of row [i]. *)
Fixpoint edit_row (n j : nat) (s1 s2 : bytes) (i : nat) (prev curr : list Z) : list Z :=
  match n with
  | O => curr
  | S n' =>
      let cost := if byte_at s1 (i - 1) =? byte_at s2 (j - 1) then 0 else 1 in
      let del := prev !!! j + 1 in
      let ins := curr !!! (j - 1)%nat + 1 in
      let sub := prev !!! (j - 1)%nat + cost in
      let curr := <[j := Z.min del ins]> curr in
      let curr := <[j := Z.min (curr !!! j) sub]> curr in
      edit_row n' (S j) s1 s2 i prev curr
  end.

(** The outer loop; the rows are swapped at the end of each iteration. *)
Fixpoint edit_rows (n i : nat) (s1 s2 : bytes) (prev curr : list Z) : list Z :=
  match n with
  | O => prev
  | S n' =>
      let curr := edit_row (length s2) 1 s1 s2 i prev (<[0%nat := Z.of_nat i]> curr) in
      edit_rows n' (S i) s1 s2 curr prev
  end.

Definition edit_distance (s1 s2 : bytes) : Z :=
  if (length s1 =? 0)%nat then Z.of_nat (length s2)
  else if (length s2 =? 0)%nat then Z.of_nat (length s1)
  else if (length s1 =? length s2)%nat && bool_decide (s1 = s2) then 0
  else
    let '(s1, s2) := if (length s1 <? length s2)%nat then (s2, s1) else (s1, s2) in
    let n2 := length s2 in
    let prev := init_row (S n2) 0 (palloc (S n2)) in
    let curr := palloc (S n2) in
    edit_rows (length s1) 1 s1 s2 prev curr !!! n2.

(** [UTL_MATCH.EDIT_DISTANCE]; NULL is [None]. *)
Definition ora_utl_match_edit_distance (t1 t2 : option bytes) : Z :=
  match t1, t2 with
  | Some s1, Some s2 => edit_distance s1 s2
  | _, _ => -1
  end.

(** *** Rows hold the distances of prefixes *)

(** Distance of the prefixes of lengths [i] and [j]. *)
Fixpoint prefix_distance (s1 s2 : bytes) (i : nat) : nat -> Z :=
  fix row (j : nat) : Z :=
    match i, j with
    | O, _ => Z.of_nat j
    | _, O => Z.of_nat i
    | S i', S j' =>
        let cost := if byte_at s1 i' =? byte_at s2 j' then 0 else 1 in
        Z.min (Z.min (prefix_distance s1 s2 i' j + 1) (row j' + 1)) (prefix_distance s1 s2 i' j' + cost)
    end.

Lemma prefix_distance_0_l s1 s2 j : prefix_distance s1 s2 0 j = Z.of_nat j.
Proof. by destruct j. Qed.

Lemma prefix_distance_0_r s1 s2 i : prefix_distance s1 s2 i 0 = Z.of_nat i.
Proof. by destruct i. Qed.

Lemma prefix_distance_S s1 s2 i j :
  prefix_distance s1 s2 (S i) (S j) =
  Z.min (Z.min (prefix_distance s1 s2 i (S j) + 1) (prefix_distance s1 s2 (S i) j + 1))
        (prefix_distance s1 s2 i j + (if byte_at s1 i =? byte_at s2 j then 0 else 1)).
Proof. reflexivity. Qed.

(** The first [n] entries of a row are those distances. *)
Definition row_holds (s1 s2 : bytes) (i n : nat) (row : list Z) : Prop :=
  length row = S (length s2) /\ forall j, (j < n)%nat -> row !!! j = prefix_distance s1 s2 i j.

Lemma init_row_holds s1 s2 n : forall j prev, (j + n)%nat = S (length s2) ->
  row_holds s1 s2 0 j prev -> row_holds s1 s2 0 (S (length s2)) (init_row n j prev).
Proof.
  induction n as [|n IH]; intros j prev E [Hl Hj]; cbn [init_row].
  { replace (S (length s2)) with j by lia. done. }
  apply IH; [lia|]. split; [by rewrite length_insert|]. intros k Hk.
  destruct (decide (k = j)) as [->|].
  - rewrite list_lookup_total_insert_eq by lia. by rewrite prefix_distance_0_l.
  - rewrite list_lookup_total_insert_ne by done. apply Hj. lia.
Qed.

Lemma edit_row_holds s1 s2 i prev n : row_holds s1 s2 i (S (length s2)) prev ->
  forall j curr, (1 <= j)%nat -> (j + n)%nat = S (length s2) -> row_holds s1 s2 (S i) j curr ->
  row_holds s1 s2 (S i) (S (length s2)) (edit_row n j s1 s2 (S i) prev curr).
Proof.
  intros [Hpl Hp]. induction n as [|n IH]; intros j curr Hj1 E [Hl Hj]; cbn [edit_row].
  { replace (S (length s2)) with j by lia. done. }
  apply IH; [lia..|]. split; [by rewrite !length_insert|]. intros k Hk.
  destruct (decide (k = j)) as [->|].
  - rewrite list_lookup_total_insert_eq by (rewrite length_insert; lia).
    rewrite list_lookup_total_insert_eq by lia. rewrite !Hp, Hj by lia.
    destruct j as [|j]; [lia|]. rewrite prefix_distance_S.
    replace (S i - 1)%nat with i by lia. replace (S j - 1)%nat with j by lia. done.
  - rewrite !list_lookup_total_insert_ne by done. apply Hj. lia.
Qed.

Lemma edit_rows_holds s1 s2 n : forall i prev curr, length curr = S (length s2) ->
  row_holds s1 s2 i (S (length s2)) prev ->
  row_holds s1 s2 (i + n) (S (length s2)) (edit_rows n (S i) s1 s2 prev curr).
Proof.
  induction n as [|n IH]; intros i prev curr Hc Hp; cbn [edit_rows].
  { by rewrite Nat.add_0_r. }
  replace (i + S n)%nat with (S i + n)%nat by lia. apply IH; [by destruct Hp|].
  apply edit_row_holds; [done|lia|lia|]. split; [by rewrite length_insert|]. intros j Hj.
  assert (j = O) as -> by lia. rewrite list_lookup_total_insert_eq by lia. by rewrite prefix_distance_0_r.
Qed.

(** The two loops compute the distance of the whole strings. *)
Lemma edit_loops_distance s1 s2 : length (palloc (S (length s2))) = S (length s2) ->
  edit_rows (length s1) 1 s1 s2 (init_row (S (length s2)) 0 (palloc (S (length s2)))) (palloc (S (length s2))) !!! length s2 =
  prefix_distance s1 s2 (length s1) (length s2).
Proof.
  intros Hpalloc. apply (edit_rows_holds s1 s2 (length s1) 0); [done| |lia].
  apply init_row_holds; [lia|]. split; [done|lia].
Qed.

End edit_distance.

(** *** Distance and edit scripts *)

(** One edit of a byte string. *)
Inductive edit : bytes -> bytes -> Prop :=
  | edit_insert u c v : edit (u ++ v) (u ++ [c] ++ v)
  | edit_delete u c v : edit (u ++ [c] ++ v) (u ++ v)
  | edit_replace u c d v : edit (u ++ [c] ++ v) (u ++ [d] ++ v).

(** [n] edits in a row. *)
Inductive edits : nat -> bytes -> bytes -> Prop :=
  | edits_none s : edits 0 s s
  | edits_more n s t r : edit s t -> edits n t r -> edits (S n) s r.

(** Alignments: the last bytes are deleted, inserted, or matched. *)
Definition cost (a b : ascii) : nat := if ord a =? ord b then 0 else 1.

Inductive align : bytes -> bytes -> nat -> Prop :=
  | align_nil : align [] [] 0
  | align_del s t a n : align s t n -> align (s ++ [a]) t (S n)
  | align_ins s t b n : align s t n -> align s (t ++ [b]) (S n)
  | align_sub s t a b n : align s t n -> align (s ++ [a]) (t ++ [b]) (n + cost a b).

Lemma edits_snoc n s t u : edits n s t -> edits n (s ++ u) (t ++ u).
Proof.
  induction 1 as [|n s t r He _ IH]; [constructor|]. econstructor; [|exact IH].
  destruct He; rewrite <- !app_assoc; constructor.
Qed.

Lemma edits_trans n m s t r : edits n s t -> edits m t r -> edits (n + m) s r.
Proof. induction 1; [done|]. intros. cbn. econstructor; eauto. Qed.

Lemma edit_sym s t : edit s t -> edit t s.
Proof. destruct 1; constructor. Qed.

Lemma edits_sym n s t : edits n s t -> edits n t s.
Proof.
  induction 1 as [|n s t r He _ IH]; [constructor|]. rewrite <- Nat.add_1_r.
  eapply edits_trans; [exact IH|]. econstructor; [by apply edit_sym|constructor].
Qed.

Lemma align_edits s t n : align s t n -> edits n s t.
Proof.
  induction 1 as [|s t a n _ IH|s t b n _ IH|s t a b n _ IH]; [constructor|..].
  - econstructor; [|exact IH]. pose proof (edit_delete s a []) as H. by rewrite !app_nil_r in H.
  - rewrite <- Nat.add_1_r. eapply edits_trans; [exact IH|]. econstructor; [|constructor].
    pose proof (edit_insert t b []) as H. by rewrite !app_nil_r in H.
  - eapply edits_trans; [apply edits_snoc, IH|]. unfold cost. destruct (Z.eqb_spec (ord a) (ord b)) as [E|].
    + apply ord_inj in E as ->. constructor.
    + econstructor; [|constructor]. pose proof (edit_replace t a b []) as H. by rewrite !app_nil_r in H.
Qed.

Lemma snoc_case (v : bytes) : v = [] \/ exists v' x, v = v' ++ [x].
Proof. induction v as [|x v' _] using rev_ind; [by left|right; eauto]. Qed.

(** Replacing at most one byte changes the cost of an alignment by at most one. *)
Lemma align_change s' t m : align s' t m -> forall u x y v, s' = u ++ y ++ v ->
  (length x <= 1)%nat -> (length y <= 1)%nat -> exists m', (m' <= S m)%nat /\ align (u ++ x ++ v) t m'.
Proof.
  induction 1 as [|s t a n H IH|s t b n H IH|s t a b n H IH]; intros u x y v E Hx Hy.
  - symmetry in E. apply app_nil in E as [-> [-> ->]%app_nil]. rewrite app_nil_r. cbn [app].
    destruct x as [|a [|]]; [|exists 1%nat|cbn in Hx; lia]; [exists O; split; [lia|constructor]|].
    split; [lia|]. apply (align_del [] []). constructor.
  - destruct (snoc_case v) as [->|(v' & z & ->)].
    + rewrite app_nil_r in *. destruct y as [|c [|]]; [| |cbn in Hy; lia].
      * rewrite app_nil_r in E. subst u. destruct x as [|d [|]]; [rewrite app_nil_r| |cbn in Hx; lia].
        -- exists (S n). split; [lia|by constructor].
        -- exists (S (S n)). split; [lia|]. by do 2 constructor.
      * apply app_inj_tail in E as [<- <-]. destruct x as [|d [|]]; [rewrite app_nil_r| |cbn in Hx; lia].
        -- exists n. split; [lia|done].
        -- exists (S n). split; [lia|by constructor].
    + rewrite !app_assoc in E. apply app_inj_tail in E as [-> ->]. rewrite <- app_assoc in IH.
      destruct (IH u x y v' eq_refl Hx Hy) as (m' & Hm & Ha). exists (S m'). split; [lia|].
      rewrite !app_assoc. constructor. by rewrite <- app_assoc.
  - destruct (IH u x y v E Hx Hy) as (m' & Hm & Ha). exists (S m'). split; [lia|by constructor].
  - destruct (snoc_case v) as [->|(v' & z & ->)].
    + rewrite app_nil_r in *. destruct y as [|c [|]]; [| |cbn in Hy; lia].
      * rewrite app_nil_r in E. subst u. destruct x as [|d [|]]; [rewrite app_nil_r| |cbn in Hx; lia].
        -- exists (n + cost a b)%nat. split; [lia|by constructor].
        -- exists (S (n + cost a b)). split; [lia|]. by do 2 constructor.
      * apply app_inj_tail in E as [<- <-]. destruct x as [|d [|]]; [rewrite app_nil_r| |cbn in Hx; lia].
        -- exists (S n). split; [lia|by constructor].
        -- exists (n + cost d b)%nat. split; [unfold cost; repeat case_match; lia|by constructor].
    + rewrite !app_assoc in E. apply app_inj_tail in E as [-> ->]. rewrite <- app_assoc in IH.
      destruct (IH u x y v' eq_refl Hx Hy) as (m' & Hm & Ha). exists (m' + cost z b)%nat. split; [lia|].
      rewrite !app_assoc. constructor. by rewrite <- app_assoc.
Qed.

Lemma align_refl s : align s s 0.
Proof.
  induction s as [|x s IH] using rev_ind; [constructor|].
  pose proof (align_sub s s x x 0 IH) as H. unfold cost in H. by rewrite Z.eqb_refl in H.
Qed.

Lemma edits_align n s t : edits n s t -> exists m, (m <= n)%nat /\ align s t m.
Proof.
  induction 1 as [s|n s t r He _ (m & Hm & Ha)]; [exists O; split; [lia|apply align_refl]|].
  assert (exists u x y v, s = u ++ x ++ v /\ t = u ++ y ++ v /\ (length x <= 1)%nat /\ (length y <= 1)%nat)
    as (u & x & y & v & -> & -> & Hx & Hy).
  { destruct He as [u c v|u c v|u c d v]; [exists u, [], [c], v|exists u, [c], [], v|exists u, [c], [d], v]; auto. }
  destruct (align_change _ _ _ Ha u x y v eq_refl Hx Hy) as (m' & Hm' & Ha'). exists m'. split; [lia|done].
Qed.

Lemma take_S_byte (s : bytes) i : (i < length s)%nat -> take (S i) s = take i s ++ [nth i s "000"%char].
Proof.
  intros H. destruct (lookup_lt_is_Some_2 s i H) as [x Hx].
  by rewrite (take_S_r _ _ _ Hx), (nth_lookup_Some _ _ "000"%char _ Hx).
Qed.

Lemma prefix_distance_nonneg s1 s2 i : forall j, 0 <= prefix_distance s1 s2 i j.
Proof.
  induction i as [|i IHi]; [intros; rewrite prefix_distance_0_l; lia|].
  induction j as [|j IHj]; [rewrite prefix_distance_0_r; lia|]. rewrite prefix_distance_S.
  pose proof (IHi (S j)). pose proof (IHi j). case_match; lia.
Qed.

(** An alignment of that cost exists. *)
Lemma distance_align s1 s2 i : (i <= length s1)%nat -> forall j, (j <= length s2)%nat ->
  align (take i s1) (take j s2) (Z.to_nat (prefix_distance s1 s2 i j)).
Proof.
  induction i as [|i IHi]; intros Hi; induction j as [|j IHj]; intros Hj.
  - constructor.
  - rewrite take_S_byte, prefix_distance_0_l by lia. specialize (IHj ltac:(lia)).
    rewrite prefix_distance_0_l in IHj. rewrite Nat2Z.id in *. by constructor.
  - rewrite take_S_byte, prefix_distance_0_r by lia. specialize (IHi ltac:(lia) O ltac:(lia)).
    rewrite prefix_distance_0_r in IHi. rewrite Nat2Z.id in *. by constructor.
  - pose proof (prefix_distance_nonneg s1 s2 i (S j)). pose proof (prefix_distance_nonneg s1 s2 (S i) j).
    pose proof (prefix_distance_nonneg s1 s2 i j).
    pose proof (align_del _ _ (nth i s1 "000"%char) _ (IHi ltac:(lia) (S j) Hj)) as Hdel.
    pose proof (align_ins _ _ (nth j s2 "000"%char) _ (IHj ltac:(lia))) as Hins.
    pose proof (align_sub _ _ (nth i s1 "000"%char) (nth j s2 "000"%char) _ (IHi ltac:(lia) j ltac:(lia))) as Hsub.
    rewrite <- take_S_byte in Hdel, Hins, Hsub by lia. rewrite <- take_S_byte in Hsub by lia.
    unfold cost in Hsub. fold (byte_at s1 i) (byte_at s2 j) in Hsub.
    rewrite prefix_distance_S. set (c := if byte_at s1 i =? byte_at s2 j then 0 else 1).
    assert (Z.to_nat c = (if byte_at s1 i =? byte_at s2 j then 0%nat else 1%nat) /\ 0 <= c) as [Ec Hc] by (unfold c; by case_match).
    rewrite <- Ec in Hsub.
    destruct (Z.min_spec (Z.min (prefix_distance s1 s2 i (S j) + 1) (prefix_distance s1 s2 (S i) j + 1))
                (prefix_distance s1 s2 i j + c)) as [[_ ->]|[_ ->]].
    + destruct (Z.min_spec (prefix_distance s1 s2 i (S j) + 1) (prefix_distance s1 s2 (S i) j + 1)) as [[_ ->]|[_ ->]].
      * by replace (Z.to_nat (_ + 1)) with (S (Z.to_nat (prefix_distance s1 s2 i (S j)))) by lia.
      * by replace (Z.to_nat (_ + 1)) with (S (Z.to_nat (prefix_distance s1 s2 (S i) j))) by lia.
    + by rewrite Z2Nat.inj_add by lia.
Qed.

(** Only the prefixes matter. *)
Lemma prefix_distance_app s1 s2 u1 u2 i : (i <= length s1)%nat -> forall j, (j <= length s2)%nat ->
  prefix_distance (s1 ++ u1) (s2 ++ u2) i j = prefix_distance s1 s2 i j.
Proof.
  induction i as [|i IHi]; intros Hi; induction j as [|j IHj]; intros Hj;
    rewrite ?prefix_distance_0_l, ?prefix_distance_0_r; try done.
  rewrite !prefix_distance_S, !byte_at_app by lia. by rewrite !IHi, IHj by lia.
Qed.

(** No alignment costs less. *)
Lemma align_distance s t n : align s t n -> prefix_distance s t (length s) (length t) <= Z.of_nat n.
Proof.
  induction 1 as [|s t a n _ IH|s t b n _ IH|s t a b n _ IH]; [done|..].
  - rewrite length_app. cbn [length]. rewrite Nat.add_1_r.
    assert (prefix_distance (s ++ [a]) t (length s) (length t) = prefix_distance s t (length s) (length t)) as E.
    { rewrite <- (app_nil_r t) at 1. by apply prefix_distance_app. }
    destruct (length t) as [|j]; [rewrite prefix_distance_0_r in *; lia|]. rewrite prefix_distance_S, E. lia.
  - rewrite length_app. cbn [length]. rewrite Nat.add_1_r.
    assert (prefix_distance s (t ++ [b]) (length s) (length t) = prefix_distance s t (length s) (length t)) as E.
    { rewrite <- (app_nil_r s) at 1. by apply prefix_distance_app. }
    destruct (length s) as [|i]; [rewrite prefix_distance_0_l in *; lia|]. rewrite prefix_distance_S, E. lia.
  - rewrite !length_app. cbn [length]. rewrite !Nat.add_1_r, prefix_distance_S.
    rewrite (prefix_distance_app s t [a] [b] _ (Nat.le_refl _) _ (Nat.le_refl _)).
    unfold byte_at. rewrite !app_nth2, !Nat.sub_diag by lia. cbn [nth]. unfold cost. case_match; lia.
Qed.

(** The distance is the least number of edits. *)
Definition least_edits (d : Z) (s1 s2 : bytes) : Prop :=
  0 <= d /\ edits (Z.to_nat d) s1 s2 /\ forall n, edits n s1 s2 -> d <= Z.of_nat n.

Lemma prefix_distance_least s1 s2 : least_edits (prefix_distance s1 s2 (length s1) (length s2)) s1 s2.
Proof.
  split_and!.
  - apply prefix_distance_nonneg.
  - apply align_edits. pose proof (distance_align s1 s2 _ (Nat.le_refl _) _ (Nat.le_refl _)) as H.
    by rewrite !firstn_all in H.
  - intros n (m & Hm & Ha)%edits_align. apply align_distance in Ha. lia.
Qed.

Lemma least_edits_sym d s1 s2 : least_edits d s1 s2 -> least_edits d s2 s1.
Proof. intros (H1 & H2%edits_sym & H3). split_and!; [done..|]. intros n H%edits_sym. by apply H3. Qed.

Lemma edit_distance_least_edits (palloc : nat -> list Z) s1 s2 : (forall n, length (palloc n) = n) ->
  least_edits (edit_distance palloc s1 s2) s1 s2.
Proof.
  intros Hp. unfold edit_distance.
  destruct (Nat.eqb_spec (length s1) 0) as [E1|].
  { pose proof (prefix_distance_least s1 s2) as H. by rewrite E1, prefix_distance_0_l in H. }
  destruct (Nat.eqb_spec (length s2) 0) as [E2|].
  { pose proof (prefix_distance_least s1 s2) as H. by rewrite E2, prefix_distance_0_r in H. }
  destruct (_ && _) eqn:E.
  { apply andb_true_iff in E as [_ ->%bool_decide_eq_true]. split_and!; [lia|constructor|lia]. }
  destruct (Nat.ltb_spec (length s1) (length s2)).
  - apply least_edits_sym. rewrite edit_loops_distance by done. apply prefix_distance_least.
  - rewrite edit_loops_distance by done. apply prefix_distance_least.
Qed.

(** C16. EDIT_DISTANCE is the edit distance: the two-row computation, with its
    shortcuts and the swap of its arguments, and whatever the freshly allocated
    rows contain, returns the least number of byte insertions, deletions and
    replacements that turn one string into the other; NULL gives -1. *)
Theorem edit_distance_least (palloc : nat -> list Z) s1 s2 : (forall n, length (palloc n) = n) ->
  least_edits (ora_utl_match_edit_distance palloc (Some s1) (Some s2)) s1 s2.
Proof. intros Hp. by apply edit_distance_least_edits. Qed.

(** An example of the Oracle documentation. *)
Lemma edit_distance_least_witness :
  (forall n, length (replicate n 7) = n) /\
  ora_utl_match_edit_distance (fun n => replicate n 7) (Some (lit "shackleford")) (Some (lit "shackelford")) = 2 /\
  least_edits 2 (lit "shackleford") (lit "shackelford").
Proof.
  split; [intros; apply length_replicate|]. split; [vm_compute; reflexivity|].
  exact (edit_distance_least (fun n => replicate n 7) (lit "shackleford") (lit "shackelford")
           ltac:(intros; apply length_replicate)).
Defined.

(** ** Jaro: matches and transpositions *)

(** The search of a free equal byte of [s2] from [j] on, [n] positions. *)
Fixpoint find_match (n j : nat) (c : Z) (s2 : bytes) (s2match : list bool) : option nat :=
  match n with
  | O => None
  | S n' =>
      if negb (s2match !!! j) && (c =? byte_at s2 j) then Some j else find_match n' (S j) c s2 s2match
  end.

Definition jaro_window (n1 n2 : nat) : nat :=
  let window := ((if n2 <? n1 then n1 else n2) / 2)%nat in
  if (0 <? window)%nat then (window - 1)%nat else window.

(** The matching loop: [s1match], [s2match] and [m]. *)
Fixpoint jaro_matches (n i window : nat) (s1 s2 : bytes) (s1match s2match : list bool) (m : nat)
    : list bool * list bool * nat :=
  match n with
  | O => (s1match, s2match, m)
  | S n' =>
      let lo := if (window <? i)%nat then (i - window)%nat else 0%nat in
      let hi := Nat.min (i + window + 1) (length s2) in
      match find_match (hi - lo) lo (byte_at s1 i) s2 s2match with
      | Some j => jaro_matches n' (S i) window s1 s2 (<[i := true]> s1match) (<[j := true]> s2match) (S m)
      | None => jaro_matches n' (S i) window s1 s2 s1match s2match m
      end
  end.

(** [while (!s2match[j]) j++]; [None] is a read past the end of the array. *)
Fixpoint skip_unmatched (fuel j : nat) (s2match : list bool) : option nat :=
  match fuel with
  | O => None
  | S fuel' =>
      match s2match !! j with
      | None => None
      | Some true => Some j
      | Some false => skip_unmatched fuel' (S j) s2match
      end
  end.

(** The transposition loop. *)
Fixpoint jaro_transpositions (n i j : nat) (s1 s2 : bytes) (s1match s2match : list bool) (t : nat) : option nat :=
  match n with
  | O => Some t
  | S n' =>
      if (s1match !!! i : bool) then
        j ← skip_unmatched (S (length s2match)) j s2match;
        jaro_transpositions n' (S i) (S j) s1 s2 s1match s2match
          (if negb (byte_at s1 i =? byte_at s2 j) then S t else t)
      else jaro_transpositions n' (S i) j s1 s2 s1match s2match t
  end.

(** The counts [m] and [t] of [jaro], for strings that are not empty. *)
Definition jaro_counts (s1 s2 : bytes) : option (nat * nat) :=
  match jaro_matches (length s1) 0 (jaro_window (length s1) (length s2)) s1 s2
          (replicate (length s1) false) (replicate (length s2) false) 0 with
  | (s1match, s2match, m) =>
      t ← jaro_transpositions (length s1) 0 0 s1 s2 s1match s2match 0; Some (m, t)
  end.

(** *** The arrays agree *)

(** Marked positions from [k] on. *)
Definition marks (k : nat) (l : list bool) : nat := length (filter (fun b => b = true) (drop k l)).

Lemma marks_S k l : (k < length l)%nat -> marks k l = ((if (l !!! k : bool) then 1 else 0) + marks (S k) l)%nat.
Proof.
  intros Hk. destruct (lookup_lt_is_Some_2 l k Hk) as [b Hb].
  unfold marks. rewrite (drop_S _ _ _ Hb), (list_lookup_total_correct _ _ _ Hb).
  destruct b; [by rewrite filter_cons_True|by rewrite filter_cons_False].
Qed.

Lemma marks_le k l : (marks k l <= length l - k)%nat.
Proof. unfold marks. rewrite length_filter, length_drop. done. Qed.

Lemma marks_insert i l : (i < length l)%nat -> l !!! i = false -> marks 0 (<[i := true]> l) = S (marks 0 l).
Proof.
  unfold marks. rewrite !drop_0. revert l. induction i as [|i IH]; intros [|x l] Hi Hf; cbn in Hi; try lia.
  - cbn in Hf. subst x. done.
  - specialize (IH l ltac:(lia) Hf).
    change (<[S i := true]> (x :: l)) with (x :: <[i := true]> l). destruct x.
    + rewrite !filter_cons_True by done. cbn. by rewrite IH.
    + by rewrite !filter_cons_False by done.
Qed.

Lemma find_match_spec n j c s2 l k : (j + n <= length s2)%nat -> find_match n j c s2 l = Some k ->
  (k < length s2)%nat /\ l !!! k = false /\ c = byte_at s2 k.
Proof.
  revert j. induction n as [|n IH]; intros j Hn; [done|]. cbn [find_match].
  destruct (_ && _) eqn:E; [|apply IH; lia]. intros [= <-]. apply andb_true_iff in E as [E1%negb_true_iff E2].
  split_and!; [lia|done|lia].
Qed.

Lemma jaro_matches_marks n : forall i window s1 s2 a b m, (i + n)%nat = length s1 ->
  length a = length s1 -> length b = length s2 -> marks 0 a = m -> marks 0 b = m ->
  (forall k, (i <= k < length s1)%nat -> a !!! k = false) ->
  match jaro_matches n i window s1 s2 a b m with
  | (a', b', m') => length a' = length s1 /\ length b' = length s2 /\ marks 0 a' = m' /\ marks 0 b' = m'
  end.
Proof.
  induction n as [|n IH]; intros i window s1 s2 a b m Hi Ha Hb Hma Hmb Hf; cbn [jaro_matches]; [done|].
  set (lo := if (window <? i)%nat then _ else _). set (hi := Nat.min _ _).
  destruct (find_match (hi - lo) lo (byte_at s1 i) s2 b) as [j|] eqn:E.
  - destruct (Nat.le_gt_cases hi lo) as [Hle|Hgt]; [by replace (hi - lo)%nat with O in E by lia|].
    apply find_match_spec in E as (Hj & Hbj & _); [|unfold hi in *; lia].
    apply IH; rewrite ?length_insert; try lia.
    + rewrite marks_insert; [lia..|]. apply Hf. lia.
    + rewrite marks_insert by (lia || done). lia.
    + intros k Hk. rewrite list_lookup_total_insert_ne by lia. apply Hf. lia.
  - apply IH; try done; [lia|]. intros k Hk. apply Hf. lia.
Qed.

Lemma skip_unmatched_spec fuel : forall j l, (length l < j + fuel)%nat -> (0 < marks j l)%nat ->
  exists k, skip_unmatched fuel j l = Some k /\ l !! k = Some true /\ marks j l = S (marks (S k) l).
Proof.
  induction fuel as [|fuel IH]; intros j l Hf Hm; pose proof (marks_le j l) as Hle; [lia|].
  cbn [skip_unmatched]. destruct (lookup_lt_is_Some_2 l j) as [b Hb]; [lia|]. rewrite Hb.
  pose proof (marks_S j l ltac:(lia)) as E. rewrite (list_lookup_total_correct _ _ _ Hb) in E. destruct b.
  - exists j. split_and!; [done..|lia].
  - destruct (IH (S j) l) as (k & -> & H1 & H2); [lia..|]. exists k. split_and!; [done..|lia].
Qed.

Lemma jaro_transpositions_spec n : forall i j s1 s2 a b t, (i + n)%nat = length a -> marks i a = marks j b ->
  exists t', jaro_transpositions n i j s1 s2 a b t = Some t' /\ (t <= t' <= t + marks i a)%nat.
Proof.
  induction n as [|n IH]; intros i j s1 s2 a b t Hi Hm; cbn [jaro_transpositions].
  { exists t. split; [done|lia]. }
  pose proof (marks_S i a ltac:(lia)) as E. destruct (a !!! i : bool).
  - destruct (skip_unmatched_spec (S (length b)) j b) as (k & -> & _ & Hk); [lia..|]. cbn [mbind option_bind].
    destruct (IH (S i) (S k) s1 s2 a b (if negb (byte_at s1 i =? byte_at s2 k) then S t else t)) as (t' & -> & Ht);
      [lia..|]. exists t'. split; [done|]. revert Ht. case_match; lia.
  - destruct (IH (S i) j s1 s2 a b t) as (t' & -> & Ht); [lia..|]. exists t'. split; [done|lia].
Qed.

(** The Jaro counts are safe and bounded: the scan for the next matched byte
    of the second string never leaves its array, and at most [min(n1, n2)] bytes
    match, of which at most all are transposed, so the similarity computed from
    them divides by no zero and lies between 0 and 1. *)
Theorem jaro_counts_bounded s1 s2 :
  exists m t, jaro_counts s1 s2 = Some (m, t) /\ (t <= m <= Nat.min (length s1) (length s2))%nat.
Proof.
  unfold jaro_counts.
  pose proof (jaro_matches_marks (length s1) 0 (jaro_window (length s1) (length s2)) s1 s2
    (replicate (length s1) false) (replicate (length s2) false) 0) as H.
  destruct (jaro_matches _ _ _ _ _ _ _ _) as [[a b] m]. destruct H as (Ha & Hb & Hma & Hmb).
  - done.
  - apply length_replicate.
  - apply length_replicate.
  - unfold marks. rewrite drop_0. induction (length s1); [done|]. cbn [replicate].
    by rewrite filter_cons_False.
  - unfold marks. rewrite drop_0. induction (length s2); [done|]. cbn [replicate].
    by rewrite filter_cons_False.
  - intros k [_ Hk]. by apply lookup_total_replicate_2.
  - destruct (jaro_transpositions_spec (length s1) 0 0 s1 s2 a b 0) as (t & -> & Ht); [lia..|].
    exists m, t. split; [done|]. pose proof (marks_le 0 a). pose proof (marks_le 0 b). lia.
Qed.

(** ** Similarities *)

(** [(int) floor(v + 0.5)]; [None] if the value does not fit an int. *)
Definition floor_float (x : float8) : option Z :=
  match x with
  | S754_zero _ => Some 0
  | S754_finite s m e =>
      let z := if s then Z.neg m else Z.pos m in
      Some (if 0 <=? e then z * 2 ^ e else z / 2 ^ (- e))
  | _ => None
  end.

Definition round_to_int (v : float8) : option Z :=
  z ← floor_float (f_add v (lit_frac 1 2));
  if bool_decide (is_int32 z) then Some z else None.

Definition edit_distance_similarity (palloc : nat -> list Z) (s1 s2 : bytes) : option Z :=
  let ed := edit_distance palloc s1 s2 in
  let max := Z.of_nat (if (length s2 <? length s1)%nat then length s1 else length s2) in
  if max =? 0 then Some 100
  else
    let sim := f_mul (f_sub (of_int 1) (f_div (of_int ed) (of_int max))) (of_int 100) in
    round_to_int (if f_lt sim (of_int 0) then of_int 0 else sim).

Definition ora_utl_match_edit_distance_similarity (palloc : nat -> list Z) (t1 t2 : option bytes) : option Z :=
  match t1, t2 with
  | None, None => Some 100
  | Some s1, Some s2 => edit_distance_similarity palloc s1 s2
  | _, _ => Some 0
  end.

(** [None] would be a read outside the match arrays. *)
Definition jaro (s1 s2 : bytes) : option float8 :=
  let n1 := Z.of_nat (length s1) in
  let n2 := Z.of_nat (length s2) in
  if (n1 =? 0) || (n2 =? 0) then Some (of_int 0)
  else if (n1 =? n2) && bool_decide (s1 = s2) then Some (of_int 1)
  else
    '(m, t) ← jaro_counts s1 s2;
    let m := Z.of_nat m in
    let t := Z.of_nat t in
    if m =? 0 then Some (of_int 0)
    else
      Some (f_div (f_add (f_add (f_div (of_int m) (of_int n1)) (f_div (of_int m) (of_int n2)))
                         (f_div (of_int (m - Z.quot t 2)) (of_int m))) (of_int 3)).

(** The length of the common prefix, at most [n]. *)
Fixpoint common_prefix (n : nat) (s1 s2 : bytes) : nat :=
  match n, s1, s2 with
  | S n', c1 :: s1', c2 :: s2' => if ord c1 =? ord c2 then S (common_prefix n' s1' s2') else O
  | _, _, _ => O
  end.

Definition jaro_winkler (s1 s2 : bytes) : option float8 :=
  j ← jaro s1 s2;
  let p := Z.of_nat (common_prefix 4 s1 s2) in
  Some (f_add j (f_mul (f_mul (of_int p) (lit_frac 1 10)) (f_sub (of_int 1) j))).

Definition ora_utl_match_jaro_winkler (t1 t2 : option bytes) : option float8 :=
  match t1, t2 with
  | Some s1, Some s2 => jaro_winkler s1 s2
  | _, _ => Some (of_int 0)
  end.

Definition ora_utl_match_jaro_winkler_similarity (t1 t2 : option bytes) : option Z :=
  match t1, t2 with
  | Some s1, Some s2 => jw ← jaro_winkler s1 s2; round_to_int (f_mul jw (of_int 100))
  | _, _ => Some 0
  end.

Lemma least_edits_unique d d' s1 s2 : least_edits d s1 s2 -> least_edits d' s1 s2 -> d = d'.
Proof. intros (H1 & H2 & H3) (H1' & H2' & H3'). specialize (H3 _ H2'). specialize (H3' _ H2). lia. Qed.

Lemma similarity_lengths (s1 s2 : bytes) :
  (if (length s2 <? length s1)%nat then length s1 else length s2) = Nat.max (length s1) (length s2).
Proof. destruct (Nat.ltb_spec (length s2) (length s1)); lia. Qed.

(** EDIT_DISTANCE_SIMILARITY is symmetric, is 100 for equal strings and 0 for
    strings as far apart as their lengths allow; no rounding of the doubles
    disturbs these values. *)
Theorem edit_distance_similarity_extremes (palloc : nat -> list Z) s1 s2 :
  (forall n, length (palloc n) = n) -> Z.of_nat (Nat.max (length s1) (length s2)) <= INT_MAX ->
  let sim := edit_distance_similarity palloc in
  sim s1 s2 = sim s2 s1 /\ (s1 = s2 -> sim s1 s2 = Some 100) /\
  (forall n, n = Nat.max (length s1) (length s2) -> (0 < n)%nat ->
    (forall k, edits k s1 s2 -> (n <= k)%nat) -> edits n s1 s2 -> sim s1 s2 = Some 0).
Proof.
  intros Hp Hlen. cbv zeta. unfold edit_distance_similarity.
  pose proof (edit_distance_least_edits palloc s1 s2 Hp) as L1.
  pose proof (edit_distance_least_edits palloc s2 s1 Hp) as L2.
  rewrite !similarity_lengths, (Nat.max_comm (length s2)).
  rewrite (least_edits_unique _ _ _ _ (least_edits_sym _ _ _ L2) L1). split; [done|].
  set (n := Nat.max (length s1) (length s2)) in *. split.
  - intros ->. assert (edit_distance palloc s2 s2 = 0) as ->.
    { apply (least_edits_unique _ _ s2 s2 L1). split_and!; [lia|constructor|lia]. }
    destruct (Z.eqb_spec (Z.of_nat n) 0); [done|].
    destruct (of_int_nonzero (Z.of_nat n)) as (q & _ & ->); [lia|unfold INT_MAX in Hlen; lia|]. vm_compute. reflexivity.
  - intros n' -> Hn Hleast He. assert (edit_distance palloc s1 s2 = Z.of_nat n) as ->.
    { apply (least_edits_unique _ _ s1 s2 L1). split_and!; [lia|by rewrite Nat2Z.id|]. intros k Hk. specialize (Hleast k Hk). lia. }
    replace (Z.of_nat n =? 0) with false by lia.
    assert (f_div (of_int (Z.of_nat n)) (of_int (Z.of_nat n)) = of_int 1) as ->.
    { rewrite <- (Z.mul_1_l (Z.of_nat n)) at 1. apply of_int_div; unfold INT_MAX in Hlen; lia. }
    vm_compute. reflexivity.
Qed.

Lemma edit_distance_similarity_extremes_witness :
  edit_distance_similarity (fun n => replicate n 7) (lit "abc") (lit "abc") = Some 100.
Proof.
  refine (proj1 (proj2 (edit_distance_similarity_extremes (fun n => replicate n 7) (lit "abc") (lit "abc") _ _)) eq_refl).
  - intros. apply length_replicate.
  - vm_compute. discriminate.
Defined.

(** JARO_WINKLER of a string with itself is 1, its percentage 100. *)
Lemma jaro_winkler_self s :
  s <> [] -> jaro_winkler s s = Some (of_int 1) /\ ora_utl_match_jaro_winkler_similarity (Some s) (Some s) = Some 100.
Proof.
  intros Hs. assert (Hj : jaro_winkler s s = Some (of_int 1)).
  { unfold jaro_winkler, jaro. destruct s as [|c s]; [done|]. assert ((Z.of_nat (length (c :: s)) =? 0) = false) as -> by reflexivity. cbn [orb].
    rewrite Z.eqb_refl, bool_decide_eq_true_2 by done. cbn [andb mbind option_bind].
    assert (Hp : (common_prefix 4 (c :: s) (c :: s) <= 4)%nat).
    { clear. assert (H : forall n s t, (common_prefix n s t <= n)%nat); [|apply H].
      induction n as [|n IH]; intros [|a u] [|b v]; cbn; try lia. case_match; [specialize (IH u v)|]; lia. }
    destruct (common_prefix 4 (c :: s) (c :: s)) as [|[|[|[|[|k]]]]]; [vm_compute; reflexivity..|lia]. }
  split; [done|]. cbn [ora_utl_match_jaro_winkler_similarity]. rewrite Hj. vm_compute. reflexivity.
Qed.
