(* ===== verification/OraDate.v ===== *)
(** * Oracle date functions

    contrib/ivorysql_ora/src/builtin_functions/datetime_datatype_functions.c:
    LAST_DAY, ADD_MONTHS, NEXT_DAY, ROUND and TRUNC of dates, NEW_TIME, on top of
    [j2date], [date2j], [timestamp2tm] and [tm2timestamp].

    An Oracle DATE is a PostgreSQL timestamp: microseconds since 2000-01-01.
    [stamp y m d tod] is the timestamp of a civil date and a time of day; the
    theorems state what each function does to it.  The word in memory before the
    table [month_days], which ADD_MONTHS can read, is the argument [before]. *)

From S2P Require Import Prelude Gregorian TimeZone Timestamp Encoding MbUtils.

(** ** Case-insensitive comparison (src/port/pgstrcasecmp.c)

    [isupper] and [tolower] of the C library, which depend on the locale, are
    consulted for bytes above 127 only. *)

Record ctype := mk_ctype { isupper : Z -> bool; tolower : Z -> Z }.

Definition fold_case (lc : ctype) (ch : Z) : Z :=
  if (65 <=? ch) && (ch <=? 90) then ch + 32
  else if (128 <=? ch) && isupper lc ch then tolower lc ch
  else ch.

(** A C string reads as zero from its end on. *)
Definition head_byte (s : bytes) : Z := match s with [] => 0 | c :: _ => ord c end.

Fixpoint pg_strncasecmp (lc : ctype) (s1 s2 : bytes) (n : nat) : Z :=
  match n with
  | O => 0
  | S n' =>
      let ch1 := head_byte s1 in
      let ch2 := head_byte s2 in
      if negb (ch1 =? ch2) then
        let ch1 := fold_case lc ch1 in
        let ch2 := fold_case lc ch2 in
        if negb (ch1 =? ch2) then ch1 - ch2
        else if ch1 =? 0 then 0 else pg_strncasecmp lc (tail s1) (tail s2) n'
      else if ch1 =? 0 then 0 else pg_strncasecmp lc (tail s1) (tail s2) n'
  end.

(** The loops over a NULL-terminated array of names: index of the first hit, -1
    without one. *)
Fixpoint search_from (hit : bytes -> bool) (array : list bytes) (i : Z) : Z :=
  match array with
  | [] => -1
  | a :: rest => if hit a then i else search_from hit rest (i + 1)
  end.

Definition ora_seq_search (lc : ctype) (name : bytes) (array : list bytes) (max : nat) : Z :=
  if head_byte name =? 0 then -1
  else search_from (fun a => (length a =? max)%nat && (pg_strncasecmp lc name a max =? 0)) array 0.

Definition ora_seq_prefix_search (lc : ctype) (name : bytes) (array : list bytes) (max : nat) : Z :=
  if head_byte name =? 0 then -1
  else search_from (fun a => pg_strncasecmp lc name a max =? 0) array 0.

Definition weekday_search (lc : ctype) (weekdays : list bytes) (str : bytes) (len : nat) : Z :=
  search_from (fun a => negb (len <? length a)%nat && (pg_strncasecmp lc a str (length a) =? 0)) weekdays 0.

Definition CHECK_SEQ_SEARCH (l : Z) (s : string) : result unit :=
  if l <? 0 then ereport ERRCODE_INVALID_DATETIME_FORMAT ("invalid value for " +:+ s) else Ok tt.

(** ** Tables *)

Definition ora_days : list bytes :=
  map lit ["Sunday"; "Monday"; "Tuesday"; "Wednesday"; "Thursday"; "Friday"; "Saturday"].

(** The UTF-8 names of [WEEKDAYS[0]]. *)
Definition WEEKDAYS_UTF8 : list bytes :=
  map (map chr)
    [[230; 152; 159; 230; 156; 159; 230; 151; 165]; [230; 152; 159; 230; 156; 159; 228; 184; 128];
     [230; 152; 159; 230; 156; 159; 228; 186; 140]; [230; 152; 159; 230; 156; 159; 228; 184; 137];
     [230; 152; 159; 230; 156; 159; 229; 155; 155]; [230; 152; 159; 230; 156; 159; 228; 186; 148];
     [230; 152; 159; 230; 156; 159; 229; 133; 173]].

Definition month_days_tab : list Z := [31; 28; 31; 30; 31; 30; 31; 31; 30; 31; 30; 31].

Definition date_fmt : list bytes :=
  map lit ["Y"; "Yy"; "Yyy"; "Yyyy"; "Year"; "Syyyy"; "syear"; "I"; "Iy"; "Iyy"; "Iyyy"; "Q"; "Ww"; "Iw"; "W";
           "Day"; "Dy"; "D"; "Month"; "Mon"; "Mm"; "Rm"; "Cc"; "Scc"; "Ddd"; "Dd"; "J"; "Hh"; "Hh12"; "Hh24"; "Mi"].

(** The [CASE_fmt_...] groups of indexes into [date_fmt]. *)
Inductive fmt_case :=
  | fmt_YYYY | fmt_IYYY | fmt_Q | fmt_WW | fmt_IW | fmt_W | fmt_DAY | fmt_MON | fmt_CC | fmt_DDD | fmt_HH | fmt_MI.

#[export] Instance fmt_case_eq_dec : EqDecision fmt_case.
Proof. solve_decision. Defined.

Definition case_of (f : Z) : fmt_case :=
  if f <=? 6 then fmt_YYYY else if f <=? 10 then fmt_IYYY else if f =? 11 then fmt_Q
  else if f =? 12 then fmt_WW else if f =? 13 then fmt_IW else if f =? 14 then fmt_W
  else if f <=? 17 then fmt_DAY else if f <=? 21 then fmt_MON else if f <=? 23 then fmt_CC
  else if f <=? 26 then fmt_DDD else if f <=? 29 then fmt_HH else fmt_MI.

(** ** Days *)

Definition days_of_month (before y m : Z) : result Z :=
  if (m <? 0) || (12 <? m) then ereport ERRCODE_DATETIME_VALUE_OUT_OF_RANGE "date out of range"
  else
    let days := if m =? 0 then before else nth (Z.to_nat (m - 1)) month_days_tab 0 in
    if (m =? 2) && ((Z.rem y 400 =? 0) || ((Z.rem y 4 =? 0) && negb (Z.rem y 100 =? 0))) then Ok (days + 1)
    else Ok days.

Definition DATE2J (ss : session) (y m d : Z) : result Z :=
  j ← date2j ss y m d; Ok (j - POSTGRES_EPOCH_JDATE).

Definition J2DAY (date : Z) : Z := j2day (date + POSTGRES_EPOCH_JDATE).

Definition last_day (ss : session) (before time : Z) : result Z :=
  let '(date, time) := split_day time in
  let date := date + POSTGRES_EPOCH_JDATE in
  let '(y, m, _) := j2date date in
  last_day ← days_of_month before y m;
  r ← DATE2J ss y m last_day;
  Ok (int64 (int64 (r * USECS_PER_DAY) + time)).

(** [num] is the number of months after the conversion by [numeric_int8], which
    rounds and raises the error for a number out of range. *)
Definition add_months (ss : session) (before time num : Z) : result Z :=
  let n := int32 num in
  let '(date, time) := split_day time in
  let date := date + POSTGRES_EPOCH_JDATE in
  let '(y, m, d) := j2date date in
  dim ← days_of_month before y m;
  let last_day := d =? dim in
  let v := int32 (y * 12 + m - 1 + n) in
  let y := Z.quot v 12 in
  let y := if y <? 0 then y + 1 else y in
  let m := Z.rem v 12 + 1 in
  days ← days_of_month before y m;
  let d := if last_day || (days <? d) then days else d in
  r ← DATE2J ss y m d;
  Ok (int64 (int64 (r * USECS_PER_DAY) + time)).

(** ** NEXT_DAY *)

(** The part after the label [found], for weekday [d] (0 is Sunday). *)
Definition next_day_found (day d : Z) : Z :=
  let '(date, day) := split_day day in
  let date := date + POSTGRES_EPOCH_JDATE in
  let off := d - j2day date in
  let date := if off <=? 0 then date + off + 7 else date + off in
  let result := date - POSTGRES_EPOCH_JDATE in
  int64 (int64 (result * USECS_PER_DAY) + day).

Definition next_day_by_index (day idx : Z) : result Z :=
  _ ← CHECK_SEQ_SEARCH (if (idx <? 1) || (7 <? idx) then -1 else 0) "DAY/Day/day";
  Ok (next_day_found day (idx - 1)).

(** [pg_server_to_any] hands back its argument itself when nothing is converted. *)
Definition unconverted (m : mb_session) (s : bytes) : bool :=
  (length s =? 0)%nat || bool_decide (PG_UTF8 = DatabaseEncoding m) || bool_decide (DatabaseEncoding m = PG_SQL_ASCII)
  || (bool_decide (PG_UTF8 = ClientEncoding m) && match ToClientConvProc m with None => true | Some _ => false end).

(** [strlen] of an unconverted text runs on into the bytes after the text, up to
    the next zero byte: [after]. *)
Definition next_day (lc : ctype) (m : mb_session) (after : bytes) (day : Z) (day_txt : bytes) : result Z :=
  let len := length day_txt in
  let d := if (3 <=? len)%nat then ora_seq_prefix_search lc day_txt ora_days 3 else -1 in
  if 0 <=? d then Ok (next_day_found day d)
  else
    r ← pg_server_to_any m day_txt PG_UTF8;
    let changstr := if unconverted m day_txt then r ++ after else r in
    let changstrlen := length changstr in
    let d := weekday_search lc WEEKDAYS_UTF8 changstr changstrlen in
    if 0 <=? d then Ok (next_day_found day d)
    else
      _ ← CHECK_SEQ_SEARCH (-1) "DAY/Day/day";
      Ok (next_day_found day d).

(** ** ROUND and TRUNC *)

(** The Monday that starts the ISO year, from the day number of 1 January. *)
Definition to_monday (result : Z) : Z :=
  let off := 4 - J2DAY result in
  result + (off + (if 0 <=? off then -3 else 4)).

Definition iso_year (ss : session) (y m d : Z) : result Z :=
  result ← DATE2J ss y 1 1;
  day ← DATE2J ss y m d;
  let result := to_monday result in
  result ← (if day <? result then r ← DATE2J ss (y - 1) 1 1; Ok (to_monday r) else Ok result);
  if 52 <? Z.quot (day - result) 7 + 1 then
    result2 ← DATE2J ss (y + 1) 1 1;
    let result2 := to_monday result2 in
    if result2 <=? day then Ok result2 else Ok result
  else Ok result.

(** Rounding to the ISO year in the second half of the year: [iy1] is the start
    of the next ISO year. *)
Definition round_iyyy_late (ss : session) (day y : Z) : result Z :=
  iy1 ← iso_year ss (y + 1) 1 8;
  jan1 ← DATE2J ss y 1 1;
  if 52 <=? Z.quot (day - jan1) 7 + 1 then
    j2 ← date2j ss (y + 2) 1 1;
    j1 ← date2j ss (y + 1) 1 1;
    let overl := j2 - j1 =? 366 in
    let isSaturday := J2DAY day =? 6 in
    iy2 ← iso_year ss (y + 2) 1 8;
    day1 ← DATE2J ss (y + 1) 1 1;
    if (day1 <=? iy1) && (day1 - 2 <=? day) && isSaturday then Ok (if overl then iy2 else iy1)
    else if (iy1 <=? day1) && (iy1 - 3 <=? day) then
      let cmp := iy1 - (if iy1 <? day1 then 0 else 1) in
      let d1 := J2DAY day1 in
      if (cmp - 2 <=? day) && negb ((d1 =? 3) && overl) then
        if ((d1 <? 4) && negb (J2DAY day =? 5) && negb isSaturday) || ((d1 =? 2) && isSaturday && overl) then Ok iy2
        else Ok iy1
      else Ok iy1
    else Ok iy1
  else Ok iy1.

Definition round_iw (ss : session) (day y m d : Z) : result Z :=
  iso ← iso_year ss y m d;
  let z := Z.rem (day - iso) 7 in
  let result := day - z + (if z <? 4 then 0 else 7) in
  jan1 ← DATE2J ss y 1 1;
  if 52 <=? Z.quot (day - jan1) 7 + 1 then
    isoyear ← iso_year ss (y + 1) 1 8;
    next1 ← DATE2J ss (y + 1) 1 1;
    if (next1 - 1 <? isoyear) && (isoyear - 7 <? day) then
      let tmpd := J2DAY day in
      Ok (result - (if (tmpd =? 0) || (4 <? tmpd) then 7 else 0))
    else Ok result
  else Ok result.

Definition ora_date_round (ss : session) (day f : Z) : result Z :=
  let '(y, m, d) := j2date (day + POSTGRES_EPOCH_JDATE) in
  let century := Z.quot y 100 * 100 in
  match case_of f with
  | fmt_CC =>
      if 0 <? y then
        half ← DATE2J ss (century + 50) 1 1;
        DATE2J ss (century + (if day <? half then 1 else 101)) 1 1
      else
        half ← DATE2J ss (century - 50 + 1) 1 1;
        DATE2J ss (century + (if day <? half then -99 else 1)) 1 1
  | fmt_YYYY =>
      half ← DATE2J ss y 7 1;
      DATE2J ss (y + (if day <? half then 0 else 1)) 1 1
  | fmt_IYYY =>
      half ← DATE2J ss y 7 1;
      if day <? half then iso_year ss y m d else round_iyyy_late ss day y
  | fmt_MON =>
      half ← DATE2J ss y m 16;
      DATE2J ss y (m + (if day <? half then 0 else 1)) 1
  | fmt_WW =>
      jan1 ← DATE2J ss y 1 1;
      let z := Z.rem (day - jan1) 7 in
      Ok (day - z + (if z <? 4 then 0 else 7))
  | fmt_IW => round_iw ss day y m d
  | fmt_W =>
      first ← DATE2J ss y m 1;
      let z := Z.rem (day - first) 7 in
      Ok (day - z + (if z <? 4 then 0 else 7))
  | fmt_DAY =>
      let z := J2DAY day in
      if 0 <? y then Ok (day - z + (if z <? 4 then 0 else 7))
      else Ok (day + (5 - (if 0 <? z then (if 1 <? z then z else z + 7) else 7)))
  | fmt_Q =>
      let q := Z.quot (m - 1) 3 * 3 in
      half ← DATE2J ss y (q + 2) 16;
      DATE2J ss y (q + (if day <? half then 1 else 4)) 1
  | _ => Ok day
  end.

(** Assignments to fields of [*tm]. *)
Definition set_date (y m d : Z) (tm : pg_tm) : pg_tm :=
  mk_tm tm.(tm_sec) tm.(tm_min) tm.(tm_hour) d m y tm.(tm_wday) tm.(tm_yday) tm.(tm_isdst) tm.(tm_gmtoff) tm.(tm_zone).

Definition set_time (h mi s : Z) (tm : pg_tm) : pg_tm :=
  mk_tm s mi h tm.(tm_mday) tm.(tm_mon) tm.(tm_year) tm.(tm_wday) tm.(tm_yday) tm.(tm_isdst) tm.(tm_gmtoff) tm.(tm_zone).

(** The first switch of [tm_round]: whether an afternoon counts as the next day. *)
Definition round_rule (ss : session) (tm : pg_tm) (f : Z) : result bool :=
  let y := tm.(tm_year) in
  let m := tm.(tm_mon) in
  let d := tm.(tm_mday) in
  match case_of f with
  | fmt_IYYY =>
      let rounded := negb ((d <? 8) && (m =? 1)) && negb ((d =? 30) && (m =? 6)) in
      if (28 <=? d) && (m =? 12) && (12 <=? tm.(tm_hour)) then
        isoyear ← iso_year ss (y + 1) 1 8;
        day0 ← DATE2J ss (y + 1) 1 1;
        dayc ← DATE2J ss y m d;
        Ok (if (isoyear <=? day0) || (day0 <=? dayc + 2) then false else rounded)
      else Ok rounded
  | fmt_YYYY => Ok (negb ((d =? 30) && (m =? 6)))
  | fmt_MON => Ok (negb (d =? 15))
  | fmt_Q => Ok (negb ((d =? 15) && (m =? Z.quot (m - 1) 3 * 3 + 2)))
  | fmt_WW | fmt_IW =>
      dayc ← DATE2J ss y m d;
      next1 ← DATE2J ss (y + 1) 1 1;
      Ok (negb (dayc =? next1 - 1))
  | fmt_W =>
      dayc ← DATE2J ss y m d;
      next1 ← DATE2J ss y (m + 1) 1;
      Ok (negb (dayc =? next1 - 1))
  | _ => Ok true
  end.

Definition tm_round (ss : session) (lc : ctype) (tm : pg_tm) (fmt : bytes) : result pg_tm :=
  let f := ora_seq_search lc fmt date_fmt (length fmt) in
  _ ← CHECK_SEQ_SEARCH f "round/trunc format string";
  rounded ← round_rule ss tm f;
  let y := tm.(tm_year) in
  let m := tm.(tm_mon) in
  let d := tm.(tm_mday) in
  let h := tm.(tm_hour) in
  let mi := tm.(tm_min) in
  match case_of f with
  | fmt_DDD => Ok (set_time 0 0 0 (set_date y m (d + (if 12 <=? h then 1 else 0)) tm))
  | fmt_MI => Ok (set_time h (mi + (if 30 <=? tm.(tm_sec) then 1 else 0)) 0 tm)
  | fmt_HH => Ok (set_time (h + (if 30 <=? mi then 1 else 0)) 0 0 tm)
  | _ =>
      let d := if (rounded : bool) then d + (if 12 <=? h then 1 else 0) else d in
      day ← DATE2J ss y m d;
      r ← ora_date_round ss day f;
      let '(y', m', d') := j2date (r + POSTGRES_EPOCH_JDATE) in
      Ok (set_time 0 0 0 (set_date y' m' d' tm))
  end.

Definition ora_date_trunc (ss : session) (day f : Z) : result Z :=
  let '(y, m, d) := j2date (day + POSTGRES_EPOCH_JDATE) in
  match case_of f with
  | fmt_CC =>
      if 0 <? y then DATE2J ss (Z.quot y 100 * 100 + 1) 1 1
      else DATE2J ss (- Z.quot (99 - (y - 1)) 100 * 100 + 1) 1 1
  | fmt_YYYY => DATE2J ss y 1 1
  | fmt_IYYY => iso_year ss y m d
  | fmt_MON => DATE2J ss y m 1
  | fmt_WW => jan1 ← DATE2J ss y 1 1; Ok (day - Z.rem (day - jan1) 7)
  | fmt_IW => iso ← iso_year ss y m d; Ok (day - Z.rem (day - iso) 7)
  | fmt_W => first ← DATE2J ss y m 1; Ok (day - Z.rem (day - first) 7)
  | fmt_DAY => Ok (day - J2DAY day)
  | fmt_Q => DATE2J ss y (Z.quot (m - 1) 3 * 3 + 1) 1
  | _ => Ok day
  end.

Definition tm_trunc (ss : session) (lc : ctype) (tm : pg_tm) (fmt : bytes) : result pg_tm :=
  let f := ora_seq_search lc fmt date_fmt (length fmt) in
  _ ← CHECK_SEQ_SEARCH f "round/trunc format string";
  let y := tm.(tm_year) in
  let m := tm.(tm_mon) in
  let d := tm.(tm_mday) in
  match case_of f with
  | fmt_IYYY | fmt_WW | fmt_W | fmt_IW | fmt_DAY | fmt_CC =>
      day ← DATE2J ss y m d;
      r ← ora_date_trunc ss day f;
      let '(y', m', d') := j2date (r + POSTGRES_EPOCH_JDATE) in
      Ok (set_time 0 0 0 (set_date y' m' d' tm))
  | fmt_YYYY => Ok (set_time 0 0 0 (set_date y 1 1 tm))
  | fmt_Q => Ok (set_time 0 0 0 (set_date y (3 * Z.quot (m - 1) 3 + 1) 1 tm))
  | fmt_MON => Ok (set_time 0 0 0 (set_date y m 1 tm))
  | fmt_DDD => Ok (set_time 0 0 0 tm)
  | fmt_HH => Ok (set_time tm.(tm_hour) 0 0 tm)
  | fmt_MI => Ok (set_time tm.(tm_hour) tm.(tm_min) 0 tm)
  end.

Definition TIMESTAMP_NOT_FINITE (j : Z) : bool := (j =? INT64_MIN) || (j =? INT64_MAX).

Definition out_of_range {A} : result A := ereport ERRCODE_DATETIME_VALUE_OUT_OF_RANGE "timestamp out of range".

(** A missing format is DDD. *)
Definition ora_round (ss : session) (lc : ctype) (timestamp : Z) (fmt : option bytes) : result Z :=
  let fmt := default (lit "DDD") fmt in
  if TIMESTAMP_NOT_FINITE timestamp then Ok timestamp
  else
    match timestamp2tm_notz timestamp with
    | None => out_of_range
    | Some (tm, fsec) =>
        tm ← tm_round ss lc tm fmt;
        r ← tm2timestamp ss tm fsec None;
        match r with Some t => Ok t | None => out_of_range end
    end.

Definition ora_trunc (ss : session) (lc : ctype) (timestamp : Z) (fmt : option bytes) : result Z :=
  let fmt := default (lit "DDD") fmt in
  if TIMESTAMP_NOT_FINITE timestamp then Ok timestamp
  else
    match timestamp2tm_notz timestamp with
    | None => out_of_range
    | Some (tm, _) =>
        tm ← tm_trunc ss lc tm fmt;
        r ← tm2timestamp ss tm 0 None;
        match r with Some t => Ok t | None => out_of_range end
    end.

(** ** NEW_TIME *)

Definition date_timezone : list bytes :=
  map lit ["GMT"; "ADT"; "NST"; "AST"; "EDT"; "CDT"; "EST"; "CST"; "MDT"; "MST"; "PDT"; "PST";
           "YDT"; "HDT"; "YST"; "BDT"; "HST"; "BST"].

(** Seconds west of Greenwich; -1 for an unknown name. *)
Definition ora_timezone_name_to_num (lc : ctype) (name : bytes) : Z :=
  if negb (length name =? 3)%nat then -1
  else
    let i := search_from (fun a => pg_strncasecmp lc name a 3 =? 0) date_timezone 0 in
    if i =? 0 then 0
    else if i =? 1 then 3 * 3600
    else if i =? 2 then 12600
    else if (i =? 3) || (i =? 4) then 4 * 3600
    else if (i =? 5) || (i =? 6) then 5 * 3600
    else if (i =? 7) || (i =? 8) then 6 * 3600
    else if (i =? 9) || (i =? 10) then 7 * 3600
    else if (i =? 11) || (i =? 12) then 8 * 3600
    else if (i =? 13) || (i =? 14) then 9 * 3600
    else if (i =? 15) || (i =? 16) then 10 * 3600
    else if i =? 17 then 11 * 3600
    else -1.

(** The return code of [tm2timestamp] is not looked at: a failure leaves 0. *)
Definition ora_new_time (ss : session) (lc : ctype) (day : Z) (strtimezone1 strtimezone2 : bytes) : result Z :=
  let tz1 := ora_timezone_name_to_num lc strtimezone1 in
  if tz1 =? -1 then ereport ERRCODE_DATETIME_VALUE_OUT_OF_RANGE "Invalid time zone"
  else
    let tz2 := ora_timezone_name_to_num lc strtimezone2 in
    if tz2 =? -1 then ereport ERRCODE_DATETIME_VALUE_OUT_OF_RANGE "Invalid time zone"
    else
      match timestamp2tm_notz day with
      | None => out_of_range
      | Some (tm, fsec) =>
          r ← tm2timestamp ss tm fsec (Some (tz1 - tz2));
          Ok (default 0 r)
      end.

(** ** Dates as timestamps *)

Definition stamp (y m d tod : Z) : Z := (date2j_civil y m d - POSTGRES_EPOCH_JDATE) * USECS_PER_DAY + tod.

(** The dates the theorems are about: years 1 to 290000, so that neither the
    special year 0 nor the end of the timestamp range is near. *)
Definition date_ok (y m d tod : Z) : Prop :=
  1 <= y <= 290000 /\ valid_date y m d /\ 0 <= tod < USECS_PER_DAY.

Lemma civil_bounds y m d :
  1 <= y <= 290002 -> valid_date y m d -> 1721425 < date2j_civil y m d <= 107645000.
Proof.
  intros Hy [Hm Hd]. rewrite date2j_civil_day.
  pose proof (date2j_civil_month_end y m ltac:(lia) Hm) as H1.
  pose proof (date2j_civil_year_mono 1 y ltac:(lia) ltac:(lia)) as H2.
  pose proof (date2j_civil_year_mono (y + 1) 290003 ltac:(lia) ltac:(lia)) as H3.
  change (date2j_civil 1 1 0) with 1721425 in H2. change (date2j_civil 290003 1 0) with 107642480 in H3.
  assert (date2j_civil y 1 0 <= date2j_civil y m 0).
  { destruct (decide (m = 1)) as [->|]; [lia|].
    pose proof (date2j_civil_month_mono y 1 m ltac:(lia) ltac:(lia) ltac:(lia)).
    pose proof (month_days_range y 1 ltac:(lia)). lia. }
  lia.
Qed.

Lemma split_stamp y m d tod :
  0 <= tod < USECS_PER_DAY -> split_day (stamp y m d tod) = (date2j_civil y m d - POSTGRES_EPOCH_JDATE, tod).
Proof. intros H. rewrite split_day_spec. unfold stamp, USECS_PER_DAY in *. f_equal; lia. Qed.

Lemma j2date_civil y m d :
  1 <= y <= 290002 -> valid_date y m d ->
  j2date (date2j_civil y m d - POSTGRES_EPOCH_JDATE + POSTGRES_EPOCH_JDATE) = (y, m, d).
Proof.
  intros Hy Hv. pose proof (civil_bounds y m d Hy Hv). rewrite Z.sub_add.
  apply j2date_date2j_civil; [lia|done|unfold INT_MAX; lia].
Qed.

(** Back to a timestamp, without wrapping. *)
Lemma restamp r tod :
  1 <= r <= 107650000 -> 0 <= tod < USECS_PER_DAY ->
  int64 (int64 ((r - POSTGRES_EPOCH_JDATE) * USECS_PER_DAY) + tod) = (r - POSTGRES_EPOCH_JDATE) * USECS_PER_DAY + tod.
Proof.
  unfold POSTGRES_EPOCH_JDATE, USECS_PER_DAY. intros Hr Ht.
  rewrite (int64_small (_ * _)) by (unfold is_int64, INT64_MIN, INT64_MAX; lia).
  apply int64_small. unfold is_int64, INT64_MIN, INT64_MAX. lia.
Qed.

Lemma DATE2J_spec ss y m d : y <> 0 -> m <> 0 -> DATE2J ss y m d = Ok (date2j_civil y m d - POSTGRES_EPOCH_JDATE).
Proof. intros. unfold DATE2J. by rewrite date2j_plain by auto. Qed.

Lemma days_of_month_spec before y m : 1 <= m <= 12 -> days_of_month before y m = Ok (month_days y m).
Proof.
  intros Hm. rewrite month_days_eq by done. unfold days_of_month.
  replace ((m <? 0) || (12 <? m)) with false by lia. replace (m =? 0) with false by lia.
  assert ((Z.rem y 400 =? 0) || ((Z.rem y 4 =? 0) && negb (Z.rem y 100 =? 0)) = isleap y) as ->.
  { unfold isleap. destruct (Z.rem y 400 =? 0) eqn:?, (Z.rem y 4 =? 0) eqn:?, (Z.rem y 100 =? 0) eqn:?; cbn; lia. }
  assert (m = 1 \/ m = 2 \/ m = 3 \/ m = 4 \/ m = 5 \/ m = 6 \/ m = 7 \/ m = 8 \/ m = 9 \/ m = 10 \/ m = 11 \/ m = 12)
    as Hc by lia.
  destruct (isleap y). all: repeat (destruct Hc as [->|Hc]; [reflexivity|]); subst; reflexivity.
Qed.

Lemma month_end_valid y m : 1 <= m <= 12 -> valid_date y m (month_days y m).
Proof. intros Hm. pose proof (month_days_range y m Hm). split; lia. Qed.

(** LAST_DAY: the last day of the month at the same time of day, the latest
    date of that month. *)
Theorem last_day_correct ss before y m d tod :
  date_ok y m d tod ->
  last_day ss before (stamp y m d tod) = Ok (stamp y m (month_days y m) tod) /\
  forall d', valid_date y m d' -> stamp y m d' tod <= stamp y m (month_days y m) tod.
Proof.
  intros (Hy & Hv & Ht). pose proof Hv as [Hm Hd]. pose proof (month_end_valid y m Hm) as Hv'.
  pose proof (civil_bounds y m _ ltac:(lia) Hv'). split.
  - unfold last_day. rewrite split_stamp by done. rewrite j2date_civil by (lia || done).
    rewrite days_of_month_spec by done. cbn [mbind result_bind].
    rewrite DATE2J_spec by lia. cbn [mbind result_bind]. by rewrite restamp by lia.
  - intros d' [_ Hd']. unfold stamp. rewrite (date2j_civil_day y m d'), (date2j_civil_day y m (month_days y m)).
    unfold USECS_PER_DAY. lia.
Qed.

(** ** ADD_MONTHS *)

Definition shift_day (y m d y' m' : Z) : Z :=
  if d =? month_days y m then month_days y' m' else Z.min d (month_days y' m').

Lemma shift_day_valid y m d y' m' : valid_date y m d -> 1 <= m' <= 12 -> valid_date y' m' (shift_day y m d y' m').
Proof.
  intros [Hm Hd] Hm'. pose proof (month_days_range y' m' Hm'). unfold shift_day.
  destruct (d =? month_days y m); split; lia.
Qed.

Lemma add_months_spec ss before y m d tod n :
  date_ok y m d tod -> let M := y * 12 + (m - 1) + n in 12 <= M < 12 * 290001 ->
  add_months ss before (stamp y m d tod) n
    = Ok (stamp (M / 12) (M mod 12 + 1) (shift_day y m d (M / 12) (M mod 12 + 1)) tod).
Proof.
  intros (Hy & Hv & Ht) M HM. pose proof Hv as [Hm Hd]. unfold add_months.
  rewrite (int32_small n) by (unfold is_int32, INT_MIN, INT_MAX; lia).
  rewrite split_stamp by done. rewrite j2date_civil by (lia || done).
  rewrite (days_of_month_spec before y m) by done. cbn [mbind result_bind].
  rewrite int32_small by (unfold is_int32, INT_MIN, INT_MAX; lia).
  replace (y * 12 + m - 1 + n) with M by lia. clearbody M.
  rewrite Z.quot_div_nonneg, Z.rem_mod_nonneg by lia. replace (M / 12 <? 0) with false by lia.
  rewrite days_of_month_spec by lia. cbn [mbind result_bind].
  assert (Hs : (if (d =? month_days y m) || (month_days (M / 12) (M mod 12 + 1) <? d)
                then month_days (M / 12) (M mod 12 + 1) else d) = shift_day y m d (M / 12) (M mod 12 + 1)).
  { unfold shift_day. destruct (d =? month_days y m); cbn [orb]; [done|]. case_match; lia. }
  rewrite Hs. pose proof (shift_day_valid y m d (M / 12) (M mod 12 + 1) Hv ltac:(lia)) as Hv'.
  pose proof (civil_bounds (M / 12) _ _ ltac:(lia) Hv'). rewrite DATE2J_spec by lia. cbn [mbind result_bind].
  by rewrite restamp by lia.
Qed.

(** C32. ADD_MONTHS shifts the month count by [n], keeps the time of day and the
    day of the month cut to the length of the new month, and sends a last day to
    a last day.  On last days and on days up to 27 it is an action of the
    integers: shifting by [a] and then by [b] is shifting by [a + b], and shifting
    by 0 is no change, so that [- a] undoes [a]. *)
Theorem add_months_action ss before y m d tod a b :
  date_ok y m d tod ->
  12 <= y * 12 + (m - 1) + a < 12 * 290001 -> 12 <= y * 12 + (m - 1) + (a + b) < 12 * 290001 ->
  let M := y * 12 + (m - 1) + a in
  add_months ss before (stamp y m d tod) a
    = Ok (stamp (M / 12) (M mod 12 + 1) (shift_day y m d (M / 12) (M mod 12 + 1)) tod) /\
  (d = month_days y m \/ d <= 27 ->
   add_months ss before (stamp y m d tod) a ≫= (fun t => add_months ss before t b)
     = add_months ss before (stamp y m d tod) (a + b)) /\
  add_months ss before (stamp y m d tod) 0 = Ok (stamp y m d tod).
Proof.
  intros Hd Ha Hab M. pose proof Hd as (Hy & Hv & Ht). pose proof Hv as [Hm Hday].
  pose proof (add_months_spec ss before y m d tod a Hd Ha) as Ea. fold M in Ea, Ha. split; [done|]. split.
  - intros Hc. rewrite Ea. cbn [mbind result_bind].
    assert (Hd' : date_ok (M / 12) (M mod 12 + 1) (shift_day y m d (M / 12) (M mod 12 + 1)) tod).
    { split; [lia|]. split; [|done]. apply shift_day_valid; [done|lia]. }
    rewrite (add_months_spec ss before _ _ _ _ b Hd') by lia.
    rewrite (add_months_spec ss before y m d tod (a + b) Hd Hab).
    replace (M / 12 * 12 + (M mod 12 + 1 - 1) + b) with (y * 12 + (m - 1) + (a + b)) by (unfold M; lia).
    set (N := y * 12 + (m - 1) + (a + b)) in *. clearbody N M. do 2 f_equal.
    pose proof (month_days_range (M / 12) (M mod 12 + 1) ltac:(lia)).
    pose proof (month_days_range (N / 12) (N mod 12 + 1) ltac:(lia)).
    pose proof (month_days_range y m Hm).
    unfold shift_day. destruct (Z.eqb_spec d (month_days y m)); cbn match; [by rewrite Z.eqb_refl|].
    rewrite Z.min_l by lia. destruct (Z.eqb_spec d (month_days (M / 12) (M mod 12 + 1))); lia.
  - rewrite (add_months_spec ss before y m d tod 0 Hd) by lia.
    replace ((y * 12 + (m - 1) + 0) / 12) with y by lia. replace ((y * 12 + (m - 1) + 0) mod 12 + 1) with m by lia.
    do 2 f_equal. unfold shift_day. case_match; lia.
Qed.

Lemma add_months_action_witness :
  add_months (mk_session ORA_PARSER 0 example_zone) 0 (stamp 2024 1 31 0) 1 ≫=
    (fun t => add_months (mk_session ORA_PARSER 0 example_zone) 0 t (-2))
  = Ok (stamp 2023 12 31 0).
Proof.
  assert (Hd : date_ok 2024 1 31 0) by (vm_compute; intuition congruence).
  destruct (add_months_action (mk_session ORA_PARSER 0 example_zone) 0 2024 1 31 0 1 (-2) Hd
              ltac:(lia) ltac:(lia)) as (_ & H & _).
  rewrite H by (left; reflexivity). vm_compute. reflexivity.
Defined.

(** ** NEXT_DAY *)

Lemma j2day_as_mod D : 0 <= D -> j2day D = (D + 1) mod 7.
Proof. intros. unfold j2day. rewrite Z.rem_mod_nonneg by lia. case_match; lia. Qed.

Lemma next_day_found_spec y m d tod w :
  date_ok y m d tod -> 0 <= w <= 6 ->
  exists D, next_day_found (stamp y m d tod) w = (D - POSTGRES_EPOCH_JDATE) * USECS_PER_DAY + tod /\
    date2j_civil y m d < D <= date2j_civil y m d + 7 /\ j2day D = w.
Proof.
  intros (Hy & Hv & Ht) Hw. pose proof (civil_bounds y m d ltac:(lia) Hv). unfold next_day_found.
  rewrite split_stamp by done. rewrite Z.sub_add. set (c := date2j_civil y m d) in *. clearbody c.
  rewrite j2day_as_mod by lia.
  exists (if w - (c + 1) mod 7 <=? 0 then c + (w - (c + 1) mod 7) + 7 else c + (w - (c + 1) mod 7)).
  assert (c < (if w - (c + 1) mod 7 <=? 0 then c + (w - (c + 1) mod 7) + 7 else c + (w - (c + 1) mod 7)) <= c + 7)
    by (case_match; lia).
  split; [apply restamp; [lia|done]|]. split; [done|].
  rewrite j2day_as_mod by lia. case_match; lia.
Qed.

(** NEXT_DAY by index: an index outside 1..7 is an error; otherwise the
    result is at the same time of day on the first later date that falls on the
    weekday, at most a week ahead. *)
Theorem next_day_first y m d tod idx :
  date_ok y m d tod ->
  if (1 <=? idx) && (idx <=? 7) then
    exists D, next_day_by_index (stamp y m d tod) idx = Ok ((D - POSTGRES_EPOCH_JDATE) * USECS_PER_DAY + tod) /\
      date2j_civil y m d < D <= date2j_civil y m d + 7 /\ j2day D = idx - 1 /\
      forall D', date2j_civil y m d < D' < D -> j2day D' <> idx - 1
  else next_day_by_index (stamp y m d tod) idx
         = ereport ERRCODE_INVALID_DATETIME_FORMAT "invalid value for DAY/Day/day".
Proof.
  intros Hd. unfold next_day_by_index.
  destruct ((1 <=? idx) && (idx <=? 7)) eqn:E.
  - replace ((idx <? 1) || (7 <? idx)) with false by lia. cbn.
    destruct (next_day_found_spec y m d tod (idx - 1) Hd) as (D & -> & Hr & Hw); [lia|].
    exists D. split; [done|]. split; [done|]. split; [done|]. intros D' HD' Hx.
    destruct Hd as (Hy & Hv & _). pose proof (civil_bounds y m d ltac:(lia) Hv).
    rewrite j2day_as_mod in Hw, Hx by lia. lia.
  - by replace ((idx <? 1) || (7 <? idx)) with true by lia.
Qed.

(** ** TRUNC *)

(** Order of day numbers is the lexicographic order of dates. *)
Lemma civil_le y1 m1 d1 y2 m2 d2 :
  1 <= y1 -> 1 <= y2 -> valid_date y1 m1 d1 -> valid_date y2 m2 d2 ->
  date2j_civil y1 m1 d1 <= date2j_civil y2 m2 d2 <->
  y1 < y2 \/ (y1 = y2 /\ (m1 < m2 \/ (m1 = m2 /\ d1 <= d2))).
Proof.
  intros H1 H2 V1 V2. destruct (date_trichotomy y1 m1 d1 y2 m2 d2) as [L|[(-> & -> & ->)|L]].
  - pose proof (date2j_civil_lt y1 m1 d1 y2 m2 d2 ltac:(lia) ltac:(lia) V1 V2 L). unfold date_lt in L. lia.
  - lia.
  - pose proof (date2j_civil_lt y2 m2 d2 y1 m1 d1 ltac:(lia) ltac:(lia) V2 V1 L). unfold date_lt in L. lia.
Qed.

Lemma valid_first y m : 1 <= m <= 12 -> valid_date y m 1.
Proof. intros Hm. pose proof (month_days_range y m Hm). split; lia. Qed.

Lemma valid_fourth y : valid_date y 1 4.
Proof. pose proof (month_days_range y 1 ltac:(lia)). split; lia. Qed.

(** A day number from the first of January of year 1 on is that of a date. *)
Lemma day_of_civil r y :
  1721426 <= r -> 1 <= y <= 290001 -> r < date2j_civil (y + 1) 1 1 ->
  exists y' m' d', j2date r = (y', m', d') /\ 1 <= y' <= y /\ valid_date y' m' d' /\ date2j_civil y' m' d' = r.
Proof.
  intros Hr Hy Hlt. pose proof (valid_first (y + 1) 1 ltac:(lia)) as V1.
  pose proof (civil_bounds (y + 1) 1 1 ltac:(lia) V1) as Hb.
  assert (Hj : 0 <= r <= INT_MAX) by (unfold INT_MAX; lia).
  destruct (j2date r) as [[y' m'] d'] eqn:E. exists y', m', d'.
  destruct (j2date_spec r y' m' d' Hj E) as (_ & V & Ec). pose proof (j2date_year r y' m' d' Hj E).
  split; [done|]. assert (1 <= y'); [|split; [split; [done|]|done]].
  - apply Z.nlt_ge. intros Hn.
    pose proof (date2j_civil_lt y' m' d' 1 1 1 ltac:(lia) ltac:(lia) V (valid_first 1 1 ltac:(lia)) ltac:(left; lia)) as L.
    change (date2j_civil 1 1 1) with 1721426 in L. lia.
  - apply Z.nlt_ge. intros Hn.
    assert (date2j_civil (y + 1) 1 1 <= date2j_civil y' m' d'); [|lia].
    apply civil_le; [lia|lia|done|done|destruct V; lia].
Qed.

(** *** The ISO year *)

(** The Monday of the week of 4 January. *)
Definition iso_start (y : Z) : Z :=
  let j := date2j_civil y 1 4 in j - (j2day j + 6) mod 7.

Lemma year_length y :
  1 <= y -> date2j_civil (y + 1) 1 1 - date2j_civil y 1 1 = if isleap y then 366 else 365.
Proof.
  intros Hy. rewrite (date2j_civil_day (y + 1)), (date2j_civil_day y 1 1), date2j_civil_year by lia.
  rewrite (date2j_civil_hi y 12), (date2j_civil_lo y 1), leap_days_step by lia.
  destruct (isleap y); lia.
Qed.

Lemma to_monday_spec y :
  1 <= y <= 290002 -> to_monday (date2j_civil y 1 1 - POSTGRES_EPOCH_JDATE) = iso_start y - POSTGRES_EPOCH_JDATE /\
  date2j_civil y 1 1 - 3 <= iso_start y <= date2j_civil y 1 1 + 3 /\ j2day (iso_start y) = 1.
Proof.
  intros Hy. pose proof (civil_bounds y 1 1 Hy (valid_first y 1 ltac:(lia))).
  unfold to_monday, iso_start, J2DAY. rewrite Z.sub_add, (date2j_civil_day y 1 4).
  rewrite (date2j_civil_day y 1 1) in *. set (c := date2j_civil y 1 0) in *. clearbody c.
  rewrite !(j2day_as_mod (c + _)) by lia. rewrite j2day_as_mod by lia. case_match; lia.
Qed.

Lemma iso_start_mono y1 y2 : 1 <= y1 -> y1 < y2 <= 290002 -> iso_start y1 + 364 <= iso_start y2.
Proof.
  intros H1 H2. pose proof (to_monday_spec y1 ltac:(lia)) as (_ & B1 & W1).
  pose proof (to_monday_spec y2 ltac:(lia)) as (_ & B2 & W2).
  pose proof (civil_bounds y1 1 1 ltac:(lia) (valid_first y1 1 ltac:(lia))).
  pose proof (civil_bounds y2 1 1 ltac:(lia) (valid_first y2 1 ltac:(lia))).
  pose proof (year_length y1 H1). rewrite (date2j_civil_day (y1 + 1)) in *.
  pose proof (date2j_civil_year_mono (y1 + 1) y2 ltac:(lia) ltac:(lia)). rewrite (date2j_civil_day y2) in *.
  rewrite j2day_as_mod in W1, W2 by lia. destruct (isleap y1); lia.
Qed.

(** [iso_year] finds the last ISO year start that is not after the date. *)
Lemma iso_year_spec ss y m d :
  2 <= y <= 290000 -> valid_date y m d ->
  exists y0, iso_year ss y m d = Ok (iso_start y0 - POSTGRES_EPOCH_JDATE) /\ y - 1 <= y0 <= y + 1 /\
    iso_start y0 <= date2j_civil y m d < iso_start (y0 + 1).
Proof.
  intros Hy Hv. pose proof Hv as [Hm Hd].
  pose proof (proj2 (civil_le y 1 1 y m d ltac:(lia) ltac:(lia) (valid_first y 1 ltac:(lia)) Hv) ltac:(lia)) as Hlo.
  pose proof (date2j_civil_lt y m d (y + 1) 1 1 ltac:(lia) ltac:(lia) Hv (valid_first (y + 1) 1 ltac:(lia)) ltac:(left; lia)) as Hhi.
  pose proof (to_monday_spec (y - 1) ltac:(lia)) as (T0 & B0 & _).
  pose proof (to_monday_spec y ltac:(lia)) as (T1 & B1 & _).
  pose proof (to_monday_spec (y + 1) ltac:(lia)) as (T2 & B2 & _).
  pose proof (iso_start_mono (y - 1) y ltac:(lia) ltac:(lia)) as M0.
  pose proof (iso_start_mono y (y + 1) ltac:(lia) ltac:(lia)) as M1.
  pose proof (iso_start_mono (y + 1) (y + 2) ltac:(lia) ltac:(lia)) as M2.
  pose proof (year_length (y - 1) ltac:(lia)) as L0. replace (y - 1 + 1) with y in L0 by lia.
  unfold iso_year. rewrite !DATE2J_spec by lia. cbn [mbind result_bind]. rewrite T0, T1, T2.
  set (c := date2j_civil y m d) in *. clearbody c. clear T0 T1 T2.
  destruct (c - POSTGRES_EPOCH_JDATE <? iso_start y - POSTGRES_EPOCH_JDATE) eqn:C1; cbn [mbind result_bind].
  - exists (y - 1). replace (y - 1 + 1) with y by lia. replace (iso_start (y + 1) - _ <=? _) with false by lia.
    split; [by destruct (52 <? _)|]. split; [lia|]. destruct (isleap (y - 1)); lia.
  - destruct (52 <? _) eqn:C2; [destruct (_ <=? _) eqn:C3|].
    + exists (y + 1). split; [done|]. split; [lia|]. replace (y + 1 + 1) with (y + 2) by lia.
      pose proof (year_length (y + 1) ltac:(lia)) as L1. pose proof (to_monday_spec (y + 2) ltac:(lia)) as (_ & B3 & _).
      replace (y + 1 + 1) with (y + 2) in L1 by lia. destruct (isleap (y + 1)); lia.
    + exists y. split; [done|]. split; lia.
    + exists y. split; [done|]. split; lia.
Qed.

(** *** The unit of a format *)

(** The first days of the periods of a format. *)
Definition day_start (c : fmt_case) (y m d : Z) : Prop :=
  match c with
  | fmt_CC => y mod 100 = 1 /\ m = 1 /\ d = 1
  | fmt_YYYY => m = 1 /\ d = 1
  | fmt_IYYY =>
      j2day (date2j_civil y m d) = 1 /\
      exists y0, 1 <= y0 /\ date2j_civil y0 1 4 - 7 < date2j_civil y m d <= date2j_civil y0 1 4
  | fmt_Q => m mod 3 = 1 /\ d = 1
  | fmt_MON => d = 1
  | fmt_WW => (date2j_civil y m d - date2j_civil y 1 1) mod 7 = 0
  | fmt_IW => j2day (date2j_civil y m d) = 1
  | fmt_W => (d - 1) mod 7 = 0
  | fmt_DAY => j2day (date2j_civil y m d) = 0
  | fmt_DDD | fmt_HH | fmt_MI => True
  end.

Definition unit_start (c : fmt_case) (y m d tod : Z) : Prop :=
  day_start c y m d /\
  match c with
  | fmt_HH => tod mod USECS_PER_HOUR = 0
  | fmt_MI => tod mod USECS_PER_MINUTE = 0
  | _ => tod = 0
  end.

(** [y' m' d'] is the last period start not after day number [J]. *)
Definition last_start (c : fmt_case) (J y' m' d' : Z) : Prop :=
  1 <= y' /\ valid_date y' m' d' /\ day_start c y' m' d' /\ date2j_civil y' m' d' <= J /\
  forall y2 m2 d2, 1 <= y2 -> valid_date y2 m2 d2 -> day_start c y2 m2 d2 ->
    date2j_civil y2 m2 d2 <= J -> date2j_civil y2 m2 d2 <= date2j_civil y' m' d'.

Lemma iso_start_day_start y0 y m d :
  1 <= y0 <= 290002 -> date2j_civil y m d = iso_start y0 -> day_start fmt_IYYY y m d.
Proof.
  intros Hy E. destruct (to_monday_spec y0 Hy) as (_ & _ & W). unfold day_start. rewrite E. split; [done|].
  exists y0. split; [lia|]. unfold iso_start. lia.
Qed.

(** Every first day of an ISO year is the [iso_start] of one. *)
Lemma day_start_iso_start y m d :
  1 <= y -> valid_date y m d -> day_start fmt_IYYY y m d -> exists y0, 1 <= y0 /\ date2j_civil y m d = iso_start y0.
Proof.
  intros Hy Hv (W & y0 & H0 & Hr). exists y0. split; [done|].
  pose proof (proj2 (civil_le 1 1 1 y m d ltac:(lia) ltac:(lia) (valid_first 1 1 ltac:(lia)) Hv) ltac:(destruct Hv; lia)) as Hp.
  change (date2j_civil 1 1 1) with 1721426 in Hp.
  unfold iso_start. rewrite j2day_as_mod in * by lia. lia.
Qed.

(** No ISO year start lies strictly between two consecutive ones. *)
Lemma iso_start_last y0 J y2 :
  1 <= y0 <= 290001 -> 1 <= y2 -> iso_start y0 <= J < iso_start (y0 + 1) -> iso_start y2 <= J -> iso_start y2 <= iso_start y0.
Proof.
  intros H0 H2 HJ Hle. destruct (decide (y2 <= y0)).
  - destruct (decide (y2 = y0)) as [->|]; [lia|]. pose proof (iso_start_mono y2 y0 ltac:(lia) ltac:(lia)). lia.
  - exfalso. enough (iso_start (y0 + 1) <= iso_start y2) by lia.
    destruct (decide (y2 = y0 + 1)) as [->|]; [lia|].
    unfold iso_start in *. rewrite (date2j_civil_day y2), (date2j_civil_day (y0 + 1)).
    pose proof (year_length (y0 + 1) ltac:(lia)) as L. rewrite (date2j_civil_day (y0 + 1)), (date2j_civil_day (y0 + 1 + 1)) in L.
    pose proof (date2j_civil_year_mono (y0 + 1 + 1) y2 ltac:(lia) ltac:(lia)).
    destruct (isleap (y0 + 1)); lia.
Qed.

(** A day number between the first of a period and a date of it, as a date. *)
Lemma day_between y m d r :
  1 <= y <= 290000 -> valid_date y m d -> 1721426 <= r <= date2j_civil y m d ->
  exists y' m' d', r = date2j_civil y' m' d' /\ 1 <= y' <= y /\ valid_date y' m' d' /\
    (date2j_civil y 1 1 <= r -> y' = y) /\ (date2j_civil y m 1 <= r -> y' = y /\ m' = m /\ d' - 1 = r - date2j_civil y m 1).
Proof.
  intros Hy Hv Hr. pose proof Hv as [Hm Hd].
  pose proof (date2j_civil_lt y m d (y + 1) 1 1 ltac:(lia) ltac:(lia) Hv (valid_first (y + 1) 1 ltac:(lia)) ltac:(left; lia)) as Hlt.
  destruct (day_of_civil r y) as (y' & m' & d' & _ & Hy' & Hv' & <-); [lia|lia|lia|].
  exists y', m', d'. split; [done|]. split; [done|]. split; [done|].
  pose proof (proj1 (civil_le y' m' d' y m d ltac:(lia) ltac:(lia) Hv' Hv) ltac:(lia)). destruct Hv' as [Hm' Hd'] eqn:E. split.
  - intros Hle. apply civil_le in Hle; [lia|lia|lia|by apply valid_first|done].
  - intros Hle. pose proof Hle as Hle2. apply civil_le in Hle; [|lia|lia|by apply valid_first|done].
    assert (y' = y) as -> by lia. assert (m' = m) as -> by lia.
    rewrite (date2j_civil_day y m d'), (date2j_civil_day y m 1). lia.
Qed.

Lemma last_ww y m d :
  1 <= y <= 290000 -> valid_date y m d ->
  let J := date2j_civil y m d in let J1 := date2j_civil y 1 1 in
  exists y' m' d', date2j_civil y' m' d' = J - (J - J1) mod 7 /\ last_start fmt_WW J y' m' d'.
Proof.
  intros Hy Hv J J1. pose proof Hv as [Hm Hd]. pose proof (civil_bounds y 1 1 ltac:(lia) (valid_first y 1 ltac:(lia))) as Hb.
  fold J1 in Hb.
  assert (J1 <= J) by (apply civil_le; [lia|lia|by apply valid_first|done|lia]).
  destruct (day_between y m d (J - (J - J1) mod 7)) as (y' & m' & d' & E & Hy' & Hv' & Hyr & _); [done|done|fold J; lia|].
  specialize (Hyr ltac:(fold J1; lia)) as ->. exists y, m', d'. split; [done|].
  unfold last_start. rewrite <- E. split; [lia|]. split; [done|]. split; [cbn [day_start]; rewrite <- E; fold J1; lia|].
  split; [lia|]. intros y2 m2 d2 H2 V2 D2 Hle. cbn [day_start] in D2. destruct (decide (y2 = y)) as [->|].
  - fold J1 in D2. lia.
  - apply civil_le in Hle as Hle'; [|lia|lia|done|done].
    pose proof (date2j_civil_lt y2 m2 d2 y 1 1 ltac:(lia) ltac:(lia) V2 (valid_first y 1 ltac:(lia)) ltac:(left; lia)) as Hl.
    fold J1 in Hl. lia.
Qed.

Lemma last_w y m d :
  1 <= y <= 290000 -> valid_date y m d ->
  let J := date2j_civil y m d in let J1 := date2j_civil y m 1 in
  exists y' m' d', date2j_civil y' m' d' = J - (J - J1) mod 7 /\ last_start fmt_W J y' m' d'.
Proof.
  intros Hy Hv J J1. pose proof Hv as [Hm Hd]. pose proof (civil_bounds y m 1 ltac:(lia) (valid_first y m Hm)) as Hb.
  fold J1 in Hb.
  assert (J1 <= J) by (apply civil_le; [lia|lia|by apply valid_first|done|lia]).
  destruct (day_between y m d (J - (J - J1) mod 7)) as (y' & m' & d' & E & Hy' & Hv' & _ & Hmo); [done|done|fold J; lia|].
  destruct (Hmo ltac:(fold J1; lia)) as (-> & -> & Hd'). fold J1 in Hd'. exists y, m, d'. split; [done|].
  unfold last_start. rewrite <- E. split; [lia|]. split; [done|]. split; [cbn [day_start]; lia|].
  split; [lia|]. intros y2 m2 d2 H2 V2 D2 Hle. cbn [day_start] in D2.
  apply civil_le in Hle as Hle'; [|lia|lia|done|done]. destruct (decide (y2 = y /\ m2 = m)) as [[-> ->]|].
  - unfold J, J1 in *. rewrite (date2j_civil_day y m d2), (date2j_civil_day y m d), (date2j_civil_day y m 1) in *. lia.
  - pose proof (date2j_civil_lt y2 m2 d2 y m 1 ltac:(lia) ltac:(lia) V2 (valid_first y m Hm) ltac:(unfold date_lt; lia)) as Hl.
    fold J1 in Hl. lia.
Qed.

(** The last weekday [w] (0 is Sunday) not after a date. *)
Lemma last_weekday c w y m d r :
  2 <= y <= 290000 -> valid_date y m d ->
  (c = fmt_IW /\ w = 1 \/ c = fmt_DAY /\ w = 0) ->
  let J := date2j_civil y m d in J - 7 < r <= J -> j2day r = w ->
  exists y' m' d', date2j_civil y' m' d' = r /\ last_start c J y' m' d'.
Proof.
  intros Hy Hv Hc J Hr Hw. pose proof Hv as [Hm Hd].
  assert (HJ : date2j_civil 2 1 1 <= J) by (apply civil_le; [lia|lia|by apply valid_first|done|lia]).
  change (date2j_civil 2 1 1) with 1721791 in HJ.
  destruct (day_between y m d r) as (y' & m' & d' & -> & Hy' & Hv' & _); [lia|done|fold J; lia|].
  exists y', m', d'. split; [done|].
  assert (Hs : forall y2 m2 d2, day_start c y2 m2 d2 <-> j2day (date2j_civil y2 m2 d2) = w)
    by (intros; destruct Hc as [[-> ->]|[-> ->]]; done).
  split; [lia|]. split; [done|]. split; [by apply Hs|]. split; [lia|].
  intros y2 m2 d2 H2 V2 D2 Hle. apply Hs in D2.
  assert (Hp : date2j_civil 1 1 1 <= date2j_civil y2 m2 d2) by (apply civil_le; [lia|lia|by apply valid_first|done|destruct V2; lia]).
  change (date2j_civil 1 1 1) with 1721426 in Hp. rewrite j2day_as_mod in D2, Hw by lia. lia.
Qed.

Lemma last_iyyy y m d y0 :
  2 <= y <= 290000 -> valid_date y m d -> 1 <= y0 <= y + 1 ->
  let J := date2j_civil y m d in iso_start y0 <= J < iso_start (y0 + 1) ->
  exists y' m' d', date2j_civil y' m' d' = iso_start y0 /\ last_start fmt_IYYY J y' m' d'.
Proof.
  intros Hy Hv H0 J HJ.
  assert (1721426 <= iso_start y0).
  { change 1721426 with (iso_start 1). destruct (decide (y0 = 1)) as [->|]; [lia|].
    pose proof (iso_start_mono 1 y0 ltac:(lia) ltac:(lia)). lia. }
  destruct (day_between y m d (iso_start y0)) as (y' & m' & d' & E & Hy' & Hv' & _); [lia|done|fold J; lia|].
  exists y', m', d'. split; [done|]. split; [lia|]. split; [done|].
  split; [by apply (iso_start_day_start y0); [lia|]|]. rewrite <- E. split; [lia|].
  intros y2 m2 d2 H2 V2 D2 Hle. destruct (day_start_iso_start y2 m2 d2 H2 V2 D2) as (y3 & H3 & E3).
  rewrite E3 in *. apply (iso_start_last y0 J); (done || lia).
Qed.

(** The formats [tm_trunc] leaves to [ora_date_trunc]. *)
Definition via_day_number (c : fmt_case) : bool :=
  match c with fmt_IYYY | fmt_WW | fmt_W | fmt_IW | fmt_DAY | fmt_CC => true | _ => false end.

Lemma ora_date_trunc_spec ss f y m d :
  2 <= y <= 290000 -> valid_date y m d ->
  via_day_number (case_of f) = true -> (case_of f = fmt_CC -> y mod 100 <> 0) ->
  exists y' m' d', ora_date_trunc ss (date2j_civil y m d - POSTGRES_EPOCH_JDATE) f
                   = Ok (date2j_civil y' m' d' - POSTGRES_EPOCH_JDATE) /\
    last_start (case_of f) (date2j_civil y m d) y' m' d'.
Proof.
  intros Hy Hv Hf Hcc. pose proof Hv as [Hm Hd]. unfold ora_date_trunc. rewrite j2date_civil by (lia || done).
  destruct (iso_year_spec ss y m d Hy Hv) as (y0 & Ei & H0 & HJ).
  destruct (to_monday_spec y0 ltac:(lia)) as (_ & B0 & W0).
  pose proof (civil_bounds y0 1 1 ltac:(lia) (valid_first y0 1 ltac:(lia))) as P0.
  assert (J1 : date2j_civil y 1 1 <= date2j_civil y m d) by (apply civil_le; [lia|lia|by apply valid_first|done|lia]).
  assert (M1 : date2j_civil y m 1 <= date2j_civil y m d) by (apply civil_le; [lia|lia|by apply valid_first|done|lia]).
  assert (Hrem : forall a, a <= date2j_civil y m d ->
    date2j_civil y m d - POSTGRES_EPOCH_JDATE - Z.rem (date2j_civil y m d - POSTGRES_EPOCH_JDATE - (a - POSTGRES_EPOCH_JDATE)) 7
    = date2j_civil y m d - (date2j_civil y m d - a) mod 7 - POSTGRES_EPOCH_JDATE)
    by (intros; rewrite Z.rem_mod_nonneg by lia; lia).
  destruct (case_of f) eqn:Ec; try done; clear Hf.
  - destruct (last_iyyy y m d y0 Hy Hv ltac:(lia) HJ) as (y' & m' & d' & E & L). exists y', m', d'. by rewrite Ei, E.
  - destruct (last_ww y m d ltac:(lia) Hv) as (y' & m' & d' & E & L). exists y', m', d'.
    rewrite DATE2J_spec by lia. cbn [mbind result_bind]. by rewrite Hrem, E.
  - destruct (last_weekday fmt_IW 1 y m d (date2j_civil y m d - (date2j_civil y m d - iso_start y0) mod 7))
      as (y' & m' & d' & E & L); [done|done|by left|lia|rewrite j2day_as_mod in * by lia; lia|].
    exists y', m', d'. rewrite Ei. cbn [mbind result_bind]. by rewrite Hrem, E by lia.
  - destruct (last_w y m d ltac:(lia) Hv) as (y' & m' & d' & E & L). exists y', m', d'.
    rewrite DATE2J_spec by lia. cbn [mbind result_bind]. by rewrite Hrem, E.
  - pose proof (civil_bounds y m d ltac:(lia) Hv). unfold J2DAY. rewrite Z.sub_add.
    destruct (last_weekday fmt_DAY 0 y m d (date2j_civil y m d - j2day (date2j_civil y m d)))
      as (y' & m' & d' & E & L); [done|done|by right|rewrite j2day_as_mod by lia; lia|rewrite !j2day_as_mod by (rewrite ?j2day_as_mod by lia; lia); lia|].
    exists y', m', d'. rewrite E. split; [f_equal; lia|done].
  - replace (0 <? y) with true by lia. specialize (Hcc eq_refl). rewrite Z.quot_div_nonneg by lia.
    rewrite DATE2J_spec by lia. exists (y / 100 * 100 + 1), 1, 1. split; [done|].
    assert (V : valid_date (y / 100 * 100 + 1) 1 1) by (apply valid_first; lia).
    split; [lia|]. split; [done|]. split; [cbn; lia|]. split; [apply civil_le; lia || done|].
    intros y2 m2 d2 H2 V2 (D2 & -> & ->) Hle. apply civil_le in Hle; [|lia|lia|done|done].
    apply civil_le; lia || done.
Qed.

(** *** From timestamps to fields and back *)

Lemma stamp_fields y m d tod :
  date_ok y m d tod ->
  exists h mi s, timestamp2tm_notz (stamp y m d tod) = Some (mk_tm s mi h d m y 0 0 (-1) 0 None, tod mod USECS_PER_SEC) /\
    0 <= h < 24 /\ 0 <= mi < 60 /\ 0 <= s < 60 /\ tod = (h * 3600 + mi * 60 + s) * USECS_PER_SEC + tod mod USECS_PER_SEC.
Proof.
  intros (Hy & Hv & Ht). pose proof (civil_bounds y m d ltac:(lia) Hv). unfold timestamp2tm_notz.
  rewrite split_stamp by done. rewrite j2date_civil by (lia || done).
  replace ((_ <? 0) || _) with false by (unfold INT_MAX, POSTGRES_EPOCH_JDATE; lia).
  rewrite dt2time_spec by done. eexists _, _, _. split; [reflexivity|].
  unfold USECS_PER_DAY, USECS_PER_HOUR, USECS_PER_MINUTE, USECS_PER_SEC in *. lia.
Qed.

Lemma fields_stamp ss tm fsec :
  let tod := (tm_hour tm * 3600 + tm_min tm * 60 + tm_sec tm) * USECS_PER_SEC + fsec in
  1 <= tm_year tm <= 290001 -> 1 <= tm_mon tm <= 12 ->
  1 <= date2j_civil (tm_year tm) (tm_mon tm) (tm_mday tm) <= 107650000 -> 0 <= tod <= USECS_PER_DAY ->
  tm2timestamp ss tm fsec None = Ok (Some (stamp (tm_year tm) (tm_mon tm) (tm_mday tm) tod)).
Proof.
  intros tod Hy Hm Hc Ht. unfold tm2timestamp.
  replace (IS_VALID_JULIAN _ _) with true by (unfold IS_VALID_JULIAN, JULIAN_MINYEAR, JULIAN_MAXYEAR; lia).
  cbn [negb]. rewrite date2j_plain by lia. cbn [mbind result_bind]. unfold stamp, time2t.
  replace (((tm_hour tm * 60 + tm_min tm) * 60 + tm_sec tm) * USECS_PER_SEC + fsec) with tod by (unfold tod; lia).
  set (c := date2j_civil _ _ _) in *. clearbody c tod. unfold POSTGRES_EPOCH_JDATE, USECS_PER_DAY in *.
  rewrite !bool_decide_eq_true_2 by (unfold is_int64, INT64_MIN, INT64_MAX; lia). cbn [negb].
  replace (IS_VALID_TIMESTAMP _) with true; [done|]. unfold IS_VALID_TIMESTAMP, MIN_TIMESTAMP, END_TIMESTAMP. lia.
Qed.

Lemma stamp_finite y m d tod : date_ok y m d tod -> TIMESTAMP_NOT_FINITE (stamp y m d tod) = false.
Proof.
  intros (Hy & Hv & Ht). pose proof (civil_bounds y m d ltac:(lia) Hv).
  unfold TIMESTAMP_NOT_FINITE, stamp, INT64_MIN, INT64_MAX, USECS_PER_DAY, POSTGRES_EPOCH_JDATE in *. lia.
Qed.

Lemma stamp_le_day y m d tod y2 m2 d2 tod2 :
  0 <= tod < USECS_PER_DAY -> 0 <= tod2 < USECS_PER_DAY ->
  stamp y2 m2 d2 tod2 <= stamp y m d tod <->
  date2j_civil y2 m2 d2 < date2j_civil y m d \/ (date2j_civil y2 m2 d2 = date2j_civil y m d /\ tod2 <= tod).
Proof. unfold stamp, USECS_PER_DAY. intros. lia. Qed.

(** The result of [tm_trunc] as a date: the last period start. *)
Lemma tm_trunc_day ss lc fmt f y m d h mi s :
  ora_seq_search lc fmt date_fmt (length fmt) = f -> 0 <= f -> 2 <= y <= 290000 -> valid_date y m d ->
  (case_of f = fmt_CC -> y mod 100 <> 0) ->
  exists y' m' d', tm_trunc ss lc (mk_tm s mi h d m y 0 0 (-1) 0 None) fmt
      = Ok (mk_tm 0 (match case_of f with fmt_MI => mi | _ => 0 end)
              (match case_of f with fmt_MI | fmt_HH => h | _ => 0 end) d' m' y' 0 0 (-1) 0 None) /\
    last_start (case_of f) (date2j_civil y m d) y' m' d'.
Proof.
  intros Ef Hf Hy Hv Hcc. pose proof Hv as [Hm Hd]. unfold tm_trunc. rewrite Ef. unfold CHECK_SEQ_SEARCH.
  replace (f <? 0) with false by lia. unfold set_time, set_date.
  cbn [mbind result_bind tm_year tm_mon tm_mday tm_hour tm_min tm_sec tm_wday tm_yday tm_isdst tm_gmtoff tm_zone].
  destruct (via_day_number (case_of f)) eqn:Ev.
  - destruct (ora_date_trunc_spec ss f y m d Hy Hv Ev Hcc) as (y' & m' & d' & E & L). exists y', m', d'. split; [|done].
    destruct L as (H1 & V' & _ & Hle & _). apply civil_le in Hle; [|lia|lia|done|done].
    assert (Ej : j2date (date2j_civil y' m' d' - POSTGRES_EPOCH_JDATE + POSTGRES_EPOCH_JDATE) = (y', m', d'))
      by (apply j2date_civil; lia || done).
    destruct (case_of f); try done; rewrite DATE2J_spec by lia; cbn [mbind result_bind]; rewrite E; cbn [mbind result_bind];
      by rewrite Ej.
  - clear Hcc. destruct (case_of f); try done; (eexists _, _, _; split; [reflexivity|]).
    all: split; [lia|]; (split; [first [done|apply valid_first; lia]|]).
    all: try (split; [done|]; split; [lia|]; intros; lia).
    all: split; [unfold day_start; lia|]; (split; [apply civil_le; [lia|lia|apply valid_first; lia|done|lia]|]);
      intros y2 m2 d2 H2 V2 D2 Hle; unfold day_start in D2;
      (apply civil_le in Hle; [|lia|lia|done|done]); pose proof V2 as [? ?];
      (apply civil_le; [lia|lia|done|apply valid_first; lia|lia]).
Qed.

(** For the time formats every day starts a period. *)
Lemma last_start_today c y m d y' m' d' :
  1 <= y -> valid_date y m d -> last_start c (date2j_civil y m d) y' m' d' ->
  match c with fmt_DDD | fmt_HH | fmt_MI => date2j_civil y' m' d' = date2j_civil y m d | _ => True end.
Proof.
  intros Hy Hv (_ & _ & _ & Hle & Hmax). specialize (Hmax y m d Hy Hv).
  destruct c; try done; specialize (Hmax I ltac:(lia)); lia.
Qed.

Lemma civil_year_bounds y m d :
  1 <= y -> valid_date y m d -> date2j_civil y 1 1 <= date2j_civil y m d < date2j_civil (y + 1) 1 1.
Proof.
  intros Hy Hv. pose proof Hv as [Hm Hd]. split.
  - apply civil_le; [lia|lia|by apply valid_first|done|lia].
  - apply date2j_civil_lt; [lia|lia|done|by apply valid_first|left; lia].
Qed.

(** TRUNC to the century in the last year of one (a multiple of 100)
    returns the first day of the next century, which is after the argument. *)
Theorem ora_trunc_century_late ss lc fmt f y m d tod :
  ora_seq_search lc fmt date_fmt (length fmt) = f -> 0 <= f -> case_of f = fmt_CC ->
  date_ok y m d tod -> y mod 100 = 0 ->
  ora_trunc ss lc (stamp y m d tod) (Some fmt) = Ok (stamp (y + 1) 1 1 0) /\ stamp y m d tod < stamp (y + 1) 1 1 0.
Proof.
  intros Ef Hf Hc Hok Hmod. pose proof Hok as (Hy & Hv & Ht). pose proof Hv as [Hm Hd].
  pose proof (valid_first (y + 1) 1 ltac:(lia)) as V1. pose proof (civil_bounds (y + 1) 1 1 ltac:(lia) V1). split.
  - unfold ora_trunc. rewrite stamp_finite by done. destruct (stamp_fields y m d tod Hok) as (h & mi & s & -> & _).
    cbn [from_option id]. unfold tm_trunc. rewrite Ef, Hc. unfold CHECK_SEQ_SEARCH. replace (f <? 0) with false by lia.
    cbn [mbind result_bind tm_year tm_mon tm_mday]. rewrite DATE2J_spec by lia. cbn [mbind result_bind].
    unfold ora_date_trunc. rewrite j2date_civil, Hc by (lia || done). replace (0 <? y) with true by lia.
    rewrite Z.quot_div_nonneg by lia. replace (y / 100 * 100 + 1) with (y + 1) by lia. rewrite DATE2J_spec by lia.
    cbn [mbind result_bind]. rewrite j2date_civil by (lia || done). unfold set_time, set_date. cbn [mbind result_bind].
    rewrite fields_stamp; cbn [tm_year tm_mon tm_mday tm_hour tm_min tm_sec]; [done|lia|lia|lia|unfold USECS_PER_SEC, USECS_PER_DAY; lia].
  - pose proof (civil_year_bounds y m d ltac:(lia) Hv). unfold stamp, USECS_PER_DAY in *. lia.
Qed.

(** C31. TRUNC on AD dates from year 2 on, in all twelve groups of formats,
    returns the last start of a period of the format that is not after the
    argument: the result is such a start, it is not after the argument, and no
    other start lies between them.  The exception are the century formats in
    years that are multiples of 100, where it returns the first day of the next
    century, which is after the argument. *)
Theorem ora_trunc_last_start ss lc fmt f y m d tod :
  ora_seq_search lc fmt date_fmt (length fmt) = f -> 0 <= f -> date_ok y m d tod -> 2 <= y ->
  (case_of f = fmt_CC -> y mod 100 = 0 ->
   ora_trunc ss lc (stamp y m d tod) (Some fmt) = Ok (stamp (y + 1) 1 1 0) /\ stamp y m d tod < stamp (y + 1) 1 1 0) /\
  ((case_of f = fmt_CC -> y mod 100 <> 0) ->
   exists y' m' d' tod',
     ora_trunc ss lc (stamp y m d tod) (Some fmt) = Ok (stamp y' m' d' tod') /\
     1 <= y' /\ valid_date y' m' d' /\ 0 <= tod' < USECS_PER_DAY /\ unit_start (case_of f) y' m' d' tod' /\
     stamp y' m' d' tod' <= stamp y m d tod /\
     forall y2 m2 d2 tod2, 1 <= y2 -> valid_date y2 m2 d2 -> 0 <= tod2 < USECS_PER_DAY ->
       unit_start (case_of f) y2 m2 d2 tod2 -> stamp y2 m2 d2 tod2 <= stamp y m d tod ->
       stamp y2 m2 d2 tod2 <= stamp y' m' d' tod').
Proof.
  intros Ef Hf Hok Hy2. split; [intros; by eapply ora_trunc_century_late|]. intros Hcc. pose proof Hok as (Hy & Hv & Ht). unfold ora_trunc. rewrite stamp_finite by done.
  destruct (stamp_fields y m d tod Hok) as (h & mi & s & -> & Hh & Hmi & Hs & Et). cbn [from_option id].
  destruct (tm_trunc_day ss lc fmt f y m d h mi s Ef Hf ltac:(lia) Hv Hcc) as (y' & m' & d' & -> & L).
  cbn [mbind result_bind]. pose proof L as (H1 & V' & Hday & Hle & Hmax).
  assert (Hy' : y' <= y) by (apply civil_le in Hle; [lia|lia|lia|done|done]).
  pose proof (civil_bounds y' m' d' ltac:(lia) V') as Hb.
  set (tod' := (match case_of f with fmt_MI | fmt_HH => h | _ => 0 end * 3600
                + match case_of f with fmt_MI => mi | _ => 0 end * 60 + 0) * USECS_PER_SEC + 0).
  assert (Ht' : 0 <= tod' < USECS_PER_DAY) by (unfold tod', USECS_PER_DAY, USECS_PER_SEC; destruct (case_of f); lia).
  rewrite fields_stamp; cbn [tm_year tm_mon tm_mday tm_hour tm_min tm_sec]; fold tod'; [|lia|destruct V'; lia|lia|lia].
  cbn [mbind result_bind]. exists y', m', d', tod'. split; [done|]. split; [done|]. split; [done|]. split; [done|].
  assert (Htod : tod' <= tod /\ match case_of f with
      | fmt_HH => tod' mod USECS_PER_HOUR = 0 | fmt_MI => tod' mod USECS_PER_MINUTE = 0 | _ => tod' = 0 end /\
      (match case_of f with fmt_HH => tod - tod' < USECS_PER_HOUR | fmt_MI => tod - tod' < USECS_PER_MINUTE | _ => True end)).
  { rewrite Et. unfold tod', USECS_PER_SEC, USECS_PER_HOUR, USECS_PER_MINUTE in *. destruct (case_of f); lia. }
  destruct Htod as (T1 & T2 & T3). split; [split; [done|exact T2]|]. split; [apply stamp_le_day; (done || lia)|].
  intros y2 m2 d2 tod2 H2 V2 B2 (D2 & U2) Hs2. apply stamp_le_day in Hs2; [|done|done]. apply stamp_le_day; [done|done|].
  specialize (Hmax y2 m2 d2 H2 V2 D2 ltac:(lia)). unfold USECS_PER_HOUR, USECS_PER_MINUTE in *.
  pose proof (last_start_today _ y m d _ _ _ ltac:(lia) Hv L) as Hd. destruct (case_of f); lia.
Qed.

Lemma ora_trunc_last_start_witness :
  exists y' m' d' tod',
    ora_trunc (mk_session ORA_PARSER 0 example_zone) (mk_ctype (fun _ => false) id) (stamp 2027 1 2 50000000000) (Some (lit "IW"))
      = Ok (stamp y' m' d' tod') /\ unit_start fmt_IW y' m' d' tod' /\ stamp y' m' d' tod' <= stamp 2027 1 2 50000000000.
Proof.
  assert (Hd : date_ok 2027 1 2 50000000000) by (vm_compute; intuition congruence).
  destruct (proj2 (ora_trunc_last_start (mk_session ORA_PARSER 0 example_zone) (mk_ctype (fun _ => false) id) (lit "IW") 13
              2027 1 2 50000000000 eq_refl ltac:(lia) Hd ltac:(lia)) ltac:(discriminate))
    as (y' & m' & d' & tod' & E & _ & _ & _ & U & L & _).
  exists y', m', d', tod'. split; [exact E|]. split; [exact U|exact L].
Defined.

Lemma last_day_correct_witness :
  last_day (mk_session ORA_PARSER 0 example_zone) 0 (stamp 2024 2 3 1000000) = Ok (stamp 2024 2 29 1000000).
Proof.
  assert (Hd : date_ok 2024 2 3 1000000) by (vm_compute; intuition congruence).
  exact (proj1 (last_day_correct (mk_session ORA_PARSER 0 example_zone) 0 2024 2 3 1000000 Hd)).
Defined.

Lemma next_day_first_witness :
  exists D, next_day_by_index (stamp 2023 8 17 5000000) 5 = Ok ((D - POSTGRES_EPOCH_JDATE) * USECS_PER_DAY + 5000000) /\
    j2day D = 4.
Proof.
  assert (Hd : date_ok 2023 8 17 5000000) by (vm_compute; intuition congruence).
  destruct (next_day_first 2023 8 17 5000000 5 Hd) as (D & E & _ & W & _). exists D. split; [exact E|exact W].
Defined.

(** ** ROUND *)

(** A day number, as a date. *)
Lemma civil_of_day J y :
  1 <= y <= 290001 -> date2j_civil y 1 1 <= J < date2j_civil (y + 1) 1 1 ->
  exists m d, valid_date y m d /\ date2j_civil y m d = J.
Proof.
  intros Hy HJ. pose proof (civil_bounds y 1 1 ltac:(lia) (valid_first y 1 ltac:(lia))).
  destruct (day_of_civil J y) as (y' & m & d & _ & Hy' & V & E); [lia|lia|lia|].
  assert (y' = y) as ->; [|eauto].
  rewrite <- E in HJ. destruct HJ as [HJ _]. apply civil_le in HJ; [lia|lia|lia|by apply valid_first|done].
Qed.

(** The day after, as a date. *)
Lemma civil_tomorrow y m d :
  1 <= y -> valid_date y m d -> exists y' m' d', y <= y' <= y + 1 /\ valid_date y' m' d' /\
    date2j_civil y' m' d' = date2j_civil y m d + 1.
Proof.
  intros Hy Hv. pose proof (date2j_civil_next y m d ltac:(lia) Hv) as H.
  unfold Gregorian.next_day in H. destruct (d <? month_days y m), (m <? 12); destruct H as [V E]; (eexists _, _, _; split; [|split; [exact V|exact E]]; lia).
Qed.

(** 24 hours on a date are midnight of the next. *)
Lemma stamp_normal y m d tod :
  1 <= y -> valid_date y m d -> 0 <= tod <= USECS_PER_DAY ->
  exists y' m' d', y <= y' <= y + 1 /\ valid_date y' m' d' /\ stamp y m d tod = stamp y' m' d' (tod mod USECS_PER_DAY).
Proof.
  intros Hy Hv Ht. destruct (decide (tod = USECS_PER_DAY)) as [->|].
  - destruct (civil_tomorrow y m d Hy Hv) as (y' & m' & d' & H & V & E). exists y', m', d'. split; [done|]. split; [done|].
    unfold stamp. rewrite E. unfold USECS_PER_DAY. lia.
  - exists y, m, d. rewrite Z.mod_small by lia. split; [lia|]. done.
Qed.

Lemma civil_month13 y d : date2j_civil y 13 d = date2j_civil (y + 1) 1 d.
Proof. rewrite (date2j_civil_hi y 13), (date2j_civil_lo (y + 1) 1) by lia. replace (y + 1 + 4799) with (y + 4800) by lia. lia. Qed.

(** The first of the next month, whichever way its month is counted. *)
Lemma civil_next_month y m :
  1 <= y -> 1 <= m <= 12 -> date2j_civil y (m + 1) 1 = date2j_civil y m 1 + month_days y m.
Proof.
  intros Hy Hm. rewrite (date2j_civil_day y (m + 1)), (date2j_civil_day y m 1). destruct (decide (m = 12)) as [->|].
  - change (12 + 1) with 13. rewrite civil_month13, date2j_civil_year by lia. change (month_days y 12) with
      (nth 11 (day_tab (isleap y)) 0). destruct (isleap y); cbn [nth day_tab]; lia.
  - rewrite date2j_civil_month by lia. lia.
Qed.

(** The nearest multiple of a week from [B], the later one from the middle on. *)
Definition week_round (J B : Z) : Z := J - (J - B) mod 7 + (if (J - B) mod 7 <? 4 then 0 else 7).

Lemma week_round_spec J B : (week_round J B - B) mod 7 = 0 /\ J - 3 <= week_round J B <= J + 3.
Proof. unfold week_round. case_match; lia. Qed.

(** Where the weeks of a format are counted from, for the date [y m _]. *)
Definition week_base (c : fmt_case) (y m : Z) : Z :=
  match c with fmt_WW => date2j_civil y 1 1 | fmt_W => date2j_civil y m 1 | _ => -1 end.

Definition is_week (c : fmt_case) : bool := match c with fmt_WW | fmt_W | fmt_DAY => true | _ => false end.

Lemma ora_date_round_week ss f y m d :
  1 <= y <= 290002 -> valid_date y m d -> is_week (case_of f) = true ->
  ora_date_round ss (date2j_civil y m d - POSTGRES_EPOCH_JDATE) f
    = Ok (week_round (date2j_civil y m d) (week_base (case_of f) y m) - POSTGRES_EPOCH_JDATE).
Proof.
  intros Hy Hv Hw. pose proof Hv as [Hm Hd]. unfold ora_date_round. rewrite j2date_civil by done.
  pose proof (civil_bounds y m d Hy Hv).
  pose proof (civil_year_bounds y m d ltac:(lia) Hv).
  assert (date2j_civil y m 1 <= date2j_civil y m d) by (rewrite (date2j_civil_day y m d), (date2j_civil_day y m 1); lia).
  unfold week_round, week_base, J2DAY. rewrite Z.sub_add.
  destruct (case_of f); try done; clear Hw; rewrite ?DATE2J_spec by lia; cbn [mbind result_bind].
  - rewrite Z.rem_mod_nonneg by lia.
    replace (date2j_civil y m d - POSTGRES_EPOCH_JDATE - (date2j_civil y 1 1 - POSTGRES_EPOCH_JDATE))
      with (date2j_civil y m d - date2j_civil y 1 1) by lia. f_equal. lia.
  - rewrite Z.rem_mod_nonneg by lia.
    replace (date2j_civil y m d - POSTGRES_EPOCH_JDATE - (date2j_civil y m 1 - POSTGRES_EPOCH_JDATE))
      with (date2j_civil y m d - date2j_civil y m 1) by lia. f_equal. lia.
  - replace (0 <? y) with true by lia. rewrite j2day_as_mod by lia.
    replace (date2j_civil y m d - -1) with (date2j_civil y m d + 1) by lia. f_equal. lia.
Qed.

Lemma week_round_start c y m d :
  2 <= y <= 290000 -> valid_date y m d -> is_week c = true ->
  exists y' m' d', date2j_civil y' m' d' = week_round (date2j_civil y m d) (week_base c y m) /\
    1 <= y' <= y + 1 /\ valid_date y' m' d' /\ day_start c y' m' d'.
Proof.
  intros Hy Hv Hw. pose proof Hv as [Hm Hd].
  destruct (week_round_spec (date2j_civil y m d) (week_base c y m)) as [W B].
  pose proof (civil_year_bounds y m d ltac:(lia) Hv) as HY. pose proof (year_length y ltac:(lia)) as HL.
  pose proof (year_length (y + 1) ltac:(lia)) as HL'.
  assert (H2 : date2j_civil 2 1 1 <= date2j_civil y 1 1) by (apply civil_le; [lia|lia|by apply valid_first..|lia]).
  change (date2j_civil 2 1 1) with 1721791 in H2. set (r := week_round _ _) in *. clearbody r.
  destruct c; try done; clear Hw; cbn [week_base day_start] in *.
  - destruct (civil_of_day r y) as (m' & d' & V & <-); [lia|destruct (isleap y); lia|].
    exists y, m', d'. split; [done|]. split; [lia|]. done.
  - pose proof (month_days_range y m Hm). rewrite (date2j_civil_day y m d) in *. rewrite (date2j_civil_day y m 1) in W.
    destruct (decide (r - date2j_civil y m 0 <= month_days y m)).
    + exists y, m, (r - date2j_civil y m 0). split; [rewrite date2j_civil_day; lia|]. split; [lia|].
      split; [split; [done|lia]|lia].
    + pose proof (civil_next_month y m ltac:(lia) Hm) as Hn. rewrite (date2j_civil_day y m 1) in Hn.
      destruct (decide (m = 12)) as [->|].
      * exists (y + 1), 1, 1. change (12 + 1) with 13 in Hn. rewrite civil_month13 in Hn.
        split; [lia|]. split; [lia|]. split; [by apply valid_first|done].
      * exists y, (m + 1), 1. split; [lia|]. split; [lia|]. split; [apply valid_first; lia|done].
  - destruct (day_of_civil r (y + 1)) as (y' & m' & d' & _ & Hy' & V & <-); [lia|lia|destruct (isleap (y + 1)); lia|].
    exists y', m', d'. split; [done|]. split; [lia|]. split; [done|]. rewrite j2day_as_mod by lia. lia.
Qed.

(** Rounding the day, with the afternoon counted as the next day unless that is
    switched off, rounds the time to the nearer week start. *)
Lemma week_half J tod B (rounded : bool) :
  0 <= tod < USECS_PER_DAY -> (rounded = false -> (J - B) mod 7 <> 3) ->
  let r := week_round (if rounded then J + (if 12 * USECS_PER_HOUR <=? tod then 1 else 0) else J) B in
  2 * (r * USECS_PER_DAY) - 7 * USECS_PER_DAY <= 2 * (J * USECS_PER_DAY + tod) < 2 * (r * USECS_PER_DAY) + 7 * USECS_PER_DAY.
Proof.
  unfold week_round, USECS_PER_DAY, USECS_PER_HOUR. intros Ht Hr.
  destruct rounded; [clear Hr; destruct (12 * 3600000000 <=? tod) eqn:E|specialize (Hr eq_refl)]; cbv zeta;
    destruct (_ mod 7 <? 4) eqn:?; lia.
Qed.

Lemma round_rule_week ss f y m d tm :
  1 <= y -> valid_date y m d -> tm_year tm = y -> tm_mon tm = m -> tm_mday tm = d -> is_week (case_of f) = true ->
  exists rounded, round_rule ss tm f = Ok rounded /\
    (rounded = false -> (date2j_civil y m d - week_base (case_of f) y m) mod 7 <> 3).
Proof.
  intros Hy Hv <- <- <- Hw. pose proof Hv as [Hm Hd]. unfold round_rule.
  destruct (case_of f); try done; rewrite ?DATE2J_spec by lia; cbn [mbind result_bind week_base];
    (eexists; split; [reflexivity|]); intros Hr; try done; apply negb_false_iff, Z.eqb_eq in Hr.
  - pose proof (year_length (tm_year tm) Hy). destruct (isleap (tm_year tm)); lia.
  - rewrite civil_next_month in Hr by lia. pose proof (month_days_range (tm_year tm) (tm_mon tm) Hm). lia.
Qed.

Lemma tm_round_week ss lc fmt f y m d h mi s tod :
  ora_seq_search lc fmt date_fmt (length fmt) = f -> 0 <= f -> 2 <= y < 290000 -> valid_date y m d ->
  0 <= tod < USECS_PER_DAY -> (12 <=? h) = (12 * USECS_PER_HOUR <=? tod) -> is_week (case_of f) = true ->
  exists y' m' d', tm_round ss lc (mk_tm s mi h d m y 0 0 (-1) 0 None) fmt
      = Ok (mk_tm 0 0 0 d' m' y' 0 0 (-1) 0 None) /\
    1 <= y' <= 290001 /\ valid_date y' m' d' /\ day_start (case_of f) y' m' d' /\
    2 * stamp y' m' d' 0 - 7 * USECS_PER_DAY <= 2 * stamp y m d tod < 2 * stamp y' m' d' 0 + 7 * USECS_PER_DAY.
Proof.
  intros Ef Hf Hy Hv Ht Hh Hw. pose proof Hv as [Hm Hd]. unfold tm_round. rewrite Ef. unfold CHECK_SEQ_SEARCH.
  replace (f <? 0) with false by lia. unfold set_time, set_date.
  destruct (round_rule_week ss f y m d (mk_tm s mi h d m y 0 0 (-1) 0 None)) as (rounded & Er & Hz); [lia|done..|].
  cbn [mbind result_bind]. rewrite Er.
  cbn [mbind result_bind tm_year tm_mon tm_mday tm_hour tm_min tm_sec tm_wday tm_yday tm_isdst tm_gmtoff tm_zone].
  rewrite Hh. set (k := if rounded then d + (if 12 * USECS_PER_HOUR <=? tod then 1 else 0) else d).
  assert (Hk : exists y1 m1 d1, 2 <= y1 <= 290000 /\ valid_date y1 m1 d1 /\ date2j_civil y1 m1 d1 = date2j_civil y m k /\
                 (rounded = false -> y1 = y /\ m1 = m /\ k = d)).
  { destruct (decide (k = d)) as [->|Hne]; [exists y, m, d; split; [lia|done]|].
    destruct (civil_tomorrow y m d ltac:(lia) Hv) as (y1 & m1 & d1 & H1 & V1 & E1). exists y1, m1, d1.
    split; [lia|]. split; [done|]. unfold k in *. destruct rounded; [|done]. split; [|done].
    rewrite E1, (date2j_civil_day y m d), (date2j_civil_day y m (d + _)). destruct (_ <=? tod); lia. }
  destruct Hk as (y1 & m1 & d1 & Hy1 & V1 & E1 & Hsame).
  destruct (week_round_start (case_of f) y1 m1 d1 Hy1 V1 Hw) as (y' & m' & d' & E & Hy' & V' & D').
  pose proof (ora_date_round_week ss f y1 m1 d1 ltac:(lia) V1 Hw) as Eo. rewrite <- E, E1 in Eo.
  exists y', m', d'. split.
  { destruct (case_of f); try done; rewrite DATE2J_spec by lia; cbn [mbind result_bind]; rewrite Eo; cbn [mbind result_bind];
      by rewrite j2date_civil by (lia || done). }
  split; [lia|]. split; [done|]. split; [done|].
  pose proof (week_half (date2j_civil y m d) tod (week_base (case_of f) y1 m1) rounded Ht) as Hhalf.
  assert (Ek : date2j_civil y m k = if rounded then date2j_civil y m d + (if 12 * USECS_PER_HOUR <=? tod then 1 else 0)
                                    else date2j_civil y m d).
  { rewrite (date2j_civil_day y m d), (date2j_civil_day y m k). unfold k. destruct rounded; lia. }
  rewrite <- Ek, <- E1, <- E in Hhalf. unfold stamp. cbv zeta in Hhalf. unfold USECS_PER_DAY, POSTGRES_EPOCH_JDATE in *.
  destruct rounded; [specialize (Hhalf ltac:(done)); lia|].
  destruct (Hsame eq_refl) as (-> & -> & _). specialize (Hhalf Hz). lia.
Qed.

(** Length of the period of the formats whose periods have a fixed length. *)
Definition period_length (c : fmt_case) : option Z :=
  match c with
  | fmt_WW | fmt_W | fmt_DAY => Some (7 * USECS_PER_DAY)
  | fmt_DDD => Some USECS_PER_DAY
  | fmt_HH => Some USECS_PER_HOUR
  | fmt_MI => Some USECS_PER_MINUTE
  | _ => None
  end.

(** The fields [tm_round] leaves for the time formats. *)
Lemma tm_round_time ss lc fmt f y m d h mi s :
  ora_seq_search lc fmt date_fmt (length fmt) = f -> 0 <= f -> is_week (case_of f) = false ->
  period_length (case_of f) <> None -> 0 <= h < 24 -> 0 <= mi < 60 -> 0 <= s < 60 ->
  exists d' h' mi', tm_round ss lc (mk_tm s mi h d m y 0 0 (-1) 0 None) fmt
      = Ok (mk_tm 0 mi' h' d' m y 0 0 (-1) 0 None) /\
    (let tod := (h * 3600 + mi * 60 + s) * USECS_PER_SEC in
     let tod' := (d' - d) * USECS_PER_DAY + (h' * 3600 + mi' * 60) * USECS_PER_SEC in
     0 <= tod' <= USECS_PER_DAY /\ d <= d' <= d + 1 /\ 0 <= (h' * 3600 + mi' * 60) * USECS_PER_SEC <= USECS_PER_DAY /\
     match case_of f with
     | fmt_DDD => tod' mod USECS_PER_DAY = 0 /\ 2 * tod' - USECS_PER_DAY <= 2 * tod < 2 * tod' + USECS_PER_DAY
     | fmt_HH => tod' mod USECS_PER_HOUR = 0 /\ 2 * tod' - USECS_PER_HOUR <= 2 * tod < 2 * tod' + USECS_PER_HOUR
     | _ => tod' mod USECS_PER_MINUTE = 0 /\ 2 * tod' - USECS_PER_MINUTE <= 2 * tod < 2 * tod' + USECS_PER_MINUTE
     end).
Proof.
  intros Ef Hf Hw Hp Hh Hmi Hs. unfold tm_round. rewrite Ef. unfold CHECK_SEQ_SEARCH.
  replace (f <? 0) with false by lia. unfold set_time, set_date, round_rule. cbn [mbind result_bind].
  destruct (case_of f); try done;
    cbn [mbind result_bind tm_year tm_mon tm_mday tm_hour tm_min tm_sec tm_wday tm_yday tm_isdst tm_gmtoff tm_zone];
    (eexists _, _, _; split; [reflexivity|]); cbv zeta;
    unfold USECS_PER_DAY, USECS_PER_HOUR, USECS_PER_MINUTE, USECS_PER_SEC; case_match; lia.
Qed.

(** ROUND to a week (WW, W, DAY), a day, an hour or a minute: the result
    starts a period of the format, and the argument lies within half a period of
    it, the middle itself being rounded up. *)
Theorem ora_round_half ss lc fmt f y m d tod u :
  ora_seq_search lc fmt date_fmt (length fmt) = f -> 0 <= f -> period_length (case_of f) = Some u ->
  date_ok y m d tod -> 2 <= y < 290000 -> tod mod USECS_PER_SEC = 0 ->
  exists y' m' d' tod',
    ora_round ss lc (stamp y m d tod) (Some fmt) = Ok (stamp y' m' d' tod') /\
    1 <= y' /\ valid_date y' m' d' /\ 0 <= tod' < USECS_PER_DAY /\ unit_start (case_of f) y' m' d' tod' /\
    2 * stamp y' m' d' tod' - u <= 2 * stamp y m d tod < 2 * stamp y' m' d' tod' + u.
Proof.
  intros Ef Hf Hu Hok Hy2 Hsec. pose proof Hok as (Hy & Hv & Ht). pose proof Hv as [Hm Hd].
  pose proof (civil_bounds y m d ltac:(lia) Hv) as Hb. unfold ora_round. rewrite stamp_finite by done.
  destruct (stamp_fields y m d tod Hok) as (h & mi & s & -> & Hh & Hmi & Hs & Et). cbn [from_option id].
  rewrite Hsec in *. destruct (is_week (case_of f)) eqn:Hw.
  - destruct (tm_round_week ss lc fmt f y m d h mi s tod Ef Hf Hy2 Hv Ht) as (y' & m' & d' & -> & Hy' & V' & D' & Hx);
      [unfold USECS_PER_HOUR, USECS_PER_SEC in *; lia|done|].
    pose proof (civil_bounds y' m' d' ltac:(lia) V'). cbn [mbind result_bind].
    rewrite fields_stamp; cbn [tm_year tm_mon tm_mday tm_hour tm_min tm_sec]; [|lia|destruct V'; lia|lia|unfold USECS_PER_SEC, USECS_PER_DAY; lia].
    exists y', m', d', 0. split; [done|]. split; [lia|]. split; [done|]. split; [vm_compute; intuition congruence|].
    split; [split; [done|by destruct (case_of f)]|]. destruct (case_of f); try done; by injection Hu as <-.
  - destruct (tm_round_time ss lc fmt f y m d h mi s Ef Hf Hw ltac:(congruence) Hh Hmi Hs) as (d' & h' & mi' & -> & Ht' & Hdd & Hhh & Hx).
    cbn [mbind result_bind].
    assert (Hd' : date2j_civil y m d' = date2j_civil y m d + (d' - d)) by (rewrite (date2j_civil_day y m d'), (date2j_civil_day y m d); lia).
    set (tod' := (d' - d) * USECS_PER_DAY + (h' * 3600 + mi' * 60) * USECS_PER_SEC) in *.
    rewrite fields_stamp; cbn [tm_year tm_mon tm_mday tm_hour tm_min tm_sec]; [|lia|lia|clear -Hdd Hd' Hb; lia|
      clear -Hhh; lia].
    cbn [mbind result_bind].
    replace (stamp y m d' _) with (stamp y m d tod') by (unfold stamp, tod'; rewrite Hd'; ring).
    destruct (stamp_normal y m d tod' ltac:(lia) Hv Ht') as (y' & m' & d2 & Hy' & V' & E).
    exists y', m', d2, (tod' mod USECS_PER_DAY). rewrite <- E. split; [done|]. split; [clear -Hy Hy'; lia|]. split; [done|].
    split; [clear; unfold USECS_PER_DAY; lia|]. unfold unit_start, stamp. clearbody tod'. rewrite Z.add_0_r in Et. rewrite <- Et in Hx.
    clear -Hx Ht' Hu Hw.
    destruct (case_of f); try done; injection Hu as <-; destruct Hx;
      unfold USECS_PER_DAY, USECS_PER_HOUR, USECS_PER_MINUTE in *; (split; [split; [done|]|]); lia.
Qed.

Lemma ora_round_half_witness :
  exists y' m' d' tod',
    ora_round (mk_session ORA_PARSER 0 example_zone) (mk_ctype (fun _ => false) id) (stamp 2023 12 31 86370000000) (Some (lit "Mi"))
      = Ok (stamp y' m' d' tod') /\ unit_start fmt_MI y' m' d' tod'.
Proof.
  assert (Hd : date_ok 2023 12 31 86370000000) by (vm_compute; intuition congruence).
  destruct (ora_round_half (mk_session ORA_PARSER 0 example_zone) (mk_ctype (fun _ => false) id) (lit "Mi") 30
              2023 12 31 86370000000 USECS_PER_MINUTE eq_refl ltac:(lia) eq_refl Hd ltac:(lia) eq_refl)
    as (y' & m' & d' & tod' & E & _ & _ & _ & U & _).
  exists y', m', d', tod'. split; [exact E|exact U].
Defined.

(** *** Years, quarters and months *)

Definition is_calendar (c : fmt_case) : bool := match c with fmt_YYYY | fmt_Q | fmt_MON => true | _ => false end.

(** The first half of the period: up to June, to the 15th of the month, to the
    15th of the middle month. *)
Definition first_half (c : fmt_case) (m d : Z) : bool :=
  match c with
  | fmt_YYYY => m <=? 6
  | fmt_MON => d <=? 15
  | _ => ((m - 1) mod 3 =? 0) || (((m - 1) mod 3 =? 1) && (d <=? 15))
  end.

(** Year and month the period starts with, and those of the next period. *)
Definition period_month (c : fmt_case) (m : Z) : Z :=
  match c with fmt_YYYY => 1 | fmt_MON => m | _ => (m - 1) / 3 * 3 + 1 end.

Definition next_period (c : fmt_case) (y m : Z) : Z * Z :=
  let n := period_month c m + match c with fmt_YYYY => 12 | fmt_MON => 1 | _ => 3 end in
  if n <=? 12 then (y, n) else (y + 1, 1).

Definition round_period (c : fmt_case) (y m d : Z) : Z * Z :=
  if first_half c m d then (y, period_month c m) else next_period c y m.

Lemma round_period_valid c y m d :
  1 <= y -> 1 <= m <= 12 -> let '(y', m') := round_period c y m d in y <= y' <= y + 1 /\ 1 <= m' <= 12.
Proof. intros. unfold round_period, next_period, period_month. destruct c; repeat case_match; simplify_eq; lia. Qed.

Lemma ora_date_round_calendar ss f y m d :
  1 <= y <= 290001 -> valid_date y m d -> is_calendar (case_of f) = true ->
  let '(y', m') := round_period (case_of f) y m d in
  ora_date_round ss (date2j_civil y m d - POSTGRES_EPOCH_JDATE) f = Ok (date2j_civil y' m' 1 - POSTGRES_EPOCH_JDATE).
Proof.
  intros Hy Hv Hc. pose proof Hv as [Hm Hd]. unfold ora_date_round. rewrite j2date_civil by (lia || done).
  assert (Hcmp : forall m2 d2, 1 <= m2 <= 12 -> 1 <= d2 <= 16 ->
    (date2j_civil y m d - POSTGRES_EPOCH_JDATE <? date2j_civil y m2 d2 - POSTGRES_EPOCH_JDATE)
    = (m <? m2) || ((m =? m2) && (d <? d2))).
  { intros m2 d2 Hm2 Hd2. pose proof (month_days_range y m2 Hm2).
    pose proof (civil_le y m2 d2 y m d ltac:(lia) ltac:(lia) ltac:(split; lia) Hv) as Hle. apply eq_iff_eq_true. lia. }
  unfold round_period, first_half, next_period, period_month. destruct (case_of f); try done; clear Hc.
  - rewrite DATE2J_spec by lia. cbn [mbind result_bind]. rewrite Hcmp by lia.
    replace ((m <? 7) || _) with (m <=? 6) by lia. destruct (m <=? 6); rewrite DATE2J_spec by lia; cbn [Z.leb]; [|done].
    by rewrite Z.add_0_r.
  - rewrite Z.quot_div_nonneg by lia. rewrite DATE2J_spec by lia. cbn [mbind result_bind]. rewrite Hcmp by lia.
    replace ((m <? _) || _) with (((m - 1) mod 3 =? 0) || (((m - 1) mod 3 =? 1) && (d <=? 15)))
      by (apply eq_iff_eq_true; lia).
    destruct (_ || _); [by rewrite DATE2J_spec by lia|].
    destruct (Z.leb_spec ((m - 1) / 3 * 3 + 1 + 3) 12); rewrite DATE2J_spec by lia.
    + do 2 f_equal. f_equal. lia.
    + replace ((m - 1) / 3 * 3 + 4) with 13 by lia. by rewrite civil_month13.
  - rewrite DATE2J_spec by lia. cbn [mbind result_bind]. rewrite Hcmp by (pose proof (month_days_range y m Hm); lia).
    replace ((m <? m) || _) with (d <=? 15) by lia. destruct (d <=? 15); [by rewrite Z.add_0_r, DATE2J_spec by lia|].
    destruct (Z.leb_spec (m + 1) 12); rewrite DATE2J_spec by lia; [done|].
    replace (m + 1) with 13 by lia. by rewrite civil_month13.
Qed.

(** An afternoon counted as the next day rounds alike, except on the last day of
    the first half. *)
Lemma round_period_tomorrow c y m d :
  valid_date y m d -> is_calendar c = true ->
  match c with
  | fmt_YYYY => ~ (d = 30 /\ m = 6) | fmt_MON => d <> 15 | _ => ~ (d = 15 /\ m = (m - 1) / 3 * 3 + 2)
  end ->
  let '(y1, m1, d1) := Gregorian.next_day y m d in round_period c y1 m1 d1 = round_period c y m d.
Proof.
  intros [Hm Hd] Hc Hx. pose proof (month_days_range y m Hm). unfold Gregorian.next_day.
  assert (m = 6 -> month_days y m = 30) by (intros ->; rewrite month_days_eq; [done|lia]).
  destruct (Z.ltb_spec d (month_days y m)); [|destruct (Z.ltb_spec m 12)];
    unfold round_period, next_period, first_half, period_month; destruct c; try done;
    repeat case_match; simplify_eq; try lia; f_equal; lia.
Qed.

Lemma tm_round_calendar ss lc fmt f y m d h mi s :
  ora_seq_search lc fmt date_fmt (length fmt) = f -> 0 <= f -> 1 <= y < 290000 -> valid_date y m d ->
  is_calendar (case_of f) = true ->
  let '(y', m') := round_period (case_of f) y m d in
  tm_round ss lc (mk_tm s mi h d m y 0 0 (-1) 0 None) fmt = Ok (mk_tm 0 0 0 1 m' y' 0 0 (-1) 0 None).
Proof.
  intros Ef Hf Hy Hv Hc. pose proof Hv as [Hm Hd].
  pose proof (round_period_valid (case_of f) y m d ltac:(lia) Hm) as Hp.
  pose proof (ora_date_round_calendar ss f y m d ltac:(lia) Hv Hc) as E0.
  pose proof (round_period_tomorrow (case_of f) y m d Hv Hc) as Ht.
  pose proof (date2j_civil_next y m d ltac:(lia) Hv) as Hn.
  assert (Hy1 : let '(y1, _, _) := Gregorian.next_day y m d in 1 <= y1 <= 290001)
    by (unfold Gregorian.next_day; repeat case_match; simplify_eq; lia).
  destruct (Gregorian.next_day y m d) as [[y1 m1] d1]. destruct Hn as [V1 N1].
  pose proof (ora_date_round_calendar ss f y1 m1 d1 Hy1 V1 Hc) as E1. rewrite N1 in E1.
  destruct (round_period (case_of f) y m d) as [y' m'] eqn:Er. destruct Hp as [Hy' Hm'].
  unfold tm_round. rewrite Ef. unfold CHECK_SEQ_SEARCH, set_time, set_date. replace (f <? 0) with false by lia.
  cbn [mbind result_bind].
  assert (Hrule : exists rounded, round_rule ss (mk_tm s mi h d m y 0 0 (-1) 0 None) f = Ok rounded /\
     (rounded = true -> ora_date_round ss (date2j_civil y m d + 1 - POSTGRES_EPOCH_JDATE) f = Ok (date2j_civil y' m' 1 - POSTGRES_EPOCH_JDATE))).
  { unfold round_rule. cbn [tm_year tm_mon tm_mday]. rewrite Z.quot_div_nonneg by lia.
    destruct (case_of f); try done; (eexists; split; [reflexivity|]); intros Hr;
      rewrite Ht in E1 by lia; exact E1. }
  destruct Hrule as (rounded & -> & Hr).
  cbn [mbind result_bind tm_year tm_mon tm_mday tm_hour tm_min tm_sec tm_wday tm_yday tm_isdst tm_gmtoff tm_zone].
  set (k := if rounded then d + (if 12 <=? h then 1 else 0) else d).
  assert (Hk : ora_date_round ss (date2j_civil y m k - POSTGRES_EPOCH_JDATE) f = Ok (date2j_civil y' m' 1 - POSTGRES_EPOCH_JDATE)).
  { unfold k. destruct rounded; [|exact E0]. destruct (12 <=? h); [|by rewrite Z.add_0_r].
    rewrite (date2j_civil_day y m (d + 1)), Z.add_assoc, <- date2j_civil_day. by apply Hr. }
  destruct (case_of f); try done; rewrite DATE2J_spec by lia; cbn [mbind result_bind]; rewrite Hk; cbn [mbind result_bind];
    by rewrite j2date_civil by (lia || by apply valid_first).
Qed.

(** ROUND to a year, quarter or month: up to the last day of the first half
    of the period (30 June; the 15th of the quarter's second month; the 15th) the
    result is the start of the period, from the day after it is the start of the
    next period; the time of day does not matter. *)
Theorem ora_round_calendar ss lc fmt f y m d tod :
  ora_seq_search lc fmt date_fmt (length fmt) = f -> 0 <= f -> is_calendar (case_of f) = true ->
  date_ok y m d tod -> y < 290000 -> tod mod USECS_PER_SEC = 0 ->
  ora_round ss lc (stamp y m d tod) (Some fmt) =
    Ok (if first_half (case_of f) m d then stamp y (period_month (case_of f) m) 1 0
        else stamp (next_period (case_of f) y m).1 (next_period (case_of f) y m).2 1 0).
Proof.
  intros Ef Hf Hc Hok Hy2 Hsec. pose proof Hok as (Hy & Hv & Ht). pose proof Hv as [Hm Hd].
  unfold ora_round. rewrite stamp_finite by done.
  destruct (stamp_fields y m d tod Hok) as (h & mi & s & -> & _). cbn [from_option id]. rewrite Hsec.
  pose proof (tm_round_calendar ss lc fmt f y m d h mi s Ef Hf ltac:(lia) Hv Hc) as E.
  pose proof (round_period_valid (case_of f) y m d ltac:(lia) Hm) as Hp.
  destruct (round_period (case_of f) y m d) as [y' m'] eqn:Er. destruct Hp as [Hy' Hm'].
  rewrite E. cbn [mbind result_bind]. pose proof (civil_bounds y' m' 1 ltac:(lia) (valid_first y' m' Hm')).
  rewrite fields_stamp; cbn [tm_year tm_mon tm_mday tm_hour tm_min tm_sec]; [|lia|lia|lia|unfold USECS_PER_SEC, USECS_PER_DAY; lia].
  cbn [mbind result_bind]. unfold round_period in Er. destruct (first_half (case_of f) m d); [by injection Er as <- <-|].
  by rewrite Er.
Qed.

Lemma ora_round_calendar_witness :
  ora_round (mk_session ORA_PARSER 0 example_zone) (mk_ctype (fun _ => false) id) (stamp 2024 6 30 86399000000) (Some (lit "YEAR"))
    = Ok (stamp 2024 1 1 0).
Proof.
  assert (Hd : date_ok 2024 6 30 86399000000) by (vm_compute; intuition congruence).
  exact (ora_round_calendar (mk_session ORA_PARSER 0 example_zone) (mk_ctype (fun _ => false) id) (lit "YEAR") 4
           2024 6 30 86399000000 eq_refl ltac:(lia) eq_refl Hd ltac:(lia) eq_refl).
Defined.

(** ** NEW_TIME *)

Lemma zone_num_range lc n : let z := ora_timezone_name_to_num lc n in z = -1 \/ 0 <= z <= 39600.
Proof. cbv zeta. unfold ora_timezone_name_to_num. repeat case_match; lia. Qed.

Lemma new_time_shift ss lc t n1 n2 :
  let z1 := ora_timezone_name_to_num lc n1 in let z2 := ora_timezone_name_to_num lc n2 in
  z1 <> -1 -> z2 <> -1 -> stamp 1 1 1 0 <= t < stamp 290000 1 1 0 ->
  ora_new_time ss lc t n1 n2 = Ok (t + (z1 - z2) * USECS_PER_SEC).
Proof.
  intros z1 z2 H1 H2 Ht. unfold ora_new_time. fold z1 z2.
  replace (z1 =? -1) with false by lia. replace (z2 =? -1) with false by lia.
  destruct (zone_num_range lc n1) as [|Z1]; [done|]. destruct (zone_num_range lc n2) as [|Z2]; [done|].
  fold z1 in Z1. fold z2 in Z2. clearbody z1 z2.
  change (stamp 1 1 1 0) with (-63082281600000000) in Ht. change (stamp 290000 1 1 0) with 9088402176000000000 in Ht.
  assert (Hv : IS_VALID_TIMESTAMP t = true) by (unfold IS_VALID_TIMESTAMP, MIN_TIMESTAMP, END_TIMESTAMP; lia).
  destruct (timestamp2tm_notz_spec t Hv) as (y & m & d & h & mi & s & Ej & Hj & Hs & _ & _ & _ & ->).
  assert (Hy : 1 <= y).
  { destruct (day_of_civil (t / USECS_PER_DAY + 2451545) 290000) as (y' & m' & d' & E & Hy' & _).
    - unfold USECS_PER_DAY. lia.
    - lia.
    - change (date2j_civil (290000 + 1) 1 1) with 107641751. unfold USECS_PER_DAY in *. lia.
    - rewrite E in Ej. by simplify_eq; lia. }
  set (jd := t / USECS_PER_DAY + 2451545) in *.
  assert (Hx : (jd - 2451545) * USECS_PER_DAY + (h * 3600 + mi * 60 + s) * USECS_PER_SEC + t mod USECS_PER_SEC = t).
  { rewrite Hs. unfold jd, USECS_PER_DAY, USECS_PER_SEC. lia. }
  rewrite (tm2timestamp_spec ss (mk_tm s mi h d m y 0 0 (-1) 0 None) (t mod USECS_PER_SEC) jd (Some (z1 - z2)));
    cbn [tm_year tm_mon tm_mday tm_hour tm_min tm_sec]; rewrite ?Hx.
  - done.
  - clear -Hj. lia.
  - done.
  - left. clear -Hy. lia.
  - clear -Hj. unfold is_int64, INT64_MIN, INT64_MAX, USECS_PER_DAY. lia.
  - clear -Ht. unfold is_int64, INT64_MIN, INT64_MAX. lia.
  - clear -Ht Z1 Z2. unfold IS_VALID_TIMESTAMP, MIN_TIMESTAMP, END_TIMESTAMP, USECS_PER_SEC. lia.
Qed.

(** NEW_TIME between two known zones moves the time by the difference of
    their offsets from GMT, and exchanging the zones undoes it; an unknown zone
    name is an error. *)
Theorem new_time_inverts ss lc t n1 n2 :
  stamp 2 1 1 0 <= t < stamp 289999 1 1 0 ->
  let z1 := ora_timezone_name_to_num lc n1 in let z2 := ora_timezone_name_to_num lc n2 in
  if (z1 =? -1) || (z2 =? -1) then
    ora_new_time ss lc t n1 n2 = ereport ERRCODE_DATETIME_VALUE_OUT_OF_RANGE "Invalid time zone"
  else
    ora_new_time ss lc t n1 n2 = Ok (t + (z1 - z2) * USECS_PER_SEC) /\
    ora_new_time ss lc t n1 n2 ≫= (fun u => ora_new_time ss lc u n2 n1) = Ok t.
Proof.
  intros Ht z1 z2. destruct (zone_num_range lc n1) as [Z1|Z1]; fold z1 in Z1.
  { rewrite Z1. cbn [Z.eqb orb]. unfold ora_new_time. fold z1. by rewrite Z1. }
  destruct (zone_num_range lc n2) as [Z2|Z2]; fold z2 in Z2.
  { rewrite Z2, orb_true_r. unfold ora_new_time. fold z1 z2. rewrite Z2. by destruct (z1 =? -1). }
  replace ((z1 =? -1) || (z2 =? -1)) with false by lia.
  change (stamp 2 1 1 0) with (-63050745600000000) in Ht. change (stamp 289999 1 1 0) with 9088370640000000000 in Ht.
  assert (Hb : forall u, Z.abs (u - t) <= 86400000000 -> stamp 1 1 1 0 <= u < stamp 290000 1 1 0).
  { intros u Hu. change (stamp 1 1 1 0) with (-63082281600000000). change (stamp 290000 1 1 0) with 9088402176000000000. lia. }
  assert (E : ora_new_time ss lc t n1 n2 = Ok (t + (z1 - z2) * USECS_PER_SEC))
    by (apply new_time_shift; [lia|lia|apply Hb; lia]).
  split; [done|]. rewrite E. cbn [mbind result_bind].
  rewrite new_time_shift; fold z1 z2; [f_equal; lia|lia|lia|apply Hb; unfold USECS_PER_SEC; lia].
Qed.

Lemma new_time_inverts_witness :
  ora_new_time (mk_session ORA_PARSER 0 example_zone) (mk_ctype (fun _ => false) id) 0 (lit "est") (lit "PST")
    ≫= (fun u => ora_new_time (mk_session ORA_PARSER 0 example_zone) (mk_ctype (fun _ => false) id) u (lit "PST") (lit "est")) = Ok 0.
Proof.
  refine (proj2 (new_time_inverts (mk_session ORA_PARSER 0 example_zone) (mk_ctype (fun _ => false) id) 0 (lit "est") (lit "PST") _)).
  vm_compute. intuition congruence.
Defined.

(** ** NEXT_DAY by name *)

Definition ascii_lower (c : ascii) : ascii := if (65 <=? ord c) && (ord c <=? 90) then chr (ord c + 32) else c.

(** A byte whose case does not depend on the locale. *)
Definition plain (lc : ctype) (c : ascii) : Prop := 0 < ord c /\ (ord c < 128 \/ isupper lc (ord c) = false).

(** On such text the comparison is equality up to ASCII case. *)
Lemma strncasecmp_plain lc n s1 s2 :
  Forall (plain lc) s1 -> Forall (plain lc) s2 ->
  (n <= length s1)%nat -> (n <= length s2)%nat ->
  (pg_strncasecmp lc s1 s2 n =? 0) = bool_decide (map ascii_lower (take n s1) = map ascii_lower (take n s2)).
Proof.
  revert s1 s2. induction n as [|n IH]; intros s1 s2 F1 F2 L1 L2; [by rewrite bool_decide_eq_true_2|].
  destruct s1 as [|c1 s1], s2 as [|c2 s2]; cbn in L1, L2; try lia.
  inversion_clear F1 as [|? ? H1 F1']. inversion_clear F2 as [|? ? H2 F2'].
  cbn [pg_strncasecmp head_byte tail take map].
  assert (Hf : forall c, plain lc c -> fold_case lc (ord c) = ord (ascii_lower c)).
  { intros c [Hc Hu]. unfold fold_case, ascii_lower. destruct ((65 <=? ord c) && (ord c <=? 90)) eqn:E.
    - rewrite ord_chr, Z.mod_small by lia. done.
    - destruct Hu as [Hu|Hu]; [by replace (128 <=? ord c) with false by lia|by rewrite Hu, andb_false_r]. }
  assert (Hz : forall c, plain lc c -> 0 < ord (ascii_lower c)).
  { intros c [Hc _]. unfold ascii_lower. case_match; [rewrite ord_chr, Z.mod_small by lia|]; lia. }
  specialize (IH s1 s2 F1' F2' ltac:(lia) ltac:(lia)).
  destruct (Z.eqb_spec (ord c1) (ord c2)) as [E|E]; cbn [negb].
  - destruct H1 as [H1 _]. replace (ord c1 =? 0) with false by lia. rewrite IH. apply ord_inj in E as ->.
    apply bool_decide_ext. split; [by intros ->|by intros [= ->]].
  - rewrite !Hf by done. destruct (Z.eqb_spec (ord (ascii_lower c1)) (ord (ascii_lower c2))) as [E'|E']; cbn [negb].
    + pose proof (Hz c1 H1). replace (ord (ascii_lower c1) =? 0) with false by lia. rewrite IH. apply ord_inj in E' as ->.
      apply bool_decide_ext. split; [by intros ->|by intros [= ->]].
    + rewrite bool_decide_eq_false_2 by (intros [= Hx _]; congruence). lia.
Qed.

Lemma strncasecmp_take lc n s1 s2 : pg_strncasecmp lc s1 s2 n = pg_strncasecmp lc (take n s1) (take n s2) n.
Proof.
  revert s1 s2. induction n as [|n IH]; intros s1 s2; [done|].
  destruct s1 as [|c1 s1], s2 as [|c2 s2]; cbn [pg_strncasecmp take head_byte tail];
    rewrite ?(IH s1), ?(IH [] s2), ?take_nil; done.
Qed.

Lemma search_from_ext p q array i : Forall (fun a => p a = q a) array -> search_from p array i = search_from q array i.
Proof. intros F. revert i. induction F as [|a l E F IH]; intros i; cbn; [done|]. by rewrite E, IH. Qed.

Lemma ascii_lower_range c d : ascii_lower c = ascii_lower d -> 0 < ord d < 128 -> 0 < ord c < 128.
Proof.
  intros E Hd. pose proof (ord_range c). unfold ascii_lower in E.
  apply (f_equal ord) in E. repeat case_match; rewrite ?ord_chr in E; lia.
Qed.

Lemma english_day lc i name txt :
  ora_days !! i = Some name -> map ascii_lower (take 3 txt) = map ascii_lower (take 3 name) ->
  (3 <=? length txt)%nat = true /\ ora_seq_prefix_search lc txt ora_days 3 = Z.of_nat i.
Proof.
  intros Hn Ht.
  assert (Hall : Forall (fun a => (3 <= length a)%nat /\ Forall (fun c => 0 < ord c < 128) a) ora_days).
  { repeat (constructor; [split; [cbn; lia|vm_compute; repeat (constructor; [intuition congruence|]); constructor]|]). constructor. }
  destruct (proj1 (Forall_lookup _ _) Hall i name Hn) as [Ln Fn].
  assert (Lt : (3 <= length txt)%nat).
  { apply (f_equal length) in Ht. rewrite !length_map, !length_take in Ht. lia. }
  assert (Ft : Forall (fun c => 0 < ord c < 128) (take 3 txt)).
  { apply List.Forall_forall. intros c Hc. apply (in_map ascii_lower) in Hc. rewrite Ht in Hc.
    apply in_map_iff in Hc as (d & Hd & Hin). apply (ascii_lower_range c d); [done|].
    by apply (proj1 (List.Forall_forall _ _) (Forall_take _ 3 _ Fn)). }
  split; [by apply Nat.leb_le|]. unfold ora_seq_prefix_search.
  assert (head_byte txt =? 0 = false) as ->.
  { destruct txt as [|c txt]; [cbn in Lt; lia|]. cbn in Ft. inversion_clear Ft. cbn. lia. }
  rewrite (search_from_ext _ (fun a => bool_decide (map ascii_lower (take 3 name) = map ascii_lower (take 3 a)))).
  - do 7 (destruct i as [|i]; [injection Hn as <-; vm_compute; reflexivity|]). done.
  - eapply List.Forall_impl; [|exact Hall]. intros a [La Fa].
    rewrite strncasecmp_take, strncasecmp_plain, !take_take, <- Ht; [done|..].
    all: rewrite ?length_take; try lia.
    + eapply List.Forall_impl; [|exact Ft]. intros c [? ?]. split; [lia|left; lia].
    + apply Forall_take. eapply List.Forall_impl; [|exact Fa]. intros c [? ?]. split; [lia|left; lia].
Qed.

(** A byte above 127 that the locale does not fold matches no ASCII name. *)
Lemma strncasecmp_high lc s1 s2 n :
  128 <= head_byte s1 -> isupper lc (head_byte s1) = false -> head_byte s2 < 128 ->
  (pg_strncasecmp lc s1 s2 (S n) =? 0) = false.
Proof.
  intros H1 Hu H2. cbn [pg_strncasecmp]. set (c1 := head_byte s1) in *. set (c2 := head_byte s2) in *. clearbody c1 c2.
  replace (c1 =? c2) with false by lia. cbn [negb].
  assert (fold_case lc c1 = c1) as ->.
  { unfold fold_case. rewrite Hu, andb_false_r. by replace ((65 <=? c1) && _) with false by lia. }
  assert (fold_case lc c2 < 128) by (unfold fold_case; replace (128 <=? c2) with false by lia; case_match; cbn; lia).
  replace (c1 =? fold_case lc c2) with false by lia. cbn [negb]. lia.
Qed.

Lemma english_high lc s :
  128 <= head_byte s -> isupper lc (head_byte s) = false -> ora_seq_prefix_search lc s ora_days 3 = -1.
Proof.
  intros Hs Hu. unfold ora_seq_prefix_search. replace (head_byte s =? 0) with false by lia.
  rewrite (search_from_ext _ (fun _ => false)); [done|].
  repeat (constructor; [by apply strncasecmp_high|]). constructor.
Qed.

Lemma chinese_day lc i name rest :
  (forall c, 128 <= c -> isupper lc c = false) -> WEEKDAYS_UTF8 !! i = Some name ->
  ora_seq_prefix_search lc (name ++ rest) ora_days 3 = -1 /\
  weekday_search lc WEEKDAYS_UTF8 (name ++ rest) (length (name ++ rest)) = Z.of_nat i.
Proof.
  intros Hup Hn.
  assert (Hall : Forall (fun a => length a = 9%nat /\ Forall (fun c => 128 <= ord c) a) WEEKDAYS_UTF8).
  { repeat (constructor; [split; [done|vm_compute; repeat (constructor; [intuition congruence|]); constructor]|]). constructor. }
  destruct (proj1 (Forall_lookup _ _) Hall i name Hn) as [Ln Fn].
  assert (Hplain : forall a, Forall (fun c => 128 <= ord c) a -> Forall (plain lc) a).
  { intros a Fa. eapply List.Forall_impl; [|exact Fa]. intros c Hc. cbn beta in Hc. split; [lia|right; by apply Hup]. }
  split.
  - destruct name as [|c name]; [done|]. inversion_clear Fn as [|? ? Hc _]. apply english_high; [done|by apply Hup].
  - unfold weekday_search.
    rewrite (search_from_ext _ (fun a => bool_decide (map ascii_lower (take 9 a) = map ascii_lower name))).
    + do 7 (destruct i as [|i]; [injection Hn as <-; vm_compute; reflexivity|]). done.
    + eapply List.Forall_impl; [|exact Hall]. intros a [La Fa]. rewrite La.
      replace (length (name ++ rest) <? 9)%nat with false by (symmetry; apply Nat.ltb_ge; rewrite length_app; lia).
      cbn [negb andb]. rewrite strncasecmp_take, take_app_le, (take_ge name) by lia.
      rewrite strncasecmp_plain, !(take_ge name), take_take by (rewrite ?length_take; (lia || auto using Forall_take)). done.
Qed.

(** NEXT_DAY by name: an English day name is known by its first three
    letters, in any case and in any locale; in a UTF-8 database the Chinese names
    are known too, with whatever follows them.  Either is the index form of the
    weekday. *)
Theorem next_day_by_name lc m after day i txt :
  (exists name, ora_days !! i = Some name /\ map ascii_lower (take 3 txt) = map ascii_lower (take 3 name)) \/
  (DatabaseEncoding m = PG_UTF8 /\ (forall c, 128 <= c -> isupper lc c = false) /\
   exists name rest, WEEKDAYS_UTF8 !! i = Some name /\ txt = name ++ rest) ->
  next_day lc m after day txt = next_day_by_index day (Z.of_nat i + 1).
Proof.
  assert (Hidx : (i < 7)%nat -> next_day_by_index day (Z.of_nat i + 1) = Ok (next_day_found day (Z.of_nat i))).
  { intros Hi. unfold next_day_by_index. replace ((_ <? 1) || _) with false by lia. cbn. do 2 f_equal. lia. }
  intros [(name & Hn & Ht)|(Hdb & Hup & name & rest & Hn & ->)]; pose proof (lookup_lt_Some _ _ _ Hn) as Hi;
    change (length _) with 7%nat in Hi; rewrite Hidx by done; unfold next_day.
  - destruct (english_day lc i name txt Hn Ht) as [-> ->]. by replace (0 <=? Z.of_nat i) with true by lia.
  - destruct (chinese_day lc i name rest Hup Hn) as [E1 _].
    destruct (chinese_day lc i name (rest ++ after) Hup Hn) as [_ E2]. rewrite E1.
    replace (0 <=? (if (3 <=? length (name ++ rest))%nat then -1 else -1)) with false by (by case_match).
    unfold pg_server_to_any, unconverted. rewrite Hdb, !bool_decide_eq_true_2 by done. rewrite !orb_true_r. cbn [orb].
    replace (if (length (name ++ rest) =? 0)%nat then _ else _) with (Ok (name ++ rest)) by (by case_match).
    cbn [mbind result_bind]. rewrite <- app_assoc, E2. by replace (0 <=? Z.of_nat i) with true by lia.
Qed.

Lemma next_day_by_name_witness :
  next_day (mk_ctype (fun _ => false) id) (mk_mb_session PG_UTF8 PG_UTF8 (fun _ _ => None) None None) [] 0 (lit "tUesbury")
    = next_day_by_index 0 3.
Proof.
  apply (next_day_by_name (mk_ctype (fun _ => false) id) (mk_mb_session PG_UTF8 PG_UTF8 (fun _ _ => None) None None) [] 0 2).
  left. exists (lit "Tuesday"). split; reflexivity.
Defined.

(** ** Where the functions go wrong *)

(** NEXT_DAY in a UTF-8 database takes the length of the day name with
    [strlen], although the text has no terminating zero: a name cut before its
    last character is rejected or accepted depending on the bytes that happen to
    follow it in memory. *)
Theorem next_day_reads_past_text lc m day i name :
  DatabaseEncoding m = PG_UTF8 -> (forall c, 128 <= c -> isupper lc c = false) -> WEEKDAYS_UTF8 !! i = Some name ->
  next_day lc m (drop 6 name) day (take 6 name) = next_day_by_index day (Z.of_nat i + 1) /\
  next_day lc m [] day (take 6 name) = ereport ERRCODE_INVALID_DATETIME_FORMAT "invalid value for DAY/Day/day".
Proof.
  intros Hdb Hup Hn. pose proof (lookup_lt_Some _ _ _ Hn) as Hi. change (length _) with 7%nat in Hi.
  assert (E0 : next_day_by_index day (Z.of_nat i + 1) = Ok (next_day_found day (Z.of_nat i))).
  { unfold next_day_by_index. replace ((_ <? 1) || _) with false by lia. cbn. do 2 f_equal. lia. }
  rewrite E0. destruct (chinese_day lc i name [] Hup Hn) as [E1 E2]. rewrite app_nil_r in E1, E2.
  assert (E3 : ora_seq_prefix_search lc (take 6 name) ora_days 3 = -1 /\ length (take 6 name) = 6%nat).
  { do 7 (destruct i as [|i]; [injection Hn as <-; split; [apply english_high; [done|by apply Hup]|reflexivity]|]). done. }
  destruct E3 as [E3 E4]. unfold next_day, pg_server_to_any, unconverted. rewrite E3, E4, Hdb, !bool_decide_eq_true_2 by done.
  cbn [Nat.leb Nat.eqb orb Z.leb mbind result_bind]. split.
  - rewrite take_drop, E2. by replace (0 <=? Z.of_nat i) with true by lia.
  - rewrite app_nil_r, E4. unfold weekday_search. by rewrite (search_from_ext _ (fun _ => false)) by (repeat constructor).
Qed.

Lemma next_day_reads_past_text_witness :
  next_day (mk_ctype (fun _ => false) id) (mk_mb_session PG_UTF8 PG_UTF8 (fun _ _ => None) None None) (map chr [228; 184; 128]) 0
    (map chr [230; 152; 159; 230; 156; 159]) = next_day_by_index 0 2.
Proof.
  exact (proj1 (next_day_reads_past_text (mk_ctype (fun _ => false) id)
    (mk_mb_session PG_UTF8 PG_UTF8 (fun _ _ => None) None None) 0 1
    (map chr [230; 152; 159; 230; 156; 159; 228; 184; 128]) eq_refl (fun _ _ => eq_refl) eq_refl)).
Defined.

(** ADD_MONTHS into the December before year 1: the month number is 0, the
    table of month lengths is read one word before its start ([before]), and
    [date2j] takes year and month of the clock.  The result is a day, given by
    that word, of the current month. *)
Theorem add_months_reads_before_table ss before y m d tod n tm fsec tz :
  compatible_db ss = ORA_PARSER ->
  timestamp2tm (session_timezone ss) (current_timestamp ss) = Ok (Some (tm, fsec, tz)) ->
  1 <= tm_year tm <= 290000 -> 1 <= tm_mon tm <= 12 ->
  date_ok y m d tod -> d = month_days y m -> y * 12 + (m - 1) + n = -1 -> 1 <= before <= 28 ->
  add_months ss before (stamp y m d tod) n = Ok (stamp (tm_year tm) (tm_mon tm) before tod).
Proof.
  intros Hora Hclock Hty Htm (Hy & Hv & Ht) Hd Hn Hb. pose proof Hv as [Hm _]. unfold add_months.
  rewrite (int32_small n) by (unfold is_int32, INT_MIN, INT_MAX; lia).
  rewrite split_stamp by done. rewrite j2date_civil by (lia || done).
  rewrite (days_of_month_spec before y m) by done. cbn [mbind result_bind].
  replace (y * 12 + m - 1 + n) with (-1) by lia. rewrite int32_small by (unfold is_int32, INT_MIN, INT_MAX; lia).
  change (Z.quot (-1) 12) with 0. change (Z.rem (-1) 12 + 1) with 0. cbn [Z.ltb Z.compare].
  change (days_of_month before 0 0) with (@Ok Z before). cbn [mbind result_bind].
  rewrite Hd, Z.eqb_refl. cbn [orb]. unfold DATE2J, date2j. rewrite Hora, bool_decide_eq_true_2 by done.
  cbn [Z.eqb orb andb]. rewrite Hclock. cbn [mbind result_bind].
  pose proof (month_days_range (tm_year tm) (tm_mon tm) Htm).
  replace (month_days (tm_year tm) (tm_mon tm) <? before) with false by lia. cbn [mbind result_bind].
  assert (V : valid_date (tm_year tm) (tm_mon tm) before) by (split; lia).
  pose proof (civil_bounds (tm_year tm) _ _ ltac:(lia) V). by rewrite restamp by lia.
Qed.

Lemma add_months_reads_before_table_witness :
  add_months (mk_session ORA_PARSER 0 example_zone) 17 (stamp 1 1 31 0) (-13) = Ok (stamp 2000 1 17 0).
Proof.
  destruct (timestamp2tm example_zone 0) as [[[[tm fsec] tz]|]|] eqn:E; try (vm_compute in E; discriminate).
  assert (Hy : match timestamp2tm example_zone 0 with Ok (Some (tm, _, _)) => (tm_year tm, tm_mon tm) | _ => (0, 0) end = (2000, 1))
    by (vm_compute; reflexivity).
  rewrite E in Hy. injection Hy as Hy Hm.
  rewrite (add_months_reads_before_table (mk_session ORA_PARSER 0 example_zone) 17 1 1 31 0 (-13) tm fsec tz eq_refl E);
    [rewrite Hy, Hm; reflexivity|rewrite Hy; lia|rewrite Hm; lia|vm_compute; intuition congruence|reflexivity|reflexivity|lia].
Defined.

Lemma ora_trunc_century_late_witness :
  ora_trunc (mk_session ORA_PARSER 0 example_zone) (mk_ctype (fun _ => false) id) (stamp 2000 6 15 0) (Some (lit "CC"))
    = Ok (stamp 2001 1 1 0).
Proof.
  assert (Hd : date_ok 2000 6 15 0) by (vm_compute; intuition congruence).
  exact (proj1 (ora_trunc_century_late (mk_session ORA_PARSER 0 example_zone) (mk_ctype (fun _ => false) id) (lit "CC") 22
    2000 6 15 0 eq_refl ltac:(lia) eq_refl Hd eq_refl)).
Defined.
