(* ===== verification/OraInterval.v ===== *)
(** * MONTHS_BETWEEN and number-to-interval conversions

    contrib/ivorysql_ora/src/builtin_functions/datetime_datatype_functions.c:
    [months_between], [numtoyminterval] and [numtodsinterval], the date functions
    that compute with C doubles. *)

From S2P Require Import Prelude Gregorian TimeZone Timestamp OraDate Float8.

(** ** Definitions *)

Definition months_between (before time1 time2 : Z) : result float8 :=
  let '(date1, time1) := split_day time1 in
  let '(date2, time2) := split_day time2 in
  let '(y1, m1, d1) := j2date (date1 + POSTGRES_EPOCH_JDATE) in
  let '(y2, m2, d2) := j2date (date2 + POSTGRES_EPOCH_JDATE) in
  let months := of_int (int32 ((y1 - y2) * 12 + (m1 - m2))) in
  dim1 ← days_of_month before y1 m1;
  last ← (if d1 =? dim1 then dim2 ← days_of_month before y2 m2; Ok (d2 =? dim2) else Ok false);
  if (last : bool) then Ok months
  else
    let result := f_add months (f_div (of_int (d1 - d2)) (of_int 31)) in
    if negb (d1 =? d2) then
      Ok (f_add result (f_div (f_div (of_int (time1 - time2)) (of_int 31)) (of_int USECS_PER_DAY)))
    else Ok result.

Record Interval := mk_interval { iv_time : Z; iv_day : Z; iv_month : Z }.

Fixpoint pg_strcasecmp (lc : ctype) (s1 s2 : bytes) : Z :=
  let ch1 := head_byte s1 in
  let ch2 := head_byte s2 in
  let go := match s1 with [] => 0 | _ :: s1' => pg_strcasecmp lc s1' (tail s2) end in
  if negb (ch1 =? ch2) then
    let ch1 := fold_case lc ch1 in
    let ch2 := fold_case lc ch2 in
    if negb (ch1 =? ch2) then ch1 - ch2 else if ch1 =? 0 then 0 else go
  else if ch1 =? 0 then 0 else go.

(** Drop leading and trailing white space. *)
Fixpoint drop_spaces (isspace : Z -> bool) (s : bytes) : bytes :=
  match s with
  | [] => []
  | c :: s' => if isspace (ord c) then drop_spaces isspace s' else s
  end.

Definition trim (isspace : Z -> bool) (s : bytes) : bytes :=
  rev (drop_spaces isspace (rev (drop_spaces isspace s))).

Definition MONTHS_PER_YEAR : Z := 12.

(** [((int) (v * 10) + 5) / 10], where the conversion must fit an int. *)
Definition round_tenth (v : float8) : option float8 :=
  x ← to_int32 (f_mul v (of_int 10)); Some (of_int (Z.quot (int32 (x + 5)) 10)).

Definition snap_positive (v : float8) : float8 :=
  if f_lt (of_int 0) v then
    let v := if f_lt v (lit_frac 1 100) then of_int 0 else v in
    if f_le (lit_frac 1 100) v && f_lt v (of_int 1) then of_int 1 else v
  else v.

Definition snap_negative (v : float8) : float8 :=
  if f_lt v (of_int 0) then
    let v := if f_lt (lit_frac (-1) 2) v && f_lt v (of_int 0) then of_int 0 else v in
    if f_le v (lit_frac (-1) 2) && f_lt (of_int (-1)) v then of_int 1 else v
  else v.

Definition round_months (v : float8) : option float8 :=
  v ← (if f_lt (of_int 0) v then round_tenth v else Some v);
  if f_lt v (of_int 0) then
    v ← round_tenth (f_mul v (of_int (-1)));
    Some (f_mul v (of_int (-1)))
  else Some v.

(** [Ok None]: a conversion to int out of range, which C leaves undefined. *)
Definition numtoyminterval (lc : ctype) (isspace : Z -> bool) (interval_val : float8) (interval_unit : bytes)
    : result (option Interval) :=
  let u := trim isspace interval_unit in
  v ← (if pg_strcasecmp lc u (lit "year") =? 0 then Ok (f_mul interval_val (of_int MONTHS_PER_YEAR))
       else if pg_strcasecmp lc u (lit "month") =? 0 then Ok interval_val
       else ereport ERRCODE_INVALID_PARAMETER_VALUE "illegal argument for function numtoyminterval");
  Ok (v ← round_months (snap_negative (snap_positive v));
      month ← to_int32 v;
      Some (mk_interval 0 0 month)).

Definition numtodsinterval (lc : ctype) (isspace : Z -> bool) (interval_val : float8) (interval_unit : bytes)
    : result (option Interval) :=
  let u := trim isspace interval_unit in
  v ← (if pg_strcasecmp lc u (lit "day") =? 0 then Ok (f_mul interval_val (of_int USECS_PER_DAY))
       else if pg_strcasecmp lc u (lit "hour") =? 0 then Ok (f_mul interval_val (of_int USECS_PER_HOUR))
       else if pg_strcasecmp lc u (lit "minute") =? 0 then Ok (f_mul interval_val (of_int USECS_PER_MINUTE))
       else if pg_strcasecmp lc u (lit "second") =? 0 then Ok (f_mul interval_val (of_int USECS_PER_SEC))
       else ereport ERRCODE_INVALID_PARAMETER_VALUE "illegal argument for function numtoyminterval");
  Ok (day ← to_int32 (f_div v (of_int USECS_PER_DAY));
      time ← to_int64 (f_sub v (of_int (day * USECS_PER_DAY)));
      Some (mk_interval time day 0)).

(** ** MONTHS_BETWEEN *)

(** Equal days of the month, or two last days: a whole number of months, whatever
    the times of day. *)
Lemma months_between_whole before y1 m1 d1 tod1 y2 m2 d2 tod2 :
  date_ok y1 m1 d1 tod1 -> date_ok y2 m2 d2 tod2 ->
  d1 = d2 \/ (d1 = month_days y1 m1 /\ d2 = month_days y2 m2) ->
  months_between before (stamp y1 m1 d1 tod1) (stamp y2 m2 d2 tod2) = Ok (of_int ((y1 - y2) * 12 + (m1 - m2))).
Proof.
  intros (Hy1 & V1 & T1) (Hy2 & V2 & T2) Hd. pose proof V1 as [Hm1 _]. pose proof V2 as [Hm2 _].
  unfold months_between. rewrite !split_stamp by done. rewrite !j2date_civil by (lia || done).
  rewrite int32_small by (unfold is_int32, INT_MIN, INT_MAX; lia).
  rewrite !days_of_month_spec by done. cbn [mbind result_bind].
  assert (Hlast : exists b : bool, (if d1 =? month_days y1 m1 then Ok (d2 =? month_days y2 m2) else Ok false) = Ok b /\ (b = false -> d1 = d2)).
  { destruct (Z.eqb_spec d1 (month_days y1 m1)); [|exists false; split; [done|lia]].
    eexists. split; [reflexivity|]. intros Hb. destruct (Z.eqb_spec d2 (month_days y2 m2)); [done|lia]. }
  destruct Hlast as (b & Hb & Hbd). cbn [mbind result_bind] in *. rewrite Hb. cbn [mbind result_bind].
  destruct b; [done|]. specialize (Hbd eq_refl) as <-. rewrite Z.sub_diag, Z.eqb_refl. cbn [negb].
  change (f_div (of_int 0) (of_int 31)) with (S754_zero false). f_equal. apply of_int_add_zero. lia.
Qed.

(** C33. MONTHS_BETWEEN measures ADD_MONTHS: adding [n] months to a last day of
    the month or a day up to 27 gives a date that is exactly [n] months away, as
    a double without a fraction. *)
Theorem months_between_add_months ss before y m d tod n :
  date_ok y m d tod -> 12 <= y * 12 + (m - 1) + n < 12 * 290001 -> d = month_days y m \/ d <= 27 ->
  add_months ss before (stamp y m d tod) n ≫= (fun t => months_between before t (stamp y m d tod)) = Ok (of_int n).
Proof.
  intros Hok Hn Hd. pose proof Hok as (Hy & V & T). pose proof V as [Hm Hdd].
  rewrite (add_months_spec ss before y m d tod n Hok Hn). cbn [mbind result_bind].
  set (M := y * 12 + (m - 1) + n) in *. pose proof (month_days_range (M / 12) (M mod 12 + 1) ltac:(lia)).
  rewrite months_between_whole.
  - do 2 f_equal. unfold M. lia.
  - split; [lia|]. split; [|done]. apply shift_day_valid; [done|lia].
  - done.
  - unfold shift_day. destruct (Z.eqb_spec d (month_days y m)); [by right|left; lia].
Qed.

Lemma months_between_add_months_witness :
  add_months (mk_session ORA_PARSER 0 example_zone) 0 (stamp 2024 2 29 0) (-25) ≫=
    (fun t => months_between 0 t (stamp 2024 2 29 0)) = Ok (of_int (-25)).
Proof.
  assert (Hd : date_ok 2024 2 29 0) by (vm_compute; intuition congruence).
  apply (months_between_add_months (mk_session ORA_PARSER 0 example_zone) 0 2024 2 29 0 (-25) Hd); [lia|left; reflexivity].
Defined.

(** ** NUMTOYMINTERVAL and NUMTODSINTERVAL *)

(** Names compare as equal to themselves whatever the locale. *)
Lemma strcasecmp_refl lc s : pg_strcasecmp lc s s = 0.
Proof. induction s as [|c s IH]; [done|]. cbn. rewrite Z.eqb_refl. cbn. rewrite IH. by case_match. Qed.

Lemma of_int_to_int32 a : is_int32 a -> to_int32 (of_int a) = Some a.
Proof.
  intros Ha. unfold to_int32. rewrite of_int_trunc by (unfold is_int32, INT_MIN, INT_MAX in Ha; lia).
  by rewrite bool_decide_eq_true_2.
Qed.

Lemma round_tenth_int k : 1 <= k <= 214748364 -> round_tenth (of_int k) = Some (of_int k).
Proof.
  intros Hk. unfold round_tenth. rewrite of_int_mul by lia.
  rewrite of_int_to_int32 by (unfold is_int32, INT_MIN, INT_MAX; lia). cbn [mbind option_bind].
  rewrite int32_small by (unfold is_int32, INT_MIN, INT_MAX; lia). do 2 f_equal. lia.
Qed.

Lemma round_months_int k : Z.abs k <= 214748364 -> round_months (of_int k) = Some (of_int k).
Proof.
  intros Hk. unfold round_months. rewrite of_int_lt by lia. destruct (Z.ltb_spec 0 k).
  - rewrite round_tenth_int by lia. cbn [mbind option_bind]. rewrite of_int_lt by lia. by replace (k <? 0) with false by lia.
  - cbn [mbind option_bind]. rewrite of_int_lt by lia. destruct (Z.ltb_spec k 0); [|done].
    rewrite of_int_mul, round_tenth_int by lia. cbn [mbind option_bind]. rewrite of_int_mul by lia. do 2 f_equal. lia.
Qed.

(** Non-zero integers are not touched by the treatment of small values. *)
Lemma snap_int k : Z.abs k < 2 ^ 53 -> snap_negative (snap_positive (of_int k)) = of_int k.
Proof.
  intros Hk. unfold snap_positive. rewrite of_int_lt by lia.
  assert (Hpos : 0 < k -> f_lt (of_int k) (lit_frac 1 100) = false).
  { intros H. destruct (of_int_nonzero k ltac:(lia) Hk) as (p & Ep & ->). pose proof (ndigits_spec p) as (Hd & _).
    replace (k <? 0) with false by lia. change (lit_frac 1 100) with (S754_finite false 5764607523034235 (-59)).
    unfold f_lt, SFltb, int_float. cbn [SFcompare]. by replace (ndigits p - 53 ?= -59) with Gt by (symmetry; apply Z.compare_gt_iff; lia). }
  assert (Hneg : k < 0 -> f_lt (lit_frac (-1) 2) (of_int k) = false).
  { intros H. destruct (of_int_nonzero k ltac:(lia) Hk) as (p & Ep & ->). pose proof (ndigits_spec p) as (Hd & _).
    replace (k <? 0) with true by lia. change (lit_frac (-1) 2) with (S754_finite true 4503599627370496 (-53)).
    unfold f_lt, SFltb, int_float. cbn [SFcompare]. by replace (-53 ?= ndigits p - 53) with Lt by (symmetry; apply Z.compare_lt_iff; lia). }
  destruct (Z.ltb_spec 0 k).
  - rewrite Hpos by done. rewrite of_int_lt by lia. replace (k <? 1) with false by lia. rewrite andb_false_r.
    unfold snap_negative. rewrite of_int_lt by lia. by replace (k <? 0) with false by lia.
  - unfold snap_negative. rewrite of_int_lt by lia. destruct (Z.ltb_spec k 0); [|done].
    rewrite Hneg by done. cbn [andb]. rewrite of_int_lt by lia. replace (-1 <? k) with false by lia. by rewrite andb_false_r.
Qed.

(** NUMTOYMINTERVAL of a whole number of months or years is that interval
    exactly, as long as ten times the months fit an int. *)
Theorem numtoyminterval_whole lc isspace k u :
  (trim isspace u = lit "month" /\ Z.abs k <= 214748364 ->
   numtoyminterval lc isspace (of_int k) u = Ok (Some (mk_interval 0 0 k))) /\
  (trim isspace u = lit "year" /\ Z.abs (12 * k) <= 214748364 ->
   numtoyminterval lc isspace (of_int k) u = Ok (Some (mk_interval 0 0 (12 * k)))).
Proof.
  assert (Hmain : forall j, Z.abs j <= 214748364 ->
    (v ← round_months (snap_negative (snap_positive (of_int j))); month ← to_int32 v; Some (mk_interval 0 0 month))
    = Some (mk_interval 0 0 j)).
  { intros j Hj. rewrite snap_int, round_months_int by lia. cbn [mbind option_bind].
    by rewrite of_int_to_int32 by (unfold is_int32, INT_MIN, INT_MAX; lia). }
  split; intros [Hu Hk]; unfold numtoyminterval; rewrite Hu.
  - assert (pg_strcasecmp lc (lit "month") (lit "year") =? 0 = false) as -> by (vm_compute; reflexivity).
    rewrite strcasecmp_refl. cbn [Z.eqb mbind result_bind]. by rewrite Hmain.
  - rewrite strcasecmp_refl. cbn [Z.eqb mbind result_bind]. unfold MONTHS_PER_YEAR.
    destruct (decide (k = 0)) as [->|]; [done|]. rewrite of_int_mul by lia. rewrite (Z.mul_comm k 12). by rewrite Hmain.
Qed.

Lemma numtoyminterval_whole_witness :
  numtoyminterval (mk_ctype (fun _ => false) id) (fun c => c =? 32) (of_int (-3)) (lit " year ") = Ok (Some (mk_interval 0 0 (-36))).
Proof.
  refine (proj2 (numtoyminterval_whole (mk_ctype (fun _ => false) id) (fun c => c =? 32) (-3) (lit " year ")) _).
  split; [reflexivity|lia].
Defined.

(** NUMTODSINTERVAL of a whole number of days is that many days and no time,
    while the microseconds are below 2^53. *)
Theorem numtodsinterval_days lc isspace k u :
  trim isspace u = lit "day" -> Z.abs k <= 104249 ->
  numtodsinterval lc isspace (of_int k) u = Ok (Some (mk_interval 0 k 0)).
Proof.
  intros Hu Hk. unfold numtodsinterval. rewrite Hu, strcasecmp_refl. cbn [Z.eqb mbind result_bind]. f_equal.
  destruct (decide (k = 0)) as [->|]; [vm_compute; reflexivity|].
  rewrite of_int_mul by (unfold USECS_PER_DAY; lia). rewrite of_int_div by (unfold USECS_PER_DAY; lia).
  rewrite of_int_to_int32 by (unfold is_int32, INT_MIN, INT_MAX; lia). cbn [mbind option_bind].
  by rewrite of_int_sub_self by (unfold USECS_PER_DAY; lia).
Qed.

Lemma numtodsinterval_days_witness :
  numtodsinterval (mk_ctype (fun _ => false) id) (fun c => c =? 32) (of_int 400) (lit "day") = Ok (Some (mk_interval 0 400 0)).
Proof.
  apply (numtodsinterval_days (mk_ctype (fun _ => false) id) (fun c => c =? 32) 400); [reflexivity|lia].
Defined.

(** NUMTOYMINTERVAL turns every number of months above -1 and not above
    -0.5 into plus one month. *)
Theorem numtoyminterval_sign_lost lc isspace v u :
  trim isspace u = lit "month" -> f_lt (of_int (-1)) v = true -> f_le v (lit_frac (-1) 2) = true ->
  numtoyminterval lc isspace v u = Ok (Some (mk_interval 0 0 1)).
Proof.
  intros Hu Hlo Hhi. unfold numtoyminterval. rewrite Hu.
  assert (pg_strcasecmp lc (lit "month") (lit "year") =? 0 = false) as -> by (vm_compute; reflexivity).
  rewrite strcasecmp_refl. cbn [Z.eqb mbind result_bind]. f_equal.
  assert (Hneg : f_lt (of_int 0) v = false /\ f_lt v (of_int 0) = true).
  { change (lit_frac (-1) 2) with (S754_finite true 4503599627370496 (-53)) in Hhi. by destruct v as [[]|[]| |[] m e]. }
  assert (Hhalf : f_lt (lit_frac (-1) 2) v = false).
  { change (lit_frac (-1) 2) with (S754_finite true 4503599627370496 (-53)) in *.
    destruct v as [[]|[]| |[] m e]; try done. unfold f_lt, SFltb, f_le, SFleb in *. cbn [SFcompare] in *.
    rewrite Z.compare_antisym. destruct (e ?= -53); [|done|done]. cbn [CompOpp].
    set (h := 4503599627370496%positive) in *. clearbody h. fold (Pos.compare m h) in Hhi. fold (Pos.compare h m).
    rewrite Pos.compare_antisym. by destruct (Pos.compare m h). }
  destruct Hneg as [H1 H2]. unfold snap_positive. rewrite H1. unfold snap_negative. rewrite H2, Hhalf. cbn [andb].
  rewrite Hhi, Hlo. cbn [andb]. vm_compute. reflexivity.
Qed.

Lemma numtoyminterval_sign_lost_witness :
  numtoyminterval (mk_ctype (fun _ => false) id) (fun c => c =? 32) (lit_frac (-7) 10) (lit "month") = Ok (Some (mk_interval 0 0 1)).
Proof.
  apply (numtoyminterval_sign_lost (mk_ctype (fun _ => false) id) (fun c => c =? 32) (lit_frac (-7) 10)); reflexivity.
Defined.
