(* ===== verification/HashFn.v ===== *)
(** * Hash functions

    [src/src/common/hashfn.c]: the hash of Bob Jenkins on byte strings, with its
    four code paths (aligned or unaligned key, little- or big-endian machine), the
    64-bit variant with a seed, the shortcuts for 32-bit keys and the key hash
    functions of dynahash tables.

    Words are numbers in [0, 2^32); [bigendian] is the byte order of the machine
    and [aligned] tells whether the key starts at a word boundary.  The result
    does not depend on the alignment, the shortcuts agree with the general
    functions, a zero seed gives the 32-bit hash, and [mix] is reversible. *)

From S2P Require Import Prelude.

(** ** Words *)

Definition add32 (x y : Z) : Z := uint32 (x + y).
Definition sub32 (x y : Z) : Z := uint32 (x - y).
Definition shl32 (x n : Z) : Z := uint32 (Z.shiftl x n).

Definition pg_rotate_left32 (word n : Z) : Z := Z.lor (shl32 word n) (Z.shiftr word (32 - n)).

(** The internal state. *)
Abbreviation hash_state := (Z * Z * Z)%type.

Definition mix (s : hash_state) : hash_state :=
  let '(a, b, c) := s in
  let rot := pg_rotate_left32 in
  let a := sub32 a c in let a := Z.lxor a (rot c 4) in let c := add32 c b in
  let b := sub32 b a in let b := Z.lxor b (rot a 6) in let a := add32 a c in
  let c := sub32 c b in let c := Z.lxor c (rot b 8) in let b := add32 b a in
  let a := sub32 a c in let a := Z.lxor a (rot c 16) in let c := add32 c b in
  let b := sub32 b a in let b := Z.lxor b (rot a 19) in let a := add32 a c in
  let c := sub32 c b in let c := Z.lxor c (rot b 4) in let b := add32 b a in
  (a, b, c).

Definition final (s : hash_state) : hash_state :=
  let '(a, b, c) := s in
  let rot := pg_rotate_left32 in
  let c := Z.lxor c b in let c := sub32 c (rot b 14) in
  let a := Z.lxor a c in let a := sub32 a (rot c 11) in
  let b := Z.lxor b a in let b := sub32 b (rot a 25) in
  let c := Z.lxor c b in let c := sub32 c (rot b 16) in
  let a := Z.lxor a c in let a := sub32 a (rot c 4) in
  let b := Z.lxor b a in let b := sub32 b (rot a 14) in
  let c := Z.lxor c b in let c := sub32 c (rot b 24) in
  (a, b, c).

(** [a = b = c = 0x9e3779b9 + len + 3923095] *)
Definition init_state (len : Z) : hash_state :=
  let w := uint32 (2654435769 + len + 3923095) in (w, w, w).

(** ** Reading the key *)

Section Key.

Context (bigendian : bool).

(** The word that four bytes of memory make. *)
Definition load32 (k : bytes) : Z :=
  foldr (fun c acc => ord c + 256 * acc) 0 (if bigendian then rev (take 4 k) else take 4 k).

(** [ka[i]] *)
Definition ka (k : bytes) (i : nat) : Z := load32 (drop (4 * i) k).

(** [k[i]], and [(uint32) k[i] << n] *)
Definition kb (k : bytes) (i : nat) : Z := ord (nth i k zero).
Definition kshl (k : bytes) (i : nat) (n : Z) : Z := shl32 (kb k i) n.

(** The loop over chunks of twelve bytes; returns the rest of the key. *)
Fixpoint chunks (step : hash_state -> bytes -> hash_state) (s : hash_state) (k : bytes) : hash_state * bytes :=
  match k with
  | _ :: _ :: _ :: _ :: _ :: _ :: _ :: _ :: _ :: _ :: _ :: _ :: k' => chunks step (step s k) k'
  | _ => (s, k)
  end.

Definition chunk_aligned (s : hash_state) (k : bytes) : hash_state :=
  let '(a, b, c) := s in
  mix (add32 a (ka k 0), add32 b (ka k 1), add32 c (ka k 2)).

Definition chunk_unaligned (s : hash_state) (k : bytes) : hash_state :=
  let '(a, b, c) := s in
  if bigendian then
    mix (add32 a (uint32 (kb k 3 + kshl k 2 8 + kshl k 1 16 + kshl k 0 24)),
         add32 b (uint32 (kb k 7 + kshl k 6 8 + kshl k 5 16 + kshl k 4 24)),
         add32 c (uint32 (kb k 11 + kshl k 10 8 + kshl k 9 16 + kshl k 8 24)))
  else
    mix (add32 a (uint32 (kb k 0 + kshl k 1 8 + kshl k 2 16 + kshl k 3 24)),
         add32 b (uint32 (kb k 4 + kshl k 5 8 + kshl k 6 16 + kshl k 7 24)),
         add32 c (uint32 (kb k 8 + kshl k 9 8 + kshl k 10 16 + kshl k 11 24))).

(** [case n: x += v; fallthrough], entered when [len >= n] *)
Definition case_add (len n : nat) (v x : Z) : Z := if (n <=? len)%nat then add32 x v else x.

(** The switch over the last bytes of an aligned key. *)
Definition tail_aligned (s : hash_state) (k : bytes) : hash_state :=
  let '(a, b, c) := s in
  let len := length k in
  let case := case_add len in
  if (8 <=? len)%nat then
    let c := if bigendian
             then case 9%nat (kshl k 8 24) (case 10%nat (kshl k 9 16) (case 11%nat (kshl k 10 8) c))
             else case 9%nat (kshl k 8 8) (case 10%nat (kshl k 9 16) (case 11%nat (kshl k 10 24) c)) in
    (add32 a (ka k 0), add32 b (ka k 1), c)
  else if (4 <=? len)%nat then
    let b := if bigendian
             then case 5%nat (kshl k 4 24) (case 6%nat (kshl k 5 16) (case 7%nat (kshl k 6 8) b))
             else case 5%nat (kb k 4) (case 6%nat (kshl k 5 8) (case 7%nat (kshl k 6 16) b)) in
    (add32 a (ka k 0), b, c)
  else
    let a := if bigendian
             then case 1%nat (kshl k 0 24) (case 2%nat (kshl k 1 16) (case 3%nat (kshl k 2 8) a))
             else case 1%nat (kb k 0) (case 2%nat (kshl k 1 8) (case 3%nat (kshl k 2 16) a)) in
    (a, b, c).

(** The switch over the last bytes of an unaligned key. *)
Definition tail_unaligned (s : hash_state) (k : bytes) : hash_state :=
  let '(a, b, c) := s in
  let case := case_add (length k) in
  if bigendian then
    (case 1%nat (kshl k 0 24) (case 2%nat (kshl k 1 16) (case 3%nat (kshl k 2 8) (case 4%nat (kb k 3) a))),
     case 5%nat (kshl k 4 24) (case 6%nat (kshl k 5 16) (case 7%nat (kshl k 6 8) (case 8%nat (kb k 7) b))),
     case 9%nat (kshl k 8 24) (case 10%nat (kshl k 9 16) (case 11%nat (kshl k 10 8) c)))
  else
    (case 1%nat (kb k 0) (case 2%nat (kshl k 1 8) (case 3%nat (kshl k 2 16) (case 4%nat (kshl k 3 24) a))),
     case 5%nat (kb k 4) (case 6%nat (kshl k 5 8) (case 7%nat (kshl k 6 16) (case 8%nat (kshl k 7 24) b))),
     case 9%nat (kshl k 8 8) (case 10%nat (kshl k 9 16) (case 11%nat (kshl k 10 24) c))).

(** The state after the whole key. *)
Definition absorb (aligned : bool) (s : hash_state) (k : bytes) : hash_state :=
  if aligned then let '(s, k) := chunks chunk_aligned s k in tail_aligned s k
  else let '(s, k) := chunks chunk_unaligned s k in tail_unaligned s k.

Definition hash_bytes (aligned : bool) (k : bytes) : Z :=
  let '(a, b, c) := final (absorb aligned (init_state (uint32 (Z.of_nat (length k)))) k) in c.

(** The perturbation of the state by the seed. *)
Definition seed_state (seed : Z) (s : hash_state) : hash_state :=
  if seed =? 0 then s
  else
    let '(a, b, c) := s in
    mix (add32 a (uint32 (Z.shiftr seed 32)), add32 b (uint32 seed), c).

Definition hash_bytes_extended (aligned : bool) (k : bytes) (seed : Z) : Z :=
  let '(a, b, c) :=
    final (absorb aligned (seed_state seed (init_state (uint32 (Z.of_nat (length k))))) k) in
  Z.lor (Z.shiftl b 32) c.

Definition hash_bytes_uint32 (k : Z) : Z :=
  let '(a, b, c) := init_state 4 in
  let '(a, b, c) := final (add32 a k, b, c) in c.

Definition hash_bytes_uint32_extended (k seed : Z) : Z :=
  let '(a, b, c) := seed_state seed (init_state 4) in
  let '(a, b, c) := final (add32 a k, b, c) in
  Z.lor (Z.shiftl b 32) c.

(** The bytes before the terminating NUL. *)
Definition strlen (k : bytes) : nat := length (break_at zero k).1.

Definition string_hash (aligned : bool) (key : bytes) (keysize : nat) : Z :=
  hash_bytes aligned (take (Nat.min (strlen key) (keysize - 1)) key).

Definition tag_hash (aligned : bool) (key : bytes) (keysize : nat) : Z :=
  hash_bytes aligned (take keysize key).

Definition uint32_hash (key : bytes) : Z := hash_bytes_uint32 (load32 key).

End Key.

(** ** Arithmetic of words *)

Definition is_word (x : Z) : Prop := 0 <= x < UINT32_MOD.

Definition words (s : hash_state) : Prop :=
  let '(a, b, c) := s in is_word a /\ is_word b /\ is_word c.

Lemma uint32_word x : is_word (uint32 x).
Proof. unfold uint32, is_word, UINT32_MOD. apply Z.mod_pos_bound. lia. Qed.

Lemma uint32_add_l x y : uint32 (uint32 x + y) = uint32 (x + y).
Proof. apply Zplus_mod_idemp_l. Qed.

Lemma uint32_add_r x y : uint32 (x + uint32 y) = uint32 (x + y).
Proof. apply Zplus_mod_idemp_r. Qed.

Lemma add32_add32 x y z : add32 (add32 x y) z = add32 x (y + z).
Proof. unfold add32. rewrite uint32_add_l. f_equal. lia. Qed.

Lemma word_testbit x i : is_word x -> 32 <= i -> Z.testbit x i = false.
Proof.
  intros Hx Hi. destruct (Z.eq_dec x 0) as [->|Hn]; [apply Z.bits_0|].
  apply Z.bits_above_log2; [apply Hx|]. assert (Z.log2 x < 32); [|lia].
  apply Z.log2_lt_pow2; unfold is_word, UINT32_MOD in Hx; lia.
Qed.

Lemma word_of_testbit x : (forall i, 32 <= i -> Z.testbit x i = false) -> is_word x.
Proof.
  intros H. pose proof (mask_nonneg x 32 H) as Hx. split; [done|].
  destruct (Z.eq_dec x 0) as [->|Hn]; [done|]. change UINT32_MOD with (2 ^ 32).
  apply Z.log2_lt_pow2; [lia|]. destruct (Z.lt_decidable (Z.log2 x) 32) as [?|Hl]; [done|].
  assert (Hb : Z.testbit x (Z.log2 x) = true) by (apply Z.bit_log2; lia). rewrite H in Hb by lia. done.
Qed.

Lemma lxor_word x y : is_word x -> is_word y -> is_word (Z.lxor x y).
Proof. intros Hx Hy. apply word_of_testbit. intros i Hi. by rewrite Z.lxor_spec, !word_testbit. Qed.

Lemma lor_word x y : is_word x -> is_word y -> is_word (Z.lor x y).
Proof. intros Hx Hy. apply word_of_testbit. intros i Hi. by rewrite Z.lor_spec, !word_testbit. Qed.

Lemma rotate_word x n : 0 <= n <= 32 -> is_word x -> is_word (pg_rotate_left32 x n).
Proof.
  intros Hn Hx. apply lor_word; [apply uint32_word|]. apply word_of_testbit. intros i Hi.
  rewrite Z.shiftr_spec by lia. apply word_testbit; [done|lia].
Qed.

Lemma add32_word x y : is_word (add32 x y).
Proof. apply uint32_word. Qed.

Lemma sub32_word x y : is_word (sub32 x y).
Proof. apply uint32_word. Qed.

Create HintDb words.
#[export] Hint Resolve add32_word sub32_word uint32_word lxor_word rotate_word : words.
#[export] Hint Extern 1 (0 <= _ <= 32) => lia : words.

Lemma sub_add32 x y : is_word x -> sub32 (add32 x y) y = x.
Proof.
  intros Hx. unfold sub32, add32, uint32. rewrite Zminus_mod_idemp_l. replace (x + y - y) with x by lia.
  by apply Z.mod_small.
Qed.

Lemma add_sub32 x y : is_word x -> add32 (sub32 x y) y = x.
Proof.
  intros Hx. unfold sub32, add32, uint32. rewrite Zplus_mod_idemp_l. replace (x - y + y) with x by lia.
  by apply Z.mod_small.
Qed.

Lemma lxor_twice x y : Z.lxor (Z.lxor x y) y = x.
Proof. by rewrite Z.lxor_assoc, Z.lxor_nilpotent, Z.lxor_0_r. Qed.

(** ** [mix] and [final] backwards *)

(** [mix] in reverse. *)
Definition unmix (s : hash_state) : hash_state :=
  let '(a, b, c) := s in
  let rot := pg_rotate_left32 in
  let b := sub32 b a in let c := Z.lxor c (rot b 4) in let c := add32 c b in
  let a := sub32 a c in let b := Z.lxor b (rot a 19) in let b := add32 b a in
  let c := sub32 c b in let a := Z.lxor a (rot c 16) in let a := add32 a c in
  let b := sub32 b a in let c := Z.lxor c (rot b 8) in let c := add32 c b in
  let a := sub32 a c in let b := Z.lxor b (rot a 6) in let b := add32 b a in
  let c := sub32 c b in let a := Z.lxor a (rot c 4) in let a := add32 a c in
  (a, b, c).

(** One of the six rounds of [mix], and its inverse. *)
Definition mix_round (n : Z) (s : hash_state) : hash_state :=
  let '(x, y, z) := s in (Z.lxor (sub32 x z) (pg_rotate_left32 z n), y, add32 z y).

Definition unmix_round (n : Z) (s : hash_state) : hash_state :=
  let '(x, y, z) := s in
  let z := sub32 z y in (add32 (Z.lxor x (pg_rotate_left32 z n)) z, y, z).

Definition turn (s : hash_state) : hash_state := let '(x, y, z) := s in (y, z, x).

Lemma mix_rounds s :
  mix s = turn (mix_round 4 (turn (mix_round 19 (turn (mix_round 16
          (turn (mix_round 8 (turn (mix_round 6 (turn (mix_round 4 s))))))))))).
Proof. by destruct s as [[a b] c]. Qed.

Definition unturn (s : hash_state) : hash_state := let '(x, y, z) := s in (z, x, y).

Lemma unmix_rounds s :
  unmix s = unmix_round 4 (unturn (unmix_round 6 (unturn (unmix_round 8 (unturn
            (unmix_round 16 (unturn (unmix_round 19 (unturn (unmix_round 4 (unturn s))))))))))).
Proof. by destruct s as [[a b] c]. Qed.

Lemma unmix_round_mix n s : words s -> unmix_round n (mix_round n s) = s.
Proof.
  destruct s as [[x y] z]. intros (Hx & Hy & Hz). cbn. rewrite sub_add32 by done.
  by rewrite lxor_twice, add_sub32.
Qed.

Lemma mix_round_unmix n s : 0 <= n <= 32 -> words s -> mix_round n (unmix_round n s) = s.
Proof.
  destruct s as [[x y] z]. intros Hn (Hx & Hy & Hz). cbn. rewrite sub_add32 by auto 6 with words.
  by rewrite lxor_twice, add_sub32.
Qed.

Lemma mix_round_words n s : 0 <= n <= 32 -> words s -> words (mix_round n s).
Proof. destruct s as [[x y] z]. intros Hn (Hx & Hy & Hz). cbn. auto 6 with words. Qed.

Lemma unmix_round_words n s : words s -> words (unmix_round n s).
Proof. destruct s as [[x y] z]. intros (Hx & Hy & Hz). cbn. auto 6 with words. Qed.

Lemma turn_words s : words s -> words (turn s).
Proof. destruct s as [[x y] z]. cbn. tauto. Qed.

Lemma unturn_words s : words s -> words (unturn s).
Proof. destruct s as [[x y] z]. cbn. tauto. Qed.

Lemma unturn_turn s : unturn (turn s) = s.
Proof. by destruct s as [[x y] z]. Qed.

Lemma turn_unturn s : turn (unturn s) = s.
Proof. by destruct s as [[x y] z]. Qed.

Ltac solve_words :=
  repeat match goal with
    | |- words (turn _) => apply turn_words
    | |- words (unturn _) => apply unturn_words
    | |- words (mix_round _ _) => apply mix_round_words; [lia|]
    | |- words (unmix_round _ _) => apply unmix_round_words
    end; try assumption; try lia.

Lemma mix_words s : words s -> words (mix s).
Proof. intros Hs. rewrite mix_rounds. solve_words. Qed.

(** One of the seven rounds of [final]. *)
Definition final_round (n : Z) (s : hash_state) : hash_state :=
  let '(x, y, z) := s in (sub32 (Z.lxor x z) (pg_rotate_left32 z n), y, z).

Lemma final_rounds s :
  final s = turn (final_round 24 (turn (final_round 14 (turn (final_round 4 (turn (final_round 16
            (turn (final_round 25 (turn (final_round 11 (turn (final_round 14 (unturn s)))))))))))))).
Proof. by destruct s as [[a b] c]. Qed.

Lemma final_round_words n s : words s -> words (final_round n s).
Proof. destruct s as [[x y] z]. intros (Hx & Hy & Hz). cbn. auto with words. Qed.

Lemma final_words s : words s -> words (final s).
Proof. intros Hs. rewrite final_rounds. repeat (apply turn_words, final_round_words). solve_words. Qed.

(** [mix] is reversible, as its comment says: [unmix] undoes it and [mix] undoes
    [unmix], so it is a permutation of the word triples. *)
Theorem mix_reversible s : words s -> unmix (mix s) = s /\ mix (unmix s) = s.
Proof.
  intros Hs. rewrite !mix_rounds, !unmix_rounds. split.
  - repeat (rewrite unturn_turn, unmix_round_mix by solve_words). done.
  - repeat (rewrite mix_round_unmix, turn_unturn by solve_words). done.
Qed.

Lemma mix_reversible_witness : unmix (mix (1, 2, 3)) = (1, 2, 3) /\ mix (unmix (1, 2, 3)) = (1, 2, 3).
Proof. apply (mix_reversible (1, 2, 3)). unfold words, is_word, UINT32_MOD. lia. Defined.

(** ** Aligned and unaligned keys *)

Lemma kshl_spec k i n : 0 <= n <= 24 -> kshl k i n = kb k i * 2 ^ n.
Proof.
  intros Hn. unfold kshl, shl32. rewrite Z.shiftl_mul_pow2 by lia. apply uint32_small.
  pose proof (ord_range (nth i k zero)) as Hr. fold (kb k i) in Hr. unfold UINT32_MOD.
  assert (2 ^ n <= 2 ^ 24) by (apply Z.pow_le_mono_r; lia). assert (0 < 2 ^ n) by lia. nia.
Qed.

(** A word and its four bytes. *)
Lemma load32_spec bigendian c0 c1 c2 c3 k :
  load32 bigendian (c0 :: c1 :: c2 :: c3 :: k) =
  if bigendian then ord c3 + ord c2 * 256 + ord c1 * 65536 + ord c0 * 16777216
  else ord c0 + ord c1 * 256 + ord c2 * 65536 + ord c3 * 16777216.
Proof. unfold load32. cbn [take]. rewrite take_0. destruct bigendian; cbn [rev app foldr]; lia. Qed.

Lemma load32_word bigendian c0 c1 c2 c3 k : is_word (load32 bigendian (c0 :: c1 :: c2 :: c3 :: k)).
Proof.
  rewrite load32_spec. pose proof (ord_range c0). pose proof (ord_range c1). pose proof (ord_range c2).
  pose proof (ord_range c3). unfold is_word, UINT32_MOD. destruct bigendian; lia.
Qed.

Ltac word_sums :=
  rewrite ?kshl_spec by lia; unfold ka, kb; cbn [Nat.mul Nat.add drop nth]; rewrite ?load32_spec, ?add32_add32;
  unfold add32; rewrite ?uint32_add_r; apply (f_equal uint32);
  change (2 ^ 8) with 256; change (2 ^ 16) with 65536; change (2 ^ 24) with 16777216; lia.

Lemma state_eq (a b c a' b' c' : Z) : a = a' -> b = b' -> c = c' -> (a, b, c) = (a', b', c').
Proof. congruence. Qed.

Lemma chunk_equiv bigendian s k :
  (12 <= length k)%nat -> chunk_unaligned bigendian s k = chunk_aligned bigendian s k.
Proof.
  intros Hk. destruct s as [[x y] z]. do 12 (destruct k as [|? k]; [cbn in Hk; lia|]).
  unfold chunk_unaligned, chunk_aligned. destruct bigendian; f_equal; apply state_eq; word_sums.
Qed.

Lemma tail_equiv bigendian s k :
  (length k < 12)%nat -> tail_unaligned bigendian s k = tail_aligned bigendian s k.
Proof.
  intros Hk. destruct s as [[x y] z].
  do 12 (destruct k as [|? k]; [unfold tail_unaligned, tail_aligned, case_add; cbn [length Nat.leb];
    destruct bigendian; apply state_eq; try reflexivity; word_sums|]).
  cbn in Hk. lia.
Qed.

Lemma chunks_equiv bigendian s k :
  chunks (chunk_unaligned bigendian) s k = chunks (chunk_aligned bigendian) s k /\
  (length (chunks (chunk_aligned bigendian) s k).2 < 12)%nat.
Proof.
  remember (length k) as n eqn:Hn. revert s k Hn. induction (lt_wf n) as [n _ IH]. intros s k Hn.
  destruct (decide (length k < 12)%nat) as [Hk|Hk].
  - do 12 (destruct k as [|? k]; [split; [done|cbn; lia]|]). cbn in Hk. lia.
  - pose proof (chunk_equiv bigendian s k ltac:(lia)) as Hc.
    do 12 (destruct k as [|? k]; [cbn in Hk; lia|]). cbn [chunks]. rewrite Hc.
    eapply IH; [|reflexivity]. cbn in Hn. lia.
Qed.

Lemma absorb_equiv bigendian s k : absorb bigendian false s k = absorb bigendian true s k.
Proof.
  unfold absorb. destruct (chunks_equiv bigendian s k) as [-> Hl].
  destruct (chunks (chunk_aligned bigendian) s k) as [s' k']. by apply tail_equiv.
Qed.

Lemma chunk_words bigendian s k : words s -> words (chunk_aligned bigendian s k).
Proof. destruct s as [[a b] c]. intros (Ha & Hb & Hc). apply mix_words. cbn. auto with words. Qed.

Lemma chunks_words bigendian s k : words s -> words (chunks (chunk_aligned bigendian) s k).1.
Proof.
  remember (length k) as n eqn:Hn. revert s k Hn. induction (lt_wf n) as [n _ IH]. intros s k Hn Hs.
  do 12 (destruct k as [|? k]; [done|]). cbn [chunks].
  eapply IH; [|reflexivity|by apply chunk_words]. cbn in Hn. lia.
Qed.

Lemma case_add_word len n v x : is_word x -> is_word (case_add len n v x).
Proof. intros Hx. unfold case_add. case_match; auto with words. Qed.

#[export] Hint Resolve case_add_word : words.

Lemma absorb_words bigendian aligned s k : words s -> words (absorb bigendian aligned s k).
Proof.
  intros Hs. destruct aligned; [|rewrite absorb_equiv]; unfold absorb;
    pose proof (chunks_words bigendian s k Hs) as Hc;
    destruct (chunks (chunk_aligned bigendian) s k) as [[[a b] c] k']; cbn [fst] in Hc; destruct Hc as (Ha & Hb & Hc);
    unfold tail_aligned; repeat case_match; cbn; auto 8 with words.
Qed.

Lemma init_words len : words (init_state len).
Proof. cbn. auto with words. Qed.

Lemma seed_words seed s : words s -> words (seed_state seed s).
Proof.
  unfold seed_state. case_match; [done|]. destruct s as [[a b] c]. intros (Ha & Hb & Hc). apply mix_words.
  cbn. auto with words.
Qed.

(** A high and a low word make a double word. *)
Lemma lor_words b c : is_word b -> is_word c -> Z.lor (Z.shiftl b 32) c = b * UINT32_MOD + c.
Proof.
  intros Hb Hc. rewrite <- Z.lxor_lor, <- Z.add_nocarry_lxor; [by rewrite Z.shiftl_mul_pow2|..];
    apply Z.bits_inj'; intros i Hi; rewrite Z.land_spec, Z.bits_0;
    (destruct (Z.lt_decidable i 32); [rewrite Z.shiftl_spec_low by lia; done|]);
    rewrite (word_testbit c) by (done || lia); apply andb_false_r.
Qed.

Lemma low_word b c : is_word b -> is_word c -> uint32 (Z.lor (Z.shiftl b 32) c) = c.
Proof. intros Hb Hc. rewrite lor_words by done. unfold uint32, is_word, UINT32_MOD in *. lia. Qed.

(** The four code paths agree: whether the key is aligned or not, on a little-
    or a big-endian machine, the hash of the same bytes is the same, with and
    without a seed. *)
Theorem hash_alignment bigendian k :
  hash_bytes bigendian false k = hash_bytes bigendian true k /\
  forall seed, hash_bytes_extended bigendian false k seed = hash_bytes_extended bigendian true k seed.
Proof. split; intros; unfold hash_bytes, hash_bytes_extended; by rewrite absorb_equiv. Qed.

(** [hash_bytes_uint32] "has the same result as hash_bytes(&k, sizeof(uint32))",
    so [tag_hash] works for the keys of [uint32_hash] too; likewise with a seed. *)
Theorem hash_uint32_shortcut bigendian aligned c0 c1 c2 c3 k :
  let key := c0 :: c1 :: c2 :: c3 :: k in
  uint32_hash bigendian key = tag_hash bigendian aligned key 4 /\
  forall seed, hash_bytes_uint32_extended (load32 bigendian key) seed =
    hash_bytes_extended bigendian aligned (take 4 key) seed.
Proof.
  intros key. unfold key. cbn [take]. rewrite take_0.
  assert (Ha : forall s, absorb bigendian aligned s [c0; c1; c2; c3] =
    let '(a, b, c) := s in (add32 a (load32 bigendian (c0 :: c1 :: c2 :: c3 :: k)), b, c)).
  { intros [[a b] c]. destruct aligned; [|rewrite absorb_equiv]; unfold absorb, tail_aligned, case_add, ka;
      cbn [chunks length Nat.leb Nat.mul Nat.add drop]; rewrite !load32_spec; by destruct bigendian. }
  split; [|intros seed]; unfold uint32_hash, tag_hash, hash_bytes, hash_bytes_uint32, hash_bytes_extended,
    hash_bytes_uint32_extended; cbn [take]; rewrite ?take_0, Ha; [done|].
  change (uint32 (Z.of_nat (length [c0; c1; c2; c3]))) with 4. by destruct (seed_state seed (init_state 4)) as [[a b] c].
Qed.

(** With a zero seed the low 32 bits of the 64-bit hash are the 32-bit hash, which
    is a word. *)
Theorem hash_extended_zero_seed bigendian aligned k :
  uint32 (hash_bytes_extended bigendian aligned k 0) = hash_bytes bigendian aligned k /\
  0 <= hash_bytes bigendian aligned k < UINT32_MOD.
Proof.
  unfold hash_bytes_extended, hash_bytes, seed_state. cbn [Z.eqb].
  pose proof (final_words _ (absorb_words bigendian aligned _ k (init_words (uint32 (Z.of_nat (length k)))))) as Hw.
  destruct (final (absorb bigendian aligned (init_state (uint32 (Z.of_nat (length k)))) k)) as [[a b] c].
  destruct Hw as (_ & Hb & Hc). split; [by apply low_word|done].
Qed.
