(* ===== verification/LockObject.v ===== *)
(** * The lock manager: one lockable object

    The shared state of one lockable object, [src/src/backend/storage/lmgr/lock.c]
    and the wait queue of [src/src/backend/storage/lmgr/proc.c]: the conflict
    table, [LockCheckConflicts], [GrantLock], [UnGrantLock], [JoinWaitQueue],
    [ProcLockWakeup], [RemoveFromWaitQueue] and [CleanUpLock]. Every function runs
    under the partition lock of the object, so it is one atomic step on a [LOCK].

    - A [LOCK] owns the list of its [PROCLOCK]s, in the order of [procLocks]; a
      pointer to a PROCLOCK is the number of its process, which identifies it
      within the lock. The fields of a [PGPROC] that have a meaning only while it
      is linked in a wait queue are the entries of [waitProcs].
    - [lockGroupLeader] is the field of the PGPROCs, constant while locks are
      held; [MyProc] is the backend that runs the function.
    - Theorems: [LockCheckConflicts] (counters and group subtraction) decides
      whether another lock group holds a conflicting mode and never panics;
      [lock_inv] - counters, masks and queue agree, no two groups hold
      conflicting modes, and every waiter has a reason to wait - is preserved by
      every operation. *)

From S2P Require Import Prelude.
From stdpp Require Import sets.
#[local] Open Scope Z_scope.

(** ** Lock modes and the conflict table *)

Abbreviation LOCKMODE := Z.
Abbreviation LOCKMASK := Z.
Abbreviation ProcNumber := Z.

Definition AccessShareLock : LOCKMODE := 1.
Definition RowShareLock : LOCKMODE := 2.
Definition RowExclusiveLock : LOCKMODE := 3.
Definition ShareUpdateExclusiveLock : LOCKMODE := 4.
Definition ShareLock : LOCKMODE := 5.
Definition ShareRowExclusiveLock : LOCKMODE := 6.
Definition ExclusiveLock : LOCKMODE := 7.
Definition AccessExclusiveLock : LOCKMODE := 8.
Definition MaxLockMode : LOCKMODE := 8.
Definition MAX_LOCKMODES : nat := 10.

Definition LOCKBIT_ON (lockmode : LOCKMODE) : LOCKMASK := Z.shiftl 1 lockmode.
Definition LOCKBIT_OFF (lockmode : LOCKMODE) : LOCKMASK := Z.lnot (Z.shiftl 1 lockmode).

(** [LOCKBIT_ON(a) | LOCKBIT_ON(b) | ...] *)
Definition lockbits (ms : list LOCKMODE) : LOCKMASK :=
  foldr (fun m acc => Z.lor (LOCKBIT_ON m) acc) 0 ms.

Definition LockConflicts : list LOCKMASK := [
  0;
  (* AccessShareLock *)
  lockbits [AccessExclusiveLock];
  (* RowShareLock *)
  lockbits [ExclusiveLock; AccessExclusiveLock];
  (* RowExclusiveLock *)
  lockbits [ShareLock; ShareRowExclusiveLock; ExclusiveLock; AccessExclusiveLock];
  (* ShareUpdateExclusiveLock *)
  lockbits [ShareUpdateExclusiveLock; ShareLock; ShareRowExclusiveLock; ExclusiveLock;
            AccessExclusiveLock];
  (* ShareLock *)
  lockbits [RowExclusiveLock; ShareUpdateExclusiveLock; ShareRowExclusiveLock; ExclusiveLock;
            AccessExclusiveLock];
  (* ShareRowExclusiveLock *)
  lockbits [RowExclusiveLock; ShareUpdateExclusiveLock; ShareLock; ShareRowExclusiveLock;
            ExclusiveLock; AccessExclusiveLock];
  (* ExclusiveLock *)
  lockbits [RowShareLock; RowExclusiveLock; ShareUpdateExclusiveLock; ShareLock;
            ShareRowExclusiveLock; ExclusiveLock; AccessExclusiveLock];
  (* AccessExclusiveLock *)
  lockbits [AccessShareLock; RowShareLock; RowExclusiveLock; ShareUpdateExclusiveLock; ShareLock;
            ShareRowExclusiveLock; ExclusiveLock; AccessExclusiveLock] ].

Definition lock_mode_names : list string :=
  ["INVALID"; "AccessShareLock"; "RowShareLock"; "RowExclusiveLock"; "ShareUpdateExclusiveLock";
   "ShareLock"; "ShareRowExclusiveLock"; "ExclusiveLock"; "AccessExclusiveLock"]%string.

Record LockMethodData := mkLockMethod {
  numLockModes : Z;
  conflictTab : list LOCKMASK;
  lockModeNames : list string
}.

Definition default_lockmethod : LockMethodData := mkLockMethod MaxLockMode LockConflicts lock_mode_names.
Definition user_lockmethod : LockMethodData := mkLockMethod MaxLockMode LockConflicts lock_mode_names.

Definition DEFAULT_LOCKMETHOD : Z := 1.
Definition USER_LOCKMETHOD : Z := 2.

(** [LockMethods[id]]; entry 0 is NULL and the callers refuse other ids. *)
Definition LockMethods (id : Z) : option LockMethodData :=
  if id =? DEFAULT_LOCKMETHOD then Some default_lockmethod
  else if id =? USER_LOCKMETHOD then Some user_lockmethod
  else None.

(** [lockMethodTable->conflictTab[lockmode]] *)
Definition conflict (lmt : LockMethodData) (m : LOCKMODE) : LOCKMASK := aget (conflictTab lmt) m.

(** What the lock manager relies on in a lock method. *)
Class LockMethodOK (lmt : LockMethodData) : Prop := {
  modes_bound : 0 < numLockModes lmt < Z.of_nat MAX_LOCKMODES;
  conflict_range : forall a b, 1 <= a <= numLockModes lmt ->
    Z.testbit (conflict lmt a) b = true -> 1 <= b <= numLockModes lmt;
  conflict_sym : forall a b, 1 <= a <= numLockModes lmt -> 1 <= b <= numLockModes lmt ->
    Z.testbit (conflict lmt a) b = Z.testbit (conflict lmt b) a
}.

(** ** Lockable objects *)

Inductive LockTagType :=
  | LOCKTAG_RELATION
  | LOCKTAG_RELATION_EXTEND
  | LOCKTAG_DATABASE_FROZEN_IDS
  | LOCKTAG_PAGE
  | LOCKTAG_TUPLE
  | LOCKTAG_TRANSACTION
  | LOCKTAG_VIRTUALTRANSACTION
  | LOCKTAG_SPECULATIVE_TOKEN
  | LOCKTAG_OBJECT
  | LOCKTAG_USERLOCK
  | LOCKTAG_ADVISORY
  | LOCKTAG_APPLY_TRANSACTION.

#[export] Instance LockTagType_eq_dec : EqDecision LockTagType.
Proof. solve_decision. Defined.

Record LOCKTAG := mkLOCKTAG {
  locktag_field1 : Z;
  locktag_field2 : Z;
  locktag_field3 : Z;
  locktag_field4 : Z;
  locktag_type : LockTagType;
  locktag_lockmethodid : Z
}.

#[export] Instance LOCKTAG_eq_dec : EqDecision LOCKTAG.
Proof. solve_decision. Defined.

Record PROCLOCK := mkPROCLOCK {
  myProc : ProcNumber;
  groupLeader : ProcNumber;
  holdMask : LOCKMASK;
  releaseMask : LOCKMASK
}.

(** A process in a wait queue: who waits, for which mode, and the modes it holds
    on the object. *)
Record PGPROC := mkPGPROC {
  procNumber : ProcNumber;
  waitLockMode : LOCKMODE;
  heldLocks : LOCKMASK
}.

Record LOCK := mkLOCK {
  tag : LOCKTAG;
  grantMask : LOCKMASK;
  waitMask : LOCKMASK;
  procLocks : list PROCLOCK;
  waitProcs : list PGPROC;
  requested : list Z;
  nRequested : Z;
  granted : list Z;
  nGranted : Z
}.

Inductive ProcWaitStatus :=
  | PROC_WAIT_STATUS_OK
  | PROC_WAIT_STATUS_WAITING
  | PROC_WAIT_STATUS_ERROR.

#[export] Instance ProcWaitStatus_eq_dec : EqDecision ProcWaitStatus.
Proof. solve_decision. Defined.

(** The initialization of a new lock object in [SetupLockInTable]. *)
Definition new_lock (t : LOCKTAG) : LOCK :=
  mkLOCK t 0 0 [] [] (replicate MAX_LOCKMODES 0) 0 (replicate MAX_LOCKMODES 0) 0.

(** The PROCLOCK of a process: the search in [LockMethodProcLockHash]. *)
Definition find_proclock (l : LOCK) (p : ProcNumber) : option PROCLOCK :=
  List.find (fun pl => myProc pl =? p) (procLocks l).

(** An assignment through a pointer to a PROCLOCK. *)
Definition update_proclock (p : ProcNumber) (f : PROCLOCK -> PROCLOCK) (pls : list PROCLOCK)
    : list PROCLOCK :=
  map (fun pl => if myProc pl =? p then f pl else pl) pls.

Definition set_holdMask (mask : LOCKMASK) (pl : PROCLOCK) : PROCLOCK :=
  mkPROCLOCK (myProc pl) (groupLeader pl) mask (releaseMask pl).

Definition set_releaseMask (mask : LOCKMASK) (pl : PROCLOCK) : PROCLOCK :=
  mkPROCLOCK (myProc pl) (groupLeader pl) (holdMask pl) mask.

Definition set_procLocks (pls : list PROCLOCK) (l : LOCK) : LOCK :=
  mkLOCK (tag l) (grantMask l) (waitMask l) pls (waitProcs l) (requested l) (nRequested l)
    (granted l) (nGranted l).

Definition set_waitProcs (ws : list PGPROC) (l : LOCK) : LOCK :=
  mkLOCK (tag l) (grantMask l) (waitMask l) (procLocks l) ws (requested l) (nRequested l)
    (granted l) (nGranted l).

Definition set_waitMask (mask : LOCKMASK) (l : LOCK) : LOCK :=
  mkLOCK (tag l) (grantMask l) mask (procLocks l) (waitProcs l) (requested l) (nRequested l)
    (granted l) (nGranted l).

(** [lock->nRequested += d; lock->requested[lockmode] += d;] *)
Definition add_requested (m : LOCKMODE) (d : Z) (l : LOCK) : LOCK :=
  mkLOCK (tag l) (grantMask l) (waitMask l) (procLocks l) (waitProcs l)
    (aset (requested l) m (aget (requested l) m + d)) (nRequested l + d) (granted l) (nGranted l).

(** ** Operations *)

Section Operations.

Variable lmt : LockMethodData.
Variable lockGroupLeader : ProcNumber -> option ProcNumber.
Variable MyProc : ProcNumber.

(** [lockmode] runs from 1 to [numLockModes]. *)
Definition lockmodes : list LOCKMODE := seqZ 1 (numLockModes lmt).

(** [proc->lockGroupLeader != NULL ? proc->lockGroupLeader : proc] *)
Definition group_leader (p : ProcNumber) : ProcNumber := default p (lockGroupLeader p).

(** The part of [SetupLockInTable] that finds or creates the PROCLOCK. *)
Definition enter_proclock (p : ProcNumber) (l : LOCK) : LOCK :=
  match find_proclock l p with
  | Some _ => l
  | None => set_procLocks (procLocks l ++ [mkPROCLOCK p (group_leader p) 0 0]) l
  end.

Fixpoint count_conflicts (modes : list LOCKMODE) (conflictMask myLocks : LOCKMASK)
    (grants conflictsRemaining : list Z) (totalConflictsRemaining : Z) : list Z * Z :=
  match modes with
  | [] => (conflictsRemaining, totalConflictsRemaining)
  | i :: modes' =>
      if Z.land conflictMask (LOCKBIT_ON i) =? 0 then
        count_conflicts modes' conflictMask myLocks grants (aset conflictsRemaining i 0)
          totalConflictsRemaining
      else
        let c := aget grants i in
        let c := if negb (Z.land myLocks (LOCKBIT_ON i) =? 0) then c - 1 else c in
        count_conflicts modes' conflictMask myLocks grants (aset conflictsRemaining i c)
          (totalConflictsRemaining + c)
  end.

(** The inner loop over the modes one group member holds. *)
Fixpoint subtract_member (modes : list LOCKMODE) (intersectMask : LOCKMASK)
    (conflictsRemaining : list Z) (totalConflictsRemaining : Z) : result (list Z * Z) :=
  match modes with
  | [] => Ok (conflictsRemaining, totalConflictsRemaining)
  | i :: modes' =>
      if negb (Z.land intersectMask (LOCKBIT_ON i) =? 0) then
        if aget conflictsRemaining i <=? 0 then
          ereport ERRCODE_INTERNAL_ERROR "proclocks held do not match lock"
        else
          subtract_member modes' intersectMask
            (aset conflictsRemaining i (aget conflictsRemaining i - 1))
            (totalConflictsRemaining - 1)
      else subtract_member modes' intersectMask conflictsRemaining totalConflictsRemaining
  end.

(** The loop over [lock->procLocks] that subtracts the locks of group members. *)
Fixpoint subtract_group (others : list PROCLOCK) (proclock : PROCLOCK) (conflictMask : LOCKMASK)
    (conflictsRemaining : list Z) (totalConflictsRemaining : Z) : result bool :=
  match others with
  | [] => Ok true
  | other :: others' =>
      if negb (myProc proclock =? myProc other) && (groupLeader proclock =? groupLeader other)
         && negb (Z.land (holdMask other) conflictMask =? 0) then
        subtract_member lockmodes (Z.land (holdMask other) conflictMask)
          conflictsRemaining totalConflictsRemaining ≫= fun '(remaining, total) =>
        if total =? 0 then Ok false
        else subtract_group others' proclock conflictMask remaining total
      else subtract_group others' proclock conflictMask conflictsRemaining totalConflictsRemaining
  end.

Definition LockCheckConflicts (lockmode : LOCKMODE) (lock : LOCK) (proclock : PROCLOCK)
    : result bool :=
  let conflictMask := conflict lmt lockmode in
  if Z.land conflictMask (grantMask lock) =? 0 then Ok false
  else
    let '(conflictsRemaining, totalConflictsRemaining) :=
      count_conflicts lockmodes conflictMask (holdMask proclock) (granted lock)
        (replicate MAX_LOCKMODES 0) 0 in
    if totalConflictsRemaining =? 0 then Ok false
    else if (groupLeader proclock =? MyProc) && negb (bool_decide (is_Some (lockGroupLeader MyProc)))
    then Ok true
    else if bool_decide (locktag_type (tag lock) = LOCKTAG_RELATION_EXTEND) then Ok true
    else subtract_group (procLocks lock) proclock conflictMask conflictsRemaining
           totalConflictsRemaining.

Definition GrantLock (lock : LOCK) (p : ProcNumber) (lockmode : LOCKMODE) : LOCK :=
  let grants := aset (granted lock) lockmode (aget (granted lock) lockmode + 1) in
  mkLOCK (tag lock)
    (Z.lor (grantMask lock) (LOCKBIT_ON lockmode))
    (if aget grants lockmode =? aget (requested lock) lockmode
     then Z.land (waitMask lock) (LOCKBIT_OFF lockmode) else waitMask lock)
    (update_proclock p (fun pl => set_holdMask (Z.lor (holdMask pl) (LOCKBIT_ON lockmode)) pl)
       (procLocks lock))
    (waitProcs lock) (requested lock) (nRequested lock) grants (nGranted lock + 1).

(** The boolean is [wakeupNeeded]. *)
Definition UnGrantLock (lock : LOCK) (lockmode : LOCKMODE) (p : ProcNumber) : LOCK * bool :=
  let grants := aset (granted lock) lockmode (aget (granted lock) lockmode - 1) in
  (mkLOCK (tag lock)
     (if aget grants lockmode =? 0 then Z.land (grantMask lock) (LOCKBIT_OFF lockmode)
      else grantMask lock)
     (waitMask lock)
     (update_proclock p (fun pl => set_holdMask (Z.land (holdMask pl) (LOCKBIT_OFF lockmode)) pl)
        (procLocks lock))
     (waitProcs lock)
     (aset (requested lock) lockmode (aget (requested lock) lockmode - 1)) (nRequested lock - 1)
     grants (nGranted lock - 1),
   negb (Z.land (conflict lmt lockmode) (waitMask lock) =? 0)).

(** [dclist_delete_from_thoroughly(&waitLock->waitProcs, &proc->waitLink)] *)
Definition remove_waiter (p : ProcNumber) (l : LOCK) : LOCK :=
  set_waitProcs (filter (fun w => procNumber w <> p) (waitProcs l)) l.

(** The loop of [ProcLockWakeup] over the wait queue; the processes it wakes. *)
Fixpoint wakeup_loop (queue : list PGPROC) (aheadRequests : LOCKMASK) (lock : LOCK)
    : result (LOCK * list ProcNumber) :=
  match queue with
  | [] => Ok (lock, [])
  | proc :: queue' =>
      let lockmode := waitLockMode proc in
      match find_proclock lock (procNumber proc) with
      | None => ereport ERRCODE_INTERNAL_ERROR "waitProcLock is NULL"
      | Some waitProcLock =>
          (if Z.land (conflict lmt lockmode) aheadRequests =? 0
           then LockCheckConflicts lockmode lock waitProcLock else Ok true) ≫= fun blocked =>
          if negb blocked then
            let lock := GrantLock lock (procNumber proc) lockmode in
            let lock := remove_waiter (procNumber proc) lock in
            wakeup_loop queue' aheadRequests lock ≫= fun '(lock, woken) =>
            Ok (lock, procNumber proc :: woken)
          else wakeup_loop queue' (Z.lor aheadRequests (LOCKBIT_ON lockmode)) lock
      end
  end.

Definition ProcLockWakeup (lock : LOCK) : result (LOCK * list ProcNumber) :=
  wakeup_loop (waitProcs lock) 0 lock.

(** What the scan of the wait queue in [JoinWaitQueue] finds. *)
Inductive queue_place :=
  | Tail
  | Before (proc : PGPROC)
  | GrantNow
  | EarlyDeadlock (proc : PGPROC).

(** [myHeldLocks]: my own locks, and those of my group if I am in one. *)
Definition my_held_locks (lock : LOCK) (proclock : PROCLOCK) : LOCKMASK :=
  match lockGroupLeader MyProc with
  | None => holdMask proclock
  | Some leader =>
      foldl (fun held other => if groupLeader other =? leader then Z.lor held (holdMask other) else held)
        (holdMask proclock) (procLocks lock)
  end.

Definition same_group (proc : PGPROC) : bool :=
  bool_decide (is_Some (lockGroupLeader MyProc) /\
               lockGroupLeader MyProc = lockGroupLeader (procNumber proc)).

Fixpoint find_place (queue : list PGPROC) (aheadRequests myHeldLocks : LOCKMASK)
    (lockmode : LOCKMODE) (lock : LOCK) (proclock : PROCLOCK) : result queue_place :=
  match queue with
  | [] => Ok Tail
  | proc :: queue' =>
      if same_group proc then
        find_place queue' aheadRequests myHeldLocks lockmode lock proclock
      else if negb (Z.land (conflict lmt (waitLockMode proc)) myHeldLocks =? 0) then
        if negb (Z.land (conflict lmt lockmode) (heldLocks proc) =? 0) then
          Ok (EarlyDeadlock proc)
        else
          (if Z.land (conflict lmt lockmode) aheadRequests =? 0
           then LockCheckConflicts lockmode lock proclock else Ok true) ≫= fun blocked =>
          if negb blocked then Ok GrantNow else Ok (Before proc)
      else
        find_place queue' (Z.lor aheadRequests (LOCKBIT_ON (waitLockMode proc))) myHeldLocks
          lockmode lock proclock
  end.

(** [dclist_insert_before(waitQueue, &insert_before->waitLink, &MyProc->waitLink)] *)
Fixpoint insert_before (q : ProcNumber) (w : PGPROC) (queue : list PGPROC) : list PGPROC :=
  match queue with
  | [] => [w]
  | proc :: queue' => if procNumber proc =? q then w :: proc :: queue' else proc :: insert_before q w queue'
  end.

Definition JoinWaitQueue (lock : LOCK) (lockmode : LOCKMODE) (dontWait : bool)
    : result (LOCK * ProcWaitStatus) :=
  match find_proclock lock MyProc with
  | None => ereport ERRCODE_INTERNAL_ERROR "proclock is NULL"
  | Some proclock =>
      let myHeldLocks := my_held_locks lock proclock in
      (if negb (myHeldLocks =? 0) && negb (bool_decide (waitProcs lock = []))
       then find_place (waitProcs lock) 0 myHeldLocks lockmode lock proclock
       else Ok Tail) ≫= fun place =>
      match place with
      | GrantNow => Ok (GrantLock lock MyProc lockmode, PROC_WAIT_STATUS_OK)
      | EarlyDeadlock _ => Ok (lock, PROC_WAIT_STATUS_ERROR)
      | Tail | Before _ =>
          if dontWait then Ok (lock, PROC_WAIT_STATUS_ERROR)
          else
            let w := mkPGPROC MyProc lockmode (holdMask proclock) in
            let queue :=
              match place with
              | Before proc => insert_before (procNumber proc) w (waitProcs lock)
              | _ => waitProcs lock ++ [w]
              end in
            Ok (set_waitMask (Z.lor (waitMask lock) (LOCKBIT_ON lockmode)) (set_waitProcs queue lock),
                PROC_WAIT_STATUS_WAITING)
      end
  end.

(** Delete the PROCLOCK of [p] when it holds nothing. *)
Definition drop_idle_proclock (p : ProcNumber) (lock : LOCK) : LOCK :=
  match find_proclock lock p with
  | Some proclock =>
      if holdMask proclock =? 0
      then set_procLocks (filter (fun pl => myProc pl <> p) (procLocks lock)) lock
      else lock
  | None => lock
  end.

(** [None]: the lock object is removed from the table. *)
Definition CleanUpLock (lock : LOCK) (p : ProcNumber) (wakeupNeeded : bool)
    : result (option LOCK * list ProcNumber) :=
  let lock := drop_idle_proclock p lock in
  if nRequested lock =? 0 then Ok (None, [])
  else if wakeupNeeded then
    ProcLockWakeup lock ≫= fun '(lock, woken) => Ok (Some lock, woken)
  else Ok (Some lock, []).

Definition RemoveFromWaitQueue (lock : LOCK) (p : ProcNumber) (lockmode : LOCKMODE)
    : result (option LOCK * list ProcNumber) :=
  let lock := remove_waiter p lock in
  let lock := add_requested lockmode (-1) lock in
  let lock :=
    if aget (granted lock) lockmode =? aget (requested lock) lockmode
    then set_waitMask (Z.land (waitMask lock) (LOCKBIT_OFF lockmode)) lock else lock in
  CleanUpLock lock p true.

(** A rearranged queue of [DeadLockCheck]: the processes in their new order, then
    the wakeup of those no longer blocked. *)
Definition rearrange_queue (order : list PGPROC) (lock : LOCK) : result (LOCK * list ProcNumber) :=
  ProcLockWakeup (set_waitProcs order lock).

(** The loop of [LockReleaseAll] over the marked modes of one PROCLOCK. *)
Fixpoint ungrant_marked (modes : list LOCKMODE) (marks : LOCKMASK) (p : ProcNumber) (lock : LOCK)
    (wakeupNeeded : bool) : LOCK * bool :=
  match modes with
  | [] => (lock, wakeupNeeded)
  | i :: modes' =>
      if negb (Z.land marks (LOCKBIT_ON i) =? 0) then
        let '(lock, w) := UnGrantLock lock i p in
        ungrant_marked modes' marks p lock (wakeupNeeded || w)
      else ungrant_marked modes' marks p lock wakeupNeeded
  end.

(** The body of the second loop of [LockReleaseAll], for my PROCLOCK of one lock. *)
Definition release_proclock (allLocks : bool) (p : ProcNumber) (lock : LOCK)
    : result (option LOCK * list ProcNumber) :=
  match find_proclock lock p with
  | None => Ok (Some lock, [])
  | Some proclock =>
      let marks := if allLocks then holdMask proclock else releaseMask proclock in
      if (marks =? 0) && negb (holdMask proclock =? 0) then Ok (Some lock, [])
      else
        let '(lock, wakeupNeeded) := ungrant_marked lockmodes marks p lock false in
        let lock := set_procLocks (update_proclock p (set_releaseMask 0) (procLocks lock)) lock in
        CleanUpLock lock p wakeupNeeded
  end.

End Operations.

(** ** The conflict table is a lock method *)

(** The bits of a mask of the table lie between 1 and 8: a check of nine bits. *)
Definition table_ok (lmt : LockMethodData) : bool :=
  let ms := lockmodes lmt in
  (0 <? numLockModes lmt) && (numLockModes lmt <? Z.of_nat MAX_LOCKMODES) &&
  forallb (fun a => (0 <=? conflict lmt a) && (conflict lmt a <? 2 ^ (numLockModes lmt + 1)) &&
                    negb (Z.testbit (conflict lmt a) 0) &&
                    forallb (fun b => Bool.eqb (Z.testbit (conflict lmt a) b)
                                               (Z.testbit (conflict lmt b) a)) ms) ms.

Lemma lockmodes_spec lmt m : m ∈ lockmodes lmt <-> 1 <= m <= numLockModes lmt.
Proof. unfold lockmodes. rewrite elem_of_seqZ. lia. Qed.

Lemma testbit_outside x n i : 0 <= x < 2 ^ n -> 0 <= n -> Z.testbit x i = true -> 0 <= i < n.
Proof.
  intros Hx Hn Hi. destruct (Z.lt_ge_cases i 0) as [H|H]; [by rewrite Z.testbit_neg_r in Hi|].
  destruct (Z.lt_ge_cases i n) as [H'|H']; [lia|].
  rewrite <- (Z.mod_small x (2 ^ n)), Z.mod_pow2_bits_high in Hi by lia. done.
Qed.

Lemma table_ok_spec lmt : table_ok lmt = true -> LockMethodOK lmt.
Proof.
  unfold table_ok. intros H. apply andb_true_iff in H as [Hb H].
  apply andb_true_iff in Hb as [Hb1%Z.ltb_lt Hb2%Z.ltb_lt].
  rewrite forallb_forall in H.
  assert (Hrow : forall a, 1 <= a <= numLockModes lmt ->
    0 <= conflict lmt a < 2 ^ (numLockModes lmt + 1) /\ Z.testbit (conflict lmt a) 0 = false /\
    forall b, 1 <= b <= numLockModes lmt ->
      Z.testbit (conflict lmt a) b = Z.testbit (conflict lmt b) a).
  { intros a Ha. specialize (H a). rewrite <- list_elem_of_In, lockmodes_spec in H.
    specialize (H Ha). split_bool. split; [lia|split; [done|]]. intros b Hb.
    match goal with H : forallb _ _ = true |- _ => rewrite forallb_forall in H; specialize (H b) end.
    rewrite <- list_elem_of_In, lockmodes_spec in *. apply eqb_prop; auto. }
  split; [lia| |].
  - intros a b Ha Hb. destruct (Hrow a Ha) as (Hr & H0 & _).
    pose proof (testbit_outside _ _ _ Hr ltac:(lia) Hb).
    assert (b <> 0) by (intros ->; congruence). lia.
  - intros a b Ha Hb. by apply Hrow.
Qed.

#[export] Instance default_lockmethod_ok : LockMethodOK default_lockmethod.
Proof. apply table_ok_spec. vm_compute. reflexivity. Qed.

#[export] Instance user_lockmethod_ok : LockMethodOK user_lockmethod.
Proof. apply table_ok_spec. vm_compute. reflexivity. Qed.

(** ** Counting holders and waiters *)

Definition holds (pl : PROCLOCK) (m : LOCKMODE) : Prop := Z.testbit (holdMask pl) m = true.

Definition held_count (pls : list PROCLOCK) (m : LOCKMODE) : Z :=
  Z.of_nat (length (filter (fun pl => Z.testbit (holdMask pl) m = true) pls)).

Definition wait_count (ws : list PGPROC) (m : LOCKMODE) : Z :=
  Z.of_nat (length (filter (fun w => waitLockMode w = m) ws)).

Lemma held_count_cons pl pls m :
  held_count (pl :: pls) m = (if Z.testbit (holdMask pl) m then 1 else 0) + held_count pls m.
Proof.
  unfold held_count. rewrite filter_cons.
  destruct (Z.testbit (holdMask pl) m); case_decide; simpl; try congruence; lia.
Qed.

Lemma held_count_app a b m : held_count (a ++ b) m = held_count a m + held_count b m.
Proof. unfold held_count. rewrite filter_app, length_app. lia. Qed.

Lemma wait_count_cons w ws m :
  wait_count (w :: ws) m = (if waitLockMode w =? m then 1 else 0) + wait_count ws m.
Proof.
  unfold wait_count. rewrite filter_cons.
  destruct (Z.eqb_spec (waitLockMode w) m); case_decide; simpl; try congruence; lia.
Qed.

Lemma wait_count_app a b m : wait_count (a ++ b) m = wait_count a m + wait_count b m.
Proof. unfold wait_count. rewrite filter_app, length_app. lia. Qed.

Lemma held_count_pos pls m : 0 < held_count pls m <-> exists pl, pl ∈ pls /\ holds pl m.
Proof.
  induction pls as [|pl pls IH].
  - split; [intros H; by cbn in H|]. intros (? & H & _). by apply not_elem_of_nil in H.
  - rewrite held_count_cons. setoid_rewrite elem_of_cons. unfold holds in *.
    assert (0 <= held_count pls m) by (unfold held_count; lia).
    destruct (Z.testbit (holdMask pl) m) eqn:E; split; intros H'.
    + exists pl. auto.
    + lia.
    + apply IH in H' as (q & ? & ?). eauto.
    + apply IH. destruct H' as (q & [->|?] & ?); [congruence|eauto].
Qed.

Lemma wait_count_pos ws m : 0 < wait_count ws m <-> exists w, w ∈ ws /\ waitLockMode w = m.
Proof.
  induction ws as [|w ws IH].
  - split; [intros H; by cbn in H|]. intros (? & H & _). by apply not_elem_of_nil in H.
  - rewrite wait_count_cons. setoid_rewrite elem_of_cons.
    assert (0 <= wait_count ws m) by (unfold wait_count; lia).
    destruct (Z.eqb_spec (waitLockMode w) m) as [E|E]; split; intros H'.
    + exists w. auto.
    + lia.
    + apply IH in H' as (q & ? & ?). eauto.
    + apply IH. destruct H' as (q & [->|?] & ?); [congruence|eauto].
Qed.

Lemma held_count_nonneg pls m : 0 <= held_count pls m.
Proof. unfold held_count. lia. Qed.

Lemma wait_count_nonneg ws m : 0 <= wait_count ws m.
Proof. unfold wait_count. lia. Qed.

(** ** The PROCLOCK of a process *)

(** Every PROCLOCK of a list belongs to another process than [p]. *)
Definition others_only (p : ProcNumber) (pls : list PROCLOCK) : Prop :=
  Forall (fun pl => myProc pl <> p) pls.

Lemma proclock_split pls p pl :
  NoDup (myProc <$> pls) -> pl ∈ pls -> myProc pl = p ->
  exists a b, pls = a ++ pl :: b /\ others_only p a /\ others_only p b.
Proof.
  intros Hnd Hin <-. apply list_elem_of_split in Hin as (a & b & ->).
  exists a, b. split; [done|]. rewrite fmap_app, fmap_cons in Hnd.
  apply NoDup_app in Hnd as (_ & Hd & [Hb _]%NoDup_cons).
  split; apply Forall_forall; intros q Hq E.
  - apply (Hd (myProc q)); [by apply list_elem_of_fmap_2|]. rewrite E. left.
  - apply Hb. rewrite <- E. by apply list_elem_of_fmap_2.
Qed.

Lemma update_proclock_others p f pls : others_only p pls -> update_proclock p f pls = pls.
Proof.
  induction 1 as [|pl pls Hpl _ IH]; [done|]. unfold update_proclock in *. simpl.
  rewrite IH. by apply Z.eqb_neq in Hpl as ->.
Qed.

Lemma update_proclock_split p f a pl b :
  others_only p a -> others_only p b -> myProc pl = p ->
  update_proclock p f (a ++ pl :: b) = a ++ f pl :: b.
Proof.
  intros Ha Hb Hp. unfold update_proclock. rewrite map_app. simpl.
  fold (update_proclock p f a) (update_proclock p f b).
  rewrite !update_proclock_others by done. by rewrite Hp, Z.eqb_refl.
Qed.

Lemma filter_all {A} (P : A -> Prop) `{forall x, Decision (P x)} (l : list A) :
  Forall P l -> filter P l = l.
Proof. induction 1 as [|x l Hx _ IH]; [done|]. rewrite filter_cons, IH. by case_decide. Qed.

Lemma filter_others p pls : others_only p pls -> filter (fun pl => myProc pl <> p) pls = pls.
Proof. apply filter_all. Qed.

Lemma filter_proclock_split p a pl b :
  others_only p a -> others_only p b -> myProc pl = p ->
  filter (fun pl => myProc pl <> p) (a ++ pl :: b) = a ++ b.
Proof.
  intros Ha Hb Hp. rewrite filter_app, filter_cons, !filter_others by done.
  by case_decide.
Qed.

Lemma find_proclock_Some l p pl :
  find_proclock l p = Some pl -> pl ∈ procLocks l /\ myProc pl = p.
Proof.
  intros H. apply List.find_some in H as [H ->%Z.eqb_eq]. by rewrite list_elem_of_In.
Qed.

Lemma find_proclock_None l p : find_proclock l p = None -> others_only p (procLocks l).
Proof.
  intros H. apply Forall_forall. intros pl Hpl. rewrite list_elem_of_In in Hpl.
  by apply (List.find_none _ _ H) in Hpl as ?%Z.eqb_neq.
Qed.

Lemma find_proclock_spec l p pl :
  NoDup (myProc <$> procLocks l) -> pl ∈ procLocks l -> myProc pl = p -> find_proclock l p = Some pl.
Proof.
  intros Hnd Hin Hp. destruct (find_proclock l p) as [q|] eqn:E.
  - apply find_proclock_Some in E as [Hq Eq]. f_equal.
    apply list_elem_of_lookup in Hin as [i Hi], Hq as [j Hj].
    assert (i = j) as ->; [|congruence].
    apply (NoDup_lookup (myProc <$> procLocks l) i j p Hnd); rewrite list_lookup_fmap.
    + by rewrite Hi, <- Hp.
    + by rewrite Hj, <- Eq.
  - apply find_proclock_None in E. unfold others_only in E. rewrite Forall_forall in E.
    by destruct (E pl Hin).
Qed.

Lemma update_proclock_procs p f pls :
  (forall pl, myProc (f pl) = myProc pl) -> myProc <$> update_proclock p f pls = myProc <$> pls.
Proof.
  intros Hf. induction pls as [|pl pls IH]; [done|]. cbn. f_equal; [|done].
  by destruct (myProc pl =? p).
Qed.

Lemma update_proclock_twice p f g pls :
  (forall pl, myProc (g pl) = myProc pl) ->
  update_proclock p f (update_proclock p g pls) = update_proclock p (fun pl => f (g pl)) pls.
Proof.
  intros Hg. induction pls as [|pl pls IH]; [done|]. cbn. f_equal; [|done].
  destruct (myProc pl =? p) eqn:E; [by rewrite Hg, E|by rewrite E].
Qed.

Lemma elem_of_update_proclock p f pls q :
  q ∈ update_proclock p f pls <->
  (q ∈ pls /\ myProc q <> p) \/ exists pl, pl ∈ pls /\ myProc pl = p /\ q = f pl.
Proof.
  unfold update_proclock. rewrite list_elem_of_In, in_map_iff. setoid_rewrite <- list_elem_of_In. split.
  - intros (pl & Hq & Hpl). destruct (Z.eqb_spec (myProc pl) p); [eauto|]. subst. auto.
  - intros [[Hq Hne]|(pl & Hpl & Hp & ->)].
    + exists q. by apply Z.eqb_neq in Hne as ->.
    + exists pl. by rewrite Hp, Z.eqb_refl.
Qed.

Lemma Forall_update_proclock (P : PROCLOCK -> Prop) p f pls :
  Forall P pls -> (forall pl, pl ∈ pls -> myProc pl = p -> P pl -> P (f pl)) ->
  Forall P (update_proclock p f pls).
Proof.
  rewrite !Forall_forall. intros H Hf q [[? ?]|(pl & ? & ? & ->)]%elem_of_update_proclock; auto.
Qed.

(** ** [LockCheckConflicts] decides conflicts between groups *)

Section Conflicts.

Context (lmt : LockMethodData) `{!LockMethodOK lmt}.

Abbreviation mode_ok m := (1 <= m <= numLockModes lmt).

Definition mask_ok (x : LOCKMASK) : Prop := forall i, Z.testbit x i = true -> mode_ok i.

Definition conflicts (a b : LOCKMODE) : Prop := Z.testbit (conflict lmt a) b = true.

Lemma mask_ok_nonneg x : mask_ok x -> 0 <= x.
Proof.
  intros H. apply (mask_nonneg x (numLockModes lmt + 1)). intros i Hi.
  destruct (Z.testbit x i) eqn:E; [|done]. apply H in E. lia.
Qed.

Lemma mask_ok_zero x : mask_ok x -> x = 0 <-> forall m, mode_ok m -> Z.testbit x m = false.
Proof.
  intros H. split; [intros -> m _; apply Z.bits_0|]. intros Hz.
  apply Z.bits_inj'. intros i _. rewrite Z.bits_0.
  destruct (Z.testbit x i) eqn:E; [|done]. by rewrite Hz in E by (by apply H).
Qed.

Lemma conflict_mask_ok m : mode_ok m -> mask_ok (conflict lmt m).
Proof. intros Hm i. by apply conflict_range. Qed.

Lemma conflict_meets m x :
  mode_ok m -> (Z.land (conflict lmt m) x =? 0) = false <->
  exists m', mode_ok m' /\ conflicts m m' /\ Z.testbit x m' = true.
Proof.
  intros Hm. rewrite Z.eqb_neq, land_nonzero_iff by (by apply mask_ok_nonneg, conflict_mask_ok).
  split; intros (i & H1 & H2 & H3); exists i; repeat split; auto; try lia;
    by apply (conflict_range m i Hm).
Qed.

Lemma conflicts_sym a b : mode_ok a -> mode_ok b -> conflicts a b -> conflicts b a.
Proof. unfold conflicts. intros Ha Hb H. by rewrite <- conflict_sym. Qed.

Lemma mode_lt_modes m : mode_ok m -> 0 <= m < Z.of_nat MAX_LOCKMODES.
Proof. pose proof modes_bound. lia. Qed.

Lemma testbit_LOCKBIT m i : mode_ok m -> Z.testbit (LOCKBIT_ON m) i = (m =? i).
Proof. intros. apply testbit_shiftl_1. lia. Qed.

Lemma testbit_set x m i : mode_ok m -> Z.testbit (Z.lor x (LOCKBIT_ON m)) i = Z.testbit x i || (m =? i).
Proof. intros. by rewrite Z.lor_spec, testbit_LOCKBIT. Qed.

Lemma testbit_clear x m i :
  mode_ok m -> Z.testbit (Z.land x (LOCKBIT_OFF m)) i = Z.testbit x i && negb (m =? i).
Proof.
  intros Hm. destruct (Z.lt_ge_cases i 0) as [Hi|Hi]; [by rewrite !(Z.testbit_neg_r _ i)|].
  rewrite Z.land_spec. unfold LOCKBIT_OFF. by rewrite Z.lnot_spec, testbit_shiftl_1 by lia.
Qed.

Lemma mask_ok_set x m : mode_ok m -> mask_ok x -> mask_ok (Z.lor x (LOCKBIT_ON m)).
Proof.
  intros Hm Hx i. rewrite testbit_set by done. intros [H| ->%Z.eqb_eq]%orb_true_iff; [by apply Hx|done].
Qed.

Lemma mask_ok_clear x m : mode_ok m -> mask_ok x -> mask_ok (Z.land x (LOCKBIT_OFF m)).
Proof. intros Hm Hx i. rewrite testbit_clear by done. intros [H _]%andb_true_iff. by apply Hx. Qed.

Lemma lockbit_zero x m : mode_ok m -> (Z.land x (LOCKBIT_ON m) =? 0) = negb (Z.testbit x m).
Proof. intros. apply land_bit_zero. lia. Qed.

(** The counters after the first loop: for each conflicting mode, the holders
    other than the requester. *)
Lemma count_conflicts_spec modes cm my grants rem total :
  (forall m, m ∈ modes -> mode_ok m) -> NoDup modes -> length rem = MAX_LOCKMODES ->
  let c m := if Z.testbit cm m
             then aget grants m - (if Z.testbit my m then 1 else 0) else 0 in
  let '(rem', total') := count_conflicts modes cm my grants rem total in
  length rem' = MAX_LOCKMODES /\ total' = total + sumZ c modes /\
  forall m, mode_ok m -> aget rem' m = if bool_decide (m ∈ modes) then c m else aget rem m.
Proof.
  intros Hm Hnd. revert rem total. induction modes as [|i modes IH]; intros rem total Hl c; simpl.
  - split; [done|split; [lia|]]. done.
  - apply NoDup_cons in Hnd as [Hi Hnd]. pose proof (Hm i ltac:(left)) as Him.
    pose proof (mode_lt_modes i Him).
    assert (Hgo : forall v, v = c i ->
      let '(rem', total') := count_conflicts modes cm my grants (aset rem i v) (total + v) in
      length rem' = MAX_LOCKMODES /\ total' = total + (c i + sumZ c modes) /\
      forall m, mode_ok m ->
        aget rem' m = if bool_decide (m ∈ i :: modes) then c m else aget rem m).
    { intros v ->. specialize (IH ltac:(set_solver) Hnd (aset rem i (c i)) (total + c i)).
      rewrite aset_length in IH. specialize (IH Hl). cbv zeta in IH. fold c in IH.
      destruct (count_conflicts _ _ _ _ _ _) as [rem' total']. destruct IH as (IH1 & IH2 & IH3).
      split; [done|split; [lia|]]. intros m Hmm. rewrite IH3 by done.
      rewrite aget_aset by (rewrite ?Hl; lia).
      destruct (Z.eqb_spec i m) as [->|Hne].
      - rewrite bool_decide_eq_false_2, bool_decide_eq_true_2; [done|set_solver|done].
      - repeat case_bool_decide; set_solver. }
    rewrite !lockbit_zero by done. destruct (Z.testbit cm i) eqn:E; simpl.
    + apply Hgo. unfold c. rewrite E. destruct (Z.testbit my i); simpl; lia.
    + specialize (Hgo 0 ltac:(unfold c; by rewrite E)). by rewrite Z.add_0_r in Hgo.
Qed.

(** [remaining] and [total] count, for every mode of the mask, the holders in a
    list of PROCLOCKs. *)
Definition counters (cm : LOCKMASK) (pls : list PROCLOCK) (rem : list Z) (total : Z) : Prop :=
  let c m := if Z.testbit cm m then held_count pls m else 0 in
  length rem = MAX_LOCKMODES /\ (forall m, mode_ok m -> aget rem m = c m) /\
  total = sumZ c (lockmodes lmt).

(** Some PROCLOCK of the list holds a mode of the mask. *)
Definition holds_any (cm : LOCKMASK) (pls : list PROCLOCK) : Prop :=
  exists pl m, pl ∈ pls /\ mode_ok m /\ Z.testbit cm m = true /\ holds pl m.

Lemma counters_total cm pls rem total : counters cm pls rem total -> total <> 0 <-> holds_any cm pls.
Proof.
  intros (_ & _ & ->). rewrite sumZ_zero.
  2:{ intros i _. destruct (Z.testbit cm i); [apply held_count_nonneg|done]. }
  split.
  - intros H. destruct (decide (Exists (fun m =>
      (if Z.testbit cm m then held_count pls m else 0) <> 0) (lockmodes lmt)))
      as [(m & Hm & Hc)%Exists_exists|Hn].
    + destruct (Z.testbit cm m) eqn:E; [|done]. pose proof (held_count_nonneg pls m).
      destruct (proj1 (held_count_pos pls m) ltac:(lia)) as (pl & ? & ?).
      exists pl, m. by rewrite lockmodes_spec in Hm.
    + destruct H. intros i Hi. apply dec_stable. intros Hc. apply Hn, Exists_exists. eauto.
  - intros (pl & m & Hpl & Hm & Hcm & Hh) H. specialize (H m ltac:(by apply lockmodes_spec)).
    rewrite Hcm in H. assert (0 < held_count pls m) by (apply held_count_pos; eauto). lia.
Qed.

Lemma subtract_member_spec modes im rem total :
  (forall m, m ∈ modes -> mode_ok m) -> NoDup modes -> length rem = MAX_LOCKMODES ->
  (forall m, m ∈ modes -> Z.testbit im m = true -> 0 < aget rem m) ->
  exists rem', subtract_member modes im rem total =
      Ok (rem', total - sumZ (fun m => if Z.testbit im m then 1 else 0) modes) /\
    length rem' = MAX_LOCKMODES /\
    forall m, mode_ok m ->
      aget rem' m = aget rem m - (if bool_decide (m ∈ modes) && Z.testbit im m then 1 else 0).
Proof.
  intros Hm Hnd. revert rem total. induction modes as [|i modes IH]; intros rem total Hl Hpos; simpl.
  - exists rem. split; [by rewrite Z.sub_0_r|]. split; [done|]. intros m _. lia.
  - apply NoDup_cons in Hnd as [Hi Hnd]. pose proof (Hm i ltac:(left)) as Him.
    pose proof (mode_lt_modes i Him). rewrite lockbit_zero, negb_involutive by done.
    destruct (Z.testbit im i) eqn:E.
    + specialize (Hpos i ltac:(left) E) as Hpi. destruct (Z.leb_spec (aget rem i) 0); [lia|].
      destruct (IH ltac:(set_solver) Hnd (aset rem i (aget rem i - 1)) (total - 1)) as (rem' & -> & IH2 & IH3).
      { by rewrite aset_length. }
      { intros m Hmm Hb. pose proof (Hm m ltac:(by right)). rewrite aget_aset by (rewrite ?Hl; lia).
        destruct (Z.eqb_spec i m) as [->|_]; [done|]. apply Hpos; [by right|done]. }
      exists rem'. split; [do 2 f_equal; lia|]. split; [done|]. intros m Hmm. rewrite IH3 by done.
      rewrite aget_aset by (rewrite ?Hl; lia). destruct (Z.eqb_spec i m) as [->|Hne].
      * rewrite bool_decide_eq_false_2, bool_decide_eq_true_2 by set_solver. rewrite E. simpl. lia.
      * repeat case_bool_decide; try done; set_solver.
    + destruct (IH ltac:(set_solver) Hnd rem total Hl) as (rem' & -> & IH2 & IH3).
      { intros m Hmm. apply Hpos. by right. }
      exists rem'. split; [done|]. split; [done|]. intros m Hmm. rewrite IH3 by done.
      destruct (decide (m = i)) as [->|Hne]; [by rewrite E, !andb_false_r|].
      repeat case_bool_decide; try done; set_solver.
Qed.

Lemma lockmodes_NoDup : NoDup (lockmodes lmt).
Proof. apply NoDup_seqZ. Qed.

Lemma sumZ_sub f g l : sumZ (fun i => f i - g i) l = sumZ f l - sumZ g l.
Proof. induction l as [|i l IH]; simpl; [done|]. rewrite IH. lia. Qed.

(** Subtracting a group member removes it from the counted list. *)
Lemma subtract_member_counters cm keep o rest rem total :
  counters cm (keep ++ o :: rest) rem total ->
  exists rem' total',
    subtract_member (lockmodes lmt) (Z.land (holdMask o) cm) rem total = Ok (rem', total') /\
    counters cm (keep ++ rest) rem' total'.
Proof.
  intros (Hl & Hr & ->).
  assert (Hc : forall m, held_count (keep ++ o :: rest) m =
      held_count (keep ++ rest) m + (if Z.testbit (holdMask o) m then 1 else 0)).
  { intros m. rewrite !held_count_app, held_count_cons. lia. }
  edestruct (subtract_member_spec (lockmodes lmt) (Z.land (holdMask o) cm) rem) as (rem' & -> & Hl' & Hr').
  - intros m. by rewrite lockmodes_spec.
  - apply lockmodes_NoDup.
  - done.
  - intros m Hm%lockmodes_spec Hb. rewrite Z.land_spec in Hb. apply andb_true_iff in Hb as [Hb1 Hb2].
    rewrite Hr, Hb2, Hc, Hb1 by done. pose proof (held_count_nonneg (keep ++ rest) m). lia.
  - eexists rem', _. split; [done|]. split; [done|]. split.
    + intros m Hm. rewrite Hr', Hr, Hc by done.
      rewrite bool_decide_eq_true_2 by (by apply lockmodes_spec). rewrite Z.land_spec. simpl.
      destruct (Z.testbit cm m), (Z.testbit (holdMask o) m); simpl; lia.
    + rewrite <- sumZ_sub. apply sumZ_ext. intros m _. rewrite Hc, Z.land_spec.
      destruct (Z.testbit cm m), (Z.testbit (holdMask o) m); simpl; lia.
Qed.

(** A group member that holds no mode of the mask is not counted. *)
Lemma counters_skip cm keep o rest rem total :
  Z.land (holdMask o) cm = 0 -> counters cm (keep ++ o :: rest) rem total ->
  counters cm (keep ++ rest) rem total.
Proof.
  intros Ho (Hl & Hr & Ht).
  assert (Hc : forall m, (if Z.testbit cm m then held_count (keep ++ o :: rest) m else 0) =
                         (if Z.testbit cm m then held_count (keep ++ rest) m else 0)).
  { intros m. rewrite !held_count_app, held_count_cons.
    apply (f_equal (fun z => Z.testbit z m)) in Ho. rewrite Z.bits_0, Z.land_spec in Ho.
    destruct (Z.testbit cm m); [|done]. rewrite andb_true_r in Ho. rewrite Ho. lia. }
  split; [done|]. split; [intros m Hm; by rewrite <- Hc, Hr|].
  rewrite Ht. apply sumZ_ext. intros m _. apply Hc.
Qed.

(** [other] belongs to another process and another group than [pl]. *)
Definition other_group (pl other : PROCLOCK) : Prop :=
  myProc other <> myProc pl /\ groupLeader other <> groupLeader pl.

Lemma holds_any_false cm pls : ~ holds_any cm pls -> forall o, o ∈ pls -> ~ holds_any cm [o].
Proof.
  intros H o Ho (pl & m & ->%list_elem_of_singleton & Hm). apply H. exists o, m. tauto.
Qed.

Lemma subtract_group_spec rest pl cm keep rem total :
  counters cm (keep ++ filter (fun o => myProc o <> myProc pl) rest) rem total ->
  total <> 0 -> Forall (other_group pl) keep ->
  exists b, subtract_group lmt rest pl cm rem total = Ok b /\
    (b = true <-> holds_any cm (filter (fun o => myProc o <> myProc pl /\ groupLeader o <> groupLeader pl)
                                  (keep ++ rest))).
Proof.
  revert keep rem total. induction rest as [|o rest IH]; intros keep rem total Hc Ht Hk; simpl.
  - exists true. split; [done|]. rewrite !app_nil_r in *. rewrite filter_all by done.
    rewrite <- counters_total; done.
  - rewrite filter_cons in Hc. destruct (Z.eqb_spec (myProc pl) (myProc o)) as [E|E]; simpl.
    { rewrite decide_False in Hc by (by rewrite E; intros []).
      destruct (IH keep rem total Hc Ht Hk) as (b & -> & Hb). exists b. split; [done|]. rewrite Hb.
      rewrite !filter_app, filter_cons, decide_False by (intros []; congruence). done. }
    rewrite decide_True in Hc by congruence.
    destruct (Z.eqb_spec (groupLeader pl) (groupLeader o)) as [Eg|Eg]; simpl.
    + assert (Hdrop : filter (fun o => myProc o <> myProc pl /\ groupLeader o <> groupLeader pl)
          (keep ++ o :: rest) =
        filter (fun o => myProc o <> myProc pl /\ groupLeader o <> groupLeader pl) (keep ++ rest)).
      { rewrite !filter_app, filter_cons, decide_False by (intros []; congruence). done. }
      rewrite Hdrop. destruct (Z.eqb_spec (Z.land (holdMask o) cm) 0) as [Ei|Ei]; simpl.
      * apply IH; [by eapply counters_skip|done|done].
      * destruct (subtract_member_counters _ _ _ _ _ _ Hc) as (rem' & total' & -> & Hc'). simpl.
        destruct (Z.eqb_spec total' 0) as [E0|E0]; [|by apply IH].
        exists false. split; [done|]. split; [done|]. intros (q & m & Hq & Hm).
        apply list_elem_of_filter in Hq as [[Hq1 Hq2] Hq]. destruct (counters_total _ _ _ _ Hc') as [_ H].
        exfalso. apply H; [|done]. exists q, m. split; [|done]. apply elem_of_app in Hq as [Hq|Hq];
          apply elem_of_app; [by left|]. right. by apply list_elem_of_filter.
    + replace (keep ++ o :: rest) with ((keep ++ [o]) ++ rest) by (by rewrite <- app_assoc).
      apply (IH (keep ++ [o]) rem total); [by rewrite <- app_assoc|done|].
      apply Forall_app. split; [done|]. constructor; [|done]. by split; congruence.
Qed.

End Conflicts.

(** ** The invariant of a lock object *)

(** [BecomeLockGroupLeader] and [BecomeLockGroupMember]: the leader of a group is
    a member of it. *)
Class GroupsOK (lockGroupLeader : ProcNumber -> option ProcNumber) : Prop :=
  leader_ok : forall p q, lockGroupLeader p = Some q -> lockGroupLeader q = Some q.

Section Invariant.

Context (lmt : LockMethodData) `{!LockMethodOK lmt}.
Context (lockGroupLeader : ProcNumber -> option ProcNumber) `{!GroupsOK lockGroupLeader}.

Abbreviation mode_ok m := (1 <= m <= numLockModes lmt).
Abbreviation leader := (group_leader lockGroupLeader).

(** Where an operation is: a request that is counted but neither granted nor
    queued, between [SetupLockInTable] and [GrantLock] or [JoinWaitQueue]; or a
    process whose PROCLOCK may hold nothing, before [CleanUpLock]. *)
Inductive pending :=
  | Settled
  | Requesting (p : ProcNumber) (m : LOCKMODE)
  | Releasing (p : ProcNumber).

Definition pend_count (pend : pending) (m : LOCKMODE) : Z :=
  match pend with Requesting _ m' => if m' =? m then 1 else 0 | _ => 0 end.

Definition pend_total (pend : pending) : Z :=
  match pend with Requesting _ _ => 1 | _ => 0 end.

Definition pend_proc (pend : pending) : option ProcNumber :=
  match pend with Requesting p _ => Some p | Releasing p => Some p | Settled => None end.

Definition waiter_ok (pls : list PROCLOCK) (w : PGPROC) : Prop :=
  mode_ok (waitLockMode w) /\
  exists pl, pl ∈ pls /\ myProc pl = procNumber w /\ heldLocks w = holdMask pl /\
    ~ holds pl (waitLockMode w).

(** The process [p] holds mode [m] on the object. *)
Definition lock_holds (l : LOCK) (p : ProcNumber) (m : LOCKMODE) : Prop :=
  exists pl, pl ∈ procLocks l /\ myProc pl = p /\ holds pl m.

(** Counters, masks, holders and queue agree. *)
Record lock_wf (pend : pending) (l : LOCK) : Prop := {
  wf_proclocks : NoDup (myProc <$> procLocks l);
  wf_leader : Forall (fun pl => groupLeader pl = leader (myProc pl)) (procLocks l);
  wf_hold : Forall (fun pl => mask_ok lmt (holdMask pl)) (procLocks l);
  wf_granted_len : length (granted l) = MAX_LOCKMODES;
  wf_requested_len : length (requested l) = MAX_LOCKMODES;
  wf_granted : forall m, mode_ok m -> aget (granted l) m = held_count (procLocks l) m;
  wf_requested : forall m, mode_ok m ->
    aget (requested l) m = held_count (procLocks l) m + wait_count (waitProcs l) m + pend_count pend m;
  wf_nGranted : nGranted l = sumZ (held_count (procLocks l)) (lockmodes lmt);
  wf_nRequested : nRequested l =
    nGranted l + Z.of_nat (length (waitProcs l)) + pend_total pend;
  wf_grantMask : mask_ok lmt (grantMask l) /\
    forall m, mode_ok m -> Z.testbit (grantMask l) m = true <-> 0 < held_count (procLocks l) m;
  wf_waitMask : mask_ok lmt (waitMask l) /\
    forall m, mode_ok m -> Z.testbit (waitMask l) m = true <->
      0 < wait_count (waitProcs l) m \/ (Z.testbit (waitMask l) m = true /\ 0 < pend_count pend m);
  wf_queue : NoDup (procNumber <$> waitProcs l);
  wf_waiters : Forall (waiter_ok (procLocks l)) (waitProcs l);
  wf_idle : Forall (fun pl => holdMask pl = 0 ->
    myProc pl ∈ procNumber <$> waitProcs l \/ pend_proc pend = Some (myProc pl)) (procLocks l);
  wf_pend : forall p m, pend = Requesting p m -> mode_ok m /\ p ∉ procNumber <$> waitProcs l /\
    exists pl, pl ∈ procLocks l /\ myProc pl = p /\ ~ holds pl m;
  wf_releasing : forall p, pend = Releasing p -> p ∉ procNumber <$> waitProcs l;
  wf_marks : Forall (fun pl => releaseMask pl = 0 \/ pend = Releasing (myProc pl)) (procLocks l)
}.

(** Locks of [p] and [q] on the object can conflict: different processes, and
    different groups unless the lock is a relation extension lock. *)
Definition separate (l : LOCK) (p q : ProcNumber) : Prop :=
  p <> q /\ (locktag_type (tag l) = LOCKTAG_RELATION_EXTEND \/ leader p <> leader q).

(** Someone whose locks can conflict with those of [p] holds a mode that
    conflicts with [m]. *)
Definition held_conflict (l : LOCK) (p : ProcNumber) (m : LOCKMODE) : Prop :=
  exists q m', separate l p q /\ mode_ok m' /\ conflicts lmt m m' /\ lock_holds l q m'.

Lemma leader_self p : lockGroupLeader p = None -> leader p = p.
Proof. unfold group_leader. by intros ->. Qed.

(** A process in no group leads nobody else. *)
Lemma leader_none p q : lockGroupLeader p = None -> leader q = p -> q = p.
Proof.
  unfold group_leader. intros Hp Hq. destruct (lockGroupLeader q) as [r|] eqn:E; simpl in Hq; [|done].
  subst r. apply leader_ok in E. congruence.
Qed.

(** The counters of the first loop count the other processes. *)
Lemma count_conflicts_counters pend l pl cm :
  lock_wf pend l -> pl ∈ procLocks l ->
  let '(rem, total) := count_conflicts (lockmodes lmt) cm (holdMask pl) (granted l)
                         (replicate MAX_LOCKMODES 0) 0 in
  counters lmt cm (filter (fun o => myProc o <> myProc pl) (procLocks l)) rem total.
Proof.
  intros Hwf Hpl. destruct (proclock_split _ _ _ (wf_proclocks _ _ Hwf) Hpl eq_refl)
    as (a & b & E & Ha & Hb).
  pose proof (count_conflicts_spec lmt (lockmodes lmt) cm (holdMask pl) (granted l)
    (replicate MAX_LOCKMODES 0) 0 ltac:(intros m; by rewrite lockmodes_spec) (lockmodes_NoDup lmt)
    ltac:(done)) as H. cbv zeta in H.
  destruct (count_conflicts _ _ _ _ _ _) as [rem total]. destruct H as (Hl & -> & Hr).
  assert (Hc : forall m, mode_ok m ->
    (if Z.testbit cm m then aget (granted l) m - (if Z.testbit (holdMask pl) m then 1 else 0) else 0) =
    (if Z.testbit cm m then held_count (filter (fun o => myProc o <> myProc pl) (procLocks l)) m else 0)).
  { intros m Hm. rewrite (wf_granted _ _ Hwf) by done. rewrite E, filter_proclock_split by done.
    rewrite !held_count_app, held_count_cons. destruct (Z.testbit cm m); [|done].
    destruct (Z.testbit (holdMask pl) m); lia. }
  split; [done|]. split.
  - intros m Hm. rewrite Hr by done. rewrite bool_decide_eq_true_2 by (by apply lockmodes_spec). by apply Hc.
  - rewrite Z.add_0_l. apply sumZ_ext. intros m Hm%lockmodes_spec. by apply Hc.
Qed.

(** Reasons for a conflict, in terms of the PROCLOCKs of other processes. *)
Lemma held_conflict_holds_any l p m (P : PROCLOCK -> Prop) `{forall o, Decision (P o)} :
  mode_ok m -> (forall o, o ∈ procLocks l -> P o <-> separate l p (myProc o)) ->
  holds_any lmt (conflict lmt m) (filter P (procLocks l)) <-> held_conflict l p m.
Proof.
  intros Hm HP. split.
  - intros (o & m' & [Ho1 Ho2]%list_elem_of_filter & Hm' & Hc & Hh). exists (myProc o), m'.
    split; [by apply HP|]. split; [done|]. split; [done|]. by exists o.
  - intros (q & m' & Hs & Hm' & Hc & o & Ho & <- & Hh). exists o, m'.
    split; [|auto]. apply list_elem_of_filter. split; [by apply HP|done].
Qed.

Lemma LockCheckConflicts_spec pend MyProc l pl m :
  lock_wf pend l -> pl ∈ procLocks l -> mode_ok m ->
  exists b, LockCheckConflicts lmt lockGroupLeader MyProc m l pl = Ok b /\
    (b = true <-> held_conflict l (myProc pl) m).
Proof.
  intros Hwf Hpl Hm. unfold LockCheckConflicts.
  pose proof (count_conflicts_counters pend l pl (conflict lmt m) Hwf Hpl) as Hc.
  pose proof (wf_leader _ _ Hwf) as Hld. rewrite Forall_forall in Hld.
  destruct (Z.land (conflict lmt m) (grantMask l) =? 0) eqn:E0.
  { exists false. split; [done|]. split; [done|]. intros (q & m' & _ & Hm' & Hcf & o & Ho & _ & Hh).
    assert (H : (Z.land (conflict lmt m) (grantMask l) =? 0) = false); [|congruence].
    apply conflict_meets; [done|done|]. exists m'. split; [done|]. split; [done|].
    apply (wf_grantMask _ _ Hwf); [done|]. apply held_count_pos. eauto. }
  destruct (count_conflicts _ _ _ _ _ _) as [rem total].
  pose proof (counters_total lmt _ _ _ _ Hc) as Ht.
  destruct (Z.eqb_spec total 0) as [Et|Et].
  { exists false. split; [done|]. split; [done|]. intros (q & m' & [Hs _] & Hm' & Hcf & o & Ho & <- & Hh).
    exfalso. apply Ht; [|done]. exists o, m'. rewrite list_elem_of_filter. auto. }
  assert (Hall : (forall o, o ∈ procLocks l -> myProc o <> myProc pl <-> separate l (myProc pl) (myProc o)) ->
    true = true <-> held_conflict l (myProc pl) m).
  { intros HP. split; [|done]. intros _. apply (held_conflict_holds_any l (myProc pl) m _ Hm HP).
    by apply Ht. }
  destruct (groupLeader pl =? MyProc) eqn:Eg; simpl;
    [destruct (bool_decide_reflect (is_Some (lockGroupLeader MyProc))) as [Hs|Hs]; simpl|].
  2:{ exists true. split; [done|]. apply Hall. intros o Ho. split; [|by intros [? _]; congruence].
      intros Hne. split; [congruence|]. right. apply Z.eqb_eq in Eg. rewrite Hld in Eg by done.
      apply eq_None_not_Some in Hs. intros El. apply Hne. rewrite Eg in El. symmetry in El.
      rewrite (leader_none _ _ Hs El), (leader_none _ _ Hs Eg). done. }
  all: case_bool_decide as Hext.
  1,3: exists true; split; [done|]; apply Hall; intros o Ho; unfold separate; split; [|intros []; congruence];
    split; [congruence|by left].
  all: destruct (subtract_group_spec lmt (procLocks l) pl (conflict lmt m) [] rem total Hc Et ltac:(done))
    as (b & -> & Hb); exists b; split; [done|]; rewrite Hb; simpl;
    apply held_conflict_holds_any; [done|]; intros o Ho; unfold separate;
    rewrite !(Hld _ Ho), !(Hld _ Hpl); split; intros []; split; [congruence|by right; congruence|congruence|];
    destruct_or!; [done|congruence].
Qed.

(** *** Granting *)

Definition grant_hold (m : LOCKMODE) (pl : PROCLOCK) : PROCLOCK :=
  set_holdMask (Z.lor (holdMask pl) (LOCKBIT_ON m)) pl.

Lemma holds_grant m pl i : mode_ok m -> holds (grant_hold m pl) i <-> holds pl i \/ i = m.
Proof.
  intros Hm. unfold holds, grant_hold. simpl. rewrite (testbit_set lmt) by done.
  rewrite orb_true_iff, Z.eqb_eq. intuition.
Qed.

Lemma held_count_grant pls p m i :
  NoDup (myProc <$> pls) -> mode_ok m -> (exists pl, pl ∈ pls /\ myProc pl = p /\ ~ holds pl m) ->
  held_count (update_proclock p (grant_hold m) pls) i = held_count pls i + (if m =? i then 1 else 0).
Proof.
  intros Hnd Hm (pl & Hpl & Hp & Hh). destruct (proclock_split _ _ _ Hnd Hpl Hp) as (a & b & -> & Ha & Hb).
  rewrite update_proclock_split, !held_count_app, !held_count_cons by done. simpl.
  rewrite (testbit_set lmt) by done. destruct (Z.eqb_spec m i) as [<-|_]; [|rewrite orb_false_r; lia].
  unfold holds in Hh. destruct (Z.testbit (holdMask pl) m); [done|]. simpl. lia.
Qed.

Lemma waiter_ok_update pls p f w :
  waiter_ok pls w -> procNumber w <> p -> waiter_ok (update_proclock p f pls) w.
Proof.
  intros (Hm & pl & Hpl & Hp & Hh) Hne. split; [done|]. exists pl. split; [|done].
  apply elem_of_update_proclock. left. split; [done|congruence].
Qed.

Lemma GrantLock_wf l p m : lock_wf (Requesting p m) l -> lock_wf Settled (GrantLock l p m).
Proof.
  intros Hwf. destruct (wf_pend _ _ Hwf p m eq_refl) as (Hm & Hq & Hpl).
  pose proof (mode_lt_modes lmt m Hm) as Hlt. pose proof (wf_granted_len _ _ Hwf) as Hgl.
  pose proof (fun i => held_count_grant _ p m i (wf_proclocks _ _ Hwf) Hm Hpl) as Hc.
  assert (Hga : forall i, 0 <= i -> aget (aset (granted l) m (aget (granted l) m + 1)) i =
    aget (granted l) i + (if m =? i then 1 else 0)).
  { intros i Hi. rewrite aget_aset by (rewrite ?Hgl; lia). destruct (Z.eqb_spec m i); subst; lia. }
  unfold GrantLock. fold (grant_hold m). split; cbn [procLocks waitProcs requested granted nGranted
    nRequested grantMask waitMask pend_count pend_total pend_proc].
  - rewrite update_proclock_procs by done. apply Hwf.
  - apply Forall_update_proclock; [apply Hwf|auto].
  - apply Forall_update_proclock; [apply Hwf|]. intros pl _ _ H. by apply mask_ok_set.
  - by rewrite aset_length.
  - apply Hwf.
  - intros i Hi. rewrite Hga, Hc, (wf_granted _ _ Hwf) by lia. done.
  - intros i Hi. rewrite Hc, (wf_requested _ _ Hwf) by done. simpl. lia.
  - rewrite (wf_nGranted _ _ Hwf). symmetry. apply (sumZ_update _ _ _ m).
    + apply lockmodes_NoDup.
    + by apply lockmodes_spec.
    + rewrite Hc, Z.eqb_refl. done.
    + intros i _ Hne. rewrite Hc. apply not_eq_sym, Z.eqb_neq in Hne as ->. lia.
  - rewrite (wf_nRequested _ _ Hwf). simpl. lia.
  - destruct (wf_grantMask _ _ Hwf) as [H1 H2]. split; [by apply mask_ok_set|]. intros i Hi.
    rewrite (testbit_set lmt), orb_true_iff, H2, Hc, Z.eqb_eq by done.
    pose proof (held_count_nonneg (procLocks l) i). destruct (Z.eqb_spec m i); intuition lia.
  - rewrite Hga, Z.eqb_refl, (wf_granted _ _ Hwf), (wf_requested _ _ Hwf) by lia. simpl. rewrite Z.eqb_refl.
    destruct (wf_waitMask _ _ Hwf) as [H1 H2]. pose proof (wait_count_nonneg (waitProcs l) m).
    destruct (Z.eqb_spec (held_count (procLocks l) m + 1)
      (held_count (procLocks l) m + wait_count (waitProcs l) m + 1)) as [E|E].
    + split; [by apply mask_ok_clear|]. intros i Hi. rewrite (testbit_clear lmt), andb_true_iff, negb_true_iff by done.
      specialize (H2 i Hi). simpl in H2. destruct (Z.eqb_spec m i); intuition (try lia); subst; lia.
    + split; [done|]. intros i Hi. specialize (H2 i Hi). simpl in H2.
      destruct (Z.eqb_spec m i); subst; intuition lia.
  - apply Hwf.
  - pose proof (wf_waiters _ _ Hwf) as H. rewrite Forall_forall in H |- *. intros w Hw.
    apply waiter_ok_update; [by apply H|]. intros <-. apply Hq. by apply list_elem_of_fmap_2.
  - pose proof (wf_idle _ _ Hwf) as H. rewrite Forall_forall in H |- *.
    intros q [[Hq1 Hne]|(pl & H1 & H2 & ->)]%elem_of_update_proclock.
    + intros E. destruct (H q Hq1 E) as [?|?]; [by left|by simpl in *; congruence].
    + intros E. assert (Hh : holds (grant_hold m pl) m) by (apply holds_grant; auto).
      unfold holds in Hh. by rewrite E, Z.bits_0 in Hh.
  - done.
  - done.
  - apply Forall_update_proclock; [|auto]. eapply List.Forall_impl; [|apply (wf_marks _ _ Hwf)].
    intros pl [?|?]; [by left|done].
Qed.

(** *** Exclusion and wakeup *)

(** No two processes of different groups hold conflicting modes. *)
Definition exclusive (l : LOCK) : Prop :=
  forall p q m m', separate l p q -> lock_holds l p m -> lock_holds l q m' -> ~ conflicts lmt m m'.

(** A waiter behind [ahead] has a reason to wait: a conflicting request in front
    of it, or a conflicting lock of another group. *)
Definition blocked (l : LOCK) (ahead : list PGPROC) (w : PGPROC) : Prop :=
  (exists w', w' ∈ ahead /\ conflicts lmt (waitLockMode w) (waitLockMode w')) \/
  held_conflict l (procNumber w) (waitLockMode w).

Definition queue_blocked (l : LOCK) (queue : list PGPROC) : Prop :=
  forall q1 w q2, queue = q1 ++ w :: q2 -> blocked l q1 w.

(** The invariant between two operations on the object. *)
Record lock_inv (l : LOCK) : Prop := {
  inv_wf : lock_wf Settled l;
  inv_exclusive : exclusive l;
  inv_no_lost_wakeup : queue_blocked l (waitProcs l)
}.

Lemma lock_holds_mode pend l p m : lock_wf pend l -> lock_holds l p m -> mode_ok m.
Proof.
  intros Hwf (pl & Hpl & _ & Hh). pose proof (wf_hold _ _ Hwf) as H. rewrite Forall_forall in H.
  by apply (H pl Hpl).
Qed.

Lemma lock_holds_grant l p m q i :
  mode_ok m -> (exists pl, pl ∈ procLocks l /\ myProc pl = p) ->
  lock_holds (GrantLock l p m) q i <-> lock_holds l q i \/ (q = p /\ i = m).
Proof.
  intros Hm (pl0 & Hpl0 & Hp0). unfold lock_holds, GrantLock. cbn [procLocks]. fold (grant_hold m).
  setoid_rewrite elem_of_update_proclock. split.
  - intros (pl & [[H1 H2]|(pl1 & H1 & H2 & ->)] & Hq & Hh); [eauto|].
    apply (holds_grant m pl1 i Hm) in Hh as [Hh|Hh]; [left|right].
    + exists pl1. auto.
    + split; [|done]. rewrite <- Hq. done.
  - intros [(pl & H1 & H2 & H3)|[-> ->]].
    + destruct (decide (myProc pl = p)) as [E|E].
      * exists (grant_hold m pl). split; [eauto|]. split; [done|]. apply holds_grant; auto.
      * exists pl. auto.
    + exists (grant_hold m pl0). split; [eauto|]. split; [done|]. apply holds_grant; auto.
Qed.

Lemma held_conflict_mono l l' p m :
  tag l' = tag l -> (forall q i, lock_holds l q i -> lock_holds l' q i) ->
  held_conflict l p m -> held_conflict l' p m.
Proof.
  intros Ht Hl (q & m' & Hs & Hm' & Hc & Hh). exists q, m'. unfold separate in *. rewrite Ht. auto.
Qed.

Lemma queue_blocked_mono l l' queue :
  tag l' = tag l -> (forall q i, lock_holds l q i -> lock_holds l' q i) ->
  queue_blocked l queue -> queue_blocked l' queue.
Proof.
  intros Ht Hl H q1 w q2 E. destruct (H q1 w q2 E) as [?|Hc]; [by left|]. right.
  by eapply held_conflict_mono.
Qed.

Lemma queue_blocked_snoc l queue w :
  queue_blocked l queue -> blocked l queue w -> queue_blocked l (queue ++ [w]).
Proof.
  intros Hq Hw q1 x q2 E. destruct q2 as [|y q2 _] using rev_ind.
  - apply app_inj_tail in E as [-> ->]. done.
  - rewrite app_comm_cons, app_assoc in E. apply app_inj_tail in E as [-> _]. by eapply Hq.
Qed.

Lemma exclusive_grant l p m :
  lock_wf (Requesting p m) l -> exclusive l -> ~ held_conflict l p m -> exclusive (GrantLock l p m).
Proof.
  intros Hwf He Hn a b i j Hs. destruct (wf_pend _ _ Hwf p m eq_refl) as (Hm & _ & pl & Hpl & Hp & _).
  rewrite !lock_holds_grant by eauto. change (separate l a b) in Hs.
  intros [Ha|[-> ->]] [Hb|[-> ->]] Hc.
  - by apply (He a b i j).
  - pose proof (lock_holds_mode _ _ _ _ Hwf Ha) as Hi. apply Hn. exists a, i.
    destruct Hs as [Hs1 Hs2]. split; [split; [congruence|destruct Hs2; [by left|right; congruence]]|].
    split; [done|]. split; [|done]. by apply conflicts_sym.
  - apply Hn. exists b, j. pose proof (lock_holds_mode _ _ _ _ Hwf Hb). auto.
  - by destruct Hs.
Qed.

(** *** The wait queue *)

Lemma waiter_filter a w b :
  NoDup (procNumber <$> a ++ w :: b) ->
  filter (fun x => procNumber x <> procNumber w) (a ++ w :: b) = a ++ b /\
  procNumber w ∉ procNumber <$> a ++ b.
Proof.
  intros Hnd. rewrite fmap_app, fmap_cons in Hnd.
  apply NoDup_app in Hnd as (_ & Hd & [Hb _]%NoDup_cons).
  assert (Ha : procNumber w ∉ procNumber <$> a) by (intros H; apply (Hd _ H); left).
  assert (Hne : forall ws, procNumber w ∉ procNumber <$> ws ->
    Forall (fun x => procNumber x <> procNumber w) ws).
  { intros ws H. apply Forall_forall. intros x Hx E. apply H. rewrite <- E. by apply list_elem_of_fmap_2. }
  split.
  - rewrite filter_app, filter_cons, decide_False by congruence. by rewrite !filter_all by auto.
  - rewrite fmap_app. set_solver.
Qed.

Lemma waiter_split ws w :
  NoDup (procNumber <$> ws) -> w ∈ ws ->
  exists a b, ws = a ++ w :: b /\ filter (fun x => procNumber x <> procNumber w) ws = a ++ b /\
    procNumber w ∉ procNumber <$> a ++ b.
Proof.
  intros Hnd Hin. apply list_elem_of_split in Hin as (a & b & ->). exists a, b. split; [done|].
  by apply waiter_filter.
Qed.

(** A waiter taken off the queue leaves its request pending. *)
Lemma remove_waiter_wf l w :
  lock_wf Settled l -> w ∈ waitProcs l ->
  lock_wf (Requesting (procNumber w) (waitLockMode w)) (remove_waiter (procNumber w) l).
Proof.
  intros Hwf Hw. destruct (waiter_split _ _ (wf_queue _ _ Hwf) Hw) as (a & b & E & Ef & Hni).
  pose proof (wf_waiters _ _ Hwf) as Hws. pose proof Hws as Hww. rewrite Forall_forall in Hww.
  destruct (Hww w Hw) as (Hm & pl & Hpl & Hp & Hhl & Hnh).
  assert (Hc : forall i, wait_count (waitProcs l) i =
    wait_count (a ++ b) i + (if waitLockMode w =? i then 1 else 0)).
  { intros i. rewrite E, !wait_count_app, wait_count_cons. lia. }
  unfold remove_waiter. rewrite Ef. split; cbn [set_waitProcs procLocks waitProcs requested granted
    nGranted nRequested grantMask waitMask pend_count pend_total pend_proc]; try apply Hwf.
  - intros i Hi. rewrite (wf_requested _ _ Hwf), Hc by done. simpl. lia.
  - rewrite (wf_nRequested _ _ Hwf), E, !length_app. simpl. lia.
  - destruct (wf_waitMask _ _ Hwf) as [H1 H2]. split; [done|]. intros i Hi. specialize (H2 i Hi).
    rewrite Hc in H2. simpl in H2. pose proof (wait_count_nonneg (a ++ b) i).
    destruct (waitLockMode w =? i); split; intros Hx.
    + right. split; [done|lia].
    + apply H2. left. lia.
    + apply H2 in Hx as [?|[_ ?]]; left; lia.
    + apply H2. destruct Hx as [?|[_ ?]]; left; lia.
  - pose proof (wf_queue _ _ Hwf) as H. rewrite E, fmap_app, fmap_cons in H. rewrite fmap_app.
    eapply NoDup_app in H as (H1 & H2 & [_ H3]%NoDup_cons). apply NoDup_app. set_solver.
  - rewrite E in Hws. apply Forall_app in Hws as [H1 [_ H2]%Forall_cons]. by apply Forall_app.
  - pose proof (wf_idle _ _ Hwf) as H. rewrite Forall_forall in H |- *. intros q Hq E0.
    destruct (H q Hq E0) as [Hx|?]; [|done]. rewrite E, fmap_app, fmap_cons in Hx.
    apply elem_of_app in Hx as [Hx|[->|Hx]%elem_of_cons].
    + left. rewrite fmap_app. set_solver.
    + by right.
    + left. rewrite fmap_app. set_solver.
  - intros p m [= <- <-]. split; [done|]. split; [done|]. eauto.
  - done.
  - eapply List.Forall_impl; [|apply (wf_marks _ _ Hwf)]. intros x [?|?]; [by left|done].
Qed.

Lemma remove_grant_comm p l q m : remove_waiter q (GrantLock l p m) = GrantLock (remove_waiter q l) p m.
Proof. done. Qed.

(** The effect of a wakeup on a lock: the woken processes left the queue and hold
    what they asked for, and nothing else changed hands. *)
Record woken_from (l l' : LOCK) (woken : list ProcNumber) : Prop := {
  wk_tag : tag l' = tag l;
  wk_requested : nRequested l' = nRequested l;
  wk_procs : myProc <$> procLocks l' = myProc <$> procLocks l;
  wk_queue : waitProcs l' = filter (fun w => procNumber w ∉ woken) (waitProcs l);
  wk_woken : forall p, p ∈ woken -> p ∈ procNumber <$> waitProcs l;
  wk_holds : forall p m, lock_holds l' p m <-> lock_holds l p m \/
    (p ∈ woken /\ exists w, w ∈ waitProcs l /\ procNumber w = p /\ waitLockMode w = m)
}.

Lemma woken_from_refl l : woken_from l l [].
Proof.
  split; try done.
  - rewrite filter_all; [done|]. apply Forall_forall. set_solver.
  - set_solver.
  - intros p m. split; [auto|]. intros [H|[H _]]; [done|set_solver].
Qed.

(** Grant the request of a waiter, and take it off the queue. *)
Definition grant_waiter (l : LOCK) (w : PGPROC) : LOCK :=
  remove_waiter (procNumber w) (GrantLock l (procNumber w) (waitLockMode w)).

Lemma woken_from_cons l w l' woken :
  lock_wf Settled l -> w ∈ waitProcs l -> woken_from (grant_waiter l w) l' woken ->
  woken_from l l' (procNumber w :: woken).
Proof.
  intros Hwf Hw [Ht Hr Hp Hq Hwk Hh].
  pose proof (wf_waiters _ _ Hwf) as Hww. rewrite Forall_forall in Hww.
  destruct (Hww w Hw) as (Hm & pl & Hpl & Hpp & _).
  assert (Hg : forall q i, lock_holds (grant_waiter l w) q i <->
    lock_holds l q i \/ (q = procNumber w /\ i = waitLockMode w)).
  { intros q i. unfold grant_waiter. by apply lock_holds_grant; eauto. }
  assert (Hq0 : waitProcs (grant_waiter l w) = filter (fun x => procNumber x <> procNumber w) (waitProcs l))
    by done.
  split; [done|done| | | |].
  - rewrite Hp. by apply update_proclock_procs.
  - rewrite Hq, Hq0, list_filter_filter. apply list_filter_iff. set_solver.
  - intros p [->|Hin]%elem_of_cons; [by apply list_elem_of_fmap_2|].
    apply Hwk in Hin. rewrite Hq0 in Hin. apply list_elem_of_fmap in Hin as (x & -> & [_ ?]%list_elem_of_filter).
    by apply list_elem_of_fmap_2.
  - intros p m. rewrite Hh, Hg. setoid_rewrite elem_of_cons. rewrite Hq0.
    setoid_rewrite list_elem_of_filter. split.
    + intros [[?|[-> ->]]|(H1 & x & [H2 H3] & H4 & H5)]; [by left| |]; right;
        (split; [auto|]); [by exists w|by exists x].
    + intros [?|([->|H1] & x & H2 & H3 & H4)]; [auto| |].
      * left. right. split; [done|]. rewrite <- H4. f_equal.
        destruct (waiter_split _ _ (wf_queue _ _ Hwf) Hw) as (a & b & E & _ & Hni).
        rewrite E in H2. apply elem_of_app in H2 as [H2|[->|H2]%elem_of_cons]; [|done|];
          destruct Hni; rewrite <- H3; apply list_elem_of_fmap_2; set_solver.
      * destruct (decide (p = procNumber w)) as [->|Hne]; [|right; split; [done|]; exists x; naive_solver].
        exfalso. apply Hwk in H1. rewrite Hq0 in H1.
        apply list_elem_of_fmap in H1 as (y & ? & [? _]%list_elem_of_filter). congruence.
Qed.

Lemma grant_waiter_wf l w : lock_wf Settled l -> w ∈ waitProcs l -> lock_wf Settled (grant_waiter l w).
Proof.
  intros Hwf Hw. unfold grant_waiter. rewrite remove_grant_comm. by apply GrantLock_wf, remove_waiter_wf.
Qed.

Lemma grant_waiter_exclusive l w :
  lock_wf Settled l -> w ∈ waitProcs l -> exclusive l ->
  ~ held_conflict l (procNumber w) (waitLockMode w) -> exclusive (grant_waiter l w).
Proof.
  intros Hwf Hw He Hn. unfold grant_waiter. rewrite remove_grant_comm.
  apply exclusive_grant; [by apply remove_waiter_wf|done|done].
Qed.

(** The proclock a waiter waits through. *)
Lemma waiter_proclock l w :
  lock_wf Settled l -> w ∈ waitProcs l ->
  exists pl, find_proclock l (procNumber w) = Some pl /\ pl ∈ procLocks l /\ myProc pl = procNumber w.
Proof.
  intros Hwf Hw. pose proof (wf_waiters _ _ Hwf) as H. rewrite Forall_forall in H.
  destruct (H w Hw) as (_ & pl & Hpl & Hp & _). exists pl. split; [|done].
  by apply find_proclock_spec; [apply Hwf|..].
Qed.

(** The test of [ProcLockWakeup] decides whether a waiter is blocked. *)
Lemma wakeup_test MyProc l kept w pl ahead :
  lock_wf Settled l -> w ∈ waitProcs l -> pl ∈ procLocks l -> myProc pl = procNumber w ->
  (forall m, mode_ok m -> Z.testbit ahead m = true <-> exists x, x ∈ kept /\ waitLockMode x = m) ->
  exists b, (if Z.land (conflict lmt (waitLockMode w)) ahead =? 0
     then LockCheckConflicts lmt lockGroupLeader MyProc (waitLockMode w) l pl else Ok true) = Ok b /\
    if b then blocked l kept w else ~ held_conflict l (procNumber w) (waitLockMode w).
Proof.
  intros Hwf Hw Hpl Hp Ha. pose proof (wf_waiters _ _ Hwf) as H. rewrite Forall_forall in H.
  destruct (H w Hw) as (Hm & _). destruct (_ =? 0) eqn:E.
  - destruct (LockCheckConflicts_spec Settled MyProc l pl (waitLockMode w) Hwf Hpl Hm) as (b & -> & Hb).
    exists b. split; [done|]. rewrite Hp in Hb. destruct b; [right; by apply Hb|].
    intros Hc. apply Hb in Hc. done.
  - exists true. split; [done|]. left.
    apply conflict_meets in E as (m' & Hm' & Hc & Ht); [|done|done].
    apply Ha in Ht as (x & Hx & <-); [|done]. eauto.
Qed.

Lemma wakeup_loop_spec MyProc queue l kept ahead :
  lock_wf Settled l -> exclusive l -> waitProcs l = kept ++ queue -> queue_blocked l kept ->
  (forall m, mode_ok m -> Z.testbit ahead m = true <-> exists x, x ∈ kept /\ waitLockMode x = m) ->
  exists l' woken, wakeup_loop lmt lockGroupLeader MyProc queue ahead l = Ok (l', woken) /\
    lock_inv l' /\ woken_from l l' woken.
Proof.
  revert l kept ahead. induction queue as [|w queue IH]; intros l kept ahead Hwf He Hq Hb Ha.
  - exists l, []. rewrite app_nil_r in Hq. split; [done|]. split; [|apply woken_from_refl].
    split; [done|done|by rewrite Hq].
  - assert (Hw : w ∈ waitProcs l) by (rewrite Hq; set_solver). cbn [wakeup_loop].
    destruct (waiter_proclock l w Hwf Hw) as (pl & -> & Hpl & Hp).
    destruct (wakeup_test MyProc l kept w pl ahead Hwf Hw Hpl Hp Ha) as (b & -> & Hblk). cbn.
    destruct b; simpl.
    + apply (IH l (kept ++ [w])); [done|done|by rewrite <- app_assoc|by apply queue_blocked_snoc|].
      pose proof (wf_waiters _ _ Hwf) as H. rewrite Forall_forall in H. destruct (H w Hw) as (Hm & _).
      intros m Hmm. rewrite (testbit_set lmt), orb_true_iff, Z.eqb_eq, Ha by done.
      setoid_rewrite elem_of_app. setoid_rewrite list_elem_of_singleton. naive_solver.
    + fold (grant_waiter l w). destruct (IH (grant_waiter l w) kept ahead) as (l' & woken & -> & Hi & Hwk).
      * by apply grant_waiter_wf.
      * by apply grant_waiter_exclusive.
      * unfold grant_waiter, remove_waiter. cbn. rewrite Hq.
        apply waiter_filter. rewrite <- Hq. apply Hwf.
      * eapply queue_blocked_mono; [| |done]; [done|]. intros q i Hh. apply lock_holds_grant; eauto.
        pose proof (wf_waiters _ _ Hwf) as H. rewrite Forall_forall in H. by destruct (H w Hw).
      * done.
      * exists l', (procNumber w :: woken). split; [done|]. split; [done|]. by apply woken_from_cons.
Qed.

(** [ProcLockWakeup] restores the invariant whatever the queue was, and changes
    nothing but the state of the processes it wakes. *)
Lemma ProcLockWakeup_spec MyProc l :
  lock_wf Settled l -> exclusive l ->
  exists l' woken, ProcLockWakeup lmt lockGroupLeader MyProc l = Ok (l', woken) /\
    lock_inv l' /\ woken_from l l' woken.
Proof.
  intros Hwf He. apply (wakeup_loop_spec MyProc (waitProcs l) l []); [done|done|done| |].
  - intros [|? ?] w q2; discriminate.
  - intros m _. rewrite Z.bits_0. split; [done|]. set_solver.
Qed.

(** *** Joining the wait queue *)

(** The request passes the wait queue: a waiter of another group waits for a mode
    that the [held] ones block, and no request in front of it, my group's apart,
    conflicts with mine. *)
Definition passes (MyProc : ProcNumber) (m : LOCKMODE) (l : LOCK) (held : LOCKMASK) : Prop :=
  exists q1 w q2, waitProcs l = q1 ++ w :: q2 /\ same_group lockGroupLeader MyProc w = false /\
    (exists i, mode_ok i /\ conflicts lmt (waitLockMode w) i /\ Z.testbit held i = true) /\
    forall x, x ∈ q1 -> conflicts lmt m (waitLockMode x) -> same_group lockGroupLeader MyProc x = true.

(** What the scan of the queue has established when it ends. *)
Definition place_ok (MyProc : ProcNumber) (m : LOCKMODE) (l : LOCK) (held : LOCKMASK)
    (place : queue_place) : Prop :=
  match place with
  | Tail => True
  | Before w => exists q1 q2, waitProcs l = q1 ++ w :: q2 /\
      ((exists w', w' ∈ q1 /\ conflicts lmt m (waitLockMode w')) \/ held_conflict l MyProc m)
  | GrantNow => ~ held_conflict l MyProc m /\ passes MyProc m l held
  | EarlyDeadlock w => w ∈ waitProcs l /\ same_group lockGroupLeader MyProc w = false /\
      (exists i, mode_ok i /\ conflicts lmt (waitLockMode w) i /\ Z.testbit held i = true) /\
      (exists i, conflicts lmt m i /\ lock_holds l (procNumber w) i)
  end.

Lemma find_place_spec MyProc pend m l pl held queue pre ahead :
  lock_wf pend l -> mode_ok m -> pl ∈ procLocks l -> myProc pl = MyProc ->
  waitProcs l = pre ++ queue ->
  (forall i, mode_ok i -> Z.testbit ahead i = true -> exists x, x ∈ pre /\ waitLockMode x = i) ->
  (forall x, x ∈ pre -> same_group lockGroupLeader MyProc x = true \/ Z.testbit ahead (waitLockMode x) = true) ->
  exists place, find_place lmt lockGroupLeader MyProc queue ahead held m l pl = Ok place /\
    place_ok MyProc m l held place.
Proof.
  intros Hwf Hm Hpl Hp. revert pre ahead. induction queue as [|w queue IH]; intros pre ahead Hq Ha Hb.
  { by exists Tail. }
  assert (Hw : w ∈ waitProcs l) by (rewrite Hq; set_solver). cbn [find_place].
  pose proof (wf_waiters _ _ Hwf) as H. rewrite Forall_forall in H.
  destruct (H w Hw) as (Hmw & wpl & Hwpl & Hwp & Hwh & _).
  destruct (same_group lockGroupLeader MyProc w) eqn:Esg.
  { apply (IH (pre ++ [w])); [by rewrite <- app_assoc| |].
    - intros i Hi Ht. destruct (Ha i Hi Ht) as (x & ? & ?). exists x. set_solver.
    - intros x [?| ->%list_elem_of_singleton]%elem_of_app; [auto|by left]. }
  destruct (Z.land (conflict lmt (waitLockMode w)) held =? 0) eqn:Eh; cbn [negb].
  { apply (IH (pre ++ [w])); [by rewrite <- app_assoc| |].
    - intros i Hi. rewrite (testbit_set lmt), orb_true_iff, Z.eqb_eq by done. intros [Ht| <-].
      + destruct (Ha i Hi Ht) as (x & ? & ?). exists x. set_solver.
      + exists w. set_solver.
    - intros x [Hx| ->%list_elem_of_singleton]%elem_of_app.
      + destruct (Hb x Hx) as [?|Ht]; [by left|right].
        destruct (H x ltac:(rewrite Hq; set_solver)) as (Hmx & _).
        rewrite (testbit_set lmt), Ht by done. done.
      + right. rewrite (testbit_set lmt), Z.eqb_refl by done. apply orb_true_r. }
  apply conflict_meets in Eh as (i & Hi & Hci & Hhi); [|done|done].
  destruct (Z.land (conflict lmt m) (heldLocks w) =? 0) eqn:Ed; cbn [negb].
  2:{ apply conflict_meets in Ed as (j & Hj & Hcj & Hhj); [|done|done].
      exists (EarlyDeadlock w). split; [done|]. split; [done|]. split; [done|]. split; [eauto|].
      exists j. split; [done|]. exists wpl. rewrite Hwh in Hhj. done. }
  destruct (Z.land (conflict lmt m) ahead =? 0) eqn:Ea.
  - destruct (LockCheckConflicts_spec pend MyProc l pl m Hwf Hpl Hm) as (b & -> & Hbl). cbn.
    rewrite Hp in Hbl. destruct b; cbn; eexists; (split; [done|]); cbn.
    + exists pre, queue. split; [done|]. right. by apply Hbl.
    + split; [intros Hc; apply Hbl in Hc; done|]. exists pre, w, queue. split; [done|]. split; [done|].
      split; [eauto|]. intros x Hx Hcx. destruct (Hb x Hx) as [?|Ht]; [done|].
      destruct (H x ltac:(rewrite Hq; set_solver)) as (Hmx & _).
      assert (Hne : (Z.land (conflict lmt m) ahead =? 0) = false) by (apply conflict_meets; eauto). congruence.
  - exists (Before w). split; [done|]. exists pre, queue. split; [done|]. left.
    apply conflict_meets in Ea as (j & Hj & Hcj & Hhj); [|done|done].
    destruct (Ha j Hj Hhj) as (x & ? & <-). eauto.
Qed.

Lemma insert_before_split q1 w q2 x :
  NoDup (procNumber <$> q1 ++ w :: q2) ->
  insert_before (procNumber w) x (q1 ++ w :: q2) = q1 ++ x :: w :: q2.
Proof.
  induction q1 as [|y q1 IH]; intros Hnd; simpl; [by rewrite Z.eqb_refl|].
  cbn in Hnd. apply NoDup_cons in Hnd as [Hy Hnd]. rewrite IH by done.
  assert (procNumber y <> procNumber w) as ->%Z.eqb_neq; [|done].
  intros E. apply Hy. rewrite E. apply list_elem_of_fmap_2. set_solver.
Qed.

(** The lock after the process of a pending request has entered the queue. *)
Definition enqueue (q1 q2 : list PGPROC) (w : PGPROC) (l : LOCK) : LOCK :=
  set_waitMask (Z.lor (waitMask l) (LOCKBIT_ON (waitLockMode w))) (set_waitProcs (q1 ++ w :: q2) l).

Lemma enqueue_wf l p m pl q1 q2 :
  lock_wf (Requesting p m) l -> pl ∈ procLocks l -> myProc pl = p -> waitProcs l = q1 ++ q2 ->
  lock_wf Settled (enqueue q1 q2 (mkPGPROC p m (holdMask pl)) l).
Proof.
  intros Hwf Hpl Hp Hq. destruct (wf_pend _ _ Hwf p m eq_refl) as (Hm & Hni & pl' & Hpl' & Hp' & Hnh).
  assert (pl' = pl) as ->.
  { pose proof (find_proclock_spec l p pl (wf_proclocks _ _ Hwf) Hpl Hp).
    pose proof (find_proclock_spec l p pl' (wf_proclocks _ _ Hwf) Hpl' Hp'). congruence. }
  set (w := mkPGPROC p m (holdMask pl)).
  assert (Hc : forall i, wait_count (q1 ++ w :: q2) i = wait_count (waitProcs l) i + (if m =? i then 1 else 0)).
  { intros i. rewrite Hq, !wait_count_app, wait_count_cons. simpl. lia. }
  rewrite Hq in Hni. split; cbn [enqueue set_waitProcs set_waitMask procLocks waitProcs requested granted
    nGranted nRequested grantMask waitMask pend_count pend_total pend_proc]; try apply Hwf.
  - intros i Hi. rewrite Hc, (wf_requested _ _ Hwf) by done. simpl. lia.
  - rewrite (wf_nRequested _ _ Hwf), Hq, !length_app. simpl. lia.
  - destruct (wf_waitMask _ _ Hwf) as [H1 H2]. split; [by apply mask_ok_set|]. intros i Hi.
    rewrite (testbit_set lmt), orb_true_iff, Z.eqb_eq, Hc by done. specialize (H2 i Hi). simpl in *.
    pose proof (wait_count_nonneg (waitProcs l) i).
    destruct (Z.eqb_spec m i) as [->|Hne]; split.
    + intros _. left. lia.
    + by right.
    + intros [Hb|?]; [|done]. apply H2 in Hb as [?|[_ ?]]; left; lia.
    + intros [?|[_ ?]]; [|lia]. left. apply H2. left. lia.
  - pose proof (wf_queue _ _ Hwf) as H. rewrite Hq, fmap_app in H. rewrite fmap_app, fmap_cons.
    rewrite fmap_app in Hni. apply NoDup_app in H as (? & ? & ?). apply NoDup_app.
    split; [done|]. split; [set_solver|]. apply NoDup_cons. set_solver.
  - pose proof (wf_waiters _ _ Hwf) as H. rewrite Hq in H. apply Forall_app in H as [H1 H2].
    apply Forall_app. split; [done|]. constructor; [|done]. split; [done|]. by exists pl.
  - pose proof (wf_idle _ _ Hwf) as H. rewrite Forall_forall in H |- *. intros q Hq' E.
    destruct (H q Hq' E) as [Hx|[= ->]]; left; rewrite fmap_app, fmap_cons; [|set_solver].
    rewrite Hq, fmap_app in Hx. set_solver.
  - done.
  - done.
  - eapply List.Forall_impl; [|apply (wf_marks _ _ Hwf)]. intros x [?|?]; [by left|done].
Qed.

Lemma queue_blocked_insert l q1 w q2 :
  queue_blocked l (q1 ++ q2) -> blocked l q1 w -> queue_blocked l (q1 ++ w :: q2).
Proof.
  intros Hq Hw. induction q2 as [|x q2 IH] using rev_ind; [by apply queue_blocked_snoc; rewrite app_nil_r in Hq|].
  rewrite app_assoc in Hq. rewrite app_comm_cons, app_assoc. apply queue_blocked_snoc.
  - apply IH. intros a y b E. apply (Hq a y (b ++ [x])). by rewrite E, <- app_assoc.
  - destruct (Hq (q1 ++ q2) x [] eq_refl) as [(w' & Hw' & Hc)|Hc]; [left|by right].
    exists w'. split; [set_solver|done].
Qed.

(** A waiter that has found itself in a cycle of two: it must wait for me and I
    must wait for it. *)
Definition two_cycle (MyProc : ProcNumber) (m : LOCKMODE) (l : LOCK) (pl : PROCLOCK) : Prop :=
  exists w, w ∈ waitProcs l /\ same_group lockGroupLeader MyProc w = false /\
    (exists i, mode_ok i /\ conflicts lmt (waitLockMode w) i /\
       Z.testbit (my_held_locks lockGroupLeader MyProc l pl) i = true) /\
    (exists i, conflicts lmt m i /\ lock_holds l (procNumber w) i).

Definition join_ok (MyProc : ProcNumber) (l : LOCK) (pl : PROCLOCK) (m : LOCKMODE) (dontWait : bool)
    (r : LOCK * ProcWaitStatus) : Prop :=
  match r with
  | (l', PROC_WAIT_STATUS_OK) => l' = GrantLock l MyProc m /\ ~ held_conflict l MyProc m /\
      passes MyProc m l (my_held_locks lockGroupLeader MyProc l pl)
  | (l', PROC_WAIT_STATUS_ERROR) => l' = l /\ (dontWait = true \/ two_cycle MyProc m l pl)
  | (l', PROC_WAIT_STATUS_WAITING) => dontWait = false /\
      exists q1 q2, waitProcs l = q1 ++ q2 /\ l' = enqueue q1 q2 (mkPGPROC MyProc m (holdMask pl)) l /\
        blocked l q1 (mkPGPROC MyProc m (holdMask pl))
  end.

Lemma JoinWaitQueue_spec MyProc l pl m dontWait :
  lock_wf (Requesting MyProc m) l -> pl ∈ procLocks l -> myProc pl = MyProc ->
  blocked l (waitProcs l) (mkPGPROC MyProc m (holdMask pl)) ->
  exists r, JoinWaitQueue lmt lockGroupLeader MyProc l m dontWait = Ok r /\
    join_ok MyProc l pl m dontWait r.
Proof.
  intros Hwf Hpl Hp Hb. destruct (wf_pend _ _ Hwf MyProc m eq_refl) as (Hm & _).
  unfold JoinWaitQueue. rewrite (find_proclock_spec l MyProc pl (wf_proclocks _ _ Hwf) Hpl Hp).
  set (held := my_held_locks lockGroupLeader MyProc l pl).
  assert (Hplace : exists place, (if negb (held =? 0) && negb (bool_decide (waitProcs l = []))
      then find_place lmt lockGroupLeader MyProc (waitProcs l) 0 held m l pl else Ok Tail) = Ok place /\
    place_ok MyProc m l held place).
  { destruct (negb (held =? 0) && _); [|by exists Tail].
    eapply (find_place_spec MyProc _ m l pl held (waitProcs l) [] 0 Hwf); [done..| |].
    - intros i _. by rewrite Z.bits_0.
    - intros x Hx. by apply not_elem_of_nil in Hx. }
  destruct Hplace as (place & -> & Hpo). cbn. destruct place as [|w| |w].
  - destruct dontWait; eexists; (split; [done|]); cbn; [auto|]. split; [done|].
    exists (waitProcs l), []. split; [by rewrite app_nil_r|]. split; [|done]. done.
  - destruct Hpo as (q1 & q2 & Eq & Hr). destruct dontWait; eexists; (split; [done|]); cbn; [auto|].
    split; [done|]. exists q1, (w :: q2). split; [done|]. split.
    + unfold enqueue. cbn. rewrite Eq, insert_before_split; [done|]. rewrite <- Eq. apply Hwf.
    + done.
  - eexists. split; [done|]. cbn. auto.
  - eexists. split; [done|]. cbn. split; [done|]. right. exists w. done.
Qed.

(** *** Requests: entered, granted, queued or cancelled *)

Lemma held_count_idle pls p g i : held_count (pls ++ [mkPROCLOCK p g 0 0]) i = held_count pls i.
Proof. rewrite held_count_app, held_count_cons. cbn [holdMask]. rewrite Z.bits_0. change (held_count [] i) with 0. lia. Qed.

Lemma enter_proclock_holds l p q i : lock_holds (enter_proclock lockGroupLeader p l) q i <-> lock_holds l q i.
Proof.
  unfold enter_proclock, lock_holds. destruct (find_proclock l p); [done|]. cbn.
  setoid_rewrite elem_of_app. setoid_rewrite list_elem_of_singleton. split.
  - intros (pl & [?| ->] & ? & Hh); [eauto|]. unfold holds in Hh. cbn in Hh. by rewrite Z.bits_0 in Hh.
  - intros (pl & ? & ? & ?). eauto.
Qed.

(** [SetupLockInTable] on a lock object. *)
Definition request (p : ProcNumber) (m : LOCKMODE) (l : LOCK) : LOCK :=
  add_requested m 1 (enter_proclock lockGroupLeader p l).

Lemma enter_proclock_facts l p :
  NoDup (myProc <$> procLocks l) ->
  let l' := enter_proclock lockGroupLeader p l in
  NoDup (myProc <$> procLocks l') /\
  (forall i, held_count (procLocks l') i = held_count (procLocks l) i) /\
  (forall pl, pl ∈ procLocks l -> pl ∈ procLocks l') /\
  (exists pl, pl ∈ procLocks l' /\ myProc pl = p) /\
  forall pl, pl ∈ procLocks l' -> pl ∈ procLocks l \/ pl = mkPROCLOCK p (leader p) 0 0.
Proof.
  intros Hnd. unfold enter_proclock. destruct (find_proclock l p) as [pl|] eqn:E; cbn.
  - apply find_proclock_Some in E. split; [done|]. split; [done|]. split; [done|]. split; eauto.
  - apply find_proclock_None in E. unfold others_only in E. rewrite Forall_forall in E. split; [|split; [|split; [|split]]].
    + rewrite fmap_app. apply NoDup_app. split; [done|]. split; [|apply NoDup_singleton].
      intros x (pl & -> & Hpl)%list_elem_of_fmap Hx%list_elem_of_singleton. by apply (E pl).
    + intros i. apply held_count_idle.
    + set_solver.
    + eexists. split; [by apply elem_of_app; right; left|done].
    + set_solver.
Qed.

Lemma request_wf l p m :
  lock_wf Settled l -> mode_ok m -> p ∉ procNumber <$> waitProcs l -> ~ lock_holds l p m ->
  lock_wf (Requesting p m) (request p m l).
Proof.
  intros Hwf Hm Hq Hn. pose proof (mode_lt_modes lmt m Hm) as Hlt.
  destruct (enter_proclock_facts l p (wf_proclocks _ _ Hwf)) as (Hnd & Hc & Hsub & (pl & Hpl & Hp) & Hinv).
  set (l' := enter_proclock lockGroupLeader p l) in *.
  assert (Hsame : waitProcs l' = waitProcs l /\ granted l' = granted l /\ requested l' = requested l /\
    nGranted l' = nGranted l /\ nRequested l' = nRequested l /\ grantMask l' = grantMask l /\
    waitMask l' = waitMask l) by (unfold l', enter_proclock; by destruct (find_proclock l p)).
  destruct Hsame as (E1 & E2 & E3 & E4 & E5 & E6 & E7).
  pose proof (wf_requested_len _ _ Hwf) as Hrl.
  unfold request. fold l'. split; cbn [add_requested procLocks waitProcs requested granted nGranted nRequested
    grantMask waitMask pend_count pend_total pend_proc]; rewrite ?E1, ?E2, ?E3, ?E4, ?E5, ?E6, ?E7.
  - done.
  - apply Forall_forall. intros x [Hx| ->]%Hinv; [|done]. pose proof (wf_leader _ _ Hwf) as H.
    rewrite Forall_forall in H. auto.
  - apply Forall_forall. intros x [Hx| ->]%Hinv; [|intros i; cbn; by rewrite Z.bits_0].
    pose proof (wf_hold _ _ Hwf) as H. rewrite Forall_forall in H. auto.
  - apply Hwf.
  - by rewrite aset_length.
  - intros i Hi. rewrite Hc. by apply Hwf.
  - intros i Hi. rewrite aget_aset, Hc by (rewrite ?Hrl; lia).
    destruct (Z.eqb_spec m i) as [->|_]; rewrite (wf_requested _ _ Hwf) by done; cbn; lia.
  - rewrite (wf_nGranted _ _ Hwf). apply sumZ_ext. intros i _. by rewrite Hc.
  - rewrite (wf_nRequested _ _ Hwf). simpl. lia.
  - destruct (wf_grantMask _ _ Hwf) as [H1 H2]. split; [done|]. intros i Hi. rewrite Hc. auto.
  - destruct (wf_waitMask _ _ Hwf) as [H1 H2]. split; [done|]. intros i Hi. specialize (H2 i Hi).
    simpl in H2. intuition lia.
  - apply Hwf.
  - pose proof (wf_waiters _ _ Hwf) as H. rewrite Forall_forall in H |- *. intros w Hw.
    destruct (H w Hw) as (? & x & ? & ?). split; [done|]. exists x. auto.
  - apply Forall_forall. intros x [Hx| ->]%Hinv E; [|by right]. pose proof (wf_idle _ _ Hwf) as H.
    rewrite Forall_forall in H. destruct (H x Hx E); [by left|done].
  - intros ? ? [= <- <-]. split; [done|]. split; [done|]. exists pl. split; [done|]. split; [done|].
    intros Hh. apply Hn. apply (enter_proclock_holds l p). by exists pl.
  - done.
  - apply Forall_forall. intros x [Hx| ->]%Hinv; [|by left]. pose proof (wf_marks _ _ Hwf) as H.
    rewrite Forall_forall in H. destruct (H x Hx); [by left|done].
Qed.

(** The request is withdrawn: counters go back, and the wait mask is the one of
    the queue. *)
Lemma cancel_wf l p m mask :
  lock_wf (Requesting p m) l -> mask_ok lmt mask ->
  (forall i, mode_ok i -> Z.testbit mask i = true <-> 0 < wait_count (waitProcs l) i) ->
  lock_wf (Releasing p) (set_waitMask mask (add_requested m (-1) l)).
Proof.
  intros Hwf Hmk Hmask. destruct (wf_pend _ _ Hwf p m eq_refl) as (Hm & Hq & _).
  pose proof (mode_lt_modes lmt m Hm) as Hlt. pose proof (wf_requested_len _ _ Hwf) as Hrl.
  split; cbn [set_waitMask add_requested procLocks waitProcs requested granted nGranted nRequested
    grantMask waitMask pend_count pend_total pend_proc]; try apply Hwf.
  - by rewrite aset_length.
  - intros i Hi. rewrite aget_aset by (rewrite ?Hrl; lia).
    destruct (Z.eqb_spec m i) as [->|Hne]; rewrite (wf_requested _ _ Hwf) by done; cbn.
    + rewrite Z.eqb_refl. lia.
    + apply Z.eqb_neq in Hne as ->. lia.
  - rewrite (wf_nRequested _ _ Hwf). simpl. lia.
  - split; [done|]. intros i Hi. rewrite Hmask by done. simpl. intuition lia.
  - done.
  - by intros ? [= <-].
  - eapply List.Forall_impl; [|apply (wf_marks _ _ Hwf)]. intros x [?|?]; [by left|done].
Qed.

Definition release_hold (m : LOCKMODE) (pl : PROCLOCK) : PROCLOCK :=
  set_holdMask (Z.land (holdMask pl) (LOCKBIT_OFF m)) pl.

Lemma holds_release m pl i : mode_ok m -> holds (release_hold m pl) i <-> holds pl i /\ i <> m.
Proof.
  intros Hm. unfold holds, release_hold. cbn. rewrite (testbit_clear lmt) by done.
  rewrite andb_true_iff, negb_true_iff, Z.eqb_neq. intuition.
Qed.

Lemma held_count_release pls p m i :
  NoDup (myProc <$> pls) -> mode_ok m -> (exists pl, pl ∈ pls /\ myProc pl = p /\ holds pl m) ->
  held_count (update_proclock p (release_hold m) pls) i = held_count pls i - (if m =? i then 1 else 0).
Proof.
  intros Hnd Hm (pl & Hpl & Hp & Hh). destruct (proclock_split _ _ _ Hnd Hpl Hp) as (a & b & -> & Ha & Hb).
  rewrite update_proclock_split, !held_count_app, !held_count_cons by done. cbn.
  rewrite (testbit_clear lmt) by done. destruct (Z.eqb_spec m i) as [<-|_]; [|rewrite andb_true_r; lia].
  unfold holds in Hh. rewrite Hh. cbn. lia.
Qed.

Lemma ungrant_wf l p m :
  lock_wf (Releasing p) l -> lock_holds l p m -> lock_wf (Releasing p) (UnGrantLock lmt l m p).1.
Proof.
  intros Hwf Hh. pose proof (lock_holds_mode _ _ _ _ Hwf Hh) as Hm.
  pose proof (wf_releasing _ _ Hwf p eq_refl) as Hq.
  pose proof (mode_lt_modes lmt m Hm) as Hlt. pose proof (wf_granted_len _ _ Hwf) as Hgl.
  pose proof (wf_requested_len _ _ Hwf) as Hrl.
  pose proof (fun i => held_count_release _ p m i (wf_proclocks _ _ Hwf) Hm Hh) as Hc.
  assert (Hga : forall i, 0 <= i -> aget (aset (granted l) m (aget (granted l) m - 1)) i =
    aget (granted l) i - (if m =? i then 1 else 0)).
  { intros i Hi. rewrite aget_aset by (rewrite ?Hgl; lia). destruct (Z.eqb_spec m i); subst; lia. }
  unfold UnGrantLock. fold (release_hold m). split; cbn [fst procLocks waitProcs requested granted nGranted
    nRequested grantMask waitMask pend_count pend_total pend_proc]; try apply Hwf.
  - rewrite update_proclock_procs by done. apply Hwf.
  - apply Forall_update_proclock; [apply Hwf|auto].
  - apply Forall_update_proclock; [apply Hwf|]. intros pl _ _ H. by apply mask_ok_clear.
  - by rewrite aset_length.
  - by rewrite aset_length.
  - intros i Hi. rewrite Hga, Hc, (wf_granted _ _ Hwf) by lia. done.
  - intros i Hi. rewrite aget_aset, Hc by (rewrite ?Hrl; lia).
    destruct (Z.eqb_spec m i) as [->|_]; rewrite (wf_requested _ _ Hwf) by done; cbn; lia.
  - rewrite (wf_nGranted _ _ Hwf). symmetry. apply (sumZ_update _ _ _ m (-1)).
    + apply lockmodes_NoDup.
    + by apply lockmodes_spec.
    + rewrite Hc, Z.eqb_refl. done.
    + intros i _ Hne. rewrite Hc. apply not_eq_sym, Z.eqb_neq in Hne as ->. lia.
  - rewrite (wf_nRequested _ _ Hwf). simpl. lia.
  - destruct (wf_grantMask _ _ Hwf) as [H1 H2]. rewrite Hga, Z.eqb_refl, (wf_granted _ _ Hwf) by lia.
    pose proof (held_count_nonneg (procLocks l)) as Hnn.
    destruct (Z.eqb_spec (held_count (procLocks l) m - 1) 0) as [E|E].
    + split; [by apply mask_ok_clear|]. intros i Hi.
      rewrite (testbit_clear lmt), andb_true_iff, negb_true_iff, Z.eqb_neq, H2, Hc by done.
      destruct (Z.eqb_spec m i); subst; intuition lia.
    + split; [done|]. intros i Hi. rewrite H2, Hc by done. specialize (Hnn i).
      destruct (Z.eqb_spec m i) as [->|_]; [|intuition lia].
      assert (0 < held_count (procLocks l) i); [|lia].
      apply held_count_pos. destruct Hh as (pl & ? & ? & ?). eauto.
  - pose proof (wf_waiters _ _ Hwf) as H. rewrite Forall_forall in H |- *. intros w Hw.
    apply waiter_ok_update; [by apply H|]. intros <-. apply Hq. by apply list_elem_of_fmap_2.
  - pose proof (wf_idle _ _ Hwf) as H. rewrite Forall_forall in H |- *.
    intros q [[Hq1 Hne]|(pl & H1 & H2 & ->)]%elem_of_update_proclock.
    + intros E. destruct (H q Hq1 E) as [?|?]; [by left|by right].
    + intros _. right. cbn. by rewrite H2.
  - done.
  - apply Forall_update_proclock; [apply Hwf|auto].
Qed.

Lemma drop_idle_holds l p q i :
  NoDup (myProc <$> procLocks l) -> lock_holds (drop_idle_proclock p l) q i <-> lock_holds l q i.
Proof.
  intros Hnd. unfold drop_idle_proclock. destruct (find_proclock l p) as [pl|] eqn:E; [|done].
  destruct (Z.eqb_spec (holdMask pl) 0) as [Ez|]; [|done]. apply find_proclock_Some in E as [Hpl Hp].
  unfold lock_holds. cbn. setoid_rewrite list_elem_of_filter. split.
  - intros (x & [_ ?] & ? & ?). eauto.
  - intros (x & Hx & Hxq & Hh). exists x. split; [|done]. split; [|done]. intros E.
    pose proof (find_proclock_spec l p pl Hnd Hpl Hp). pose proof (find_proclock_spec l p x Hnd Hx E).
    assert (x = pl) as -> by congruence. unfold holds in Hh. by rewrite Ez, Z.bits_0 in Hh.
Qed.

Lemma drop_idle_wf l p :
  lock_wf (Releasing p) l -> Forall (fun pl => releaseMask pl = 0) (procLocks l) ->
  lock_wf Settled (drop_idle_proclock p l).
Proof.
  intros Hwf Hmk. unfold drop_idle_proclock. destruct (find_proclock l p) as [pl|] eqn:E.
  - apply find_proclock_Some in E as [Hpl Hp].
    destruct (proclock_split _ _ _ (wf_proclocks _ _ Hwf) Hpl Hp) as (a & b & Eab & Ha & Hb).
    destruct (Z.eqb_spec (holdMask pl) 0) as [Ez|Ez].
    + assert (Hc : forall i, held_count (procLocks l) i = held_count (a ++ b) i).
      { intros i. rewrite Eab, !held_count_app, held_count_cons, Ez, Z.bits_0. lia. }
      assert (Hsub : forall x, x ∈ a ++ b -> x ∈ procLocks l) by (rewrite Eab; set_solver).
      rewrite Eab, filter_proclock_split by done. destruct Hwf as [H1 H2 H3 H4 H5 H6 H7 H8 H9 H10 H11 H12 H13 H14 _ H16 _].
      rewrite !Forall_forall in *.
      split; cbn [set_procLocks procLocks waitProcs requested granted nGranted nRequested grantMask
        waitMask pend_count pend_total pend_proc]; rewrite ?Forall_forall; try done; auto.
      * rewrite Eab, fmap_app, fmap_cons in H1. rewrite fmap_app.
        apply NoDup_app in H1 as (? & ? & [? ?]%NoDup_cons). apply NoDup_app. set_solver.
      * intros i Hi. rewrite <- Hc. auto.
      * intros i Hi. rewrite <- Hc. by rewrite H7.
      * rewrite H8. apply sumZ_ext. intros i _. apply Hc.
      * split; [apply H10|]. intros i Hi. rewrite <- Hc. by apply H10.
      * intros w Hw. destruct (H13 w Hw) as (? & x & Hx & Hxp & ?). split; [done|]. exists x.
        split; [|done]. rewrite Eab in Hx. apply elem_of_app in Hx as [?|[->|?]%elem_of_cons]; [set_solver| |set_solver].
        destruct (H16 p eq_refl). rewrite <- Hp, Hxp. by apply list_elem_of_fmap_2.
      * intros x Hx E0. destruct (H14 x (Hsub x Hx) E0) as [?|[= Exp]]; [by left|].
        unfold others_only in *. rewrite Forall_forall in Ha, Hb.
        apply elem_of_app in Hx as [Hx|Hx]; [by destruct (Ha x Hx)|by destruct (Hb x Hx)].
    + destruct Hwf as [H1 H2 H3 H4 H5 H6 H7 H8 H9 H10 H11 H12 H13 H14 _ _ _].
      split; try done; [|eapply List.Forall_impl; [|exact Hmk]; by left].
      rewrite Forall_forall in H14 |- *. intros x Hx E0.
      destruct (H14 x Hx E0) as [?|[= Exp]]; [by left|].
      assert (x = pl) as -> by (pose proof (find_proclock_spec l p x H1 Hx (eq_sym Exp));
        pose proof (find_proclock_spec l p pl H1 Hpl Hp); congruence). done.
  - apply find_proclock_None in E. unfold others_only in E. rewrite Forall_forall in E.
    destruct Hwf as [H1 H2 H3 H4 H5 H6 H7 H8 H9 H10 H11 H12 H13 H14 _ _ _].
    split; try done; [|eapply List.Forall_impl; [|exact Hmk]; by left].
    rewrite Forall_forall in H14 |- *. intros x Hx E0.
    destruct (H14 x Hx E0) as [?|[= Exp]]; [by left|]. by destruct (E x Hx).
Qed.

(** *** Releasing *)

Lemma exclusive_shrink l l' :
  tag l' = tag l -> (forall q i, lock_holds l' q i -> lock_holds l q i) -> exclusive l -> exclusive l'.
Proof.
  intros Ht Hl He p q m m' Hs H1 H2. unfold separate in Hs. rewrite Ht in Hs. apply (He p q); auto.
Qed.

Lemma lock_holds_ungrant l p m q i :
  mode_ok m -> lock_holds (UnGrantLock lmt l m p).1 q i <-> lock_holds l q i /\ ~ (q = p /\ i = m).
Proof.
  intros Hm. unfold lock_holds, UnGrantLock. cbn [fst procLocks]. fold (release_hold m).
  setoid_rewrite elem_of_update_proclock. split.
  - intros (pl & [[H1 H2]|(pl1 & H1 & H2 & ->)] & Hq & Hh).
    + split; [eauto|]. intros [-> _]. done.
    + apply (holds_release m pl1 i Hm) in Hh as [Hh Hne]. split; [eauto|]. by intros [_ ?].
  - intros ((pl & H1 & H2 & H3) & Hn). destruct (decide (myProc pl = p)) as [E|E].
    + exists (release_hold m pl). split; [eauto|]. split; [done|]. apply holds_release; [done|].
      split; [done|]. intros ->. apply Hn. by subst.
    + exists pl. auto.
Qed.

(** A release that needs no wakeup leaves every waiter blocked. *)
Lemma ungrant_blocked pend l p m :
  lock_wf pend l -> mode_ok m -> queue_blocked l (waitProcs l) -> (UnGrantLock lmt l m p).2 = false ->
  queue_blocked (UnGrantLock lmt l m p).1 (waitProcs l).
Proof.
  intros Hwf Hm Hq Hnw q1 w q2 E. destruct (Hq q1 w q2 E) as [?|(q & i & Hs & Hi & Hc & Hh)]; [by left|].
  right. exists q, i. split; [done|]. split; [done|]. split; [done|].
  apply lock_holds_ungrant; [done|]. split; [done|]. intros [-> ->].
  cbn in Hnw. apply negb_false_iff, Z.eqb_eq in Hnw.
  assert (Hw : w ∈ waitProcs l) by (rewrite E; set_solver).
  pose proof (wf_waiters _ _ Hwf) as H. rewrite Forall_forall in H. destruct (H w Hw) as (Hmw & _).
  assert (Hf : (Z.land (conflict lmt m) (waitMask l) =? 0) = false); [|by rewrite Hnw in Hf].
  apply conflict_meets; [done|done|]. exists (waitLockMode w). split; [done|].
  split; [by apply conflicts_sym|]. apply (wf_waitMask _ _ Hwf); [done|]. left.
  apply wait_count_pos. eauto.
Qed.

(** The outcome of an operation that ends in [CleanUpLock]: the object is gone
    because nobody holds or awaits it, or it satisfies the invariant again and
    the woken processes got what they waited for. *)
Definition cleaned (l : LOCK) (r : option LOCK) (woken : list ProcNumber) : Prop :=
  match r with
  | None => woken = [] /\ waitProcs l = [] /\ forall p m, ~ lock_holds l p m
  | Some l' => lock_inv l' /\ 0 < nRequested l' /\ tag l' = tag l /\
      waitProcs l' = filter (fun w => procNumber w ∉ woken) (waitProcs l) /\
      (forall p, p ∈ woken -> p ∈ procNumber <$> waitProcs l) /\
      forall p m, lock_holds l' p m <-> lock_holds l p m \/
        (p ∈ woken /\ exists w, w ∈ waitProcs l /\ procNumber w = p /\ waitLockMode w = m)
  end.

Lemma nRequested_zero pend l :
  lock_wf pend l -> nRequested l = 0 -> waitProcs l = [] /\ forall p m, ~ lock_holds l p m.
Proof.
  intros Hwf E. rewrite (wf_nRequested _ _ Hwf), (wf_nGranted _ _ Hwf) in E.
  pose proof (sumZ_nonneg (held_count (procLocks l)) (lockmodes lmt)
    ltac:(intros; apply held_count_nonneg)).
  assert (0 <= pend_total pend) by (by destruct pend). split.
  - apply nil_length_inv. lia.
  - intros p m Hh. pose proof (lock_holds_mode _ _ _ _ Hwf Hh) as Hm.
    assert (Hz : sumZ (held_count (procLocks l)) (lockmodes lmt) = 0) by lia.
    rewrite sumZ_zero in Hz by (intros; apply held_count_nonneg).
    specialize (Hz m ltac:(by apply lockmodes_spec)). destruct Hh as (pl & ? & _ & ?).
    assert (0 < held_count (procLocks l) m) by (apply held_count_pos; eauto). lia.
Qed.

Lemma nRequested_nonneg pend l : lock_wf pend l -> 0 <= nRequested l.
Proof.
  intros Hwf. rewrite (wf_nRequested _ _ Hwf), (wf_nGranted _ _ Hwf).
  pose proof (sumZ_nonneg (held_count (procLocks l)) (lockmodes lmt)
    ltac:(intros; apply held_count_nonneg)).
  assert (0 <= pend_total pend) by (by destruct pend). lia.
Qed.

Lemma CleanUpLock_spec MyProc l p wakeupNeeded :
  lock_wf (Releasing p) l -> Forall (fun pl => releaseMask pl = 0) (procLocks l) -> exclusive l -> (wakeupNeeded = false -> queue_blocked l (waitProcs l)) ->
  exists r woken, CleanUpLock lmt lockGroupLeader MyProc l p wakeupNeeded = Ok (r, woken) /\
    cleaned l r woken.
Proof.
  intros Hwf Hmk He Hb. unfold CleanUpLock. set (d := drop_idle_proclock p l).
  pose proof (drop_idle_wf l p Hwf Hmk) as Hd. fold d in Hd.
  pose proof (fun q i => drop_idle_holds l p q i (wf_proclocks _ _ Hwf)) as Hh. fold d in Hh.
  assert (Hs : tag d = tag l /\ waitProcs d = waitProcs l).
  { unfold d, drop_idle_proclock. destruct (find_proclock l p) as [pl|]; [|done]. by destruct (_ =? 0). }
  destruct Hs as [Ht Hq].
  assert (Hed : exclusive d) by (eapply exclusive_shrink; [done| |done]; intros q i; apply Hh).
  pose proof (nRequested_nonneg _ _ Hd).
  destruct (Z.eqb_spec (nRequested d) 0) as [E|E].
  { exists None, []. split; [done|]. destruct (nRequested_zero _ _ Hd E) as [H1 H2].
    split; [done|]. split; [congruence|]. intros q i. rewrite <- Hh. apply H2. }
  destruct wakeupNeeded.
  - destruct (ProcLockWakeup_spec MyProc d Hd Hed) as (l' & woken & -> & Hi & [W1 W2 W3 W4 W5 W6]).
    exists (Some l'), woken. split; [done|]. rewrite Hq in *. split; [done|]. split; [lia|].
    split; [congruence|]. split; [done|]. split; [done|]. intros q i. rewrite W6, Hh. done.
  - exists (Some d), []. split; [done|]. split.
    + split; [done|done|]. rewrite Hq. eapply queue_blocked_mono; [done| |by apply Hb].
      intros q i. apply Hh.
    + split; [lia|]. split; [done|]. split.
      * rewrite filter_all, Hq; [done|]. apply Forall_forall. set_solver.
      * split; [set_solver|]. intros q i. rewrite Hh. split; [auto|]. intros [?|[? _]]; [done|set_solver].
Qed.

(** The wait mask a withdrawn request leaves. *)
Definition cancel_mask (l : LOCK) (m : LOCKMODE) : LOCKMASK :=
  if aget (granted l) m =? aget (requested (add_requested m (-1) l)) m
  then Z.land (waitMask l) (LOCKBIT_OFF m) else waitMask l.

Lemma cancel_mask_ok l p m :
  lock_wf (Requesting p m) l -> mask_ok lmt (cancel_mask l m) /\
  forall i, mode_ok i -> Z.testbit (cancel_mask l m) i = true <-> 0 < wait_count (waitProcs l) i.
Proof.
  intros Hwf. destruct (wf_pend _ _ Hwf p m eq_refl) as (Hm & _).
  destruct (wf_waitMask _ _ Hwf) as [Hk Hmask]. pose proof (wf_requested_len _ _ Hwf) as Hrl.
  pose proof (mode_lt_modes lmt m Hm) as Hlt. pose proof (wait_count_nonneg (waitProcs l) m) as Hnn.
  unfold cancel_mask. cbn [add_requested requested]. rewrite aget_aset by (rewrite ?Hrl; lia).
  rewrite Z.eqb_refl, (wf_granted _ _ Hwf), (wf_requested _ _ Hwf) by done. cbn. rewrite Z.eqb_refl.
  destruct (Z.eqb_spec (held_count (procLocks l) m)
    (held_count (procLocks l) m + wait_count (waitProcs l) m + 1 + -1)) as [E|E].
  - split; [by apply mask_ok_clear|]. intros i Hi.
    rewrite (testbit_clear lmt), andb_true_iff, negb_true_iff, Z.eqb_neq by done.
    specialize (Hmask i Hi). cbn in Hmask. destruct (Z.eqb_spec m i); subst; intuition lia.
  - split; [done|]. intros i Hi. specialize (Hmask i Hi). cbn in Hmask.
    destruct (Z.eqb_spec m i); subst; intuition lia.
Qed.

Lemma settled_marks l : lock_wf Settled l -> Forall (fun pl => releaseMask pl = 0) (procLocks l).
Proof.
  intros Hwf. eapply List.Forall_impl; [|apply (wf_marks _ _ Hwf)]. by intros pl [?|?].
Qed.

Lemma RemoveFromWaitQueue_spec MyProc l w :
  lock_inv l -> w ∈ waitProcs l ->
  exists r woken,
    RemoveFromWaitQueue lmt lockGroupLeader MyProc l (procNumber w) (waitLockMode w) = Ok (r, woken) /\
    cleaned (remove_waiter (procNumber w) l) r woken.
Proof.
  intros [Hwf He _] Hw. pose proof (remove_waiter_wf l w Hwf Hw) as Hr.
  destruct (cancel_mask_ok _ _ _ Hr) as [Hk Hmask].
  pose proof (cancel_wf _ _ _ _ Hr Hk Hmask) as Hc.
  destruct (CleanUpLock_spec MyProc _ (procNumber w) true Hc) as (r & woken & E & Hcl); [| |done|].
  - apply (settled_marks l Hwf).
  - eapply exclusive_shrink; [| |exact He]; done.
  - exists r, woken. split; [|done]. rewrite <- E. unfold RemoveFromWaitQueue, cancel_mask. f_equal.
    cbn [add_requested granted]. by destruct (_ =? _).
Qed.

(** A queue in any other order: [ProcLockWakeup] settles it. *)
Lemma rearrange_queue_spec MyProc l order :
  lock_inv l -> order ≡ₚ waitProcs l ->
  exists l' woken, rearrange_queue lmt lockGroupLeader MyProc order l = Ok (l', woken) /\
    lock_inv l' /\ woken_from (set_waitProcs order l) l' woken.
Proof.
  intros [Hwf He _] Hperm. apply ProcLockWakeup_spec; [|done].
  assert (Hc : forall m, wait_count order m = wait_count (waitProcs l) m).
  { intros m. unfold wait_count. by rewrite Hperm. }
  destruct Hwf as [H1 H2 H3 H4 H5 H6 H7 H8 H9 H10 H11 H12 H13 H14 H15 H16 H17].
  split; cbn [set_waitProcs procLocks waitProcs requested granted nGranted nRequested grantMask waitMask]; try done.
  - intros m Hm. by rewrite Hc, H7.
  - by rewrite Hperm.
  - split; [apply H11|]. intros m Hm. rewrite Hc. by apply H11.
  - by rewrite Hperm.
  - by rewrite Hperm.
  - rewrite Forall_forall in H14 |- *. intros pl Hpl E. rewrite Hperm. by apply H14.
Qed.

(** *** Releasing the marked modes of a process *)

Lemma ungrant_marked_spec modes marks p l wk :
  lock_wf (Releasing p) l -> exclusive l -> (wk = false -> queue_blocked l (waitProcs l)) ->
  NoDup modes -> (forall m, m ∈ modes -> mode_ok m) ->
  (forall m, m ∈ modes -> Z.testbit marks m = true -> lock_holds l p m) ->
  let '(l', wk') := ungrant_marked lmt modes marks p l wk in
  lock_wf (Releasing p) l' /\ exclusive l' /\ (wk' = false -> queue_blocked l' (waitProcs l')) /\
  tag l' = tag l /\ waitProcs l' = waitProcs l /\
  forall q i, lock_holds l' q i <->
    lock_holds l q i /\ ~ (q = p /\ i ∈ modes /\ Z.testbit marks i = true).
Proof.
  revert l wk. induction modes as [|m modes IH]; intros l wk Hwf He Hb Hnd Hok Hm; cbn [ungrant_marked].
  { split; [done|]. split; [done|]. split; [done|]. split; [done|]. split; [done|]. set_solver. }
  apply NoDup_cons in Hnd as [Hni Hnd]. pose proof (Hok m ltac:(left)) as Hmo.
  rewrite (lockbit_zero lmt), negb_involutive by done. destruct (Z.testbit marks m) eqn:Em.
  - destruct (UnGrantLock lmt l m p) as [l1 w] eqn:Eu.
    assert (E1 : l1 = (UnGrantLock lmt l m p).1) by (by rewrite Eu).
    assert (E2 : w = (UnGrantLock lmt l m p).2) by (by rewrite Eu).
    assert (Hh : forall q i, lock_holds l1 q i <-> lock_holds l q i /\ ~ (q = p /\ i = m)).
    { intros q i. rewrite E1. by apply lock_holds_ungrant. }
    specialize (IH l1 (wk || w)). destruct (ungrant_marked _ _ _ _ _) as [l' wk'].
    destruct IH as (I1 & I2 & I3 & I4 & I5 & I6).
    + rewrite E1. apply ungrant_wf; [done|]. apply Hm; [left|done].
    + eapply exclusive_shrink; [|intros q i Hq; by apply Hh in Hq as [? _]|done]. by rewrite E1.
    + intros [-> ->]%orb_false_iff. rewrite E1.
      apply (ungrant_blocked _ l p m Hwf Hmo (Hb eq_refl) (eq_sym E2)).
    + done.
    + intros i Hi. apply Hok. by right.
    + intros i Hi Hbi. apply Hh. split; [apply Hm; [by right|done]|]. intros [_ ->]. done.
    + split; [done|]. split; [done|]. split; [done|]. rewrite I4, I5, E1. split; [done|]. split; [done|].
      intros q i. rewrite I6, Hh. setoid_rewrite elem_of_cons. split.
      * intros [[? H1] H2]. split; [done|]. intros (-> & [->|?] & ?); [by apply H1|by apply H2].
      * intros [? H1]. split; [split; [done|]|]; [intros [-> ->]; apply H1; auto|].
        intros (-> & ? & ?). apply H1. auto.
  - specialize (IH l wk Hwf He Hb Hnd). destruct (ungrant_marked _ _ _ _ _) as [l' wk'].
    destruct IH as (I1 & I2 & I3 & I4 & I5 & I6).
    + intros i Hi. apply Hok. by right.
    + intros i Hi. apply Hm. by right.
    + split; [done|]. split; [done|]. split; [done|]. split; [done|]. split; [done|].
      intros q i. rewrite I6. setoid_rewrite elem_of_cons. split; intros [? H1]; (split; [done|]).
      * intros (-> & [->|?] & ?); [congruence|]. by apply H1.
      * intros (-> & ? & ?). apply H1. auto.
Qed.

(** The PROCLOCK of [p] with the given release mask. *)
Definition set_marks (p : ProcNumber) (mask : LOCKMASK) (l : LOCK) : LOCK :=
  set_procLocks (update_proclock p (set_releaseMask mask) (procLocks l)) l.

Lemma held_count_set_marks p mask pls i :
  held_count (update_proclock p (set_releaseMask mask) pls) i = held_count pls i.
Proof.
  induction pls as [|pl pls IH]; [done|]. unfold update_proclock in *. cbn [map].
  rewrite !held_count_cons, IH. by destruct (myProc pl =? p).
Qed.

Lemma set_marks_wf l p mask : lock_wf (Releasing p) l -> lock_wf (Releasing p) (set_marks p mask l).
Proof.
  intros [H1 H2 H3 H4 H5 H6 H7 H8 H9 H10 H11 H12 H13 H14 H15 H16 H17].
  pose proof (held_count_set_marks p mask (procLocks l)) as Hc.
  split; cbn [set_marks set_procLocks procLocks waitProcs requested granted nGranted nRequested grantMask
    waitMask pend_count pend_total pend_proc]; try done.
  - by rewrite update_proclock_procs.
  - apply Forall_update_proclock; auto.
  - apply Forall_update_proclock; auto.
  - intros i Hi. rewrite Hc. auto.
  - intros i Hi. rewrite Hc. auto.
  - rewrite H8. apply sumZ_ext. intros i _. by rewrite Hc.
  - split; [apply H10|]. intros i Hi. rewrite Hc. by apply H10.
  - rewrite Forall_forall in H13 |- *. intros w Hw. apply waiter_ok_update; [by apply H13|].
    intros <-. apply (H16 _ eq_refl). by apply list_elem_of_fmap_2.
  - apply Forall_update_proclock; auto.
  - apply Forall_update_proclock; [done|]. intros pl _ Hp _. right. cbn. by rewrite Hp.
Qed.

Lemma set_marks_holds l p mask q i : lock_holds (set_marks p mask l) q i <-> lock_holds l q i.
Proof.
  unfold lock_holds, set_marks. cbn. setoid_rewrite elem_of_update_proclock. split.
  - intros (pl & [[? ?]|(x & ? & ? & ->)] & ? & ?); eauto.
  - intros (pl & ? & ? & ?). destruct (decide (myProc pl = p)); [|eauto 6].
    exists (set_releaseMask mask pl). eauto 7.
Qed.

(** The lock without the modes [marks] of process [p]. *)
Definition without (l : LOCK) (p : ProcNumber) (marks : LOCKMASK) (l1 : LOCK) : Prop :=
  tag l1 = tag l /\ waitProcs l1 = waitProcs l /\
  forall q i, lock_holds l1 q i <-> lock_holds l q i /\ ~ (q = p /\ Z.testbit marks i = true).

Lemma release_proclock_spec MyProc (allLocks : bool) p l pl :
  lock_wf (Releasing p) l -> exclusive l -> queue_blocked l (waitProcs l) -> 0 < nRequested l ->
  pl ∈ procLocks l -> myProc pl = p ->
  (forall m, Z.testbit (releaseMask pl) m = true -> holds pl m) ->
  let marks := if allLocks then holdMask pl else releaseMask pl in
  exists l1 r woken, release_proclock lmt lockGroupLeader MyProc allLocks p l = Ok (r, woken) /\
    without l p marks l1 /\ cleaned l1 r woken.
Proof.
  intros Hwf He Hb Hr Hpl Hp Hsub marks. unfold release_proclock.
  rewrite (find_proclock_spec l p pl (wf_proclocks _ _ Hwf) Hpl Hp). fold marks.
  assert (Hmarks : forall m, Z.testbit marks m = true -> lock_holds l p m).
  { unfold marks. intros m Hm. exists pl. split; [done|]. split; [done|]. destruct allLocks; auto. }
  destruct ((marks =? 0) && negb (holdMask pl =? 0)) eqn:E.
  - split_bool. apply Z.eqb_eq in H. exists l, (Some l), []. split; [done|]. split.
    { split; [done|]. split; [done|]. intros q i. rewrite H, Z.bits_0. split; [|by intros []]. intros ?. split; [done|]. by intros [_ ?]. }
    split; [|split; [done|split; [done|]]].
    + split; [|done|done]. destruct Hwf as [H1 H2 H3 H4 H5 H6 H7 H8 H9 H10 H11 H12 H13 H14 H15 H16 H17].
      assert (Hone : forall x, x ∈ procLocks l -> myProc x = p -> x = pl).
      { intros x Hx Ex. pose proof (find_proclock_spec l p x H1 Hx Ex).
        pose proof (find_proclock_spec l p pl H1 Hpl Hp). congruence. }
      split; try done; rewrite Forall_forall in *; intros x Hx.
      * intros E0. destruct (H14 x Hx E0) as [?|[= Ex]]; [by left|]. rewrite (Hone x Hx (eq_sym Ex)) in E0.
        by rewrite E0 in H0.
      * destruct (H17 x Hx) as [?|[= Ex]]; [by left|]. rewrite (Hone x Hx (eq_sym Ex)). left.
        unfold marks in H. destruct allLocks; [|done]. by rewrite H in H0.
    + rewrite filter_all; [|apply Forall_forall; set_solver]. split; [done|]. split; [set_solver|].
      intros q i. split; [auto|]. intros [?|[? _]]; [done|set_solver].
  - clear E. pose proof (ungrant_marked_spec (lockmodes lmt) marks p l false Hwf He (fun _ => Hb)
      (lockmodes_NoDup lmt) ltac:(intros m; by rewrite lockmodes_spec) ltac:(auto)) as Hu.
    destruct (ungrant_marked _ _ _ _ _ _) as [l1 wk]. destruct Hu as (U1 & U2 & U3 & U4 & U5 & U6).
    fold (set_marks p 0 l1). set (l2 := set_marks p 0 l1).
    destruct (CleanUpLock_spec MyProc l2 p wk) as (r & woken & Ec & Hc).
    + by apply set_marks_wf.
    + pose proof (wf_marks _ _ U1) as Hmk. rewrite Forall_forall in Hmk |- *.
      intros x [[Hx Hne]|(y & ? & ? & ->)]%elem_of_update_proclock; [|done].
      destruct (Hmk x Hx) as [?|[= ?]]; [done|congruence].
    + eapply exclusive_shrink; [| |exact U2]; [done|]. intros q i. by apply set_marks_holds.
    + intros Hwk. eapply queue_blocked_mono; [| |by apply U3]; [done|]. intros q i. by apply set_marks_holds.
    + exists l2, r, woken. split; [done|]. split; [|done]. split; [done|]. split; [done|].
      intros q i. unfold l2. rewrite set_marks_holds, U6. split; intros [? Hn]; (split; [done|]);
        intros H'; apply Hn; [|tauto]. destruct H' as [-> Hi]. split; [done|]. split; [|done].
      apply lockmodes_spec. by eapply lock_holds_mode; [exact Hwf|apply Hmarks].
Qed.

(** Before a release: nothing is marked yet. *)
Lemma settled_releasing l p :
  lock_wf Settled l -> p ∉ procNumber <$> waitProcs l -> lock_wf (Releasing p) l.
Proof.
  intros [F1 F2 F3 F4 F5 F6 F7 F8 F9 F10 F11 F12 F13 F14 F15 F16 F17] Hq. split; try done.
  - eapply List.Forall_impl; [|exact F14]. intros x Hx E0. destruct (Hx E0); [by left|done].
  - by intros ? [= <-].
  - eapply List.Forall_impl; [|exact F17]. by intros x [?|?]; left.
Qed.

(** [UnGrantLock] and [CleanUpLock]: one mode of a process is released. *)
Lemma release_mode_spec MyProc l p m :
  lock_inv l -> p ∉ procNumber <$> waitProcs l -> lock_holds l p m ->
  let '(l1, wakeupNeeded) := UnGrantLock lmt l m p in
  tag l1 = tag l /\ waitProcs l1 = waitProcs l /\
  (forall q i, lock_holds l1 q i <-> lock_holds l q i /\ ~ (q = p /\ m = i)) /\
  exists r woken, CleanUpLock lmt lockGroupLeader MyProc l1 p wakeupNeeded = Ok (r, woken) /\ cleaned l1 r woken.
Proof.
  intros [Hwf He Hb] Hq Hh. pose proof (lock_holds_mode _ _ _ _ Hwf Hh) as Hm.
  pose proof (settled_releasing l p Hwf Hq) as Hr. destruct (UnGrantLock lmt l m p) as [l1 wk] eqn:Eu.
  assert (E1 : l1 = (UnGrantLock lmt l m p).1) by (by rewrite Eu).
  assert (E2 : wk = (UnGrantLock lmt l m p).2) by (by rewrite Eu). clear Eu.
  assert (Hh1 : forall q i, lock_holds l1 q i <-> lock_holds l q i /\ ~ (q = p /\ m = i)).
  { intros q i. rewrite E1, lock_holds_ungrant by done. naive_solver. }
  split; [by rewrite E1|]. split; [by rewrite E1|]. split; [done|]. apply CleanUpLock_spec.
  - rewrite E1. by apply ungrant_wf.
  - rewrite E1. apply Forall_update_proclock; [|done]. by apply settled_marks.
  - eapply exclusive_shrink; [|intros q i Hx; by apply Hh1 in Hx as [? _]|exact He]. by rewrite E1.
  - intros Ew. rewrite Ew in E2. rewrite E1. by apply (ungrant_blocked Settled l p m).
Qed.

End Invariant.
