(* ===== verification/LockTable.v ===== *)
(** * The lock manager: lock tables and backends

    The lock table shared by all backends and the local lock table of each
    backend, [src/src/backend/storage/lmgr/lock.c] and [proc.c]: [LockAcquire],
    the end of a lock wait, [LockErrorCleanup], [LockRelease], [LockReleaseAll],
    [LockReleaseSession], [LockReleaseCurrentOwner] and [ProcReleaseLocks], for
    every lock that does not use the relation fast path.

    - [LockState]: the table of [LOCK]s by tag, and for each backend its
      [LOCALLOCK]s by tag and mode, the wait fields of its [PGPROC] and the lock
      it awaits. An operation is a [ST LockState] computation of the backend
      [MyProc]; a lock wait is split into the call that falls asleep and the call
      that notices how the wait ended, with any calls of other backends between.
    - [lock_call] is the interface of the lock manager; [reachable] closes the
      empty tables under the calls the backends can make.
    - Theorems, for all reachable states: shared and local tables agree, no two
      lock groups hold conflicting modes, a waited-for object has a holder that
      blocks its first waiter, calls fail only with the errors of their contract,
      and the end of a transaction releases exactly its transaction-level locks. *)

From S2P Require Import Prelude LockObject.
From stdpp Require Import gmap.
#[local] Open Scope Z_scope.

(** ** Data *)

Definition locktag_type_code (t : LockTagType) : nat :=
  match t with
  | LOCKTAG_RELATION => 0 | LOCKTAG_RELATION_EXTEND => 1 | LOCKTAG_DATABASE_FROZEN_IDS => 2
  | LOCKTAG_PAGE => 3 | LOCKTAG_TUPLE => 4 | LOCKTAG_TRANSACTION => 5
  | LOCKTAG_VIRTUALTRANSACTION => 6 | LOCKTAG_SPECULATIVE_TOKEN => 7 | LOCKTAG_OBJECT => 8
  | LOCKTAG_USERLOCK => 9 | LOCKTAG_ADVISORY => 10 | LOCKTAG_APPLY_TRANSACTION => 11
  end%nat.

Definition locktag_type_of (n : nat) : LockTagType :=
  match n with
  | 0 => LOCKTAG_RELATION | 1 => LOCKTAG_RELATION_EXTEND | 2 => LOCKTAG_DATABASE_FROZEN_IDS
  | 3 => LOCKTAG_PAGE | 4 => LOCKTAG_TUPLE | 5 => LOCKTAG_TRANSACTION
  | 6 => LOCKTAG_VIRTUALTRANSACTION | 7 => LOCKTAG_SPECULATIVE_TOKEN | 8 => LOCKTAG_OBJECT
  | 9 => LOCKTAG_USERLOCK | 10 => LOCKTAG_ADVISORY | _ => LOCKTAG_APPLY_TRANSACTION
  end%nat.

#[export] Instance LockTagType_countable : Countable LockTagType.
Proof. apply (inj_countable' locktag_type_code locktag_type_of). by intros []. Defined.

#[export] Instance LOCKTAG_countable : Countable LOCKTAG.
Proof.
  apply (inj_countable'
    (fun t => (locktag_field1 t, locktag_field2 t, locktag_field3 t, locktag_field4 t,
               locktag_type t, locktag_lockmethodid t))
    (fun '(a, b, c, d, e, f) => mkLOCKTAG a b c d e f)). by intros [].
Defined.

Abbreviation ResourceOwner := Z.

(** A NULL owner is the session. *)
Record LOCALLOCKOWNER := mkLOCALLOCKOWNER {
  owner : option ResourceOwner;
  owner_nLocks : Z
}.

(** The lock and proclock pointers of a LOCALLOCK are the entries of its tag in
    the shared tables; [lockOwners] has [numLockOwners] elements. *)
Record LOCALLOCK := mkLOCALLOCK {
  nLocks : Z;
  lockOwners : list LOCALLOCKOWNER;
  lockCleared : bool
}.

Abbreviation LOCALLOCKTAG := (LOCKTAG * LOCKMODE)%type.

Record Backend := mkBackend {
  LockMethodLocalHash : gmap LOCALLOCKTAG LOCALLOCK;
  waitLock : option LOCALLOCKTAG;
  waitStatus : ProcWaitStatus;
  awaitedLock : option (LOCALLOCKTAG * option ResourceOwner)
}.

Record LockState := mkLockState {
  LockMethodLockHash : gmap LOCKTAG LOCK;
  backends : gmap ProcNumber Backend
}.

Inductive LockAcquireResult :=
  | LOCKACQUIRE_NOT_AVAIL
  | LOCKACQUIRE_OK
  | LOCKACQUIRE_ALREADY_HELD
  | LOCKACQUIRE_ALREADY_CLEAR.

#[export] Instance LockAcquireResult_eq_dec : EqDecision LockAcquireResult.
Proof. solve_decision. Defined.

(** [LockAcquire] returns, or the backend goes to sleep in [ProcSleep]. *)
Inductive acquire_outcome :=
  | Returned (r : LockAcquireResult)
  | Asleep.

Definition new_backend : Backend := mkBackend ∅ None PROC_WAIT_STATUS_OK None.
Definition empty_state : LockState := mkLockState ∅ ∅.

Definition backend (s : LockState) (p : ProcNumber) : Backend := default new_backend (backends s !! p).

Definition set_backend (p : ProcNumber) (b : Backend) (s : LockState) : LockState :=
  mkLockState (LockMethodLockHash s) (<[p := b]> (backends s)).

Definition set_locks (locks : gmap LOCKTAG LOCK) (s : LockState) : LockState :=
  mkLockState locks (backends s).

(** Store a lock object, or remove it from the table. *)
Definition put_lock (t : LOCKTAG) (r : option LOCK) (s : LockState) : LockState :=
  set_locks (partial_alter (fun _ => r) t (LockMethodLockHash s)) s.

(** Store a local lock, or remove it ([RemoveLocalLock]). *)
Definition set_local (p : ProcNumber) (key : LOCALLOCKTAG) (r : option LOCALLOCK) (s : LockState)
    : LockState :=
  let b := backend s p in
  set_backend p (mkBackend (partial_alter (fun _ => r) key (LockMethodLocalHash b)) (waitLock b)
                   (waitStatus b) (awaitedLock b)) s.

Definition set_wait (p : ProcNumber) (wl : option LOCALLOCKTAG) (st : ProcWaitStatus)
    (aw : option (LOCALLOCKTAG * option ResourceOwner)) (s : LockState) : LockState :=
  set_backend p (mkBackend (LockMethodLocalHash (backend s p)) wl st aw) s.

(** [ProcWakeup(proc, PROC_WAIT_STATUS_OK)] for each process. *)
Definition ProcWakeup (woken : list ProcNumber) (s : LockState) : LockState :=
  foldr (fun p s => set_wait p None PROC_WAIT_STATUS_OK (awaitedLock (backend s p)) s) s woken.

Definition new_locallock : LOCALLOCK := mkLOCALLOCK 0 [] false.

(** ** Owners of a local lock *)

Fixpoint grant_owner (o : option ResourceOwner) (slots : list LOCALLOCKOWNER) : list LOCALLOCKOWNER :=
  match slots with
  | [] => [mkLOCALLOCKOWNER o 1]
  | s :: slots' =>
      if bool_decide (owner s = o) then mkLOCALLOCKOWNER (owner s) (owner_nLocks s + 1) :: slots'
      else s :: grant_owner o slots'
  end.

Definition GrantLockLocal (ll : LOCALLOCK) (o : option ResourceOwner) : LOCALLOCK :=
  mkLOCALLOCK (nLocks ll + 1) (grant_owner o (lockOwners ll)) (lockCleared ll).

(** [for (i = numLockOwners - 1; i >= 0; i--) if (lockOwners[i].owner == owner)] *)
Fixpoint find_owner (o : option ResourceOwner) (slots : list LOCALLOCKOWNER) : option nat :=
  match slots with
  | [] => None
  | s :: slots' =>
      match find_owner o slots' with
      | Some i => Some (S i)
      | None => if bool_decide (owner s = o) then Some O else None
      end
  end.

(** Compact out an unused slot: the last slot takes its place. *)
Definition drop_slot (i : nat) (slots : list LOCALLOCKOWNER) : list LOCALLOCKOWNER :=
  let n := (length slots - 1)%nat in
  match slots !! n with
  | Some s => take n (if (i <? n)%nat then <[i := s]> slots else slots)
  | None => slots
  end.

(** One lock less for an owner; [None] when the owner has no slot. *)
Definition release_owner (o : option ResourceOwner) (slots : list LOCALLOCKOWNER)
    : option (list LOCALLOCKOWNER) :=
  match find_owner o slots with
  | None => None
  | Some i =>
      match slots !! i with
      | None => None
      | Some s =>
          if owner_nLocks s - 1 =? 0 then Some (drop_slot i slots)
          else Some (<[i := mkLOCALLOCKOWNER (owner s) (owner_nLocks s - 1)]> slots)
      end
  end.

(** ** Operations *)

(** What an operation reads besides the lock tables: the current resource owner,
    whether the server is in recovery (and this is not the startup process), and
    whether the shared hash tables have room for a new LOCK and a new PROCLOCK. *)
Record lock_env := mkEnv {
  CurrentResourceOwner : ResourceOwner;
  RecoveryInProgress : bool;
  lock_room : bool;
  proclock_room : bool
}.

(** Relation locks, which may be taken through the fast path. *)
Definition uses_fast_path (t : LOCKTAG) : bool :=
  (locktag_lockmethodid t =? DEFAULT_LOCKMETHOD) && bool_decide (locktag_type t = LOCKTAG_RELATION).

Section Operations.

Variable lockGroupLeader : ProcNumber -> option ProcNumber.
Variable MyProc : ProcNumber.
Variable env : lock_env.

Definition lock_owner (sessionLock : bool) : option ResourceOwner :=
  if sessionLock then None else Some (CurrentResourceOwner env).

(** The end of [SetupLockInTable]: the request is counted. *)
Definition count_request (locktag : LOCKTAG) (lockmode : LOCKMODE) (lock : LOCK) (locks : gmap LOCKTAG LOCK)
    : result bool * gmap LOCKTAG LOCK :=
  let lock := add_requested lockmode 1 lock in
  let locks := <[locktag := lock]> locks in
  match find_proclock lock MyProc with
  | Some proclock =>
      if negb (Z.land (holdMask proclock) (LOCKBIT_ON lockmode) =? 0)
      then (ereport ERRCODE_INTERNAL_ERROR "lock %s on object %u/%u/%u is already held", locks)
      else (Ok true, locks)
  | None => (Ok true, locks)
  end.

(** The lock object is found or new: find or create the PROCLOCK. *)
Definition setup_proclock (locktag : LOCKTAG) (lockmode : LOCKMODE) (lock : LOCK) (locks : gmap LOCKTAG LOCK)
    : result bool * gmap LOCKTAG LOCK :=
  match find_proclock lock MyProc with
  | Some _ => count_request locktag lockmode lock locks
  | None =>
      if proclock_room env
      then count_request locktag lockmode (enter_proclock lockGroupLeader MyProc lock) locks
      else if nRequested lock =? 0 then (Ok false, delete locktag locks)
      else (Ok false, <[locktag := lock]> locks)
  end.

(** [Ok false]: no shared memory. *)
Definition SetupLockInTable (locktag : LOCKTAG) (lockmode : LOCKMODE) (locks : gmap LOCKTAG LOCK)
    : result bool * gmap LOCKTAG LOCK :=
  match locks !! locktag with
  | Some lock => setup_proclock locktag lockmode lock locks
  | None => if lock_room env then setup_proclock locktag lockmode (new_lock locktag) locks else (Ok false, locks)
  end.

(** Grant the request at once, or join the wait queue. *)
Definition grant_or_join (lmt : LockMethodData) (lock : LOCK) (lockmode : LOCKMODE) (dontWait : bool)
    : result (LOCK * ProcWaitStatus) :=
  match find_proclock lock MyProc with
  | None => ereport ERRCODE_INTERNAL_ERROR "proclock is NULL"
  | Some proclock =>
      (if negb (Z.land (conflict lmt lockmode) (waitMask lock) =? 0) then Ok true
       else LockCheckConflicts lmt lockGroupLeader MyProc lockmode lock proclock) ≫= fun found_conflict =>
      if negb found_conflict then Ok (GrantLock lock MyProc lockmode, PROC_WAIT_STATUS_OK)
      else JoinWaitQueue lmt lockGroupLeader MyProc lock lockmode dontWait
  end.

(** Undo the changes to the shared entries. *)
Definition abort_request (lock : LOCK) (lockmode : LOCKMODE) : LOCK :=
  add_requested lockmode (-1) (drop_idle_proclock MyProc lock).

Definition LockAcquireExtended (locktag : LOCKTAG) (lockmode : LOCKMODE)
    (sessionLock dontWait reportMemoryError : bool) : ST LockState acquire_outcome := fun s =>
  match LockMethods (locktag_lockmethodid locktag) with
  | None => (ereport ERRCODE_INTERNAL_ERROR "unrecognized lock method: %d", s)
  | Some lmt =>
      if (lockmode <=? 0) || (numLockModes lmt <? lockmode) then
        (ereport ERRCODE_INTERNAL_ERROR "unrecognized lock mode: %d", s)
      else if RecoveryInProgress env &&
              bool_decide (locktag_type locktag = LOCKTAG_OBJECT \/ locktag_type locktag = LOCKTAG_RELATION)
              && (RowExclusiveLock <? lockmode) then
        (ereport ERRCODE_OBJECT_NOT_IN_PREREQUISITE_STATE
           "cannot acquire lock mode %s on database objects while recovery is in progress", s)
      else
        let o := lock_owner sessionLock in
        let key := (locktag, lockmode) in
        let locallock := default new_locallock (LockMethodLocalHash (backend s MyProc) !! key) in
        let s := set_local MyProc key (Some locallock) s in
        if 0 <? nLocks locallock then
          (Ok (Returned (if lockCleared locallock then LOCKACQUIRE_ALREADY_CLEAR
                         else LOCKACQUIRE_ALREADY_HELD)),
           set_local MyProc key (Some (GrantLockLocal locallock o)) s)
        else
          match SetupLockInTable locktag lockmode (LockMethodLockHash s) with
          | (Err e, locks) => (Err e, set_locks locks s)
          | (Ok false, locks) =>
              let s := set_local MyProc key None (set_locks locks s) in
              if reportMemoryError then (ereport ERRCODE_OUT_OF_MEMORY "out of shared memory", s)
              else (Ok (Returned LOCKACQUIRE_NOT_AVAIL), s)
          | (Ok true, locks) =>
              let s := set_locks locks s in
              match locks !! locktag with
              | None => (ereport ERRCODE_INTERNAL_ERROR "lock is NULL", s)
              | Some lock =>
                  match grant_or_join lmt lock lockmode dontWait with
                  | Err e => (Err e, s)
                  | Ok (lock, PROC_WAIT_STATUS_OK) =>
                      (Ok (Returned LOCKACQUIRE_OK),
                       set_local MyProc key (Some (GrantLockLocal locallock o))
                         (put_lock locktag (Some lock) s))
                  | Ok (lock, PROC_WAIT_STATUS_ERROR) =>
                      let s := set_local MyProc key None
                                 (put_lock locktag (Some (abort_request lock lockmode)) s) in
                      if dontWait then (Ok (Returned LOCKACQUIRE_NOT_AVAIL), s)
                      else (ereport ERRCODE_T_R_DEADLOCK_DETECTED "deadlock detected", s)
                  | Ok (lock, PROC_WAIT_STATUS_WAITING) =>
                      (Ok Asleep,
                       set_wait MyProc (Some key) PROC_WAIT_STATUS_WAITING (Some (key, o))
                         (put_lock locktag (Some lock) s))
                  end
              end
          end
  end.

Definition LockAcquire (locktag : LOCKTAG) (lockmode : LOCKMODE) (sessionLock dontWait : bool)
    : ST LockState acquire_outcome :=
  LockAcquireExtended locktag lockmode sessionLock dontWait true.

(** [GrantAwaitedLock] *)
Definition GrantAwaitedLock (s : LockState) : LockState :=
  match awaitedLock (backend s MyProc) with
  | Some (key, o) =>
      match LockMethodLocalHash (backend s MyProc) !! key with
      | Some ll => set_local MyProc key (Some (GrantLockLocal ll o)) s
      | None => s
      end
  | None => s
  end.

Definition ResetAwaitedLock (s : LockState) : LockState :=
  set_wait MyProc (waitLock (backend s MyProc)) (waitStatus (backend s MyProc)) None s.

(** The end of a wait: [ProcSleep] and [WaitOnLock] return, [LockAcquire] records
    the grant or reports the deadlock. *)
Definition WaitOnLock_return : ST LockState acquire_outcome := fun s =>
  match waitStatus (backend s MyProc) with
  | PROC_WAIT_STATUS_OK => (Ok (Returned LOCKACQUIRE_OK), ResetAwaitedLock (GrantAwaitedLock s))
  | PROC_WAIT_STATUS_ERROR =>
      (ereport ERRCODE_T_R_DEADLOCK_DETECTED "deadlock detected", ResetAwaitedLock s)
  | PROC_WAIT_STATUS_WAITING => (Ok Asleep, s)
  end.

(** [RemoveFromWaitQueue(MyProc, ...)] *)
Definition leave_queue : ST LockState unit := fun s =>
  match waitLock (backend s MyProc) with
  | None => (Ok tt, s)
  | Some (t, m) =>
      match LockMethodLockHash s !! t, LockMethods (locktag_lockmethodid t) with
      | Some lock, Some lmt =>
          match RemoveFromWaitQueue lmt lockGroupLeader MyProc lock MyProc m with
          | Err e => (Err e, s)
          | Ok (r, woken) =>
              (Ok tt,
               ProcWakeup woken
                 (set_wait MyProc None PROC_WAIT_STATUS_ERROR (awaitedLock (backend s MyProc))
                    (put_lock t r s)))
          end
      | _, _ => (ereport ERRCODE_INTERNAL_ERROR "waitLock is NULL", s)
      end
  end.

(** [CheckDeadLock], when [DeadLockCheck] found a hard deadlock. *)
Definition CheckDeadLock_hard : ST LockState unit := leave_queue.

Definition LockErrorCleanup : ST LockState unit := fun s =>
  match awaitedLock (backend s MyProc) with
  | None => (Ok tt, s)
  | Some _ =>
      match waitLock (backend s MyProc) with
      | Some _ =>
          match leave_queue s with
          | (Err e, s) => (Err e, s)
          | (Ok _, s) => (Ok tt, ResetAwaitedLock s)
          end
      | None =>
          let s := if bool_decide (waitStatus (backend s MyProc) = PROC_WAIT_STATUS_OK)
                   then GrantAwaitedLock s else s in
          (Ok tt, ResetAwaitedLock s)
      end
  end.

(** [DeadLockCheck] found a soft deadlock: the queue of [t] in a new order. *)
Definition DeadLockCheck_soft (t : LOCKTAG) (order : list PGPROC) : ST LockState unit := fun s =>
  match LockMethodLockHash s !! t, LockMethods (locktag_lockmethodid t) with
  | Some lock, Some lmt =>
      match rearrange_queue lmt lockGroupLeader MyProc order lock with
      | Err e => (Err e, s)
      | Ok (lock, woken) => (Ok tt, ProcWakeup woken (put_lock t (Some lock) s))
      end
  | _, _ => (ereport ERRCODE_INTERNAL_ERROR "lock is NULL", s)
  end.

(** Release the shared lock: [UnGrantLock], [CleanUpLock] and [RemoveLocalLock].
    [Ok false]: the PROCLOCK does not hold the mode. *)
Definition release_shared (lmt : LockMethodData) (key : LOCALLOCKTAG) : ST LockState bool := fun s =>
  let '(locktag, lockmode) := key in
  match LockMethodLockHash s !! locktag with
  | None => (ereport ERRCODE_INTERNAL_ERROR "failed to re-find shared lock object", s)
  | Some lock =>
      match find_proclock lock MyProc with
      | None => (ereport ERRCODE_INTERNAL_ERROR "failed to re-find shared proclock object", s)
      | Some proclock =>
          if Z.land (holdMask proclock) (LOCKBIT_ON lockmode) =? 0 then
            (Ok false, set_local MyProc key None s)
          else
            let '(lock, wakeupNeeded) := UnGrantLock lmt lock lockmode MyProc in
            match CleanUpLock lmt lockGroupLeader MyProc lock MyProc wakeupNeeded with
            | Err e => (Err e, s)
            | Ok (r, woken) => (Ok true, set_local MyProc key None (ProcWakeup woken (put_lock locktag r s)))
            end
      end
  end.

Definition LockRelease (locktag : LOCKTAG) (lockmode : LOCKMODE) (sessionLock : bool)
    : ST LockState bool := fun s =>
  match LockMethods (locktag_lockmethodid locktag) with
  | None => (ereport ERRCODE_INTERNAL_ERROR "unrecognized lock method: %d", s)
  | Some lmt =>
      if (lockmode <=? 0) || (numLockModes lmt <? lockmode) then
        (ereport ERRCODE_INTERNAL_ERROR "unrecognized lock mode: %d", s)
      else
        let key := (locktag, lockmode) in
        match LockMethodLocalHash (backend s MyProc) !! key with
        | None => (Ok false, s)
        | Some ll =>
            if nLocks ll <=? 0 then (Ok false, s)
            else
              match release_owner (lock_owner sessionLock) (lockOwners ll) with
              | None => (Ok false, s)
              | Some owners =>
                  let n := nLocks ll - 1 in
                  if 0 <? n then
                    (Ok true, set_local MyProc key (Some (mkLOCALLOCK n owners (lockCleared ll))) s)
                  else
                    release_shared lmt key (set_local MyProc key (Some (mkLOCALLOCK n owners false)) s)
              end
        end
  end.

(** The session slot of [lockOwners], moved to position 0, or the slot that is
    there. *)
Definition session_slot (slots : list LOCALLOCKOWNER) : option LOCALLOCKOWNER :=
  match slots with
  | [] => None
  | s0 :: _ => Some (foldl (fun acc s => if bool_decide (owner s = None) then s else acc) s0 slots)
  end.

(** The first loop of [LockReleaseAll] on one LOCALLOCK: what remains of it, and
    whether its mode is marked for release in the PROCLOCK. *)
Definition release_local (lockmethodid : Z) (allLocks : bool) (key : LOCALLOCKTAG) (ll : LOCALLOCK)
    : option LOCALLOCK * bool :=
  if nLocks ll =? 0 then (None, false)
  else if negb (locktag_lockmethodid key.1 =? lockmethodid) then (Some ll, false)
  else
    match (if allLocks then None else session_slot (lockOwners ll)) with
    | Some s =>
        if bool_decide (owner s = None) && (0 <? owner_nLocks s)
        then (Some (mkLOCALLOCK (owner_nLocks s) [s] (lockCleared ll)), false)
        else (None, 0 <? nLocks ll)
    | None => (None, 0 <? nLocks ll)
    end.

(** [locallock->proclock->releaseMask |= LOCKBIT_ON(locallock->tag.mode)] *)
Definition mark_release (m : LOCKMODE) (lock : LOCK) : LOCK :=
  set_procLocks (update_proclock MyProc
    (fun pl => set_releaseMask (Z.lor (releaseMask pl) (LOCKBIT_ON m)) pl) (procLocks lock)) lock.

Definition release_local_entry (lockmethodid : Z) (allLocks : bool) (s : LockState)
    (entry : LOCALLOCKTAG * LOCALLOCK) : LockState :=
  let '(key, ll) := entry in
  let '(r, mark) := release_local lockmethodid allLocks key ll in
  let s := if mark then put_lock key.1 (mark_release key.2 <$> (LockMethodLockHash s !! key.1)) s else s in
  set_local MyProc key r s.

Definition release_locals (lockmethodid : Z) (allLocks : bool) (s : LockState) : LockState :=
  foldl (release_local_entry lockmethodid allLocks) s
    (map_to_list (LockMethodLocalHash (backend s MyProc))).

(** The second loop of [LockReleaseAll] on the PROCLOCK of one tag. *)
Definition release_tag (lmt : LockMethodData) (allLocks : bool) (t : LOCKTAG) : ST LockState unit := fun s =>
  match LockMethodLockHash s !! t with
  | None => (Ok tt, s)
  | Some lock =>
      match release_proclock lmt lockGroupLeader MyProc allLocks MyProc lock with
      | Err e => (Err e, s)
      | Ok (r, woken) => (Ok tt, ProcWakeup woken (put_lock t r s))
      end
  end.

Fixpoint release_tags (lmt : LockMethodData) (allLocks : bool) (ts : list LOCKTAG) : ST LockState unit :=
  match ts with
  | [] => mret tt
  | t :: ts' => release_tag lmt allLocks t ≫= fun _ => release_tags lmt allLocks ts'
  end.

(** The tags of my PROCLOCKs of the given lock method. The code visits them by
    partition and list position; objects are independent of each other, and the
    order is that of the table here. *)
Definition my_proclocks (lockmethodid : Z) (s : LockState) : list LOCKTAG :=
  filter (fun t => locktag_lockmethodid t = lockmethodid /\
            is_Some (LockMethodLockHash s !! t ≫= fun lock => find_proclock lock MyProc))
    (map_to_list (LockMethodLockHash s)).*1.

Definition LockReleaseAll (lockmethodid : Z) (allLocks : bool) : ST LockState unit := fun s =>
  match LockMethods lockmethodid with
  | None => (ereport ERRCODE_INTERNAL_ERROR "unrecognized lock method: %d", s)
  | Some lmt =>
      let s := release_locals lockmethodid allLocks s in
      release_tags lmt allLocks (my_proclocks lockmethodid s) s
  end.

(** The end of a transaction. *)
Definition ProcReleaseLocks (isCommit : bool) : ST LockState unit :=
  LockErrorCleanup ≫= fun _ =>
  LockReleaseAll DEFAULT_LOCKMETHOD (negb isCommit) ≫= fun _ =>
  LockReleaseAll USER_LOCKMETHOD false.

Definition ReleaseLockIfHeld (key : LOCALLOCKTAG) (sessionLock : bool) : ST LockState unit := fun s =>
  let o := lock_owner sessionLock in
  match LockMethodLocalHash (backend s MyProc) !! key with
  | None => (Ok tt, s)
  | Some ll =>
      match find_owner o (lockOwners ll) with
      | None => (Ok tt, s)
      | Some i =>
          match lockOwners ll !! i with
          | None => (Ok tt, s)
          | Some slot =>
              if owner_nLocks slot <? nLocks ll then
                (Ok tt, set_local MyProc key
                   (Some (mkLOCALLOCK (nLocks ll - owner_nLocks slot) (drop_slot i (lockOwners ll))
                            (lockCleared ll))) s)
              else
                let slots := <[i := mkLOCALLOCKOWNER (owner slot) 1]> (lockOwners ll) in
                match LockRelease key.1 key.2 sessionLock
                        (set_local MyProc key (Some (mkLOCALLOCK 1 slots (lockCleared ll))) s) with
                | (Err e, s) => (Err e, s)
                | (Ok _, s) => (Ok tt, s)
                end
          end
      end
  end.

Fixpoint release_if_held (keys : list LOCALLOCKTAG) (sessionLock : bool) : ST LockState unit :=
  match keys with
  | [] => mret tt
  | key :: keys' => ReleaseLockIfHeld key sessionLock ≫= fun _ => release_if_held keys' sessionLock
  end.

Definition LockReleaseSession (lockmethodid : Z) : ST LockState unit := fun s =>
  match LockMethods lockmethodid with
  | None => (ereport ERRCODE_INTERNAL_ERROR "unrecognized lock method: %d", s)
  | Some _ =>
      release_if_held
        (filter (fun key => locktag_lockmethodid key.1 = lockmethodid)
           (map_to_list (LockMethodLocalHash (backend s MyProc))).*1) true s
  end.

(** With the locks of the hash table ([locallocks] is NULL). *)
Definition LockReleaseCurrentOwner : ST LockState unit := fun s =>
  release_if_held (map_to_list (LockMethodLocalHash (backend s MyProc))).*1 false s.

Definition LockHeldByMe (locktag : LOCKTAG) (lockmode : LOCKMODE) (orstronger : bool) (s : LockState) : bool :=
  let held m := match LockMethodLocalHash (backend s MyProc) !! (locktag, m) with
                | Some ll => 0 <? nLocks ll
                | None => false
                end in
  held lockmode ||
  (orstronger && existsb held (seqZ (lockmode + 1) (MaxLockMode - lockmode))).

End Operations.

(** ** Calls of the lock manager and reachable states *)

Inductive lock_call :=
  | CallAcquire (t : LOCKTAG) (m : LOCKMODE) (sessionLock dontWait reportMemoryError : bool)
  | CallWaitReturn
  | CallDeadLock
  | CallSoftDeadLock (t : LOCKTAG) (order : list PGPROC)
  | CallErrorCleanup
  | CallRelease (t : LOCKTAG) (m : LOCKMODE) (sessionLock : bool)
  | CallReleaseLocks (isCommit : bool)
  | CallReleaseSession (lockmethodid : Z)
  | CallReleaseCurrentOwner.

Inductive call_result :=
  | Acquire (o : acquire_outcome)
  | Released (b : bool)
  | Done.

Definition exec (lockGroupLeader : ProcNumber -> option ProcNumber) (p : ProcNumber) (env : lock_env)
    (c : lock_call) : ST LockState call_result :=
  match c with
  | CallAcquire t m sessionLock dontWait reportMemoryError =>
      o ← LockAcquireExtended lockGroupLeader p env t m sessionLock dontWait reportMemoryError;
      mret (Acquire o)
  | CallWaitReturn => o ← WaitOnLock_return p; mret (Acquire o)
  | CallDeadLock => _ ← CheckDeadLock_hard lockGroupLeader p; mret Done
  | CallSoftDeadLock t order => _ ← DeadLockCheck_soft lockGroupLeader p t order; mret Done
  | CallErrorCleanup => _ ← LockErrorCleanup lockGroupLeader p; mret Done
  | CallRelease t m sessionLock =>
      b ← LockRelease lockGroupLeader p env t m sessionLock; mret (Released b)
  | CallReleaseLocks isCommit => _ ← ProcReleaseLocks lockGroupLeader p isCommit; mret Done
  | CallReleaseSession lockmethodid =>
      _ ← LockReleaseSession lockGroupLeader p env lockmethodid; mret Done
  | CallReleaseCurrentOwner => _ ← LockReleaseCurrentOwner lockGroupLeader p env; mret Done
  end.

(** A backend that waits for a lock runs nothing but the end of its wait, the
    deadlock check and the clean-up after an error. *)
Definition enabled (p : ProcNumber) (c : lock_call) (s : LockState) : Prop :=
  let b := backend s p in
  match c with
  | CallAcquire t _ _ _ _ => awaitedLock b = None /\ uses_fast_path t = false
  | CallWaitReturn => is_Some (awaitedLock b) /\ waitLock b = None
  | CallDeadLock => is_Some (waitLock b)
  | CallSoftDeadLock t order =>
      exists l, LockMethodLockHash s !! t = Some l /\ order ≡ₚ waitProcs l
  | CallErrorCleanup => True
  | CallRelease t _ _ => awaitedLock b = None /\ uses_fast_path t = false
  | CallReleaseLocks _ => True
  | CallReleaseSession _ => awaitedLock b = None
  | CallReleaseCurrentOwner => awaitedLock b = None
  end.

Inductive step (lockGroupLeader : ProcNumber -> option ProcNumber) : LockState -> LockState -> Prop :=
  | step_call p env c s r s' :
      enabled p c s -> exec lockGroupLeader p env c s = (r, s') -> step lockGroupLeader s s'.

(** The states the backends can reach from empty tables. *)
Definition reachable (lockGroupLeader : ProcNumber -> option ProcNumber) (s : LockState) : Prop :=
  rtc (step lockGroupLeader) empty_state s.

(** ** What the tables say *)

Definition table_holds (locks : gmap LOCKTAG LOCK) (p : ProcNumber) (t : LOCKTAG) (m : LOCKMODE) : Prop :=
  exists l, locks !! t = Some l /\ lock_holds l p m.

Definition queue_waits (ws : list PGPROC) (p : ProcNumber) (m : LOCKMODE) : Prop :=
  exists w, w ∈ ws /\ procNumber w = p /\ waitLockMode w = m.

Definition table_waits (locks : gmap LOCKTAG LOCK) (p : ProcNumber) (t : LOCKTAG) (m : LOCKMODE) : Prop :=
  exists l, locks !! t = Some l /\ queue_waits (waitProcs l) p m.

(** The local table counts the lock. *)
Definition local_holds (b : Backend) (t : LOCKTAG) (m : LOCKMODE) : Prop :=
  exists ll, LockMethodLocalHash b !! (t, m) = Some ll /\ 0 < nLocks ll.

(** The backend was granted the lock it awaits and has not run since. *)
Definition unnoticed (b : Backend) (t : LOCKTAG) (m : LOCKMODE) : Prop :=
  waitLock b = None /\ waitStatus b = PROC_WAIT_STATUS_OK /\ exists o, awaitedLock b = Some ((t, m), o).

Definition knows (b : Backend) (t : LOCKTAG) (m : LOCKMODE) : Prop :=
  local_holds b t m \/ unnoticed b t m.

(** *** Owners *)

Definition owner_total (slots : list LOCALLOCKOWNER) : Z :=
  foldr (fun s acc => owner_nLocks s + acc) 0 slots.

(** How often an owner holds the lock. *)
Definition owner_count (o : option ResourceOwner) (slots : list LOCALLOCKOWNER) : Z :=
  foldr (fun s acc => (if bool_decide (owner s = o) then owner_nLocks s else 0) + acc) 0 slots.

Definition owners_ok (slots : list LOCALLOCKOWNER) : Prop :=
  NoDup (owner <$> slots) /\ Forall (fun s => 0 < owner_nLocks s) slots.

Record locallock_ok (ll : LOCALLOCK) : Prop := {
  ll_owners : owners_ok (lockOwners ll);
  ll_nLocks : nLocks ll = owner_total (lockOwners ll)
}.

Record backend_ok (b : Backend) : Prop := {
  bk_waiting : forall k, waitLock b = Some k ->
    waitStatus b = PROC_WAIT_STATUS_WAITING /\ exists o, awaitedLock b = Some (k, o);
  bk_status : waitLock b = None -> waitStatus b <> PROC_WAIT_STATUS_WAITING;
  bk_awaited : forall k o, awaitedLock b = Some (k, o) ->
    exists ll, LockMethodLocalHash b !! k = Some ll /\ nLocks ll = 0;
  bk_local : forall k ll, LockMethodLocalHash b !! k = Some ll -> locallock_ok ll
}.

(** Shared table and backends agree. *)
Record tables_agree (locks : gmap LOCKTAG LOCK) (bk : ProcNumber -> Backend) : Prop := {
  ag_backend : forall p, backend_ok (bk p);
  ag_waits : forall p t m, table_waits locks p t m <-> waitLock (bk p) = Some (t, m);
  ag_holds : forall p t m, table_holds locks p t m <-> knows (bk p) t m
}.

Definition locks_ok (lockGroupLeader : ProcNumber -> option ProcNumber) (locks : gmap LOCKTAG LOCK) : Prop :=
  forall t l, locks !! t = Some l ->
    tag l = t /\ 0 < nRequested l /\
    exists lmt, LockMethods (locktag_lockmethodid t) = Some lmt /\ lock_inv lmt lockGroupLeader l.

Record sys_ok (lockGroupLeader : ProcNumber -> option ProcNumber) (s : LockState) : Prop := {
  sys_locks : locks_ok lockGroupLeader (LockMethodLockHash s);
  sys_agree : tables_agree (LockMethodLockHash s) (backend s)
}.

(** *** Arithmetic of owners *)

Lemma owner_total_cons x slots : owner_total (x :: slots) = owner_nLocks x + owner_total slots.
Proof. done. Qed.

Lemma owner_count_cons o x slots :
  owner_count o (x :: slots) = (if bool_decide (owner x = o) then owner_nLocks x else 0) + owner_count o slots.
Proof. done. Qed.

#[export] Instance owner_total_perm : Proper ((≡ₚ) ==> eq) owner_total.
Proof.
  intros a b H. unfold owner_total, owner_count.
  induction H as [|x a b _ IH|x y a|a b c _ IH1 _ IH2]; simpl in *; lia.
Qed.

#[export] Instance owner_count_perm o : Proper ((≡ₚ) ==> eq) (owner_count o).
Proof.
  intros a b H. unfold owner_total, owner_count.
  induction H as [|x a b _ IH|x y a|a b c _ IH1 _ IH2]; simpl in *; lia.
Qed.

#[export] Instance owners_ok_perm : Proper ((≡ₚ) ==> iff) owners_ok.
Proof. intros a b H. unfold owners_ok. by rewrite H. Qed.

Lemma owner_count_absent o slots : o ∉ owner <$> slots -> owner_count o slots = 0.
Proof.
  induction slots as [|x slots IH]; [done|]. rewrite fmap_cons. intros H.
  rewrite owner_count_cons, bool_decide_eq_false_2, IH; set_solver.
Qed.

Lemma owner_total_nonneg slots : owners_ok slots -> 0 <= owner_total slots.
Proof.
  intros [_ H]. induction H as [|x slots Hx _ IH]; [done|]. rewrite owner_total_cons. lia.
Qed.

Lemma owner_total_zero slots : owners_ok slots -> owner_total slots = 0 <-> slots = [].
Proof.
  intros Hok. split; [|by intros ->]. destruct slots as [|x slots]; [done|]. rewrite owner_total_cons. intros E.
  destruct Hok as [[_ Hn]%NoDup_cons [Hx Hf]%Forall_cons].
  pose proof (owner_total_nonneg slots (conj Hn Hf)). lia.
Qed.

(** One slot of a table, and the table with the slot changed or dropped. *)
Lemma owner_slot i slots (x : LOCALLOCKOWNER) :
  slots !! i = Some x -> exists a b, slots = a ++ x :: b /\ i = length a.
Proof.
  intros Hi. exists (take i slots), (drop (S i) slots). split; [by rewrite take_drop_middle|].
  apply lookup_lt_Some in Hi. rewrite length_take. lia.
Qed.

Lemma insert_slot a (x y : LOCALLOCKOWNER) b : <[length a := y]> (a ++ x :: b) = a ++ y :: b.
Proof. rewrite insert_app_r_alt by done. by rewrite Nat.sub_diag. Qed.

Lemma drop_slot_perm a (x : LOCALLOCKOWNER) b : drop_slot (length a) (a ++ x :: b) ≡ₚ a ++ b.
Proof.
  unfold drop_slot. destruct b as [|y b _] using rev_ind.
  - rewrite length_app. cbn [length]. replace (length a + 1 - 1)%nat with (length a) by lia.
    rewrite list_lookup_middle, Nat.ltb_irrefl, take_app_length by done. by rewrite app_nil_r.
  - rewrite app_comm_cons, app_assoc, !length_app. cbn [length].
    replace (length a + S (length b) + 1 - 1)%nat with (length (a ++ x :: b)) by (rewrite length_app; cbn; lia).
    rewrite list_lookup_middle by done. destruct (Nat.ltb_spec (length a) (length (a ++ x :: b))) as [_|H].
    2:{ rewrite length_app in H. cbn in H. lia. }
    rewrite insert_app_l by (rewrite length_app; cbn; lia).
    rewrite take_app_length' by (by rewrite length_insert).
    rewrite insert_slot.
    by rewrite app_assoc, (Permutation_app_comm (a ++ b)), <- Permutation_middle.
Qed.

Lemma find_owner_Some o slots i :
  find_owner o slots = Some i -> exists x, slots !! i = Some x /\ owner x = o.
Proof.
  revert i. induction slots as [|y slots IH]; intros i; cbn; [done|].
  destruct (find_owner o slots) as [j|].
  - intros [= <-]. by apply IH.
  - case_bool_decide; [|done]. intros [= <-]. eauto.
Qed.

Lemma find_owner_None o slots : find_owner o slots = None <-> o ∉ owner <$> slots.
Proof.
  induction slots as [|y slots IH]; cbn; [set_solver|].
  destruct (find_owner o slots) as [j|].
  - split; [done|]. intros H. assert (Hn : o ∉ owner <$> slots) by set_solver. by apply IH in Hn.
  - assert (Hn : o ∉ owner <$> slots) by (by apply IH). case_bool_decide; set_solver.
Qed.

Lemma owners_ok_cons x slots :
  owners_ok (x :: slots) <-> owner x ∉ owner <$> slots /\ 0 < owner_nLocks x /\ owners_ok slots.
Proof. unfold owners_ok. rewrite fmap_cons, NoDup_cons, Forall_cons. tauto. Qed.

Lemma release_owner_spec o slots :
  owners_ok slots ->
  match release_owner o slots with
  | None => owner_count o slots = 0
  | Some slots' => owners_ok slots' /\ owner_total slots' = owner_total slots - 1 /\
      0 < owner_count o slots /\
      forall o', owner_count o' slots' = owner_count o' slots - (if bool_decide (o = o') then 1 else 0)
  end.
Proof.
  intros Hok. unfold release_owner. destruct (find_owner o slots) as [i|] eqn:E.
  2:{ by apply owner_count_absent, find_owner_None. }
  apply find_owner_Some in E as (x & Hx & Ho). rewrite Hx.
  destruct (owner_slot i slots x Hx) as (a & b & -> & ->).
  assert (Hp : a ++ x :: b ≡ₚ x :: (a ++ b)) by (symmetry; apply Permutation_middle).
  rewrite Hp in Hok. apply owners_ok_cons in Hok as (Hni & Hpos & Hrest).
  assert (Hc : forall o', owner_count o' (a ++ x :: b) =
    (if bool_decide (o = o') then owner_nLocks x else 0) + owner_count o' (a ++ b)).
  { intros o'. by rewrite Hp, owner_count_cons, Ho. }
  assert (Hz : owner_count o (a ++ b) = 0) by (rewrite <- Ho; by apply owner_count_absent).
  assert (Ht : owner_total (a ++ x :: b) = owner_nLocks x + owner_total (a ++ b)) by (by rewrite Hp).
  destruct (Z.eqb_spec (owner_nLocks x - 1) 0) as [E1|E1].
  - rewrite drop_slot_perm. split; [done|]. split; [lia|]. rewrite Hc, Hz, bool_decide_eq_true_2 by done.
    split; [lia|]. intros o'. rewrite drop_slot_perm, Hc. case_bool_decide; lia.
  - rewrite insert_slot. set (y := mkLOCALLOCKOWNER _ _).
    assert (Hq : a ++ y :: b ≡ₚ y :: (a ++ b)) by (symmetry; apply Permutation_middle).
    rewrite Hq, owners_ok_cons. split; [cbn; split; [done|split; [lia|done]]|].
    rewrite owner_total_cons, Ht. split; [cbn; lia|]. rewrite Hc, Hz, bool_decide_eq_true_2 by done.
    split; [lia|]. intros o'. rewrite Hq, owner_count_cons, Hc. cbn. rewrite Ho. case_bool_decide; lia.
Qed.

Lemma grant_owner_spec o slots :
  owners_ok slots ->
  owners_ok (grant_owner o slots) /\ owner_total (grant_owner o slots) = owner_total slots + 1 /\
  forall o', owner_count o' (grant_owner o slots) = owner_count o' slots + (if bool_decide (o = o') then 1 else 0).
Proof.
  induction slots as [|x slots IH]; intros Hok; cbn [grant_owner].
  - split; [split; [apply NoDup_singleton|by constructor]|]. split; [done|]. intros o'.
    rewrite owner_count_cons. cbn. case_bool_decide; lia.
  - apply owners_ok_cons in Hok as (Hni & Hpos & Hok). case_bool_decide as E.
    + rewrite owners_ok_cons, !owner_total_cons. cbn [owner owner_nLocks].
      split; [split; [done|split; [lia|done]]|]. split; [lia|]. intros o'. rewrite !owner_count_cons.
      cbn [owner owner_nLocks].
      rewrite E. case_bool_decide; lia.
    + destruct (IH Hok) as (IH1 & IH2 & IH3). rewrite owners_ok_cons. split.
      * split; [|done]. intros Hin. assert (H0 : owner_count (owner x) (grant_owner o slots) <> 0).
        { destruct IH1 as [Hn Hf]. apply list_elem_of_fmap in Hin as (y & Ey & Hy).
          apply list_elem_of_split in Hy as (a & b & Eab). rewrite Eab in *.
          rewrite <- Permutation_middle, owner_count_cons, bool_decide_eq_true_2 by done.
          rewrite <- Permutation_middle in Hn. cbn in Hn. apply NoDup_cons in Hn as [Hn _].
          rewrite owner_count_absent by (by rewrite Ey). apply Forall_app in Hf as [_ [Hf _]%Forall_cons]. lia. }
        rewrite IH3, bool_decide_eq_false_2, owner_count_absent in H0 by congruence. lia.
      * rewrite !owner_total_cons. split; [lia|]. intros o'. rewrite !owner_count_cons, IH3. lia.
Qed.

Lemma GrantLockLocal_ok ll o : locallock_ok ll -> locallock_ok (GrantLockLocal ll o).
Proof.
  intros [Ho Hn]. destruct (grant_owner_spec o _ Ho) as (H1 & H2 & _). split; [done|].
  unfold GrantLockLocal. cbn [nLocks lockOwners]. lia.
Qed.

Lemma nLocks_nonneg ll : locallock_ok ll -> 0 <= nLocks ll.
Proof. intros [Ho ->]. by apply owner_total_nonneg. Qed.

(** *** State access *)

(** The last of two assignments to a table entry counts. *)
Lemma alter_twice {K A} `{Countable K} (k : K) (a b : option A) (mp : gmap K A) :
  partial_alter (fun _ => a) k (partial_alter (fun _ => b) k mp) = partial_alter (fun _ => a) k mp.
Proof.
  apply map_eq. intros j. destruct (decide (j = k)) as [->|Hne].
  - by rewrite !lookup_partial_alter_eq.
  - by rewrite !lookup_partial_alter_ne.
Qed.

Lemma backend_set_same p b s : backend (set_backend p b s) p = b.
Proof. unfold backend, set_backend. cbn. by rewrite lookup_insert_eq. Qed.

Lemma backend_set_other p q b s : p <> q -> backend (set_backend p b s) q = backend s q.
Proof. intros H. unfold backend, set_backend. cbn. by rewrite lookup_insert_ne. Qed.

Lemma backend_put_lock t r s p : backend (put_lock t r s) p = backend s p.
Proof. done. Qed.

(** The backend after [ProcWakeup]. *)
Definition woken_backend (b : Backend) : Backend :=
  mkBackend (LockMethodLocalHash b) None PROC_WAIT_STATUS_OK (awaitedLock b).

Lemma backend_ProcWakeup woken s p :
  backend (ProcWakeup woken s) p = if bool_decide (p ∈ woken) then woken_backend (backend s p) else backend s p.
Proof.
  induction woken as [|q woken IH]; [done|]. cbn. fold (ProcWakeup woken s).
  unfold set_wait. destruct (decide (q = p)) as [->|Hne].
  - rewrite backend_set_same, bool_decide_eq_true_2 by set_solver. rewrite IH. by case_bool_decide.
  - rewrite backend_set_other, IH by done. repeat case_bool_decide; set_solver.
Qed.

Lemma locks_ProcWakeup woken s : LockMethodLockHash (ProcWakeup woken s) = LockMethodLockHash s.
Proof. induction woken as [|q woken IH]; [done|]. by cbn. Qed.

(** *** Agreement of the tables after a change of one lock object *)

Definition opt_holds (r : option LOCK) (p : ProcNumber) (m : LOCKMODE) : Prop :=
  match r with Some l => lock_holds l p m | None => False end.

Definition opt_waits (r : option LOCK) (p : ProcNumber) (m : LOCKMODE) : Prop :=
  match r with Some l => queue_waits (waitProcs l) p m | None => False end.

Lemma table_holds_alter locks t r p t' m :
  table_holds (partial_alter (fun _ => r) t locks) p t' m <->
  if bool_decide (t' = t) then opt_holds r p m else table_holds locks p t' m.
Proof.
  unfold table_holds. case_bool_decide as E.
  - subst. rewrite lookup_partial_alter_eq. destruct r as [l|]; cbn; [|naive_solver].
    split; [intros (? & [= <-] & ?); done|eauto].
  - by rewrite lookup_partial_alter_ne.
Qed.

Lemma table_waits_alter locks t r p t' m :
  table_waits (partial_alter (fun _ => r) t locks) p t' m <->
  if bool_decide (t' = t) then opt_waits r p m else table_waits locks p t' m.
Proof.
  unfold table_waits. case_bool_decide as E.
  - subst. rewrite lookup_partial_alter_eq. destruct r as [l|]; cbn; [|naive_solver].
    split; [intros (? & [= <-] & ?); done|eauto].
  - by rewrite lookup_partial_alter_ne.
Qed.

Lemma agree_ext locks locks' bk bk' :
  (forall t, locks !! t = locks' !! t) -> (forall p, bk p = bk' p) ->
  tables_agree locks bk -> tables_agree locks' bk'.
Proof.
  intros Hl Hb. apply map_eq in Hl as <-. intros [H1 H2 H3]. split; intros p; rewrite <- Hb; auto.
Qed.

(** One lock object changes to [r], and the backends to [bk']. *)
Lemma agree_update locks bk t r bk' :
  tables_agree locks bk ->
  (forall p, backend_ok (bk' p)) ->
  (forall p m, opt_waits r p m <-> waitLock (bk' p) = Some (t, m)) ->
  (forall p m, opt_holds r p m <-> knows (bk' p) t m) ->
  (forall p t' m, t' <> t -> waitLock (bk' p) = Some (t', m) <-> waitLock (bk p) = Some (t', m)) ->
  (forall p t' m, t' <> t -> knows (bk' p) t' m <-> knows (bk p) t' m) ->
  tables_agree (partial_alter (fun _ => r) t locks) bk'.
Proof.
  intros [H1 H2 H3] Hb Hw Hh Hw' Hh'. split; [done| |].
  - intros p t' m. rewrite table_waits_alter. case_bool_decide; [by subst|]. rewrite Hw' by done. auto.
  - intros p t' m. rewrite table_holds_alter. case_bool_decide; [by subst|]. rewrite Hh' by done. auto.
Qed.

(** The processes that [CleanUpLock] woke: off the queue, granted, not yet
    running. *)
Lemma agree_woken lmt leader locks bk t l1 r woken bk' :
  tables_agree (<[t := l1]> locks) bk -> cleaned lmt leader l1 r woken ->
  NoDup (procNumber <$> waitProcs l1) ->
  (forall p, bk' p = if bool_decide (p ∈ woken) then woken_backend (bk p) else bk p) ->
  tables_agree (partial_alter (fun _ => r) t (<[t := l1]> locks)) bk'.
Proof.
  intros Hag Hcl Hnd Hbk. pose proof Hag as [Hb Hw Hh].
  assert (Hq : forall p, p ∈ woken -> exists m o, queue_waits (waitProcs l1) p m /\
    waitLock (bk p) = Some (t, m) /\ awaitedLock (bk p) = Some ((t, m), o)).
  { intros p Hp. assert (Hin : p ∈ procNumber <$> waitProcs l1).
    { destruct r; [by apply Hcl|]. destruct Hcl as [-> _]. set_solver. }
    apply list_elem_of_fmap in Hin as (w & -> & Hin). exists (waitLockMode w).
    assert (E : waitLock (bk (procNumber w)) = Some (t, waitLockMode w)).
    { apply Hw. exists l1. rewrite lookup_insert_eq. split; [done|]. by exists w. }
    destruct (bk_waiting _ (Hb _) _ E) as (_ & o & ?). exists o. split; [by exists w|done]. }
  assert (Hl1w : forall p m, queue_waits (waitProcs l1) p m <-> waitLock (bk p) = Some (t, m)).
  { intros p m. rewrite <- Hw. unfold table_waits. rewrite lookup_insert_eq.
    split; [eauto|]. by intros (? & [= <-] & ?). }
  assert (Hl1h : forall p m, lock_holds l1 p m <-> knows (bk p) t m).
  { intros p m. rewrite <- Hh. unfold table_holds. rewrite lookup_insert_eq.
    split; [eauto|]. by intros (? & [= <-] & ?). }
  apply (agree_update _ bk); [done| | | | |].
  - intros p. rewrite Hbk. case_bool_decide as Hp; [|done]. destruct (Hb p) as [B1 B2 B3 B4]. by split.
  - intros p m. rewrite Hbk. destruct r as [l'|]; cbn.
    + destruct Hcl as (_ & _ & _ & -> & _). unfold queue_waits. setoid_rewrite list_elem_of_filter.
      case_bool_decide as Hp; cbn.
      * split; [|done]. by intros (w & [? _] & <- & _).
      * rewrite <- Hl1w. split; [intros (w & [_ ?] & ? & ?); by exists w|].
        intros (w & ? & <- & ?). by exists w.
    + destruct Hcl as (-> & Eq & _). rewrite bool_decide_eq_false_2 by set_solver.
      rewrite <- Hl1w, Eq. split; [done|]. intros (w & Hin & _). set_solver.
  - intros p m. rewrite Hbk. destruct r as [l'|]; cbn.
    + destruct Hcl as (_ & _ & _ & _ & _ & Hhold). rewrite Hhold, Hl1h. case_bool_decide as Hp.
      * destruct (Hq p Hp) as (m' & o & Hqw & Ewl & Eaw). unfold knows.
        assert (Hun : unnoticed (woken_backend (bk p)) t m <-> m = m').
        { unfold unnoticed. cbn. rewrite Eaw. naive_solver. }
        rewrite Hun. assert (Hn : ~ unnoticed (bk p) t m) by (intros (? & _); congruence).
        change (local_holds (woken_backend (bk p)) t m) with (local_holds (bk p) t m).
        fold (queue_waits (waitProcs l1) p m). rewrite Hl1w, Ewl. naive_solver.
      * split; [intros [?|[? _]]; done|auto].
    + destruct Hcl as (-> & _ & Hn). rewrite bool_decide_eq_false_2 by set_solver.
      rewrite <- Hl1h. split; [done|]. intros H. by destruct (Hn p m).
  - intros p t' m Hne. rewrite Hbk. case_bool_decide as Hp; [|done]. cbn.
    destruct (Hq p Hp) as (m' & o & _ & -> & _). split; [done|]. by intros [= ? ?].
  - intros p t' m Hne. rewrite Hbk. case_bool_decide as Hp; [|done].
    destruct (Hq p Hp) as (m' & o & _ & Ewl & Eaw). unfold knows, unnoticed. cbn. rewrite Ewl, Eaw.
    change (local_holds (woken_backend (bk p)) t' m) with (local_holds (bk p) t' m). naive_solver.
Qed.

(** ** Requests on one lock object *)

Section Requests.

Context (lmt : LockMethodData) `{!LockMethodOK lmt}.
Context (lockGroupLeader : ProcNumber -> option ProcNumber) `{!GroupsOK lockGroupLeader}.

Abbreviation mode_ok m := (1 <= m <= numLockModes lmt).
Abbreviation lock_inv := (lock_inv lmt lockGroupLeader).
Abbreviation request := (request lockGroupLeader).

Lemma new_lock_inv t : lock_inv (new_lock t).
Proof.
  split; [split| |]; cbn [new_lock procLocks waitProcs granted requested nGranted nRequested grantMask waitMask];
    try done.
  - constructor.
  - intros m Hm. unfold aget. rewrite nth_lookup, lookup_replicate_2; [done|].
    pose proof (modes_bound (lmt := lmt)). unfold MAX_LOCKMODES in *. lia.
  - intros m Hm. unfold aget. rewrite nth_lookup, lookup_replicate_2; [done|].
    pose proof (modes_bound (lmt := lmt)). unfold MAX_LOCKMODES in *. lia.
  - symmetry. apply sumZ_zero; [intros; apply held_count_nonneg|done].
  - split; [intros i; by rewrite Z.bits_0|]. intros m _. by rewrite Z.bits_0.
  - split; [intros i; by rewrite Z.bits_0|]. intros m _. rewrite Z.bits_0. split; [done|].
    intros [H|[H _]]; done.
  - constructor.
  - intros p q m m' _ (pl & Hpl & _). set_solver.
  - intros [|] ? ?; done.
Qed.

(** The state between two operations that a lock object keeps for a process that
    fails to get it. *)
Record same_lock (l l' : LOCK) : Prop := {
  same_tag : tag l' = tag l;
  same_queue : waitProcs l' = waitProcs l;
  same_holds : forall q i, lock_holds l' q i <-> lock_holds l q i
}.

Lemma request_same p m l : same_lock l (request p m l).
Proof.
  split.
  - unfold LockObject.request, enter_proclock. by destruct (find_proclock l p).
  - unfold LockObject.request, enter_proclock. by destruct (find_proclock l p).
  - intros q i. apply (enter_proclock_holds lockGroupLeader l p).
Qed.

Lemma held_conflict_same l l' p m :
  same_lock l l' -> held_conflict lmt lockGroupLeader l' p m <-> held_conflict lmt lockGroupLeader l p m.
Proof. intros [Ht _ Hh]. unfold held_conflict, separate. rewrite Ht. by setoid_rewrite Hh. Qed.

Lemma blocked_same l l' ahead w :
  same_lock l l' -> blocked lmt lockGroupLeader l' ahead w <-> blocked lmt lockGroupLeader l ahead w.
Proof. intros H. unfold blocked. by rewrite held_conflict_same. Qed.

Lemma exclusive_same l l' : same_lock l l' -> exclusive lmt lockGroupLeader l -> exclusive lmt lockGroupLeader l'.
Proof. intros [Ht _ Hh]. apply exclusive_shrink; [done|]. intros q i. apply Hh. Qed.

Lemma queue_blocked_same l l' queue :
  same_lock l l' -> queue_blocked lmt lockGroupLeader l queue -> queue_blocked lmt lockGroupLeader l' queue.
Proof. intros H Hq q1 w q2 E. apply (blocked_same l l'); [done|]. by eapply Hq. Qed.

Lemma request_positive p m l : lock_wf lmt lockGroupLeader Settled l -> 0 < nRequested (request p m l).
Proof.
  intros Hwf. pose proof (nRequested_nonneg _ _ _ _ Hwf). unfold LockObject.request, enter_proclock.
  destruct (find_proclock l p); cbn; lia.
Qed.

(** The pending request is withdrawn: the object is what it was. *)
Lemma abort_request_inv p m l :
  lock_inv l -> mode_ok m -> p ∉ procNumber <$> waitProcs l -> ~ lock_holds l p m ->
  lock_inv (abort_request p (request p m l) m) /\ same_lock l (abort_request p (request p m l) m) /\
  nRequested (abort_request p (request p m l) m) = nRequested l.
Proof.
  intros [Hwf He Hb] Hm Hq Hn. pose proof (request_wf lmt lockGroupLeader l p m Hwf Hm Hq Hn) as Hr.
  pose proof (request_same p m l) as Hs. set (l1 := request p m l) in *.
  assert (Emask : waitMask l1 = waitMask l) by (unfold l1, LockObject.request, enter_proclock; by destruct (find_proclock l p)).
  assert (En : nRequested l1 = nRequested l + 1) by (unfold l1, LockObject.request, enter_proclock; by destruct (find_proclock l p)).
  assert (Hc : lock_wf lmt lockGroupLeader (Releasing p) (add_requested m (-1) l1)).
  { replace (add_requested m (-1) l1) with (set_waitMask (waitMask l1) (add_requested m (-1) l1)) by (by destruct l1).
    apply cancel_wf; [done|done| |].
    - rewrite Emask. apply (wf_waitMask _ _ _ _ Hwf).
    - intros i Hi. rewrite Emask, (same_queue _ _ Hs).
      pose proof (proj2 (wf_waitMask _ _ _ _ Hwf) i Hi) as H. cbn in H. intuition lia. }
  assert (Ea : abort_request p l1 m = drop_idle_proclock p (add_requested m (-1) l1)).
  { unfold abort_request, drop_idle_proclock, find_proclock. cbn.
    destruct (List.find _ _) as [pl|]; [|done]. by destruct (holdMask pl =? 0). }
  rewrite Ea. set (l2 := add_requested m (-1) l1) in *.
  assert (Hs2 : same_lock l (drop_idle_proclock p l2)).
  { split.
    - unfold drop_idle_proclock. destruct (find_proclock l2 p) as [pl|]; [destruct (holdMask pl =? 0)|]; apply Hs.
    - unfold drop_idle_proclock. destruct (find_proclock l2 p) as [pl|]; [destruct (holdMask pl =? 0)|]; apply Hs.
    - intros q i. rewrite (drop_idle_holds l2 p q i (wf_proclocks _ _ _ _ Hc)). apply Hs. }
  assert (En2 : nRequested (drop_idle_proclock p l2) = nRequested l).
  { assert (nRequested l2 = nRequested l) by (unfold l2; cbn [add_requested nRequested]; lia).
    unfold drop_idle_proclock. by destruct (find_proclock l2 p) as [pl|]; [destruct (holdMask pl =? 0)|]. }
  split; [|done]. split.
  - apply drop_idle_wf; try apply _; [done|]. eapply List.Forall_impl; [|apply (wf_marks _ _ _ _ Hr)].
    by intros x [?|?].
  - by eapply exclusive_same.
  - rewrite (same_queue _ _ Hs2). by eapply queue_blocked_same.
Qed.

(** The processes that keep [p] from mode [m]: holders of other groups, or
    requests in the queue. *)
Definition unavailable (l : LOCK) (p : ProcNumber) (m : LOCKMODE) : Prop :=
  held_conflict lmt lockGroupLeader l p m \/
  exists w, w ∈ waitProcs l /\ conflicts lmt m (waitLockMode w).

(** A cycle of two lock groups on one object: a waiter of another group waits for a
    mode that the group of [p] blocks, and itself holds what blocks [p]. *)
Definition deadlock_pair (l : LOCK) (p : ProcNumber) (m : LOCKMODE) : Prop :=
  exists q i j r k, queue_waits (waitProcs l) q i /\ group_leader lockGroupLeader q <> group_leader lockGroupLeader p /\
    lock_holds l q j /\ conflicts lmt m j /\
    group_leader lockGroupLeader r = group_leader lockGroupLeader p /\ lock_holds l r k /\ conflicts lmt i k.

(** The request of [p] passes the queue: a waiter of another group waits for what
    the group of [p] holds, and in front of it only requests of that group
    conflict with mode [m]. *)
Definition overtakes (l : LOCK) (p : ProcNumber) (m : LOCKMODE) : Prop :=
  exists q1 w q2 r k, waitProcs l = q1 ++ w :: q2 /\
    group_leader lockGroupLeader (procNumber w) <> group_leader lockGroupLeader p /\
    group_leader lockGroupLeader r = group_leader lockGroupLeader p /\ lock_holds l r k /\
    conflicts lmt (waitLockMode w) k /\
    forall x, x ∈ q1 -> conflicts lmt m (waitLockMode x) ->
      group_leader lockGroupLeader (procNumber x) = group_leader lockGroupLeader p.

Lemma my_held_locks_spec pend l pl p i :
  lock_wf lmt lockGroupLeader pend l -> pl ∈ procLocks l -> myProc pl = p ->
  Z.testbit (my_held_locks lockGroupLeader p l pl) i = true ->
  exists r, group_leader lockGroupLeader r = group_leader lockGroupLeader p /\ lock_holds l r i.
Proof.
  intros Hwf Hpl Hp. unfold my_held_locks. destruct (lockGroupLeader p) as [ld|] eqn:E.
  2:{ intros Hb. exists p. split; [done|]. by exists pl. }
  pose proof (wf_leader _ _ _ _ Hwf) as Hl. rewrite Forall_forall in Hl.
  assert (Hg : forall pls acc, (forall x, x ∈ pls -> x ∈ procLocks l) ->
    Z.testbit (foldl (fun held other => if groupLeader other =? ld then Z.lor held (holdMask other) else held) acc pls) i
      = true -> Z.testbit acc i = true \/ exists x, x ∈ pls /\ groupLeader x = ld /\ Z.testbit (holdMask x) i = true).
  { induction pls as [|x pls IH]; intros acc Hin Hb; cbn in Hb; [by left|].
    apply IH in Hb as [Hb|(y & ? & ?)]; [|right; exists y; set_solver|set_solver].
    destruct (Z.eqb_spec (groupLeader x) ld) as [Ex|]; [|by left].
    rewrite Z.lor_spec, orb_true_iff in Hb. destruct Hb as [?|?]; [by left|right]. exists x. set_solver. }
  intros [Hb|(x & Hx & Ex & Hb)]%Hg; [| |done].
  - exists p. split; [done|]. by exists pl.
  - exists (myProc x). split; [|by exists x]. rewrite <- (Hl x Hx), Ex. unfold group_leader. by rewrite E.
Qed.

Lemma same_group_leader p w :
  procNumber w <> p ->
  same_group lockGroupLeader p w = true <->
  group_leader lockGroupLeader (procNumber w) = group_leader lockGroupLeader p.
Proof.
  intros Hne. unfold same_group. rewrite bool_decide_eq_true. split.
  - intros [[ld E] Eq]. unfold group_leader. by rewrite <- Eq, E.
  - intros Eq. destruct (lockGroupLeader p) as [ld|] eqn:E.
    + split; [by eexists|]. unfold group_leader in Eq. rewrite E in Eq. cbn in Eq.
      destruct (lockGroupLeader (procNumber w)) as [lw|] eqn:Ew; cbn in Eq; [by subst lw|].
      subst ld. pose proof (leader_ok p _ E). congruence.
    + rewrite (leader_self _ p E) in Eq. by apply (leader_none lockGroupLeader p) in Eq.
Qed.

Lemma queue_other l p w : p ∉ procNumber <$> waitProcs l -> w ∈ waitProcs l -> procNumber w <> p.
Proof. intros Hn Hw <-. by apply Hn, list_elem_of_fmap_2. Qed.

Lemma passes_overtakes pend l pl p m :
  lock_wf lmt lockGroupLeader pend l -> pl ∈ procLocks l -> myProc pl = p -> p ∉ procNumber <$> waitProcs l ->
  passes lmt lockGroupLeader p m l (my_held_locks lockGroupLeader p l pl) -> overtakes l p m.
Proof.
  intros Hwf Hpl Hp Hnq (q1 & w & q2 & Eq & Hg & (i & _ & Hi & Hheld) & Hq1).
  destruct (my_held_locks_spec _ _ _ _ _ Hwf Hpl Hp Hheld) as (r & Hr & Hrh).
  exists q1, w, q2, r, i. split; [done|]. split; [|split; [done|split; [done|split; [done|]]]].
  - rewrite <- same_group_leader; [by rewrite Hg|]. eapply queue_other; [done|]. rewrite Eq. set_solver.
  - intros x Hx Hc. apply same_group_leader; [|by apply Hq1]. eapply queue_other; [done|]. rewrite Eq. set_solver.
Qed.

Lemma two_cycle_pair pend l pl p m :
  lock_wf lmt lockGroupLeader pend l -> pl ∈ procLocks l -> myProc pl = p -> p ∉ procNumber <$> waitProcs l ->
  two_cycle lmt lockGroupLeader p m l pl -> deadlock_pair l p m.
Proof.
  intros Hwf Hpl Hp Hnq (w & Hw & Hg & (i & _ & Hi & Hheld) & (j & Hj & Hwj)).
  destruct (my_held_locks_spec _ _ _ _ _ Hwf Hpl Hp Hheld) as (r & Hr & Hrh).
  exists (procNumber w), (waitLockMode w), j, r, i. split; [by exists w|]. split; [|done].
  rewrite <- same_group_leader; [by rewrite Hg|]. by eapply queue_other.
Qed.

(** The outcome of a request on a lock object [l]. *)
Definition request_outcome (p : ProcNumber) (l : LOCK) (m : LOCKMODE) (dontWait : bool)
    (r : LOCK * ProcWaitStatus) : Prop :=
  let '(l', st) := r in
  match st with
  | PROC_WAIT_STATUS_OK =>
      lock_inv l' /\ tag l' = tag l /\ 0 < nRequested l' /\ waitProcs l' = waitProcs l /\
      (forall q i, lock_holds l' q i <-> lock_holds l q i \/ (q = p /\ i = m)) /\
      ~ held_conflict lmt lockGroupLeader l p m /\
      ((forall w, w ∈ waitProcs l -> ~ conflicts lmt m (waitLockMode w)) \/ overtakes l p m)
  | PROC_WAIT_STATUS_WAITING =>
      dontWait = false /\ lock_inv l' /\ tag l' = tag l /\ 0 < nRequested l' /\
      (forall q i, lock_holds l' q i <-> lock_holds l q i) /\
      (forall q i, queue_waits (waitProcs l') q i <-> queue_waits (waitProcs l) q i \/ (q = p /\ i = m)) /\
      unavailable l p m
  | PROC_WAIT_STATUS_ERROR =>
      l' = request p m l /\ unavailable l p m /\
      (dontWait = true \/ deadlock_pair l p m)
  end.

Lemma granted_outcome p l m dontWait :
  lock_inv l -> mode_ok m -> p ∉ procNumber <$> waitProcs l -> ~ lock_holds l p m ->
  ~ held_conflict lmt lockGroupLeader l p m ->
  (forall w, w ∈ waitProcs l -> ~ conflicts lmt m (waitLockMode w)) \/ overtakes l p m ->
  request_outcome p l m dontWait (GrantLock (request p m l) p m, PROC_WAIT_STATUS_OK).
Proof.
  intros [Hwf He Hb] Hm Hq Hn Hc Hpass. pose proof (request_wf lmt lockGroupLeader l p m Hwf Hm Hq Hn) as Hr.
  pose proof (request_same p m l) as Hs. pose proof (request_positive p m l Hwf) as Hpos.
  destruct (wf_pend _ _ _ _ Hr p m eq_refl) as (_ & _ & pl & Hpl & Hp & _).
  assert (Hh : forall q i, lock_holds (GrantLock (request p m l) p m) q i <->
    lock_holds l q i \/ (q = p /\ i = m)).
  { intros q i. rewrite (lock_holds_grant lmt) by eauto. by rewrite (same_holds _ _ Hs). }
  split; [|split; [apply Hs|split; [exact Hpos|split; [apply Hs|split; [exact Hh|by split]]]]]. split.
  - by apply GrantLock_wf; try apply _.
  - apply exclusive_grant; try apply _; [done| |].
    + by eapply exclusive_same.
    + by rewrite held_conflict_same.
  - change (waitProcs (GrantLock (request p m l) p m)) with (waitProcs (request p m l)).
    rewrite (same_queue _ _ Hs). eapply queue_blocked_mono; [| |exact Hb]; [apply Hs|].
    intros q i. rewrite Hh. auto.
Qed.

Lemma waiting_outcome p l m pl q1 q2 :
  lock_inv l -> mode_ok m -> p ∉ procNumber <$> waitProcs l -> ~ lock_holds l p m ->
  pl ∈ procLocks (request p m l) -> myProc pl = p -> waitProcs l = q1 ++ q2 ->
  let w := mkPGPROC p m (holdMask pl) in
  blocked lmt lockGroupLeader l q1 w -> unavailable l p m ->
  request_outcome p l m false (enqueue q1 q2 w (request p m l), PROC_WAIT_STATUS_WAITING).
Proof.
  intros [Hwf He Hb] Hm Hq Hn Hpl Hp Eq w Hblk Hun.
  pose proof (request_wf lmt lockGroupLeader l p m Hwf Hm Hq Hn) as Hr.
  pose proof (request_same p m l) as Hs. pose proof (request_positive p m l Hwf) as Hpos.
  assert (Hse : forall q i, lock_holds (enqueue q1 q2 w (request p m l)) q i <-> lock_holds l q i) by apply Hs.
  split; [done|]. split; [split|].
  - apply enqueue_wf; try apply _; [done|done|done|]. by rewrite (same_queue _ _ Hs).
  - eapply exclusive_shrink; [| |exact He]; [apply Hs|]. intros q i. apply Hse.
  - cbn. eapply queue_blocked_mono; [| |apply (queue_blocked_insert _ _ l)]; [apply Hs|..].
    + intros q i. apply Hse.
    + by rewrite <- Eq.
    + done.
  - split; [apply Hs|]. split; [done|]. split; [done|]. split; [|done]. intros q i. cbn. rewrite Eq.
    unfold queue_waits. setoid_rewrite elem_of_app. setoid_rewrite elem_of_cons. split.
    + intros (x & [?|[->|?]] & ? & ?); [left; exists x; auto|by right|left; exists x; auto].
    + intros [(x & [?|?] & ? & ?)|[-> ->]]; [exists x; auto|exists x; auto|exists w; auto].
Qed.

Lemma grant_or_join_spec p l m dontWait :
  lock_inv l -> mode_ok m -> p ∉ procNumber <$> waitProcs l -> ~ lock_holds l p m ->
  exists r, grant_or_join lockGroupLeader p lmt (request p m l) m dontWait = Ok r /\
    request_outcome p l m dontWait r.
Proof.
  intros Hinv Hm Hq Hn. pose proof Hinv as [Hwf He Hb].
  pose proof (request_wf lmt lockGroupLeader l p m Hwf Hm Hq Hn) as Hr.
  pose proof (request_same p m l) as Hs. destruct (wf_pend _ _ _ _ Hr p m eq_refl) as (_ & _ & pl & Hpl & Hp & _).
  set (l1 := request p m l) in *. unfold grant_or_join.
  rewrite (find_proclock_spec l1 p pl (wf_proclocks _ _ _ _ Hr) Hpl Hp).
  set (w := mkPGPROC p m (holdMask pl)).
  assert (Emask : waitMask l1 = waitMask l)
    by (unfold l1, LockObject.request, enter_proclock; by destruct (find_proclock l p)).
  assert (Hfc : exists b, (if negb (Z.land (conflict lmt m) (waitMask l1) =? 0) then Ok true
      else LockCheckConflicts lmt lockGroupLeader p m l1 pl) = Ok b /\
    if b then blocked lmt lockGroupLeader l (waitProcs l) w
    else ~ held_conflict lmt lockGroupLeader l p m /\ forall x, x ∈ waitProcs l -> ~ conflicts lmt m (waitLockMode x)).
  { destruct (Z.land (conflict lmt m) (waitMask l1) =? 0) eqn:E; cbn [negb].
    - destruct (LockCheckConflicts_spec lmt lockGroupLeader _ p l1 pl m Hr Hpl Hm) as (b & -> & Hiff).
      exists b. split; [done|]. rewrite Hp, held_conflict_same in Hiff by done.
      destruct b; [right; by apply Hiff|]. split; [intros Hc; by apply Hiff in Hc|]. intros x Hx Hcx.
      assert (Hmx : mode_ok (waitLockMode x)).
      { pose proof (wf_waiters _ _ _ _ Hwf) as Hw. rewrite Forall_forall in Hw. by destruct (Hw x Hx). }
      assert (Z.testbit (waitMask l1) (waitLockMode x) = true).
      { rewrite Emask. apply (proj2 (wf_waitMask _ _ _ _ Hwf) _ Hmx). left. apply wait_count_pos. eauto. }
      assert (Hne : (Z.land (conflict lmt m) (waitMask l1) =? 0) = false) by (apply conflict_meets; try apply _; eauto).
      congruence.
    - exists true. split; [done|]. left. apply conflict_meets in E as (i & Hi & Hc & Ht); try apply _; [|done].
      rewrite Emask in Ht. pose proof (proj2 (wf_waitMask _ _ _ _ Hwf) i Hi) as Hw. cbn in Hw.
      assert (Hpos : 0 < wait_count (waitProcs l) i) by (apply Hw in Ht as [?|[_ ?]]; lia).
      apply wait_count_pos in Hpos as (x & Hx & <-). eauto. }
  destruct Hfc as (b & -> & Hfc). cbn. destruct b; cbn.
  2:{ destruct Hfc as [Hfc1 Hfc2]. eexists. split; [done|]. apply granted_outcome; auto. }
  assert (Hun : unavailable l p m) by (destruct Hfc as [Hx|Hx]; [by right|by left]).
  destruct (JoinWaitQueue_spec lmt lockGroupLeader p l1 pl m dontWait Hr Hpl Hp) as (r & -> & Hj).
  { rewrite (same_queue _ _ Hs). by rewrite blocked_same. }
  exists r. split; [done|]. destruct r as [l' []]; cbv beta iota delta [join_ok] in Hj.
  - destruct Hj as (-> & Hc & Hpass). rewrite held_conflict_same in Hc by done. apply granted_outcome; auto. right.
    apply (passes_overtakes _ _ pl p m Hr Hpl Hp) in Hpass; [|by rewrite (same_queue _ _ Hs)].
    destruct Hpass as (q1 & x & q2 & r & k & D1 & D2 & D3 & D4 & D5 & D6). exists q1, x, q2, r, k.
    rewrite (same_queue _ _ Hs) in D1. rewrite (same_holds _ _ Hs) in D4. done.
  - destruct Hj as (-> & q1 & q2 & Eq & -> & Hblk). rewrite (same_queue _ _ Hs) in Eq.
    apply waiting_outcome; auto. by rewrite <- (blocked_same l l1).
  - destruct Hj as [-> Hd]. split; [done|]. split; [done|]. destruct Hd as [?|Hd]; [by left|right].
    apply (two_cycle_pair _ _ pl p m Hr Hpl Hp) in Hd; [|by rewrite (same_queue _ _ Hs)].
    destruct Hd as (q & i & j & r & k & D1 & D2 & D3 & D4 & D5 & D6 & D7). exists q, i, j, r, k.
    rewrite (same_queue _ _ Hs) in D1. rewrite (same_holds _ _ Hs) in D3, D6. done.
Qed.

End Requests.

(** ** Every call keeps the tables consistent *)

Section System.

Context (lockGroupLeader : ProcNumber -> option ProcNumber) `{!GroupsOK lockGroupLeader}.

Abbreviation sys_ok := (sys_ok lockGroupLeader).
Abbreviation locks_ok := (locks_ok lockGroupLeader).

Lemma LockMethods_ok id lmt : LockMethods id = Some lmt -> LockMethodOK lmt.
Proof.
  unfold LockMethods. destruct (id =? DEFAULT_LOCKMETHOD); [by intros [= <-]; apply _|].
  destruct (id =? USER_LOCKMETHOD); [by intros [= <-]; apply _|done].
Qed.

(** A lock object that may replace the entry of tag [t]. *)
Definition entry_ok (t : LOCKTAG) (l : LOCK) : Prop :=
  tag l = t /\ 0 < nRequested l /\
  exists lmt, LockMethods (locktag_lockmethodid t) = Some lmt /\ lock_inv lmt lockGroupLeader l.

Lemma locks_ok_put locks t r :
  locks_ok locks -> (forall l, r = Some l -> entry_ok t l) -> locks_ok (partial_alter (fun _ => r) t locks).
Proof.
  intros Hl Hr t' l. destruct (decide (t' = t)) as [->|Hne].
  - rewrite lookup_partial_alter_eq. apply Hr.
  - rewrite lookup_partial_alter_ne by done. apply Hl.
Qed.

Lemma cleaned_entry lmt t l1 r woken :
  LockMethods (locktag_lockmethodid t) = Some lmt -> tag l1 = t -> cleaned lmt lockGroupLeader l1 r woken ->
  forall l, r = Some l -> entry_ok t l.
Proof.
  intros Hm Ht Hc l ->. destruct Hc as (Hi & Hn & Htag & _). split; [congruence|]. split; [done|]. eauto.
Qed.

(** The backends after a change of process [p]. *)
Definition upd (bk : ProcNumber -> Backend) (p : ProcNumber) (b : Backend) : ProcNumber -> Backend :=
  fun q => if decide (q = p) then b else bk q.

Lemma upd_same bk p b : upd bk p b p = b.
Proof. unfold upd. by rewrite decide_True. Qed.

Lemma upd_other bk p b q : q <> p -> upd bk p b q = bk q.
Proof. intros. unfold upd. by rewrite decide_False. Qed.

Lemma backend_set_backend p b s q : backend (set_backend p b s) q = upd (backend s) p b q.
Proof.
  unfold upd. destruct (decide (q = p)) as [->|]; [apply backend_set_same|by apply backend_set_other].
Qed.

(** Only the backend [p] changes, and it still knows the same locks. *)
Lemma agree_backend locks bk p b :
  tables_agree locks bk -> backend_ok b -> waitLock b = waitLock (bk p) ->
  (forall t m, knows b t m <-> knows (bk p) t m) -> tables_agree locks (upd bk p b).
Proof.
  intros [H1 H2 H3] Hb Hw Hk. split; intros q; destruct (decide (q = p)) as [->|Hne];
    rewrite ?upd_same, ?upd_other by done; auto.
  - intros t m. rewrite Hw. auto.
  - intros t m. rewrite Hk. auto.
Qed.

(** One lock object and the backend [p] change. *)
Lemma agree_update_one locks bk t r p b l0 :
  tables_agree locks bk ->
  (forall q m, opt_holds (locks !! t) q m <-> opt_holds l0 q m) ->
  (forall q m, opt_waits (locks !! t) q m <-> opt_waits l0 q m) ->
  backend_ok b ->
  (forall m, opt_waits r p m <-> waitLock b = Some (t, m)) ->
  (forall m, opt_holds r p m <-> knows b t m) ->
  (forall q m, q <> p -> opt_waits r q m <-> opt_waits l0 q m) ->
  (forall q m, q <> p -> opt_holds r q m <-> opt_holds l0 q m) ->
  (forall t' m, t' <> t -> waitLock b = Some (t', m) <-> waitLock (bk p) = Some (t', m)) ->
  (forall t' m, t' <> t -> knows b t' m <-> knows (bk p) t' m) ->
  tables_agree (partial_alter (fun _ => r) t locks) (upd bk p b).
Proof.
  intros Hag Hh0 Hw0 Hb Hwp Hhp Hwq Hhq Hw' Hh'. pose proof Hag as [H1 H2 H3].
  assert (Eh : forall q m, table_holds locks q t m <-> opt_holds (locks !! t) q m).
  { intros q m. unfold table_holds. destruct (locks !! t) as [l|]; cbn; naive_solver. }
  assert (Ew : forall q m, table_waits locks q t m <-> opt_waits (locks !! t) q m).
  { intros q m. unfold table_waits. destruct (locks !! t) as [l|]; cbn; naive_solver. }
  apply (agree_update locks bk); [done|..]; intros q; destruct (decide (q = p)) as [->|Hne];
    rewrite ?upd_same, ?upd_other by done; auto.
  - intros m. rewrite Hwq, <- Hw0, <- Ew by done. auto.
  - intros m. rewrite Hhq, <- Hh0, <- Eh by done. auto.
Qed.

(** An operation of backend [p] that ends in [CleanUpLock]: the tables agree with
    the lock object before the clean-up, so they agree after it. *)
Lemma settle s p b t lmt l1 r woken s' :
  sys_ok s -> LockMethods (locktag_lockmethodid t) = Some lmt -> tag l1 = t ->
  NoDup (procNumber <$> waitProcs l1) ->
  tables_agree (partial_alter (fun _ => Some l1) t (LockMethodLockHash s)) (upd (backend s) p b) ->
  cleaned lmt lockGroupLeader l1 r woken ->
  LockMethodLockHash s' = partial_alter (fun _ => r) t (LockMethodLockHash s) ->
  (forall q, backend s' q = if bool_decide (q ∈ woken) then woken_backend (upd (backend s) p b q)
                            else upd (backend s) p b q) ->
  sys_ok s'.
Proof.
  intros [Hl Hag] Hm Ht Hnd Hag1 Hc Hl' Hbk. split; rewrite Hl'.
  - apply locks_ok_put; [done|]. by eapply cleaned_entry.
  - eapply agree_ext; [|intros q; reflexivity|eapply agree_woken; [exact Hag1|exact Hc|exact Hnd|exact Hbk]].
    intros u. destruct (decide (u = t)) as [->|Hne].
    + by rewrite !lookup_partial_alter_eq.
    + rewrite !lookup_partial_alter_ne by done. by rewrite lookup_insert_ne.
Qed.

Lemma sys_lookup s t l :
  sys_ok s -> LockMethodLockHash s !! t = Some l ->
  tag l = t /\ exists lmt, LockMethods (locktag_lockmethodid t) = Some lmt /\ LockMethodOK lmt /\
    lock_inv lmt lockGroupLeader l.
Proof.
  intros [Hl _] E. destruct (Hl t l E) as (Ht & _ & lmt & Hm & Hi). split; [done|]. exists lmt.
  split; [done|]. split; [by eapply LockMethods_ok|done].
Qed.

(** *** Leaving the wait queue *)

(** Every backend but [p] is as it was, or is granted the lock it waits for. *)
Definition others_kept (s s' : LockState) (p : ProcNumber) : Prop :=
  forall q, q <> p -> backend s' q = backend s q \/
    (is_Some (waitLock (backend s q)) /\ backend s' q = woken_backend (backend s q)).

Lemma others_kept_refl s p : others_kept s s p.
Proof. intros q _. by left. Qed.

Lemma others_kept_trans s1 s2 s3 p : others_kept s1 s2 p -> others_kept s2 s3 p -> others_kept s1 s3 p.
Proof.
  intros B1 B2 q Hne. destruct (B1 q Hne) as [E1|[W1 E1]], (B2 q Hne) as [E2|[W2 E2]]; rewrite E1 in *; auto.
Qed.

Lemma others_kept_set_backend s s' p b : (forall q, backend s' q = upd (backend s) p b q) -> others_kept s s' p.
Proof. intros E q Hne. left. by rewrite E, upd_other. Qed.

Definition aborted_backend (b : Backend) : Backend :=
  mkBackend (LockMethodLocalHash b) None PROC_WAIT_STATUS_ERROR (awaitedLock b).

Lemma aborted_backend_ok b : backend_ok b -> backend_ok (aborted_backend b).
Proof. intros [B1 B2 B3 B4]. by split. Qed.

Lemma queue_waits_remove ws p q i :
  queue_waits (filter (fun w => procNumber w <> p) ws) q i <-> queue_waits ws q i /\ q <> p.
Proof.
  unfold queue_waits. setoid_rewrite list_elem_of_filter. split.
  - intros (w & [? ?] & <- & ?). split; [|done]. by exists w.
  - intros [(w & ? & <- & ?) ?]. by exists w.
Qed.

Lemma queue_waits_unique ws p i j :
  NoDup (procNumber <$> ws) -> queue_waits ws p i -> queue_waits ws p j -> i = j.
Proof.
  intros Hnd (w & Hw & <- & <-) (w' & Hw' & E & <-).
  apply list_elem_of_lookup in Hw as [a Ha], Hw' as [b Hb].
  assert (a = b) as ->; [|congruence].
  apply (NoDup_lookup _ a b (procNumber w) Hnd); rewrite list_lookup_fmap; [by rewrite Ha|by rewrite Hb, <- E].
Qed.

(** A waiting backend is in the queue it names. *)
Lemma sys_waiting s p t m :
  sys_ok s -> waitLock (backend s p) = Some (t, m) ->
  exists l lmt w, LockMethodLockHash s !! t = Some l /\ tag l = t /\
    LockMethods (locktag_lockmethodid t) = Some lmt /\ LockMethodOK lmt /\ lock_inv lmt lockGroupLeader l /\
    w ∈ waitProcs l /\ procNumber w = p /\ waitLockMode w = m.
Proof.
  intros Hs E. apply (ag_waits _ _ (sys_agree _ _ Hs)) in E as (l & El & w & Hw & Hp & Hm).
  destruct (sys_lookup s t l Hs El) as (Ht & lmt & ? & ? & ?). exists l, lmt, w. done.
Qed.

Lemma agree_leave s p t m l :
  sys_ok s -> waitLock (backend s p) = Some (t, m) -> LockMethodLockHash s !! t = Some l ->
  tables_agree (partial_alter (fun _ => Some (remove_waiter p l)) t (LockMethodLockHash s))
    (upd (backend s) p (aborted_backend (backend s p))).
Proof.
  intros Hs E El. pose proof (sys_agree _ _ Hs) as Hag. pose proof Hag as [H1 H2 H3].
  destruct (sys_waiting s p t m Hs E) as (l' & lmt & w & El' & _ & _ & _ & [Hwf _ _] & Hw & Hp & Hm).
  assert (l' = l) as -> by congruence.
  assert (Hk : forall t' m', knows (aborted_backend (backend s p)) t' m' <-> knows (backend s p) t' m').
  { intros t' m'. unfold knows, unnoticed. cbn. rewrite E.
    change (local_holds (aborted_backend (backend s p)) t' m') with (local_holds (backend s p) t' m').
    naive_solver. }
  apply (agree_update_one _ _ _ _ _ _ (Some l)); [done|by rewrite El|by rewrite El| |..].
  - by apply aborted_backend_ok.
  - intros m'. cbn. rewrite queue_waits_remove. split; [by intros [_ ?]|done].
  - intros m'. rewrite Hk. cbn. rewrite <- H3. unfold table_holds. rewrite El.
    split; [intros Hh; by exists l|by intros (? & [= <-] & ?)].
  - intros q m' Hne. cbn. rewrite queue_waits_remove. naive_solver.
  - intros q m' Hne. done.
  - intros t' m' Hne. cbn. rewrite E. split; [done|]. by intros [= ? ?].
  - intros t' m' Hne. apply Hk.
Qed.

Lemma leave_queue_ok s p :
  sys_ok s -> exists s', leave_queue lockGroupLeader p s = (Ok tt, s') /\ sys_ok s' /\
    backend s' p = match waitLock (backend s p) with
                   | Some _ => aborted_backend (backend s p)
                   | None => backend s p
                   end /\ others_kept s s' p.
Proof.
  intros Hs. unfold leave_queue. destruct (waitLock (backend s p)) as [[t m]|] eqn:E.
  2:{ exists s. split; [done|]. split; [done|]. split; [done|]. apply others_kept_refl. }
  destruct (sys_waiting s p t m Hs E) as (l & lmt & w & El & Ht & Em & Hok & Hinv & Hw & Hp & Hmw).
  rewrite El, Em. subst p m.
  destruct (RemoveFromWaitQueue_spec lmt lockGroupLeader (procNumber w) l w Hinv Hw) as (r & woken & -> & Hc).
  assert (Hin : forall q, q ∈ woken -> exists x, x ∈ waitProcs l /\ procNumber x = q /\ q <> procNumber w).
  { intros q Hq. assert (Hq' : q ∈ procNumber <$> waitProcs (remove_waiter (procNumber w) l)).
    { destruct r; [by apply Hc|]. destruct Hc as [-> _]. set_solver. }
    apply list_elem_of_fmap in Hq' as (x & -> & [? ?]%list_elem_of_filter). by exists x. }
  assert (Hnw : procNumber w ∉ woken) by (by intros (? & _ & _ & ?)%Hin).
  eexists. split; [done|]. split; [|split].
  - eapply (settle s (procNumber w) _ t lmt); [done|done| | |by eapply agree_leave|exact Hc| |].
    + done.
    + eapply sublist_NoDup; [apply (wf_queue _ _ _ _ (inv_wf _ _ _ Hinv))|].
      apply fmap_sublist, sublist_filter.
    + by rewrite locks_ProcWakeup.
    + intros q. rewrite backend_ProcWakeup. unfold set_wait. by rewrite backend_set_backend.
  - rewrite backend_ProcWakeup, bool_decide_eq_false_2 by done. unfold set_wait.
    by rewrite backend_set_same.
  - intros q Hne. rewrite backend_ProcWakeup. unfold set_wait. rewrite backend_set_other by done.
    case_bool_decide as Hq; [right|by left]. split; [|done]. destruct (Hin q Hq) as (x & Hx & Ex & _).
    eexists. apply (ag_waits _ _ (sys_agree _ _ Hs)). exists l. split; [done|]. by exists x.
Qed.

(** *** The end of a wait *)

(** A change of backend [p] alone. *)
Lemma sys_set_backend s p b s' :
  sys_ok s -> LockMethodLockHash s' = LockMethodLockHash s -> (forall q, backend s' q = upd (backend s) p b q) ->
  backend_ok b -> waitLock b = waitLock (backend s p) ->
  (forall t m, knows b t m <-> knows (backend s p) t m) -> sys_ok s'.
Proof.
  intros [Hl Hag] El Ebk Hb Hw Hk. split; rewrite El; [done|].
  eapply agree_ext; [done|intros q; symmetry; apply Ebk|]. by apply agree_backend.
Qed.

(** The local table after a lock was counted once more. *)
Definition granted_local (b : Backend) (k : LOCALLOCKTAG) (ll : LOCALLOCK) (o : option ResourceOwner)
    (aw : option (LOCALLOCKTAG * option ResourceOwner)) : Backend :=
  mkBackend (partial_alter (fun _ => Some (GrantLockLocal ll o)) k (LockMethodLocalHash b))
    (waitLock b) (waitStatus b) aw.

Lemma granted_local_holds b k ll o aw t m :
  locallock_ok ll -> local_holds (granted_local b k ll o aw) t m <-> local_holds b t m \/ (t, m) = k.
Proof.
  intros Hok. unfold local_holds. cbn. destruct (decide ((t, m) = k)) as [<-|Hne].
  - rewrite lookup_partial_alter_eq. split; [auto|]. intros _. eexists. split; [done|]. cbn.
    pose proof (nLocks_nonneg ll Hok). lia.
  - rewrite lookup_partial_alter_ne by congruence. naive_solver.
Qed.

Lemma granted_local_ok b k ll o :
  backend_ok b -> locallock_ok ll -> waitLock b = None -> backend_ok (granted_local b k ll o None).
Proof.
  intros [B1 B2 B3 B4] Hok Hw. split; cbn; [congruence|auto|done|]. intros k' ll'.
  destruct (decide (k' = k)) as [->|Hne].
  - rewrite lookup_partial_alter_eq. intros [= <-]. by apply GrantLockLocal_ok.
  - rewrite lookup_partial_alter_ne by done. apply B4.
Qed.

Lemma grant_awaited_ok s p k o :
  sys_ok s -> waitLock (backend s p) = None -> waitStatus (backend s p) = PROC_WAIT_STATUS_OK ->
  awaitedLock (backend s p) = Some (k, o) ->
  let s' := ResetAwaitedLock p (GrantAwaitedLock p s) in
  sys_ok s' /\ exists ll, LockMethodLocalHash (backend s p) !! k = Some ll /\
    backend s' p = granted_local (backend s p) k ll o None.
Proof.
  intros Hs Hw Hst Ha s'. pose proof (ag_backend _ _ (sys_agree _ _ Hs) p) as Hb.
  destruct (bk_awaited _ Hb k o Ha) as (ll & Ell & Hn).
  pose proof (bk_local _ Hb k ll Ell) as Hok.
  assert (Eb : forall q, backend s' q = upd (backend s) p (granted_local (backend s p) k ll o None) q).
  { intros q. unfold s', ResetAwaitedLock, GrantAwaitedLock. rewrite Ha, Ell. unfold set_local, set_wait.
    destruct (decide (q = p)) as [->|Hne].
    - by rewrite upd_same, !backend_set_same.
    - by rewrite upd_other, !backend_set_other. }
  split.
  - eapply (sys_set_backend s p); [done| |exact Eb| | |].
    + unfold s', ResetAwaitedLock, GrantAwaitedLock. by rewrite Ha, Ell.
    + by apply granted_local_ok.
    + done.
    + intros t m. unfold knows. rewrite granted_local_holds by done. unfold unnoticed. cbn. rewrite Hw, Hst, Ha.
      naive_solver.
  - exists ll. split; [done|]. by rewrite Eb, upd_same.
Qed.

Lemma reset_awaited_ok s p :
  sys_ok s -> waitLock (backend s p) = None -> waitStatus (backend s p) <> PROC_WAIT_STATUS_OK ->
  sys_ok (ResetAwaitedLock p s).
Proof.
  intros Hs Hw Hst. pose proof (ag_backend _ _ (sys_agree _ _ Hs) p) as Hb. destruct Hb as [B1 B2 B3 B4].
  apply (sys_set_backend s p (mkBackend (LockMethodLocalHash (backend s p)) (waitLock (backend s p))
    (waitStatus (backend s p)) None)); [done|done| | |done|].
  - intros q. unfold ResetAwaitedLock, set_wait. apply backend_set_backend.
  - split; cbn; [congruence|auto|done|done].
  - intros t m. unfold knows, unnoticed. cbn. naive_solver.
Qed.

Lemma WaitOnLock_return_ok s p :
  sys_ok s -> is_Some (awaitedLock (backend s p)) -> waitLock (backend s p) = None ->
  exists r s', WaitOnLock_return p s = (r, s') /\ sys_ok s' /\
    (r = Ok (Returned LOCKACQUIRE_OK) \/ exists msg, r = ereport ERRCODE_T_R_DEADLOCK_DETECTED msg).
Proof.
  intros Hs [[k o] Ha] Hw. unfold WaitOnLock_return. destruct (waitStatus (backend s p)) eqn:Est.
  - eexists _, _. split; [done|]. split; [|by left]. by eapply grant_awaited_ok.
  - by destruct (bk_status _ (ag_backend _ _ (sys_agree _ _ Hs) p) Hw).
  - eexists _, _. split; [done|]. split; [|eauto]. apply reset_awaited_ok; [done|done|]. congruence.
Qed.

Lemma others_kept_reset s p : others_kept s (ResetAwaitedLock p s) p.
Proof. eapply others_kept_set_backend. intros q. apply backend_set_backend. Qed.

Lemma others_kept_grant s p : others_kept s (GrantAwaitedLock p s) p.
Proof.
  unfold GrantAwaitedLock. repeat case_match; try apply others_kept_refl.
  eapply others_kept_set_backend. intros q. apply backend_set_backend.
Qed.

Lemma LockErrorCleanup_ok s p :
  sys_ok s -> exists s', LockErrorCleanup lockGroupLeader p s = (Ok tt, s') /\ sys_ok s' /\
    awaitedLock (backend s' p) = None /\ others_kept s s' p.
Proof.
  intros Hs. unfold LockErrorCleanup. destruct (awaitedLock (backend s p)) as [[k o]|] eqn:Ha.
  2:{ exists s. split; [done|]. split; [done|]. split; [done|]. apply others_kept_refl. }
  assert (Hreset : forall s, awaitedLock (backend (ResetAwaitedLock p s) p) = None).
  { intros s0. unfold ResetAwaitedLock, set_wait. by rewrite backend_set_same. }
  destruct (waitLock (backend s p)) as [k'|] eqn:Ew.
  - destruct (leave_queue_ok s p Hs) as (s1 & -> & Hs1 & Eb & Ho). rewrite Ew in Eb. eexists. split; [done|].
    split; [|split; [done|]].
    + apply reset_awaited_ok; [done| |]; by rewrite Eb.
    + eapply others_kept_trans; [exact Ho|apply others_kept_reset].
  - case_bool_decide as Est; (eexists; split; [done|]; split; [|split; [done|]]).
    + by eapply grant_awaited_ok.
    + eapply others_kept_trans; [apply others_kept_grant|apply others_kept_reset].
    + by apply reset_awaited_ok.
    + apply others_kept_reset.
Qed.

Lemma DeadLockCheck_soft_ok s p t order :
  sys_ok s -> (exists l, LockMethodLockHash s !! t = Some l /\ order ≡ₚ waitProcs l) ->
  exists s', DeadLockCheck_soft lockGroupLeader p t order s = (Ok tt, s') /\ sys_ok s'.
Proof.
  intros Hs (l & El & Hperm). unfold DeadLockCheck_soft.
  destruct (sys_lookup s t l Hs El) as (Ht & lmt & Em & Hok & Hinv). rewrite El, Em.
  destruct (sys_locks _ _ Hs t l El) as (_ & Hpos & _).
  destruct (rearrange_queue_spec lmt lockGroupLeader p l order Hinv Hperm)
    as (l' & woken & -> & Hinv' & [W1 W2 W3 W4 W5 W6]). eexists. split; [done|].
  eapply (settle s p (backend s p) t lmt (set_waitProcs order l) (Some l') woken); [done|done|done| | | | |].
  - cbn. rewrite Hperm. apply (wf_queue _ _ _ _ (inv_wf _ _ _ Hinv)).
  - pose proof (sys_agree _ _ Hs) as [H1 H2 H3].
    assert (Ew : forall q m, queue_waits order q m <-> queue_waits (waitProcs l) q m).
    { intros q m. unfold queue_waits. by setoid_rewrite Hperm. }
    apply (agree_update_one _ _ _ _ _ _ (Some l)); [by apply Hs|by rewrite El|by rewrite El|done|..].
    + intros m. cbn. rewrite Ew, <- H2. unfold table_waits. rewrite El.
      split; [eauto|by intros (? & [= <-] & ?)].
    + intros m. cbn. rewrite <- H3. unfold table_holds. rewrite El. split; [eauto|by intros (? & [= <-] & ?)].
    + intros q m _. cbn. apply Ew.
    + done.
    + done.
    + done.
  - split; [done|]. cbn in W1, W2, W4, W5. split; [by rewrite W2|]. split; [done|]. split; [done|]. split; [done|].
    apply W6.
  - by rewrite locks_ProcWakeup.
  - intros q. rewrite backend_ProcWakeup, backend_put_lock. unfold upd.
    destruct (decide (q = p)) as [->|]; done.
Qed.

(** *** Acquiring *)

(** How often an owner of backend [p] holds mode [m] of the object [t]. *)
Definition times (s : LockState) (p : ProcNumber) (t : LOCKTAG) (m : LOCKMODE) (o : option ResourceOwner) : Z :=
  match LockMethodLocalHash (backend s p) !! (t, m) with
  | Some ll => owner_count o (lockOwners ll)
  | None => 0
  end.

(** Nobody gained or lost a lock, but [p] for the lock [t] in mode [m] when
    [gained]. *)
Definition holdings (s s' : LockState) (p : ProcNumber) (t : LOCKTAG) (m : LOCKMODE) (gained : bool) : Prop :=
  forall q u i, table_holds (LockMethodLockHash s') q u i <->
    table_holds (LockMethodLockHash s) q u i \/ (gained = true /\ q = p /\ u = t /\ i = m).

Definition counts (s s' : LockState) (p : ProcNumber) (t : LOCKTAG) (m : LOCKMODE) (o : option ResourceOwner)
    (d : Z) : Prop :=
  forall q u i o', times s' q u i o' =
    times s q u i o' + (if bool_decide (q = p /\ u = t /\ i = m /\ o' = o) then d else 0).

Lemma backend_set_local p k r s q :
  backend (set_local p k r s) q =
  upd (backend s) p (mkBackend (partial_alter (fun _ => r) k (LockMethodLocalHash (backend s p)))
    (waitLock (backend s p)) (waitStatus (backend s p)) (awaitedLock (backend s p))) q.
Proof. apply backend_set_backend. Qed.

(** An entry that counts nothing, or none: the same to everybody. *)
Lemma idle_local_ok s p k r :
  sys_ok s -> awaitedLock (backend s p) = None -> ~ local_holds (backend s p) k.1 k.2 ->
  (r = None \/ exists ll, r = Some ll /\ locallock_ok ll /\ nLocks ll = 0) ->
  sys_ok (set_local p k r s) /\ forall q u i o, times (set_local p k r s) q u i o = times s q u i o.
Proof.
  intros Hs Ha Hn Hr. pose proof (ag_backend _ _ (sys_agree _ _ Hs) p) as Hb. destruct Hb as [B1 B2 B3 B4].
  assert (Hno : forall ll, LockMethodLocalHash (backend s p) !! k = Some ll -> lockOwners ll = []).
  { intros ll E. pose proof (B4 k ll E) as Hok. apply owner_total_zero; [apply Hok|].
    pose proof (nLocks_nonneg ll Hok). destruct (Z.eq_dec (nLocks ll) 0) as [E0|E0]; [by rewrite <- (ll_nLocks _ Hok)|].
    destruct Hn. exists ll. destruct k. split; [done|lia]. }
  split.
  - eapply (sys_set_backend s p); [done|done|apply backend_set_local| |done|].
    + split; cbn; [intros k' E; destruct (B1 k' E) as (? & ? & ?); congruence|done|congruence|]. intros k' ll E.
      destruct (decide (k' = k)) as [->|Hne].
      * rewrite lookup_partial_alter_eq in E. destruct Hr as [->|(ll' & -> & ? & _)]; [done|]. by injection E as <-.
      * rewrite lookup_partial_alter_ne in E by done. eauto.
    + intros t m. unfold knows, unnoticed. cbn. unfold local_holds at 1. cbn.
      destruct (decide ((t, m) = k)) as [<-|Hne].
      * rewrite lookup_partial_alter_eq. cbn in Hn.
        assert (Hx : ~ exists ll, r = Some ll /\ 0 < nLocks ll).
        { intros (ll & E & Hpos). destruct Hr as [->|(ll' & -> & _ & ?)]; [done|]. injection E as <-. lia. }
        tauto.
      * rewrite lookup_partial_alter_ne by congruence. done.
  - intros q u i o. unfold times. rewrite backend_set_local. unfold upd.
    destruct (decide (q = p)) as [->|]; [|done]. cbn. destruct (decide ((u, i) = k)) as [<-|Hne].
    + rewrite lookup_partial_alter_eq. destruct Hr as [->|(ll & -> & Hok & Hz)].
      * destruct (LockMethodLocalHash (backend s p) !! (u, i)) as [ll|] eqn:E; [|done]. by rewrite (Hno ll eq_refl).
      * rewrite (ll_nLocks _ Hok) in Hz. apply owner_total_zero in Hz; [|apply Hok]. rewrite Hz.
        destruct (LockMethodLocalHash (backend s p) !! (u, i)) as [ll'|] eqn:E; [|done]. by rewrite (Hno ll' eq_refl).
    + by rewrite lookup_partial_alter_ne by congruence.
Qed.

Lemma count_request_spec lmt p t m l0 l locks :
  LockMethodOK lmt -> 1 <= m <= numLockModes lmt -> ~ lock_holds l0 p m ->
  add_requested m 1 l = request lockGroupLeader p m l0 ->
  count_request p t m l locks = (Ok true, <[t := request lockGroupLeader p m l0]> locks).
Proof.
  intros Hok Hm Hn E. unfold count_request. rewrite E.
  destruct (find_proclock (request lockGroupLeader p m l0) p) as [pl|] eqn:Ef; [|done].
  apply find_proclock_Some in Ef as [Hpl Hp]. rewrite (lockbit_zero lmt), negb_involutive by done.
  destruct (Z.testbit (holdMask pl) m) eqn:Et; [|done]. destruct Hn.
  apply (same_holds _ _ (request_same lockGroupLeader p m l0)). by exists pl.
Qed.

Lemma SetupLockInTable_spec lmt p env t m locks l0 :
  LockMethodOK lmt -> 1 <= m <= numLockModes lmt -> ~ lock_holds l0 p m ->
  (locks !! t = Some l0 /\ 0 < nRequested l0) \/ (locks !! t = None /\ l0 = new_lock t) ->
  SetupLockInTable lockGroupLeader p env t m locks = (Ok true, <[t := request lockGroupLeader p m l0]> locks) \/
  SetupLockInTable lockGroupLeader p env t m locks = (Ok false, locks) /\
    (lock_room env = false \/ proclock_room env = false).
Proof.
  intros Hok Hm Hn Hl.
  assert (Hset : setup_proclock lockGroupLeader p env t m l0 locks =
      (Ok true, <[t := request lockGroupLeader p m l0]> locks) \/
    setup_proclock lockGroupLeader p env t m l0 locks = (Ok false, locks) /\ proclock_room env = false).
  { unfold setup_proclock. destruct (find_proclock l0 p) as [pl|] eqn:E.
    - left. eapply count_request_spec; [done|done|done|]. unfold request, enter_proclock. by rewrite E.
    - destruct (proclock_room env); [left; by eapply count_request_spec|right]. split; [|done].
      destruct Hl as [[El Hpos]|[El ->]].
      + destruct (Z.eqb_spec (nRequested l0) 0); [lia|]. by rewrite insert_id.
      + cbn. by rewrite delete_id. }
  unfold SetupLockInTable. destruct Hl as [[-> _]|[-> ->]].
  - destruct Hset as [?|[? ?]]; auto.
  - destruct (lock_room env); [destruct Hset as [?|[? ?]]; auto|]. right. auto.
Qed.

(** The lock object of a tag: the entry of the table, or a new one. *)
Definition lock_at (s : LockState) (t : LOCKTAG) : LOCK :=
  default (new_lock t) (LockMethodLockHash s !! t).

Lemma new_lock_holds t q i : ~ lock_holds (new_lock t) q i.
Proof. intros (pl & Hpl & _). set_solver. Qed.

Lemma new_lock_waits t q i : ~ queue_waits (waitProcs (new_lock t)) q i.
Proof. intros (w & Hw & _). set_solver. Qed.

Lemma lock_at_holds s t q i : lock_holds (lock_at s t) q i <-> table_holds (LockMethodLockHash s) q t i.
Proof.
  unfold lock_at, table_holds. destruct (LockMethodLockHash s !! t) as [l|]; cbn; [naive_solver|].
  split; [|naive_solver]. intros H. by apply new_lock_holds in H.
Qed.

Lemma lock_at_waits s t q i :
  queue_waits (waitProcs (lock_at s t)) q i <-> table_waits (LockMethodLockHash s) q t i.
Proof.
  unfold lock_at, table_waits. destruct (LockMethodLockHash s !! t) as [l|]; cbn; [naive_solver|].
  split; [|naive_solver]. intros H. by apply new_lock_waits in H.
Qed.

Lemma lock_at_inv s t lmt :
  sys_ok s -> LockMethods (locktag_lockmethodid t) = Some lmt -> LockMethodOK lmt ->
  lock_inv lmt lockGroupLeader (lock_at s t) /\ tag (lock_at s t) = t.
Proof.
  intros Hs Hm Hok. unfold lock_at. destruct (LockMethodLockHash s !! t) as [l|] eqn:E; cbn.
  - destruct (sys_lookup s t l Hs E) as (? & lmt' & ? & _ & ?). by simplify_eq.
  - split; [by apply new_lock_inv|done].
Qed.

(** A backend that awaits nothing is in no queue, and knows its locks from its
    local table. *)
Lemma running_not_waiting s p :
  sys_ok s -> awaitedLock (backend s p) = None -> waitLock (backend s p) = None.
Proof.
  intros Hs Ha. destruct (waitLock (backend s p)) as [k|] eqn:E; [|done].
  destruct (bk_waiting _ (ag_backend _ _ (sys_agree _ _ Hs) p) k E) as (_ & o & ?). congruence.
Qed.

Lemma running_backend s p t m :
  sys_ok s -> awaitedLock (backend s p) = None ->
  waitLock (backend s p) = None /\ p ∉ procNumber <$> waitProcs (lock_at s t) /\
  (table_holds (LockMethodLockHash s) p t m <-> local_holds (backend s p) t m).
Proof.
  intros Hs Ha. pose proof (sys_agree _ _ Hs) as [H1 H2 H3].
  pose proof (running_not_waiting s p Hs Ha) as Hw.
  split; [done|]. split.
  - intros (w & -> & Hin)%list_elem_of_fmap.
    assert (Hq : table_waits (LockMethodLockHash s) (procNumber w) t (waitLockMode w)).
    { apply lock_at_waits. by exists w. }
    apply H2 in Hq. congruence.
  - rewrite H3. unfold knows, unnoticed. naive_solver.
Qed.

(** Replace the object of tag [t] by [l'] and the backend of [p] by [b]. *)
Lemma sys_put s p b t lmt l' s' :
  sys_ok s -> LockMethods (locktag_lockmethodid t) = Some lmt ->
  tag l' = t -> 0 < nRequested l' -> lock_inv lmt lockGroupLeader l' ->
  (forall u, LockMethodLockHash s' !! u = partial_alter (fun _ => Some l') t (LockMethodLockHash s) !! u) ->
  (forall q, backend s' q = upd (backend s) p b q) ->
  backend_ok b ->
  (forall m, queue_waits (waitProcs l') p m <-> waitLock b = Some (t, m)) ->
  (forall m, lock_holds l' p m <-> knows b t m) ->
  (forall q m, q <> p -> queue_waits (waitProcs l') q m <-> queue_waits (waitProcs (lock_at s t)) q m) ->
  (forall q m, q <> p -> lock_holds l' q m <-> lock_holds (lock_at s t) q m) ->
  (forall t' m, t' <> t -> waitLock b = Some (t', m) <-> waitLock (backend s p) = Some (t', m)) ->
  (forall t' m, t' <> t -> knows b t' m <-> knows (backend s p) t' m) ->
  sys_ok s'.
Proof.
  intros [Hl Hag] Hm Ht Hpos Hinv El Ebk Hb H1 H2 H3 H4 H5 H6. apply map_eq in El. split; rewrite El.
  - apply locks_ok_put; [done|]. intros l [= <-]. split; [done|]. split; [done|]. eauto.
  - eapply agree_ext; [done|intros q; symmetry; apply Ebk|].
    apply (agree_update_one _ _ _ _ _ _ (Some (lock_at s t))); [done|..|done|done|done|done|done|done|done]; intros q m; cbn.
    + rewrite lock_at_holds. unfold table_holds. destruct (LockMethodLockHash s !! t) as [l|]; cbn; naive_solver.
    + rewrite lock_at_waits. unfold table_waits. destruct (LockMethodLockHash s !! t) as [l|]; cbn; naive_solver.
Qed.

(** Who holds what after one object was replaced. *)
Lemma holdings_put s s' p t m l' gained :
  (forall u, LockMethodLockHash s' !! u = partial_alter (fun _ => Some l') t (LockMethodLockHash s) !! u) ->
  (forall q i, lock_holds l' q i <-> lock_holds (lock_at s t) q i \/ (gained = true /\ q = p /\ i = m)) ->
  holdings s s' p t m gained.
Proof.
  intros El Hh q u i. apply map_eq in El. rewrite El, table_holds_alter. case_bool_decide as E.
  - subst u. cbn. rewrite Hh, lock_at_holds. naive_solver.
  - naive_solver.
Qed.

Lemma counts_grant s s' p t m ll o aw :
  locallock_ok ll ->
  (LockMethodLocalHash (backend s p) !! (t, m) = Some ll \/
   (LockMethodLocalHash (backend s p) !! (t, m) = None /\ ll = new_locallock)) ->
  (forall q, backend s' q = upd (backend s) p (granted_local (backend s p) (t, m) ll o aw) q) ->
  counts s s' p t m o 1.
Proof.
  intros Hok Hll Ebk q u i o'. unfold times. rewrite Ebk. unfold upd. destruct (decide (q = p)) as [->|Hne].
  2:{ rewrite bool_decide_eq_false_2 by naive_solver. destruct (_ !! _); lia. }
  cbn [granted_local LockMethodLocalHash]. destruct (decide ((u, i) = (t, m))) as [[= -> ->]|Hne].
  - rewrite lookup_partial_alter_eq. cbn [GrantLockLocal lockOwners]. destruct (grant_owner_spec o _ (ll_owners _ Hok)) as (_ & _ & ->).
    assert (Ec : match LockMethodLocalHash (backend s p) !! (t, m) with
      | Some ll => owner_count o' (lockOwners ll) | None => 0 end = owner_count o' (lockOwners ll))
      by (by destruct Hll as [->|[-> ->]]).
    rewrite Ec. repeat case_bool_decide; naive_solver lia.
  - rewrite lookup_partial_alter_ne by congruence. rewrite bool_decide_eq_false_2 by naive_solver.
    destruct (_ !! _); lia.
Qed.

Lemma counts_same s s' p t m o :
  (forall q u i o', times s' q u i o' = times s q u i o') -> counts s s' p t m o 0.
Proof. intros H q u i o'. rewrite H. case_bool_decide; lia. Qed.

(** What a call of [LockAcquireExtended] with valid arguments did. *)
Definition acquire_post (lmt : LockMethodData) (s s' : LockState) (p : ProcNumber) (env : lock_env) (t : LOCKTAG)
    (m : LOCKMODE) (o : option ResourceOwner) (dontWait reportMemoryError : bool) (r : result acquire_outcome) : Prop :=
  let unavail := unavailable lmt lockGroupLeader (lock_at s t) p m in
  let no_room := lock_room env = false \/ proclock_room env = false in
  match r with
  | Ok (Returned LOCKACQUIRE_OK) =>
      ~ table_holds (LockMethodLockHash s) p t m /\
      ~ held_conflict lmt lockGroupLeader (lock_at s t) p m /\
      ((forall w, w ∈ waitProcs (lock_at s t) -> ~ conflicts lmt m (waitLockMode w)) \/
       overtakes lmt lockGroupLeader (lock_at s t) p m) /\
      holdings s s' p t m true /\ counts s s' p t m o 1
  | Ok (Returned LOCKACQUIRE_NOT_AVAIL) =>
      (dontWait = true /\ unavail \/ reportMemoryError = false /\ no_room) /\ holdings s s' p t m false /\ counts s s' p t m o 0
  | Ok (Returned _) =>
      table_holds (LockMethodLockHash s) p t m /\ holdings s s' p t m false /\ counts s s' p t m o 1
  | Ok Asleep =>
      dontWait = false /\ unavail /\ waitLock (backend s' p) = Some (t, m) /\
      holdings s s' p t m false /\ counts s s' p t m o 0
  | Err e =>
      (err_code e = ERRCODE_OUT_OF_MEMORY /\ reportMemoryError = true /\ no_room \/
       err_code e = ERRCODE_T_R_DEADLOCK_DETECTED /\ dontWait = false /\ unavail /\
       deadlock_pair lmt lockGroupLeader (lock_at s t) p m) /\
      holdings s s' p t m false /\ counts s s' p t m o 0
  end.

Section Acquire.

Context (s : LockState) (p : ProcNumber) (env : lock_env) (t : LOCKTAG) (m : LOCKMODE).
Context (o : option ResourceOwner) (dontWait reportMemoryError : bool) (lmt : LockMethodData) `{!LockMethodOK lmt}.
Hypothesis Hs : sys_ok s.
Hypothesis Ha : awaitedLock (backend s p) = None.
Hypothesis Hlmt : LockMethods (locktag_lockmethodid t) = Some lmt.
Hypothesis Hm : 1 <= m <= numLockModes lmt.

Let key : LOCALLOCKTAG := (t, m).
Let ll : LOCALLOCK := default new_locallock (LockMethodLocalHash (backend s p) !! key).

Lemma ll_is : LockMethodLocalHash (backend s p) !! key = Some ll \/
  (LockMethodLocalHash (backend s p) !! key = None /\ ll = new_locallock).
Proof. unfold ll. destruct (_ !! key); cbn; auto. Qed.

Lemma ll_ok : locallock_ok ll.
Proof.
  destruct ll_is as [E|[_ ->]].
  - by eapply (bk_local _ (ag_backend _ _ (sys_agree _ _ Hs) p)).
  - split; [split; [constructor|done]|done].
Qed.

Lemma local_holds_ll : local_holds (backend s p) t m <-> 0 < nLocks ll.
Proof.
  unfold local_holds. fold key. destruct ll_is as [->|[-> ->]]; [naive_solver|]. cbn. naive_solver lia.
Qed.

(** The states of the branches that record the grant in the local table. *)
Lemma grant_backend s1 :
  (forall q, backend s1 q = backend (set_local p key (Some ll) s) q) ->
  forall q, backend (set_local p key (Some (GrantLockLocal ll o)) s1) q =
    upd (backend s) p (granted_local (backend s p) key ll o None) q.
Proof.
  intros E q. rewrite backend_set_local, E, backend_set_local, upd_same. unfold upd. destruct (decide (q = p)).
  - unfold granted_local. cbn. by rewrite Ha, alter_twice.
  - rewrite E, backend_set_local. by apply upd_other.
Qed.

Lemma acquire_already :
  0 < nLocks ll ->
  let s' := set_local p key (Some (GrantLockLocal ll o)) (set_local p key (Some ll) s) in
  sys_ok s' /\ table_holds (LockMethodLockHash s) p t m /\ holdings s s' p t m false /\ counts s s' p t m o 1.
Proof.
  intros Hpos s'. destruct (running_backend s p t m Hs Ha) as (Hw & _ & Hh).
  pose proof (grant_backend (set_local p key (Some ll) s) (fun q => eq_refl)) as Eb.
  assert (Hl : local_holds (backend s p) t m) by (by apply local_holds_ll).
  split; [|split; [by apply Hh|split]].
  - apply (sys_set_backend s p (granted_local (backend s p) key ll o None)); [done|done|exact Eb| |done|].
    + apply granted_local_ok; [apply Hs|apply ll_ok|done].
    + intros u i. unfold knows. rewrite granted_local_holds by apply ll_ok.
      unfold unnoticed. cbn. rewrite Ha. split; [|naive_solver].
      intros [[?|Hk]|(_ & _ & ? & ?)]; [by left| |done]. unfold key in Hk. injection Hk as Eu Ei.
      rewrite Eu, Ei. by left.
  - intros q u i. naive_solver.
  - eapply counts_grant; [apply ll_ok|apply ll_is|exact Eb].
Qed.

Lemma acquire_granted l' s1 :
  ~ table_holds (LockMethodLockHash s) p t m ->
  request_outcome lmt lockGroupLeader p (lock_at s t) m dontWait (l', PROC_WAIT_STATUS_OK) ->
  (forall q, backend s1 q = backend (set_local p key (Some ll) s) q) ->
  (forall u, LockMethodLockHash s1 !! u = partial_alter (fun _ => Some l') t (LockMethodLockHash s) !! u) ->
  let s' := set_local p key (Some (GrantLockLocal ll o)) s1 in
  sys_ok s' /\ acquire_post lmt s s' p env t m o dontWait reportMemoryError (Ok (Returned LOCKACQUIRE_OK)).
Proof.
  intros Hn (Hinv & Ht & Hpos & Hq & Hh & Hnc & Hpass) Eb El s'.
  destruct (running_backend s p t m Hs Ha) as (Hw & Hnq & _).
  destruct (lock_at_inv s t lmt Hs Hlmt _) as (_ & Htag).
  pose proof (grant_backend s1 Eb) as Eb'. split.
  - apply (sys_put s p (granted_local (backend s p) key ll o None) t lmt l'); try done.
    + congruence.
    + apply granted_local_ok; [apply Hs|apply ll_ok|done].
    + intros i. rewrite Hq, lock_at_waits. apply (ag_waits _ _ (sys_agree _ _ Hs)).
    + intros i. rewrite Hh, lock_at_holds. unfold knows. rewrite granted_local_holds by apply ll_ok.
      destruct (running_backend s p t i Hs Ha) as (_ & _ & ->). unfold unnoticed. cbn. unfold key. naive_solver.
    + intros q i _. by rewrite Hq.
    + intros q i Hne. rewrite Hh. naive_solver.
    + intros u i Hne. unfold knows. rewrite granted_local_holds by apply ll_ok. unfold unnoticed. cbn.
      rewrite Ha. unfold key. naive_solver.
  - split; [done|]. split; [done|]. split; [done|]. split.
    + eapply holdings_put; [exact El|]. intros q i. rewrite Hh. naive_solver.
    + eapply counts_grant; [apply ll_ok|apply ll_is|exact Eb'].
Qed.

(** The local table with an entry that counts nothing, or without it. *)
Definition idle_backend (r : option LOCALLOCK) (b : Backend) (wl : option LOCALLOCKTAG) (st : ProcWaitStatus)
    (aw : option (LOCALLOCKTAG * option ResourceOwner)) : Backend :=
  mkBackend (partial_alter (fun _ => r) key (LockMethodLocalHash b)) wl st aw.

Lemma idle_local_holds r wl st aw u i :
  ~ 0 < nLocks ll -> (r = None \/ r = Some ll) ->
  local_holds (idle_backend r (backend s p) wl st aw) u i <-> local_holds (backend s p) u i.
Proof.
  intros Hn Hr. destruct (decide ((u, i) = key)) as [E|Hne].
  - assert (u = t /\ i = m) as [-> ->] by (unfold key in E; by injection E).
    rewrite local_holds_ll. unfold local_holds. cbn. rewrite E, lookup_partial_alter_eq. naive_solver.
  - unfold local_holds. cbn. by rewrite lookup_partial_alter_ne by congruence.
Qed.

Lemma idle_backend_local r wl st aw k x :
  (r = None \/ r = Some ll) -> LockMethodLocalHash (idle_backend r (backend s p) wl st aw) !! k = Some x ->
  locallock_ok x.
Proof.
  intros Hr. cbn. destruct (decide (k = key)) as [->|Hne].
  - rewrite lookup_partial_alter_eq. pose proof ll_ok. naive_solver.
  - rewrite lookup_partial_alter_ne by done. apply (bk_local _ (ag_backend _ _ (sys_agree _ _ Hs) p)).
Qed.

Lemma idle_times r wl st aw s' :
  ~ 0 < nLocks ll -> (r = None \/ r = Some ll) ->
  (forall q, backend s' q = upd (backend s) p (idle_backend r (backend s p) wl st aw) q) ->
  counts s s' p t m o 0.
Proof.
  intros Hn Hr Eb. apply counts_same. intros q u i o'. unfold times. rewrite Eb. unfold upd.
  destruct (decide (q = p)) as [->|]; [|done]. cbn [idle_backend LockMethodLocalHash].
  destruct (decide ((u, i) = key)) as [E|Hne].
  - rewrite E, lookup_partial_alter_eq. pose proof ll_ok as Hok. pose proof (nLocks_nonneg ll Hok) as Hnn.
    assert (Ez : lockOwners ll = []).
    { apply owner_total_zero; [apply Hok|]. rewrite <- (ll_nLocks _ Hok). lia. }
    destruct ll_is as [->|[-> _]]; destruct Hr as [->| ->]; by rewrite ?Ez.
  - by rewrite lookup_partial_alter_ne by congruence.
Qed.

Lemma acquire_waiting l' s1 :
  ~ 0 < nLocks ll ->
  request_outcome lmt lockGroupLeader p (lock_at s t) m dontWait (l', PROC_WAIT_STATUS_WAITING) ->
  (forall q, backend s1 q = backend (set_local p key (Some ll) s) q) ->
  (forall u, LockMethodLockHash s1 !! u = partial_alter (fun _ => Some l') t (LockMethodLockHash s) !! u) ->
  let s' := set_wait p (Some key) PROC_WAIT_STATUS_WAITING (Some (key, o)) s1 in
  sys_ok s' /\ acquire_post lmt s s' p env t m o dontWait reportMemoryError (Ok Asleep).
Proof.
  intros Hn (Hdw & Hinv & Ht & Hpos & Hh & Hq & Hun) Eb El s'.
  destruct (running_backend s p t m Hs Ha) as (Hw & Hnq & _).
  destruct (lock_at_inv s t lmt Hs Hlmt _) as (_ & Htag).
  set (b := idle_backend (Some ll) (backend s p) (Some key) PROC_WAIT_STATUS_WAITING (Some (key, o))).
  assert (Eb' : forall q, backend s' q = upd (backend s) p b q).
  { intros q. unfold s', set_wait. rewrite backend_set_backend, Eb, backend_set_local, upd_same.
    unfold upd. destruct (decide (q = p)); [done|]. rewrite Eb, backend_set_local. by apply upd_other. }
  assert (Hk : forall u i, knows b u i <-> knows (backend s p) u i).
  { intros u i. unfold knows, b. rewrite idle_local_holds by auto. unfold unnoticed. cbn. rewrite Ha. naive_solver. }
  split.
  - apply (sys_put s p b t lmt l'); try done.
    + congruence.
    + split; cbn; [|done| |].
      * intros k [= <-]. eauto.
      * intros k o' [= <- <-]. exists ll. rewrite lookup_partial_alter_eq. split; [done|].
        pose proof (nLocks_nonneg ll ll_ok). lia.
      * intros k x. apply (idle_backend_local (Some ll) None PROC_WAIT_STATUS_OK None). auto.
    + intros i. rewrite Hq, lock_at_waits, (ag_waits _ _ (sys_agree _ _ Hs)), Hw. unfold b, key. cbn. naive_solver.
    + intros i. rewrite Hk, Hh, lock_at_holds. apply (ag_holds _ _ (sys_agree _ _ Hs)).
    + intros q i Hne. rewrite Hq. naive_solver.
    + intros u i Hne. rewrite Hw. unfold b, key. cbn. naive_solver.
  - split; [done|]. split; [done|]. split; [by rewrite Eb', upd_same|]. split.
    + eapply holdings_put; [exact El|]. intros q i. rewrite Hh. naive_solver.
    + eapply (idle_times (Some ll)); [done|auto|exact Eb'].
Qed.

Lemma drop_local_backend s1 :
  (forall q, backend s1 q = backend (set_local p key (Some ll) s) q) ->
  forall q, backend (set_local p key None s1) q =
    upd (backend s) p (idle_backend None (backend s p) (waitLock (backend s p)) (waitStatus (backend s p)) None) q.
Proof.
  intros Eb q. rewrite backend_set_local, Eb, backend_set_local, upd_same. unfold upd.
  destruct (decide (q = p)); [|rewrite Eb, backend_set_local; by apply upd_other].
  unfold idle_backend. cbn. by rewrite Ha, alter_twice.
Qed.

Lemma dropped_backend :
  ~ 0 < nLocks ll ->
  let b := idle_backend None (backend s p) (waitLock (backend s p)) (waitStatus (backend s p)) None in
  backend_ok b /\ forall u i, knows b u i <-> knows (backend s p) u i.
Proof.
  intros Hn b. destruct (running_backend s p t m Hs Ha) as (Hw & _ & _). split.
  - split; cbn; [congruence|apply (bk_status _ (ag_backend _ _ (sys_agree _ _ Hs) p))|done|].
    intros k x. apply (idle_backend_local None None PROC_WAIT_STATUS_OK None). auto.
  - intros u i. unfold knows, b. rewrite idle_local_holds by auto. unfold unnoticed. cbn. rewrite Ha. naive_solver.
Qed.

(** The request is given up: the object is what it was. *)
Lemma acquire_aborted s1 :
  ~ 0 < nLocks ll -> ~ table_holds (LockMethodLockHash s) p t m ->
  unavailable lmt lockGroupLeader (lock_at s t) p m ->
  (forall q, backend s1 q = backend (set_local p key (Some ll) s) q) ->
  (forall u, LockMethodLockHash s1 !! u = partial_alter (fun _ =>
     Some (abort_request p (request lockGroupLeader p m (lock_at s t)) m)) t (LockMethodLockHash s) !! u) ->
  let s' := set_local p key None s1 in
  sys_ok s' /\ holdings s s' p t m false /\ counts s s' p t m o 0.
Proof.
  intros Hn Hnh Hun Eb El s'. destruct (running_backend s p t m Hs Ha) as (Hw & Hnq & _).
  destruct (lock_at_inv s t lmt Hs Hlmt _) as (Hinv & Htag).
  pose proof (drop_local_backend s1 Eb) as Eb'. destruct (dropped_backend Hn) as (Hbok & Hk).
  destruct (abort_request_inv lmt lockGroupLeader p m (lock_at s t) Hinv Hm Hnq ltac:(by rewrite lock_at_holds))
    as (Hinv' & [Ht Hq Hh] & En).
  assert (Hpos : 0 < nRequested (lock_at s t)).
  { pose proof (nRequested_nonneg _ _ _ _ (inv_wf _ _ _ Hinv)).
    destruct (Z.eq_dec (nRequested (lock_at s t)) 0) as [E|E]; [|lia].
    destruct (nRequested_zero _ _ _ _ (inv_wf _ _ _ Hinv) E) as [Hwq Hnoh].
    destruct Hun as [(q & i & _ & _ & _ & Hx)|(w & Hx & _)]; [by apply Hnoh in Hx|]. rewrite Hwq in Hx. set_solver. }
  split; [|split].
  - eapply (sys_put s p _ t lmt); [done|done| | |exact Hinv'|exact El|exact Eb'|done|..].
    + congruence.
    + by rewrite En.
    + intros i. rewrite Hq, lock_at_waits. apply (ag_waits _ _ (sys_agree _ _ Hs)).
    + intros i. rewrite Hk, Hh, lock_at_holds. apply (ag_holds _ _ (sys_agree _ _ Hs)).
    + intros q i _. by rewrite Hq.
    + intros q i _. apply Hh.
    + done.
    + intros u i _. apply Hk.
  - eapply holdings_put; [exact El|]. intros q i. rewrite Hh. naive_solver.
  - eapply (idle_times None); [done|auto|exact Eb'].
Qed.

Lemma acquire_no_room s1 :
  ~ 0 < nLocks ll ->
  (forall q, backend s1 q = backend (set_local p key (Some ll) s) q) ->
  LockMethodLockHash s1 = LockMethodLockHash s ->
  let s' := set_local p key None s1 in
  sys_ok s' /\ holdings s s' p t m false /\ counts s s' p t m o 0.
Proof.
  intros Hn Eb El s'. pose proof (drop_local_backend s1 Eb) as Eb'. destruct (dropped_backend Hn) as (Hbok & Hk).
  split; [|split].
  - by eapply (sys_set_backend s p).
  - intros q u i. unfold s'. cbn. rewrite El. naive_solver.
  - eapply (idle_times None); [done|auto|exact Eb'].
Qed.

End Acquire.

(** The argument checks of [LockAcquireExtended]. *)
Definition acquire_args (env : lock_env) (t : LOCKTAG) (m : LOCKMODE) (lmt : LockMethodData) : Prop :=
  LockMethods (locktag_lockmethodid t) = Some lmt /\ 1 <= m <= numLockModes lmt /\
  ~ (RecoveryInProgress env = true /\ (locktag_type t = LOCKTAG_OBJECT \/ locktag_type t = LOCKTAG_RELATION) /\
     RowExclusiveLock < m).

Lemma LockAcquireExtended_ok s p env t m sessionLock dontWait reportMemoryError lmt :
  sys_ok s -> awaitedLock (backend s p) = None -> acquire_args env t m lmt ->
  exists r s', LockAcquireExtended lockGroupLeader p env t m sessionLock dontWait reportMemoryError s = (r, s') /\
    sys_ok s' /\ acquire_post lmt s s' p env t m (lock_owner env sessionLock) dontWait reportMemoryError r.
Proof.
  intros Hs Ha (Hlmt & Hm & Hrec). pose proof (LockMethods_ok _ _ Hlmt) as Hok. unfold LockAcquireExtended.
  rewrite Hlmt. destruct (Z.leb_spec m 0); [lia|]. destruct (Z.ltb_spec (numLockModes lmt) m); [lia|]. cbn [orb].
  destruct (RecoveryInProgress env && _ && (RowExclusiveLock <? m)) eqn:Er.
  { split_bool. destruct Hrec. split; [done|]. split; [by eapply bool_decide_eq_true_1|lia]. }
  clear Er. set (o := lock_owner env sessionLock).
  set (ll := default new_locallock (LockMethodLocalHash (backend s p) !! (t, m))).
  destruct (Z.ltb_spec 0 (nLocks ll)) as [Hpos|Hpos].
  { destruct (acquire_already s p t m o lmt Hs Ha Hm Hpos) as (? & ? & ? & ?).
    eexists _, _. split; [done|]. split; [done|]. by destruct (lockCleared ll). }
  assert (Hn : ~ 0 < nLocks ll) by lia.
  destruct (running_backend s p t m Hs Ha) as (Hw & Hnq & Hth).
  assert (Hnh : ~ table_holds (LockMethodLockHash s) p t m).
  { rewrite Hth. intros (x & E & Hx). apply Hn. unfold ll. by rewrite E. }
  destruct (lock_at_inv s t lmt Hs Hlmt _) as (Hinv & Htag).
  assert (Hl0 : ~ lock_holds (lock_at s t) p m) by (by rewrite lock_at_holds).
  set (s0 := set_local p (t, m) (Some ll) s).
  destruct (SetupLockInTable_spec lmt p env t m (LockMethodLockHash s) (lock_at s t) Hok Hm Hl0) as [E|[E Hroom]].
  { unfold lock_at. destruct (LockMethodLockHash s !! t) as [l|] eqn:El; cbn; [left|by right].
    split; [done|]. by destruct (sys_locks _ _ Hs t l El) as (_ & ? & _). }
  2:{ change (LockMethodLockHash s0) with (LockMethodLockHash s). rewrite E.
      destruct (acquire_no_room s p t m o lmt Hs Ha Hm s0 Hn (fun q => eq_refl) eq_refl) as (? & ? & ?).
      destruct reportMemoryError; eexists _, _; (split; [done|]); (split; [done|]); cbn; auto. }
  change (LockMethodLockHash s0) with (LockMethodLockHash s). rewrite E, lookup_insert_eq.
  destruct (grant_or_join_spec lmt lockGroupLeader p (lock_at s t) m dontWait Hinv Hm Hnq Hl0) as ([l' st] & -> & Hout).
  assert (Ehash : forall r u, LockMethodLockHash (put_lock t r (set_locks (<[t := request lockGroupLeader p m (lock_at s t)]>
      (LockMethodLockHash s)) s0)) !! u = partial_alter (fun _ => r) t (LockMethodLockHash s) !! u).
  { intros r u. cbn. unfold insert, map_insert. by rewrite alter_twice. }
  destruct st.
  - eexists _, _. split; [done|]. by apply (acquire_granted s p env t m o dontWait reportMemoryError lmt Hs Ha Hlmt Hm l').
  - eexists _, _. split; [done|]. by apply (acquire_waiting s p env t m o dontWait reportMemoryError lmt Hs Ha Hlmt Hm l').
  - destruct Hout as (-> & Hun & Hd).
    destruct (acquire_aborted s p t m o lmt Hs Ha Hlmt Hm
      (put_lock t (Some (abort_request p (request lockGroupLeader p m (lock_at s t)) m))
         (set_locks (<[t := request lockGroupLeader p m (lock_at s t)]> (LockMethodLockHash s)) s0))
      Hn Hnh Hun (fun q => eq_refl) (Ehash _)) as (? & ? & ?).
    destruct dontWait; eexists _, _; (split; [done|]); (split; [done|]); cbn; auto.
    destruct Hd as [?|Hd]; [done|]. auto 8.
Qed.

(** A lock that the backend holds already is granted again. *)
Lemma LockAcquireExtended_again s p env t m sessionLock dontWait reportMemoryError lmt :
  local_holds (backend s p) t m -> acquire_args env t m lmt ->
  exists a s', LockAcquireExtended lockGroupLeader p env t m sessionLock dontWait reportMemoryError s =
    (Ok (Returned a), s') /\ a <> LOCKACQUIRE_NOT_AVAIL.
Proof.
  intros (ll & E & Hpos) (Hlmt & Hm & Hrec). unfold LockAcquireExtended.
  rewrite Hlmt. destruct (Z.leb_spec m 0); [lia|]. destruct (Z.ltb_spec (numLockModes lmt) m); [lia|]. cbn [orb].
  destruct (RecoveryInProgress env && _ && (RowExclusiveLock <? m)) eqn:Er.
  { split_bool. destruct Hrec. split; [done|]. split; [by eapply bool_decide_eq_true_1|lia]. }
  rewrite E. cbn [default from_option]. unfold id. destruct (Z.ltb_spec 0 (nLocks ll)); [|lia].
  eexists _, _. split; [reflexivity|]. by destruct (lockCleared ll).
Qed.

(** *** Releasing *)

(** What changed hands when [p] gave up the modes [gone] of the object [t]:
    waiters of the object may have been granted what they waited for. *)
Definition handover (s s' : LockState) (p : ProcNumber) (t : LOCKTAG) (gone : LOCKMODE -> Prop) : Prop :=
  forall q u i, table_holds (LockMethodLockHash s') q u i <->
    (table_holds (LockMethodLockHash s) q u i /\ ~ (q = p /\ u = t /\ gone i)) \/
    (u = t /\ table_waits (LockMethodLockHash s) q t i /\ ~ table_waits (LockMethodLockHash s') q t i).

Lemma table_holds_at locks q t i l : locks !! t = Some l -> table_holds locks q t i <-> lock_holds l q i.
Proof. intros E. unfold table_holds. rewrite E. naive_solver. Qed.

Lemma table_waits_at locks q t i l : locks !! t = Some l -> table_waits locks q t i <-> queue_waits (waitProcs l) q i.
Proof. intros E. unfold table_waits. rewrite E. naive_solver. Qed.

Lemma handover_cleaned lmt s s' p t l l1 r woken (gone : LOCKMODE -> Prop) :
  LockMethodLockHash s !! t = Some l -> waitProcs l1 = waitProcs l -> NoDup (procNumber <$> waitProcs l) ->
  (forall q i, lock_holds l1 q i <-> lock_holds l q i /\ ~ (q = p /\ gone i)) ->
  cleaned lmt lockGroupLeader l1 r woken ->
  LockMethodLockHash s' = partial_alter (fun _ => r) t (LockMethodLockHash s) ->
  handover s s' p t gone.
Proof.
  intros El Hq Hnd Hh Hc El' q u i. rewrite El', table_holds_alter, table_waits_alter.
  rewrite (bool_decide_eq_true_2 (t = t)) by done. case_bool_decide as E; [|naive_solver]. subst u.
  rewrite (table_holds_at _ _ _ _ l), (table_waits_at _ _ _ _ l) by done. destruct r as [l'|]; cbn.
  - destruct Hc as (_ & _ & _ & Hq' & Hwk & Hh'). rewrite Hh', Hh, Hq', Hq.
    assert (Hex : (q ∈ woken /\ exists w, w ∈ waitProcs l /\ procNumber w = q /\ waitLockMode w = i) <->
      queue_waits (waitProcs l) q i /\ ~ queue_waits (filter (fun w => procNumber w ∉ woken) (waitProcs l)) q i).
    { unfold queue_waits. setoid_rewrite list_elem_of_filter. split.
      - intros (Hin & w & ? & ? & ?). split; [by exists w|]. intros (w' & [? _] & ? & _). congruence.
      - intros ((w & Hw & Ew & Em) & Hn). split; [|by exists w].
        destruct (decide (q ∈ woken)); [done|]. destruct Hn. exists w. by subst. }
    rewrite Hex. naive_solver.
  - destruct Hc as (_ & Hq0 & Hn). rewrite <- Hq, Hq0. split; [done|].
    intros [[Hx Hy]|(_ & (w & Hw & _) & _)]; [|set_solver]. apply (Hn q i). apply Hh. naive_solver.
Qed.

(** The backend without the local entry of a released lock. *)
Definition released_backend (b : Backend) (k : LOCALLOCKTAG) : Backend :=
  mkBackend (partial_alter (fun _ => None) k (LockMethodLocalHash b)) (waitLock b) (waitStatus b) (awaitedLock b).

Lemma released_local b k u i :
  local_holds (released_backend b k) u i <-> local_holds b u i /\ (u, i) <> k.
Proof.
  unfold local_holds. cbn. destruct (decide ((u, i) = k)) as [->|Hne].
  - rewrite lookup_partial_alter_eq. naive_solver.
  - rewrite lookup_partial_alter_ne by congruence. naive_solver.
Qed.

Lemma released_backend_ok b k : backend_ok b -> awaitedLock b = None -> backend_ok (released_backend b k).
Proof.
  intros [B1 B2 B3 B4] Ha. split; cbn; [exact B1|exact B2|congruence|]. intros k' x.
  destruct (decide (k' = k)) as [->|Hne]; [by rewrite lookup_partial_alter_eq|].
  rewrite lookup_partial_alter_ne by done. apply B4.
Qed.

Lemma knows_running b u i : awaitedLock b = None -> knows b u i <-> local_holds b u i.
Proof. intros Ha. unfold knows, unnoticed. rewrite Ha. naive_solver. Qed.

Lemma release_shared_ok s p t m lmt ll0 :
  sys_ok s -> awaitedLock (backend s p) = None -> LockMethods (locktag_lockmethodid t) = Some lmt ->
  local_holds (backend s p) t m ->
  exists s', release_shared lockGroupLeader p lmt (t, m) (set_local p (t, m) ll0 s) = (Ok true, s') /\
    sys_ok s' /\ backend s' p = released_backend (backend s p) (t, m) /\
    (forall q, q <> p -> LockMethodLocalHash (backend s' q) = LockMethodLocalHash (backend s q)) /\
    handover s s' p t (eq m).
Proof.
  intros Hs Ha Hlmt Hloc. pose proof (LockMethods_ok _ _ Hlmt) as Hok.
  destruct (running_backend s p t m Hs Ha) as (Hw & Hnq & Hth).
  apply Hth in Hloc as (l & El & Hh). unfold lock_at in Hnq. rewrite El in Hnq. cbn in Hnq.
  destruct (sys_lookup s t l Hs El) as (Ht & lmt' & Hlmt' & _ & Hinv). assert (lmt' = lmt) as -> by congruence.
  pose proof (inv_wf _ _ _ Hinv) as Hwf. pose proof Hh as (pl & Hpl & Hp & Hhp).
  pose proof (lock_holds_mode _ _ _ _ _ _ Hwf Hh) as Hm.
  unfold release_shared. change (LockMethodLockHash (set_local p (t, m) ll0 s)) with (LockMethodLockHash s).
  rewrite El, (find_proclock_spec l p pl (wf_proclocks _ _ _ _ Hwf) Hpl Hp), (lockbit_zero lmt) by done.
  unfold holds in Hhp. rewrite Hhp. cbn [negb].
  pose proof (release_mode_spec lmt lockGroupLeader p l p m Hinv Hnq Hh) as Hrel.
  destruct (UnGrantLock lmt l m p) as [l1 wk]. destruct Hrel as (Ht1 & Hq1 & Hh1 & r & woken & -> & Hc).
  assert (Hnw : p ∉ woken).
  { intros Hin. apply Hnq. rewrite <- Hq1. destruct r; [by apply Hc|]. destruct Hc as [-> _]. set_solver. }
  set (s' := set_local p (t, m) None _).
  assert (Eh : LockMethodLockHash s' = partial_alter (fun _ => r) t (LockMethodLockHash s)).
  { unfold s'. cbn. by rewrite locks_ProcWakeup. }
  assert (Eb : forall q, backend s' q = if bool_decide (q ∈ woken)
    then woken_backend (upd (backend s) p (released_backend (backend s p) (t, m)) q)
    else upd (backend s) p (released_backend (backend s p) (t, m)) q).
  { intros q. unfold s'. rewrite backend_set_local, !backend_ProcWakeup, bool_decide_eq_false_2 by done.
    rewrite backend_put_lock, backend_set_local, upd_same. destruct (decide (q = p)) as [->|Hne].
    - rewrite bool_decide_eq_false_2, !upd_same by done. unfold released_backend. cbn. by rewrite alter_twice.
    - rewrite !upd_other, backend_ProcWakeup, backend_put_lock, backend_set_local, upd_other by done. done. }
  exists s'. split; [done|]. split; [|split; [|split]].
  - eapply (settle s p _ t lmt l1 r woken); [done|done|congruence| | |exact Hc|exact Eh|exact Eb].
    { rewrite Hq1. apply (wf_queue _ _ _ _ Hwf). }
    pose proof (sys_agree _ _ Hs) as [G1 G2 G3].
    apply (agree_update_one _ _ _ _ _ _ (Some l)); [apply Hs|by rewrite El|by rewrite El| |..].
    + by apply released_backend_ok.
    + intros i. cbn. rewrite Hq1, <- (table_waits_at _ _ t _ _ El). apply G2.
    + intros i. cbn. rewrite Hh1, knows_running, released_local by done.
      rewrite <- (table_holds_at _ _ t _ _ El), G3, knows_running by done. naive_solver.
    + intros q i _. cbn. by rewrite Hq1.
    + intros q i Hne. cbn. rewrite Hh1. naive_solver.
    + done.
    + intros u i Hne. rewrite !knows_running, released_local by done. naive_solver.
  - by rewrite Eb, bool_decide_eq_false_2, upd_same by done.
  - intros q Hne. rewrite Eb, upd_other by done. by case_bool_decide.
  - eapply handover_cleaned; [exact El|exact Hq1|apply (wf_queue _ _ _ _ Hwf)|exact Hh1|exact Hc|exact Eh].
Qed.

(** The backend with another count in a local entry. *)
Definition recount_backend (b : Backend) (k : LOCALLOCKTAG) (ll : LOCALLOCK) : Backend :=
  mkBackend (partial_alter (fun _ => Some ll) k (LockMethodLocalHash b)) (waitLock b) (waitStatus b) (awaitedLock b).

(** A local count changes and stays positive: the shared table is not touched. *)
Lemma recount_ok s p t m ll :
  sys_ok s -> awaitedLock (backend s p) = None -> local_holds (backend s p) t m ->
  locallock_ok ll -> 0 < nLocks ll ->
  let s' := set_local p (t, m) (Some ll) s in
  sys_ok s' /\ backend s' p = recount_backend (backend s p) (t, m) ll /\
  (forall q, q <> p -> backend s' q = backend s q).
Proof.
  intros Hs Ha Hloc Hok Hpos s'.
  assert (Eb : forall q, backend s' q = upd (backend s) p (recount_backend (backend s p) (t, m) ll) q)
    by apply backend_set_local.
  split; [|split; [by rewrite Eb, upd_same|intros q Hne; by rewrite Eb, upd_other]].
  eapply (sys_set_backend s p); [done|done|exact Eb| |done|].
  - destruct (ag_backend _ _ (sys_agree _ _ Hs) p) as [B1 B2 B3 B4]. split; cbn; [exact B1|exact B2|congruence|].
    intros k x. destruct (decide (k = (t, m))) as [->|Hne].
    + rewrite lookup_partial_alter_eq. by intros [= <-].
    + rewrite lookup_partial_alter_ne by done. apply B4.
  - intros u i. rewrite !knows_running by done. destruct (decide ((u, i) = (t, m))) as [[= -> ->]|Hne].
    + split; [done|]. intros _. exists ll. cbn. by rewrite lookup_partial_alter_eq.
    + unfold local_holds. cbn. by rewrite lookup_partial_alter_ne by congruence.
Qed.

(** What a call of [LockRelease] did. *)
Definition release_post (s s' : LockState) (p : ProcNumber) (t : LOCKTAG) (m : LOCKMODE)
    (o : option ResourceOwner) (b : bool) : Prop :=
  if b then
    0 < times s p t m o /\ counts s s' p t m o (-1) /\
    handover s s' p t (fun i => m = i /\ ~ local_holds (backend s' p) t m)
  else s' = s /\ times s p t m o = 0.

Lemma times_released s s' p t m o ll owners r :
  LockMethodLocalHash (backend s p) !! (t, m) = Some ll -> locallock_ok ll ->
  release_owner o (lockOwners ll) = Some owners ->
  LockMethodLocalHash (backend s' p) = partial_alter (fun _ => r) (t, m) (LockMethodLocalHash (backend s p)) ->
  (forall q, q <> p -> LockMethodLocalHash (backend s' q) = LockMethodLocalHash (backend s q)) ->
  match r with Some ll' => lockOwners ll' = owners | None => owner_total owners = 0 end ->
  0 < times s p t m o /\ counts s s' p t m o (-1).
Proof.
  intros El Hok Er Eb Ebo Hr. pose proof (release_owner_spec o _ (ll_owners _ Hok)) as Hsp. rewrite Er in Hsp.
  destruct Hsp as (Hoo & _ & Hpos & Hcnt). split; [unfold times; by rewrite El|].
  intros q u i o'. unfold times. destruct (decide (q = p)) as [->|Hne].
  2:{ rewrite Ebo by done. rewrite bool_decide_eq_false_2 by naive_solver. destruct (_ !! _); lia. }
  rewrite Eb. destruct (decide ((u, i) = (t, m))) as [[= -> ->]|Hne].
  - rewrite lookup_partial_alter_eq, El.
    assert (E : match r with Some ll' => owner_count o' (lockOwners ll') | None => 0 end = owner_count o' owners).
    { destruct r; [by rewrite Hr|]. apply owner_total_zero in Hr as ->; done. }
    rewrite E, Hcnt. repeat case_bool_decide; naive_solver lia.
  - rewrite lookup_partial_alter_ne, bool_decide_eq_false_2 by naive_solver. destruct (_ !! _); lia.
Qed.

Lemma LockRelease_ok s p env t m sessionLock lmt :
  sys_ok s -> awaitedLock (backend s p) = None -> LockMethods (locktag_lockmethodid t) = Some lmt ->
  1 <= m <= numLockModes lmt ->
  exists b s', LockRelease lockGroupLeader p env t m sessionLock s = (Ok b, s') /\ sys_ok s' /\
    awaitedLock (backend s' p) = None /\ release_post s s' p t m (lock_owner env sessionLock) b.
Proof.
  intros Hs Ha Hlmt Hm. unfold LockRelease. rewrite Hlmt. set (o := lock_owner env sessionLock).
  destruct (Z.leb_spec m 0); [lia|]. destruct (Z.ltb_spec (numLockModes lmt) m); [lia|]. cbn [orb].
  destruct (LockMethodLocalHash (backend s p) !! (t, m)) as [ll|] eqn:El.
  2:{ exists false, s. split; [done|]. split; [done|]. split; [done|]. split; [done|]. unfold times. by rewrite El. }
  pose proof (bk_local _ (ag_backend _ _ (sys_agree _ _ Hs) p) _ _ El) as Hok.
  pose proof (release_owner_spec o _ (ll_owners _ Hok)) as Hsp.
  destruct (Z.leb_spec (nLocks ll) 0) as [Hz|Hpos].
  { exists false, s. split; [done|]. split; [done|]. split; [done|]. split; [done|]. unfold times. rewrite El.
    pose proof (nLocks_nonneg ll Hok). rewrite (ll_nLocks _ Hok) in *.
    assert (E : lockOwners ll = []) by (apply owner_total_zero; [apply Hok|lia]). by rewrite E. }
  destruct (release_owner o (lockOwners ll)) as [owners|] eqn:Er.
  2:{ exists false, s. split; [done|]. split; [done|]. split; [done|]. split; [done|]. unfold times. by rewrite El. }
  destruct Hsp as (Hoo & Htot & _). assert (Hloc : local_holds (backend s p) t m) by (by exists ll).
  destruct (Z.ltb_spec 0 (nLocks ll - 1)) as [Hn|Hn].
  - set (ll' := mkLOCALLOCK (nLocks ll - 1) owners (lockCleared ll)).
    destruct (recount_ok s p t m ll' Hs Ha Hloc) as (Hs' & Ebp & Ebo); [|done|].
    { split; [done|]. cbn [ll' nLocks lockOwners]. rewrite Htot, (ll_nLocks _ Hok). done. }
    eexists true, _. split; [done|]. split; [done|]. split; [by rewrite Ebp|].
    edestruct (times_released s (set_local p (t, m) (Some ll') s) p t m o ll owners (Some ll')) as [? ?];
      [done|done|done|by rewrite Ebp|intros q Hne; by rewrite Ebo|done|].
    split; [done|]. split; [done|]. intros q u i.
    change (LockMethodLockHash (set_local p (t, m) (Some ll') s)) with (LockMethodLockHash s).
    assert (Hl' : local_holds (backend (set_local p (t, m) (Some ll') s) p) t m).
    { exists ll'. rewrite Ebp. cbn. by rewrite lookup_partial_alter_eq. }
    naive_solver.
  - destruct (release_shared_ok s p t m lmt (Some (mkLOCALLOCK (nLocks ll - 1) owners false)) Hs Ha Hlmt Hloc)
      as (s' & -> & Hs' & Ebp & Ebo & Hh).
    exists true, s'. split; [done|]. split; [done|]. split; [by rewrite Ebp|].
    edestruct (times_released s s' p t m o ll owners None) as [? ?]; [done|done|done|by rewrite Ebp|done| |].
    { rewrite Htot, <- (ll_nLocks _ Hok). lia. }
    split; [done|]. split; [done|]. intros q u i. rewrite (Hh q u i).
    assert (Hn' : ~ local_holds (backend s' p) t m) by (rewrite Ebp, released_local; naive_solver). naive_solver.
Qed.

(** *** Releasing all locks of an owner *)

(** A lock in the local table has a known method and a valid mode. *)
Lemma local_holds_valid s p t m :
  sys_ok s -> awaitedLock (backend s p) = None -> local_holds (backend s p) t m ->
  exists lmt, LockMethods (locktag_lockmethodid t) = Some lmt /\ 1 <= m <= numLockModes lmt.
Proof.
  intros Hs Ha Hl. destruct (running_backend s p t m Hs Ha) as (_ & _ & Hth). apply Hth in Hl as (l & El & Hh).
  destruct (sys_lookup s t l Hs El) as (_ & lmt & Hlmt & _ & [Hwf _ _]). exists lmt. split; [done|].
  by eapply lock_holds_mode.
Qed.

(** The owner [o] of backend [p] gave up the locks [gone]; all other counts are
    the same. *)
Definition owner_released (s s' : LockState) (p : ProcNumber) (o : option ResourceOwner)
    (gone : LOCALLOCKTAG -> Prop) : Prop :=
  forall q u i o', times s' q u i o' = times s q u i o' \/ (q = p /\ o' = o /\ gone (u, i) /\ times s' q u i o' = 0).

Lemma owner_count_slot o a x b :
  owners_ok (a ++ x :: b) -> owner x = o -> owner_count o (a ++ x :: b) = owner_nLocks x /\
  (forall o', owner_count o' (a ++ b) = if bool_decide (o' = o) then 0 else owner_count o' (a ++ x :: b)) /\
  owner_total (a ++ x :: b) = owner_nLocks x + owner_total (a ++ b) /\ owners_ok (a ++ b).
Proof.
  intros Hok Ho. assert (Hp : a ++ x :: b ≡ₚ x :: (a ++ b)) by (symmetry; apply Permutation_middle).
  rewrite Hp in Hok. apply owners_ok_cons in Hok as (Hni & Hpos & Hrest).
  assert (Hz : owner_count o (a ++ b) = 0) by (rewrite <- Ho; by apply owner_count_absent).
  split; [|split; [|split; [by rewrite Hp|done]]].
  - rewrite Hp, owner_count_cons, bool_decide_eq_true_2 by done. lia.
  - intros o'. rewrite Hp, owner_count_cons. destruct (decide (o' = o)) as [->|Hne].
    + by rewrite bool_decide_eq_true_2.
    + rewrite !bool_decide_eq_false_2 by congruence. lia.
Qed.

Lemma times_recount s p k ll q u j o' :
  times (set_local p k (Some ll) s) q u j o' =
  if bool_decide (q = p /\ (u, j) = k) then owner_count o' (lockOwners ll) else times s q u j o'.
Proof.
  unfold times. rewrite backend_set_local. unfold upd. destruct (decide (q = p)) as [->|Hne].
  2:{ by rewrite bool_decide_eq_false_2 by naive_solver. }
  cbn [LockMethodLocalHash]. destruct (decide ((u, j) = k)) as [<-|Hne].
  - by rewrite lookup_partial_alter_eq, bool_decide_eq_true_2.
  - by rewrite lookup_partial_alter_ne, bool_decide_eq_false_2 by naive_solver.
Qed.

(** Other owners hold the lock too: the slot is dropped. *)
Lemma drop_owner_ok s p t m ll a slot b :
  sys_ok s -> awaitedLock (backend s p) = None -> LockMethodLocalHash (backend s p) !! (t, m) = Some ll ->
  lockOwners ll = a ++ slot :: b -> owner_nLocks slot < nLocks ll ->
  let s' := set_local p (t, m)
    (Some (mkLOCALLOCK (nLocks ll - owner_nLocks slot) (drop_slot (length a) (lockOwners ll)) (lockCleared ll))) s in
  sys_ok s' /\ awaitedLock (backend s' p) = None /\ times s' p t m (owner slot) = 0 /\
  owner_released s s' p (owner slot) (eq (t, m)).
Proof.
  intros Hs Ha El Eab Hlt s'. pose proof (bk_local _ (ag_backend _ _ (sys_agree _ _ Hs) p) _ _ El) as Hok.
  destruct (owner_count_slot (owner slot) a slot b) as (Hc & Hc' & Htot & Hok'); [rewrite <- Eab; apply Hok|done|].
  pose proof (owner_total_nonneg _ Hok') as Hnn.
  assert (Hn : nLocks ll = owner_nLocks slot + owner_total (a ++ b)) by (by rewrite (ll_nLocks _ Hok), Eab).
  pose proof (ll_owners _ Hok) as [_ Hpos]. rewrite Eab in Hpos. apply Forall_app in Hpos as [_ [Hpos _]%Forall_cons].
  assert (Hloc : local_holds (backend s p) t m) by (exists ll; split; [done|lia]).
  destruct (recount_ok s p t m (mkLOCALLOCK (nLocks ll - owner_nLocks slot) (drop_slot (length a) (lockOwners ll))
    (lockCleared ll)) Hs Ha Hloc) as (Hs' & Ebp & Ebo).
  { split; cbn [nLocks lockOwners]; rewrite Eab, drop_slot_perm; [done|lia]. }
  { cbn [nLocks]. lia. }
  assert (Ht : forall q u j o', times s' q u j o' =
    if bool_decide (q = p /\ (u, j) = (t, m) /\ o' = owner slot) then 0 else times s q u j o').
  { intros q u j o'. unfold s'. rewrite times_recount. cbn [lockOwners]. rewrite Eab, drop_slot_perm, Hc'.
    assert (times s p t m o' = owner_count o' (a ++ slot :: b)) by (unfold times; by rewrite El, Eab).
    repeat case_bool_decide; naive_solver. }
  split; [done|]. split; [unfold s'; by rewrite Ebp|]. split.
  - by rewrite Ht, bool_decide_eq_true_2.
  - intros q u j o'. rewrite Ht. case_bool_decide; naive_solver.
Qed.

(** The owner is the only one: the lock is released once. *)
Lemma release_last_owner_ok s p env t m sessionLock ll slot :
  let o := lock_owner env sessionLock in
  sys_ok s -> awaitedLock (backend s p) = None -> LockMethodLocalHash (backend s p) !! (t, m) = Some ll ->
  lockOwners ll = [slot] -> owner slot = o ->
  exists b s', LockRelease lockGroupLeader p env t m sessionLock
      (set_local p (t, m) (Some (mkLOCALLOCK 1 [mkLOCALLOCKOWNER (owner slot) 1] (lockCleared ll))) s) = (Ok b, s') /\
    sys_ok s' /\ awaitedLock (backend s' p) = None /\ times s' p t m o = 0 /\ owner_released s s' p o (eq (t, m)).
Proof.
  intros o Hs Ha El Eab Eo. pose proof (bk_local _ (ag_backend _ _ (sys_agree _ _ Hs) p) _ _ El) as Hok.
  assert (Hloc : local_holds (backend s p) t m).
  { exists ll. split; [done|]. rewrite (ll_nLocks _ Hok), Eab, owner_total_cons.
    pose proof (ll_owners _ Hok) as [_ Hpos]. rewrite Eab in Hpos. apply Forall_cons in Hpos as [? _]. cbn. lia. }
  set (ll' := mkLOCALLOCK 1 _ _).
  destruct (recount_ok s p t m ll' Hs Ha Hloc) as (Hs1 & Ebp & Ebo); [|done|].
  { split; [|done]. cbn [ll' lockOwners]. split; [apply NoDup_singleton|by constructor]. }
  set (s1 := set_local p (t, m) (Some ll') s) in *.
  destruct (local_holds_valid s p t m Hs Ha Hloc) as (lmt & Hlmt & Hm).
  destruct (LockRelease_ok s1 p env t m sessionLock lmt Hs1) as (rb & s' & -> & Hs' & Ha' & Hpost);
    [by rewrite Ebp|done|done|]. fold o in Hpost.
  assert (Ht1 : forall q u j o', times s1 q u j o' = if bool_decide (q = p /\ (u, j) = (t, m))
    then (if bool_decide (o = o') then 1 else 0) else times s q u j o').
  { intros q u j o'. unfold s1. rewrite times_recount. cbn [ll' lockOwners]. rewrite owner_count_cons.
    cbn [owner owner_nLocks]. rewrite Eo. case_bool_decide; [|done]. change (owner_count o' []) with 0.
    case_bool_decide; lia. }
  assert (Ht0 : forall o', o' <> o -> times s p t m o' = 0).
  { intros o' Hne. unfold times. rewrite El, Eab, owner_count_cons, bool_decide_eq_false_2 by congruence. done. }
  exists rb, s'. split; [done|]. split; [done|]. split; [done|]. destruct rb.
  - destruct Hpost as (_ & Hcnt & _). split.
    + rewrite Hcnt, Ht1, !bool_decide_eq_true_2 by done. done.
    + intros q u j o'. rewrite Hcnt, Ht1. repeat case_bool_decide; naive_solver lia.
  - destruct Hpost as [_ Hz]. rewrite Ht1, !bool_decide_eq_true_2 in Hz by done. done.
Qed.

Lemma ReleaseLockIfHeld_ok s p env k sessionLock :
  let o := lock_owner env sessionLock in
  sys_ok s -> awaitedLock (backend s p) = None ->
  exists s', ReleaseLockIfHeld lockGroupLeader p env k sessionLock s = (Ok tt, s') /\ sys_ok s' /\
    awaitedLock (backend s' p) = None /\ times s' p k.1 k.2 o = 0 /\ owner_released s s' p o (eq k).
Proof.
  intros o Hs Ha. unfold ReleaseLockIfHeld. fold o. destruct k as [t m]. cbn [fst snd].
  assert (Hskip : times s p t m o = 0 -> exists s', (Ok (A:=unit) tt, s) = (Ok tt, s') /\ sys_ok s' /\
    awaitedLock (backend s' p) = None /\ times s' p t m o = 0 /\ owner_released s s' p o (eq (t, m))).
  { intros Hz. exists s. split; [done|]. split; [done|]. split; [done|]. split; [done|]. intros ? ? ? ?. by left. }
  destruct (LockMethodLocalHash (backend s p) !! (t, m)) as [ll|] eqn:El.
  2:{ apply Hskip. unfold times. by rewrite El. }
  pose proof (bk_local _ (ag_backend _ _ (sys_agree _ _ Hs) p) _ _ El) as Hok.
  destruct (find_owner o (lockOwners ll)) as [i|] eqn:Ef.
  2:{ apply Hskip. unfold times. rewrite El. by apply owner_count_absent, find_owner_None. }
  apply find_owner_Some in Ef as (slot & Eslot & Eo). rewrite Eslot.
  destruct (owner_slot _ _ _ Eslot) as (a & b & Eab & ->).
  destruct (Z.ltb_spec (owner_nLocks slot) (nLocks ll)) as [Hlt|Hge].
  - eexists. split; [done|]. rewrite <- Eo. by eapply drop_owner_ok.
  - destruct (owner_count_slot o a slot b) as (_ & _ & Htot & Hok'); [rewrite <- Eab; apply Hok|done|].
    assert (Hrest : a ++ b = []).
    { apply owner_total_zero; [done|]. pose proof (owner_total_nonneg _ Hok'). rewrite (ll_nLocks _ Hok), Eab in Hge. lia. }
    apply app_eq_nil in Hrest as [-> ->]. rewrite Eab. cbn [app length].
    destruct (release_last_owner_ok s p env t m sessionLock ll slot Hs Ha El Eab Eo) as (rb & s' & E & Hx).
    exists s'. split; [|done]. change (<[0%nat := mkLOCALLOCKOWNER (owner slot) 1]> [slot]) with
      [mkLOCALLOCKOWNER (owner slot) 1]. by rewrite E.
Qed.

Lemma release_if_held_ok keys s p env sessionLock :
  let o := lock_owner env sessionLock in
  sys_ok s -> awaitedLock (backend s p) = None ->
  exists s', release_if_held lockGroupLeader p env keys sessionLock s = (Ok tt, s') /\ sys_ok s' /\
    awaitedLock (backend s' p) = None /\ (forall k, k ∈ keys -> times s' p k.1 k.2 o = 0) /\
    owner_released s s' p o (fun k => k ∈ keys).
Proof.
  intros o. revert s. induction keys as [|k keys IH]; intros s Hs Ha.
  - exists s. split; [done|]. split; [done|]. split; [done|]. split; [set_solver|]. intros ? ? ? ?. by left.
  - destruct (ReleaseLockIfHeld_ok s p env k sessionLock Hs Ha) as (s1 & E & Hs1 & Ha1 & Hz & Hr). fold o in Hz, Hr.
    destruct (IH s1 Hs1 Ha1) as (s' & E' & Hs' & Ha' & Hz' & Hr').
    exists s'. split; [cbn; unfold mbind, ST_bind; by rewrite E|]. split; [done|]. split; [done|]. split.
    + intros k' [->|Hk]%elem_of_cons; [|by apply Hz'].
      destruct (Hr' p k.1 k.2 o) as [->|(_ & _ & _ & ?)]; done.
    + intros q u j o'. destruct (Hr' q u j o') as [->|(-> & -> & ? & ->)]; [|right; set_solver].
      destruct (Hr q u j o') as [->|(-> & -> & -> & ->)]; [by left|right; set_solver].
Qed.

(** *** [LockReleaseAll]: the first loop *)

(** The modes of [t] that the first loop marks for release. *)
Definition marks_of (id : Z) (allLocks : bool) (entries : list (LOCALLOCKTAG * LOCALLOCK)) (t : LOCKTAG) : LOCKMASK :=
  foldl (fun acc '(k, ll) =>
    if bool_decide (k.1 = t) && (release_local id allLocks k ll).2 then Z.lor acc (LOCKBIT_ON k.2) else acc)
    0 entries.

Lemma marks_of_snoc id allLocks entries k ll t :
  marks_of id allLocks (entries ++ [(k, ll)]) t =
  if bool_decide (k.1 = t) && (release_local id allLocks k ll).2
  then Z.lor (marks_of id allLocks entries t) (LOCKBIT_ON k.2) else marks_of id allLocks entries t.
Proof. unfold marks_of. by rewrite foldl_snoc. Qed.

Lemma mark_set_marks p m mask l : mark_release p m (set_marks p mask l) = set_marks p (Z.lor mask (LOCKBIT_ON m)) l.
Proof.
  unfold mark_release, set_marks. cbn [set_procLocks procLocks]. by rewrite update_proclock_twice.
Qed.

(** What the first loop leaves of a local table. *)
Definition keep_local (id : Z) (allLocks : bool) (k : LOCALLOCKTAG) (x : option LOCALLOCK) : option LOCALLOCK :=
  x ≫= fun ll => (release_local id allLocks k ll).1.

(** Locks and backend after the first loop has handled the given entries. *)
Definition first_loop (id : Z) (allLocks : bool) (s : LockState) (p : ProcNumber)
    (entries : list (LOCALLOCKTAG * LOCALLOCK)) (s1 : LockState) : Prop :=
  (forall t, LockMethodLockHash s1 !! t = set_marks p (marks_of id allLocks entries t) <$> LockMethodLockHash s !! t) /\
  (forall k, LockMethodLocalHash (backend s1 p) !! k =
     if bool_decide (k ∈ entries.*1) then keep_local id allLocks k (LockMethodLocalHash (backend s p) !! k)
     else LockMethodLocalHash (backend s p) !! k) /\
  waitLock (backend s1 p) = waitLock (backend s p) /\ waitStatus (backend s1 p) = waitStatus (backend s p) /\
  awaitedLock (backend s1 p) = awaitedLock (backend s p) /\
  forall q, q <> p -> backend s1 q = backend s q.

Lemma set_marks_zero l p : Forall (fun pl => releaseMask pl = 0) (procLocks l) -> set_marks p 0 l = l.
Proof.
  intros H. unfold set_marks. replace (update_proclock p (set_releaseMask 0) (procLocks l)) with (procLocks l);
    [by destruct l|]. induction H as [|pl pls Hpl _ IH]; [done|]. cbn. f_equal; [|done].
  destruct (myProc pl =? p); [|done]. destruct pl as [a b c d]. cbn in *. by subst d.
Qed.

Lemma set_marks_absent l p mask : others_only p (procLocks l) -> set_marks p mask l = l.
Proof.
  intros H. unfold set_marks. replace (update_proclock p (set_releaseMask mask) (procLocks l)) with (procLocks l);
    [by destruct l|]. induction H as [|pl pls Hpl _ IH]; [done|]. cbn. f_equal; [|done].
  by destruct (Z.eqb_spec (myProc pl) p).
Qed.

Lemma first_loop_spec id allLocks s p entries :
  sys_ok s -> NoDup entries.*1 ->
  (forall k ll, (k, ll) ∈ entries -> LockMethodLocalHash (backend s p) !! k = Some ll) ->
  first_loop id allLocks s p entries (foldl (release_local_entry p id allLocks) s entries).
Proof.
  intros Hs. induction entries as [|[k ll] entries IH] using rev_ind; intros Hnd Hin.
  - split; [|split; [|done]].
    + intros t. cbn. destruct (LockMethodLockHash s !! t) as [l|] eqn:El; [|done]. cbn. f_equal.
      destruct (sys_lookup s t l Hs El) as (_ & lmt & _ & _ & Hinv). symmetry. apply set_marks_zero.
      by eapply settled_marks, Hinv.
    + intros k. by rewrite bool_decide_eq_false_2 by set_solver.
  - rewrite fmap_app in Hnd. apply NoDup_app in Hnd as (Hnd & Hd & _). rewrite foldl_snoc.
    destruct (IH Hnd) as (I1 & I2 & I3 & I4 & I5 & I6); [set_solver|].
    set (s1 := foldl (release_local_entry p id allLocks) s entries) in *.
    assert (Ek : LockMethodLocalHash (backend s p) !! k = Some ll) by (apply Hin; set_solver).
    unfold release_local_entry. destruct (release_local id allLocks k ll) as [r mark] eqn:Er.
    set (s2 := if mark then _ else s1).
    assert (Eb2 : forall q, backend s2 q = backend s1 q) by (intros q; unfold s2; by destruct mark).
    assert (El2 : forall t, LockMethodLockHash s2 !! t =
      set_marks p (marks_of id allLocks (entries ++ [(k, ll)]) t) <$> LockMethodLockHash s !! t).
    { intros t. rewrite marks_of_snoc, Er. cbn [snd]. unfold s2. destruct mark; [|by rewrite andb_false_r].
      rewrite andb_true_r. cbn. case_bool_decide as Et.
      - subst t. rewrite lookup_partial_alter_eq, I1. destruct (LockMethodLockHash s !! k.1); [|done]. cbn.
        by rewrite mark_set_marks.
      - by rewrite lookup_partial_alter_ne by done. }
    split; [exact El2|]. split; [|split; [|split; [|split]]].
    + intros k'. rewrite backend_set_local, upd_same. cbn. rewrite Eb2.
      destruct (decide (k' = k)) as [->|Hne].
      * rewrite lookup_partial_alter_eq, bool_decide_eq_true_2 by (rewrite fmap_app; set_solver).
        rewrite Ek. cbn. by rewrite Er.
      * rewrite lookup_partial_alter_ne, I2 by done. rewrite fmap_app. cbn.
        repeat case_bool_decide; set_solver.
    + rewrite backend_set_local, upd_same. cbn. by rewrite Eb2.
    + rewrite backend_set_local, upd_same. cbn. by rewrite Eb2.
    + rewrite backend_set_local, upd_same. cbn. by rewrite Eb2.
    + intros q Hne. rewrite backend_set_local, upd_other, Eb2 by done. by apply I6.
Qed.

(** The marked modes are those of the entries that are dropped. *)
Lemma marks_of_spec id allLocks entries t m :
  (forall k ll, (k, ll) ∈ entries -> 0 < nLocks ll -> 0 <= k.2) -> 0 <= m ->
  Z.testbit (marks_of id allLocks entries t) m = true <->
  exists ll, ((t, m), ll) ∈ entries /\ (release_local id allLocks (t, m) ll).2 = true.
Proof.
  intros Hk Hm. induction entries as [|[k ll] entries IH] using rev_ind.
  - cbn. rewrite Z.bits_0. set_solver.
  - rewrite marks_of_snoc. specialize (IH ltac:(set_solver)).
    destruct ((release_local id allLocks k ll).2) eqn:Er; [|rewrite andb_false_r].
    2:{ rewrite IH. setoid_rewrite elem_of_app. setoid_rewrite list_elem_of_singleton.
        split; [intros (x & ? & ?); eauto|]. intros (x & [?|E] & ?); [eauto|]. injection E as <- <-. congruence. }
    rewrite andb_true_r. assert (Hpos : 0 < nLocks ll).
    { unfold release_local in Er. repeat (case_match; try done); cbn in Er; try done; lia. }
    case_bool_decide as Et.
    + rewrite Z.lor_spec, orb_true_iff, IH. unfold LOCKBIT_ON.
      rewrite testbit_shiftl_1, Z.eqb_eq by (eapply Hk; [|exact Hpos]; set_solver).
      setoid_rewrite elem_of_app. setoid_rewrite list_elem_of_singleton. split.
      * intros [(x & ? & ?)|E]; [eauto|]. exists ll. destruct k. cbn in *. subst. auto.
      * intros (x & [?|E] & ?); [eauto|]. right. by injection E as <- <-.
    + rewrite IH. setoid_rewrite elem_of_app. setoid_rewrite list_elem_of_singleton.
      split; [intros (x & ? & ?); eauto|]. intros (x & [?|E] & ?); [eauto|]. injection E as <- <-. done.
Qed.

(** The slot the loop moves to position 0 is the session's, if there is one. *)
Lemma session_slot_fold acc slots :
  owners_ok slots ->
  let r := foldl (fun acc x => if bool_decide (owner x = None) then x else acc) acc slots in
  (owner r = None /\ 0 < owner_nLocks r /\ owner_count None slots = owner_nLocks r) \/
  (r = acc /\ owner_count None slots = 0).
Proof.
  revert acc. induction slots as [|x slots IH]; intros acc Hok; [by right|].
  apply owners_ok_cons in Hok as (Hni & Hx & Hok). cbn [foldl]. rewrite owner_count_cons. case_bool_decide as Eo.
  - destruct (IH x Hok) as [(I1 & I2 & I3)|[I1 I2]].
    + exfalso. rewrite Eo in Hni. rewrite owner_count_absent in I3 by done. lia.
    + left. rewrite I1, bool_decide_eq_true_2 by done. split; [done|]. split; [done|]. lia.
  - rewrite bool_decide_eq_false_2 by done. destruct (IH acc Hok) as [(I1 & I2 & I3)|[I1 I2]]; [left|right]; auto.
Qed.

Lemma session_slot_spec slots :
  owners_ok slots ->
  match session_slot slots with
  | Some sl => (owner sl = None /\ 0 < owner_nLocks sl /\ owner_count None slots = owner_nLocks sl) \/
               (owner sl <> None /\ owner_count None slots = 0)
  | None => owner_count None slots = 0
  end.
Proof.
  intros Hok. unfold session_slot. destruct slots as [|s0 slots]; [done|].
  destruct (session_slot_fold s0 (s0 :: slots) Hok) as [?|[-> Ec]]; [by left|].
  destruct (decide (owner s0 = None)) as [E|E]; [|by right]. exfalso.
  apply owners_ok_cons in Hok as (Hni & Hx & Hok). rewrite owner_count_cons, bool_decide_eq_true_2 in Ec by done.
  rewrite owner_count_absent in Ec by (by rewrite <- E). lia.
Qed.

(** The owners whose locks of method [id] are released. *)
Definition method_gone (id : Z) (allLocks : bool) (t : LOCKTAG) (o : option ResourceOwner) : Prop :=
  locktag_lockmethodid t = id /\ (allLocks = true \/ o <> None).

#[export] Instance method_gone_dec id allLocks t o : Decision (method_gone id allLocks t o).
Proof. unfold method_gone. apply _. Defined.

(** *** [LockReleaseAll]: the second loop *)

Section ReleaseAll.

Context (s : LockState) (p : ProcNumber) (id : Z) (allLocks : bool) (lmt : LockMethodData).
Hypothesis Hs : sys_ok s.
Hypothesis Ha : awaitedLock (backend s p) = None.
Hypothesis Hlmt : LockMethods id = Some lmt.

Let s1 : LockState := release_locals p id allLocks s.
Let entries : list (LOCALLOCKTAG * LOCALLOCK) := map_to_list (LockMethodLocalHash (backend s p)).

Lemma first_loop_done : first_loop id allLocks s p entries s1.
Proof.
  apply first_loop_spec; [done|apply NoDup_fst_map_to_list|]. intros k ll H. by apply elem_of_map_to_list in H.
Qed.

Lemma kept_local k :
  LockMethodLocalHash (backend s1 p) !! k = keep_local id allLocks k (LockMethodLocalHash (backend s p) !! k).
Proof.
  destruct first_loop_done as (_ & -> & _). case_bool_decide as Hin; [done|].
  destruct (LockMethodLocalHash (backend s p) !! k) as [ll|] eqn:E; [|done]. destruct Hin.
  apply list_elem_of_fmap. exists (k, ll). split; [done|]. by apply elem_of_map_to_list.
Qed.

(** A local lock is dropped, kept as it is, or kept for the session. *)
Lemma release_local_cases k ll :
  locallock_ok ll ->
  let '(r, mark) := release_local id allLocks k ll in
  (r = None /\ mark = (0 <? nLocks ll) /\
     (nLocks ll = 0 \/ (locktag_lockmethodid k.1 = id /\ (allLocks = true \/ owner_count None (lockOwners ll) = 0)))) \/
  (r = Some ll /\ mark = false /\ 0 < nLocks ll /\ locktag_lockmethodid k.1 <> id) \/
  (exists n, r = Some (mkLOCALLOCK n [mkLOCALLOCKOWNER None n] (lockCleared ll)) /\ mark = false /\ 0 < nLocks ll /\
     0 < n /\ locktag_lockmethodid k.1 = id /\ allLocks = false /\ owner_count None (lockOwners ll) = n).
Proof.
  intros Hok. pose proof (nLocks_nonneg ll Hok) as Hnn. unfold release_local.
  destruct (Z.eqb_spec (nLocks ll) 0) as [E0|E0].
  { left. rewrite E0. auto. }
  assert (Hpos : 0 < nLocks ll) by lia.
  destruct (Z.eqb_spec (locktag_lockmethodid k.1) id) as [Eid|Eid]; cbn [negb].
  2:{ right. left. auto. }
  destruct allLocks; [by left; auto 6|].
  pose proof (session_slot_spec _ (ll_owners _ Hok)) as Hsl.
  destruct (session_slot (lockOwners ll)) as [sl|]; [|by left; auto 6].
  destruct Hsl as [(E1 & E2 & E3)|[E1 E2]].
  - rewrite bool_decide_eq_true_2 by done. destruct (Z.ltb_spec 0 (owner_nLocks sl)); [|lia]. cbn [andb].
    right. right. exists (owner_nLocks sl). destruct sl as [o n]. cbn in *. subst o. auto 8.
  - rewrite bool_decide_eq_false_2 by done. cbn [andb]. left. auto 6.
Qed.

(** The local locks that are given up. *)
Definition dropped (u : LOCKTAG) (i : LOCKMODE) : Prop :=
  exists ll, LockMethodLocalHash (backend s p) !! (u, i) = Some ll /\ (release_local id allLocks (u, i) ll).2 = true.

Lemma local_ok k ll : LockMethodLocalHash (backend s p) !! k = Some ll -> locallock_ok ll.
Proof. apply (bk_local _ (ag_backend _ _ (sys_agree _ _ Hs) p)). Qed.

Lemma dropped_facts u i : dropped u i -> local_holds (backend s p) u i /\ locktag_lockmethodid u = id.
Proof.
  intros (ll & El & Hm). pose proof (release_local_cases (u, i) ll (local_ok _ _ El)) as Hc.
  destruct (release_local id allLocks (u, i) ll) as [r mark]. cbn in *. subst mark.
  destruct Hc as [(_ & E & [H0|[H1 _]])|[(_ & E & _)|(n & _ & E & _)]]; [|split; [|done]|done|done].
  - rewrite H0 in E. done.
  - exists ll. split; [done|lia].
Qed.

Lemma kept_holds u i : local_holds (backend s1 p) u i <-> local_holds (backend s p) u i /\ ~ dropped u i.
Proof.
  unfold local_holds at 1. rewrite kept_local. unfold dropped, local_holds.
  destruct (LockMethodLocalHash (backend s p) !! (u, i)) as [ll|] eqn:El; [|naive_solver]. cbn.
  pose proof (release_local_cases (u, i) ll (local_ok _ _ El)) as Hc.
  destruct (release_local id allLocks (u, i) ll) as [r mark] eqn:Er. cbn [fst snd].
  destruct Hc as [(-> & -> & _)|[(-> & -> & Hp & _)|(n & -> & -> & Hp & Hn & _)]].
  - split; [naive_solver|]. intros ((ll' & [= <-] & Hp) & Hn). destruct Hn. exists ll. split; [done|].
    rewrite Er. cbn. lia.
  - split; [|naive_solver]. intros _. split; [eauto|]. intros (ll' & [= <-] & E). by rewrite Er in E.
  - split; [|naive_solver]. intros _. split; [eauto|]. intros (ll' & [= <-] & E). by rewrite Er in E.
Qed.

Lemma kept_backend_ok : backend_ok (backend s1 p).
Proof.
  destruct first_loop_done as (_ & _ & Ew & Est & Eaw & _).
  destruct (ag_backend _ _ (sys_agree _ _ Hs) p) as [B1 B2 B3 B4]. split.
  - intros k. rewrite Ew. intros E. destruct (B1 k E) as (? & o & ?). congruence.
  - rewrite Ew, Est. exact B2.
  - rewrite Eaw, Ha. done.
  - intros k x. rewrite kept_local. intros E. destruct (LockMethodLocalHash (backend s p) !! k) as [ll|] eqn:El; [|done].
    cbn in E. pose proof (release_local_cases k ll (B4 k ll El)) as Hc.
    destruct (release_local id allLocks k ll) as [r mark]. cbn in E. subst r.
    destruct Hc as [(? & _)|[([= ->] & _)|(n & [= ->] & _ & _ & Hn & _)]]; [done|by eapply B4|].
    split; cbn [lockOwners nLocks].
    + split; [apply NoDup_singleton|by constructor].
    + rewrite owner_total_cons. cbn. lia.
Qed.

Lemma marks_spec u i :
  0 <= i -> Z.testbit (marks_of id allLocks entries u) i = true <-> dropped u i.
Proof.
  intros Hi. rewrite marks_of_spec; [|intros k ll Hin Hp|done].
  - unfold dropped. split; intros (ll & Hin & ?); exists ll; (split; [by apply elem_of_map_to_list|done]).
  - apply elem_of_map_to_list in Hin. destruct k as [t m]. cbn.
    destruct (local_holds_valid s p t m Hs Ha) as (? & _ & ?); [by exists ll|lia].
Qed.

(** The tags of the second loop. *)
Let ts : list LOCKTAG := my_proclocks p id s1.

Lemma ts_NoDup : NoDup ts.
Proof. unfold ts, my_proclocks. apply NoDup_filter, NoDup_fst_map_to_list. Qed.

Lemma find_set_marks l mask :
  find_proclock (set_marks p mask l) p = set_releaseMask mask <$> find_proclock l p.
Proof.
  unfold find_proclock, set_marks. cbn [set_procLocks procLocks]. induction (procLocks l) as [|pl pls IH]; [done|].
  cbn. destruct (myProc pl =? p) eqn:E; cbn; [by rewrite E|]. by rewrite E.
Qed.

Lemma ts_spec u :
  u ∈ ts <-> locktag_lockmethodid u = id /\
    exists l pl, LockMethodLockHash s !! u = Some l /\ find_proclock l p = Some pl.
Proof.
  unfold ts, my_proclocks. rewrite list_elem_of_filter. destruct first_loop_done as (El & _).
  assert (Hin : forall l, LockMethodLockHash s !! u = Some l -> u ∈ (map_to_list (LockMethodLockHash s1)).*1).
  { intros l E. apply list_elem_of_fmap. eexists (u, _). split; [done|]. apply elem_of_map_to_list. by rewrite El, E. }
  rewrite El. destruct (LockMethodLockHash s !! u) as [l|] eqn:E;
    cbn [fmap option_fmap option_map mbind option_bind].
  - rewrite find_set_marks, fmap_is_Some. specialize (Hin l eq_refl). split.
    + intros [[? [pl ?]] _]. split; [done|]. by exists l, pl.
    + intros [? (? & pl & [= <-] & ?)]. split; [|done]. split; [done|]. by exists pl.
  - split; [|naive_solver]. intros [[_ [? ?]] _]. done.
Qed.

(** The modes of the tags that the second loop does not visit are unmarked. *)
Lemma unvisited_lock u : u ∉ ts -> LockMethodLockHash s1 !! u = LockMethodLockHash s !! u.
Proof.
  intros Hu. destruct first_loop_done as (-> & _). destruct (LockMethodLockHash s !! u) as [l|] eqn:El; [|done].
  cbn [fmap option_fmap option_map]. f_equal. destruct (decide (locktag_lockmethodid u = id)) as [Eid|Eid].
  - apply set_marks_absent. apply find_proclock_None. destruct (find_proclock l p) as [pl|] eqn:Ef; [|done].
    destruct Hu. apply ts_spec. eauto.
  - replace (marks_of id allLocks entries u) with 0.
    + apply set_marks_zero. destruct (sys_lookup s u l Hs El) as (_ & lmt' & _ & _ & Hinv).
      by eapply settled_marks, Hinv.
    + apply Z.bits_inj'. intros i Hi. rewrite Z.bits_0. symmetry. apply not_true_is_false.
      intros [_ ?]%marks_spec%dropped_facts; done.
Qed.

Lemma unvisited_local u i : u ∉ ts -> local_holds (backend s1 p) u i <-> local_holds (backend s p) u i.
Proof.
  intros Hu. rewrite kept_holds. split; [by intros []|]. intros Hl. split; [done|].
  intros [_ Eid]%dropped_facts. apply Hu, ts_spec. split; [done|].
  apply (running_backend s p u i Hs Ha) in Hl as (l & El & pl & Hpl & Hp & _). exists l, pl. split; [done|].
  destruct (sys_lookup s u l Hs El) as (_ & lmt' & _ & _ & Hinv).
  apply find_proclock_spec; [|done..]. apply (wf_proclocks _ _ _ _ (inv_wf _ _ _ Hinv)).
Qed.

(** The backend when the tags [todo] are still to be visited: the local locks of
    the others have been dropped. *)
Definition ghost_hash (todo : list LOCKTAG) : gmap LOCALLOCKTAG LOCALLOCK :=
  filter (fun kv => kv.1.1 ∈ todo) (LockMethodLocalHash (backend s p)) ∪
  filter (fun kv => kv.1.1 ∉ todo) (LockMethodLocalHash (backend s1 p)).

Definition ghost_backend (todo : list LOCKTAG) : Backend :=
  mkBackend (ghost_hash todo) None (waitStatus (backend s p)) None.

Lemma ghost_lookup todo k :
  ghost_hash todo !! k =
  if decide (k.1 ∈ todo) then LockMethodLocalHash (backend s p) !! k else LockMethodLocalHash (backend s1 p) !! k.
Proof.
  unfold ghost_hash. apply option_eq. intros x. rewrite lookup_union_Some_raw, !map_lookup_filter_Some.
  rewrite map_lookup_filter_None. cbn. destruct (decide (k.1 ∈ todo)); naive_solver.
Qed.

Lemma ghost_local todo u i :
  local_holds (ghost_backend todo) u i <->
  if decide (u ∈ todo) then local_holds (backend s p) u i else local_holds (backend s1 p) u i.
Proof. unfold local_holds. cbn. rewrite ghost_lookup. cbn. by destruct (decide (u ∈ todo)). Qed.

Lemma ghost_backend_ok todo : backend_ok (ghost_backend todo).
Proof.
  split; cbn; [done| |done|].
  - intros _. pose proof (running_not_waiting s p Hs Ha). by apply (bk_status _ (ag_backend _ _ (sys_agree _ _ Hs) p)).
  - intros k ll. rewrite ghost_lookup. destruct (decide _); [apply local_ok|]. apply (bk_local _ kept_backend_ok).
Qed.

(** The state [c] of the second loop, and the state [g] in which the tags still to
    be visited are as they were. *)
Record ghost (todo : list LOCKTAG) (c g : LockState) : Prop := {
  gh_ok : sys_ok g;
  gh_locks : forall u, LockMethodLockHash g !! u =
    if decide (u ∈ todo) then LockMethodLockHash s !! u else LockMethodLockHash c !! u;
  gh_marked : forall u, u ∈ todo ->
    LockMethodLockHash c !! u = set_marks p (marks_of id allLocks entries u) <$> LockMethodLockHash s !! u;
  gh_mine : backend g p = ghost_backend todo;
  gh_kept : backend c p = backend s1 p;
  gh_same : forall q, q <> p -> backend c q = backend g q;
  gh_others : others_kept s c p
}.

Lemma ghost_init : ghost ts s1 (set_backend p (ghost_backend ts) s).
Proof.
  destruct first_loop_done as (El & _ & _ & _ & _ & Eb). split.
  - split; [apply Hs|]. change (LockMethodLockHash (set_backend p (ghost_backend ts) s)) with (LockMethodLockHash s).
    eapply agree_ext; [done|intros q; symmetry; apply backend_set_backend|].
    apply agree_backend; [apply Hs|apply ghost_backend_ok|symmetry; by apply running_not_waiting|].
    intros u i. rewrite !knows_running, ghost_local by done. destruct (decide (u ∈ ts)); [done|by apply unvisited_local].
  - intros u. cbn. destruct (decide (u ∈ ts)); [done|]. symmetry. by apply unvisited_lock.
  - intros u _. apply El.
  - by rewrite backend_set_backend, upd_same.
  - done.
  - intros q Hne. by rewrite backend_set_backend, upd_other, Eb by done.
  - intros q Hne. left. by apply Eb.
Qed.

(** The marked modes of a visited lock are those the backend no longer counts. *)
Lemma visited_marks u l pl i :
  LockMethodLockHash s !! u = Some l -> locktag_lockmethodid u = id -> find_proclock l p = Some pl ->
  lock_holds l p i ->
  Z.testbit (if allLocks then holdMask pl else marks_of id allLocks entries u) i = true <-> dropped u i.
Proof.
  intros El Eid Ef Hh. destruct (sys_lookup s u l Hs El) as (_ & lmt' & _ & _ & Hinv).
  pose proof (lock_holds_mode _ _ _ _ _ _ (inv_wf _ _ _ Hinv) Hh) as Hm.
  destruct allLocks eqn:Eall; [|rewrite <- Eall; apply marks_spec; lia].
  destruct Hh as (pl' & Hpl & Hp & Hb).
  rewrite (find_proclock_spec l p pl' (wf_proclocks _ _ _ _ (inv_wf _ _ _ Hinv)) Hpl Hp) in Ef. injection Ef as <-.
  split; [intros _|done]. assert (Hl : local_holds (backend s p) u i).
  { apply (running_backend s p u i Hs Ha). exists l. split; [done|]. by exists pl'. }
  destruct Hl as (ll & Ell & Hpos). exists ll. split; [done|]. unfold release_local. cbn.
  destruct (Z.eqb_spec (nLocks ll) 0); [lia|]. rewrite Eid, Z.eqb_refl, Eall. cbn. lia.
Qed.

Lemma visited_release u :
  u ∈ ts -> exists l l1 r woken, LockMethodLockHash s !! u = Some l /\
    NoDup (procNumber <$> waitProcs l) /\
    release_proclock lmt lockGroupLeader p allLocks p (set_marks p (marks_of id allLocks entries u) l) = Ok (r, woken) /\
    tag l1 = u /\ waitProcs l1 = waitProcs l /\
    (forall q i, lock_holds l1 q i <-> lock_holds l q i /\ ~ (q = p /\ dropped u i)) /\
    cleaned lmt lockGroupLeader l1 r woken.
Proof.
  intros (Eid & l & pl & El & Ef)%ts_spec. destruct (sys_lookup s u l Hs El) as (Ht & lmt' & Hl' & Hok & Hinv).
  assert (lmt' = lmt) as -> by congruence. pose proof Hinv as [Hwf He Hb].
  destruct (running_backend s p u 0 Hs Ha) as (_ & Hnq & _). unfold lock_at in Hnq. rewrite El in Hnq. cbn in Hnq.
  pose proof (find_set_marks l (marks_of id allLocks entries u)) as Ef'. rewrite Ef in Ef'.
  apply find_proclock_Some in Ef' as [Hin Hp].
  set (M := marks_of id allLocks entries u) in *.
  destruct (release_proclock_spec lmt lockGroupLeader p allLocks p (set_marks p M l) (set_releaseMask M pl))
    as (l1 & r & woken & E & (W1 & W2 & W3) & Hc); [| | | |done|done| |].
  - by apply set_marks_wf, settled_releasing.
  - eapply exclusive_shrink; [| |exact He]; [done|]. intros q i. by apply set_marks_holds.
  - eapply queue_blocked_mono; [| |exact Hb]; [done|]. intros q i. by apply set_marks_holds.
  - by apply (sys_locks _ _ Hs u l El).
  - intros m Hm. destruct (decide (0 <= m)) as [Hm0|Hm0]; [|by rewrite Z.testbit_neg_r in Hm by lia].
    apply marks_spec in Hm as [Hm _]%dropped_facts; [|done].
    apply (running_backend s p u m Hs Ha) in Hm as (l' & El' & pl' & Hpl' & Hp' & Hh).
    assert (l' = l) as -> by congruence.
    rewrite (find_proclock_spec l p pl' (wf_proclocks _ _ _ _ Hwf) Hpl' Hp') in Ef. by injection Ef as <-.
  - exists l, l1, r, woken. split; [done|]. split; [apply (wf_queue _ _ _ _ Hwf)|]. split; [done|].
    split; [by rewrite W1|]. split; [by rewrite W2|]. split; [|done]. intros q i. rewrite W3, set_marks_holds.
    cbn [holdMask releaseMask set_releaseMask]. pose proof (visited_marks u l pl i El Eid Ef) as Hv. fold M in Hv.
    split; intros [? Hn]; (split; [done|]); intros [-> ?]; apply Hn; (split; [done|]); by apply Hv.
Qed.

Lemma release_tag_step u todo c g :
  u ∈ ts -> u ∉ todo -> ghost (u :: todo) c g ->
  exists c' g', release_tag lockGroupLeader p lmt allLocks u c = (Ok tt, c') /\ ghost todo c' g'.
Proof.
  intros Hu Hnu [G1 G2 G3 G4 G5 G6 G7].
  destruct (visited_release u Hu) as (l & l1 & r & woken & El & Hnd & Er & Ht1 & Hq1 & Hh1 & Hc).
  assert (Eg : LockMethodLockHash g !! u = Some l) by (rewrite G2, decide_True by set_solver; done).
  unfold release_tag. rewrite G3, El by set_solver. cbn [fmap option_fmap option_map]. rewrite Er.
  assert (Eid : locktag_lockmethodid u = id) by (by apply ts_spec in Hu as [? _]).
  pose proof (sys_agree _ _ G1) as [A1 A2 A3].
  assert (Hwait : forall q, q ∈ woken -> is_Some (waitLock (backend g q))).
  { intros q Hq. assert (Hin : q ∈ procNumber <$> waitProcs l).
    { rewrite <- Hq1. destruct r; [by apply Hc|]. destruct Hc as [-> _]. set_solver. }
    apply list_elem_of_fmap in Hin as (w & -> & Hw). eexists. apply A2. exists l. split; [done|]. by exists w. }
  assert (Hnw : p ∉ woken) by (intros [k Hk]%Hwait; by rewrite G4 in Hk).
  set (c' := ProcWakeup woken (put_lock u r c)).
  set (g' := ProcWakeup woken (put_lock u r (set_backend p (ghost_backend todo) g))).
  assert (Eb : forall q, backend g' q = if bool_decide (q ∈ woken)
    then woken_backend (upd (backend g) p (ghost_backend todo) q) else upd (backend g) p (ghost_backend todo) q).
  { intros q. unfold g'. by rewrite backend_ProcWakeup, backend_put_lock, backend_set_backend. }
  assert (Ec : forall q, backend c' q = if bool_decide (q ∈ woken) then woken_backend (backend c q) else backend c q).
  { intros q. unfold c'. by rewrite backend_ProcWakeup, backend_put_lock. }
  exists c', g'. split; [done|]. split.
  - eapply (settle g p _ u lmt l1 r woken); [done|by rewrite Eid|done|by rewrite Hq1| |exact Hc| |exact Eb].
    2:{ unfold g'. by rewrite locks_ProcWakeup. }
    apply (agree_update_one _ _ _ _ _ _ (Some l)); [done|by rewrite Eg|by rewrite Eg|apply ghost_backend_ok|..].
    + intros i. cbn. rewrite Hq1, <- (table_waits_at _ _ u _ _ Eg), A2, G4. done.
    + intros i. cbn. rewrite Hh1, knows_running, ghost_local, decide_False by done.
      rewrite <- (table_holds_at _ _ u _ _ Eg), A3, G4, knows_running, ghost_local, decide_True by set_solver.
      rewrite kept_holds. naive_solver.
    + intros q i _. cbn. by rewrite Hq1.
    + intros q i Hne. cbn. rewrite Hh1. naive_solver.
    + intros v i Hne. by rewrite G4.
    + intros v i Hne. rewrite G4, !knows_running, !ghost_local by done.
      destruct (decide (v ∈ todo)), (decide (v ∈ u :: todo)); set_solver.
  - intros v. unfold g', c'. rewrite !locks_ProcWakeup. cbn. destruct (decide (v = u)) as [->|Hne].
    + by rewrite decide_False, !lookup_partial_alter_eq by done.
    + rewrite !lookup_partial_alter_ne, G2 by done. destruct (decide (v ∈ todo)), (decide (v ∈ u :: todo)); set_solver.
  - intros v Hv. unfold c'. rewrite locks_ProcWakeup. cbn. rewrite lookup_partial_alter_ne by set_solver.
    apply G3. set_solver.
  - by rewrite Eb, bool_decide_eq_false_2, upd_same by done.
  - by rewrite Ec, bool_decide_eq_false_2 by done.
  - intros q Hne. rewrite Eb, Ec, upd_other, G6 by done. done.
  - intros q Hne. rewrite Ec. case_bool_decide as Hq; [|by apply G7]. right.
    destruct (G7 q Hne) as [E|[Hs' E]]; apply Hwait in Hq; rewrite <- (G6 q Hne), E in Hq; [by rewrite E|].
    by destruct Hq.
Qed.

Lemma release_tags_ok todo c g :
  NoDup todo -> (forall u, u ∈ todo -> u ∈ ts) -> ghost todo c g ->
  exists c' g', release_tags lockGroupLeader p lmt allLocks todo c = (Ok tt, c') /\ ghost [] c' g'.
Proof.
  revert c g. induction todo as [|u todo IH]; intros c g Hnd Hin Hg; [by exists c, g|].
  apply NoDup_cons in Hnd as [Hnu Hnd].
  destruct (release_tag_step u todo c g) as (c1 & g1 & E & Hg1); [apply Hin; set_solver|done|done|].
  destruct (IH c1 g1 Hnd) as (c' & g' & E' & Hg'); [intros v Hv; apply Hin; set_solver|done|].
  exists c', g'. split; [|done]. cbn. unfold mbind, ST_bind. by rewrite E.
Qed.

(** The counts of the caller's locks after the first loop. *)
Lemma kept_times u i o :
  owner_count o (default [] (lockOwners <$> LockMethodLocalHash (backend s1 p) !! (u, i))) =
  if bool_decide (method_gone id allLocks u o) then 0 else times s p u i o.
Proof.
  unfold method_gone.   rewrite kept_local. unfold times. destruct (LockMethodLocalHash (backend s p) !! (u, i)) as [ll|] eqn:El;
    [|cbn; by case_bool_decide]. cbn [keep_local mbind option_bind].
  pose proof (local_ok _ _ El) as Hok. pose proof (release_local_cases (u, i) ll Hok) as Hc.
  destruct (release_local id allLocks (u, i) ll) as [r mark]. cbn [fst snd] in *.
  destruct Hc as [(-> & _ & [H0|[Hid Hall]])|[(-> & _ & _ & Hid)|(n & -> & _ & _ & _ & Hid & Hall & Hn)]];
    cbn [fmap option_fmap option_map default lockOwners].
  - assert (lockOwners ll = []) as ->; [|by case_bool_decide].
    apply owner_total_zero; [apply Hok|by rewrite <- (ll_nLocks _ Hok)].
  - case_bool_decide as Hb; [done|]. destruct o as [o|].
    + destruct Hb. split; [done|]. by right.
    + destruct Hall as [Hall|Hall]; [|by rewrite Hall]. destruct Hb. auto.
  - rewrite bool_decide_eq_false_2 by naive_solver. done.
  - destruct o as [o|].
    + rewrite bool_decide_eq_true_2 by auto. done.
    + rewrite bool_decide_eq_false_2 by naive_solver. rewrite Hn. cbn. rewrite bool_decide_eq_true_2 by done. lia.
Qed.

End ReleaseAll.

(** [LockReleaseAll] never fails; the caller loses the locks of the method, but the
    session's when [allLocks] is false; every other backend keeps what it has, or
    is granted the lock it waits for. *)
Definition release_all_post (s s' : LockState) (p : ProcNumber) (gone : LOCKTAG -> option ResourceOwner -> Prop)
    `{forall t o, Decision (gone t o)} : Prop :=
  (forall u i o, times s' p u i o = if bool_decide (gone u o) then 0 else times s p u i o) /\
  others_kept s s' p.

Lemma LockReleaseAll_ok s p id allLocks lmt :
  sys_ok s -> awaitedLock (backend s p) = None -> LockMethods id = Some lmt ->
  exists s', LockReleaseAll lockGroupLeader p id allLocks s = (Ok tt, s') /\ sys_ok s' /\
    awaitedLock (backend s' p) = None /\ release_all_post s s' p (method_gone id allLocks).
Proof.
  intros Hs Ha Hlmt. unfold LockReleaseAll. rewrite Hlmt.
  set (s1 := release_locals p id allLocks s).
  destruct (release_tags_ok s p id allLocks lmt Hs Ha Hlmt (my_proclocks p id s1) s1 _
    (ts_NoDup s p id allLocks) ltac:(done) (ghost_init s p id allLocks lmt Hs Ha Hlmt)) as (s' & g & E & [G1 G2 G3 G4 G5 G6 G7]).
  exists s'. split; [exact E|]. split; [|split; [|split; [|exact G7]]].
  - assert (Hlocks : LockMethodLockHash g = LockMethodLockHash s') by (apply map_eq; intros u; by rewrite G2, decide_False by set_solver).
    split; [rewrite <- Hlocks; apply G1|]. rewrite <- Hlocks.
    eapply agree_ext; [done| |apply (sys_agree _ _ G1)]. intros q. destruct (decide (q = p)) as [->|Hne]; [|by rewrite G6].
    rewrite G4, G5. destruct (first_loop_done s p id allLocks Hs) as (_ & _ & Ew & Es & Eaw & _). fold s1 in Ew, Es, Eaw |- *.
    destruct (backend s1 p) as [h w st aw] eqn:Eb. cbn in Ew, Es, Eaw.
    unfold ghost_backend. rewrite Ew, Eaw, Ha, (running_not_waiting s p Hs Ha), Es. f_equal.
    apply map_eq. intros k. rewrite ghost_lookup, decide_False by set_solver. fold s1. by rewrite Eb.
  - rewrite G5. destruct (first_loop_done s p id allLocks Hs) as (_ & _ & _ & _ & -> & _). done.
  - intros u i o. rewrite <- (kept_times s p id allLocks lmt Hs Hlmt), <- G5. unfold times.
    by destruct (LockMethodLocalHash (backend s' p) !! (u, i)).
Qed.

Lemma if_bool_decide_ext {A} (P Q : Prop) `{!Decision P, !Decision Q} (x y : A) :
  (P <-> Q) -> (if bool_decide P then x else y) = (if bool_decide Q then x else y).
Proof. intros H. by rewrite (bool_decide_ext P Q H). Qed.

Lemma release_all_post_trans s1 s2 s3 p (g1 g2 : LOCKTAG -> option ResourceOwner -> Prop)
    `{!forall t o, Decision (g1 t o), !forall t o, Decision (g2 t o)} :
  release_all_post s1 s2 p g1 -> release_all_post s2 s3 p g2 ->
  release_all_post s1 s3 p (fun t o => g1 t o \/ g2 t o).
Proof.
  intros [T1 B1] [T2 B2]. split.
  - intros u i o. rewrite T2, T1. repeat case_bool_decide; tauto.
  - by eapply others_kept_trans.
Qed.

(** The locks that the end of a transaction gives up: an abort keeps the session's
    advisory locks only, a commit keeps all locks of the session. *)
Definition transaction_gone (isCommit : bool) (t : LOCKTAG) (o : option ResourceOwner) : Prop :=
  method_gone DEFAULT_LOCKMETHOD (negb isCommit) t o \/ method_gone USER_LOCKMETHOD false t o.

#[export] Instance transaction_gone_dec isCommit t o : Decision (transaction_gone isCommit t o).
Proof. unfold transaction_gone. apply _. Defined.

Lemma ProcReleaseLocks_ok s p isCommit :
  sys_ok s -> exists s0 s', LockErrorCleanup lockGroupLeader p s = (Ok tt, s0) /\
    ProcReleaseLocks lockGroupLeader p isCommit s = (Ok tt, s') /\ sys_ok s' /\
    awaitedLock (backend s' p) = None /\ others_kept s s' p /\
    release_all_post s0 s' p (transaction_gone isCommit).
Proof.
  intros Hs. destruct (LockErrorCleanup_ok s p Hs) as (s0 & E0 & Hs0 & Ha0 & Ho0).
  destruct (LockReleaseAll_ok s0 p DEFAULT_LOCKMETHOD (negb isCommit) default_lockmethod Hs0 Ha0 eq_refl)
    as (s1 & E1 & Hs1 & Ha1 & P1).
  destruct (LockReleaseAll_ok s1 p USER_LOCKMETHOD false user_lockmethod Hs1 Ha1 eq_refl) as (s2 & E2 & Hs2 & Ha2 & P2).
  exists s0, s2. split; [done|]. split; [|split; [done|split; [done|split]]].
  - unfold ProcReleaseLocks, mbind, ST_bind. by rewrite E0, E1, E2.
  - eapply others_kept_trans; [exact Ho0|]. by eapply others_kept_trans; [apply P1|apply P2].
  - destruct (release_all_post_trans _ _ _ _ _ _ P1 P2) as [T B]. split; [|done].
    intros u i o. rewrite T. by apply if_bool_decide_ext.
Qed.

Lemma owner_count_nonneg o slots : owners_ok slots -> 0 <= owner_count o slots.
Proof.
  intros [_ H]. induction H as [|x slots Hx _ IH]; [done|]. rewrite owner_count_cons. case_bool_decide; lia.
Qed.

(** The shared table counts a lock of a running backend exactly when some owner
    does. *)
Lemma running_counts s p t m :
  sys_ok s -> awaitedLock (backend s p) = None ->
  table_holds (LockMethodLockHash s) p t m <-> exists o, 0 < times s p t m o.
Proof.
  intros Hs Ha. destruct (running_backend s p t m Hs Ha) as (_ & _ & ->). unfold local_holds, times.
  destruct (LockMethodLocalHash (backend s p) !! (t, m)) as [ll|] eqn:E; [|naive_solver lia].
  pose proof (bk_local _ (ag_backend _ _ (sys_agree _ _ Hs) p) _ _ E) as [Hok Hn]. split.
  - intros (x & [= <-] & Hp). rewrite Hn in Hp. destruct (lockOwners ll) as [|x slots]; [done|].
    destruct Hok as [[_ H1]%NoDup_cons [Hx H2]%Forall_cons]. exists (owner x).
    rewrite owner_count_cons, bool_decide_eq_true_2 by done. pose proof (owner_count_nonneg (owner x) slots (conj H1 H2)). lia.
  - intros [o Hp]. exists ll. split; [done|]. pose proof (owner_total_nonneg _ Hok). rewrite Hn.
    assert (owner_total (lockOwners ll) <> 0); [|lia]. intros Hz%owner_total_zero; [|done]. by rewrite Hz in Hp.
Qed.

Lemma running_waits_nothing s p :
  sys_ok s -> awaitedLock (backend s p) = None -> forall t m, ~ table_waits (LockMethodLockHash s) p t m.
Proof.
  intros Hs Ha t m. rewrite (ag_waits _ _ (sys_agree _ _ Hs)). destruct (running_backend s p t m Hs Ha) as (-> & _). done.
Qed.

(** What the others keep and gain when they are at most woken up. *)
Lemma others_keep_locks s s' p :
  sys_ok s -> sys_ok s' -> others_kept s s' p ->
  forall q t m, q <> p -> table_holds (LockMethodLockHash s) q t m -> table_holds (LockMethodLockHash s') q t m.
Proof.
  intros Hs Hs' Ho q t m Hne. rewrite (ag_holds _ _ (sys_agree _ _ Hs)), (ag_holds _ _ (sys_agree _ _ Hs')).
  destruct (Ho q Hne) as [->|[[k Hw] ->]]; [done|]. unfold knows, unnoticed. rewrite Hw. intros [?|[? _]]; [by left|done].
Qed.

Lemma others_gain_awaited s s' p :
  sys_ok s -> sys_ok s' -> others_kept s s' p ->
  forall q t m, q <> p -> table_holds (LockMethodLockHash s') q t m ->
    table_holds (LockMethodLockHash s) q t m \/ table_waits (LockMethodLockHash s) q t m.
Proof.
  intros Hs Hs' Ho q t m Hne. rewrite (ag_holds _ _ (sys_agree _ _ Hs)), (ag_holds _ _ (sys_agree _ _ Hs')),
    (ag_waits _ _ (sys_agree _ _ Hs)).
  destruct (Ho q Hne) as [->|[[k Hw] ->]]; [by left|]. unfold knows, unnoticed. intros [?|(_ & _ & o & Eo)]; [by left; left|right].
  destruct (bk_waiting _ (ag_backend _ _ (sys_agree _ _ Hs) q) _ Hw) as (_ & o' & Ew). cbn in Eo. congruence.
Qed.

Lemma LockReleaseSession_ok s p env id lmt :
  sys_ok s -> awaitedLock (backend s p) = None -> LockMethods id = Some lmt ->
  exists s', LockReleaseSession lockGroupLeader p env id s = (Ok tt, s') /\ sys_ok s' /\
    awaitedLock (backend s' p) = None /\
    (forall t m, locktag_lockmethodid t = id -> times s' p t m None = 0) /\
    owner_released s s' p None (fun k => locktag_lockmethodid k.1 = id).
Proof.
  intros Hs Ha Hlmt. unfold LockReleaseSession. rewrite Hlmt. set (keys := filter _ _).
  destruct (release_if_held_ok keys s p env true Hs Ha) as (s' & E & Hs' & Ha' & Hz & Hr).
  exists s'. split; [done|]. split; [done|]. split; [done|]. split.
  - intros t m Ht. destruct (LockMethodLocalHash (backend s p) !! (t, m)) as [ll|] eqn:El.
    + apply (Hz (t, m)). apply list_elem_of_filter. split; [done|]. apply list_elem_of_fmap. exists ((t, m), ll).
      split; [done|]. by apply elem_of_map_to_list.
    + destruct (Hr p t m None) as [->|(_ & _ & _ & ?)]; [|done]. unfold times. by rewrite El.
  - intros q u i o. destruct (Hr q u i o) as [?|(? & ? & Hk & ?)]; [by left|right].
    apply list_elem_of_filter in Hk as [? _]. done.
Qed.

Lemma LockReleaseCurrentOwner_ok s p env :
  let o := Some (CurrentResourceOwner env) in
  sys_ok s -> awaitedLock (backend s p) = None ->
  exists s', LockReleaseCurrentOwner lockGroupLeader p env s = (Ok tt, s') /\ sys_ok s' /\
    awaitedLock (backend s' p) = None /\ (forall t m, times s' p t m o = 0) /\
    owner_released s s' p o (fun _ => True).
Proof.
  intros o Hs Ha. unfold LockReleaseCurrentOwner. set (keys := _.*1).
  destruct (release_if_held_ok keys s p env false Hs Ha) as (s' & E & Hs' & Ha' & Hz & Hr).
  exists s'. split; [done|]. split; [done|]. split; [done|]. split.
  - intros t m. destruct (LockMethodLocalHash (backend s p) !! (t, m)) as [ll|] eqn:El.
    + apply (Hz (t, m)). apply list_elem_of_fmap. exists ((t, m), ll). split; [done|]. by apply elem_of_map_to_list.
    + destruct (Hr p t m o) as [->|(_ & _ & _ & ?)]; [|done]. unfold times. by rewrite El.
  - intros q u i o'. destruct (Hr q u i o') as [?|(? & ? & Hk & ?)]; [by left|by right].
Qed.

(** *** Every call *)

Lemma LockAcquireExtended_awaited s p env t m sessionLock dontWait reportMemoryError r s' :
  LockAcquireExtended lockGroupLeader p env t m sessionLock dontWait reportMemoryError s = (r, s') ->
  r <> Ok Asleep -> awaitedLock (backend s' p) = awaitedLock (backend s p).
Proof.
  assert (Hl : forall k x s, awaitedLock (backend (set_local p k x s) p) = awaitedLock (backend s p)).
  { intros. by rewrite backend_set_local, upd_same. }
  assert (Hk : forall l s, backend (set_locks l s) p = backend s p) by done.
  unfold LockAcquireExtended. intros E Hr.
  repeat (case_match; simplify_eq; try done); repeat (rewrite Hl || rewrite Hk || rewrite backend_put_lock); done.
Qed.

Definition valid_lock (t : LOCKTAG) (m : LOCKMODE) : Prop :=
  exists lmt, LockMethods (locktag_lockmethodid t) = Some lmt /\ 1 <= m <= numLockModes lmt.

(** The arguments of a call name a lock method and one of its modes. *)
Definition valid_call (c : lock_call) : Prop :=
  match c with
  | CallAcquire t m _ _ _ | CallRelease t m _ => valid_lock t m
  | CallReleaseSession id => is_Some (LockMethods id)
  | _ => True
  end.

Definition lock_errors : list sqlstate :=
  [ERRCODE_OUT_OF_MEMORY; ERRCODE_T_R_DEADLOCK_DETECTED; ERRCODE_OBJECT_NOT_IN_PREREQUISITE_STATE].

(** A call keeps the invariant, and one with valid arguments reports no error but
    those of [lock_errors]. *)
Definition call_ok {A} (c : lock_call) (r : result A) (s' : LockState) : Prop :=
  sys_ok s' /\ (valid_call c -> forall e, r = Err e -> err_code e ∈ lock_errors).

Lemma acquire_call_ok s p env t m b1 b2 b3 :
  sys_ok s -> awaitedLock (backend s p) = None ->
  exists r s', LockAcquireExtended lockGroupLeader p env t m b1 b2 b3 s = (r, s') /\
    call_ok (CallAcquire t m b1 b2 b3) r s'.
Proof.
  intros Hs Ha. destruct (LockAcquireExtended lockGroupLeader p env t m b1 b2 b3 s) as [r s'] eqn:E.
  exists r, s'. split; [done|]. pose proof E as E'. unfold LockAcquireExtended in E.
  destruct (LockMethods (locktag_lockmethodid t)) as [lmt|] eqn:El.
  2:{ injection E as <- <-. split; [done|]. intros (lmt & El' & _). congruence. }
  destruct ((m <=? 0) || (numLockModes lmt <? m)) eqn:Em.
  { injection E as <- <-. split; [done|]. intros (lmt' & El' & ?). assert (lmt' = lmt) as -> by congruence. lia. }
  destruct (RecoveryInProgress env && _ && (RowExclusiveLock <? m)) eqn:Er.
  { injection E as <- <-. split; [done|]. intros _ e [= <-]. set_solver. }
  destruct (LockAcquireExtended_ok s p env t m b1 b2 b3 lmt Hs Ha) as (r' & s'' & E'' & Hs' & Hp).
  { split; [done|]. split; [lia|]. intros (H1 & H2 & H3). rewrite H1, bool_decide_eq_true_2 in Er by done. lia. }
  rewrite E' in E''. injection E'' as <- <-. split; [done|]. intros _ e ->.
  destruct Hp as [[[-> _]|[-> _]] _]; set_solver.
Qed.

Lemma release_call_ok s p env t m b1 :
  sys_ok s -> awaitedLock (backend s p) = None ->
  exists r s', LockRelease lockGroupLeader p env t m b1 s = (r, s') /\ call_ok (CallRelease t m b1) r s'.
Proof.
  intros Hs Ha. unfold LockRelease at 1. destruct (LockMethods (locktag_lockmethodid t)) as [lmt|] eqn:El.
  2:{ eexists _, _. split; [done|]. split; [done|]. intros (lmt & E & _). congruence. }
  destruct ((m <=? 0) || (numLockModes lmt <? m)) eqn:Em.
  { eexists _, _. split; [done|]. split; [done|]. intros (lmt' & E & ?). assert (lmt' = lmt) as -> by congruence. lia. }
  destruct (LockRelease_ok s p env t m b1 lmt Hs Ha El ltac:(lia)) as (b & s' & E & Hs' & _).
  unfold LockRelease in E. rewrite El, Em in E. rewrite E. exists (Ok b), s'. split; [done|]. by split.
Qed.

Lemma exec_ok s p env c r s' :
  sys_ok s -> enabled p c s -> exec lockGroupLeader p env c s = (r, s') -> call_ok c r s'.
Proof.
  intros Hs Hen. destruct c as [t m b1 b2 b3| | |t order| |t m b1|isCommit|id|]; cbn in Hen |- *;
    unfold mbind, ST_bind, mret, ST_ret.
  - destruct (acquire_call_ok s p env t m b1 b2 b3 Hs (proj1 Hen)) as (r0 & s0 & -> & H1 & H2).
    destruct r0; intros [= <- <-]; split; naive_solver.
  - destruct (WaitOnLock_return_ok s p Hs (proj1 Hen) (proj2 Hen)) as (r0 & s0 & -> & H1 & [->|[msg ->]]);
      intros [= <- <-]; (split; [done|]); intros _ e; [done|]. intros [= <-]. set_solver.
  - destruct (leave_queue_ok s p Hs) as (s0 & E & H1 & _). unfold CheckDeadLock_hard. rewrite E. by intros [= <- <-].
  - destruct (DeadLockCheck_soft_ok s p t order Hs Hen) as (s0 & -> & H1). by intros [= <- <-].
  - destruct (LockErrorCleanup_ok s p Hs) as (s0 & -> & H1 & _). by intros [= <- <-].
  - destruct (release_call_ok s p env t m b1 Hs (proj1 Hen)) as (r0 & s0 & -> & H1 & H2).
    destruct r0; intros [= <- <-]; split; naive_solver.
  - destruct (ProcReleaseLocks_ok s p isCommit Hs) as (_ & s0 & _ & -> & H1 & _). by intros [= <- <-].
  - destruct (LockMethods id) as [lmt|] eqn:El.
    + destruct (LockReleaseSession_ok s p env id lmt Hs Hen El) as (s0 & -> & H1 & _). by intros [= <- <-].
    + unfold LockReleaseSession. rewrite El. intros [= <- <-]. split; [done|]. cbn. rewrite El. by intros [].
  - destruct (LockReleaseCurrentOwner_ok s p env Hs Hen) as (s0 & -> & H1 & _). by intros [= <- <-].
Qed.

Lemma empty_ok : sys_ok empty_state.
Proof.
  split; [by intros t l ?|]. split.
  - intros p. by split.
  - intros p t m. split; [by intros (l & ? & _)|done].
  - intros p t m. split; [by intros (l & ? & _)|]. intros [(ll & ? & _)|(_ & _ & o & ?)]; done.
Qed.

Lemma reachable_ok s : reachable lockGroupLeader s -> sys_ok s.
Proof.
  intros H. assert (Hi : forall a b, rtc (step lockGroupLeader) a b -> sys_ok a -> sys_ok b).
  { induction 1 as [|a b c [p env k s0 r s' Hen E] _ IH]; [done|]. intros Ha. apply IH. by eapply exec_ok. }
  apply (Hi _ _ H), empty_ok.
Qed.

End System.

(** ** What a call cannot touch *)

Section Private.

Context (lockGroupLeader : ProcNumber -> option ProcNumber).

(** The local tables of the other backends are theirs: a call of [p] at most ends
    their waits. *)
Definition private (p : ProcNumber) (s s' : LockState) : Prop :=
  forall q, q <> p -> LockMethodLocalHash (backend s' q) = LockMethodLocalHash (backend s q) /\
    awaitedLock (backend s' q) = awaitedLock (backend s q).

#[export] Instance private_refl p : Reflexive (private p).
Proof. by intros s q _. Qed.

#[export] Instance private_trans p : Transitive (private p).
Proof. intros s1 s2 s3 H1 H2 q Hne. destruct (H1 q Hne), (H2 q Hne). by split; etrans. Qed.

Lemma private_set_backend p b s : private p s (set_backend p b s).
Proof. intros q Hne. by rewrite backend_set_other. Qed.

Lemma private_put_lock p t r s : private p s (put_lock t r s).
Proof. intros q Hne. by rewrite backend_put_lock. Qed.

Lemma private_set_locks p l s : private p s (set_locks l s).
Proof. by intros q Hne. Qed.

Lemma private_ProcWakeup p woken s : private p s (ProcWakeup woken s).
Proof. intros q Hne. rewrite backend_ProcWakeup. by case_bool_decide. Qed.

(** A computation of [p] that leaves the others alone. *)
Definition mine {A} (p : ProcNumber) (c : ST LockState A) : Prop := forall s r s', c s = (r, s') -> private p s s'.

Lemma mine_bind {A B} p (c : ST LockState A) (k : A -> ST LockState B) :
  mine p c -> (forall a, mine p (k a)) -> mine p (c ≫= k).
Proof.
  intros Hc Hk s r s'. unfold mbind, ST_bind. destruct (c s) as [[a|e] s1] eqn:E; intros E'.
  - etrans; [by eapply Hc|by eapply Hk].
  - injection E' as <- <-. by eapply Hc.
Qed.

Lemma mine_ret {A} p (a : A) : mine p (mret a : ST LockState A).
Proof. by intros s r s' [= <- <-]. Qed.

Create HintDb private.

Ltac solve_private :=
  repeat (case_match; simplify_eq; try reflexivity);
  repeat match goal with
    | |- private _ ?s (set_local _ _ _ ?x) => transitivity x; [|apply private_set_backend]
    | |- private _ ?s (set_wait _ _ _ _ ?x) => transitivity x; [|apply private_set_backend]
    | |- private _ ?s (put_lock _ _ ?x) => transitivity x; [|apply private_put_lock]
    | |- private _ ?s (set_locks _ ?x) => transitivity x; [|apply private_set_locks]
    | |- private _ ?s (ProcWakeup _ ?x) => transitivity x; [|apply private_ProcWakeup]
    | |- private _ ?s ?s => reflexivity
    end; eauto with private.

Lemma mine_acquire p env t m b1 b2 b3 : mine p (LockAcquireExtended lockGroupLeader p env t m b1 b2 b3).
Proof. intros s r s' E. unfold LockAcquireExtended in E. solve_private. Qed.

Lemma private_grant_awaited p s : private p s (GrantAwaitedLock p s).
Proof. unfold GrantAwaitedLock. solve_private. Qed.

Lemma private_reset_awaited p s : private p s (ResetAwaitedLock p s).
Proof. unfold ResetAwaitedLock. solve_private. Qed.

Lemma mine_wait_return p : mine p (WaitOnLock_return p).
Proof.
  intros s r s' E. unfold WaitOnLock_return in E. case_match; simplify_eq.
  - etrans; [apply private_grant_awaited|apply private_reset_awaited].
  - reflexivity.
  - apply private_reset_awaited.
Qed.

Lemma mine_leave_queue p : mine p (leave_queue lockGroupLeader p).
Proof. intros s r s' E. unfold leave_queue in E. solve_private. Qed.

Lemma mine_soft p t order : mine p (DeadLockCheck_soft lockGroupLeader p t order).
Proof. intros s r s' E. unfold DeadLockCheck_soft in E. solve_private. Qed.

Lemma mine_error_cleanup p : mine p (LockErrorCleanup lockGroupLeader p).
Proof.
  intros s r s' E. unfold LockErrorCleanup in E. destruct (awaitedLock (backend s p)); [|by simplify_eq].
  destruct (waitLock (backend s p)).
  - destruct (leave_queue lockGroupLeader p s) as [[|] s1] eqn:El; simplify_eq; apply mine_leave_queue in El.
    + etrans; [exact El|apply private_reset_awaited].
    + exact El.
  - simplify_eq. etrans; [|apply private_reset_awaited]. case_bool_decide; [apply private_grant_awaited|reflexivity].
Qed.

Lemma mine_release p env t m b : mine p (LockRelease lockGroupLeader p env t m b).
Proof. intros s r s' E. unfold LockRelease, release_shared in E. solve_private. Qed.

Lemma mine_release_tags p lmt allLocks ts : mine p (release_tags lockGroupLeader p lmt allLocks ts).
Proof.
  induction ts as [|t ts IH]; [apply mine_ret|]. cbn. apply mine_bind; [|done].
  intros s r s' E. unfold release_tag in E. solve_private.
Qed.

Lemma private_release_locals p id allLocks s : private p s (release_locals p id allLocks s).
Proof.
  unfold release_locals. generalize (map_to_list (LockMethodLocalHash (backend s p))) as entries. intros entries.
  revert s. induction entries as [|[k ll] entries IH]; intros s; [reflexivity|]. cbn [foldl].
  etrans; [|apply IH]. unfold release_local_entry. destruct (release_local id allLocks k ll) as [r mark].
  etrans; [|apply private_set_backend]. destruct mark; [apply private_put_lock|reflexivity].
Qed.

Lemma mine_release_all p id allLocks : mine p (LockReleaseAll lockGroupLeader p id allLocks).
Proof.
  intros s r s' E. unfold LockReleaseAll in E. destruct (LockMethods id); [|by simplify_eq].
  etrans; [apply private_release_locals|by eapply mine_release_tags].
Qed.

Lemma mine_release_locks p isCommit : mine p (ProcReleaseLocks lockGroupLeader p isCommit).
Proof.
  apply mine_bind; [apply mine_error_cleanup|]. intros _.
  apply mine_bind; [apply mine_release_all|]. intros _. apply mine_release_all.
Qed.

Lemma mine_release_if_held p env keys b : mine p (release_if_held lockGroupLeader p env keys b).
Proof.
  induction keys as [|k keys IH]; [apply mine_ret|]. cbn. apply mine_bind; [|done].
  intros s r s' E. unfold ReleaseLockIfHeld in E.
  repeat (case_match; simplify_eq; try reflexivity); try apply private_set_backend;
    match goal with H : LockRelease _ _ _ _ _ _ _ = _ |- _ => apply mine_release in H end;
    (etrans; [apply private_set_backend|eassumption]).
Qed.

Lemma exec_private p env c : mine p (exec lockGroupLeader p env c).
Proof.
  destruct c; cbn; (apply mine_bind; [|intros ?; apply mine_ret]).
  - apply mine_acquire.
  - apply mine_wait_return.
  - apply mine_leave_queue.
  - apply mine_soft.
  - apply mine_error_cleanup.
  - apply mine_release.
  - apply mine_release_locks.
  - intros s r s' E. unfold LockReleaseSession in E. case_match; [by eapply mine_release_if_held|by simplify_eq].
  - intros s r s' E. by eapply mine_release_if_held.
Qed.

End Private.
