(* ===== verification/LockManager.v ===== *)
(** * The lock manager: its contract

    What the lock manager of [LockTable] promises to its callers, over the states
    that the backends can reach from empty tables: mutual exclusion, no lost
    wake-up, the outcome of requests and releases, the end of a transaction, and
    that a waiting backend proceeds when the others end their transactions.
    [run] executes a script of calls, for concrete reachable states. *)

From S2P Require Import Prelude LockObject LockTable.
From stdpp Require Import gmap.
#[local] Open Scope Z_scope.

(** ** Scripts of calls *)

Definition enabledb (p : ProcNumber) (c : lock_call) (s : LockState) : bool :=
  let b := backend s p in
  match c with
  | CallAcquire t _ _ _ _ => bool_decide (awaitedLock b = None) && negb (uses_fast_path t)
  | CallWaitReturn => negb (bool_decide (awaitedLock b = None)) && bool_decide (waitLock b = None)
  | CallDeadLock => negb (bool_decide (waitLock b = None))
  | CallSoftDeadLock _ _ => false
  | CallErrorCleanup => true
  | CallRelease t _ _ => bool_decide (awaitedLock b = None) && negb (uses_fast_path t)
  | CallReleaseLocks _ => true
  | CallReleaseSession _ | CallReleaseCurrentOwner => bool_decide (awaitedLock b = None)
  end.

Lemma enabledb_spec p c s : enabledb p c s = true -> enabled p c s.
Proof.
  unfold enabledb, enabled. destruct c; intros H; split_bool; try done;
    repeat match goal with
      | H : bool_decide _ = true |- _ => apply bool_decide_eq_true_1 in H
      | H : bool_decide _ = false |- _ => apply bool_decide_eq_false_1 in H
      | H : negb _ = true |- _ => apply negb_true_iff in H
      end; rewrite ?not_eq_None_Some in *; auto.
Qed.

Fixpoint run (lockGroupLeader : ProcNumber -> option ProcNumber) (env : lock_env)
    (script : list (ProcNumber * lock_call)) (s : LockState) : option LockState :=
  match script with
  | [] => Some s
  | (p, c) :: script' =>
      if enabledb p c s then run lockGroupLeader env script' (exec lockGroupLeader p env c s).2 else None
  end.

Lemma run_steps lockGroupLeader env script s s' :
  run lockGroupLeader env script s = Some s' -> rtc (step lockGroupLeader) s s'.
Proof.
  revert s. induction script as [|[p c] script IH]; intros s H; cbn in H; [by injection H as <-|].
  destruct (enabledb p c s) eqn:E; [|done]. eapply rtc_l; [|by apply IH].
  destruct (exec lockGroupLeader p env c s) as [r s1] eqn:Ex. eapply step_call; [by apply enabledb_spec|exact Ex].
Qed.

Definition script_state (lockGroupLeader : ProcNumber -> option ProcNumber) (env : lock_env)
    (script : list (ProcNumber * lock_call)) : LockState :=
  default empty_state (run lockGroupLeader env script empty_state).

Lemma script_reachable lockGroupLeader env script :
  reachable lockGroupLeader (script_state lockGroupLeader env script).
Proof.
  unfold script_state, reachable. destruct (run lockGroupLeader env script empty_state) as [s|] eqn:E; cbn; [|done].
  by eapply run_steps.
Qed.

(** ** The contract *)

(** Locks of the object [t] can conflict between these two processes. *)
Definition separated (lockGroupLeader : ProcNumber -> option ProcNumber) (t : LOCKTAG) (p q : ProcNumber) : Prop :=
  p <> q /\ (locktag_type t = LOCKTAG_RELATION_EXTEND \/
             group_leader lockGroupLeader p <> group_leader lockGroupLeader q).

Section Contract.

Context (lockGroupLeader : ProcNumber -> option ProcNumber) `{!GroupsOK lockGroupLeader}.

#[local] Abbreviation sys_ok := (sys_ok lockGroupLeader).

Lemma sys_exclusive s p q t m m' lmt :
  sys_ok s -> LockMethods (locktag_lockmethodid t) = Some lmt -> separated lockGroupLeader t p q ->
  table_holds (LockMethodLockHash s) p t m -> table_holds (LockMethodLockHash s) q t m' -> ~ conflicts lmt m m'.
Proof.
  intros Hs Hm Hsep (l & El & Hp) (l' & El' & Hq). assert (l' = l) as -> by congruence.
  destruct (sys_lookup lockGroupLeader s t l Hs El) as (Ht & lmt' & Hm' & _ & Hinv).
  assert (lmt' = lmt) as -> by congruence.
  apply (inv_exclusive _ _ _ Hinv p q); [|done|done]. unfold separate. by rewrite Ht.
Qed.

(** A waiting process, and what it waits for. *)
Lemma sys_waits s p t m lmt :
  sys_ok s -> LockMethods (locktag_lockmethodid t) = Some lmt -> waitLock (backend s p) = Some (t, m) ->
  exists l q1 w q2, LockMethodLockHash s !! t = Some l /\ waitProcs l = q1 ++ w :: q2 /\ procNumber w = p /\
    waitLockMode w = m /\ blocked lmt lockGroupLeader l q1 w.
Proof.
  intros Hs Hm Hw. destruct (sys_waiting lockGroupLeader s p t m Hs Hw) as (l & lmt' & w & El & Ht & Hm' & _ & Hinv & Hin & Hp & Hmw).
  assert (lmt' = lmt) as -> by congruence. apply list_elem_of_split in Hin as (q1 & q2 & Eq).
  exists l, q1, w, q2. split; [done|]. split; [done|]. split; [done|]. split; [done|].
  by eapply (inv_no_lost_wakeup _ _ _ Hinv).
Qed.

(** *** Ending the other transactions *)

(** The backend holds no lock of the default method and waits for none. *)
Definition finished (b : Backend) : Prop :=
  awaitedLock b = None /\ waitLock b = None /\
  forall t m, locktag_lockmethodid t = DEFAULT_LOCKMETHOD -> ~ local_holds b t m.

(** A transaction abort of each process of the list. *)
Definition abort_all (ps : list ProcNumber) : ST LockState unit :=
  foldr (fun p k => ProcReleaseLocks lockGroupLeader p false ≫= fun _ => k) (mret tt) ps.

Lemma abort_finishes s p s' :
  sys_ok s -> ProcReleaseLocks lockGroupLeader p false s = (Ok tt, s') ->
  sys_ok s' /\ finished (backend s' p) /\ others_kept s s' p.
Proof.
  intros Hs E. destruct (ProcReleaseLocks_ok lockGroupLeader s p false Hs) as (s0 & s1 & _ & E1 & Hs1 & Ha & Ho & Ht & _).
  rewrite E in E1. injection E1 as <-. split; [done|]. split; [|done]. split; [done|].
  split; [by apply (running_not_waiting lockGroupLeader)|]. intros t m Hd (ll & El & Hpos).
  pose proof (bk_local _ (ag_backend _ _ (sys_agree _ _ Hs1) p) _ _ El) as Hok.
  assert (lockOwners ll = []) as Eo.
  { destruct (lockOwners ll) as [|x xs] eqn:Ex; [done|]. pose proof (ll_owners _ Hok) as Hoo. rewrite Ex in Hoo.
    specialize (Ht t m (owner x)). unfold times in Ht. rewrite El, Ex, owner_count_cons in Ht.
    rewrite (bool_decide_eq_true_2 (owner x = owner x)) in Ht by done.
    rewrite (bool_decide_eq_true_2 (transaction_gone _ _ _)) in Ht by (left; split; [done|by left]).
    apply owners_ok_cons in Hoo as (Hni & Hx & Hrest). rewrite owner_count_absent in Ht by done. lia. }
  rewrite (ll_nLocks _ Hok), Eo in Hpos. done.
Qed.

Lemma finished_kept s s' p q : q <> p -> others_kept s s' p -> finished (backend s q) -> finished (backend s' q).
Proof. intros Hne Ho Hf. destruct (Ho q Hne) as [->|[[k Hk] _]]; [done|]. destruct Hf as (_ & ? & _). congruence. Qed.

(** After the aborts every process of the list is finished; a process that is not
    in the list is as it was or has its lock. *)
Lemma abort_all_ok ps s :
  sys_ok s -> exists s', abort_all ps s = (Ok tt, s') /\ sys_ok s' /\
    (forall q, q ∈ ps \/ finished (backend s q) -> finished (backend s' q)) /\
    (forall q, q ∉ ps -> backend s' q = backend s q \/
       (is_Some (waitLock (backend s q)) /\ backend s' q = woken_backend (backend s q))).
Proof.
  revert s. induction ps as [|p ps IH]; intros s Hs.
  - exists s. split; [done|]. split; [done|]. split; [|auto]. intros q [?|?]; [set_solver|done].
  - destruct (ProcReleaseLocks_ok lockGroupLeader s p false Hs) as (_ & s1 & _ & E1 & _).
    destruct (abort_finishes s p s1 Hs E1) as (Hs1 & Hf & Ho).
    destruct (IH s1 Hs1) as (s' & E & Hs' & Hfin & Hrest). exists s'. split.
    { cbn. unfold mbind, ST_bind. rewrite E1. exact E. }
    split; [done|]. split.
    + intros q Hq. apply Hfin. destruct (decide (q = p)) as [->|Hne]; [auto|].
      destruct Hq as [Hq|Hq]; [left; set_solver|right]. by eapply finished_kept.
    + intros q Hq. destruct (Ho q ltac:(set_solver)) as [E2|[W2 E2]], (Hrest q ltac:(set_solver)) as [E3|[W3 E3]];
        rewrite E2 in *; auto.
Qed.

(** The other backends. *)
Definition others (p : ProcNumber) (s : LockState) : list ProcNumber :=
  filter (fun q => q <> p) (map_to_list (backends s)).*1.

Lemma others_finished p s q : q <> p -> q ∈ others p s \/ finished (backend s q).
Proof.
  intros Hne. destruct (backends s !! q) as [b|] eqn:E; [left|right].
  - apply list_elem_of_filter. split; [done|]. apply list_elem_of_fmap. exists (q, b). split; [done|].
    by apply elem_of_map_to_list.
  - unfold backend. rewrite E. split; [done|]. split; [done|]. intros t m _ (ll & El & _). done.
Qed.

(** The lock of a backend that no longer waits. *)
Lemma woken_holds s s' p t m :
  sys_ok s -> sys_ok s' -> waitLock (backend s p) = Some (t, m) -> backend s' p = woken_backend (backend s p) ->
  table_holds (LockMethodLockHash s') p t m.
Proof.
  intros Hs Hs' Hw Eb. apply (ag_holds _ _ (sys_agree _ _ Hs')). right. rewrite Eb.
  destruct (bk_waiting _ (ag_backend _ _ (sys_agree _ _ Hs) p) _ Hw) as (_ & o & Ha).
  split; [done|]. split; [done|]. by exists o.
Qed.

Lemma alone_not_waiting s p t m :
  sys_ok s -> locktag_lockmethodid t = DEFAULT_LOCKMETHOD -> (forall q, q <> p -> finished (backend s q)) ->
  waitLock (backend s p) <> Some (t, m).
Proof.
  intros Hs Hd Hf Hw.
  destruct (sys_waits s p t m default_lockmethod Hs) as (l & q1 & w & q2 & El & Eq & Hp & Hm & Hb);
    [by rewrite Hd|done|]. pose proof (sys_agree _ _ Hs) as [G1 G2 G3].
  destruct Hb as [(w' & Hw' & _)|(q & m' & [Hne _] & _ & _ & Hh)].
  - assert (Hnd : NoDup (procNumber <$> waitProcs l)).
    { destruct (sys_lookup lockGroupLeader s t l Hs El) as (_ & lmt & _ & _ & Hinv).
      apply (wf_queue _ _ _ _ (inv_wf _ _ _ Hinv)). }
    assert (Hne : procNumber w' <> p).
    { rewrite Eq, fmap_app, fmap_cons in Hnd. apply NoDup_app in Hnd as (_ & Hd' & _). intros E.
      apply (Hd' p); [rewrite <- E; by apply list_elem_of_fmap_2|]. rewrite Hp. set_solver. }
    destruct (Hf _ Hne) as (_ & Hnw & _).
    assert (Hq : table_waits (LockMethodLockHash s) (procNumber w') t (waitLockMode w')).
    { exists l. split; [done|]. exists w'. rewrite Eq. set_solver. }
    apply G2 in Hq. congruence.
  - rewrite Hp in Hne. destruct (Hf q ltac:(done)) as (Ha & _ & Hl). apply (Hl t m' Hd).
    apply (running_backend lockGroupLeader s q t m' Hs Ha). by exists l.
Qed.

(** *** Claims *)

(** C3. Mutual exclusion: in every reachable state, two processes of different lock
    groups (or any two processes, for relation extension locks) never hold modes
    of one object that conflict in the table of its lock method. *)
Theorem lock_mutual_exclusion s p q t m m' lmt :
  reachable lockGroupLeader s -> LockMethods (locktag_lockmethodid t) = Some lmt ->
  separated lockGroupLeader t p q ->
  table_holds (LockMethodLockHash s) p t m -> table_holds (LockMethodLockHash s) q t m' -> ~ conflicts lmt m m'.
Proof. intros Hs%reachable_ok; [|done]. by apply sys_exclusive. Qed.

(** C4. No lost wake-up: in every reachable state, a process that waits for a mode
    of an object is in the queue of that object, behind a conflicting request or
    because another lock group holds a conflicting mode. *)
Theorem no_lost_wakeup s p t m lmt :
  reachable lockGroupLeader s -> LockMethods (locktag_lockmethodid t) = Some lmt ->
  waitLock (backend s p) = Some (t, m) ->
  exists l q1 w q2, LockMethodLockHash s !! t = Some l /\ waitProcs l = q1 ++ w :: q2 /\ procNumber w = p /\
    waitLockMode w = m /\
    ((exists w', w' ∈ q1 /\ conflicts lmt m (waitLockMode w')) \/
     exists q m', separated lockGroupLeader t p q /\ conflicts lmt m m' /\ lock_holds l q m').
Proof.
  intros Hs%reachable_ok Hm Hw; [|done].
  destruct (sys_waits s p t m lmt Hs Hm Hw) as (l & q1 & w & q2 & El & Eq & Hp & Hmw & Hb).
  destruct (sys_lookup lockGroupLeader s t l Hs El) as (Ht & _).
  exists l, q1, w, q2. split; [done|]. split; [done|]. split; [done|]. split; [done|]. subst p m.
  destruct Hb as [?|(q & m' & Hsep & _ & ? & ?)]; [by left|right]. exists q, m'. unfold separate in Hsep. rewrite Ht in Hsep.
  done.
Qed.

(** C5. Progress: from every reachable state, aborting the transactions of all other
    backends succeeds and gives a waiting backend the regular lock it waits for. *)
Theorem waiter_proceeds s p t m :
  reachable lockGroupLeader s -> waitLock (backend s p) = Some (t, m) ->
  locktag_lockmethodid t = DEFAULT_LOCKMETHOD ->
  exists s', abort_all (others p s) s = (Ok tt, s') /\ waitLock (backend s' p) = None /\
    waitStatus (backend s' p) = PROC_WAIT_STATUS_OK /\ table_holds (LockMethodLockHash s') p t m.
Proof.
  intros Hs%reachable_ok Hw Hd; [|done]. destruct (abort_all_ok (others p s) s Hs) as (s' & E & Hs' & Hf & Hp).
  exists s'. split; [done|].
  assert (Hnp : p ∉ others p s) by (by intros [? _]%list_elem_of_filter).
  destruct (Hp p Hnp) as [Eb|[_ Eb]].
  - destruct (alone_not_waiting s' p t m Hs' Hd); [|by rewrite Eb].
    intros q Hne. by apply Hf, others_finished.
  - split; [by rewrite Eb|]. split; [by rewrite Eb|]. by apply (woken_holds s s' p t m).
Qed.


(** C27. A release returns true exactly when the owner holds the lock; it then takes
    one count of that owner, and with the last count the mode itself, which passes
    to the waiters that are woken. *)
Theorem lock_release_outcome s p env t m sessionLock :
  reachable lockGroupLeader s -> awaitedLock (backend s p) = None -> valid_lock t m ->
  exists b s', LockRelease lockGroupLeader p env t m sessionLock s = (Ok b, s') /\
    release_post s s' p t m (lock_owner env sessionLock) b.
Proof.
  intros Hs%reachable_ok Ha (lmt & Hm & Hr); [|done].
  destruct (LockRelease_ok lockGroupLeader s p env t m sessionLock lmt Hs Ha Hm Hr) as (b & s' & ? & _ & _ & ?).
  by exists b, s'.
Qed.

(** C28. The end of a transaction never fails, and leaves the backend waiting for
    nothing.  It releases the backend's transaction level locks of both methods,
    in its local table and in the shared one, and keeps its session level advisory
    locks (after a commit also the session level regular locks).  Other backends
    lose nothing, and gain only what they waited for. *)
Theorem transaction_end_releases s p isCommit :
  reachable lockGroupLeader s ->
  exists s0 s', LockErrorCleanup lockGroupLeader p s = (Ok tt, s0) /\
    ProcReleaseLocks lockGroupLeader p isCommit s = (Ok tt, s') /\ others_kept s s' p /\
    (forall t m o, times s' p t m o =
       if bool_decide (transaction_gone isCommit t o) then 0 else times s0 p t m o) /\
    awaitedLock (backend s' p) = None /\ (forall t m, ~ table_waits (LockMethodLockHash s') p t m) /\
    (forall t m, table_holds (LockMethodLockHash s') p t m <->
       exists o, ~ transaction_gone isCommit t o /\ 0 < times s0 p t m o) /\
    (forall q t m, q <> p -> table_holds (LockMethodLockHash s) q t m -> table_holds (LockMethodLockHash s') q t m) /\
    (forall q t m, q <> p -> table_holds (LockMethodLockHash s') q t m ->
       table_holds (LockMethodLockHash s) q t m \/ table_waits (LockMethodLockHash s) q t m).
Proof.
  intros Hs%reachable_ok; [|done].
  destruct (ProcReleaseLocks_ok lockGroupLeader s p isCommit Hs) as (s0 & s' & E0 & E & Hs' & Ha & Ho & Ht & _).
  exists s0, s'. do 5 (split; [done|]). split; [by apply (running_waits_nothing lockGroupLeader)|].
  split; [|split; [by apply (others_keep_locks lockGroupLeader)|by apply (others_gain_awaited lockGroupLeader)]].
  intros t m. rewrite (running_counts lockGroupLeader) by done. setoid_rewrite Ht. split.
  - intros [o Hp]. exists o. case_bool_decide; [lia|done].
  - intros (o & Hn & Hp). exists o. by rewrite bool_decide_eq_false_2.
Qed.

(** C29. A call with valid arguments fails only for lack of shared memory, for a
    deadlock or because of recovery: the internal errors of the lock manager
    (a lock already held, a corrupted table, a negative count) never occur. *)
Theorem lock_calls_fail_only_as_documented s p env c e s' :
  reachable lockGroupLeader s -> enabled p c s -> valid_call c ->
  exec lockGroupLeader p env c s = (Err e, s') -> err_code e ∈ lock_errors.
Proof. intros Hs%reachable_ok Hen Hv E; [|done]. by apply (exec_ok lockGroupLeader s p env c (Err e) s' Hs Hen E). Qed.

(** [LockHeldByMe] answers from the local table what the shared table says. *)
Theorem held_by_me_agrees s p t m (orstronger : bool) :
  reachable lockGroupLeader s -> awaitedLock (backend s p) = None ->
  LockHeldByMe p t m orstronger s = true <->
  exists m', table_holds (LockMethodLockHash s) p t m' /\ (m' = m \/ (orstronger = true /\ m < m' <= MaxLockMode)).
Proof.
  intros Hs%reachable_ok Ha; [|done]. unfold LockHeldByMe.
  set (held := fun i => match LockMethodLocalHash (backend s p) !! (t, i) with Some ll => 0 <? nLocks ll | None => false end).
  cbv zeta. change (match LockMethodLocalHash (backend s p) !! (t, m) with Some ll => 0 <? nLocks ll | None => false end)
    with (held m).
  assert (Hh : forall i, held i = true <-> table_holds (LockMethodLockHash s) p t i).
  { intros i. destruct (running_backend lockGroupLeader s p t i Hs Ha) as (_ & _ & ->). unfold held, local_holds.
    destruct (LockMethodLocalHash (backend s p) !! (t, i)) as [ll|]; [rewrite Z.ltb_lt|]; naive_solver. }
  rewrite orb_true_iff, andb_true_iff, existsb_exists, Hh. setoid_rewrite Hh.
  setoid_rewrite <- list_elem_of_In. setoid_rewrite elem_of_seqZ. split.
  - intros [?|(-> & x & ? & ?)]; [by exists m; auto|]. exists x. split; [done|]. right. split; [done|]. lia.
  - intros (x & ? & [->|(-> & ?)]); [by left|right]. split; [done|]. exists x. split; [lia|done].
Qed.

End Contract.

(** ** Witnesses *)

Definition no_groups : ProcNumber -> option ProcNumber := fun _ => None.

#[export] Instance no_groups_ok : GroupsOK no_groups.
Proof. by intros p q. Qed.

(** The computable form of [table_holds]. *)
Definition table_holdsb (locks : gmap LOCKTAG LOCK) (p : ProcNumber) (t : LOCKTAG) (m : LOCKMODE) : bool :=
  match locks !! t with
  | Some l => match find_proclock l p with Some pl => Z.testbit (holdMask pl) m | None => false end
  | None => false
  end.

Lemma table_holdsb_spec locks p t m : table_holdsb locks p t m = true -> table_holds locks p t m.
Proof.
  unfold table_holdsb. destruct (locks !! t) as [l|] eqn:El; [|done].
  destruct (find_proclock l p) as [pl|] eqn:Ef; [|done]. apply find_proclock_Some in Ef as [Hin Hp].
  intros Hb. exists l. split; [done|]. by exists pl.
Qed.

Definition demo_env : lock_env := mkEnv 7 false true true.

Definition demo_tag : LOCKTAG := mkLOCKTAG 5 1259 16384 0 LOCKTAG_OBJECT DEFAULT_LOCKMETHOD.

(** Processes 1 and 2 share the lock. *)
Definition demo_shared : LockState :=
  script_state no_groups demo_env
    [(1, CallAcquire demo_tag ShareLock false false true); (2, CallAcquire demo_tag ShareLock false false true)].

(** Process 2 waits for process 1. *)
Definition demo_waiting : LockState :=
  script_state no_groups demo_env
    [(1, CallAcquire demo_tag ExclusiveLock false false true); (2, CallAcquire demo_tag ShareLock false false true)].


Lemma lock_mutual_exclusion_witness :
  reachable no_groups demo_shared /\ ~ conflicts default_lockmethod ShareLock ShareLock.
Proof.
  split; [apply script_reachable|].
  apply (lock_mutual_exclusion no_groups demo_shared 1 2 demo_tag ShareLock ShareLock default_lockmethod).
  - apply script_reachable.
  - reflexivity.
  - split; [done|]. by right.
  - apply table_holdsb_spec. vm_compute. reflexivity.
  - apply table_holdsb_spec. vm_compute. reflexivity.
Defined.

Lemma no_lost_wakeup_witness :
  waitLock (backend demo_waiting 2) = Some (demo_tag, ShareLock) /\
  exists l q1 w q2, LockMethodLockHash demo_waiting !! demo_tag = Some l /\ waitProcs l = q1 ++ w :: q2 /\
    procNumber w = 2 /\ waitLockMode w = ShareLock /\
    ((exists w', w' ∈ q1 /\ conflicts default_lockmethod ShareLock (waitLockMode w')) \/
     exists q m', separated no_groups demo_tag 2 q /\ conflicts default_lockmethod ShareLock m' /\ lock_holds l q m').
Proof.
  assert (Hw : waitLock (backend demo_waiting 2) = Some (demo_tag, ShareLock)) by (vm_compute; reflexivity).
  split; [exact Hw|].
  apply (no_lost_wakeup no_groups demo_waiting 2 demo_tag ShareLock default_lockmethod);
    [apply script_reachable|reflexivity|exact Hw].
Defined.

Lemma waiter_proceeds_witness :
  others 2 demo_waiting = [1] /\
  exists s', abort_all no_groups [1] demo_waiting = (Ok tt, s') /\ waitLock (backend s' 2) = None /\
    waitStatus (backend s' 2) = PROC_WAIT_STATUS_OK /\ table_holds (LockMethodLockHash s') 2 demo_tag ShareLock.
Proof.
  assert (Eo : others 2 demo_waiting = [1]) by (vm_compute; reflexivity). split; [exact Eo|]. rewrite <- Eo.
  apply (waiter_proceeds no_groups demo_waiting 2 demo_tag ShareLock);
    [apply script_reachable|vm_compute; reflexivity|reflexivity].
Defined.


Lemma lock_release_outcome_witness :
  exists b s', LockRelease no_groups 1 demo_env demo_tag ExclusiveLock false demo_waiting = (Ok b, s') /\
    release_post demo_waiting s' 1 demo_tag ExclusiveLock (Some 7) b.
Proof.
  apply (lock_release_outcome no_groups demo_waiting 1 demo_env demo_tag ExclusiveLock false);
    [apply script_reachable|vm_compute; reflexivity|]. by exists default_lockmethod.
Defined.

(** Process 1 commits, and process 2 has the lock it waited for. *)
Lemma transaction_end_releases_witness :
  exists s', ProcReleaseLocks no_groups 1 true demo_waiting = (Ok tt, s') /\
    (forall m, ~ table_waits (LockMethodLockHash s') 1 demo_tag m) /\
    (table_holds (LockMethodLockHash s') 2 demo_tag ShareLock ->
     table_holds (LockMethodLockHash demo_waiting) 2 demo_tag ShareLock \/
     table_waits (LockMethodLockHash demo_waiting) 2 demo_tag ShareLock).
Proof.
  destruct (transaction_end_releases no_groups demo_waiting 1 true) as (s0 & s' & _ & E & _ & _ & _ & Hw & _ & _ & Hg);
    [apply script_reachable|].
  exists s'. split; [exact E|]. split; [intros m; apply Hw|]. apply Hg. discriminate.
Defined.

(** No room in the shared table. *)
Lemma lock_calls_fail_only_as_documented_witness :
  ERRCODE_OUT_OF_MEMORY ∈ lock_errors.
Proof.
  apply (lock_calls_fail_only_as_documented no_groups empty_state 1 (mkEnv 7 false false true)
    (CallAcquire demo_tag ShareLock false false true) (mkError ERRCODE_OUT_OF_MEMORY "out of shared memory")
    (exec no_groups 1 (mkEnv 7 false false true) (CallAcquire demo_tag ShareLock false false true) empty_state).2).
  - apply rtc_refl.
  - split; reflexivity.
  - by exists default_lockmethod.
  - vm_compute. reflexivity.
Defined.

Lemma held_by_me_agrees_witness :
  LockHeldByMe 1 demo_tag ShareLock true demo_waiting = true <->
  exists m', table_holds (LockMethodLockHash demo_waiting) 1 demo_tag m' /\
    (m' = ShareLock \/ (true = true /\ ShareLock < m' <= MaxLockMode)).
Proof.
  apply (held_by_me_agrees no_groups demo_waiting 1 demo_tag ShareLock true);
    [apply script_reachable|vm_compute; reflexivity].
Defined.
