(* ===== verification/Advisory.v ===== *)
(** * Advisory locks

    The SQL functions for advisory locks, [src/src/backend/utils/adt/lockfuncs.c],
    over the lock manager, and the interface that the packages built on them see.

    - [SET_LOCKTAG_INT64], [SET_LOCKTAG_INT32]: the lock tags of the two key spaces.
    - The functions [pg_advisory_lock], [pg_try_advisory_lock], [pg_advisory_unlock]
      in their exclusive and shared, session and transaction variants.  A function
      that waits for its lock returns [Asleep]; the wait ends in [LockTable].
    - [AdvisoryService]: what a client relies on, stated on the number of times a
      session holds a key.  [lock_manager_service] is the proof that the functions
      above, on the lock manager, implement it. *)

From S2P Require Import Prelude LockObject LockTable LockManager.
From stdpp Require Import gmap.
#[local] Open Scope Z_scope.

(** ** Lock tags *)

Definition SET_LOCKTAG_ADVISORY (id1 id2 id3 id4 : Z) : LOCKTAG :=
  mkLOCKTAG id1 id2 id3 id4 LOCKTAG_ADVISORY USER_LOCKMETHOD.

Definition SET_LOCKTAG_INT64 (MyDatabaseId key64 : Z) : LOCKTAG :=
  SET_LOCKTAG_ADVISORY MyDatabaseId (uint32 (Z.shiftr key64 32)) (uint32 key64) 1.

Definition SET_LOCKTAG_INT32 (MyDatabaseId key1 key2 : Z) : LOCKTAG :=
  SET_LOCKTAG_ADVISORY MyDatabaseId (uint32 key1) (uint32 key2) 2.

(** ** The functions *)

Section Functions.

Context (MyDatabaseId : Z) (lockGroupLeader : ProcNumber -> option ProcNumber) (MyProc : ProcNumber) (env : lock_env).

#[local] Abbreviation LockAcquire := (LockAcquire lockGroupLeader MyProc env).
#[local] Abbreviation LockRelease := (LockRelease lockGroupLeader MyProc env).

(** [res != LOCKACQUIRE_NOT_AVAIL] *)
Definition acquired (res : acquire_outcome) : bool :=
  match res with Returned LOCKACQUIRE_NOT_AVAIL => false | _ => true end.

Definition pg_advisory_lock_int8 (key : Z) : ST LockState acquire_outcome :=
  LockAcquire (SET_LOCKTAG_INT64 MyDatabaseId key) ExclusiveLock true false.

Definition pg_advisory_xact_lock_int8 (key : Z) : ST LockState acquire_outcome :=
  LockAcquire (SET_LOCKTAG_INT64 MyDatabaseId key) ExclusiveLock false false.

Definition pg_advisory_lock_shared_int8 (key : Z) : ST LockState acquire_outcome :=
  LockAcquire (SET_LOCKTAG_INT64 MyDatabaseId key) ShareLock true false.

Definition pg_advisory_xact_lock_shared_int8 (key : Z) : ST LockState acquire_outcome :=
  LockAcquire (SET_LOCKTAG_INT64 MyDatabaseId key) ShareLock false false.

Definition pg_try_advisory_lock_int8 (key : Z) : ST LockState bool :=
  res ← LockAcquire (SET_LOCKTAG_INT64 MyDatabaseId key) ExclusiveLock true true; mret (acquired res).

Definition pg_try_advisory_xact_lock_int8 (key : Z) : ST LockState bool :=
  res ← LockAcquire (SET_LOCKTAG_INT64 MyDatabaseId key) ExclusiveLock false true; mret (acquired res).

Definition pg_try_advisory_lock_shared_int8 (key : Z) : ST LockState bool :=
  res ← LockAcquire (SET_LOCKTAG_INT64 MyDatabaseId key) ShareLock true true; mret (acquired res).

Definition pg_try_advisory_xact_lock_shared_int8 (key : Z) : ST LockState bool :=
  res ← LockAcquire (SET_LOCKTAG_INT64 MyDatabaseId key) ShareLock false true; mret (acquired res).

Definition pg_advisory_unlock_int8 (key : Z) : ST LockState bool :=
  LockRelease (SET_LOCKTAG_INT64 MyDatabaseId key) ExclusiveLock true.

Definition pg_advisory_unlock_shared_int8 (key : Z) : ST LockState bool :=
  LockRelease (SET_LOCKTAG_INT64 MyDatabaseId key) ShareLock true.

Definition pg_advisory_lock_int4 (key1 key2 : Z) : ST LockState acquire_outcome :=
  LockAcquire (SET_LOCKTAG_INT32 MyDatabaseId key1 key2) ExclusiveLock true false.

Definition pg_advisory_xact_lock_int4 (key1 key2 : Z) : ST LockState acquire_outcome :=
  LockAcquire (SET_LOCKTAG_INT32 MyDatabaseId key1 key2) ExclusiveLock false false.

Definition pg_advisory_lock_shared_int4 (key1 key2 : Z) : ST LockState acquire_outcome :=
  LockAcquire (SET_LOCKTAG_INT32 MyDatabaseId key1 key2) ShareLock true false.

Definition pg_advisory_xact_lock_shared_int4 (key1 key2 : Z) : ST LockState acquire_outcome :=
  LockAcquire (SET_LOCKTAG_INT32 MyDatabaseId key1 key2) ShareLock false false.

Definition pg_try_advisory_lock_int4 (key1 key2 : Z) : ST LockState bool :=
  res ← LockAcquire (SET_LOCKTAG_INT32 MyDatabaseId key1 key2) ExclusiveLock true true; mret (acquired res).

Definition pg_try_advisory_xact_lock_int4 (key1 key2 : Z) : ST LockState bool :=
  res ← LockAcquire (SET_LOCKTAG_INT32 MyDatabaseId key1 key2) ExclusiveLock false true; mret (acquired res).

Definition pg_try_advisory_lock_shared_int4 (key1 key2 : Z) : ST LockState bool :=
  res ← LockAcquire (SET_LOCKTAG_INT32 MyDatabaseId key1 key2) ShareLock true true; mret (acquired res).

Definition pg_try_advisory_xact_lock_shared_int4 (key1 key2 : Z) : ST LockState bool :=
  res ← LockAcquire (SET_LOCKTAG_INT32 MyDatabaseId key1 key2) ShareLock false true; mret (acquired res).

Definition pg_advisory_unlock_int4 (key1 key2 : Z) : ST LockState bool :=
  LockRelease (SET_LOCKTAG_INT32 MyDatabaseId key1 key2) ExclusiveLock true.

Definition pg_advisory_unlock_shared_int4 (key1 key2 : Z) : ST LockState bool :=
  LockRelease (SET_LOCKTAG_INT32 MyDatabaseId key1 key2) ShareLock true.

Definition pg_advisory_unlock_all : ST LockState unit :=
  LockReleaseSession lockGroupLeader MyProc env USER_LOCKMETHOD.

End Functions.

(** ** The interface *)

(** Exclusive ([true]) or shared. *)
Abbreviation excl := bool.

(** The calls of one session, and what the other sessions see of them. *)
Class AdvisoryService (S : Type) := {
  try_lock : ProcNumber -> excl -> Z -> ST S bool;
  unlock : ProcNumber -> excl -> Z -> ST S bool;
  (** how often a session holds the key in the mode *)
  count : S -> ProcNumber -> Z -> excl -> Z;
  (** the session holds the key in some mode, or waits for it *)
  engaged : S -> ProcNumber -> Z -> Prop;
  (** sessions whose locks exclude each other *)
  rivals : ProcNumber -> ProcNumber -> Prop;
  svc_ok : S -> Prop;
  (** the session is not inside a lock wait *)
  running : S -> ProcNumber -> Prop;
  (** any call of the lock manager by a session *)
  svc_step : ProcNumber -> S -> S -> Prop
}.

(** The call took the lock. *)
Definition granted_one (r : result bool) : bool := match r with Ok b => b | Err _ => false end.

(** One for the given session, key and mode. *)
Definition one_at (p : ProcNumber) (k : Z) (x : excl) (q : ProcNumber) (k' : Z) (x' : excl) : Z :=
  if bool_decide (q = p /\ k' = k /\ x' = x) then 1 else 0.

Class AdvisoryLaws (S : Type) `{AdvisoryService S} : Prop := {
  count_nonneg s p k x : svc_ok s -> 0 <= count s p k x;
  exclusion s p q k x : svc_ok s -> rivals p q -> 0 < count s p k true -> count s q k x = 0;
  try_lock_law s p x k :
    svc_ok s -> running s p -> is_int64 k ->
    exists r s', try_lock p x k s = (r, s') /\ svc_ok s' /\ running s' p /\
      (forall q k' x', is_int64 k' -> count s' q k' x' = count s q k' x' +
         if granted_one r then one_at p k x q k' x' else 0) /\
      (r = Ok false -> exists q, q <> p /\ engaged s q k) /\
      (forall e, r = Err e -> err_code e = ERRCODE_OUT_OF_MEMORY);
  try_lock_again s p x k :
    svc_ok s -> running s p -> is_int64 k -> 0 < count s p k x -> exists s', try_lock p x k s = (Ok true, s');
  unlock_law s p x k :
    svc_ok s -> running s p -> is_int64 k ->
    exists s', unlock p x k s = (Ok (0 <? count s p k x), s') /\ svc_ok s' /\ running s' p /\
      (forall q k' x', is_int64 k' -> count s' q k' x' = count s q k' x' -
         if 0 <? count s p k x then one_at p k x q k' x' else 0);
  try_lock_step p x k s r s' : try_lock p x k s = (r, s') -> running s p -> svc_step p s s';
  unlock_step p x k s r s' : unlock p x k s = (r, s') -> running s p -> svc_step p s s';
  svc_step_law s s' q :
    svc_ok s -> svc_step q s s' ->
    svc_ok s' /\ forall p, p <> q -> (running s p -> running s' p) /\ forall k x, count s' p k x = count s p k x
}.

(** Calls of other sessions than [p]. *)
Definition meanwhile {S} `{AdvisoryService S} (p : ProcNumber) : S -> S -> Prop :=
  rtc (fun s s' => exists q, q <> p /\ svc_step q s s').

Lemma meanwhile_law {S} `{AdvisoryLaws S} s s' p :
  svc_ok s -> running s p -> meanwhile p s s' ->
  svc_ok s' /\ running s' p /\ forall k x, count s' p k x = count s p k x.
Proof.
  intros Hs Hr Hm. revert Hs Hr. induction Hm as [s|s1 s2 s3 (q & Hne & Hq) _ IH]; intros Hs Hr; [done|].
  destruct (svc_step_law s1 s2 q Hs Hq) as (Hs2 & Ho). destruct (Ho p ltac:(done)) as [Hr2 Hc2].
  destruct (IH Hs2 (Hr2 Hr)) as (? & ? & Hc3). split; [done|]. split; [done|]. intros k x. by rewrite Hc3.
Qed.

(** ** The lock manager implements it *)

(** Distinct keys of 64 bits have distinct tags. *)
Lemma locktag_int64_inj db k k' : is_int64 k -> is_int64 k' -> SET_LOCKTAG_INT64 db k = SET_LOCKTAG_INT64 db k' -> k = k'.
Proof.
  intros Hk Hk' [= H1 H2]. rewrite !Z.shiftr_div_pow2 in H1 by lia. change (2 ^ 32) with UINT32_MOD in H1.
  unfold is_int64, INT64_MIN, INT64_MAX, uint32, UINT32_MOD in *. lia.
Qed.

(** Advisory lock keys do not collide: within a database two 64-bit keys, or two
    pairs of 32-bit keys, have the same tag only if they are equal, and a 64-bit
    key never has the tag of a pair. *)
Theorem advisory_tags_distinct db k k' a b a' b' :
  is_int64 k -> is_int64 k' -> is_int32 a -> is_int32 b -> is_int32 a' -> is_int32 b' ->
  (SET_LOCKTAG_INT64 db k = SET_LOCKTAG_INT64 db k' -> k = k') /\
  (SET_LOCKTAG_INT32 db a b = SET_LOCKTAG_INT32 db a' b' -> a = a' /\ b = b') /\
  SET_LOCKTAG_INT64 db k <> SET_LOCKTAG_INT32 db a b.
Proof.
  intros Hk Hk' Ha Hb Ha' Hb'. split; [by apply locktag_int64_inj|]. split; [|done]. intros [= H1 H2].
  unfold is_int32, INT_MIN, INT_MAX, uint32, UINT32_MOD in *. lia.
Qed.

Lemma advisory_tags_distinct_witness :
  (SET_LOCKTAG_INT64 5 (-1) = SET_LOCKTAG_INT64 5 7 -> -1 = 7) /\
  (SET_LOCKTAG_INT32 5 (-1) 2 = SET_LOCKTAG_INT32 5 1 2 -> -1 = 1 /\ 2 = 2) /\
  SET_LOCKTAG_INT64 5 (-1) <> SET_LOCKTAG_INT32 5 (-1) 2.
Proof. apply (advisory_tags_distinct 5 (-1) 7 (-1) 2 1 2); by vm_compute. Defined.

Section Service.

Context (MyDatabaseId : Z) (lockGroupLeader : ProcNumber -> option ProcNumber) `{!GroupsOK lockGroupLeader}.
Context (env : ProcNumber -> lock_env).

Definition mode_of (x : excl) : LOCKMODE := if x then ExclusiveLock else ShareLock.

#[local] Abbreviation tag_of := (SET_LOCKTAG_INT64 MyDatabaseId).

#[export] Instance lock_manager_service : AdvisoryService LockState := {
  try_lock p x k :=
    if x then pg_try_advisory_lock_int8 MyDatabaseId lockGroupLeader p (env p) k
    else pg_try_advisory_lock_shared_int8 MyDatabaseId lockGroupLeader p (env p) k;
  unlock p x k :=
    if x then pg_advisory_unlock_int8 MyDatabaseId lockGroupLeader p (env p) k
    else pg_advisory_unlock_shared_int8 MyDatabaseId lockGroupLeader p (env p) k;
  count s p k x := times s p (tag_of k) (mode_of x) None;
  engaged s p k := exists m, table_holds (LockMethodLockHash s) p (tag_of k) m \/
                             table_waits (LockMethodLockHash s) p (tag_of k) m;
  rivals p q := group_leader lockGroupLeader p <> group_leader lockGroupLeader q;
  svc_ok := sys_ok lockGroupLeader;
  running s p := awaitedLock (backend s p) = None;
  svc_step q s s' := exists e c r, enabled q c s /\ exec lockGroupLeader q e c s = (r, s')
}.

Lemma mode_of_inj x y : mode_of x = mode_of y -> x = y.
Proof. by destruct x, y. Qed.

Lemma times_holds s p t m o :
  sys_ok lockGroupLeader s -> 0 < times s p t m o -> table_holds (LockMethodLockHash s) p t m.
Proof.
  intros Hs. unfold times. destruct (LockMethodLocalHash (backend s p) !! (t, m)) as [ll|] eqn:El; [|lia]. intros Hc.
  pose proof (bk_local _ (ag_backend _ _ (sys_agree _ _ Hs) p) _ _ El) as Hok.
  apply (ag_holds _ _ (sys_agree _ _ Hs)). left. exists ll. split; [done|].
  pose proof (nLocks_nonneg ll Hok). destruct (Z.eq_dec (nLocks ll) 0) as [E|]; [|lia].
  rewrite (ll_nLocks _ Hok) in E. apply owner_total_zero in E; [|apply Hok]. by rewrite E in Hc.
Qed.

Lemma times_nonneg s p t m o : sys_ok lockGroupLeader s -> 0 <= times s p t m o.
Proof.
  intros Hs. unfold times. destruct (LockMethodLocalHash (backend s p) !! (t, m)) as [ll|] eqn:El; [|lia].
  pose proof (bk_local _ (ag_backend _ _ (sys_agree _ _ Hs) p) _ _ El) as Hok.
  induction (proj2 (ll_owners _ Hok)) as [|x xs Hx _ IH]; [done|]. rewrite owner_count_cons. case_bool_decide; lia.
Qed.

(** The keys in one coordinate system. *)
Lemma counts_one s s' p k x d q k' x' :
  is_int64 k -> is_int64 k' -> counts s s' p (tag_of k) (mode_of x) None d ->
  times s' q (tag_of k') (mode_of x') None =
  times s q (tag_of k') (mode_of x') None + d * one_at p k x q k' x'.
Proof.
  intros Hk Hk' Hc. rewrite (Hc q (tag_of k') (mode_of x') None). unfold one_at.
  rewrite (bool_decide_ext _ (q = p /\ k' = k /\ x' = x)); [case_bool_decide; lia|].
  split; [|naive_solver]. intros (-> & Ht & Hm & _). apply locktag_int64_inj in Ht; [|done|done].
  apply mode_of_inj in Hm. done.
Qed.

Lemma user_args x k : valid_lock (tag_of k) (mode_of x).
Proof. exists user_lockmethod. split; [done|]. by destruct x. Qed.

Lemma try_lock_mode p x k :
  try_lock p x k = (res ← LockAcquire lockGroupLeader p (env p) (tag_of k) (mode_of x) true true; mret (acquired res)).
Proof. by destruct x. Qed.

Lemma unlock_mode p x k : unlock p x k = LockRelease lockGroupLeader p (env p) (tag_of k) (mode_of x) true.
Proof. by destruct x. Qed.

Lemma unavailable_engaged s p k m :
  sys_ok lockGroupLeader s -> awaitedLock (backend s p) = None ->
  unavailable user_lockmethod lockGroupLeader (lock_at s (tag_of k)) p m ->
  exists q, q <> p /\ engaged s q k.
Proof.
  intros Hs Ha Hun. destruct (running_backend lockGroupLeader s p (tag_of k) m Hs Ha) as (_ & Hnq & _).
  destruct Hun as [(q & m' & [Hne _] & _ & _ & Hh)|(w & Hw & _)].
  - exists q. split; [done|]. exists m'. left. by apply (proj1 (lock_at_holds lockGroupLeader s (tag_of k) q m')).
  - exists (procNumber w). split; [intros <-; by apply Hnq, list_elem_of_fmap_2|]. exists (waitLockMode w). right.
    apply (proj1 (lock_at_waits lockGroupLeader s (tag_of k) _ _)). by exists w.
Qed.

Lemma try_lock_ok s p x k :
  sys_ok lockGroupLeader s -> awaitedLock (backend s p) = None -> is_int64 k ->
  exists r s', try_lock p x k s = (r, s') /\ sys_ok lockGroupLeader s' /\ awaitedLock (backend s' p) = None /\
    (forall q k' x', is_int64 k' -> count s' q k' x' = count s q k' x' +
       if granted_one r then one_at p k x q k' x' else 0) /\
    (r = Ok false -> exists q, q <> p /\ engaged s q k) /\
    (forall e, r = Err e -> err_code e = ERRCODE_OUT_OF_MEMORY).
Proof.
  intros Hs Ha Hk. rewrite try_lock_mode. unfold mbind, ST_bind, mret, ST_ret, LockAcquire.
  destruct (LockAcquireExtended_ok lockGroupLeader s p (env p) (tag_of k) (mode_of x) true true true user_lockmethod Hs Ha)
    as (r & s' & E & Hs' & Hp).
  { split; [done|]. split; [by destruct x|]. intros (_ & [?|?] & _); done. }
  rewrite E. pose proof (LockAcquireExtended_awaited lockGroupLeader _ _ _ _ _ _ _ _ _ _ E) as Haw.
  assert (Hc : forall d, counts s s' p (tag_of k) (mode_of x) None d -> forall q k' x', is_int64 k' ->
    count s' q k' x' = count s q k' x' + d * one_at p k x q k' x')
    by (intros d Hd q k' x' Hk'; by apply counts_one).
  destruct r as [[a|]|e]; cbn in Hp.
  - assert (Ha' : awaitedLock (backend s' p) = None) by (rewrite Haw by done; done).
    eexists _, s'. split; [done|]. split; [done|]. split; [done|]. split; [|split; [|done]].
    + intros q k' x' Hk'. destruct a; cbn [acquired granted_one];
        [destruct Hp as (_ & _ & Hd)|destruct Hp as (_ & _ & _ & _ & Hd)|destruct Hp as (_ & _ & Hd)..];
        rewrite (Hc _ Hd) by done; lia.
    + intros Ef. destruct a; cbn in Ef; try done. destruct Hp as ([[_ Hun]|[? _]] & _ & _); [|done].
      by eapply unavailable_engaged.
  - by destruct Hp as [? _].
  - eexists _, s'. split; [done|]. split; [done|]. split; [by rewrite Haw|]. split; [|split; [done|]].
    + destruct Hp as (_ & _ & Hd). intros q k' x' Hk'. rewrite (Hc _ Hd) by done. cbn. lia.
    + intros e' [= <-]. destruct Hp as ([[-> _]|[_ [? _]]] & _ & _); done.
Qed.

Lemma try_lock_held s p x k :
  sys_ok lockGroupLeader s -> 0 < count s p k x -> exists s', try_lock p x k s = (Ok true, s').
Proof.
  intros Hs Hc. assert (Hl : local_holds (backend s p) (tag_of k) (mode_of x)).
  { change (count s p k x) with (times s p (tag_of k) (mode_of x) None) in Hc. unfold times in Hc.
    destruct (LockMethodLocalHash (backend s p) !! (tag_of k, mode_of x)) as [ll|] eqn:El; [|lia].
    pose proof (bk_local _ (ag_backend _ _ (sys_agree _ _ Hs) p) _ _ El) as Hok. exists ll. split; [done|].
    pose proof (nLocks_nonneg ll Hok). destruct (Z.eq_dec (nLocks ll) 0) as [E|]; [|lia].
    rewrite (ll_nLocks _ Hok) in E. apply owner_total_zero in E; [|apply Hok]. by rewrite E in Hc. }
  rewrite try_lock_mode. unfold mbind, ST_bind, mret, ST_ret, LockAcquire.
  destruct (LockAcquireExtended_again lockGroupLeader s p (env p) (tag_of k) (mode_of x) true true true user_lockmethod Hl)
    as (a & s' & -> & Hn).
  { split; [done|]. split; [by destruct x|]. intros (_ & [?|?] & _); done. }
  exists s'. by destruct a.
Qed.

Lemma unlock_ok s p x k :
  sys_ok lockGroupLeader s -> awaitedLock (backend s p) = None -> is_int64 k ->
  exists s', unlock p x k s = (Ok (0 <? count s p k x), s') /\ sys_ok lockGroupLeader s' /\
    awaitedLock (backend s' p) = None /\
    (forall q k' x', is_int64 k' -> count s' q k' x' = count s q k' x' -
       if 0 <? count s p k x then one_at p k x q k' x' else 0).
Proof.
  intros Hs Ha Hk. rewrite unlock_mode.
  destruct (LockRelease_ok lockGroupLeader s p (env p) (tag_of k) (mode_of x) true user_lockmethod Hs Ha eq_refl)
    as (b & s' & -> & Hs' & Ha' & Hp); [by destruct x|].
  change (count s p k x) with (times s p (tag_of k) (mode_of x) None).
  exists s'. destruct b; cbn in Hp.
  - destruct Hp as (Hpos & Hd & _). destruct (Z.ltb_spec 0 (times s p (tag_of k) (mode_of x) None)) as [_|]; [|lia].
    split; [done|]. split; [done|]. split; [done|]. intros q k' x' Hk'.
    pose proof (counts_one s s' p k x (-1) q k' x' Hk Hk' Hd) as Hx. cbn in Hx |- *. lia.
  - destruct Hp as [-> ->]. split; [done|]. split; [done|]. split; [done|]. intros q k' x' _. cbn. lia.
Qed.

#[export] Instance lock_manager_laws : AdvisoryLaws LockState.
Proof.
  split.
  - intros s p k x Hs. by apply times_nonneg.
  - intros s p q k x Hs Hr Hp. pose proof (times_nonneg s q (tag_of k) (mode_of x) None Hs) as Hnn.
    destruct (Z.eq_dec (count s q k x) 0) as [?|Hn]; [done|]. exfalso.
    apply times_holds in Hp; [|done]. assert (Hq : 0 < times s q (tag_of k) (mode_of x) None) by (cbn in Hn; lia).
    apply times_holds in Hq; [|done].
    apply (sys_exclusive lockGroupLeader s p q (tag_of k) (mode_of true) (mode_of x) user_lockmethod Hs eq_refl);
      [|done|done|by destruct x]. split; [|by right]. intros ->. by apply Hr.
  - intros s p x k. apply try_lock_ok.
  - intros s p x k Hs _ _. by apply try_lock_held.
  - intros s p x k. apply unlock_ok.
  - intros p x k s r s' E Hr. rewrite try_lock_mode in E. exists (env p), (CallAcquire (tag_of k) (mode_of x) true true true).
    cbn [exec enabled]. unfold mbind, ST_bind, mret, ST_ret, LockAcquire in E |- *.
    destruct (LockAcquireExtended _ _ _ _ _ _ _ _ _) as [[a|e] s1]; injection E as <- <-; eauto.
  - intros p x k s r s' E Hr. rewrite unlock_mode in E. exists (env p), (CallRelease (tag_of k) (mode_of x) true).
    cbn [exec enabled]. unfold mbind, ST_bind, mret, ST_ret. rewrite E. destruct r; eauto.
  - intros s s' q Hs (e & c & r & Hen & E). split; [by eapply exec_ok|]. intros p Hne.
    destruct (exec_private lockGroupLeader q e c s r s' E p Hne) as [E1 E2].
    split; [intros Hr; cbn in *; by rewrite E2|]. intros k x. cbn. unfold times. by rewrite E1.
Qed.

(** C18. The advisory lock functions on the lock manager implement the interface of
    advisory locks: a session that holds a key exclusively excludes its rivals, a
    try takes exactly one more hold or none, and takes one where there is a hold
    already, an unlock succeeds exactly when there is a hold and gives up one, and
    the calls of other backends never change the holds of a session. *)
Theorem lock_manager_implements_service : AdvisoryLaws LockState.
Proof. apply lock_manager_laws. Qed.

End Service.

Lemma lock_manager_implements_service_witness :
  @AdvisoryLaws LockState (lock_manager_service 5 no_groups (fun _ => demo_env)).
Proof. apply (lock_manager_implements_service 5 no_groups (fun _ => demo_env)). Defined.
