(* ===== verification/DbmsLock.v ===== *)
(** * DBMS_LOCK

    The package [src/contrib/ivorysql_ora/src/builtin_packages/dbms_lock/dbms_lock.c]
    over advisory locks.

    - [DbmsState]: the advisory locks of all sessions (any [AdvisoryService]) and the
      private hash table of each session, which records the mode of the last
      successful request of a key; a session without an entry has a NULL table.
    - [ivorysql_dbms_lock_request] polls: each round tries the lock, looks at the
      clock, and sleeps.  [world] is what happens during the sleeps: the calls of
      other sessions, the clock readings, and the interrupts.
    - [dbms_step] interleaves the rounds of requests, releases and any other lock
      calls of all sessions; [bypassed] remembers the keys that a session has given
      up by other calls (pg_advisory_unlock, pg_advisory_unlock_all, DISCARD ALL)
      since its last successful request of them, of which the package learns
      nothing.
    - Theorems: a recorded exclusive lock that was not bypassed excludes rivals; a
      request ends when the clock passes its timeout and says whether the lock was
      taken; a release succeeds exactly for recorded keys that are still held;
      [sleep] sleeps the given time; and a lock that is requested twice stays held
      when it is released. *)

From Stdlib Require Import DecimalString.
From S2P Require Import Prelude Float8 HashFn LockObject LockTable LockManager Advisory.
From stdpp Require Import gmap.
#[local] Open Scope Z_scope.

(** ** Constants *)

Definition DBMS_LOCK_S_MODE : Z := 4.
Definition DBMS_LOCK_X_MODE : Z := 6.

Definition DBMS_LOCK_SUCCESS : Z := 0.
Definition DBMS_LOCK_TIMEOUT : Z := 1.
Definition DBMS_LOCK_DEADLOCK : Z := 2.
Definition DBMS_LOCK_PARAM_ERROR : Z := 3.
Definition DBMS_LOCK_ALREADY_OWNED : Z := 4.
Definition DBMS_LOCK_INVALID_HANDLE : Z := 5.

Definition DBMS_LOCK_SEED : Z := 2654435769.

(** ** Lock names *)

(** The key of a lock handle; the copy that [text_to_cstring] makes is aligned. *)
Definition lockname_to_key (bigendian : bool) (lockname : bytes) : Z :=
  let name := take (strlen lockname) lockname in
  let hash1 := hash_bytes bigendian true name in
  let hash2 := uint32 (hash_bytes_extended bigendian true name DBMS_LOCK_SEED) in
  int64 (Z.lor (Z.shiftl hash1 32) hash2).

Definition is_exclusive_mode (mode : Z) : result bool :=
  if mode =? DBMS_LOCK_X_MODE then Ok true
  else if mode =? DBMS_LOCK_S_MODE then Ok false
  else ereport ERRCODE_INTERNAL_ERROR "invalid DBMS_LOCK mode".

(** DBMS_LOCK.ALLOCATE_UNIQUE: the hash of the name, in decimal. *)
Definition ivorysql_dbms_lock_allocate_unique (bigendian : bool) (lockname : bytes) : bytes :=
  let name := take (strlen lockname) lockname in
  let hash := hash_bytes_extended bigendian true name 0 in
  lit (NilZero.string_of_uint (N.to_uint (Z.to_N hash))).

(** ** State *)

Record DbmsState (S : Type) := mkDbms {
  service : S;
  dbms_lock_hash_table : gmap ProcNumber (gmap Z Z)
}.
Arguments mkDbms {S} _ _.
Arguments service {S} _.
Arguments dbms_lock_hash_table {S} _.

(** What a session cannot know: the calls of other sessions during the [i]-th sleep,
    the clock (in microseconds; the first reading is the start), an interrupt after
    the sleep, and whether a hash table entry can be allocated. *)
Record world (S : Type) := mkWorld {
  others_do : nat -> DbmsState S -> DbmsState S;
  clock : nat -> Z;
  interrupt : nat -> option error;
  hash_room : bool
}.
Arguments mkWorld {S} _ _ _ _.
Arguments others_do {S} _ _ _.
Arguments clock {S} _ _.
Arguments interrupt {S} _ _.
Arguments hash_room {S} _.

Section Package.

Context (bigendian : bool) {S : Type} `{AdvisoryService S} (MyProc : ProcNumber).

(** A call of the advisory lock functions. *)
Definition call_service {A} (c : ST S A) : ST (DbmsState S) A := fun st =>
  let '(r, s) := c (service st) in (r, mkDbms s (dbms_lock_hash_table st)).

(** The private table; NULL before the first call. *)
Definition my_table (st : DbmsState S) : gmap Z Z := default ∅ (dbms_lock_hash_table st !! MyProc).

Definition set_table (t : gmap Z Z) (st : DbmsState S) : DbmsState S :=
  mkDbms (service st) (<[MyProc := t]> (dbms_lock_hash_table st)).

(** [if (dbms_lock_hash_table == NULL) dbms_lock_init_hash_table()] *)
Definition dbms_lock_init_hash_table : ST (DbmsState S) unit := fun st =>
  match dbms_lock_hash_table st !! MyProc with
  | Some _ => (Ok tt, st)
  | None => (Ok tt, set_table ∅ st)
  end.

(** [hash_search(HASH_ENTER)] fails with an error when it cannot allocate. *)
Definition dbms_lock_record_acquire (room : bool) (key mode : Z) : ST (DbmsState S) bool := fun st =>
  if room || bool_decide (is_Some (my_table st !! key)) then (Ok true, set_table (<[key := mode]> (my_table st)) st)
  else (ereport ERRCODE_OUT_OF_MEMORY "out of memory", st).

Definition dbms_lock_check (key mode : Z) (st : DbmsState S) : bool :=
  match my_table st !! key with
  | Some m => m =? mode
  | None => false
  end.

Definition dbms_lock_record_release (key mode : Z) : ST (DbmsState S) bool := fun st =>
  match my_table st !! key with
  | None => (Ok false, st)
  | Some m => if negb (m =? mode) then (Ok false, st) else (Ok true, set_table (delete key (my_table st)) st)
  end.

(** ** DBMS_LOCK.REQUEST *)

(** One round of the loop, up to the sleep; [None] means another round. *)
Definition request_round (room : bool) (exclusive : bool) (key lockmode timeout start now : Z)
    : ST (DbmsState S) (option Z) :=
  acquired ← call_service (try_lock MyProc exclusive key);
  if (acquired : bool) then
    hash_enter_is_ok ← dbms_lock_record_acquire room key lockmode;
    if (hash_enter_is_ok : bool) then mret (Some DBMS_LOCK_SUCCESS)
    else st_error ERRCODE_INTERNAL_ERROR "failed to record lock in hash table"
  else if timeout =? 0 then mret (Some DBMS_LOCK_TIMEOUT)
  else if (0 <? timeout) && (timeout <=? Z.quot (now - start) 1000000) then mret (Some DBMS_LOCK_TIMEOUT)
  else mret None.

(** [pg_usleep(100000); CHECK_FOR_INTERRUPTS()] *)
Definition request_sleep (w : world S) (i : nat) : ST (DbmsState S) unit := fun st =>
  let st := others_do w i st in
  match interrupt w i with
  | Some e => (Err e, st)
  | None => (Ok tt, st)
  end.

Fixpoint request_loop (w : world S) (fuel i : nat) (exclusive : bool) (key lockmode timeout : Z)
    : ST (DbmsState S) (option Z) :=
  match fuel with
  | O => mret None
  | Datatypes.S fuel' =>
      rc ← request_round (hash_room w) exclusive key lockmode timeout (clock w 0) (clock w (Datatypes.S i));
      match rc with
      | Some _ => mret rc
      | None => _ ← request_sleep w i; request_loop w fuel' (Datatypes.S i) exclusive key lockmode timeout
      end
  end.

Definition ivorysql_dbms_lock_request (w : world S) (fuel : nat) (lockhandle : bytes) (lockmode timeout : Z)
    : ST (DbmsState S) (option Z) :=
  let key := lockname_to_key bigendian lockhandle in
  match is_exclusive_mode lockmode with
  | Err e => fun st => (Err e, st)
  | Ok exclusive =>
      _ ← dbms_lock_init_hash_table;
      if timeout <? 0 then mret (Some DBMS_LOCK_PARAM_ERROR)
      else request_loop w fuel 0 exclusive key lockmode timeout
  end.

(** ** DBMS_LOCK.RELEASE *)

Definition ivorysql_dbms_lock_release (lockhandle : bytes) : ST (DbmsState S) Z :=
  let key := lockname_to_key bigendian lockhandle in
  _ ← dbms_lock_init_hash_table;
  st ← st_get;
  '(lockmode, released) ←
    (if dbms_lock_check key DBMS_LOCK_S_MODE st then
       b ← call_service (unlock MyProc false key); mret (DBMS_LOCK_S_MODE, b)
     else if dbms_lock_check key DBMS_LOCK_X_MODE st then
       b ← call_service (unlock MyProc true key); mret (DBMS_LOCK_X_MODE, b)
     else mret (0, false));
  if (released : bool) then
    _ ← dbms_lock_record_release key lockmode;
    mret DBMS_LOCK_SUCCESS
  else mret DBMS_LOCK_PARAM_ERROR.

End Package.

(** ** DBMS_LOCK.SLEEP *)

(** The loop of [pg_usleep] calls: the microseconds of each. *)
Fixpoint sleep_loop (fuel : nat) (remaining : Z) : list Z :=
  match fuel with
  | O => []
  | S fuel' =>
      if 0 <? remaining then
        let chunk := if 1000000 <? remaining then 1000000 else remaining in
        chunk :: sleep_loop fuel' (remaining - chunk)
      else []
  end.

(** The [pg_usleep] calls made; [None] where the conversion to [long] is undefined. *)
Definition ivorysql_dbms_lock_sleep (seconds : float8) : result (option (list Z)) :=
  if f_lt seconds (of_int 0) then
    ereport ERRCODE_INTERNAL_ERROR "DBMS_LOCK.SLEEP: seconds must be non-negative"
  else if f_lt (of_int 100000000) seconds then
    ereport ERRCODE_INTERNAL_ERROR "DBMS_LOCK.SLEEP: seconds too large: %s"
  else
    Ok (match to_int64 (f_mul seconds (of_int 1000000)) with
        | Some total_usec => Some (sleep_loop (Z.to_nat (total_usec / 1000000 + 1)) total_usec)
        | None => None
        end).

(** ** Interleaved sessions *)

Record open_request := mkRequest {
  rq_exclusive : bool;
  rq_key : Z;
  rq_mode : Z;
  rq_timeout : Z;
  rq_start : Z
}.

(** The package, the requests in progress, and the keys of each session that it has
    given up by other calls since its last successful request of them. *)
Record system (S : Type) := mkSystem {
  dbms : DbmsState S;
  requests : gmap ProcNumber open_request;
  bypassed : ProcNumber -> Z -> Prop
}.
Arguments mkSystem {S} _ _ _.
Arguments dbms {S} _.
Arguments requests {S} _.
Arguments bypassed {S} _ _ _.

(** The keys given up after a round of a request of [key] by [p]: a success takes
    the lock anew. *)
Definition round_bypassed (p : ProcNumber) (key : Z) (r : result (option Z)) (b : ProcNumber -> Z -> Prop)
    : ProcNumber -> Z -> Prop :=
  fun q k => b q k /\ ~ (r = Ok (Some DBMS_LOCK_SUCCESS) /\ q = p /\ k = key).

Section Sessions.

Context (bigendian : bool) {S : Type} `{AdvisoryService S}.

(** The keys given up after another lock call of [p]: those it holds less often. *)
Definition call_bypassed (p : ProcNumber) (s s' : S) (b : ProcNumber -> Z -> Prop) : ProcNumber -> Z -> Prop :=
  fun q k => b q k \/ (q = p /\ exists x, count s' p k x < count s p k x).

(** A session starts a request, has one refused for its timeout, runs one round of
    it, is interrupted while it sleeps, releases a lock, or makes any other call of
    the lock manager. *)
Inductive dbms_step : system S -> system S -> Prop :=
  | step_begin p name lockmode timeout now exclusive st st' rqs b :
      rqs !! p = None -> running (service st) p -> is_exclusive_mode lockmode = Ok exclusive -> 0 <= timeout ->
      dbms_lock_init_hash_table p st = (Ok tt, st') ->
      dbms_step (mkSystem st rqs b)
        (mkSystem st' (<[p := mkRequest exclusive (lockname_to_key bigendian name) lockmode timeout now]> rqs) b)
  | step_refuse p st st' rqs b :
      rqs !! p = None -> dbms_lock_init_hash_table p st = (Ok tt, st') ->
      dbms_step (mkSystem st rqs b) (mkSystem st' rqs b)
  | step_interrupt p rq st rqs b :
      rqs !! p = Some rq -> dbms_step (mkSystem st rqs b) (mkSystem st (delete p rqs) b)
  | step_round p rq room now r st st' rqs b :
      rqs !! p = Some rq ->
      request_round p room (rq_exclusive rq) (rq_key rq) (rq_mode rq) (rq_timeout rq) (rq_start rq) now st = (r, st') ->
      dbms_step (mkSystem st rqs b)
        (mkSystem st' (match r with Ok None => rqs | _ => delete p rqs end) (round_bypassed p (rq_key rq) r b))
  | step_release p name r st st' rqs b :
      rqs !! p = None -> running (service st) p ->
      ivorysql_dbms_lock_release bigendian p name st = (r, st') ->
      dbms_step (mkSystem st rqs b) (mkSystem st' rqs b)
  | step_other q s' st rqs b :
      rqs !! q = None -> svc_step q (service st) s' ->
      dbms_step (mkSystem st rqs b)
        (mkSystem (mkDbms s' (dbms_lock_hash_table st)) rqs (call_bypassed q (service st) s' b)).

(** Before the first call of the package. *)
Definition initial (y : system S) : Prop :=
  svc_ok (service (dbms y)) /\ dbms_lock_hash_table (dbms y) = ∅ /\ requests y = ∅ /\
  forall p k, ~ bypassed y p k.

Definition dbms_reachable (y : system S) : Prop := exists y0, initial y0 /\ rtc dbms_step y0 y.

(** The session has recorded the key with the mode. *)
Definition recorded (st : DbmsState S) (p : ProcNumber) (key mode : Z) : Prop := my_table p st !! key = Some mode.

End Sessions.

(** ** The invariant *)

Lemma lockname_key_int64 bigendian name : is_int64 (lockname_to_key bigendian name).
Proof.
  unfold lockname_to_key, int64, is_int64, INT64_MIN, INT64_MAX.
  set (z := Z.lor _ _). destruct (Z.leb_spec (z mod 18446744073709551616) 9223372036854775807); lia.
Qed.

Lemma exclusive_mode m x : is_exclusive_mode m = Ok x -> m = (if x then DBMS_LOCK_X_MODE else DBMS_LOCK_S_MODE).
Proof.
  unfold is_exclusive_mode. destruct (Z.eqb_spec m DBMS_LOCK_X_MODE); [by intros [= <-]|].
  destruct (Z.eqb_spec m DBMS_LOCK_S_MODE); [by intros [= <-]|done].
Qed.

Section Invariant.

Context (bigendian : bool) {S : Type} `{AdvisoryLaws S}.

(** Every lock that the session has recorded is recorded with one of the two modes,
    and held unless it was given up by other calls. *)
Definition backed_for (b : Z -> Prop) (p : ProcNumber) (st : DbmsState S) : Prop :=
  forall key m, recorded st p key m ->
    is_int64 key /\ exists x : bool, m = (if x then DBMS_LOCK_X_MODE else DBMS_LOCK_S_MODE) /\
      (~ b key -> 0 < count (service st) p key x).

Lemma table_set_same p t (st : DbmsState S) : my_table p (set_table p t st) = t.
Proof. unfold my_table. cbn. by rewrite lookup_insert_eq. Qed.

Lemma table_set_other p q t (st : DbmsState S) : p <> q -> my_table q (set_table p t st) = my_table q st.
Proof. intros Hne. unfold my_table. cbn. by rewrite lookup_insert_ne. Qed.

(** Initialising a NULL table records nothing. *)
Lemma init_spec p (st : DbmsState S) :
  exists st', dbms_lock_init_hash_table p st = (Ok tt, st') /\ service st' = service st /\
    forall q, my_table q st' = my_table q st.
Proof.
  unfold dbms_lock_init_hash_table. destruct (dbms_lock_hash_table st !! p) eqn:E; [by exists st|].
  eexists. split; [done|]. split; [done|]. intros q. destruct (decide (q = p)) as [->|Hne].
  - rewrite table_set_same. unfold my_table. by rewrite E.
  - by apply table_set_other.
Qed.

Lemma backed_mono (b b' : Z -> Prop) p (st st' : DbmsState S) :
  backed_for b p st -> my_table p st' = my_table p st -> (forall k, b k -> b' k) ->
  (forall key x, is_int64 key -> ~ b' key -> count (service st) p key x <= count (service st') p key x) ->
  backed_for b' p st'.
Proof.
  intros Hb Et Hbb Hc key m Hr. unfold recorded in Hr. rewrite Et in Hr. destruct (Hb key m Hr) as (Hk & x & Hm & Hpos).
  split; [done|]. exists x. split; [done|]. intros Hn. specialize (Hc key x Hk Hn).
  assert (0 < count (service st) p key x) by (apply Hpos; auto). lia.
Qed.

(** A call of [p] changes neither the tables nor the locks of the other sessions. *)
Definition others_same (p : ProcNumber) (st st' : DbmsState S) : Prop :=
  forall q, q <> p -> my_table q st' = my_table q st /\
    forall k x, is_int64 k -> count (service st') q k x = count (service st) q k x.

Lemma backed_others b p q st st' : others_same p st st' -> q <> p -> backed_for b q st -> backed_for b q st'.
Proof.
  intros Ho Hne Hb. destruct (Ho q Hne) as [Et Hc]. eapply backed_mono; [done|done|done|].
  intros k x Hk _. rewrite Hc by done. lia.
Qed.

Lemma one_at_nonneg p k x q k' x' : 0 <= one_at p k x q k' x'.
Proof. unfold one_at. case_bool_decide; lia. Qed.

Lemma one_at_same p k x : one_at p k x p k x = 1.
Proof. unfold one_at. by rewrite bool_decide_eq_true_2. Qed.

Lemma one_at_other p k x q k' x' : q <> p -> one_at p k x q k' x' = 0.
Proof. intros Hne. unfold one_at. rewrite bool_decide_eq_false_2; [done|]. naive_solver. Qed.

(** *** One round of a request *)

Definition timed_out (timeout start now : Z) : Prop := timeout = 0 \/ timeout <= Z.quot (now - start) 1000000.

(** What a round did. *)
Definition round_post (p : ProcNumber) (x : bool) (key lockmode timeout start now : Z) (st st' : DbmsState S)
    (r : result (option Z)) : Prop :=
  let same := forall q k x', is_int64 k -> count (service st') q k x' = count (service st) q k x' in
  match r with
  | Ok (Some rc) =>
      (rc = DBMS_LOCK_SUCCESS /\ my_table p st' = <[key := lockmode]> (my_table p st) /\
       forall q k x', is_int64 k -> count (service st') q k x' = count (service st) q k x' + one_at p key x q k x') \/
      (rc = DBMS_LOCK_TIMEOUT /\ my_table p st' = my_table p st /\ same /\ timed_out timeout start now /\
       exists q, q <> p /\ engaged (service st) q key)
  | Ok None =>
      my_table p st' = my_table p st /\ same /\ ~ timed_out timeout start now /\
      exists q, q <> p /\ engaged (service st) q key
  | Err e => err_code e = ERRCODE_OUT_OF_MEMORY /\ my_table p st' = my_table p st /\
      forall k x', is_int64 k -> count (service st) p k x' <= count (service st') p k x'
  end.

Lemma request_round_ok p room x key lockmode timeout start now (st : DbmsState S) :
  svc_ok (service st) -> running (service st) p -> is_int64 key -> 0 <= timeout ->
  exists r st', request_round p room x key lockmode timeout start now st = (r, st') /\
    svc_ok (service st') /\ running (service st') p /\ others_same p st st' /\
    round_post p x key lockmode timeout start now st st' r.
Proof.
  intros Hs Hr Hk Ht. unfold request_round, call_service, mbind, ST_bind, mret, ST_ret.
  destruct (try_lock_law (service st) p x key Hs Hr Hk) as (r & s' & -> & Hs' & Hr' & Hc & Hbusy & Herr).
  set (st1 := mkDbms s' (dbms_lock_hash_table st)).
  assert (Hge : forall k x', is_int64 k -> count (service st) p k x' <= count s' p k x').
  { intros k x' Hk'. rewrite (Hc p k x' Hk'). pose proof (one_at_nonneg p key x p k x'). case_match; lia. }
  assert (Ho1 : others_same p st st1).
  { intros q Hne. split; [done|]. intros k x' Hk'. cbn. rewrite (Hc q k x' Hk'), one_at_other by done. case_match; lia. }
  destruct r as [[]|e]; cbn [granted_one] in Hc.
  - unfold dbms_lock_record_acquire. destruct (room || _).
    2:{ eexists _, st1. split; [done|]. by repeat (split; [done|]). }
    eexists _, _. split; [done|]. split; [done|]. split; [done|]. split; [|left].
    + intros q Hne. rewrite table_set_other by done. by apply Ho1.
    + split; [done|]. split; [by rewrite table_set_same|done].
  - assert (Hsame : forall q k x', is_int64 k -> count s' q k x' = count (service st) q k x')
      by (intros q k x' Hk'; rewrite (Hc q k x' Hk'); lia).
    specialize (Hbusy eq_refl). destruct (Z.eqb_spec timeout 0) as [E0|E0].
    { eexists _, st1. split; [done|]. repeat (split; [done|]). right. repeat (split; [done|]). split; [by left|done]. }
    destruct (Z.ltb_spec 0 timeout); [|lia]. cbn [andb].
    destruct (Z.leb_spec timeout (Z.quot (now - start) 1000000)) as [Hel|Hel];
      (eexists _, st1; split; [done|]; repeat (split; [done|])).
    + right. repeat (split; [done|]). split; [by right|done].
    + split; [|done]. intros [?|?]; lia.
  - eexists _, st1. split; [done|]. repeat (split; [done|]). split; [by apply Herr|done].
Qed.

(** A round keeps the records backed, and backs the one it makes. *)
Lemma round_backed b p x key lockmode timeout start now (st st' : DbmsState S) r :
  svc_ok (service st) -> is_int64 key -> is_exclusive_mode lockmode = Ok x ->
  round_post p x key lockmode timeout start now st st' r -> backed_for (b p) p st ->
  backed_for (round_bypassed p key r b p) p st'.
Proof.
  intros Hs Hk Hm Hp Hb. unfold round_bypassed.
  assert (Hmono : r <> Ok (Some DBMS_LOCK_SUCCESS) -> my_table p st' = my_table p st ->
    (forall k x', is_int64 k -> count (service st) p k x' <= count (service st') p k x') ->
    backed_for (fun k => b p k /\ ~ (r = Ok (Some DBMS_LOCK_SUCCESS) /\ p = p /\ k = key)) p st').
  { intros Hr Et Hc. eapply backed_mono; [exact Hb|done|naive_solver|auto]. }
  destruct r as [[rc|]|e]; cbn in Hp.
  - destruct Hp as [(-> & Et & Hc)|(-> & Et & Hc & _)]; [|apply Hmono; [done|done|intros; rewrite Hc by done; lia]].
    intros k m. unfold recorded. rewrite Et. destruct (decide (k = key)) as [->|Hkne].
    + rewrite lookup_insert_eq. intros [= <-]. split; [done|]. exists x. split; [by apply exclusive_mode|]. intros _.
      rewrite Hc, one_at_same by done. pose proof (count_nonneg (service st) p key x Hs). lia.
    + rewrite lookup_insert_ne by done. intros Hin. destruct (Hb k m Hin) as (Hk' & x' & Ex & Hpos).
      split; [done|]. exists x'. split; [done|]. intros Hn. rewrite Hc by done.
      pose proof (one_at_nonneg p key x p k x'). assert (0 < count (service st) p k x') by (apply Hpos; naive_solver). lia.
  - destruct Hp as (Et & Hc & _). apply Hmono; [done|done|intros; rewrite Hc by done; lia].
  - destruct Hp as (_ & Et & Hc). by apply Hmono.
Qed.

(** *** The loop *)

(** During a sleep the other sessions make any calls of the lock manager, and leave
    the private table of [p] alone. *)
Definition world_ok (p : ProcNumber) (w : world S) : Prop :=
  forall i st, meanwhile p (service st) (service (others_do w i st)) /\
    my_table p (others_do w i st) = my_table p st.

(** The end of a request. *)
Definition dbms_request_post (w : world S) (p : ProcNumber) (x : bool) (key lockmode timeout : Z) (st st' : DbmsState S)
    (r : result (option Z)) : Prop :=
  match r with
  | Ok (Some rc) =>
      (rc = DBMS_LOCK_SUCCESS /\ my_table p st' = <[key := lockmode]> (my_table p st) /\
       forall k x', is_int64 k -> count (service st') p k x' = count (service st) p k x' + one_at p key x p k x') \/
      (rc = DBMS_LOCK_TIMEOUT /\ my_table p st' = my_table p st /\
       (forall k x', is_int64 k -> count (service st') p k x' = count (service st) p k x') /\
       (timeout = 0 \/ exists j, timeout * 1000000 <= clock w (Datatypes.S j) - clock w 0))
  | Ok None => False
  | Err e => err_code e = ERRCODE_OUT_OF_MEMORY \/ exists i, interrupt w i = Some e
  end.

(** The timeout has passed at one of the first [fuel] looks at the clock. *)
Definition time_passes (w : world S) (timeout : Z) (fuel : nat) : Prop :=
  exists n, (n < fuel)%nat /\ (timeout <= 0 \/ timeout * 1000000 <= clock w (Datatypes.S n) - clock w 0).

Lemma timed_out_iff timeout start now :
  0 <= timeout -> timed_out timeout start now <-> timeout = 0 \/ timeout * 1000000 <= now - start.
Proof. intros Ht. unfold timed_out. lia. Qed.

Lemma request_loop_ok w p x key lockmode timeout n fuel i (st : DbmsState S) :
  world_ok p w -> svc_ok (service st) -> running (service st) p -> is_int64 key -> 0 <= timeout ->
  (i <= n < i + fuel)%nat -> timeout <= 0 \/ timeout * 1000000 <= clock w (Datatypes.S n) - clock w 0 ->
  exists r st', request_loop p w fuel i x key lockmode timeout st = (r, st') /\
    svc_ok (service st') /\ running (service st') p /\
    dbms_request_post w p x key lockmode timeout st st' r.
Proof.
  intros Hw. revert i st. induction fuel as [|fuel IH]; intros i st Hs Hr Hk Ht Hn Hel; [lia|]. cbn [request_loop].
  destruct (request_round_ok p (hash_room w) x key lockmode timeout (clock w 0) (clock w (Datatypes.S i)) st Hs Hr Hk Ht)
    as (r & st1 & E & Hs1 & Hr1 & _ & Hpost).
  unfold mbind, ST_bind. rewrite E. destruct r as [[rc|]|e]; cbn [round_post] in Hpost.
  - exists (Ok (Some rc)), st1. repeat (split; [done|]). destruct Hpost as [(? & ? & Hc)|(? & ? & Hc & Hto & _)];
      [left; auto|right]. apply timed_out_iff in Hto; [|done]. naive_solver.
  - destruct Hpost as (Et & Hc & Hnt & _). rewrite timed_out_iff in Hnt by done.
    unfold request_sleep. destruct (Hw i st1) as [Hmw Htab].
    set (st2 := others_do w i st1) in *. destruct (meanwhile_law _ _ p Hs1 Hr1 Hmw) as (Hs2 & Hr2 & Hc2).
    destruct (interrupt w i) as [e|] eqn:Ei.
    { exists (Err e), st2. repeat (split; [done|]). right. by exists i. }
    destruct (IH (Datatypes.S i) st2 Hs2 Hr2 Hk Ht) as (r & st' & E' & Hs' & Hr' & Hp'); [|done|].
    { assert (n <> i); [|lia]. intros ->. apply Hnt. destruct Hel; [left; lia|by right]. }
    exists r, st'. split; [done|]. repeat (split; [done|]). destruct r as [[rc|]|e']; cbn in Hp' |- *; [|done|done].
    rewrite Htab, Et in Hp'. destruct Hp' as [(? & ? & Hc')|(? & ? & Hc' & ?)]; [left|right]; (split; [done|]);
      (split; [done|]); [|split; [|done]]; intros k x' Hk'; rewrite Hc', Hc2, Hc by done; done.
  - exists (Err e), st1. repeat (split; [done|]). left. apply Hpost.
Qed.

(** *** A release *)

Definition dbms_release_post (p : ProcNumber) (key : Z) (st st' : DbmsState S) (rc : Z) : Prop :=
  let x m := m =? DBMS_LOCK_X_MODE in
  match my_table p st !! key with
  | Some m =>
      if 0 <? count (service st) p key (x m) then
        rc = DBMS_LOCK_SUCCESS /\ my_table p st' = delete key (my_table p st) /\
        forall q k x', is_int64 k -> count (service st') q k x' = count (service st) q k x' - one_at p key (x m) q k x'
      else
        rc = DBMS_LOCK_PARAM_ERROR /\ my_table p st' = my_table p st /\
        forall q k x', is_int64 k -> count (service st') q k x' = count (service st) q k x'
  | None => rc = DBMS_LOCK_PARAM_ERROR /\ my_table p st' = my_table p st /\ service st' = service st
  end.

Lemma release_ok b p name (st : DbmsState S) :
  svc_ok (service st) -> running (service st) p -> backed_for b p st ->
  exists rc st', ivorysql_dbms_lock_release bigendian p name st = (Ok rc, st') /\
    svc_ok (service st') /\ running (service st') p /\ others_same p st st' /\
    dbms_release_post p (lockname_to_key bigendian name) st st' rc.
Proof.
  intros Hs Hr Hb. set (key := lockname_to_key bigendian name).
  pose proof (lockname_key_int64 bigendian name) as Hk. fold key in Hk.
  unfold ivorysql_dbms_lock_release, call_service, mbind, ST_bind, mret, ST_ret, st_get. fold key.
  destruct (init_spec p st) as (st0 & -> & Es & Et). rewrite <- Es in Hs, Hr.
  assert (Hpre : forall st', others_same p st0 st' -> others_same p st st').
  { intros st' Ho q Hne. destruct (Ho q Hne) as [E1 E2]. rewrite Et in E1. rewrite Es in E2. done. }
  unfold dbms_release_post. rewrite <- (Et p), <- Es. unfold dbms_lock_check.
  destruct (my_table p st0 !! key) as [m|] eqn:Em.
  2:{ exists DBMS_LOCK_PARAM_ERROR, st0. split; [done|]. repeat (split; [done|]). split; [|done]. apply Hpre.
      by intros q _. }
  assert (exists x : bool, m = (if x then DBMS_LOCK_X_MODE else DBMS_LOCK_S_MODE)) as [x ->].
  { rewrite Et in Em. destruct (Hb key m Em) as (_ & x & -> & _). by exists x. }
  assert (Ex : ((if x then DBMS_LOCK_X_MODE else DBMS_LOCK_S_MODE) =? DBMS_LOCK_X_MODE) = x) by (by destruct x).
  rewrite Ex. destruct (unlock_law (service st0) p x key Hs Hr Hk) as (s' & E & Hs' & Hr' & Hc).
  set (st1 := mkDbms s' (dbms_lock_hash_table st0)).
  assert (Ho : forall t, others_same p st0 (set_table p t st1) /\ others_same p st0 st1).
  { intros t. split; intros q Hne; [rewrite table_set_other by done|]; (split; [done|]); intros k x' Hk'; cbn;
      rewrite Hc, one_at_other by done; case_match; lia. }
  destruct (Z.ltb_spec 0 (count (service st0) p key x)) as [Hpos|Hpos].
  - exists DBMS_LOCK_SUCCESS, (set_table p (delete key (my_table p st0)) st1). split.
    { unfold dbms_lock_record_release.
      destruct x; cbn [Z.eqb DBMS_LOCK_X_MODE DBMS_LOCK_S_MODE Pos.eqb]; rewrite E; cbn [fst snd]; fold st1;
        change (my_table p st1) with (my_table p st0); by rewrite Em. }
    repeat (split; [done|]). split; [by apply Hpre, Ho|]. split; [done|]. split; [by rewrite table_set_same|done].
  - exists DBMS_LOCK_PARAM_ERROR, st1. split.
    { destruct x; cbn [Z.eqb DBMS_LOCK_X_MODE DBMS_LOCK_S_MODE Pos.eqb]; rewrite E; done. }
    repeat (split; [done|]). split; [by apply Hpre, (Ho ∅)|]. split; [done|]. split; [done|].
    intros q k x' Hk'. cbn. rewrite Hc by done. lia.
Qed.

(** A release keeps the records backed. *)
Lemma release_backed b p key (st st' : DbmsState S) rc :
  dbms_release_post p key st st' rc -> backed_for b p st -> backed_for b p st'.
Proof.
  intros Hp Hb. unfold dbms_release_post in Hp. destruct (my_table p st !! key) as [m|].
  2:{ destruct Hp as (_ & Et & Es). eapply backed_mono; [done|done|done|]. intros. rewrite Es. lia. }
  destruct (0 <? _); destruct Hp as (_ & Et & Hc).
  - intros k m'. unfold recorded. rewrite Et, lookup_delete_Some. intros [Hne Hm].
    destruct (Hb k m' Hm) as (Hk' & x' & Ex & Hp). split; [done|]. exists x'. split; [done|]. intros Hn.
    rewrite Hc by done. unfold one_at. rewrite bool_decide_eq_false_2 by naive_solver. specialize (Hp Hn). lia.
  - eapply backed_mono; [done|done|done|]. intros. rewrite Hc by done. lia.
Qed.

(** *** All sessions *)

Record system_ok (y : system S) : Prop := {
  sy_svc : svc_ok (service (dbms y));
  sy_backed : forall p, backed_for (bypassed y p) p (dbms y);
  sy_requests : forall p rq, requests y !! p = Some rq ->
    running (service (dbms y)) p /\ is_int64 (rq_key rq) /\ is_exclusive_mode (rq_mode rq) = Ok (rq_exclusive rq) /\
    0 <= rq_timeout rq
}.

Lemma initial_ok y : initial y -> system_ok y.
Proof.
  intros (Hs & Et & Er & _). split; [done| |rewrite Er; by intros p rq ?].
  intros p key m. unfold recorded, my_table. rewrite Et. by rewrite lookup_empty.
Qed.

(** The other sessions keep running. *)
Lemma round_running p room x key lockmode timeout start now (st : DbmsState S) r st' q :
  svc_ok (service st) -> running (service st) p ->
  request_round p room x key lockmode timeout start now st = (r, st') ->
  q <> p -> running (service st) q -> running (service st') q.
Proof.
  intros Hs Hp E Hne Hq. unfold request_round, call_service, mbind, ST_bind, mret, ST_ret in E.
  destruct (try_lock p x key (service st)) as [r1 s1] eqn:Et.
  destruct (svc_step_law _ _ p Hs (try_lock_step p x key _ _ _ Et Hp)) as (_ & Ho).
  destruct (Ho q Hne) as [Hrun _]. assert (Es : service st' = s1); [|rewrite Es; by apply Hrun].
  unfold dbms_lock_record_acquire in E. repeat (case_match; simplify_eq; try done).
Qed.

Lemma release_running p name (st : DbmsState S) r st' q :
  svc_ok (service st) -> running (service st) p -> ivorysql_dbms_lock_release bigendian p name st = (r, st') ->
  q <> p -> running (service st) q -> running (service st') q.
Proof.
  intros Hs Hp E Hne Hq. unfold ivorysql_dbms_lock_release, call_service, mbind, ST_bind, mret, ST_ret, st_get in E.
  destruct (init_spec p st) as (st0 & Ei & Es & _). rewrite Ei in E. rewrite <- Es in Hs, Hp, Hq.
  assert (Hun : forall x k r1 s1, unlock p x k (service st0) = (r1, s1) -> running s1 q).
  { intros x k r1 s1 Eu. destruct (svc_step_law _ _ p Hs (unlock_step p x k _ _ _ Eu Hp)) as (_ & Ho).
    destruct (Ho q Hne) as [Hrun _]. by apply Hrun. }
  unfold dbms_lock_record_release in E.
  repeat (case_match; simplify_eq; cbn; try done); by eapply Hun.
Qed.

Lemma init_backed p (st st' : DbmsState S) (b : ProcNumber -> Z -> Prop) :
  dbms_lock_init_hash_table p st = (Ok tt, st') -> (forall q, backed_for (b q) q st) ->
  service st' = service st /\ forall q, backed_for (b q) q st'.
Proof.
  intros E Hb. destruct (init_spec p st) as (st0 & E0 & Es & Et). rewrite E in E0. injection E0 as <-.
  split; [done|]. intros q. eapply backed_mono; [apply Hb|apply Et|done|intros; rewrite Es; lia].
Qed.

Lemma dbms_step_ok y y' : system_ok y -> dbms_step bigendian y y' -> system_ok y'.
Proof.
  intros [Hs Hb Hq] Hstep. destruct Hstep as [p name mode timeout now x st st' rqs b Hn Hr Hm Ht E
    |p st st' rqs b Hn E|p rq st rqs b Hp|p rq room now r st st' rqs b Hp E|p name r st st' rqs b Hn Hr E
    |q s' st rqs b Hn E]; cbn [dbms requests bypassed] in *.
  - destruct (init_backed p st st' b E Hb) as [Es Hb'].
    split; cbn [dbms requests bypassed]; rewrite ?Es; [done|done|].
    intros q rq [[<- <-]|[Hne Hrq]]%lookup_insert_Some; [|by apply Hq].
    split; [done|]. split; [apply lockname_key_int64|done].
  - destruct (init_backed p st st' b E Hb) as [Es Hb']. split; cbn [dbms requests bypassed]; rewrite ?Es; done.
  - split; cbn [dbms requests]; [done|done|]. intros q rq' [_ Hrq]%lookup_delete_Some. by apply Hq.
  - destruct (Hq p rq Hp) as (Hr & Hk & Hm & Ht).
    destruct (request_round_ok p room (rq_exclusive rq) _ (rq_mode rq) _ (rq_start rq) now st Hs Hr Hk Ht)
      as (r0 & st0 & E0 & Hs0 & Hr0 & Ho & Hpost). rewrite E in E0. injection E0 as <- <-.
    split; cbn [dbms requests bypassed]; [done| |].
    + intros q. destruct (decide (q = p)) as [->|Hne]; [by apply (round_backed b _ _ _ _ _ _ _ st st' r Hs Hk Hm Hpost)|].
      eapply backed_others; [done|done|]. eapply (backed_mono _ _ q st st); [apply Hb|done| |lia].
      intros k Hbk. split; [done|]. by intros (_ & -> & _).
    + intros q rq' Hrq. assert (Hin : rqs !! q = Some rq').
      { destruct r as [[|]|]; [|done|]; by apply lookup_delete_Some in Hrq as [_ ?]. }
      destruct (Hq q rq' Hin) as (Hrun & ?). split; [|done]. destruct (decide (q = p)) as [->|Hne]; [done|].
      eapply round_running; [exact Hs|exact Hr|exact E|done|done].
  - destruct (release_ok (b p) p name st Hs Hr (Hb p)) as (rc & st0 & E0 & Hs0 & Hr0 & Ho & Hpost).
    pose proof E as E1. rewrite E0 in E1. injection E1 as <- <-.
    split; cbn [dbms requests bypassed]; [done| |].
    + intros q. destruct (decide (q = p)) as [->|Hne]; [by eapply release_backed|by eapply backed_others].
    + intros q rq' Hrq. destruct (Hq q rq' Hrq) as (Hrun & ?). split; [|done].
      eapply release_running; [exact Hs|exact Hr|exact E0| |done]. intros ->. congruence.
  - destruct (svc_step_law _ _ q Hs E) as (Hs' & Ho). split; cbn [dbms requests bypassed]; [done| |].
    + intros p. eapply backed_mono; [apply Hb|done|unfold call_bypassed; naive_solver|]. intros k x _ Hnb. cbn.
      destruct (decide (p = q)) as [->|Hne]; [|destruct (Ho p Hne) as [_ ->]; lia].
      apply Z.nlt_ge. intros Hlt. apply Hnb. right. split; [done|]. by exists x.
    + intros p rq Hrq. destruct (Hq p rq Hrq) as (Hrun & ?). split; [|done]. apply Ho; [|done]. intros ->. congruence.
Qed.

Lemma dbms_reachable_ok y : dbms_reachable bigendian y -> system_ok y.
Proof.
  intros (y0 & Hi & Hr). apply initial_ok in Hi. induction Hr as [|y1 y2 y3 Hs _ IH]; [done|].
  apply IH. by eapply dbms_step_ok.
Qed.

(** C17. DBMS_LOCK excludes: in every reachable state of any number of sessions, when
    a session has recorded a lock in exclusive mode, no rival session has recorded
    the same lock in any mode, unless one of the two has given up its advisory lock
    behind the package's back (by pg_advisory_unlock, pg_advisory_unlock_all or
    DISCARD ALL) since its last successful request of it. *)
Theorem dbms_lock_excludes y p q key :
  dbms_reachable bigendian y -> rivals (S := S) p q -> recorded (dbms y) p key DBMS_LOCK_X_MODE ->
  ~ bypassed y p key -> ~ bypassed y q key ->
  my_table q (dbms y) !! key = None.
Proof.
  intros [Hs Hb _]%dbms_reachable_ok Hr Hp Np Nq. destruct (my_table q (dbms y) !! key) as [m|] eqn:E; [|done]. exfalso.
  destruct (Hb p key _ Hp) as (_ & x & Ex & Hc). destruct x; [|done]. specialize (Hc Np).
  destruct (Hb q key m E) as (_ & x' & _ & Hc'). specialize (Hc' Nq). rewrite (exclusion _ p q key x' Hs Hr Hc) in Hc'. lia.
Qed.

(** C30. A request ends: whatever other sessions do during its sleeps and however
    the clock runs, it makes no more rounds than it takes the clock to show that
    the timeout has passed.  It reports a bad mode or a negative timeout without
    touching anything, success when it took the lock and recorded it, timeout with
    nothing taken, and only when the clock has shown it, and otherwise lack of
    memory or an interrupt. *)
Theorem dbms_request_ends w p fuel name lockmode timeout y :
  dbms_reachable bigendian y -> running (service (dbms y)) p -> world_ok p w -> time_passes w timeout fuel ->
  exists r st', ivorysql_dbms_lock_request bigendian p w fuel name lockmode timeout (dbms y) = (r, st') /\
    match is_exclusive_mode lockmode with
    | Err e => r = Err e /\ st' = dbms y
    | Ok x =>
        if timeout <? 0 then
          r = Ok (Some DBMS_LOCK_PARAM_ERROR) /\ service st' = service (dbms y) /\ my_table p st' = my_table p (dbms y)
        else dbms_request_post w p x (lockname_to_key bigendian name) lockmode timeout (dbms y) st' r
    end.
Proof.
  intros [Hs _ _]%dbms_reachable_ok Hr Hw (n & Hn & Hel). set (st := dbms y) in *. set (key := lockname_to_key bigendian name).
  unfold ivorysql_dbms_lock_request. fold key. destruct (is_exclusive_mode lockmode) as [x|e] eqn:Em.
  2:{ exists (Err e), st. by repeat (split; [done|]). }
  unfold mbind, ST_bind. destruct (init_spec p st) as (st0 & -> & Es & Et). rewrite <- Es in Hs, Hr.
  destruct (Z.ltb_spec timeout 0) as [Ht|Ht].
  - exists (Ok (Some DBMS_LOCK_PARAM_ERROR)), st0. repeat (split; [done|]). apply Et.
  - destruct (request_loop_ok w p x key lockmode timeout n fuel 0 st0 Hw Hs Hr (lockname_key_int64 _ _) Ht ltac:(lia) Hel)
      as (r & st' & E & _ & _ & Hp).
    exists r, st'. split; [done|]. destruct r as [[rc|]|e]; cbn in Hp |- *; [|done|done].
    by rewrite <- (Et p), <- Es.
Qed.

(** A release succeeds exactly for a lock that the session has recorded and still
    holds; it then gives up one hold of the recorded mode and forgets the lock, and
    otherwise changes nothing. *)
Theorem dbms_release_outcome p name y :
  dbms_reachable bigendian y -> running (service (dbms y)) p ->
  exists rc st', ivorysql_dbms_lock_release bigendian p name (dbms y) = (Ok rc, st') /\
    others_same p (dbms y) st' /\ dbms_release_post p (lockname_to_key bigendian name) (dbms y) st' rc.
Proof.
  intros [Hs Hb _]%dbms_reachable_ok Hr.
  destruct (release_ok _ p name (dbms y) Hs Hr (Hb p)) as (rc & st' & ? & _ & _ & ? & ?). by exists rc, st'.
Qed.

(** A request of a lock that the session holds and has recorded succeeds in its
    first round. *)
Lemma request_again w p fuel name lockmode timeout x (st : DbmsState S) :
  let key := lockname_to_key bigendian name in
  svc_ok (service st) -> running (service st) p -> is_exclusive_mode lockmode = Ok x -> 0 <= timeout -> (0 < fuel)%nat ->
  is_Some (my_table p st !! key) -> 0 < count (service st) p key x ->
  exists st', ivorysql_dbms_lock_request bigendian p w fuel name lockmode timeout st = (Ok (Some DBMS_LOCK_SUCCESS), st') /\
    svc_ok (service st') /\ running (service st') p /\ my_table p st' = <[key := lockmode]> (my_table p st) /\
    count (service st') p key x = count (service st) p key x + 1.
Proof.
  intros key Hs Hr Hm Ht Hf Hsome Hc. pose proof (lockname_key_int64 bigendian name) as Hk. fold key in Hk.
  unfold ivorysql_dbms_lock_request. fold key. rewrite Hm. unfold mbind, ST_bind.
  destruct (init_spec p st) as (st0 & -> & Es & Et). rewrite <- Es in Hs, Hr, Hc. destruct (Z.ltb_spec timeout 0); [lia|].
  destruct fuel as [|fuel]; [lia|]. cbn [request_loop].
  unfold mbind, ST_bind, request_round, call_service, mret, ST_ret, mbind, ST_bind.
  destruct (try_lock_again (service st0) p x key Hs Hr Hk Hc) as (s' & E).
  destruct (try_lock_law (service st0) p x key Hs Hr Hk) as (r & s1 & E1 & Hs1 & Hr1 & Hc1 & _).
  rewrite E in E1. injection E1 as <- <-. rewrite E. unfold dbms_lock_record_acquire.
  change (my_table p (mkDbms s' (dbms_lock_hash_table st0))) with (my_table p st0). rewrite Et.
  rewrite (bool_decide_eq_true_2 _ Hsome), orb_true_r.
  eexists. split; [done|]. split; [done|]. split; [done|]. split; [by rewrite table_set_same|].
  cbn. rewrite Hc1, one_at_same, <- Es by done. done.
Qed.

(** C38. A lock that is requested twice leaks: to a session that has recorded a lock
    and not given it up otherwise, a second request of it reports success at once
    (not that the lock is already owned); one release then succeeds and forgets the
    lock, a second release is refused, and the lock stays held. *)
Theorem dbms_request_twice_leaks w p fuel name lockmode timeout x y :
  let key := lockname_to_key bigendian name in
  dbms_reachable bigendian y -> running (service (dbms y)) p ->
  recorded (dbms y) p key lockmode -> ~ bypassed y p key ->
  is_exclusive_mode lockmode = Ok x -> 0 <= timeout -> (0 < fuel)%nat ->
  exists st2 st3 st4,
    ivorysql_dbms_lock_request bigendian p w fuel name lockmode timeout (dbms y) = (Ok (Some DBMS_LOCK_SUCCESS), st2) /\
    ivorysql_dbms_lock_release bigendian p name st2 = (Ok DBMS_LOCK_SUCCESS, st3) /\
    ivorysql_dbms_lock_release bigendian p name st3 = (Ok DBMS_LOCK_PARAM_ERROR, st4) /\
    0 < count (service st4) p key x.
Proof.
  intros key [Hs Hb _]%dbms_reachable_ok Hr Hrec Hnb Hm Ht Hf. set (st := dbms y) in *.
  pose proof (lockname_key_int64 bigendian name) as Hk. fold key in Hk. pose proof (exclusive_mode _ _ Hm) as Ex.
  assert (Ey : (lockmode =? DBMS_LOCK_X_MODE) = x) by (rewrite Ex; by destruct x).
  assert (Hpos : 0 < count (service st) p key x).
  { destruct (Hb p key _ Hrec) as (_ & x' & Ex' & Hp). specialize (Hp Hnb). destruct x, x'; rewrite Ex in Ex'; done. }
  destruct (request_again w p fuel name lockmode timeout x st Hs Hr Hm Ht Hf ltac:(by eexists) Hpos)
    as (st2 & E2 & Hs2 & Hr2 & Et2 & Hc2). fold key in Et2, Hc2.
  assert (Hb2 : backed_for (fun _ => True) p st2).
  { intros k m. unfold recorded. rewrite Et2. intros [[<- <-]|[_ Hin]]%lookup_insert_Some.
    - split; [done|]. exists x. split; [done|]. by intros [].
    - destruct (Hb p k m Hin) as (? & x' & ? & _). split; [done|]. exists x'. split; [done|]. by intros []. }
  destruct (release_ok _ p name st2 Hs2 Hr2 Hb2) as (rc3 & st3 & E3 & Hs3 & Hr3 & _ & Hp3).
  pose proof (release_backed _ _ _ _ _ _ Hp3 Hb2) as Hb3.
  destruct (release_ok _ p name st3 Hs3 Hr3 Hb3) as (rc4 & st4 & E4 & _ & _ & _ & Hp4).
  fold key in Hp3, Hp4. unfold dbms_release_post in Hp3. rewrite Et2, lookup_insert_eq, Ey in Hp3.
  destruct (Z.ltb_spec 0 (count (service st2) p key x)); [|lia]. destruct Hp3 as (-> & Et3 & Hc3).
  unfold dbms_release_post in Hp4. rewrite Et3, lookup_delete_eq in Hp4. destruct Hp4 as (-> & _ & Es4).
  exists st2, st3, st4. split; [done|]. split; [done|]. split; [done|]. rewrite Es4, Hc3, one_at_same by done. lia.
Qed.

End Invariant.

(** ** Sleep *)

Lemma sleep_loop_spec fuel remaining :
  0 <= remaining -> remaining <= 1000000 * Z.of_nat fuel ->
  Forall (fun c => 0 < c <= 1000000) (sleep_loop fuel remaining) /\
  foldr Z.add 0 (sleep_loop fuel remaining) = remaining /\
  Z.of_nat (length (sleep_loop fuel remaining)) = (remaining + 999999) / 1000000.
Proof.
  revert remaining. induction fuel as [|fuel IH]; intros remaining H0 Hf; cbn [sleep_loop].
  - assert (remaining = 0) as -> by lia. done.
  - destruct (Z.ltb_spec 0 remaining); [|assert (remaining = 0) as -> by lia; done].
    set (chunk := if _ <? _ then _ else _). assert (Hc : 0 < chunk <= remaining /\ chunk <= 1000000 /\
      (chunk = remaining \/ chunk = 1000000)) by (unfold chunk; destruct (Z.ltb_spec 1000000 remaining); lia).
    destruct (IH (remaining - chunk)) as (I1 & I2 & I3); [lia|lia|]. split; [|split].
    + constructor; [lia|done].
    + cbn. rewrite I2. lia.
    + cbn [length]. rewrite Nat2Z.inj_succ, I3. lia.
Qed.

(** SLEEP with a whole number of seconds: a negative number and one above a
    hundred million are refused; otherwise the sleeps, of at most one second each,
    add up to exactly the given time, and there is one per second. *)
Theorem dbms_sleep_exact n :
  Z.abs n < 2 ^ 53 ->
  if (n <? 0) || (100000000 <? n) then exists e, ivorysql_dbms_lock_sleep (of_int n) = Err e
  else exists naps, ivorysql_dbms_lock_sleep (of_int n) = Ok (Some naps) /\
    Forall (fun c => 0 < c <= 1000000) naps /\ foldr Z.add 0 naps = n * 1000000 /\ Z.of_nat (length naps) = n.
Proof.
  intros Hn. unfold ivorysql_dbms_lock_sleep. rewrite !of_int_lt by (done || lia).
  destruct (Z.ltb_spec n 0); [by eexists|]. destruct (Z.ltb_spec 100000000 n); [by eexists|]. cbn [orb].
  assert (Hmul : to_int64 (f_mul (of_int n) (of_int 1000000)) = Some (n * 1000000)).
  { destruct (decide (n = 0)) as [->|Hne]; [by vm_compute|]. unfold to_int64.
    rewrite of_int_mul, of_int_trunc, bool_decide_eq_true_2 by (unfold is_int64, INT64_MIN, INT64_MAX; lia). done. }
  rewrite Hmul. eexists. split; [done|].
  destruct (sleep_loop_spec (Z.to_nat (n * 1000000 / 1000000 + 1)) (n * 1000000)) as (H1 & H2 & H3); [lia|lia|].
  split; [done|]. split; [done|]. rewrite H3. lia.
Qed.

(** ** Witnesses *)

Lemma surjective_pairing_eq {A B} (x : A * B) a b : x.1 = a -> x.2 = b -> x = (a, b).
Proof. destruct x. by intros <- <-. Qed.

Section Demo.

#[local] Instance demo_service : AdvisoryService LockState := lock_manager_service 5 no_groups (fun _ => demo_env).
#[local] Instance demo_laws : AdvisoryLaws LockState := lock_manager_laws 5 no_groups (fun _ => demo_env).

Definition demo_start : system LockState := mkSystem (mkDbms empty_state ∅) ∅ (fun _ _ => False).

Definition demo_name : bytes := lit "LOCKX".

Definition demo_key : Z := lockname_to_key false demo_name.

(** Nothing happens but time: 150 ms pass from each look at the clock to the next. *)
Definition quiet_world : world LockState :=
  mkWorld (fun _ st => st) (fun i => 150000 * Z.of_nat i) (fun _ => None) true.

Lemma demo_start_initial : initial demo_start.
Proof. split; [apply empty_ok|]. split; [done|]. split; [done|]. intros p k H. exact H. Qed.

Lemma demo_start_reachable : dbms_reachable false demo_start.
Proof. exists demo_start. split; [apply demo_start_initial|apply rtc_refl]. Qed.

Lemma quiet_world_ok p : world_ok p quiet_world.
Proof. intros i st. split; [apply rtc_refl|done]. Qed.

Lemma quiet_time : time_passes quiet_world 2 15.
Proof. exists 13%nat. split; [lia|right]. vm_compute. discriminate. Qed.

(** Session 1 has the lock. *)
Definition demo_opened : system LockState :=
  mkSystem (dbms_lock_init_hash_table 1 (dbms demo_start)).2
    (<[1 := mkRequest true demo_key DBMS_LOCK_X_MODE 0 0]> ∅) (bypassed demo_start).

Definition demo_owner : system LockState :=
  mkSystem (request_round 1 true true demo_key DBMS_LOCK_X_MODE 0 0 0 (dbms demo_opened)).2
    (delete 1 (requests demo_opened))
    (round_bypassed 1 demo_key (Ok (Some DBMS_LOCK_SUCCESS)) (bypassed demo_opened)).

Lemma demo_owner_bypassed p k : ~ bypassed demo_owner p k.
Proof. intros [H _]. exact H. Qed.

Lemma demo_owner_reachable : dbms_reachable false demo_owner.
Proof.
  exists demo_start. split; [apply demo_start_initial|].
  eapply rtc_l with (y := demo_opened); [|apply rtc_once].
  - apply (step_begin false 1 demo_name DBMS_LOCK_X_MODE 0 0 true); [done|by vm_compute|done|done|by vm_compute].
  - apply (step_round false 1 (mkRequest true demo_key DBMS_LOCK_X_MODE 0 0) true 0 (Ok (Some DBMS_LOCK_SUCCESS)));
      [by vm_compute|]. apply surjective_pairing_eq; [by vm_compute|reflexivity].
Qed.

Lemma dbms_lock_excludes_witness :
  recorded (dbms demo_owner) 1 demo_key DBMS_LOCK_X_MODE /\ my_table 2 (dbms demo_owner) !! demo_key = None.
Proof.
  assert (Hr : recorded (dbms demo_owner) 1 demo_key DBMS_LOCK_X_MODE) by (vm_compute; reflexivity).
  split; [exact Hr|].
  apply (dbms_lock_excludes false demo_owner 1 2 demo_key);
    [apply demo_owner_reachable|by vm_compute|exact Hr|apply demo_owner_bypassed|apply demo_owner_bypassed].
Defined.

Lemma dbms_request_ends_witness :
  exists r st', ivorysql_dbms_lock_request false 2 quiet_world 15 demo_name DBMS_LOCK_S_MODE 2 (dbms demo_owner) = (r, st') /\
    dbms_request_post quiet_world 2 false demo_key DBMS_LOCK_S_MODE 2 (dbms demo_owner) st' r.
Proof.
  apply (dbms_request_ends false quiet_world 2 15 demo_name DBMS_LOCK_S_MODE 2 demo_owner);
    [apply demo_owner_reachable|by vm_compute|apply quiet_world_ok|apply quiet_time].
Defined.

Lemma dbms_release_outcome_witness :
  exists rc st', ivorysql_dbms_lock_release false 1 demo_name (dbms demo_owner) = (Ok rc, st') /\
    others_same 1 (dbms demo_owner) st' /\ dbms_release_post 1 demo_key (dbms demo_owner) st' rc.
Proof.
  apply (dbms_release_outcome false 1 demo_name demo_owner); [apply demo_owner_reachable|by vm_compute].
Defined.

Lemma dbms_request_twice_leaks_witness :
  exists st2 st3 st4,
    ivorysql_dbms_lock_request false 1 quiet_world 1 demo_name DBMS_LOCK_X_MODE 0 (dbms demo_owner)
      = (Ok (Some DBMS_LOCK_SUCCESS), st2) /\
    ivorysql_dbms_lock_release false 1 demo_name st2 = (Ok DBMS_LOCK_SUCCESS, st3) /\
    ivorysql_dbms_lock_release false 1 demo_name st3 = (Ok DBMS_LOCK_PARAM_ERROR, st4) /\
    0 < count (service st4) 1 demo_key true.
Proof.
  apply (dbms_request_twice_leaks false quiet_world 1 1 demo_name DBMS_LOCK_X_MODE 0 true demo_owner);
    [apply demo_owner_reachable|by vm_compute|vm_compute; reflexivity|apply demo_owner_bypassed|done|lia|lia].
Defined.

End Demo.

Lemma dbms_sleep_exact_witness :
  exists naps, ivorysql_dbms_lock_sleep (of_int 3) = Ok (Some naps) /\
    Forall (fun c => 0 < c <= 1000000) naps /\ foldr Z.add 0 naps = 3 * 1000000 /\ Z.of_nat (length naps) = 3.
Proof. apply (dbms_sleep_exact 3). lia. Defined.
