(* ===== verification/CText.v ===== *)
(** * C text routines

    What the sources use of the C library on strings: the character classes of
    <ctype.h>, printing decimal numbers ([%d], [%0*d]), [strtol] and [strtod].

    The classes of bytes above 127 depend on the locale and are a parameter.
    [strtod] returns the double nearest to the decimal number, as IEEE 754 asks;
    [ERANGE] is a boolean next to the result.  The lemmas relate printing and
    reading. *)

From S2P Require Import Prelude Float8.

(** ** Character classes *)

Record char_class := mk_class {
  high_space : Z -> bool;
  high_alpha : Z -> bool;
  high_alnum : Z -> bool;
  high_punct : Z -> bool
}.

Definition within (lo hi : Z) (c : ascii) : bool := (lo <=? ord c) && (ord c <=? hi).

Definition isdigit (c : ascii) : bool := within 48 57 c.

Section Class.

Variable cc : char_class.

Definition isspace (c : ascii) : bool :=
  if ord c <? 128 then (ord c =? 32) || within 9 13 c else high_space cc (ord c).

Definition isalpha (c : ascii) : bool :=
  if ord c <? 128 then within 65 90 c || within 97 122 c else high_alpha cc (ord c).

Definition isalnum (c : ascii) : bool :=
  if ord c <? 128 then isdigit c || within 65 90 c || within 97 122 c else high_alnum cc (ord c).

Definition ispunct (c : ascii) : bool :=
  if ord c <? 128 then within 33 47 c || within 58 64 c || within 91 96 c || within 123 126 c
  else high_punct cc (ord c).

End Class.

(** The longest prefix of characters of a class, and the rest. *)
Fixpoint take_run (p : ascii -> bool) (s : bytes) : bytes * bytes :=
  match s with
  | [] => ([], [])
  | c :: s' => if p c then let '(a, b) := take_run p s' in (c :: a, b) else ([], s)
  end.

(** ** Printing *)

Definition digit_char (d : Z) : ascii := chr (48 + d).

Fixpoint decimal_loop (fuel : nat) (n : Z) (acc : bytes) : bytes :=
  match fuel with
  | O => acc
  | S fuel =>
      let acc := digit_char (n mod 10) :: acc in
      if n <? 10 then acc else decimal_loop fuel (n / 10) acc
  end.

(** A number of at most 20 digits, as every 64-bit integer has. *)
Definition decimal (n : Z) : bytes := decimal_loop 20 n [].

(** [%d] *)
Definition fmt_d (z : Z) : bytes := (if z <? 0 then ["-"%char] else []) ++ decimal (Z.abs z).

(** [%0*d] *)
Definition fmt_0d (width : Z) (z : Z) : bytes :=
  let d := decimal (Z.abs z) in
  let sign := if z <? 0 then ["-"%char] else [] in
  sign ++ replicate (Z.to_nat width - length sign - length d) "0"%char ++ d.

(** ** Reading integers *)

Definition digits_value (v : Z) (s : bytes) : Z := foldl (fun v c => v * 10 + (ord c - 48)) v s.

(** An optional sign: whether it is a minus, and the rest. *)
Definition read_sign (s : bytes) : bool * bytes :=
  match s with
  | c :: s' => if bool_decide (c = "-"%char) then (true, s') else if bool_decide (c = "+"%char) then (false, s')
               else (false, s)
  | [] => (false, s)
  end.

(** [strtol(s, &end, 10)] with a 64-bit long: the value, [errno == ERANGE], the
    text from [end] on. *)
Definition strtol (cc : char_class) (s : bytes) : Z * bool * bytes :=
  let '(neg, s1) := read_sign (take_run (isspace cc) s).2 in
  let '(ds, rest) := take_run isdigit s1 in
  match ds with
  | [] => (0, false, s)
  | _ =>
      let v := (if neg : bool then -1 else 1) * digits_value 0 ds in
      if v <? INT64_MIN then (INT64_MIN, true, rest)
      else if INT64_MAX <? v then (INT64_MAX, true, rest)
      else (v, false, rest)
  end.

(** ** Reading doubles *)

Definition set_sign (neg : bool) (x : float8) : float8 := if neg then SFopp x else x.

(** The double nearest to [m * 10^e], [m >= 0]. *)
Definition decimal_float (m e : Z) : float8 :=
  match m with
  | Z.pos p =>
      if 0 <=? e then binary_normalize 53 1024 (m * 10 ^ e) 0 false
      else SFdiv 53 1024 (S754_finite false p 0) (S754_finite false (Z.to_pos (10 ^ (- e))) 0)
  | _ => S754_zero false
  end.

(** [ERANGE]: the result overflows, or is too small for a normal double. *)
Definition float_erange (m : Z) (x : float8) : bool :=
  match x with
  | S754_infinity _ => true
  | S754_zero _ => negb (m =? 0)
  | S754_finite _ p _ => ndigits p <? 53
  | S754_nan => false
  end.

(** An exponent after [mark]: its value and the rest, when there is one. *)
Definition read_exponent (mark : ascii -> bool) (s : bytes) : Z * bytes :=
  match s with
  | c :: s' =>
      if mark c then
        let '(neg, s1) := read_sign s' in
        let '(ds, rest) := take_run isdigit s1 in
        match ds with
        | [] => (0, s)
        | _ => ((if neg : bool then -1 else 1) * digits_value 0 ds, rest)
        end
      else (0, s)
  | [] => (0, s)
  end.

(** Digits with an optional point: the digits before and after it, and the rest. *)
Definition read_mantissa (digit : ascii -> bool) (s : bytes) : bytes * bytes * bytes :=
  let '(a, r) := take_run digit s in
  match r with
  | c :: r' => if bool_decide (c = "."%char) then let '(b, r'') := take_run digit r' in (a, b, r'') else (a, [], r)
  | [] => (a, [], r)
  end.

Definition lower_ascii (c : ascii) : Z := if within 65 90 c then ord c + 32 else ord c.

Definition is_letter (l : Z) (c : ascii) : bool := lower_ascii c =? l.

(** [Some rest] when the string starts with the (lower-case) word, in any case. *)
Fixpoint strip_word (word s : bytes) : option bytes :=
  match word, s with
  | [], _ => Some s
  | w :: word', c :: s' => if lower_ascii c =? ord w then strip_word word' s' else None
  | _ :: _, [] => None
  end.

Definition isxdigit (c : ascii) : bool := isdigit c || within 65 70 c || within 97 102 c.

Definition xdigit_value (c : ascii) : Z := if isdigit c then ord c - 48 else lower_ascii c - 87.

Definition xdigits_value (s : bytes) : Z := foldl (fun v c => v * 16 + xdigit_value c) 0 s.

(** [nan(n-char-sequence)] *)
Definition skip_nan_payload (s : bytes) : bytes :=
  match s with
  | c :: s' =>
      if bool_decide (c = "("%char) then
        match take_run (fun c => isdigit c || within 65 90 c || within 97 122 c || bool_decide (c = "_"%char)) s' with
        | (_, d :: rest) => if bool_decide (d = ")"%char) then rest else s
        | (_, []) => s
        end
      else s
  | [] => s
  end.

(** A hexadecimal number, after its [0x]. *)
Definition strtod_hex (s : bytes) : option (float8 * bool * bytes) :=
  let '(a, b, r) := read_mantissa isxdigit s in
  match a ++ b with
  | [] => None
  | ds =>
      let m := xdigits_value ds in
      let '(e, rest) := read_exponent (is_letter 112) r in
      let x := binary_normalize 53 1024 m (e - 4 * Z.of_nat (length b)) false in
      Some (x, float_erange m x, rest)
  end.

Definition strtod_decimal (s : bytes) : option (float8 * bool * bytes) :=
  let '(a, b, r) := read_mantissa isdigit s in
  match a ++ b with
  | [] => None
  | ds =>
      let m := digits_value 0 ds in
      let '(e, rest) := read_exponent (is_letter 101) r in
      let x := decimal_float m (e - Z.of_nat (length b)) in
      Some (x, float_erange m x, rest)
  end.

Definition strtod_unsigned (s : bytes) : option (float8 * bool * bytes) :=
  match strip_word (lit "infinity") s, strip_word (lit "inf") s, strip_word (lit "nan") s, strip_word (lit "0x") s with
  | Some rest, _, _, _ => Some (S754_infinity false, false, rest)
  | _, Some rest, _, _ => Some (S754_infinity false, false, rest)
  | _, _, Some rest, _ => Some (S754_nan, false, skip_nan_payload rest)
  | _, _, _, Some rest =>
      match strtod_hex rest with
      | Some r => Some r
      | None => strtod_decimal s
      end
  | _, _, _, _ => strtod_decimal s
  end.

(** [strtod(s, &end)]: the value, [errno == ERANGE], the text from [end] on. *)
Definition strtod (cc : char_class) (s : bytes) : float8 * bool * bytes :=
  let '(neg, s1) := read_sign (take_run (isspace cc) s).2 in
  match strtod_unsigned s1 with
  | Some (x, er, rest) => (set_sign neg x, er, rest)
  | None => (S754_zero false, false, s)
  end.

(** ** Lemmas *)

(** The text goes on with a character outside the class, or ends. *)
Definition stops (p : ascii -> bool) (s : bytes) : Prop := match s with [] => True | c :: _ => p c = false end.

Lemma take_run_app p a b : forallb p a = true -> stops p b -> take_run p (a ++ b) = (a, b).
Proof.
  intros Ha Hb. induction a as [|c a IH]; cbn in Ha |- *.
  - destruct b as [|c b]; [done|]. cbn in *. by rewrite Hb.
  - apply andb_true_iff in Ha as [-> Ha]. by rewrite IH.
Qed.

Lemma take_run_none p s : stops p s -> take_run p s = ([], s).
Proof. apply (take_run_app p [] s). done. Qed.

Lemma take_run_concat p s : (take_run p s).1 ++ (take_run p s).2 = s /\ forallb p (take_run p s).1 = true.
Proof.
  induction s as [|c s [IH1 IH2]]; [done|]. cbn. destruct (p c) eqn:E; [|done].
  destruct (take_run p s). cbn in *. by rewrite E, IH1, IH2.
Qed.

Lemma isdigit_char d : 0 <= d < 10 -> isdigit (digit_char d) = true /\ ord (digit_char d) = 48 + d.
Proof. intros Hd. unfold isdigit, within, digit_char. rewrite ord_chr, Z.mod_small by lia. split; [|done]. lia. Qed.

(** Digits are neither spaces nor signs. *)
Lemma isdigit_other cc c : isdigit c = true -> isspace cc c = false /\ c <> "-"%char /\ c <> "+"%char /\ 48 <= ord c <= 57.
Proof.
  unfold isdigit, isspace, within. intros H. assert (Hr : 48 <= ord c <= 57) by lia. split_and!; [|by intros ->|by intros ->|lia..].
  destruct (Z.ltb_spec (ord c) 128); lia.
Qed.

Lemma digits_value_app v a b : digits_value v (a ++ b) = digits_value (digits_value v a) b.
Proof. apply foldl_app. Qed.

Lemma digits_value_shift v s : digits_value v s = v * 10 ^ Z.of_nat (length s) + digits_value 0 s.
Proof.
  revert v. induction s as [|c s IH]; intros v; [cbn; lia|].
  change (digits_value v (c :: s)) with (digits_value (v * 10 + (ord c - 48)) s).
  change (digits_value 0 (c :: s)) with (digits_value (0 * 10 + (ord c - 48)) s).
  rewrite (IH (v * 10 + _)), (IH (0 * 10 + _)). cbn [length]. rewrite Nat2Z.inj_succ, Z.pow_succ_r by lia. lia.
Qed.

Lemma digits_value_bound s : forallb isdigit s = true -> 0 <= digits_value 0 s < 10 ^ Z.of_nat (length s).
Proof.
  induction s as [|c s IH]; [cbn; lia|]. intros [Hc Hs]%andb_true_iff. specialize (IH Hs).
  change (digits_value 0 (c :: s)) with (digits_value (0 * 10 + (ord c - 48)) s). rewrite digits_value_shift.
  unfold isdigit, within in Hc. cbn [length]. rewrite Nat2Z.inj_succ, Z.pow_succ_r by lia.
  assert (0 < 10 ^ Z.of_nat (length s)) by (apply Z.pow_pos_nonneg; lia). nia.
Qed.

Lemma digits_value_zeros k s : digits_value 0 (replicate k "0"%char ++ s) = digits_value 0 s.
Proof. induction k as [|k IH]; [done|]. exact IH. Qed.

(** A digit string with its value and a bound on its length. *)
Definition digits_of (n : Z) (s : bytes) : Prop := s <> [] /\ forallb isdigit s = true /\ digits_value 0 s = n.

Lemma decimal_loop_spec fuel n acc :
  (0 < fuel)%nat -> 0 <= n < 10 ^ Z.of_nat fuel ->
  exists ds, decimal_loop fuel n acc = ds ++ acc /\ digits_of n ds /\
    forall k, (0 < k)%nat -> n < 10 ^ Z.of_nat k -> (length ds <= k)%nat.
Proof.
  revert n acc. induction fuel as [|fuel IH]; intros n acc Hf Hn; [lia|]. cbn [decimal_loop].
  destruct (isdigit_char (n mod 10) ltac:(lia)) as [Hd Ho].
  assert (Hlast : digits_value 0 [digit_char (n mod 10)] = n mod 10) by (cbn; rewrite Ho; lia).
  destruct (Z.ltb_spec n 10).
  - exists [digit_char (n mod 10)]. split; [done|]. split; [|cbn; lia]. split; [done|].
    split; [cbn; by rewrite Hd|]. rewrite Hlast. lia.
  - rewrite Nat2Z.inj_succ, Z.pow_succ_r in Hn by lia.
    destruct fuel as [|fuel]; [cbn in Hn; lia|].
    destruct (IH (n / 10) (digit_char (n mod 10) :: acc) ltac:(lia) ltac:(lia)) as (ds & -> & (Hne & Hds & Hv) & Hl).
    exists (ds ++ [digit_char (n mod 10)]). split; [by rewrite <- app_assoc|]. split; [split_and!|].
    + by destruct ds.
    + rewrite forallb_app, Hds. cbn. by rewrite Hd.
    + rewrite digits_value_app, digits_value_shift, Hv, Hlast. cbn. lia.
    + intros k Hk Hnk. rewrite length_app. cbn [length]. destruct k as [|[|k]]; [lia|cbn in Hnk; lia|].
      specialize (Hl (S k) ltac:(lia)). rewrite Nat2Z.inj_succ, Z.pow_succ_r in Hnk by lia. lia.
Qed.

Lemma decimal_spec n : 0 <= n < 10 ^ 20 ->
  digits_of n (decimal n) /\ forall k, (0 < k)%nat -> n < 10 ^ Z.of_nat k -> (length (decimal n) <= k)%nat.
Proof.
  intros Hn. destruct (decimal_loop_spec 20 n [] ltac:(lia) Hn) as (ds & E & H). unfold decimal.
  rewrite E, app_nil_r. exact H.
Qed.

Lemma fmt_0d_digits w n : 0 <= n < 10 ^ 20 -> digits_of n (fmt_0d w n).
Proof.
  intros Hn. destruct (decimal_spec n Hn) as [(Hne & Hd & Hv) _]. unfold fmt_0d. rewrite Z.abs_eq by lia.
  destruct (Z.ltb_spec n 0); [lia|]. cbn [app]. split_and!.
  - intros [_ ?]%app_nil. done.
  - rewrite forallb_app, Hd, andb_true_r. by induction (Z.to_nat w - _ - _)%nat.
  - by rewrite digits_value_zeros.
Qed.

(** A number that fits is printed with exactly [w] digits. *)
Lemma fmt_0d_length w n : 0 < w -> 0 <= n < 10 ^ 20 -> n < 10 ^ w -> length (fmt_0d w n) = Z.to_nat w.
Proof.
  intros Hw Hn Hnw. destruct (decimal_spec n Hn) as [_ Hl]. specialize (Hl (Z.to_nat w) ltac:(lia)).
  rewrite Z2Nat.id in Hl by lia. specialize (Hl Hnw). unfold fmt_0d. rewrite Z.abs_eq by lia.
  destruct (Z.ltb_spec n 0); [lia|]. cbn [app length]. rewrite length_app, length_replicate. lia.
Qed.

Lemma fmt_0d_length_le w n k :
  (0 < k)%nat -> w <= Z.of_nat k -> 0 <= n < 10 ^ 20 -> n < 10 ^ Z.of_nat k -> (length (fmt_0d w n) <= k)%nat.
Proof.
  intros Hk Hw Hn Hnk. destruct (decimal_spec n Hn) as [_ Hl]. specialize (Hl k Hk Hnk). unfold fmt_0d.
  rewrite Z.abs_eq by lia. destruct (Z.ltb_spec n 0); [lia|]. cbn [app length]. rewrite length_app, length_replicate. lia.
Qed.

Lemma fmt_d_digits n : 0 <= n < 10 ^ 20 -> digits_of n (fmt_d n).
Proof.
  intros Hn. unfold fmt_d. rewrite Z.abs_eq by lia. destruct (Z.ltb_spec n 0); [lia|]. by apply decimal_spec.
Qed.

Lemma digits_of_nonneg n s : digits_of n s -> 0 <= n.
Proof. intros (_ & Hd & <-). by apply digits_value_bound. Qed.

Lemma digits_head n s : digits_of n s -> exists c s', s = c :: s' /\ isdigit c = true.
Proof. intros (Hne & Hd & _). destruct s as [|c s]; [done|]. apply andb_true_iff in Hd as [? _]. eauto. Qed.

(** Reading back an unsigned number, and a number with a sign. *)
Lemma strtol_digits cc n ds rest :
  digits_of n ds -> stops isdigit rest -> n <= INT64_MAX -> strtol cc (ds ++ rest) = (n, false, rest).
Proof.
  intros Hds Hr Hn. pose proof (digits_of_nonneg n ds Hds) as Hn0. destruct (digits_head n ds Hds) as (c & s' & E & Hc).
  destruct Hds as (Hne & Hd & Hv). destruct (isdigit_other cc c Hc) as (Hsp & Hm & Hp & _).
  unfold strtol. rewrite (take_run_none (isspace cc)) by (by rewrite E).
  assert (Hs : read_sign (ds ++ rest) = (false, ds ++ rest)).
  { rewrite E. cbn. by rewrite !bool_decide_eq_false_2. }
  cbn [snd]. rewrite Hs, take_run_app by done. rewrite Hv. destruct ds; [done|].
  unfold INT64_MIN, INT64_MAX in *. destruct (Z.ltb_spec (1 * n) (-9223372036854775808)); [lia|].
  destruct (Z.ltb_spec 9223372036854775807 (1 * n)); [lia|]. by rewrite Z.mul_1_l.
Qed.

Lemma strtol_signed cc (neg : bool) n ds rest :
  digits_of n ds -> stops isdigit rest -> n <= INT64_MAX ->
  strtol cc ((if neg then "-"%char else "+"%char) :: ds ++ rest) = (if neg then - n else n, false, rest).
Proof.
  intros Hds Hr Hn. pose proof (digits_of_nonneg n ds Hds) as Hn0. destruct Hds as (Hne & Hd & Hv).
  unfold strtol. rewrite (take_run_none (isspace cc)) by (by destruct neg).
  assert (Hs : read_sign ((if neg then "-"%char else "+"%char) :: ds ++ rest) = (neg, ds ++ rest)) by (by destruct neg).
  cbn [snd]. rewrite Hs, take_run_app by done. rewrite Hv. destruct ds; [done|].
  unfold INT64_MIN, INT64_MAX in *.
  assert (E : (if neg then -1 else 1) * n = if neg then - n else n) by (destruct neg; lia). rewrite E.
  destruct (Z.ltb_spec (if neg then - n else n) (-9223372036854775808)); [destruct neg; lia|].
  destruct (Z.ltb_spec 9223372036854775807 (if neg then - n else n)); [destruct neg; lia|done].
Qed.

(** A point and digits are a fraction. *)
Lemma strtod_fraction cc n ds :
  digits_of n ds ->
  strtod cc ("."%char :: ds) =
    (decimal_float n (- Z.of_nat (length ds)), float_erange n (decimal_float n (- Z.of_nat (length ds))), []).
Proof.
  intros (Hne & Hd & Hv). unfold strtod. rewrite (take_run_none (isspace cc)) by done. cbn [snd].
  change (read_sign ("."%char :: ds)) with (false, "."%char :: ds). cbn iota.
  assert (Hu : strtod_unsigned ("."%char :: ds) = strtod_decimal ("."%char :: ds)) by done.
  rewrite Hu. unfold strtod_decimal, read_mantissa. change (take_run isdigit ("."%char :: ds)) with (@nil ascii, "."%char :: ds).
  cbn iota. rewrite bool_decide_eq_true_2 by done. rewrite <- (app_nil_r ds) at 1. rewrite take_run_app by done.
  cbn [app]. destruct ds as [|c ds]; [done|]. cbn [read_exponent]. rewrite Hv, Z.sub_0_l. done.
Qed.
