(* ===== verification/DateTokens.v ===== *)
(** * Date and time text: tokens

    The first half of reading a date, time or interval,
    [src/src/backend/utils/adt/datetime.c]: [ParseDateTime] cuts the text into
    typed fields, [datebsearch] looks a word up in a token table and [DecodeUnits]
    names the unit of an interval field.

    The working buffer of the caller is its length: every field takes its
    characters and a terminator, and a field that does not fit is a bad format.
    Theorems: the binary search finds exactly the entries that match the key in
    their first ten characters, whatever [DecodeUnits] has cached; [ParseDateTime]
    ends, and its fields fit the buffer and the field arrays. *)

From S2P Require Import Prelude Float8 CText OraDate.

(** ** Constants of datetime.h *)

(** Field types for time decoding. *)
Definition RESERV : Z := 0.
Definition MONTH : Z := 1.
Definition YEAR : Z := 2.
Definition DAY : Z := 3.
Definition IGNORE_DTF : Z := 8.
Definition AMPM : Z := 9.
Definition HOUR : Z := 10.
Definition MINUTE : Z := 11.
Definition SECOND : Z := 12.
Definition MILLISECOND : Z := 13.
Definition MICROSECOND : Z := 14.
Definition DOW : Z := 16.
Definition UNITS : Z := 17.
Definition ADBC : Z := 18.
Definition AGO : Z := 19.
Definition ISOTIME : Z := 23.
Definition WEEK : Z := 24.
Definition DECADE : Z := 25.
Definition CENTURY : Z := 26.
Definition MILLENNIUM : Z := 27.
Definition DTZMOD : Z := 28.
Definition UNKNOWN_FIELD : Z := 31.
Definition AM : Z := 0.
Definition PM : Z := 1.
Definition AD : Z := 0.
Definition BC : Z := 1.

(** Token types. *)
Definition DTK_NUMBER : Z := 0.
Definition DTK_STRING : Z := 1.
Definition DTK_DATE : Z := 2.
Definition DTK_TIME : Z := 3.
Definition DTK_TZ : Z := 4.
Definition DTK_AGO : Z := 5.
Definition DTK_SPECIAL : Z := 6.
Definition DTK_EARLY : Z := 9.
Definition DTK_LATE : Z := 10.
Definition DTK_EPOCH : Z := 11.
Definition DTK_NOW : Z := 12.
Definition DTK_YESTERDAY : Z := 13.
Definition DTK_TODAY : Z := 14.
Definition DTK_TOMORROW : Z := 15.
Definition DTK_ZULU : Z := 16.
Definition DTK_DELTA : Z := 17.
Definition DTK_SECOND : Z := 18.
Definition DTK_MINUTE : Z := 19.
Definition DTK_HOUR : Z := 20.
Definition DTK_DAY : Z := 21.
Definition DTK_WEEK : Z := 22.
Definition DTK_MONTH : Z := 23.
Definition DTK_QUARTER : Z := 24.
Definition DTK_YEAR : Z := 25.
Definition DTK_DECADE : Z := 26.
Definition DTK_CENTURY : Z := 27.
Definition DTK_MILLENNIUM : Z := 28.
Definition DTK_MILLISEC : Z := 29.
Definition DTK_MICROSEC : Z := 30.
Definition DTK_JULIAN : Z := 31.
Definition DTK_DOW : Z := 32.
Definition DTK_DOY : Z := 33.
Definition DTK_TZ_HOUR : Z := 34.
Definition DTK_TZ_MINUTE : Z := 35.
Definition DTK_ISOYEAR : Z := 36.
Definition DTK_ISODOW : Z := 37.

(** Bit masks of parsed fields. *)
Definition DTK_M (t : Z) : Z := Z.shiftl 1 t.
Definition DTK_ALL_SECS_M : Z := Z.lor (DTK_M SECOND) (Z.lor (DTK_M MILLISECOND) (DTK_M MICROSECOND)).
Definition DTK_DATE_M : Z := Z.lor (DTK_M YEAR) (Z.lor (DTK_M MONTH) (DTK_M DAY)).
Definition DTK_TIME_M : Z := Z.lor (DTK_M HOUR) (Z.lor (DTK_M MINUTE) DTK_ALL_SECS_M).

Definition MAXDATEFIELDS : nat := 25.
Definition TOKMAXLEN : nat := 10.

(** ** Error codes *)

(** [DT_UNDEFINED] is a conversion of a double that does not fit its integer
    type, which C leaves undefined; [DT_FUEL] a loop that ran out of fuel. *)
Inductive dterr :=
  | DTERR_BAD_FORMAT
  | DTERR_FIELD_OVERFLOW
  | DTERR_INTERVAL_OVERFLOW
  | DT_UNDEFINED
  | DT_FUEL.

Inductive dt (A : Type) :=
  | DtOk (a : A)
  | DtErr (e : dterr).
Arguments DtOk {A} a.
Arguments DtErr {A} e.

#[export] Instance dt_ret : MRet dt := @DtOk.
#[export] Instance dt_bind : MBind dt := fun A B f m => match m with DtOk a => f a | DtErr e => DtErr e end.

(** [DateTimeParseError], for the codes above. *)
Definition DateTimeParseError {A} (e : dterr) : result A :=
  match e with
  | DTERR_FIELD_OVERFLOW => ereport ERRCODE_DATETIME_FIELD_OVERFLOW "date/time field value out of range"
  | DTERR_INTERVAL_OVERFLOW => ereport ERRCODE_INTERVAL_FIELD_OVERFLOW "interval field value out of range"
  | DTERR_BAD_FORMAT => ereport ERRCODE_INVALID_DATETIME_FORMAT "invalid input syntax"
  | DT_UNDEFINED => ereport ERRCODE_INTERNAL_ERROR "undefined conversion"
  | DT_FUEL => ereport ERRCODE_INTERNAL_ERROR "out of fuel"
  end.

(** ** Token tables *)

Record datetkn := mk_tkn { token : bytes; tkn_type : Z; tkn_value : Z }.

Definition datetktbl : list datetkn := [
  mk_tkn (lit "+infinity") RESERV DTK_LATE;
  mk_tkn (lit "-infinity") RESERV DTK_EARLY;
  mk_tkn (lit "ad") ADBC AD;
  mk_tkn (lit "allballs") RESERV DTK_ZULU;
  mk_tkn (lit "am") AMPM AM;
  mk_tkn (lit "apr") MONTH 4;
  mk_tkn (lit "april") MONTH 4;
  mk_tkn (lit "at") IGNORE_DTF 0;
  mk_tkn (lit "aug") MONTH 8;
  mk_tkn (lit "august") MONTH 8;
  mk_tkn (lit "bc") ADBC BC;
  mk_tkn (lit "d") UNITS DTK_DAY;
  mk_tkn (lit "dec") MONTH 12;
  mk_tkn (lit "december") MONTH 12;
  mk_tkn (lit "dow") UNITS DTK_DOW;
  mk_tkn (lit "doy") UNITS DTK_DOY;
  mk_tkn (lit "dst") DTZMOD 3600;
  mk_tkn (lit "epoch") RESERV DTK_EPOCH;
  mk_tkn (lit "feb") MONTH 2;
  mk_tkn (lit "february") MONTH 2;
  mk_tkn (lit "fri") DOW 5;
  mk_tkn (lit "friday") DOW 5;
  mk_tkn (lit "h") UNITS DTK_HOUR;
  mk_tkn (lit "infinity") RESERV DTK_LATE;
  mk_tkn (lit "isodow") UNITS DTK_ISODOW;
  mk_tkn (lit "isoyear") UNITS DTK_ISOYEAR;
  mk_tkn (lit "j") UNITS DTK_JULIAN;
  mk_tkn (lit "jan") MONTH 1;
  mk_tkn (lit "january") MONTH 1;
  mk_tkn (lit "jd") UNITS DTK_JULIAN;
  mk_tkn (lit "jul") MONTH 7;
  mk_tkn (lit "julian") UNITS DTK_JULIAN;
  mk_tkn (lit "july") MONTH 7;
  mk_tkn (lit "jun") MONTH 6;
  mk_tkn (lit "june") MONTH 6;
  mk_tkn (lit "m") UNITS DTK_MONTH;
  mk_tkn (lit "mar") MONTH 3;
  mk_tkn (lit "march") MONTH 3;
  mk_tkn (lit "may") MONTH 5;
  mk_tkn (lit "mm") UNITS DTK_MINUTE;
  mk_tkn (lit "mon") DOW 1;
  mk_tkn (lit "monday") DOW 1;
  mk_tkn (lit "nov") MONTH 11;
  mk_tkn (lit "november") MONTH 11;
  mk_tkn (lit "now") RESERV DTK_NOW;
  mk_tkn (lit "oct") MONTH 10;
  mk_tkn (lit "october") MONTH 10;
  mk_tkn (lit "on") IGNORE_DTF 0;
  mk_tkn (lit "pm") AMPM PM;
  mk_tkn (lit "s") UNITS DTK_SECOND;
  mk_tkn (lit "sat") DOW 6;
  mk_tkn (lit "saturday") DOW 6;
  mk_tkn (lit "sep") MONTH 9;
  mk_tkn (lit "sept") MONTH 9;
  mk_tkn (lit "september") MONTH 9;
  mk_tkn (lit "sun") DOW 0;
  mk_tkn (lit "sunday") DOW 0;
  mk_tkn (lit "t") ISOTIME DTK_TIME;
  mk_tkn (lit "thu") DOW 4;
  mk_tkn (lit "thur") DOW 4;
  mk_tkn (lit "thurs") DOW 4;
  mk_tkn (lit "thursday") DOW 4;
  mk_tkn (lit "today") RESERV DTK_TODAY;
  mk_tkn (lit "tomorrow") RESERV DTK_TOMORROW;
  mk_tkn (lit "tue") DOW 2;
  mk_tkn (lit "tues") DOW 2;
  mk_tkn (lit "tuesday") DOW 2;
  mk_tkn (lit "wed") DOW 3;
  mk_tkn (lit "wednesday") DOW 3;
  mk_tkn (lit "weds") DOW 3;
  mk_tkn (lit "y") UNITS DTK_YEAR;
  mk_tkn (lit "yesterday") RESERV DTK_YESTERDAY
].

Definition deltatktbl : list datetkn := [
  mk_tkn (lit "@") IGNORE_DTF 0;
  mk_tkn (lit "ago") AGO 0;
  mk_tkn (lit "c") UNITS DTK_CENTURY;
  mk_tkn (lit "cent") UNITS DTK_CENTURY;
  mk_tkn (lit "centuries") UNITS DTK_CENTURY;
  mk_tkn (lit "century") UNITS DTK_CENTURY;
  mk_tkn (lit "d") UNITS DTK_DAY;
  mk_tkn (lit "day") UNITS DTK_DAY;
  mk_tkn (lit "days") UNITS DTK_DAY;
  mk_tkn (lit "dec") UNITS DTK_DECADE;
  mk_tkn (lit "decade") UNITS DTK_DECADE;
  mk_tkn (lit "decades") UNITS DTK_DECADE;
  mk_tkn (lit "decs") UNITS DTK_DECADE;
  mk_tkn (lit "h") UNITS DTK_HOUR;
  mk_tkn (lit "hour") UNITS DTK_HOUR;
  mk_tkn (lit "hours") UNITS DTK_HOUR;
  mk_tkn (lit "hr") UNITS DTK_HOUR;
  mk_tkn (lit "hrs") UNITS DTK_HOUR;
  mk_tkn (lit "m") UNITS DTK_MINUTE;
  mk_tkn (lit "microsecon") UNITS DTK_MICROSEC;
  mk_tkn (lit "mil") UNITS DTK_MILLENNIUM;
  mk_tkn (lit "millennia") UNITS DTK_MILLENNIUM;
  mk_tkn (lit "millennium") UNITS DTK_MILLENNIUM;
  mk_tkn (lit "millisecon") UNITS DTK_MILLISEC;
  mk_tkn (lit "mils") UNITS DTK_MILLENNIUM;
  mk_tkn (lit "min") UNITS DTK_MINUTE;
  mk_tkn (lit "mins") UNITS DTK_MINUTE;
  mk_tkn (lit "minute") UNITS DTK_MINUTE;
  mk_tkn (lit "minutes") UNITS DTK_MINUTE;
  mk_tkn (lit "mon") UNITS DTK_MONTH;
  mk_tkn (lit "mons") UNITS DTK_MONTH;
  mk_tkn (lit "month") UNITS DTK_MONTH;
  mk_tkn (lit "months") UNITS DTK_MONTH;
  mk_tkn (lit "ms") UNITS DTK_MILLISEC;
  mk_tkn (lit "msec") UNITS DTK_MILLISEC;
  mk_tkn (lit "msecond") UNITS DTK_MILLISEC;
  mk_tkn (lit "mseconds") UNITS DTK_MILLISEC;
  mk_tkn (lit "msecs") UNITS DTK_MILLISEC;
  mk_tkn (lit "qtr") UNITS DTK_QUARTER;
  mk_tkn (lit "quarter") UNITS DTK_QUARTER;
  mk_tkn (lit "s") UNITS DTK_SECOND;
  mk_tkn (lit "sec") UNITS DTK_SECOND;
  mk_tkn (lit "second") UNITS DTK_SECOND;
  mk_tkn (lit "seconds") UNITS DTK_SECOND;
  mk_tkn (lit "secs") UNITS DTK_SECOND;
  mk_tkn (lit "timezone") UNITS DTK_TZ;
  mk_tkn (lit "timezone_h") UNITS DTK_TZ_HOUR;
  mk_tkn (lit "timezone_m") UNITS DTK_TZ_MINUTE;
  mk_tkn (lit "us") UNITS DTK_MICROSEC;
  mk_tkn (lit "usec") UNITS DTK_MICROSEC;
  mk_tkn (lit "usecond") UNITS DTK_MICROSEC;
  mk_tkn (lit "useconds") UNITS DTK_MICROSEC;
  mk_tkn (lit "usecs") UNITS DTK_MICROSEC;
  mk_tkn (lit "w") UNITS DTK_WEEK;
  mk_tkn (lit "week") UNITS DTK_WEEK;
  mk_tkn (lit "weeks") UNITS DTK_WEEK;
  mk_tkn (lit "y") UNITS DTK_YEAR;
  mk_tkn (lit "year") UNITS DTK_YEAR;
  mk_tkn (lit "years") UNITS DTK_YEAR;
  mk_tkn (lit "yr") UNITS DTK_YEAR;
  mk_tkn (lit "yrs") UNITS DTK_YEAR
].

(** A [char] as an [int]; a string reads as zero at its end. *)
Definition char_int (s : bytes) : Z :=
  match s with
  | [] => 0
  | c :: _ => if ord c <? 128 then ord c else ord c - 256
  end.

(** [strncmp] *)
Fixpoint strncmp (s1 s2 : bytes) (n : nat) {struct n} : Z :=
  match n, s1, s2 with
  | O, _, _ => 0
  | S _, [], [] => 0
  | S _, [], c :: _ => - ord c
  | S _, c :: _, [] => ord c
  | S n, c1 :: s1, c2 :: s2 => if ord c1 =? ord c2 then strncmp s1 s2 n else ord c1 - ord c2
  end.

Definition token_cmp (key : bytes) (t : datetkn) : Z :=
  let result := char_int key - char_int (token t) in
  if result =? 0 then strncmp key (token t) TOKMAXLEN else result.

(** [while (last >= base)], on positions of the table. *)
Fixpoint datebsearch_loop (fuel : nat) (key : bytes) (tbl : list datetkn) (base last : Z) : option datetkn :=
  match fuel with
  | O => None
  | S fuel =>
      if last <? base then None
      else
        let position := base + Z.shiftr (last - base) 1 in
        match tbl !! Z.to_nat position with
        | None => None
        | Some t =>
            let result := token_cmp key t in
            if result =? 0 then Some t
            else if result <? 0 then datebsearch_loop fuel key tbl base (position - 1)
            else datebsearch_loop fuel key tbl (position + 1) last
        end
  end.

Definition datebsearch (key : bytes) (tbl : list datetkn) : option datetkn :=
  datebsearch_loop (length tbl) key tbl 0 (Z.of_nat (length tbl) - 1).

(** The type and value of a unit word; [cached] is the entry of [deltacache] for
    the position of the field. *)
Definition DecodeUnits (cached : option datetkn) (lowtoken : bytes) : Z * Z :=
  let found := match cached with
               | Some t => if strncmp lowtoken (token t) TOKMAXLEN =? 0 then Some t else datebsearch lowtoken deltatktbl
               | None => datebsearch lowtoken deltatktbl
               end in
  match found with
  | Some t => (tkn_type t, tkn_value t)
  | None => (UNKNOWN_FIELD, 0)
  end.

(** ** Cutting the text into fields *)

Section Parse.

Variable cc : char_class.
Variable lc : ctype.

Definition pg_tolower (c : ascii) : ascii := chr (fold_case lc (ord c)).

Definition is_char (c d : ascii) : bool := bool_decide (d = c).

(** A field that starts with a digit: its type, its text and the rest. *)
Definition digit_field (s : bytes) : Z * bytes * bytes :=
  let '(d, r) := take_run isdigit s in
  match r with
  | delim :: r1 =>
      if is_char ":" delim then
        let '(t, r2) := take_run (fun c => isdigit c || is_char ":" c || is_char "." c) r1 in
        (DTK_TIME, d ++ delim :: t, r2)
      else if is_char "-" delim || is_char "/" delim || is_char "." delim then
        if match r1 with c :: _ => isdigit c | [] => false end then
          let '(d2, r2) := take_run isdigit r1 in
          match r2 with
          | c :: r3 =>
              if is_char delim c then
                let '(t, r4) := take_run (fun c => isdigit c || is_char delim c) r3 in
                (DTK_DATE, d ++ delim :: d2 ++ c :: t, r4)
              else (if is_char "." delim then DTK_NUMBER else DTK_DATE, d ++ delim :: d2, r2)
          | [] => (if is_char "." delim then DTK_NUMBER else DTK_DATE, d ++ delim :: d2, r2)
          end
        else
          let '(t, r2) := take_run (fun c => isalnum cc c || is_char delim c) r1 in
          (DTK_DATE, d ++ delim :: map pg_tolower t, r2)
      else (DTK_NUMBER, d, r)
  | [] => (DTK_NUMBER, d, r)
  end.

(** A leading decimal point. *)
Definition point_field (c : ascii) (s : bytes) : Z * bytes * bytes :=
  let '(d, r) := take_run isdigit s in (DTK_NUMBER, c :: d, r).

(** The characters that continue a date or zone name after a word. *)
Definition date_char (c : ascii) : bool :=
  is_char "+" c || is_char "-" c || is_char "/" c || is_char "_" c || is_char "." c || is_char ":" c || isalnum cc c.

Definition alpha_field (s : bytes) : Z * bytes * bytes :=
  let '(w, r) := take_run (isalpha cc) s in
  let w := map pg_tolower w in
  match r with
  | c :: r1 =>
      let is_date :=
        if is_char "-" c || is_char "/" c || is_char "." c then true
        else if is_char "+" c || isdigit c then
          match datebsearch w datetktbl with None => true | Some _ => false end
        else false in
      if is_date then
        let '(t, r2) := take_run date_char r1 in (DTK_DATE, w ++ pg_tolower c :: map pg_tolower t, r2)
      else (DTK_STRING, w, r)
  | [] => (DTK_STRING, w, r)
  end.

(** A leading sign; [None] is a bad format. *)
Definition sign_field (sign : ascii) (s : bytes) : option (Z * bytes * bytes) :=
  let s := (take_run (isspace cc) s).2 in
  match s with
  | c :: _ =>
      if isdigit c then
        let '(t, r) := take_run (fun c => isdigit c || is_char ":" c || is_char "." c || is_char "-" c) s in
        Some (DTK_TZ, sign :: t, r)
      else if isalpha cc c then
        let '(t, r) := take_run (isalpha cc) s in Some (DTK_SPECIAL, sign :: map pg_tolower t, r)
      else None
  | [] => None
  end.

(** The field that starts with [c]. *)
Definition next_field (c : ascii) (s : bytes) : option (Z * bytes * bytes) :=
  if isdigit c then Some (digit_field (c :: s))
  else if is_char "." c then Some (point_field c s)
  else if isalpha cc c then Some (alpha_field (c :: s))
  else if is_char "+" c || is_char "-" c then sign_field c s
  else None.

(** The outer loop; [used] characters of the buffer of [buflen] are taken and [nf]
    fields are found. *)
Fixpoint parse_fields (fuel : nat) (buflen used : nat) (maxfields nf : nat) (s : bytes) : dt (list (Z * bytes)) :=
  match s with
  | [] => DtOk []
  | c :: s' =>
      match fuel with
      | O => DtErr DT_FUEL
      | S fuel =>
          if isspace cc c then parse_fields fuel buflen used maxfields nf s'
          else if (maxfields <=? nf)%nat then DtErr DTERR_BAD_FORMAT
          else if isdigit c || is_char "." c || isalpha cc c || is_char "+" c || is_char "-" c then
            match next_field c s' with
            | None => DtErr DTERR_BAD_FORMAT
            | Some (ty, text, rest) =>
                if (buflen <=? used + length text)%nat then DtErr DTERR_BAD_FORMAT
                else
                  fields ← parse_fields fuel buflen (used + length text + 1) maxfields (S nf) rest;
                  DtOk ((ty, text) :: fields)
            end
          else if ispunct cc c then parse_fields fuel buflen used maxfields nf s'
          else DtErr DTERR_BAD_FORMAT
      end
  end.

Definition ParseDateTime (timestr : bytes) (buflen maxfields : nat) : dt (list (Z * bytes)) :=
  parse_fields (length timestr) buflen 0 maxfields 0 timestr.

End Parse.

(** ** The token search *)

#[export] Instance datetkn_eq_dec : EqDecision datetkn.
Proof. solve_decision. Defined.

(** A C string: no byte is zero. *)
Definition c_string (s : bytes) : Prop := Forall (fun c => 0 < ord c) s.

Lemma strncmp_take s1 s2 n : strncmp (take n s1) s2 n = strncmp s1 s2 n.
Proof.
  revert s1 s2. induction n as [|n IH]; intros s1 s2; [done|]. destruct s1 as [|c s1]; [done|]. cbn.
  destruct s2; [done|]. by rewrite IH.
Qed.

Lemma strncmp_refl s n : strncmp s s n = 0.
Proof. revert s. induction n as [|n IH]; intros s; [done|]. destruct s; [done|]. cbn. by rewrite Z.eqb_refl. Qed.

(** Equal in the first [n] characters. *)
Lemma strncmp_zero s1 s2 n :
  c_string s1 -> c_string s2 -> strncmp s1 s2 n = 0 <-> take n s1 = take n s2.
Proof.
  intros H1. revert s2 n. induction H1 as [|c s1 Hc H1 IH]; intros s2 n H2; (destruct n as [|n]; [done|]);
    (destruct H2 as [|d s2 Hd H2]; cbn; [try done; by split; [lia|]|try (split; [lia|done])]).
  destruct (Z.eqb_spec (ord c) (ord d)) as [E|E].
  - rewrite (IH s2 n H2). apply ord_inj in E as ->. split; [by intros ->|by intros [= ->]].
  - split; [lia|]. by intros [= ->].
Qed.

Lemma token_cmp_take key t : token_cmp (take TOKMAXLEN key) t = token_cmp key t.
Proof. unfold token_cmp. rewrite strncmp_take. by destruct key. Qed.

Lemma datebsearch_loop_take fuel key tbl base last :
  datebsearch_loop fuel (take TOKMAXLEN key) tbl base last = datebsearch_loop fuel key tbl base last.
Proof.
  revert base last. induction fuel as [|fuel IH]; intros base last; [done|]. cbn [datebsearch_loop].
  destruct (_ <? _); [done|]. destruct (tbl !! _); [|done]. by rewrite token_cmp_take, !IH.
Qed.

Lemma datebsearch_loop_sound fuel key tbl base last t :
  datebsearch_loop fuel key tbl base last = Some t -> t ∈ tbl /\ token_cmp key t = 0.
Proof.
  revert base last. induction fuel as [|fuel IH]; intros base last; [done|]. cbn [datebsearch_loop].
  destruct (_ <? _); [done|]. destruct (tbl !! _) as [u|] eqn:E; [|done].
  destruct (Z.eqb_spec (token_cmp key u) 0) as [H|H].
  - intros [= <-]. split; [|done]. by eapply list_elem_of_lookup_2.
  - destruct (_ <? _); apply IH.
Qed.

(** What the search needs of its table: every token is found, is a C string and
    has between one and ten characters. *)
Definition token_ok (tbl : list datetkn) (t : datetkn) : bool :=
  bool_decide (datebsearch (token t) tbl = Some t) && (length (token t) <=? TOKMAXLEN)%nat &&
  forallb (fun c => 0 <? ord c) (token t) && negb (bool_decide (token t = [])).

Lemma datebsearch_spec tbl key t :
  forallb (token_ok tbl) tbl = true -> c_string key ->
  datebsearch key tbl = Some t <-> t ∈ tbl /\ strncmp key (token t) TOKMAXLEN = 0.
Proof.
  intros Htbl Hkey. split.
  - intros [Ht Hc]%datebsearch_loop_sound. split; [done|]. unfold token_cmp in Hc.
    destruct (Z.eqb_spec (char_int key - char_int (token t)) 0); [done|lia].
  - intros [Ht Hc]. rewrite forallb_forall in Htbl. apply list_elem_of_In in Ht. specialize (Htbl t Ht).
    unfold token_ok in Htbl. apply andb_true_iff in Htbl as [[[Hf _]%andb_true_iff Hz]%andb_true_iff _].
    assert (Hct : c_string (token t)).
    { apply Forall_forall. intros c Hin. rewrite forallb_forall in Hz. specialize (Hz c Hin). lia. }
    apply strncmp_zero in Hc; [|done|done]. unfold datebsearch in *.
    rewrite <- datebsearch_loop_take, Hc, datebsearch_loop_take. by apply bool_decide_eq_true_1 in Hf.
Qed.

Lemma deltatktbl_ok : forallb (token_ok deltatktbl) deltatktbl = true.
Proof. by vm_compute. Qed.

Lemma datetktbl_ok : forallb (token_ok datetktbl) datetktbl = true.
Proof. by vm_compute. Qed.

(** The cache changes no answer. *)
Lemma DecodeUnits_cache t w :
  t ∈ deltatktbl -> c_string w -> DecodeUnits (Some t) w = DecodeUnits None w.
Proof.
  intros Ht Hw. unfold DecodeUnits. destruct (Z.eqb_spec (strncmp w (token t) TOKMAXLEN) 0) as [E|E]; [|done].
  assert (datebsearch w deltatktbl = Some t) as ->; [|done]. by apply datebsearch_spec; [apply deltatktbl_ok|..].
Qed.

(** ** The fields *)

Lemma take_run_length p s : (length (take_run p s).1 + length (take_run p s).2)%nat = length s.
Proof. rewrite <- length_app. by destruct (take_run_concat p s) as [-> _]. Qed.

Section Fields.

Context (cc : char_class) (lc : ctype).

(** Name the parts of a run, with their lengths. *)
Ltac run p s :=
  let H := fresh "Hrun" in
  pose proof (take_run_length p s) as H; destruct (take_run p s) as [? ?]; cbn [fst snd] in *.

(** A field takes at least its first character. *)
Lemma digit_field_shorter c s ty text rest :
  isdigit c = true -> digit_field cc lc (c :: s) = (ty, text, rest) -> (length rest <= length s)%nat /\ text <> [].
Proof.
  intros Hc. unfold digit_field. cbn [take_run]. rewrite Hc. run isdigit s.
  destruct l0 as [|delim r1]; [intros [= <- <- <-]; cbn in *; split; [lia|done]|]. cbn [length] in *.
  destruct (is_char ":" delim).
  { run (fun c => isdigit c || is_char ":" c || is_char "." c) r1. intros [= <- <- <-]. split; [lia|done]. }
  destruct (_ || _); [|intros [= <- <- <-]; cbn; split; [lia|done]].
  destruct (match r1 with [] => _ | _ => _ end).
  - run isdigit r1. destruct l1 as [|d r3]; [intros [= <- <- <-]; cbn in *; split; [lia|done]|]. cbn [length] in *.
    destruct (is_char delim d); [|intros [= <- <- <-]; cbn in *; split; [lia|done]].
    run (fun c => isdigit c || is_char delim c) r3. intros [= <- <- <-]. split; [lia|done].
  - run (fun c => isalnum cc c || is_char delim c) r1. intros [= <- <- <-]. split; [lia|done].
Qed.

Lemma alpha_field_shorter c s ty text rest :
  isalpha cc c = true -> alpha_field cc lc (c :: s) = (ty, text, rest) -> (length rest <= length s)%nat /\ text <> [].
Proof.
  intros Hc. unfold alpha_field. cbn [take_run]. rewrite Hc. run (isalpha cc) s.
  destruct l0 as [|d r1]; [intros [= <- <- <-]; cbn in *; split; [lia|done]|]. cbn [length] in *.
  match goal with |- (if ?b then _ else _) = _ -> _ => destruct b end;
    [|intros [= <- <- <-]; cbn in *; split; [lia|done]].
  run (date_char cc) r1. intros [= <- <- <-]. split; [lia|done].
Qed.

Lemma next_field_shorter c s ty text rest :
  next_field cc lc c s = Some (ty, text, rest) -> (length rest <= length s)%nat /\ text <> [].
Proof.
  unfold next_field. destruct (isdigit c) eqn:Ed.
  { intros [= H]. by apply (digit_field_shorter c s ty text rest Ed). }
  destruct (is_char "." c).
  { unfold point_field. run isdigit s. intros [= <- <- <-]. split; [lia|done]. }
  destruct (isalpha cc c) eqn:Ea.
  { intros [= H]. by apply (alpha_field_shorter c s ty text rest Ea). }
  destruct (_ || _); [|done]. unfold sign_field. run (isspace cc) s. destruct l0 as [|d r]; [done|]. destruct (isdigit d).
  { run (fun c => isdigit c || is_char ":" c || is_char "." c || is_char "-" c) (d :: r). intros [= <- <- <-]. split; [lia|done]. }
  destruct (isalpha cc d); [|done]. run (isalpha cc) (d :: r). intros [= <- <- <-]. split; [lia|done].
Qed.

(** The buffer space of fields, with their terminators. *)
Definition fields_size (fs : list (Z * bytes)) : nat := sum_list_with (fun f => S (length f.2)) fs.

(** [ParseDateTime] ends; its fields are not empty and fit the arrays. *)
Lemma parse_fields_total fuel buflen used maxfields nf s :
  (length s <= fuel)%nat ->
  match parse_fields cc lc fuel buflen used maxfields nf s with
  | DtErr e => e = DTERR_BAD_FORMAT
  | DtOk fs => (nf <= maxfields -> nf + length fs <= maxfields)%nat /\
               (used <= buflen -> used + fields_size fs <= buflen)%nat /\ Forall (fun f => f.2 <> []) fs
  end.
Proof.
  revert used nf s. induction fuel as [|fuel IH]; intros used nf s Hl; destruct s as [|c s]; cbn in Hl; try lia.
  1,2: cbn; split_and!; [lia|lia|done]. cbn [parse_fields].
  destruct (isspace cc c); [apply IH; lia|]. destruct (Nat.leb_spec maxfields nf); [done|].
  destruct (_ || _); [|destruct (ispunct cc c); [apply IH; lia|done]].
  destruct (next_field cc lc c s) as [[[ty text] rest]|] eqn:En; [|done].
  apply next_field_shorter in En as [Hr Ht]. destruct (Nat.leb_spec buflen (used + length text)); [done|].
  specialize (IH (used + length text + 1)%nat (S nf) rest ltac:(lia)). cbn [mbind dt_bind].
  destruct (parse_fields _ _ _ _ _ _ _ rest) as [fs|e]; cbn [mbind dt_bind]; [|done].
  destruct IH as (H1 & H2 & H3). unfold fields_size in *. cbn [sum_list_with length snd].
  split_and!; [lia|lia|by constructor].
Qed.

End Fields.

Lemma ParseDateTime_total cc lc s buflen maxfields :
  match ParseDateTime cc lc s buflen maxfields with
  | DtErr e => e = DTERR_BAD_FORMAT
  | DtOk fs => (length fs <= maxfields)%nat /\ (fields_size fs <= buflen)%nat /\ Forall (fun f => f.2 <> []) fs
  end.
Proof.
  pose proof (parse_fields_total cc lc (length s) buflen 0 maxfields 0 s (le_n _)) as H. unfold ParseDateTime.
  destruct (parse_fields _ _ _ _ _ _ _ _); [|done]. destruct H as (H1 & H2 & H3). split_and!; [lia|lia|done].
Qed.
