(* ===== verification/FloatText.v ===== *)
(** * Doubles from decimal text

    [rint] and the error of reading a decimal fraction: the microseconds of a
    fraction of a second survive [rint(strtod(s) * 1000000)]. *)

From S2P Require Import Prelude Float8 CText.

(** [rint], rounding halves to even. *)
Definition rint (x : float8) : float8 :=
  match x with
  | S754_finite s m e =>
      if 0 <=? e then x
      else
        let d := 2 ^ (- e) in
        let q := Z.pos m / d in
        let r := Z.pos m mod d in
        let z := if (2 * r <? d) || ((2 * r =? d) && Z.even q) then q else q + 1 in
        binary_normalize 53 1024 (if s then - z else z) 0 s
  | _ => x
  end.

Definition f_is_zero (x : float8) : bool := SFeqb x (S754_zero false).

(** ** Integers as doubles *)

Lemma of_int_le a b : Z.abs a < 2 ^ 53 -> Z.abs b < 2 ^ 53 -> f_le (of_int a) (of_int b) = (a <=? b).
Proof. intros. unfold f_le, SFleb. rewrite of_int_compare by done. unfold Z.leb. by destruct (a ?= b). Qed.

Lemma of_int_is_zero a : Z.abs a < 2 ^ 53 -> f_is_zero (of_int a) = (a =? 0).
Proof.
  intros Ha. unfold f_is_zero, SFeqb. change (S754_zero false) with (of_int 0). rewrite of_int_compare by (done || lia).
  unfold Z.eqb. by destruct a.
Qed.

(** The double is the integer, up to the sign of a zero. *)
Definition float_value (z : Z) (x : float8) : Prop := x = of_int z \/ (z = 0 /\ exists s, x = S754_zero s).

Lemma float_value_zero x : float_value 0 x -> exists s, x = S754_zero s.
Proof. intros [->|[_ H]]; [by exists false|done]. Qed.

(** The product as a double, up to the sign of a zero. *)
Lemma of_int_mul_value a b :
  Z.abs (a * b) < 2 ^ 53 -> Z.abs a < 2 ^ 53 -> Z.abs b < 2 ^ 53 ->
  float_value (a * b) (f_mul (of_int a) (of_int b)).
Proof.
  intros Hab Ha Hb. destruct (decide (a = 0)) as [->|Ha0].
  { right. split; [lia|]. destruct (decide (b = 0)) as [->|Hb0]; [by eexists|].
    destruct (of_int_nonzero b Hb0 Hb) as (q & _ & ->). by eexists. }
  destruct (decide (b = 0)) as [->|Hb0].
  { right. split; [lia|]. destruct (of_int_nonzero a Ha0 Ha) as (q & _ & ->). by eexists. }
  left. by apply of_int_mul.
Qed.

(** ** Rounding errors

    The result of rounding is within one unit in the last place; that is enough
    here, although to nearest it is half a unit. *)

Lemma shr_1_m r : 0 <= shr_m r -> shr_m (shr_1 r) = shr_m r / 2 /\ 0 <= shr_m (shr_1 r).
Proof.
  destruct r as [m rb sb]. cbn [shr_m]. intros Hm. destruct m as [|[p|p|]|p]; [done| | |done|lia]; cbn [shr_1 shr_m].
  - rewrite (Pos2Z.inj_xI p). lia.
  - rewrite (Pos2Z.inj_xO p). lia.
Qed.

Lemma iter_shr_m n r : 0 <= shr_m r -> shr_m (SpecFloat.iter_pos shr_1 n r) = shr_m r / 2 ^ Z.pos n /\ 0 <= shr_m (SpecFloat.iter_pos shr_1 n r).
Proof.
  revert r. induction n as [n IH|n IH|]; intros r Hr; cbn [SpecFloat.iter_pos];
    try (assert (0 < 2 ^ Z.pos n) by (apply Z.pow_pos_nonneg; lia)).
  - destruct (shr_1_m r Hr) as [E0 P0]. destruct (IH _ P0) as [E1 P1]. destruct (IH _ P1) as [E2 P2]. split; [|done].
    rewrite E2, E1, E0, !Z.div_div by lia.
    f_equal. replace (Z.pos n~1) with (1 + Z.pos n + Z.pos n) by lia. rewrite !Z.pow_add_r by lia. lia.
  - destruct (IH _ Hr) as [E1 P1]. destruct (IH _ P1) as [E2 P2]. split; [|done].
    rewrite E2, E1, !Z.div_div by lia.
    f_equal. replace (Z.pos n~0) with (Z.pos n + Z.pos n) by lia. rewrite !Z.pow_add_r by lia. lia.
  - by apply shr_1_m.
Qed.

Lemma shr_record_m m l : shr_m (shr_record_of_loc m l) = m.
Proof. by destruct l as [|[]]. Qed.

(** A first shift leaves 53 bits. *)
Lemma shr_fexp_bits m e l :
  53 <= ndigits m -> -1074 <= e + (ndigits m - 53) ->
  exists rec, shr_fexp 53 1024 (Z.pos m) e l = (rec, e + (ndigits m - 53)) /\
    shr_m rec = Z.pos m / 2 ^ (ndigits m - 53) /\ 2 ^ 52 <= shr_m rec < 2 ^ 53.
Proof.
  intros Hn He. set (k := ndigits m - 53) in *. destruct (ndigits_spec m) as (_ & Hl & Hh).
  unfold shr_fexp. change (Zdigits2 (Z.pos m)) with (ndigits m). rewrite fexp_normal by lia.
  replace (ndigits m + e - 53 - e) with k by lia.
  assert (Hrange : 2 ^ 52 <= Z.pos m / 2 ^ k < 2 ^ 53).
  { assert (0 < 2 ^ k) by (apply Z.pow_pos_nonneg; lia). split.
    - apply Z.div_le_lower_bound; [done|]. rewrite <- Z.pow_add_r by lia. replace (k + 52) with (ndigits m - 1) by lia. done.
    - apply Z.div_lt_upper_bound; [done|]. rewrite <- Z.pow_add_r by lia. replace (k + 53) with (ndigits m) by lia. done. }
  destruct k as [|n|n] eqn:Ek; [| |lia].
  - exists (shr_record_of_loc (Z.pos m) l). cbn [shr]. rewrite Z.add_0_r, shr_record_m. split; [done|].
    change (2 ^ 0) with 1 in *. rewrite Z.div_1_r in *. done.
  - exists (SpecFloat.iter_pos shr_1 n (shr_record_of_loc (Z.pos m) l)). cbn [shr]. split; [done|].
    destruct (iter_shr_m n (shr_record_of_loc (Z.pos m) l)) as [E _]; [rewrite shr_record_m; lia|].
    rewrite E, shr_record_m. done.
Qed.

Lemma round_even_near m l : m <= round_nearest_even m l <= m + 1.
Proof. destruct l as [|[]]; cbn; [lia|destruct (Z.even m); lia|lia|lia]. Qed.

(** The second shift of rounding: 53 bits stay, and [2^53] becomes [2^52]. *)
Lemma shr_fexp_second q e :
  2 ^ 52 <= q <= 2 ^ 53 -> -1074 <= e ->
  exists w rec ew, shr_fexp 53 1024 q e loc_Exact = (rec, ew) /\ shr_m rec = Z.pos w /\ ndigits w = 53 /\
    e <= ew <= e + 1 /\ Z.pos w * 2 ^ (ew - e) = q.
Proof.
  intros Hq He. destruct q as [|p|p]; [lia| |lia]. destruct (decide (Z.pos p = 2 ^ 53)) as [E|E].
  - assert (ndigits p = 54) as Hd by (apply ndigits_unique; lia). exists (Z.to_pos (2 ^ 52)).
    unfold shr_fexp. change (Zdigits2 (Z.pos p)) with (ndigits p). rewrite Hd, fexp_normal by lia.
    replace (54 + e - 53 - e) with 1 by lia. rewrite E. eexists _, (e + 1). split; [done|]. split; [done|]. split; [done|].
    split; [lia|]. by replace (e + 1 - e) with 1 by lia.
  - assert (ndigits p = 53) as Hd by (apply ndigits_unique; lia). exists p. eexists _, e.
    split; [by apply shr_fexp_full|]. split; [done|]. split; [done|]. split; [lia|]. rewrite Z.sub_diag. lia.
Qed.

Lemma round_bound s m e l :
  53 <= ndigits m -> -1074 <= e + (ndigits m - 53) -> e + ndigits m <= 1023 ->
  exists w ew, binary_round_aux 53 1024 s (Z.pos m) e l = S754_finite s w ew /\ ndigits w = 53 /\
    e <= ew <= e + (ndigits m - 53) + 1 /\ Z.abs (Z.pos w * 2 ^ (ew - e) - Z.pos m) <= 2 ^ (ndigits m - 53).
Proof.
  intros Hn He He'. destruct (shr_fexp_bits m e l Hn He) as (rec & E1 & Em & Hr). set (k := ndigits m - 53) in *.
  unfold binary_round_aux. rewrite E1. set (q := round_nearest_even (shr_m rec) (loc_of_shr_record rec)).
  pose proof (round_even_near (shr_m rec) (loc_of_shr_record rec)) as Hq. fold q in Hq.
  destruct (shr_fexp_second q (e + k) ltac:(lia) ltac:(lia)) as (w & rec2 & ew & E2 & Ew & Hdw & Hew & Hv).
  rewrite E2, Ew. exists w, ew. destruct (Z.leb_spec ew (1024 - 53)); [|lia]. split; [done|]. split; [done|]. split; [lia|].
  replace (ew - e) with (ew - (e + k) + k) by lia. rewrite Z.pow_add_r, Z.mul_assoc, Hv by lia.
  assert (0 < 2 ^ k) by (apply Z.pow_pos_nonneg; lia).
  pose proof (Z.div_mod (Z.pos m) (2 ^ k) ltac:(lia)). pose proof (Z.mod_pos_bound (Z.pos m) (2 ^ k) ltac:(lia)).
  rewrite Em in Hq. nia.
Qed.

(** ** Decimal fractions *)

(** The quotient that [SFdiv] rounds. *)
Lemma div_core p m2 :
  Z.pos p < Z.pos m2 -> ndigits m2 <= 40 ->
  let s := 53 + ndigits m2 - ndigits p in
  exists q l, SFdiv_core_binary 53 1024 (Z.pos p) 0 (Z.pos m2) 0 = (Z.pos q, - s, l) /\
    53 <= s <= 92 /\ 53 <= ndigits q <= 54 /\ 0 <= Z.pos p * 2 ^ s - Z.pos q * Z.pos m2 < Z.pos m2.
Proof.
  intros Hp Hd s. destruct (ndigits_spec p) as (L1 & A1 & B1). destruct (ndigits_spec m2) as (L2 & A2 & B2).
  assert (Hdd : ndigits p <= ndigits m2) by (apply ndigits_le; [lia|]; lia).
  unfold SFdiv_core_binary. change (Zdigits2 (Z.pos p)) with (ndigits p). change (Zdigits2 (Z.pos m2)) with (ndigits m2).
  rewrite !Z.add_0_r, fexp_normal by lia. replace (Z.min _ (0 - 0)) with (- s) by lia. replace (0 - 0 - - s) with s by lia.
  destruct s as [|ps|ps] eqn:Es; try lia. rewrite Z.shiftl_mul_pow2 by lia. rewrite <- Es.
  assert (Hs : 2 ^ s = 2 ^ (53 - ndigits p) * 2 ^ ndigits m2 \/ 53 - ndigits p < 0).
  { destruct (Z.leb_spec 0 (53 - ndigits p)); [left|by right]. rewrite <- Z.pow_add_r by lia. f_equal. lia. }
  assert (Hlow : 2 ^ (52 + ndigits m2) <= Z.pos p * 2 ^ s).
  { replace (52 + ndigits m2) with (ndigits p - 1 + s) by lia. rewrite Z.pow_add_r by lia.
    apply Z.mul_le_mono_nonneg_r; [apply Z.pow_nonneg; lia|done]. }
  assert (Hhigh : Z.pos p * 2 ^ s < 2 ^ (53 + ndigits m2)).
  { replace (53 + ndigits m2) with (ndigits p + s) by lia. rewrite Z.pow_add_r by lia.
    apply Z.mul_lt_mono_pos_r; [apply Z.pow_pos_nonneg; lia|done]. }
  pose proof (Z_div_mod (Z.pos p * 2 ^ s) (Z.pos m2) ltac:(lia)) as Hdm. destruct (Z.div_eucl _ _) as [q r]. destruct Hdm as [Eq Hr].
  assert (Hq1 : 2 ^ 52 <= q).
  { rewrite Z.pow_add_r in Hlow by lia. assert (2 ^ 52 * Z.pos m2 <= Z.pos m2 * q + r) by nia. nia. }
  assert (Hq2 : q < 2 ^ 54).
  { replace (53 + ndigits m2) with (54 + (ndigits m2 - 1)) in Hhigh by lia. rewrite Z.pow_add_r in Hhigh by lia.
    assert (q * Z.pos m2 < 2 ^ 54 * Z.pos m2) by nia. nia. }
  destruct q as [|q|q]; [lia| |lia]. eexists q, _. split; [done|]. split; [lia|]. split; [|lia].
  split; [|by apply ndigits_le; lia]. destruct (ndigits_spec q) as (H1 & _ & Hb).
  assert (52 < ndigits q); [|lia]. apply (Z.pow_lt_mono_r_iff 2); lia.
Qed.

Lemma pow10_digits L : 0 < L <= 9 -> exists m, 10 ^ L = Z.pos m /\ ndigits m <= 40.
Proof.
  intros HL. assert (Hp : 0 < 10 ^ L) by (apply Z.pow_pos_nonneg; lia).
  exists (Z.to_pos (10 ^ L)). rewrite Z2Pos.id by done. split; [done|]. apply ndigits_le; [lia|]. rewrite Z2Pos.id by done.
  assert (10 ^ L <= 10 ^ 9) by (apply Z.pow_le_mono_r; lia). lia.
Qed.

(** The double read from [p / 10^L] is near it. *)
Lemma decimal_float_near p L :
  0 < L <= 9 -> Z.pos p < 10 ^ L ->
  exists w ew s, decimal_float (Z.pos p) (- L) = S754_finite false w ew /\ ndigits w = 53 /\ 53 <= s <= 92 /\
    - s <= ew <= - s + 2 /\ Z.abs (Z.pos w * 2 ^ (ew + s) * 10 ^ L - Z.pos p * 2 ^ s) <= 3 * 10 ^ L.
Proof.
  intros HL Hp. destruct (pow10_digits L HL) as (m2 & Em & Hd). rewrite Em in *.
  unfold decimal_float. destruct (Z.leb_spec 0 (- L)); [lia|]. rewrite Z.opp_involutive, Em. cbn [Z.to_pos SFdiv].
  destruct (div_core p m2 Hp Hd) as (q & l & -> & Hs & Hq & Hr). set (s := 53 + ndigits m2 - ndigits p) in *.
  destruct (round_bound false q (- s) l) as (w & ew & E & Hw & Hew & Hb); [lia|lia|lia|].
  exists w, ew, s. cbn [xorb]. split; [done|]. split; [done|]. split; [lia|]. split; [lia|].
  replace (ew - - s) with (ew + s) in Hb by lia. set (W := Z.pos w * 2 ^ (ew + s)) in *.
  assert (2 ^ (ndigits q - 53) <= 2 ^ 1) by (apply Z.pow_le_mono_r; lia).
  assert (Z.abs (W - Z.pos q) <= 2) by lia. nia.
Qed.

(** A double within less than half of an integer rounds to it. *)
Lemma rint_near w e f :
  e < 0 -> 0 < f < 2 ^ 52 -> 2 * Z.abs (Z.pos w - f * 2 ^ (- e)) < 2 ^ (- e) ->
  rint (S754_finite false w e) = of_int f.
Proof.
  intros He Hf Hn. unfold rint. destruct (Z.leb_spec 0 e); [lia|]. set (d := 2 ^ (- e)) in *.
  assert (Hd : 0 < d) by (apply Z.pow_pos_nonneg; lia).
  pose proof (Z.div_mod (Z.pos w) d ltac:(lia)) as Hdm. pose proof (Z.mod_pos_bound (Z.pos w) d Hd) as Hr.
  set (q := Z.pos w / d) in *. set (r := Z.pos w mod d) in *.
  assert (Hz : (if (2 * r <? d) || ((2 * r =? d) && Z.even q) then q else q + 1) = f); [|by rewrite Hz].
  destruct (Z.leb_spec (f * d) (Z.pos w)).
  - assert (q = f) by nia. destruct (Z.ltb_spec (2 * r) d); [done|]. nia.
  - assert (q = f - 1) by nia. destruct (Z.ltb_spec (2 * r) d); [nia|]. destruct (Z.eqb_spec (2 * r) d); [nia|]. cbn. lia.
Qed.

(** The product with a million. *)
Lemma mul_million w ew :
  ndigits w = 53 -> -200 <= ew <= 100 ->
  exists w2 e2, f_mul (S754_finite false w ew) (of_int 1000000) = S754_finite false w2 e2 /\
    ew - 33 <= e2 <= ew + 21 /\
    Z.abs (Z.pos w2 * 2 ^ (e2 - (ew - 33)) - Z.pos w * (1000000 * 2 ^ 33)) <= 2 ^ 53.
Proof.
  intros Hw He. change (of_int 1000000) with (S754_finite false 8589934592000000 (-33)).
  unfold f_mul. cbn [SFmul xorb]. remember 8589934592000000%positive as my eqn:Emy.
  assert (Hmy : Z.pos my = 1000000 * 2 ^ 33) by (by rewrite Emy). clear Emy.
  destruct (ndigits_spec w) as (_ & Hl & Hh). rewrite Hw in Hl, Hh.
  assert (Hd : 105 <= ndigits (w * my) <= 106).
  { destruct (ndigits_spec (w * my)) as (H0 & H1 & H2). rewrite Pos2Z.inj_mul, Hmy in H1, H2. split.
    - assert (104 < ndigits (w * my)); [|lia]. apply (Z.pow_lt_mono_r_iff 2); lia.
    - assert (ndigits (w * my) - 1 < 106); [|lia]. apply (Z.pow_lt_mono_r_iff 2); lia. }
  destruct (round_bound false (w * my) (ew + -33) loc_Exact) as (w2 & e2 & E & _ & Hew & Hb); [lia|lia|lia|].
  exists w2, e2. split; [exact E|]. split; [lia|]. replace (ew - 33) with (ew + -33) by lia.
  rewrite Pos2Z.inj_mul, Hmy in Hb.
  assert (2 ^ (ndigits (w * my) - 53) <= 2 ^ 53) by (apply Z.pow_le_mono_r; lia). lia.
Qed.

(** The two errors together stay below half a unit. *)
Lemma scaled_near w w2 f D K E G S :
  D * K = E -> E * G = 2 ^ 33 * S -> 0 < K -> 0 < G <= 4 -> 2 ^ 53 <= S ->
  Z.abs (w2 * K - w * (1000000 * 2 ^ 33)) <= 2 ^ 53 -> Z.abs (w * G * 1000000 - f * S) <= 3000000 ->
  2 * Z.abs (w2 - f * D) < D.
Proof.
  intros HD HE HK HG HS Hb HW. apply (Z.mul_lt_mono_pos_r (K * G)); [apply Z.mul_pos_pos; lia|].
  replace (D * (K * G)) with (2 ^ 33 * S) by (rewrite <- HE, <- HD; ring).
  set (u := w2 * K - w * (1000000 * 2 ^ 33)) in *. set (v := w * G * 1000000 - f * S) in *.
  assert (HX : (w2 - f * D) * (K * G) = u * G + 2 ^ 33 * v).
  { unfold u, v. transitivity (w2 * K * G - f * (D * K * G)); [ring|]. rewrite HD, HE. ring. }
  assert (Hu : Z.abs (u * G) <= 2 ^ 53 * 4) by (rewrite Z.abs_mul; apply Z.mul_le_mono_nonneg; lia).
  replace (2 * Z.abs (w2 - f * D) * (K * G)) with (2 * Z.abs ((w2 - f * D) * (K * G))).
  - rewrite HX. clearbody u v. lia.
  - rewrite Z.abs_mul, (Z.abs_eq (K * G)); [ring|]. apply Z.mul_nonneg_nonneg; lia.
Qed.

(** Microseconds survive the reading of a fraction of a second. *)
Lemma fraction_microseconds p L f :
  0 < L <= 9 -> Z.pos p < 10 ^ L -> Z.pos p * 1000000 = f * 10 ^ L ->
  to_int32 (rint (f_mul (decimal_float (Z.pos p) (- L)) (of_int 1000000))) = Some f.
Proof.
  intros HL Hp Hf. destruct (decimal_float_near p L HL Hp) as (w & ew & s & -> & Hw & Hs & Hew & Hn).
  assert (H10 : 0 < 10 ^ L) by (apply Z.pow_pos_nonneg; lia).
  set (T := 10 ^ L) in *. clearbody T.
  assert (Hf6 : 0 < f < 1000000) by (clear Hn; nia).
  destruct (mul_million w ew Hw ltac:(lia)) as (w2 & e2 & -> & He2 & Hb).
  rewrite (rint_near w2 e2 f); [|lia|lia|].
  - unfold to_int32. rewrite of_int_trunc by (clear Hn Hb; lia). rewrite bool_decide_eq_true_2; [done|].
    unfold is_int32, INT_MIN, INT_MAX. clear Hn Hb. lia.
  - apply (scaled_near (Z.pos w) (Z.pos w2) f (2 ^ (- e2)) (2 ^ (e2 - (ew - 33))) (2 ^ (33 - ew)) (2 ^ (ew + s)) (2 ^ s)).
    + rewrite <- Z.pow_add_r by lia. f_equal. lia.
    + rewrite <- !Z.pow_add_r by lia. f_equal. lia.
    + apply Z.pow_pos_nonneg; lia.
    + split; [apply Z.pow_pos_nonneg; lia|]. change 4 with (2 ^ 2). apply Z.pow_le_mono_r; lia.
    + apply Z.pow_le_mono_r; lia.
    + done.
    + set (W := Z.pos w * 2 ^ (ew + s)) in *. set (S := 2 ^ s) in *. clearbody W S.
      assert (HE : (W * 1000000 - f * S) * T = 1000000 * (W * T - Z.pos p * S)).
      { transitivity (W * 1000000 * T - (f * T) * S); [ring|]. rewrite <- Hf. ring. }
      assert (HA : Z.abs (W * 1000000 - f * S) * T <= 3000000 * T).
      { rewrite <- (Z.abs_eq T) at 1 by lia. rewrite <- Z.abs_mul, HE, Z.abs_mul. lia. }
      apply (Z.mul_le_mono_pos_r _ _ T); lia.
Qed.

(** ** Operations that keep an integer *)

Lemma of_int_div_value a b :
  b <> 0 -> Z.abs (a * b) < 2 ^ 53 -> Z.abs b < 2 ^ 53 -> float_value a (f_div (of_int (a * b)) (of_int b)).
Proof.
  intros Hb Hab Hb53. destruct (decide (a = 0)) as [->|Ha]; [|left; by apply of_int_div].
  right. split; [done|]. destruct (of_int_nonzero b Hb Hb53) as (p & _ & ->). by eexists.
Qed.

Lemma rint_int z : Z.abs z < 2 ^ 53 -> rint (of_int z) = of_int z.
Proof.
  intros Hz. destruct (decide (z = 0)) as [->|Hne]; [done|]. destruct (of_int_nonzero z Hne Hz) as (p & Ep & E).
  rewrite E at 1. pose proof (ndigits_le p 53 ltac:(lia) ltac:(lia)) as Hd. destruct (ndigits_spec p) as (Hl & _).
  unfold int_float. cbn [rint]. destruct (Z.leb_spec 0 (ndigits p - 53)).
  - by rewrite E.
  - rewrite Z2Pos.id by (apply Z.mul_pos_pos; [lia|apply Z.pow_pos_nonneg; lia]).
    replace (- (ndigits p - 53)) with (53 - ndigits p) by lia.
    assert (H2 : 0 < 2 ^ (53 - ndigits p)) by (apply Z.pow_pos_nonneg; lia).
    rewrite Z.div_mul, Z.mod_mul by lia. destruct (Z.ltb_spec (2 * 0) (2 ^ (53 - ndigits p))); [|lia]. cbn [orb].
    unfold of_int. destruct (Z.ltb_spec z 0); [replace z with (Z.neg p) by lia|replace z with (Z.pos p) by lia]; done.
Qed.

Lemma float_value_rint z x : Z.abs z < 2 ^ 53 -> float_value z x -> float_value z (rint x).
Proof.
  intros Hz [->|(-> & s & ->)]; [left; by apply rint_int|]. right. split; [done|]. by exists s.
Qed.

Lemma float_value_sub_self z x : Z.abs z < 2 ^ 53 -> float_value z x -> float_value 0 (f_sub x (of_int z)).
Proof.
  intros Hz [->|(-> & s & ->)]; right; (split; [done|]); [eexists; by apply of_int_sub_self|]. by destruct s; eexists.
Qed.

Lemma float_value_add_zero z x y : Z.abs z < 2 ^ 53 -> float_value z x -> float_value 0 y -> float_value z (f_add x y).
Proof.
  intros Hz Hx (s & ->)%float_value_zero. destruct (decide (z = 0)) as [->|Hne].
  - apply float_value_zero in Hx as (s' & ->). right. split; [done|]. by destruct s, s'; eexists.
  - destruct Hx as [->|(? & _)]; [|done]. left. by destruct (of_int_nonzero z Hne Hz) as (p & _ & ->).
Qed.

Lemma float_value_zero_mul z x : Z.abs z < 2 ^ 53 -> float_value 0 x -> float_value 0 (f_mul x (of_int z)).
Proof.
  intros Hz (s & ->)%float_value_zero. right. split; [done|]. destruct (decide (z = 0)) as [->|Hne]; [by eexists|].
  destruct (of_int_nonzero z Hne Hz) as (p & _ & ->). by eexists.
Qed.
