(* ===== verification/IntervalDecode.v ===== *)
(** * Oracle interval types: decoding text

    The routines that [contrib/ivorysql_ora/src/datatype/dsinterval.c] and
    [yminterval.c] share (each file has its own copy): reading a time of day,
    adding a number with its unit to the broken-down interval, the ISO 8601 form,
    and the conversion between broken-down intervals and the type [Interval].

    A field of the broken-down interval that the text does not set is [INT_MAX],
    as in the code. Sums of C ints wrap; a double that does not fit an int is
    [DT_UNDEFINED]. *)

From S2P Require Import Prelude Timestamp Float8 CText FloatText OraDate OraInterval HashFn DateTokens.

Definition DAYS_PER_MONTH : Z := 30.
Definition SECS_PER_HOUR : Z := 3600.
Definition SECS_PER_MINUTE : Z := 60.
Definition ORACLE_MAX_INTERVAL_PRECISION : Z := 9.
Definition MAX_INTERVAL_PRECISION : Z := 6.

(** [struct tm] and the fraction of a second, in microseconds. *)
Record itm := mk_itm {
  it_year : Z; it_mon : Z; it_mday : Z; it_hour : Z; it_min : Z; it_sec : Z; it_fsec : Z
}.

Definition set_year v t := mk_itm v (it_mon t) (it_mday t) (it_hour t) (it_min t) (it_sec t) (it_fsec t).
Definition set_mon v t := mk_itm (it_year t) v (it_mday t) (it_hour t) (it_min t) (it_sec t) (it_fsec t).
Definition set_mday v t := mk_itm (it_year t) (it_mon t) v (it_hour t) (it_min t) (it_sec t) (it_fsec t).
Definition set_hour v t := mk_itm (it_year t) (it_mon t) (it_mday t) v (it_min t) (it_sec t) (it_fsec t).
Definition set_min v t := mk_itm (it_year t) (it_mon t) (it_mday t) (it_hour t) v (it_sec t) (it_fsec t).
Definition set_sec v t := mk_itm (it_year t) (it_mon t) (it_mday t) (it_hour t) (it_min t) v (it_fsec t).
Definition set_fsec v t := mk_itm (it_year t) (it_mon t) (it_mday t) (it_hour t) (it_min t) (it_sec t) v.

Definition ClearPgTm : itm := mk_itm INT_MAX INT_MAX INT_MAX INT_MAX INT_MAX INT_MAX 0.

(** [if (x == INT_MAX) x = 0;] *)
Definition or0 (z : Z) : Z := if z =? INT_MAX then 0 else z.

(** ** Typmods *)

Definition INTERVAL_MASK (b : Z) : Z := Z.shiftl 1 b.
Definition INTERVAL_FULL_RANGE : Z := 32767.
Definition INTERVAL_RANGE_MASK : Z := 32767.
Definition INTERVAL_PRECISION_MASK : Z := 65535.
Definition INTERVAL_TYPMOD (p r : Z) : Z :=
  Z.lor (Z.shiftl (Z.land r INTERVAL_RANGE_MASK) 16) (Z.land p INTERVAL_PRECISION_MASK).
Definition INTERVAL_PRECISION (t : Z) : Z := Z.land t INTERVAL_PRECISION_MASK.
Definition INTERVAL_RANGE (t : Z) : Z := Z.land (Z.shiftr t 16) INTERVAL_RANGE_MASK.

Definition YEAR_TO_MONTH : Z := Z.lor (INTERVAL_MASK YEAR) (INTERVAL_MASK MONTH).
Definition DAY_TO_HOUR : Z := Z.lor (INTERVAL_MASK DAY) (INTERVAL_MASK HOUR).
Definition DAY_TO_MINUTE : Z := Z.lor DAY_TO_HOUR (INTERVAL_MASK MINUTE).
Definition DAY_TO_SECOND : Z := Z.lor DAY_TO_MINUTE (INTERVAL_MASK SECOND).
Definition HOUR_TO_MINUTE : Z := Z.lor (INTERVAL_MASK HOUR) (INTERVAL_MASK MINUTE).
Definition HOUR_TO_SECOND : Z := Z.lor HOUR_TO_MINUTE (INTERVAL_MASK SECOND).
Definition MINUTE_TO_SECOND : Z := Z.lor (INTERVAL_MASK MINUTE) (INTERVAL_MASK SECOND).

(** ** Times of day and fractions *)

Section Decode.

Variable cc : char_class.

(** [strtoi]: its range check is under [HAVE_LONG_INT_64], which no header of the
    tree defines, so a long outside the ints wraps. *)
Definition strtoi (s : bytes) : Z * bool * bytes :=
  let '(v, erange, rest) := strtol cc s in (int32 v, erange, rest).

Definition ParseFractionalSecond (cp : bytes) : dt Z :=
  let '(frac, erange, rest) := strtod cc cp in
  match rest with
  | [] => if erange : bool then DtErr DTERR_BAD_FORMAT
          else match to_int32 (rint (f_mul frac (of_int 1000000))) with
               | Some z => DtOk z
               | None => DtErr DT_UNDEFINED
               end
  | _ => DtErr DTERR_BAD_FORMAT
  end.

(** [DecodeTime]: the error code, if any, and the fields as far as they were set.
    [sane] is the check at its end, which yminterval.c leaves out. *)
Definition DecodeTime (sane : itm -> bool) (str : bytes) (range : Z) (t : itm) : option dterr * itm :=
  let done t := if sane t then (None, t) else (Some DTERR_FIELD_OVERFLOW, t) in
  let mm_ss t := set_hour INT_MAX (set_min (it_hour t) (set_sec (it_min t) t)) in
  let '(hour, erange, cp) := strtoi str in
  let t := set_hour hour t in
  if erange : bool then (Some DTERR_FIELD_OVERFLOW, t)
  else
    match cp with
    | c1 :: cp1 =>
        if negb (is_char ":" c1) then (Some DTERR_BAD_FORMAT, t)
        else
          let '(min, erange, cp) := strtoi cp1 in
          let t := set_min min t in
          if erange : bool then (Some DTERR_FIELD_OVERFLOW, t)
          else
            match cp with
            | [] =>
                let t := set_fsec 0 (set_sec INT_MAX t) in
                done (if range =? MINUTE_TO_SECOND then mm_ss t else t)
            | c2 :: cp2 =>
                if is_char "." c2 then
                  match ParseFractionalSecond cp with
                  | DtErr e => (Some e, t)
                  | DtOk f => done (mm_ss (set_fsec f t))
                  end
                else if is_char ":" c2 then
                  let '(sec, erange, cp) := strtoi cp2 in
                  let t := set_sec sec t in
                  if erange : bool then (Some DTERR_FIELD_OVERFLOW, t)
                  else
                    match cp with
                    | [] => done (set_fsec 0 t)
                    | c3 :: _ =>
                        if is_char "." c3 then
                          match ParseFractionalSecond cp with
                          | DtErr e => (Some e, t)
                          | DtOk f => done (set_fsec f t)
                          end
                        else (Some DTERR_BAD_FORMAT, t)
                    end
                else (Some DTERR_BAD_FORMAT, t)
            end
    | [] => (Some DTERR_BAD_FORMAT, t)
    end.

(** A double added to an int field. *)
Definition int_plus (v : Z) (x : float8) : dt Z :=
  match to_int32 (f_add (of_int v) x) with
  | Some z => DtOk z
  | None => DtErr DT_UNDEFINED
  end.

Definition add_fsec (x : float8) (t : itm) : dt itm := f ← int_plus (it_fsec t) x; DtOk (set_fsec f t).

Definition add_mon (x : float8) (t : itm) : dt itm := m ← int_plus (it_mon t) x; DtOk (set_mon m t).

Definition AdjustFractSeconds (frac : float8) (scale : Z) (t : itm) : dt itm :=
  if f_is_zero frac then DtOk t
  else
    let frac := f_mul frac (of_int scale) in
    match to_int32 frac with
    | None => DtErr DT_UNDEFINED
    | Some sec =>
        let t := set_sec (int32 (or0 (it_sec t) + sec)) t in
        add_fsec (rint (f_mul (f_sub frac (of_int sec)) (of_int 1000000))) t
    end.

Definition AdjustFractDays (frac : float8) (scale : Z) (t : itm) : dt itm :=
  if f_is_zero frac then DtOk t
  else
    let frac := f_mul frac (of_int scale) in
    match to_int32 frac with
    | None => DtErr DT_UNDEFINED
    | Some extra_days =>
        let t := set_mday (int32 (or0 (it_mday t) + extra_days)) t in
        AdjustFractSeconds (f_sub frac (of_int extra_days)) SECS_PER_DAY t
    end.

(** ** Numbers with a unit *)

(** The inner switch on [type]: the type for the next field, the mask and the
    fields. [dates] is the case [DTK_DATE], which only yminterval.c has. *)
Definition apply_unit (dates : bool) (type val val2 : Z) (fval : float8) (t : itm) : dt (Z * Z * itm) :=
  let fractional := negb (f_is_zero fval) in
  let larger n mask :=
    let t := set_year (int32 (or0 (it_year t) + int32 (val * n))) t in
    t ← (if fractional
         then add_mon (f_mul (f_mul fval (of_int MONTHS_PER_YEAR)) (of_int n)) (set_mon (or0 (it_mon t)) t)
         else DtOk t);
    DtOk (type, DTK_M mask, t) in
  if type =? DTK_MICROSEC then
    t ← add_fsec (rint (f_add (of_int val) fval)) t; DtOk (type, DTK_M MICROSECOND, t)
  else if type =? DTK_MILLISEC then
    let t := set_sec (int32 (or0 (it_sec t) + Z.quot val 1000)) t in
    let val := val - Z.quot val 1000 * 1000 in
    t ← add_fsec (rint (f_mul (f_add (of_int val) fval) (of_int 1000))) t; DtOk (type, DTK_M MILLISECOND, t)
  else if type =? DTK_SECOND then
    let t := set_sec (int32 (or0 (it_sec t) + val)) t in
    t ← add_fsec (rint (f_mul fval (of_int 1000000))) t;
    DtOk (type, if fractional then DTK_ALL_SECS_M else DTK_M SECOND, t)
  else if type =? DTK_MINUTE then
    t ← AdjustFractSeconds fval SECS_PER_MINUTE (set_min (int32 (or0 (it_min t) + val)) t);
    DtOk (type, DTK_M MINUTE, t)
  else if type =? DTK_HOUR then
    t ← AdjustFractSeconds fval SECS_PER_HOUR (set_hour (int32 (or0 (it_hour t) + val)) t);
    DtOk (DTK_DAY, DTK_M HOUR, t)
  else if type =? DTK_DAY then
    t ← AdjustFractSeconds fval SECS_PER_DAY (set_mday (int32 (or0 (it_mday t) + val)) t);
    DtOk (type, DTK_M DAY, t)
  else if type =? DTK_WEEK then
    t ← AdjustFractDays fval 7 (set_mday (int32 (or0 (it_mday t) + int32 (val * 7))) t);
    DtOk (type, DTK_M WEEK, t)
  else if type =? DTK_MONTH then
    t ← AdjustFractDays fval DAYS_PER_MONTH (set_mon (int32 (or0 (it_mon t) + val)) t);
    DtOk (type, DTK_M MONTH, t)
  else if type =? DTK_YEAR then
    let t := set_year (int32 (or0 (it_year t) + val)) t in
    t ← (if fractional then add_mon (f_mul fval (of_int MONTHS_PER_YEAR)) t else DtOk t);
    DtOk (type, DTK_M YEAR, t)
  else if dates && (type =? DTK_DATE) then
    let t := set_mon (int32 (or0 (it_mon t) + val2)) (set_year (int32 (or0 (it_year t) + val)) t) in
    t ← (if fractional then add_mon (f_mul fval (of_int MONTHS_PER_YEAR)) t else DtOk t);
    DtOk (type, DTK_M MONTH, t)
  else if type =? DTK_DECADE then larger 10 DECADE
  else if type =? DTK_CENTURY then larger 100 CENTURY
  else if type =? DTK_MILLENNIUM then larger 1000 MILLENNIUM
  else DtErr DTERR_BAD_FORMAT.

(** ** The loop over the fields *)

(** The variables of the loop, which reads the fields from the last to the first. *)
Record decode_state := mk_decode {
  ds_type : Z; ds_fmask : Z; ds_before : bool; ds_dtype : Z; ds_val2 : Z; ds_tm : itm
}.

Definition first_char (s : bytes) : ascii := hd "000"%char s.

Section Loop.

(** What differs between the two files: the check of [DecodeTime], how a number
    is read, given the type and [val2], and the case [DTK_DATE]. *)
Variable sane : itm -> bool.
Variable read_number : Z -> bytes -> Z -> dt (Z * Z * Z * float8).
Variable dates : bool.
Variable range : Z.

(** [if (tmask & fmask) return DTERR_BAD_FORMAT; fmask |= tmask;] *)
Definition add_mask (type tmask : Z) (st : decode_state) (val2 : Z) (t : itm) : dt decode_state :=
  if negb (Z.land tmask (ds_fmask st) =? 0) then DtErr DTERR_BAD_FORMAT
  else DtOk (mk_decode type (Z.lor (ds_fmask st) tmask) (ds_before st) (ds_dtype st) val2 t).

Definition number_field (text : bytes) (st : decode_state) (t : itm) : dt decode_state :=
  '(type, val, val2, fval) ← read_number (ds_type st) text (ds_val2 st);
  '(type, tmask, t) ← apply_unit dates type val val2 fval t;
  add_mask type tmask st val2 t.

Definition flip_time (t : itm) : itm :=
  set_fsec (int32 (- it_fsec t)) (set_sec (int32 (- it_sec t)) (set_min (int32 (- it_min t))
    (set_hour (int32 (- it_hour t)) t))).

Definition unit_field (text : bytes) (st : decode_state) : dt decode_state :=
  let '(type, val) := DecodeUnits None text in
  if type =? IGNORE_DTF then
    DtOk (mk_decode type (ds_fmask st) (ds_before st) (ds_dtype st) (ds_val2 st) (ds_tm st))
  else if type =? UNITS then add_mask val 0 st (ds_val2 st) (ds_tm st)
  else if type =? AGO then
    add_mask val 0 (mk_decode val (ds_fmask st) true (ds_dtype st) (ds_val2 st) (ds_tm st)) (ds_val2 st) (ds_tm st)
  else if type =? RESERV then
    add_mask type (Z.lor DTK_DATE_M DTK_TIME_M)
      (mk_decode type (ds_fmask st) (ds_before st) val (ds_val2 st) (ds_tm st)) (ds_val2 st) (ds_tm st)
  else DtErr DTERR_BAD_FORMAT.

Definition decode_field (field : Z * bytes) (st : decode_state) : dt decode_state :=
  let '(ftype, text) := field in
  if ftype =? DTK_TIME then
    match DecodeTime sane text range (ds_tm st) with
    | (Some e, _) => DtErr e
    | (None, t) => add_mask DTK_DAY DTK_TIME_M st (ds_val2 st) t
    end
  else if ftype =? DTK_TZ then
    match (if existsb (is_char ":") (tail text) then DecodeTime sane (tail text) range (ds_tm st)
           else (Some DTERR_BAD_FORMAT, ds_tm st)) with
    | (None, t) =>
        add_mask DTK_DAY DTK_TIME_M st (ds_val2 st) (if is_char "-" (first_char text) then flip_time t else t)
    | (Some _, t) => number_field text st t
    end
  else if (ftype =? DTK_DATE) || (ftype =? DTK_NUMBER) then number_field text st (ds_tm st)
  else if (ftype =? DTK_STRING) || (ftype =? DTK_SPECIAL) then unit_field text st
  else DtErr DTERR_BAD_FORMAT.

Fixpoint decode_fields (rev_fields : list (Z * bytes)) (st : decode_state) : dt decode_state :=
  match rev_fields with
  | [] => DtOk st
  | f :: fs => st ← decode_field f st; decode_fields fs st
  end.

(** [if (x > 0) x = -x;] *)
Definition make_negative (z : Z) : Z := if 0 <? z then - z else z.

Definition negative_tm (t : itm) : itm :=
  mk_itm (make_negative (it_year t)) (make_negative (it_mon t)) (make_negative (it_mday t))
    (make_negative (it_hour t)) (make_negative (it_min t)) (make_negative (it_sec t)) (make_negative (it_fsec t)).

(** AGO negates everything. *)
Definition ago_tm (t : itm) : itm :=
  let neg z := int32 (- or0 z) in
  mk_itm (neg (it_year t)) (neg (it_mon t)) (neg (it_mday t)) (neg (it_hour t)) (neg (it_min t)) (neg (it_sec t))
    (int32 (- it_fsec t)).

Definition is_sign (c : ascii) : bool := is_char "-" c || is_char "+" c.

(** The body of [DecodeYminterval] and [DecodeDsinterval]: [*dtype] and the
    broken-down interval. *)
Definition DecodeFields (fields : list (Z * bytes)) : dt (Z * itm) :=
  st ← decode_fields (rev fields) (mk_decode IGNORE_DTF 0 false DTK_DELTA INT_MAX ClearPgTm);
  if ds_fmask st =? 0 then DtErr DTERR_BAD_FORMAT
  else
    let t := match fields with
             | (_, f0) :: others =>
                 if is_char "-" (first_char f0) && negb (existsb (fun f => is_sign (first_char f.2)) others)
                 then negative_tm (ds_tm st) else ds_tm st
             | [] => ds_tm st
             end in
    DtOk (ds_dtype st, if ds_before st then ago_tm t else t).

End Loop.

(** ** ISO 8601 intervals *)

Definition ora_ISO8601IntegerWidth (fieldstart : bytes) : nat :=
  length (take_run isdigit (if is_char "-" (first_char fieldstart) then tail fieldstart else fieldstart)).1.

(** The integer and the fractional part of a number, and the text after it. *)
Definition ora_ParseISO8601Number (str : bytes) : dt (Z * float8 * bytes) :=
  let c := first_char str in
  if negb (isdigit c || is_char "-" c || is_char "." c) then DtErr DTERR_BAD_FORMAT
  else
    let '(val, erange, rest) := strtod cc str in
    if (length rest =? length str)%nat || erange then DtErr DTERR_BAD_FORMAT
    else if f_lt val (of_int INT_MIN) || f_lt (of_int INT_MAX) val then DtErr DTERR_FIELD_OVERFLOW
    else
      match to_int32 val with
      | None => DtErr DT_UNDEFINED
      | Some ipart => DtOk (ipart, f_sub val (of_int ipart), rest)
      end.

Definition iso_years (val : Z) (fval : float8) (t : itm) : dt itm :=
  add_mon (rint (f_mul fval (of_int MONTHS_PER_YEAR))) (set_year (int32 (it_year t + val)) t).

Definition iso_months (val : Z) (fval : float8) (t : itm) : dt itm :=
  AdjustFractDays fval DAYS_PER_MONTH (set_mon (int32 (it_mon t + val)) t).

Definition iso_days (val : Z) (fval : float8) (t : itm) : dt itm :=
  AdjustFractSeconds fval SECS_PER_DAY (set_mday (int32 (it_mday t + val)) t).

Definition iso_hours (val : Z) (fval : float8) (t : itm) : dt itm :=
  AdjustFractSeconds fval SECS_PER_HOUR (set_hour (int32 (it_hour t + val)) t).

Definition iso_minutes (val : Z) (fval : float8) (t : itm) : dt itm :=
  AdjustFractSeconds fval SECS_PER_MINUTE (set_min (int32 (it_min t + val)) t).

Definition iso_seconds (val : Z) (fval : float8) (t : itm) : dt itm :=
  AdjustFractSeconds fval 1 (set_sec (int32 (it_sec t + val)) t).

(** What the loop does after a field: return, or go on in the date or the time
    part with the text that is left. *)
Inductive iso_next :=
  | IsoReturn (t : itm)
  | IsoContinue (datepart havefield : bool) (str : bytes) (t : itm).

Definition char_is (l : string) (unit : option ascii) : bool :=
  match unit with Some c => bool_decide (lit l = [c]) | None => false end.

(** The alternative extended date format, from its first number on. *)
Definition iso_date_extended (unit : option ascii) (havefield : bool) (val : Z) (fval : float8) (str : bytes)
    (t : itm) : dt iso_next :=
  if havefield then DtErr DTERR_BAD_FORMAT
  else
    t ← iso_years val fval t;
    match unit with
    | None => DtOk (IsoReturn t)
    | Some _ =>
        if char_is "T" unit then DtOk (IsoContinue false false str t)
        else
          '(val, fval, str) ← ora_ParseISO8601Number str;
          t ← iso_months val fval t;
          match str with
          | [] => DtOk (IsoReturn t)
          | c :: str1 =>
              if is_char "T" c then DtOk (IsoContinue false false str t)
              else if negb (is_char "-" c) then DtErr DTERR_BAD_FORMAT
              else
                '(val, fval, str) ← ora_ParseISO8601Number str1;
                t ← iso_days val fval t;
                match str with
                | [] => DtOk (IsoReturn t)
                | c :: _ => if is_char "T" c then DtOk (IsoContinue false false str t)
                            else DtErr DTERR_BAD_FORMAT
                end
          end
    end.

(** [switch (unit)] before the T: Y M W D. *)
Definition iso_date_unit (unit : option ascii) (fieldstart : bytes) (havefield : bool) (val : Z) (fval : float8)
    (str : bytes) (t : itm) : dt iso_next :=
  if char_is "Y" unit then t ← iso_years val fval t; DtOk (IsoContinue true true str t)
  else if char_is "M" unit then t ← iso_months val fval t; DtOk (IsoContinue true true str t)
  else if char_is "W" unit then
    t ← AdjustFractDays fval 7 (set_mday (int32 (it_mday t + int32 (val * 7))) t);
    DtOk (IsoContinue true true str t)
  else if char_is "D" unit then t ← iso_days val fval t; DtOk (IsoContinue true true str t)
  else if (char_is "T" unit || bool_decide (unit = None))
          && (ora_ISO8601IntegerWidth fieldstart =? 8)%nat && negb havefield then
    let t := set_year (int32 (it_year t + Z.quot val 10000)) t in
    let t := set_mon (int32 (it_mon t + Z.rem (Z.quot val 100) 100)) t in
    t ← iso_days (Z.rem val 100) fval t;
    DtOk (match unit with None => IsoReturn t | Some _ => IsoContinue false false str t end)
  else if char_is "T" unit || bool_decide (unit = None) || char_is "-" unit then
    iso_date_extended unit havefield val fval str t
  else DtErr DTERR_BAD_FORMAT.

Definition iso_time_extended (unit : option ascii) (havefield : bool) (val : Z) (fval : float8) (str : bytes)
    (t : itm) : dt iso_next :=
  if havefield then DtErr DTERR_BAD_FORMAT
  else
    t ← iso_hours val fval t;
    match unit with
    | None => DtOk (IsoReturn t)
    | Some _ =>
        '(val, fval, str) ← ora_ParseISO8601Number str;
        t ← iso_minutes val fval t;
        match str with
        | [] => DtOk (IsoReturn t)
        | c :: str1 =>
            if negb (is_char ":" c) then DtErr DTERR_BAD_FORMAT
            else
              '(val, fval, str) ← ora_ParseISO8601Number str1;
              t ← iso_seconds val fval t;
              match str with [] => DtOk (IsoReturn t) | _ => DtErr DTERR_BAD_FORMAT end
        end
    end.

(** [switch (unit)] after the T: H M S. *)
Definition iso_time_unit (unit : option ascii) (fieldstart : bytes) (havefield : bool) (val : Z) (fval : float8)
    (str : bytes) (t : itm) : dt iso_next :=
  if char_is "H" unit then t ← iso_hours val fval t; DtOk (IsoContinue false true str t)
  else if char_is "M" unit then t ← iso_minutes val fval t; DtOk (IsoContinue false true str t)
  else if char_is "S" unit then t ← iso_seconds val fval t; DtOk (IsoContinue false true str t)
  else if bool_decide (unit = None) && (ora_ISO8601IntegerWidth fieldstart =? 6)%nat && negb havefield then
    let t := set_hour (int32 (it_hour t + Z.quot val 10000)) t in
    let t := set_min (int32 (it_min t + Z.rem (Z.quot val 100) 100)) t in
    t ← iso_seconds (Z.rem val 100) fval t;
    DtOk (IsoReturn t)
  else if bool_decide (unit = None) || char_is ":" unit then iso_time_extended unit havefield val fval str t
  else DtErr DTERR_BAD_FORMAT.

Fixpoint iso_loop (fuel : nat) (datepart havefield : bool) (str : bytes) (t : itm) : dt itm :=
  match str with
  | [] => DtOk t
  | c :: str1 =>
      match fuel with
      | O => DtErr DT_FUEL
      | S fuel =>
          if is_char "T" c then iso_loop fuel false false str1 t
          else
            '(val, fval, rest) ← ora_ParseISO8601Number str;
            next ← (if datepart then iso_date_unit else iso_time_unit) (head rest) str havefield val fval (tail rest) t;
            match next with
            | IsoReturn t => DtOk t
            | IsoContinue datepart havefield str t => iso_loop fuel datepart havefield str t
            end
      end
  end.

Definition ora_DecodeISO8601Interval (str : bytes) : dt (Z * itm) :=
  match str with
  | c :: _ :: _ =>
      if is_char "P" c then
        t ← iso_loop (length str) true false (tail str) (mk_itm 0 0 0 0 0 0 0); DtOk (DTK_DELTA, t)
      else DtErr DTERR_BAD_FORMAT
  | _ => DtErr DTERR_BAD_FORMAT
  end.

End Decode.

(** ** Spaces in the input *)

Definition skip_blanks (s : bytes) : bytes := (take_run (is_char " ") s).2.

(** The copy loop at the start of the input functions: runs of spaces become one,
    and spaces before a character of [before] or after one of [after] vanish. *)
Fixpoint squeeze_blanks (before after : ascii -> bool) (fuel : nat) (s : bytes) : bytes :=
  match fuel, s with
  | O, _ => s
  | _, [] => []
  | S fuel, c :: s' =>
      let joined c rest :=
        c :: match skip_blanks rest with [] => [] | e :: rest' => e :: squeeze_blanks before after fuel rest' end in
      if is_char " " c then
        let r := skip_blanks s' in
        match r with
        | d :: r' => if before d then joined d r' else c :: squeeze_blanks before after fuel r
        | [] => [c]
        end
      else if after c && is_char " " (first_char s') then joined c s'
      else c :: squeeze_blanks before after fuel s'
  end.

(** ** Broken-down intervals *)

(** [tm2interval] of yminterval.c and [tm2dsinterval]; the total of months is
    exact in the double the code computes it in. *)
Definition tm2interval (t : itm) : option Interval :=
  let total_months := it_year t * MONTHS_PER_YEAR + it_mon t in
  if (INT_MAX <? total_months) || (total_months <? INT_MIN) then None
  else Some (mk_interval
               (int64 ((((it_hour t * 60 + it_min t) * 60) + it_sec t) * USECS_PER_SEC + it_fsec t))
               (it_mday t) total_months).

Definition SAMESIGN (a b : Z) : bool := Bool.eqb (a <? 0) (b <? 0).

Definition interval2tm (span : Interval) : result itm :=
  let time := iv_time span in
  let tfrac := Z.quot time USECS_PER_HOUR in
  let time := time - tfrac * USECS_PER_HOUR in
  let hour := int32 tfrac in
  if negb (SAMESIGN hour tfrac) then ereport ERRCODE_DATETIME_VALUE_OUT_OF_RANGE "interval out of range"
  else
    let min := Z.quot time USECS_PER_MINUTE in
    let time := time - min * USECS_PER_MINUTE in
    let sec := Z.quot time USECS_PER_SEC in
    Ok (mk_itm (Z.quot (iv_month span) MONTHS_PER_YEAR) (Z.rem (iv_month span) MONTHS_PER_YEAR) (iv_day span)
          hour min sec (time - sec * USECS_PER_SEC)).

(** [abs] of a C int. *)
Definition c_abs (z : Z) : Z := int32 (Z.abs z).

Definition unset (z : Z) : bool := c_abs z =? INT_MAX.

(** The fields that are set are exactly the given ones. *)
Definition set_fields_are (year mon mday hour min sec : bool) (t : itm) : bool :=
  Bool.eqb (negb (unset (it_year t))) year && Bool.eqb (negb (unset (it_mon t))) mon &&
  Bool.eqb (negb (unset (it_mday t))) mday && Bool.eqb (negb (unset (it_hour t))) hour &&
  Bool.eqb (negb (unset (it_min t))) min && Bool.eqb (negb (unset (it_sec t))) sec.

Definition require (b : bool) (msg : string) : result unit :=
  if b then Ok tt else ereport ERRCODE_DATETIME_VALUE_OUT_OF_RANGE msg.

(** The switch on the leading precision, of years or of days. *)
Definition leading_precision (precision n : Z) : result unit :=
  if (precision <? 0) || (9 <? precision) then
    ereport ERRCODE_DATETIME_VALUE_OUT_OF_RANGE "precision of interval is too large"
  else if precision =? 0 then require (n =? 0) "Leading precision of the interval is too small"
  else require (n <? 10 ^ precision) "Leading precision of the interval is too small".

(** ** Printing *)

(** [TrimTrailingZeros] on the reversed text, at most [limit] zeros. *)
Fixpoint trim_zeros (limit : nat) (rev_str : bytes) : bytes :=
  match limit, rev_str with
  | S limit, c :: (d :: _) as r =>
      if is_char "0" c && negb (is_char "." d) then trim_zeros limit (tail rev_str) else rev_str
  | _, _ => rev_str
  end.

Definition TrimTrailingZeros (trimnum : nat) (str : bytes) : bytes := rev (trim_zeros trimnum (rev str)).

(** The signs of a broken-down interval, as [EncodeYminterval] and
    [EncodeDsinterval] test them. *)
Definition has_negative (t : itm) : bool :=
  (it_year t <? 0) || (it_mon t <? 0) || (it_mday t <? 0) || (it_hour t <? 0) || (it_min t <? 0) || (it_sec t <? 0)
  || (it_fsec t <? 0).
Definition has_positive (t : itm) : bool :=
  (0 <? it_year t) || (0 <? it_mon t) || (0 <? it_mday t) || (0 <? it_hour t) || (0 <? it_min t) || (0 <? it_sec t)
  || (0 <? it_fsec t).
Definition has_year_month (t : itm) : bool := negb (it_year t =? 0) || negb (it_mon t =? 0).
Definition has_day_time (t : itm) : bool :=
  negb (it_mday t =? 0) || negb (it_hour t =? 0) || negb (it_min t =? 0) || negb (it_sec t =? 0) || negb (it_fsec t =? 0).
Definition sql_standard_value (t : itm) : bool :=
  negb (has_negative t && has_positive t) && negb (has_year_month t && has_day_time t).

Definition negate_tm (t : itm) : itm :=
  let neg z := int32 (- z) in
  mk_itm (neg (it_year t)) (neg (it_mon t)) (neg (it_mday t)) (neg (it_hour t)) (neg (it_min t)) (neg (it_sec t))
    (neg (it_fsec t)).

(** [%c%d-%d %c%d %c%d:%02d:], the mixed-sign form up to the seconds. *)
Definition mixed_prefix (t : itm) : bytes :=
  let sign (neg : bool) := if neg then "-"%char else "+"%char in
  sign ((it_year t <? 0) || (it_mon t <? 0)) :: fmt_d (c_abs (it_year t)) ++ "-"%char :: fmt_d (c_abs (it_mon t)) ++
  " "%char :: sign (it_mday t <? 0) :: fmt_d (c_abs (it_mday t)) ++
  " "%char :: sign ((it_hour t <? 0) || (it_min t <? 0) || (it_sec t <? 0) || (it_fsec t <? 0)) ::
  fmt_d (c_abs (it_hour t)) ++ ":"%char :: fmt_0d 2 (c_abs (it_min t)) ++ [":"%char].

(** ** Binary form *)

(** The [n] low bytes of an integer, most significant first ([pg_hton32],
    [pg_hton64]), and the unsigned integer they stand for. *)
Fixpoint be_bytes (n : nat) (z : Z) : bytes :=
  match n with
  | O => []
  | S n => be_bytes n (z / 256) ++ [chr (z mod 256)]
  end.

Definition be_value (s : bytes) : Z := foldl (fun v c => v * 256 + ord c) 0 s.

(** [pq_copymsgbytes] *)
Definition pq_copymsgbytes (n : nat) (msg : bytes) : result (bytes * bytes) :=
  if (length msg <? n)%nat then ereport ERRCODE_PROTOCOL_VIOLATION "insufficient data left in message"
  else Ok (take n msg, drop n msg).

Definition pq_getmsgint64 (msg : bytes) : result (Z * bytes) :=
  '(b, msg) ← pq_copymsgbytes 8 msg; Ok (int64 (be_value b), msg).

(** [pq_getmsgint(msg, 4)], converted to int32. *)
Definition pq_getmsgint32 (msg : bytes) : result (Z * bytes) :=
  '(b, msg) ← pq_copymsgbytes 4 msg; Ok (int32 (be_value b), msg).

(** The message of [dsinterval_send] and [yminterval_send]. *)
Definition send_interval (i : Interval) : bytes :=
  be_bytes 8 (iv_time i) ++ be_bytes 4 (iv_day i) ++ be_bytes 4 (iv_month i).

Definition recv_interval (msg : bytes) : result (Interval * bytes) :=
  '(time, msg) ← pq_getmsgint64 msg;
  '(day, msg) ← pq_getmsgint32 msg;
  '(month, msg) ← pq_getmsgint32 msg;
  Ok (mk_interval time day month, msg).

(** ** Hashing *)

Definition fold_int8 (val : Z) : Z :=
  let lohalf := uint32 val in
  let hihalf := uint32 (Z.shiftr val 32) in
  Z.lxor lohalf (if 0 <=? val then hihalf else uint32 (Z.lnot hihalf)).

Definition hashint8 (val : Z) : Z := hash_bytes_uint32 (fold_int8 val).

Definition hashint8extended (val seed : Z) : Z := hash_bytes_uint32_extended (fold_int8 val) seed.

(** ** Doubles to integers *)

Definition f_is_nan (x : float8) : bool := match x with S754_nan => true | _ => false end.

Definition FLOAT8_FITS_IN_INT32 (x : float8) : bool := f_le (of_int INT_MIN) x && f_lt x (of_int 2147483648).

Definition FLOAT8_FITS_IN_INT64 (x : float8) : bool :=
  f_le (of_int INT64_MIN) x && f_lt x (of_int 9223372036854775808).

Definition interval_out_of_range {A} : result A := ereport ERRCODE_DATETIME_VALUE_OUT_OF_RANGE "interval out of range".

(** [if (isnan(x) || !FLOAT8_FITS_IN_INT32(x)) ereport(...); (int32) x] *)
Definition checked_int32 (x : float8) : result Z :=
  if f_is_nan x || negb (FLOAT8_FITS_IN_INT32 x) then interval_out_of_range
  else match to_int32 x with Some z => Ok z | None => interval_out_of_range end.

Definition checked_int64 (x : float8) : result Z :=
  if f_is_nan x || negb (FLOAT8_FITS_IN_INT64 x) then interval_out_of_range
  else match to_int64 x with Some z => Ok z | None => interval_out_of_range end.

(** ** Lemmas for reading back what was printed *)

Definition sign_char (neg : bool) : ascii := if neg then "-"%char else "+"%char.

Lemma squeeze_blanks_none before after fuel s :
  forallb (fun c => negb (is_char " " c)) s = true -> squeeze_blanks before after fuel s = s.
Proof.
  revert s. induction fuel as [|fuel IH]; intros s Hs; [done|]. destruct s as [|c s]; [done|].
  cbn in Hs. apply andb_true_iff in Hs as [Hc Hs]. cbn [squeeze_blanks]. rewrite (negb_true_iff (is_char " " c)) in Hc.
  rewrite Hc, IH by done. assert (is_char " " (first_char s) = false) as ->.
  { destruct s as [|d s]; [done|]. cbn in Hs |- *. apply andb_true_iff in Hs as [Hd _]. by apply negb_true_iff. }
  by rewrite andb_false_r.
Qed.

(** Digits are none of the other characters the parsers look for. *)
Lemma isdigit_not c d : isdigit c = true -> isdigit d = false -> is_char d c = false.
Proof. intros Hc Hd. apply bool_decide_eq_false_2. intros ->. congruence. Qed.

Lemma digits_all (p : ascii -> bool) s :
  (forall c, isdigit c = true -> p c = true) -> forallb isdigit s = true -> forallb p s = true.
Proof.
  intros Hp. induction s as [|c s IH]; [done|]. cbn. intros [Hc Hs]%andb_true_iff. by rewrite Hp, IH.
Qed.

Lemma parse_fields_nil cc lc fuel buflen used maxfields nf : parse_fields cc lc fuel buflen used maxfields nf [] = DtOk [].
Proof. by destruct fuel. Qed.

(** A sign, digits and more characters of a signed field make one field. *)
Lemma parse_sign_field cc lc neg ds more rest n fuel buflen used maxfields nf :
  digits_of n ds ->
  forallb (fun c => isdigit c || is_char ":" c || is_char "." c || is_char "-" c) more = true ->
  stops (fun c => isdigit c || is_char ":" c || is_char "." c || is_char "-" c) rest ->
  (nf < maxfields)%nat -> (used + S (length ds + length more) < buflen)%nat ->
  parse_fields cc lc (S fuel) buflen used maxfields nf (sign_char neg :: ds ++ more ++ rest) =
  (fields ← parse_fields cc lc fuel buflen (used + S (length ds + length more) + 1) maxfields (S nf) rest;
   DtOk ((DTK_TZ, sign_char neg :: ds ++ more) :: fields)).
Proof.
  intros Hds Hmore Hrest Hnf Hbuf. cbn [parse_fields].
  assert (Hsp : isspace cc (sign_char neg) = false) by (by destruct neg).
  rewrite Hsp. destruct (Nat.leb_spec maxfields nf); [lia|].
  assert (Hnext : next_field cc lc (sign_char neg) (ds ++ more ++ rest) = Some (DTK_TZ, sign_char neg :: ds ++ more, rest)).
  { unfold next_field. assert (isdigit (sign_char neg) = false /\ is_char "." (sign_char neg) = false /\
      isalpha cc (sign_char neg) = false /\ is_char "+" (sign_char neg) || is_char "-" (sign_char neg) = true)
      as (-> & -> & -> & ->) by (by destruct neg).
    unfold sign_field. destruct (digits_head n ds Hds) as (c & s' & E & Hc).
    destruct (isdigit_other cc c Hc) as (Hcs & _). rewrite (take_run_none (isspace cc)) by (by rewrite E).
    cbn [snd]. rewrite app_assoc, take_run_app; [|rewrite forallb_app, Hmore, andb_true_r|done].
    - rewrite E. cbn [app]. by rewrite Hc.
    - apply digits_all; [|apply Hds]. by intros d ->. }
  assert (Hb : isdigit (sign_char neg) || is_char "." (sign_char neg) || isalpha cc (sign_char neg)
               || is_char "+" (sign_char neg) || is_char "-" (sign_char neg) = true) by (by destruct neg).
  rewrite Hb, Hnext. cbn [length]. rewrite length_app. destruct (Nat.leb_spec buflen (used + S (length ds + length more))); [lia|done].
Qed.

Lemma strtoi_digits cc n ds rest :
  digits_of n ds -> stops isdigit rest -> is_int32 n -> strtoi cc (ds ++ rest) = (n, false, rest).
Proof.
  intros Hds Hr Hn. unfold strtoi. rewrite (strtol_digits cc n ds rest Hds Hr) by (unfold is_int32, INT_MAX, INT64_MAX in *; lia).
  by rewrite int32_small.
Qed.

Lemma strtoi_signed cc neg n ds rest :
  digits_of n ds -> stops isdigit rest -> is_int32 (- n) -> is_int32 n ->
  strtoi cc (sign_char neg :: ds ++ rest) = (if neg then - n else n, false, rest).
Proof.
  intros Hds Hr Hn Hn'. unfold strtoi, sign_char.
  rewrite (strtol_signed cc neg n ds rest Hds Hr) by (unfold is_int32, INT_MAX, INT64_MAX in *; lia).
  rewrite int32_small; [done|]. by destruct neg.
Qed.

(** A fraction of a second with at most nine digits that stands for a whole number
    of microseconds is read exactly. *)
Lemma ParseFractionalSecond_digits cc n ds fsec :
  digits_of n ds -> (length ds <= 9)%nat -> n * 1000000 = fsec * 10 ^ Z.of_nat (length ds) ->
  ParseFractionalSecond cc ("."%char :: ds) = DtOk fsec.
Proof.
  intros Hds Hl Hn. pose proof Hds as (Hne & Hd & Hv). pose proof (digits_value_bound ds Hd) as Hb. rewrite Hv in Hb.
  assert (0 < length ds)%nat by (destruct ds; [done|cbn; lia]).
  assert (H10 : 0 < 10 ^ Z.of_nat (length ds)) by (apply Z.pow_pos_nonneg; lia).
  unfold ParseFractionalSecond. rewrite (strtod_fraction cc n ds Hds). destruct n as [|p|p]; [| |lia].
  - assert (fsec = 0) as -> by nia. done.
  - rewrite (fraction_microseconds p (Z.of_nat (length ds)) fsec) by lia.
    destruct (decimal_float_near p (Z.of_nat (length ds))) as (w & ew & s & -> & Hw & _); [lia|lia|].
    cbn [float_erange]. by rewrite Hw.
Qed.

(** ** Trailing zeros *)

(** Zeros are only taken from digits that are not all zeros. *)
Lemma trim_zeros_digits limit ds rest :
  forallb isdigit ds = true -> digits_value 0 (rev ds) <> 0 ->
  exists k ds', trim_zeros limit (ds ++ rest) = ds' ++ rest /\ ds = replicate k "0"%char ++ ds' /\ ds' <> [].
Proof.
  revert ds. induction limit as [|limit IH]; intros ds Hd Hv; (destruct ds as [|c ds]; [done|]).
  - by exists 0%nat, (c :: ds).
  - destruct ds as [|d ds].
    { exists 0%nat, [c]. cbn [app trim_zeros]. destruct rest as [|e rest]; [done|].
      assert (Hc : is_char "0" c = false); [|by rewrite Hc].
      apply bool_decide_eq_false_2. by intros ->. }
    cbn in Hd. apply andb_true_iff in Hd as [Hc Hd]. cbn [app trim_zeros tail].
    assert (is_char "." d = false) as ->.
    { apply andb_true_iff in Hd as [Hd _]. by apply isdigit_not. }
    rewrite andb_true_r. destruct (is_char "0" c) eqn:E0; [|by exists 0%nat, (c :: d :: ds)].
    apply bool_decide_eq_true_1 in E0. subst c.
    destruct (IH (d :: ds) Hd) as (k & ds' & E & Ek & Hne).
    + cbn [rev]. intros Hz. apply Hv. cbn [rev]. rewrite digits_value_app. cbn [rev] in Hz. by rewrite Hz.
    + exists (S k), ds'. cbn [app] in E. cbn [replicate app]. rewrite E, Ek. done.
Qed.

Lemma TrimTrailingZeros_digits limit s ds n :
  digits_of n ds -> n <> 0 ->
  exists k ds' n', TrimTrailingZeros limit (s ++ ds) = s ++ ds' /\ length ds = (length ds' + k)%nat /\
    digits_of n' ds' /\ n = n' * 10 ^ Z.of_nat k.
Proof.
  intros (Hne & Hd & Hv) Hn. unfold TrimTrailingZeros. rewrite rev_app_distr.
  destruct (trim_zeros_digits limit (rev ds) (rev s)) as (k & ds' & E & Ek & Hne').
  - rewrite forallb_forall in *. intros c Hc. apply Hd. by apply in_rev.
  - rewrite rev_involutive. congruence.
  - assert (Eds : ds = rev ds' ++ replicate k "0"%char).
    { rewrite <- (rev_involutive ds), Ek, rev_app_distr. f_equal. clear. induction k as [|k IH]; [done|].
      cbn [replicate rev]. rewrite IH. symmetry. apply replicate_cons_app. }
    exists k, (rev ds'), (digits_value 0 (rev ds')). split; [|split; [|split]].
    + rewrite E, rev_app_distr, rev_involutive. done.
    + rewrite Eds, length_app, length_replicate. done.
    + split; [|split; [|done]].
      * intros H. apply Hne'. rewrite <- (rev_involutive ds'), H. done.
      * rewrite Eds, forallb_app in Hd. by apply andb_true_iff in Hd as [? _].
    + rewrite <- Hv, Eds, digits_value_app, digits_value_shift, length_replicate.
      pose proof (digits_value_zeros k []) as Hz. rewrite app_nil_r in Hz. rewrite Hz. cbn. lia.
Qed.

(** A single blank between two words stays. *)
Lemma squeeze_blanks_word before after fuel a c b :
  forallb (fun c => negb (is_char " " c) && negb (after c)) a = true ->
  forallb (fun c => negb (is_char " " c)) (c :: b) = true -> before c = false ->
  squeeze_blanks before after fuel (a ++ " "%char :: c :: b) = a ++ " "%char :: c :: b.
Proof.
  intros Ha Hb Hc. revert a Ha. induction fuel as [|fuel IH]; intros a Ha; [done|]. destruct a as [|d a].
  - cbn [app squeeze_blanks]. change (is_char " " " ") with true. cbn iota.
    unfold skip_blanks. rewrite (take_run_none (is_char " ") (c :: b)).
    + cbn [snd]. by rewrite Hc, squeeze_blanks_none.
    + cbn in Hb |- *. apply andb_true_iff in Hb as [Hb _]. by apply negb_true_iff.
  - cbn in Ha. apply andb_true_iff in Ha as [[Hd Hd']%andb_true_iff Ha]. apply negb_true_iff in Hd, Hd'.
    cbn [app squeeze_blanks]. rewrite Hd, Hd', IH by done. done.
Qed.

(** A time after a blank makes one field. *)
Lemma parse_time_field cc lc d1 more n fuel buflen used maxfields nf :
  digits_of n d1 -> forallb (fun c => isdigit c || is_char ":" c || is_char "." c) more = true ->
  (nf < maxfields)%nat -> (used + (length d1 + S (length more)) < buflen)%nat ->
  parse_fields cc lc (S (S fuel)) buflen used maxfields nf (" "%char :: d1 ++ ":"%char :: more) =
  DtOk [(DTK_TIME, d1 ++ ":"%char :: more)].
Proof.
  intros Hd Hmore Hnf Hbuf. destruct (digits_head n d1 Hd) as (c & s & E & Hc). destruct Hd as (_ & Hd & _).
  cbn [parse_fields]. change (isspace cc " ") with true. cbn iota.
  assert (Hnext : next_field cc lc c (s ++ ":"%char :: more) = Some (DTK_TIME, d1 ++ ":"%char :: more, [])).
  { unfold next_field. rewrite Hc. f_equal. unfold digit_field. change (c :: s ++ ":"%char :: more) with ((c :: s) ++ ":"%char :: more).
    rewrite <- E, (take_run_app isdigit) by done. change (is_char ":" ":") with true. cbn iota.
    rewrite <- (app_nil_r more) at 1. by rewrite take_run_app. }
  rewrite E. cbn [app]. destruct (isdigit_other cc c Hc) as (-> & _). destruct (Nat.leb_spec maxfields nf); [lia|].
  rewrite Hc. cbn [orb]. rewrite Hnext, length_app. cbn [length].
  destruct (Nat.leb_spec buflen (used + (length d1 + S (length more)))); [lia|].
  rewrite parse_fields_nil. cbn [mbind dt_bind]. by rewrite E.
Qed.

(** Hours, minutes, seconds and a fraction, as [DecodeTime] reads them. *)
Definition fraction_of (fsec : Z) (s : bytes) : Prop :=
  (s = [] /\ fsec = 0) \/
  exists n ds, s = "."%char :: ds /\ digits_of n ds /\ (length ds <= 9)%nat /\ n * 1000000 = fsec * 10 ^ Z.of_nat (length ds).

Lemma DecodeTime_digits cc sane range t h m s fsec d1 d2 d3 frac :
  digits_of h d1 -> digits_of m d2 -> digits_of s d3 -> fraction_of fsec frac ->
  is_int32 h -> is_int32 m -> is_int32 s ->
  let t' := mk_itm (it_year t) (it_mon t) (it_mday t) h m s fsec in
  sane t' = true ->
  DecodeTime cc sane (d1 ++ ":"%char :: d2 ++ ":"%char :: d3 ++ frac) range t = (None, t').
Proof.
  intros H1 H2 H3 Hf Hh Hm Hs t' Hsane. unfold DecodeTime.
  rewrite (strtoi_digits cc h d1) by done. change (negb (is_char ":" ":")) with false. cbn iota.
  rewrite (strtoi_digits cc m d2) by done. change (is_char "." ":") with false. change (is_char ":" ":") with true. cbn iota.
  assert (Hst : stops isdigit frac) by (by destruct Hf as [[-> _]|(n & ds & -> & _)]).
  rewrite (strtoi_digits cc s d3) by done. destruct Hf as [[-> ->]|(n & ds & -> & Hn & Hl & Ev)].
  - unfold set_fsec, set_sec, set_min, set_hour. cbn [it_year it_mon it_mday it_hour it_min it_sec it_fsec].
    fold t'. by rewrite Hsane.
  - change (is_char "." ".") with true. cbn iota. rewrite (ParseFractionalSecond_digits cc n ds fsec) by done.
    unfold set_fsec, set_sec, set_min, set_hour. cbn [it_year it_mon it_mday it_hour it_min it_sec it_fsec].
    fold t'. by rewrite Hsane.
Qed.

Lemma add_mask_fresh type tmask st val2 t :
  Z.land tmask (ds_fmask st) = 0 ->
  add_mask type tmask st val2 t = DtOk (mk_decode type (Z.lor (ds_fmask st) tmask) (ds_before st) (ds_dtype st) val2 t).
Proof. intros H. unfold add_mask. by rewrite H. Qed.

Lemma digits_no_colon s : forallb isdigit s = true -> existsb (is_char ":") s = false.
Proof.
  induction s as [|c s IH]; [done|]. cbn. intros [Hc Hs]%andb_true_iff. rewrite (isdigit_not c ":") by done. by apply IH.
Qed.

(** ** Reading back a message *)

Lemma be_value_app s c : be_value (s ++ [c]) = be_value s * 256 + ord c.
Proof. unfold be_value. rewrite foldl_app. done. Qed.

Lemma be_bytes_spec n z : length (be_bytes n z) = n /\ be_value (be_bytes n z) = z mod 256 ^ Z.of_nat n.
Proof.
  revert z. induction n as [|n IH]; intros z; [split; [done|]; cbn; by rewrite Z.mod_1_r|]. cbn [be_bytes].
  destruct (IH (z / 256)) as [Hl Hv]. rewrite length_app, be_value_app, Hl, Hv, ord_chr. cbn [length]. split; [lia|].
  rewrite Nat2Z.inj_succ, Z.pow_succ_r by lia. rewrite (Z.mod_small (z mod 256)) by lia.
  rewrite Z.rem_mul_r by (try apply Z.pow_pos_nonneg; lia). lia.
Qed.

Lemma pq_copymsgbytes_app n s rest : length s = n -> pq_copymsgbytes n (s ++ rest) = Ok (s, rest).
Proof.
  intros Hl. unfold pq_copymsgbytes. rewrite length_app. destruct (Nat.ltb_spec (length s + length rest) n); [lia|].
  by rewrite <- Hl, take_app_length, drop_app_length.
Qed.

(** A message read back. *)
Lemma recv_send i rest :
  is_int64 (iv_time i) -> is_int32 (iv_day i) -> is_int32 (iv_month i) ->
  recv_interval (send_interval i ++ rest) = Ok (i, rest).
Proof.
  destruct i as [time day month]. cbn [iv_time iv_day iv_month]. intros H1 H2 H3.
  unfold recv_interval, send_interval, pq_getmsgint64, pq_getmsgint32. cbn [iv_time iv_day iv_month]. rewrite <- !app_assoc.
  assert (Hr32 : forall z, is_int32 z -> int32 (z mod 256 ^ Z.of_nat 4) = z).
  { intros z Hz. unfold is_int32, INT_MIN, INT_MAX in Hz. unfold int32, UINT32_MOD, INT_MAX. cbv zeta.
    change (256 ^ Z.of_nat 4) with 4294967296. rewrite Z.mod_mod by done.
    destruct (Z.leb_spec (z mod 4294967296) 2147483647); lia. }
  assert (Hr64 : int64 (time mod 256 ^ Z.of_nat 8) = time).
  { unfold is_int64, INT64_MIN, INT64_MAX in H1. unfold int64, INT64_MAX. cbv zeta.
    change (256 ^ Z.of_nat 8) with 18446744073709551616. rewrite Z.mod_mod by done.
    destruct (Z.leb_spec (time mod 18446744073709551616) 9223372036854775807); lia. }
  rewrite (pq_copymsgbytes_app 8) by apply be_bytes_spec. cbn [mbind result_bind]. rewrite (proj2 (be_bytes_spec 8 time)), Hr64.
  rewrite (pq_copymsgbytes_app 4) by apply be_bytes_spec. cbn [mbind result_bind]. rewrite (proj2 (be_bytes_spec 4 day)), Hr32 by done.
  rewrite (pq_copymsgbytes_app 4) by apply be_bytes_spec. cbn [mbind result_bind]. rewrite (proj2 (be_bytes_spec 4 month)), Hr32 by done.
  done.
Qed.

Lemma leading_precision_spec p n :
  0 <= p <= 9 -> 0 <= n ->
  leading_precision p n = require (n <? 10 ^ p) "Leading precision of the interval is too small".
Proof.
  intros Hp Hn. unfold leading_precision. destruct (Z.ltb_spec p 0); [lia|]. destruct (Z.ltb_spec 9 p); [lia|]. cbn [orb].
  destruct (Z.eqb_spec p 0) as [->|]; [|done]. f_equal. change (10 ^ 0) with 1. lia.
Qed.

(** The overflow tests on signs are right. *)
Lemma samesign_int32 a b :
  is_int32 a -> is_int32 b ->
  (SAMESIGN a b && negb (SAMESIGN (int32 (a + b)) a) = negb (bool_decide (is_int32 (a + b)))) /\
  (negb (SAMESIGN a b) && negb (SAMESIGN (int32 (a - b)) a) = negb (bool_decide (is_int32 (a - b)))).
Proof.
  unfold is_int32, INT_MIN, INT_MAX. intros Ha Hb.
  assert (Hi : forall z, -4294967296 <= z < 4294967296 ->
    int32 z = if z <? -2147483648 then z + 4294967296 else if z <=? 2147483647 then z else z - 4294967296).
  { intros z Hz. unfold int32, UINT32_MOD, INT_MAX. cbv zeta.
    destruct (Z.ltb_spec z (-2147483648)); [|destruct (Z.leb_spec z 2147483647)];
      destruct (Z.leb_spec (z mod 4294967296) 2147483647); lia. }
  unfold SAMESIGN. rewrite !Hi by lia. split.
  - case_bool_decide; destruct (Z.ltb_spec a 0), (Z.ltb_spec b 0), (Z.ltb_spec (a + b) (-2147483648)),
      (Z.leb_spec (a + b) 2147483647); cbn; try lia; destruct (Z.ltb_spec _ 0); cbn; try done; lia.
  - case_bool_decide; destruct (Z.ltb_spec a 0), (Z.ltb_spec b 0), (Z.ltb_spec (a - b) (-2147483648)),
      (Z.leb_spec (a - b) 2147483647); cbn; try lia; destruct (Z.ltb_spec _ 0); cbn; try done; lia.
Qed.

(** ** Doubles that are integers *)

Lemma checked_int32_value z x :
  Z.abs z < 2 ^ 53 -> float_value z x ->
  checked_int32 x = if bool_decide (is_int32 z) then Ok z else interval_out_of_range.
Proof.
  intros Hz [->|(-> & [] & ->)]; [|done|done]. unfold checked_int32, FLOAT8_FITS_IN_INT32.
  rewrite of_int_le, of_int_lt by (done || unfold INT_MIN; lia).
  assert (f_is_nan (of_int z) = false) as ->.
  { destruct (decide (z = 0)) as [->|Hne]; [done|]. by destruct (of_int_nonzero z Hne Hz) as (p & _ & ->). }
  unfold to_int32. rewrite of_int_trunc by done. unfold is_int32, INT_MIN, INT_MAX. case_bool_decide.
  - destruct (Z.leb_spec (-2147483648) z), (Z.ltb_spec z 2147483648); try lia. done.
  - destruct (Z.leb_spec (-2147483648) z), (Z.ltb_spec z 2147483648); try lia; done.
Qed.

Lemma checked_int64_value z x : Z.abs z < 2 ^ 53 -> float_value z x -> checked_int64 x = Ok z.
Proof.
  intros Hz [->|(-> & [] & ->)]; [|done|done]. destruct (decide (z = 0)) as [->|Hne]; [done|].
  assert (Hfit : f_is_nan (of_int z) = false /\ FLOAT8_FITS_IN_INT64 (of_int z) = true).
  { unfold FLOAT8_FITS_IN_INT64. change (of_int INT64_MIN) with (S754_finite true 4503599627370496 11).
    change (of_int 9223372036854775808) with (S754_finite false 4503599627370496 11).
    destruct (of_int_nonzero z Hne Hz) as (p & Ep & ->). split; [done|].
    pose proof (ndigits_le p 53 ltac:(lia) ltac:(lia)) as Hd. unfold f_le, f_lt, SFleb, SFltb, int_float.
    assert (H1 : (11 ?= ndigits p - 53) = Gt) by (apply Z.compare_gt_iff; lia).
    assert (H2 : (ndigits p - 53 ?= 11) = Lt) by (apply Z.compare_lt_iff; lia).
    destruct (z <? 0); cbn [SFcompare]; by rewrite ?H1, ?H2. }
  unfold checked_int64. destruct Hfit as [-> ->]. unfold to_int64. rewrite of_int_trunc by done.
  rewrite bool_decide_eq_true_2; [done|]. unfold is_int64, INT64_MIN, INT64_MAX. lia.
Qed.
