(* ===== verification/YmInterval.v ===== *)
(** * INTERVAL YEAR TO MONTH

    The data type of [contrib/ivorysql_ora/src/datatype/yminterval.c]: text and
    binary input and output, type modifiers, comparison, hashing and arithmetic.
    A number operand is the double that [numeric_float8] makes of it.

    Theorems: output and input are inverse for every value and every type modifier
    that admits it; sums and differences are exact or refused; comparison is the
    order of months as far as its 64-bit span does not overflow, and is wrong
    beyond; numbers outside the ints wrap on input. *)

From S2P Require Import Prelude Timestamp Float8 CText FloatText OraDate OraInterval HashFn DateTokens IntervalDecode.

Section Text.

Variable cc : char_class.
Variable lc : ctype.

(** ** Input *)

(** The type of the rightmost field, by the range of the typmod. *)
Definition ym_rightmost (range : Z) : Z :=
  if range =? INTERVAL_MASK YEAR then DTK_YEAR
  else if range =? INTERVAL_MASK MONTH then DTK_MONTH
  else if range =? YEAR_TO_MONTH then DTK_DATE
  else if range =? INTERVAL_MASK DAY then DTK_DAY
  else if (range =? INTERVAL_MASK HOUR) || (range =? DAY_TO_HOUR) then DTK_HOUR
  else if (range =? INTERVAL_MASK MINUTE) || (range =? HOUR_TO_MINUTE) || (range =? DAY_TO_MINUTE) then DTK_MINUTE
  else DTK_SECOND.

(** A number, or a year and month joined by a minus: the type, [val], [val2] and
    [fval]. *)
Definition ym_number (range type : Z) (text : bytes) (val2 : Z) : dt (Z * Z * Z * float8) :=
  let type := if type =? IGNORE_DTF then ym_rightmost range else type in
  let minus := is_char "-" (first_char text) in
  let '(val, erange, cp) := strtoi cc text in
  if erange : bool then DtErr DTERR_FIELD_OVERFLOW
  else
    match cp with
    | [] => DtOk (type, val, INT_MAX, of_int 0)
    | c :: cp1 =>
        if is_char "-" c then
          let '(val2, erange, cp) := strtoi cc cp1 in
          if erange || (val2 <? 0) || (MONTHS_PER_YEAR <=? val2) then DtErr DTERR_FIELD_OVERFLOW
          else
            match cp with
            | _ :: _ => DtErr DTERR_BAD_FORMAT
            | [] =>
                let val2 := if minus then - val2 else val2 in
                let total := val * MONTHS_PER_YEAR + val2 in
                if (INT_MAX <? total) || (total <? INT_MIN) then DtErr DTERR_FIELD_OVERFLOW
                else DtOk (DTK_DATE, val, val2, of_int 0)
            end
        else if is_char "." c then
          let '(fval, erange, rest) := strtod cc cp in
          match rest with
          | _ :: _ => DtErr DTERR_BAD_FORMAT
          | [] => if erange : bool then DtErr DTERR_BAD_FORMAT
                  else DtOk (type, val, val2, if minus then SFopp fval else fval)
          end
        else DtErr DTERR_BAD_FORMAT
    end.

Definition DecodeYminterval (range : Z) (fields : list (Z * bytes)) : dt (Z * itm) :=
  DecodeFields cc (fun _ => true) (ym_number range) true range fields.

(** The fields must match the range exactly; a month is at most 11. *)
Definition ym_check (range : Z) (t : itm) : result unit :=
  let valid y m := require (set_fields_are y m false false false false t)
                     "The character string you specified is not a valid interval" in
  if range =? INTERVAL_MASK YEAR then valid true false
  else if range =? INTERVAL_MASK MONTH then valid false true
  else if (range =? YEAR_TO_MONTH) || (range =? INTERVAL_FULL_RANGE) then
    _ ← valid true true; require (negb (11 <? c_abs (it_mon t))) "month must be between 0 and 11"
  else ereport ERRCODE_DATETIME_VALUE_OUT_OF_RANGE "missing or invalid datetime field".

Definition AdjustYmintervalForTypmod (i : Interval) (typmod : Z) : result Interval :=
  if 0 <? typmod then
    let range := INTERVAL_RANGE typmod in
    if (range =? INTERVAL_MASK YEAR) || (range =? INTERVAL_MASK MONTH) || (range =? YEAR_TO_MONTH) then
      _ ← leading_precision (INTERVAL_PRECISION typmod) (Z.abs (Z.quot (iv_month i) MONTHS_PER_YEAR)); Ok i
    else Ok i
  else Ok i.

Definition yminterval_in (str : bytes) (typmod : Z) : result Interval :=
  let range := if 0 <=? typmod then INTERVAL_RANGE typmod else INTERVAL_FULL_RANGE in
  let str := squeeze_blanks (is_char "-") (is_char "-") (length str) str in
  let decoded := fields ← ParseDateTime cc lc str 256 MAXDATEFIELDS; DecodeYminterval range fields in
  let '(decoded, isiso) := match decoded with
                           | DtErr DTERR_BAD_FORMAT => (ora_DecodeISO8601Interval cc str, true)
                           | _ => (decoded, false)
                           end in
  match decoded with
  | DtErr DTERR_FIELD_OVERFLOW => DateTimeParseError DTERR_INTERVAL_OVERFLOW
  | DtErr e => DateTimeParseError e
  | DtOk (dtype, t) =>
      _ ← (if isiso : bool then Ok tt else ym_check range t);
      let t := if isiso : bool then t
               else set_year (if unset (it_year t) then 0 else it_year t)
                      (set_mon (if unset (it_mon t) then 0 else it_mon t) t) in
      if dtype =? DTK_DELTA then
        match tm2interval (mk_itm (it_year t) (it_mon t) 0 0 0 0 0) with
        | None => ereport ERRCODE_DATETIME_VALUE_OUT_OF_RANGE "interval year to month out of range"
        | Some i => AdjustYmintervalForTypmod i typmod
        end
      else ereport ERRCODE_INTERNAL_ERROR "unexpected dtype %d while parsing interval"
  end.

End Text.

(** ** Output *)

(** [AppendSeconds] of yminterval.c, with [fillzeros]. *)
Definition ym_append_seconds (sec fsec precision : Z) : bytes :=
  if fsec =? 0 then fmt_0d 2 (c_abs sec)
  else
    let s := fmt_0d 2 (c_abs sec) ++ "."%char :: fmt_0d precision (Z.abs fsec) in
    TrimTrailingZeros (length s) s.

Definition EncodeYminterval (t : itm) (precision : Z) : bytes :=
  let neg := has_negative t in
  let standard := sql_standard_value t in
  let sign := (if neg && standard then ["-"%char] else []) ++ (if negb neg then ["+"%char] else []) in
  let t' := if neg && standard then negate_tm t else t in
  let year_month := fmt_0d precision (it_year t') ++ "-"%char :: fmt_0d 2 (it_mon t') in
  let seconds := ym_append_seconds (it_sec t') (it_fsec t') MAX_INTERVAL_PRECISION in
  sign ++
  (if negb neg && negb (has_positive t) then year_month
   else if negb standard then mixed_prefix t' ++ seconds
   else if has_year_month t then year_month
   else if negb (it_mday t =? 0) then
     fmt_d (it_mday t') ++ " "%char :: fmt_d (it_hour t') ++ ":"%char :: fmt_0d 2 (it_min t') ++ ":"%char :: seconds
   else fmt_d (it_hour t') ++ ":"%char :: fmt_0d 2 (it_min t') ++ ":"%char :: seconds).

Definition ym_out_precision (typmod : Z) : Z :=
  if 0 <=? typmod then
    let precision := INTERVAL_PRECISION typmod in
    if ORACLE_MAX_INTERVAL_PRECISION <? precision then ORACLE_MAX_INTERVAL_PRECISION else precision
  else ORACLE_MAX_INTERVAL_PRECISION.

Definition yminterval_out (span : Interval) (typmod : Z) : result bytes :=
  t ← interval2tm span; Ok (EncodeYminterval t (ym_out_precision typmod)).

(** ** Type modifiers *)

Definition ymintervaltypmodin (tl : list Z) : result Z :=
  let bad {A} : result A := ereport ERRCODE_INVALID_PARAMETER_VALUE "invalid INTERVAL type modifier" in
  match tl with
  | [] => bad
  | r :: rest =>
      _ ← (if (r =? INTERVAL_MASK YEAR) || (r =? INTERVAL_MASK MONTH) || (r =? YEAR_TO_MONTH)
              || (r =? INTERVAL_FULL_RANGE) then Ok tt else bad);
      match rest with
      | [] => Ok (if negb (r =? INTERVAL_FULL_RANGE) then INTERVAL_TYPMOD 2 r else -1)
      | [p] =>
          if p <? 0 then ereport ERRCODE_INVALID_PARAMETER_VALUE "INTERVAL(%d) precision must not be negative"
          else if ORACLE_MAX_INTERVAL_PRECISION <? p then
            ereport ERRCODE_INVALID_PARAMETER_VALUE "INTERVAL YEAR(%d) TO MONTH precision out of range"
          else Ok (INTERVAL_TYPMOD p r)
      | _ => bad
      end
  end.

Definition ymintervaltypmodout (typmod : Z) : result bytes :=
  if typmod <? 0 then Ok []
  else
    let fields := INTERVAL_RANGE typmod in
    let precision := "("%char :: fmt_d (INTERVAL_PRECISION typmod) ++ [")"%char] in
    if (fields =? INTERVAL_MASK YEAR) || (fields =? INTERVAL_MASK MONTH) || (fields =? YEAR_TO_MONTH) then
      Ok (lit " year" ++ precision ++ lit " to month")
    else if fields =? INTERVAL_FULL_RANGE then Ok precision
    else ereport ERRCODE_INTERNAL_ERROR "invalid INTERVAL typmod: 0x%x".

(** ** Binary input and output, coercion *)

Definition yminterval_recv (msg : bytes) (typmod : Z) : result Interval :=
  '(i, _) ← recv_interval msg; AdjustYmintervalForTypmod i typmod.

Definition yminterval_send (i : Interval) : bytes := send_interval i.

Definition yminterval (i : Interval) (typmod : Z) : result Interval := AdjustYmintervalForTypmod i typmod.

(** ** Comparison *)

Definition yminterval_cmp_value (i : Interval) : Z := int64 (int64 (iv_month i * 30) * USECS_PER_DAY).

Definition yminterval_cmp_internal (a b : Interval) : Z :=
  let span1 := yminterval_cmp_value a in
  let span2 := yminterval_cmp_value b in
  if span1 <? span2 then -1 else if span2 <? span1 then 1 else 0.

Definition yminterval_eq (a b : Interval) : bool := yminterval_cmp_internal a b =? 0.
Definition yminterval_ne (a b : Interval) : bool := negb (yminterval_cmp_internal a b =? 0).
Definition yminterval_lt (a b : Interval) : bool := yminterval_cmp_internal a b <? 0.
Definition yminterval_gt (a b : Interval) : bool := 0 <? yminterval_cmp_internal a b.
Definition yminterval_le (a b : Interval) : bool := yminterval_cmp_internal a b <=? 0.
Definition yminterval_ge (a b : Interval) : bool := 0 <=? yminterval_cmp_internal a b.
Definition yminterval_cmp (a b : Interval) : Z := yminterval_cmp_internal a b.

Definition yminterval_smaller (a b : Interval) : Interval := if yminterval_cmp_internal a b <? 0 then a else b.
Definition yminterval_larger (a b : Interval) : Interval := if 0 <? yminterval_cmp_internal a b then a else b.

Definition yminterval_hash (i : Interval) : Z := hashint8 (yminterval_cmp_value i).
Definition yminterval_hash_extended (i : Interval) (seed : Z) : Z := hashint8extended (yminterval_cmp_value i) seed.

(** ** Arithmetic *)

Definition yminterval_mul (span : Interval) (factor : float8) : result Interval :=
  month ← checked_int32 (f_mul (of_int (iv_month span)) factor); Ok (mk_interval 0 0 month).

Definition mul_d_yminterval (factor : float8) (span : Interval) : result Interval :=
  month ← checked_int32 (f_mul (of_int (iv_month span)) factor); Ok (mk_interval 0 0 month).

Definition yminterval_mi (span1 span2 : Interval) : result Interval :=
  let month := int32 (iv_month span1 - iv_month span2) in
  if negb (SAMESIGN (iv_month span1) (iv_month span2)) && negb (SAMESIGN month (iv_month span1))
  then interval_out_of_range else Ok (mk_interval 0 0 month).

Definition yminterval_pl (span1 span2 : Interval) : result Interval :=
  let month := int32 (iv_month span1 + iv_month span2) in
  if SAMESIGN (iv_month span1) (iv_month span2) && negb (SAMESIGN month (iv_month span1))
  then interval_out_of_range else Ok (mk_interval 0 0 month).

Definition yminterval_div (span : Interval) (factor : float8) : result Interval :=
  if f_is_zero factor then ereport ERRCODE_DIVISION_BY_ZERO "division by zero"
  else month ← checked_int32 (f_div (of_int (iv_month span)) factor); Ok (mk_interval 0 0 month).

Definition in_range_yminterval_yminterval (val base offset : Interval) (sub less : bool) : result bool :=
  if yminterval_cmp_value offset <? 0 then
    ereport ERRCODE_INVALID_PRECEDING_OR_FOLLOWING_SIZE "invalid preceding or following size in window function"
  else
    sum ← (if sub then yminterval_mi base offset else yminterval_pl base offset);
    Ok (if less then yminterval_cmp_internal val sum <=? 0 else 0 <=? yminterval_cmp_internal val sum).

(** ** Reading back the output *)

Definition ym_interval (month : Z) : Interval := mk_interval 0 0 month.

(** The text of a value: sign, years, months. *)
Definition ym_text (precision month : Z) : bytes :=
  sign_char (month <? 0) :: fmt_0d precision (Z.abs month / 12) ++ "-"%char :: fmt_0d 2 (Z.abs month mod 12).

Lemma interval2tm_months month :
  interval2tm (ym_interval month) = Ok (mk_itm (Z.quot month 12) (Z.rem month 12) 0 0 0 0 0).
Proof. reflexivity. Qed.

Lemma yminterval_out_text month typmod :
  is_int32 month -> yminterval_out (ym_interval month) typmod = Ok (ym_text (ym_out_precision typmod) month).
Proof.
  intros Hm. unfold is_int32, INT_MIN, INT_MAX in Hm. unfold yminterval_out. rewrite interval2tm_months.
  cbn [mbind result_bind]. f_equal. set (p := ym_out_precision typmod).
  set (y := Z.quot month 12). set (mo := Z.rem month 12).
  assert (Hy : y = Z.quot month 12) by done. assert (Hmo : mo = Z.rem month 12) by done.
  unfold EncodeYminterval, ym_text.
  set (t := mk_itm _ _ _ _ _ _ _).
  assert (Hneg : has_negative t = (month <? 0)).
  { unfold has_negative. cbn. destruct (Z.ltb_spec y 0), (Z.ltb_spec mo 0), (Z.ltb_spec month 0); cbn; lia. }
  assert (Hstd : sql_standard_value t = true).
  { unfold sql_standard_value, has_day_time. rewrite Hneg. unfold has_positive. cbn.
    destruct (Z.ltb_spec 0 y), (Z.ltb_spec 0 mo), (Z.ltb_spec month 0); cbn; try lia; by rewrite ?andb_false_r. }
  rewrite Hneg, Hstd. cbn [andb negb].
  assert (Ht : it_year (if month <? 0 then negate_tm t else t) = Z.abs month / 12 /\
               it_mon (if month <? 0 then negate_tm t else t) = Z.abs month mod 12).
  { destruct (Z.ltb_spec month 0); cbn; [|lia]. rewrite !int32_small by (unfold is_int32, INT_MIN, INT_MAX; lia). lia. }
  destruct (month <? 0) eqn:E; cbn [andb negb app sign_char]; destruct Ht as [-> ->].
  - f_equal. assert (has_year_month t = true) as ->; [|done]. unfold has_year_month. cbn.
    destruct (Z.eqb_spec y 0), (Z.eqb_spec mo 0); cbn; lia.
  - f_equal. destruct (has_positive t) eqn:Ep; cbn [negb]; [|done].
    assert (has_year_month t = true) as ->; [|done]. unfold has_positive in Ep. cbn in Ep. unfold has_year_month. cbn.
    destruct (Z.eqb_spec y 0), (Z.eqb_spec mo 0); cbn; lia.
Qed.

Section Read.

Context (cc : char_class) (lc : ctype).

(** The year digits, read with the sign, give the year [v]. *)
Definition years_read (neg : bool) (v : Z) (ds : bytes) : Prop :=
  (exists n, digits_of n ds) /\ (neg = true -> v <= 0) /\
  forall rest, stops isdigit rest -> strtoi cc (sign_char neg :: ds ++ rest) = (v, false, rest).

(** The months of year [v] and [mo] months, with the sign of the text. *)
Definition ym_total (neg : bool) (v mo : Z) : Z := v * 12 + (if neg then - mo else mo).

Lemma years_read_small neg y ds :
  digits_of y ds -> y <= INT_MAX -> years_read neg (if neg then - y else y) ds.
Proof.
  intros Hd Hy. pose proof (digits_of_nonneg _ _ Hd). unfold INT_MAX in Hy. split; [by exists y|].
  split; [intros ->; lia|].
  intros rest Hr. apply strtoi_signed; [done|done|..]; unfold is_int32, INT_MIN, INT_MAX; lia.
Qed.

(** A year of the longs is read modulo 2^32, into the ints. *)
Lemma years_read_wrap n ds : digits_of n ds -> n <= INT64_MAX -> years_read false (int32 n) ds.
Proof.
  intros Hd Hn. split; [by eexists|]. split; [done|]. intros rest Hr. unfold strtoi.
  pose proof (strtol_signed cc false _ ds rest Hd Hr Hn) as E. cbn [sign_char] in *. by rewrite E.
Qed.

(** A year and a month, with its sign, as the number reader sees it. *)
Lemma ym_number_text range (neg : bool) v mo ds1 ds2 type val2 :
  years_read neg v ds1 -> digits_of mo ds2 -> 0 <= mo < 12 ->
  ym_number cc range type (sign_char neg :: ds1 ++ "-"%char :: ds2) val2 =
  if bool_decide (is_int32 (ym_total neg v mo)) then DtOk (DTK_DATE, v, if neg then - mo else mo, of_int 0)
  else DtErr DTERR_FIELD_OVERFLOW.
Proof.
  intros (_ & H0 & H1) H2 Hmo. unfold ym_number. rewrite H1 by done.
  change (is_char "-" "-") with true. cbn iota.
  rewrite <- (app_nil_r ds2), (strtoi_digits cc mo ds2 [] H2) by (done || unfold is_int32, INT_MIN, INT_MAX; lia).
  destruct (Z.ltb_spec mo 0); [lia|]. unfold MONTHS_PER_YEAR. destruct (Z.leb_spec 12 mo); [lia|]. cbn [orb].
  assert (Hs : is_char "-" (first_char (sign_char neg :: ds1 ++ "-"%char :: ds2)) = neg) by (by destruct neg).
  rewrite app_nil_r, Hs. fold (ym_total neg v mo). unfold is_int32. set (T := ym_total neg v mo). clearbody T.
  unfold INT_MAX, INT_MIN.
  destruct (Z.ltb_spec 2147483647 T), (Z.ltb_spec T (-2147483648)); case_bool_decide; try lia; done.
Qed.

Lemma DecodeYminterval_text range (neg : bool) v mo ds1 ds2 :
  years_read neg v ds1 -> digits_of mo ds2 -> 0 <= mo < 12 ->
  exists unset_value, unset unset_value = true /\
  DecodeYminterval cc range [(DTK_TZ, sign_char neg :: ds1 ++ "-"%char :: ds2)] =
  if bool_decide (is_int32 (ym_total neg v mo))
  then DtOk (DTK_DELTA, mk_itm v (if neg then - mo else mo) unset_value unset_value unset_value unset_value 0)
  else DtErr DTERR_FIELD_OVERFLOW.
Proof.
  intros H1 H2 Hmo. pose proof H1 as ([n Hn] & Hy0 & _). exists (if neg then - INT_MAX else INT_MAX).
  split; [by destruct neg|]. unfold DecodeYminterval, DecodeFields. cbn [rev app decode_fields].
  unfold decode_field. change (DTK_TZ =? DTK_TIME) with false. change (DTK_TZ =? DTK_TZ) with true. cbn iota.
  assert (Hcolon : existsb (is_char ":") (tail (sign_char neg :: ds1 ++ "-"%char :: ds2)) = false).
  { cbn [tail]. rewrite existsb_app. cbn. rewrite (digits_no_colon ds1), (digits_no_colon ds2) by (apply Hn || apply H2). done. }
  rewrite Hcolon. unfold number_field. cbn [ds_type ds_val2].
  rewrite (ym_number_text range neg v mo ds1 ds2 _ _ H1 H2 Hmo).
  case_bool_decide as Hy; [|done]. unfold is_int32, ym_total in Hy. cbn [mbind dt_bind].
  unfold apply_unit. cbn [Z.eqb DTK_DATE DTK_MICROSEC DTK_MILLISEC DTK_SECOND DTK_MINUTE DTK_HOUR DTK_DAY DTK_WEEK
    DTK_MONTH DTK_YEAR Pos.eqb andb]. change (negb (f_is_zero (of_int 0))) with false. cbn iota.
  cbn [mbind dt_bind]. rewrite add_mask_fresh by apply Z.land_0_r. cbn [mbind dt_bind ds_fmask ds_tm ds_dtype ds_before].
  change (Z.lor 0 (DTK_M MONTH) =? 0) with false. cbn iota. unfold INT_MIN, INT_MAX in Hy.
  assert (is_char "-" (first_char (sign_char neg :: ds1 ++ "-"%char :: ds2)) = neg) as -> by (by destruct neg).
  cbn [existsb negb andb]. change (or0 INT_MAX) with 0. rewrite !Z.add_0_l.
  rewrite !int32_small by (unfold is_int32, INT_MIN, INT_MAX; destruct neg; lia).
  unfold set_year, set_mon, ClearPgTm. cbn [it_year it_mon it_mday it_hour it_min it_sec it_fsec].
  destruct neg; cbn [andb]; [|done]. unfold negative_tm. cbn [it_year it_mon it_mday it_hour it_min it_sec it_fsec].
  assert (Hmn : forall z, z <= 0 -> make_negative z = z).
  { intros z Hz. unfold make_negative. destruct (Z.ltb_spec 0 z); [lia|done]. }
  specialize (Hy0 eq_refl). rewrite (Hmn v), (Hmn (- mo)) by lia. done.
Qed.

Lemma ym_typmod p typmod :
  ymintervaltypmodin [YEAR_TO_MONTH; p] = Ok typmod ->
  0 <= p <= 9 /\ 0 < typmod /\ INTERVAL_RANGE typmod = YEAR_TO_MONTH /\ INTERVAL_PRECISION typmod = p.
Proof.
  unfold ymintervaltypmodin. change (YEAR_TO_MONTH =? YEAR_TO_MONTH) with true.
  destruct (Z.ltb_spec p 0); [done|]. destruct (Z.ltb_spec ORACLE_MAX_INTERVAL_PRECISION p) as [|H9]; [done|].
  unfold ORACLE_MAX_INTERVAL_PRECISION in H9.
  assert (Hp : p = 0 \/ p = 1 \/ p = 2 \/ p = 3 \/ p = 4 \/ p = 5 \/ p = 6 \/ p = 7 \/ p = 8 \/ p = 9) by lia.
  cbn [mbind result_bind orb]. intros [= <-]. by repeat (destruct Hp as [->|Hp]; [by vm_compute|]); subst p.
Qed.

(** Sign, years and months, as the input function reads them. *)
Lemma ym_in_digits (neg : bool) v mo ds1 ds2 typmod :
  years_read neg v ds1 -> digits_of mo ds2 -> 0 <= mo < 12 ->
  (length ds1 <= 20)%nat -> (length ds2 <= 2)%nat -> (typmod < 0 \/ INTERVAL_RANGE typmod = YEAR_TO_MONTH) ->
  yminterval_in cc lc (sign_char neg :: ds1 ++ "-"%char :: ds2) typmod =
  if bool_decide (is_int32 (ym_total neg v mo))
  then AdjustYmintervalForTypmod (ym_interval (ym_total neg v mo)) typmod
  else DateTimeParseError DTERR_INTERVAL_OVERFLOW.
Proof.
  intros Hyr D2 Hmo L1 L2 Htm. pose proof Hyr as ([n D1] & Hy & _). unfold yminterval_in.
  assert (Hblank : forall s, forallb isdigit s = true -> forallb (fun c => negb (is_char " " c)) s = true).
  { intros s. apply digits_all. intros c Hc. by rewrite (isdigit_not c " "). }
  rewrite squeeze_blanks_none.
  2:{ cbn. rewrite forallb_app. cbn. rewrite (Hblank ds1), (Hblank ds2) by (apply D1 || apply D2). by destruct neg. }
  assert (Hparse : ParseDateTime cc lc (sign_char neg :: ds1 ++ "-"%char :: ds2) 256 MAXDATEFIELDS =
                   DtOk [(DTK_TZ, sign_char neg :: ds1 ++ "-"%char :: ds2)]).
  { unfold ParseDateTime. cbn [length]. rewrite <- (app_nil_r ("-"%char :: ds2)).
    rewrite (parse_sign_field cc lc neg ds1 ("-"%char :: ds2) [] n); cbn [length app].
    - rewrite !app_nil_r, parse_fields_nil. done.
    - done.
    - cbn. apply digits_all; [|apply D2]. by intros c ->.
    - done.
    - unfold MAXDATEFIELDS. lia.
    - lia. }
  rewrite Hparse. set (range := if 0 <=? typmod then _ else _).
  destruct (DecodeYminterval_text range neg v mo ds1 ds2 Hyr D2 Hmo) as (u & Hu & Hd).
  cbn [mbind dt_bind]. rewrite Hd. case_bool_decide as Hb; [|done]. cbn iota.
  unfold is_int32, ym_total, INT_MIN, INT_MAX in Hb.
  set (t := mk_itm v (if neg then - mo else mo) u u u u 0).
  assert (Hset : unset (it_year t) = false /\ unset (it_mon t) = false).
  { unfold unset, c_abs, INT_MAX. cbn. split; apply Z.eqb_neq; rewrite int32_small by (unfold is_int32, INT_MIN, INT_MAX; destruct neg; lia);
      destruct neg; lia. }
  destruct Hset as [Hs1 Hs2].
  assert (Hcheck : ym_check range t = Ok tt).
  { assert (Hr : (range =? INTERVAL_MASK YEAR) = false /\ (range =? INTERVAL_MASK MONTH) = false /\
                 (range =? YEAR_TO_MONTH) || (range =? INTERVAL_FULL_RANGE) = true).
    { unfold range. destruct (Z.leb_spec 0 typmod); [|done]. destruct Htm as [Htm|Htm]; [lia|by rewrite Htm]. }
    unfold ym_check. destruct Hr as (-> & -> & ->). unfold set_fields_are. rewrite Hs1, Hs2. cbn [it_mday it_hour it_min it_sec t].
    rewrite Hu. cbn [negb Bool.eqb andb require mbind result_bind]. unfold c_abs. cbn [it_mon t].
    rewrite int32_small by (unfold is_int32, INT_MIN, INT_MAX; destruct neg; lia).
    destruct (Z.ltb_spec 11 (Z.abs (if neg then - mo else mo))); [destruct neg; lia|done]. }
  rewrite Hcheck. cbn [mbind result_bind]. rewrite Hs1, Hs2. change (DTK_DELTA =? DTK_DELTA) with true. cbn iota.
  unfold tm2interval. cbn [it_year it_mon it_mday it_hour it_min it_sec it_fsec set_year set_mon t].
  unfold MONTHS_PER_YEAR, INT_MAX, INT_MIN. fold (ym_total neg v mo). fold (ym_total neg v mo) in Hb.
  destruct (Z.ltb_spec 2147483647 (ym_total neg v mo)); [lia|].
  destruct (Z.ltb_spec (ym_total neg v mo) (-2147483648)); [lia|done].
Qed.

(** A value the typmod admits, printed and read. *)
Lemma ym_in_text month typmod p :
  is_int32 month -> 0 <= p <= 9 -> (typmod < 0 \/ INTERVAL_RANGE typmod = YEAR_TO_MONTH) ->
  yminterval_in cc lc (ym_text p month) typmod = AdjustYmintervalForTypmod (ym_interval month) typmod.
Proof.
  intros Hm Hp Htm. unfold is_int32, INT_MIN, INT_MAX in Hm. unfold ym_text.
  assert (Hy : 0 <= Z.abs month / 12 < 1000000000) by lia. assert (Hmo : 0 <= Z.abs month mod 12 < 12) by lia.
  assert (Ht : ym_total (month <? 0) (if month <? 0 then - (Z.abs month / 12) else Z.abs month / 12) (Z.abs month mod 12) = month)
    by (unfold ym_total; destruct (Z.ltb_spec month 0); lia).
  rewrite (ym_in_digits (month <? 0) (if month <? 0 then - (Z.abs month / 12) else Z.abs month / 12) (Z.abs month mod 12)).
  - rewrite Ht, bool_decide_eq_true_2; [done|]. unfold is_int32, INT_MIN, INT_MAX. lia.
  - apply years_read_small; [|unfold INT_MAX; lia]. apply fmt_0d_digits. lia.
  - apply fmt_0d_digits. lia.
  - done.
  - transitivity 9%nat; [|lia]. apply fmt_0d_length_le; lia.
  - apply fmt_0d_length_le; lia.
  - done.
Qed.

End Read.

(** C22. Output and input are inverse: every INTERVAL YEAR TO MONTH value prints, with
    no type modifier or with YEAR(p) TO MONTH for a p that admits it, to a text
    from which the input function reads the same value. *)
Theorem yminterval_roundtrip cc lc month typmod p :
  is_int32 month -> typmod < 0 \/ ymintervaltypmodin [YEAR_TO_MONTH; p] = Ok typmod ->
  yminterval (ym_interval month) typmod = Ok (ym_interval month) ->
  exists text, yminterval_out (ym_interval month) typmod = Ok text /\
    yminterval_in cc lc text typmod = Ok (ym_interval month).
Proof.
  intros Hm Htm Ha. exists (ym_text (ym_out_precision typmod) month). split; [by apply yminterval_out_text|].
  rewrite <- Ha. unfold ym_out_precision, ORACLE_MAX_INTERVAL_PRECISION, yminterval.
  destruct Htm as [Htm|(Hp & Ht & Hr & Hpr)%ym_typmod].
  - destruct (Z.leb_spec 0 typmod); [lia|]. apply ym_in_text; [done|lia|by left].
  - destruct (Z.leb_spec 0 typmod); [|lia]. rewrite Hpr. destruct (Z.ltb_spec 9 p); [lia|].
    apply ym_in_text; [done|lia|by right].
Qed.

(** ** Comparison and arithmetic *)

(** The span in microseconds is a 64-bit integer up to this many months (296533
    years and 3 months). *)
Definition ym_max_span : Z := 3558399.

Lemma ym_cmp_value_exact month : Z.abs month <= ym_max_span -> yminterval_cmp_value (ym_interval month) = month * 30 * USECS_PER_DAY.
Proof.
  unfold ym_max_span, yminterval_cmp_value, USECS_PER_DAY. intros H. cbn [iv_month ym_interval].
  rewrite !int64_small; [done|..]; unfold is_int64, INT64_MIN, INT64_MAX; try lia.
  rewrite int64_small; unfold is_int64, INT64_MIN, INT64_MAX; lia.
Qed.

Lemma ym_cmp_exact a b :
  Z.abs a <= ym_max_span -> Z.abs b <= ym_max_span -> yminterval_cmp_internal (ym_interval a) (ym_interval b) = Z.sgn (a - b).
Proof.
  intros Ha Hb. unfold yminterval_cmp_internal. rewrite !ym_cmp_value_exact by done. unfold USECS_PER_DAY.
  destruct (Z.ltb_spec (a * 30 * 86400000000) (b * 30 * 86400000000)); [lia|].
  destruct (Z.ltb_spec (b * 30 * 86400000000) (a * 30 * 86400000000)); lia.
Qed.

(** The comparison operators are the order of the month counts, equal values hash
    equally and the aggregates pick the smaller and the larger value, for intervals
    of at most 296533 years and 3 months. *)
Theorem yminterval_order a b seed :
  Z.abs a <= ym_max_span -> Z.abs b <= ym_max_span ->
  let x := ym_interval a in
  let y := ym_interval b in
  yminterval_lt x y = (a <? b) /\ yminterval_le x y = (a <=? b) /\ yminterval_eq x y = (a =? b) /\
  yminterval_gt x y = (b <? a) /\ yminterval_ge x y = (b <=? a) /\ yminterval_ne x y = negb (a =? b) /\
  yminterval_smaller x y = ym_interval (Z.min a b) /\ yminterval_larger x y = ym_interval (Z.max a b) /\
  (yminterval_eq x y = true -> yminterval_hash x = yminterval_hash y /\
     yminterval_hash_extended x seed = yminterval_hash_extended y seed).
Proof.
  intros Ha Hb x y. subst x y. unfold yminterval_lt, yminterval_le, yminterval_eq, yminterval_gt, yminterval_ge, yminterval_ne,
    yminterval_smaller, yminterval_larger. rewrite !(ym_cmp_exact a b) by done.
  assert (Hsgn : forall z, (Z.sgn z =? 0) = (z =? 0) /\ (Z.sgn z <? 0) = (z <? 0) /\ (0 <? Z.sgn z) = (0 <? z) /\
    (Z.sgn z <=? 0) = (z <=? 0) /\ (0 <=? Z.sgn z) = (0 <=? z)) by (by intros []).
  destruct (Hsgn (a - b)) as (-> & -> & -> & -> & ->). repeat split; try lia.
  - destruct (Z.ltb_spec (a - b) 0); f_equal; lia.
  - destruct (Z.ltb_spec 0 (a - b)); f_equal; lia.
  - replace a with b by lia. done.
  - replace a with b by lia. done.
Qed.

(** Beyond that the span overflows its 64 bits: 300000 years, an admitted value
    of INTERVAL YEAR(6) TO MONTH, compares less than one month. *)
Theorem yminterval_order_overflow cc lc :
  yminterval_in cc lc (lit "+300000-00") (INTERVAL_TYPMOD 6 YEAR_TO_MONTH) = Ok (ym_interval 3600000) /\
  yminterval_lt (ym_interval 3600000) (ym_interval 1) = true.
Proof. split; [|by vm_compute]. by rewrite (ym_in_text cc lc 3600000 _ 6) by (done || lia || by right). Qed.

(** C39. The input function reads a year of up to eighteen digits modulo 2^32,
    into an int: a text +N-M with M below 12 is the value of that (possibly
    negative) year plus M months when its months fit an int, and refused with an
    overflow otherwise.  So a year beyond the ints is rejected or read as another
    year, depending on its residue. *)
Theorem yminterval_in_wraps cc lc n mo ds1 ds2 :
  digits_of n ds1 -> digits_of mo ds2 -> (length ds1 <= 18)%nat -> (length ds2 <= 2)%nat -> 0 <= mo < 12 ->
  yminterval_in cc lc ("+"%char :: ds1 ++ "-"%char :: ds2) (-1) =
  let months := int32 n * 12 + mo in
  if bool_decide (is_int32 months) then Ok (ym_interval months) else DateTimeParseError DTERR_INTERVAL_OVERFLOW.
Proof.
  intros D1 D2 L1 L2 Hmo. change "+"%char with (sign_char false) at 1.
  rewrite (ym_in_digits cc lc false (int32 n) mo ds1 ds2 (-1)); [done|..|done|lia|lia|by left]; [|done].
  apply years_read_wrap; [done|]. pose proof D1 as (_ & Hd & <-).
  apply digits_value_bound in Hd. assert (10 ^ Z.of_nat (length ds1) <= 10 ^ 18) by (apply Z.pow_le_mono_r; lia).
  unfold INT64_MAX. lia.
Qed.

(** Sum and difference are exact, and refused exactly when they leave the ints. *)
Theorem yminterval_sum_exact a b :
  is_int32 a -> is_int32 b ->
  yminterval_pl (ym_interval a) (ym_interval b) =
    (if bool_decide (is_int32 (a + b)) then Ok (ym_interval (a + b)) else interval_out_of_range) /\
  yminterval_mi (ym_interval a) (ym_interval b) =
    (if bool_decide (is_int32 (a - b)) then Ok (ym_interval (a - b)) else interval_out_of_range).
Proof.
  intros Ha Hb. destruct (samesign_int32 a b Ha Hb) as [E1 E2]. unfold yminterval_pl, yminterval_mi. cbn [iv_month ym_interval].
  rewrite E1, E2. clear E1 E2. split; case_bool_decide; cbn [negb]; [|done| |done]; by rewrite int32_small.
Qed.

(** A product with a whole number is exact, and refused exactly when it leaves
    the ints; dividing it by the number gives the interval back; division by zero
    is refused. *)
Theorem yminterval_product_exact month n :
  is_int32 month -> Z.abs (month * n) < 2 ^ 53 -> Z.abs n < 2 ^ 53 ->
  yminterval_mul (ym_interval month) (of_int n) =
    (if bool_decide (is_int32 (month * n)) then Ok (ym_interval (month * n)) else interval_out_of_range) /\
  mul_d_yminterval (of_int n) (ym_interval month) = yminterval_mul (ym_interval month) (of_int n) /\
  (is_int32 (month * n) ->
   yminterval_div (ym_interval (month * n)) (of_int n) =
     if n =? 0 then ereport ERRCODE_DIVISION_BY_ZERO "division by zero" else Ok (ym_interval month)).
Proof.
  intros Hm Hmn Hn. assert (Hm53 : Z.abs month < 2 ^ 53) by (unfold is_int32, INT_MIN, INT_MAX in Hm; lia).
  split_and!; [|done|].
  - unfold yminterval_mul. cbn [iv_month ym_interval].
    rewrite (checked_int32_value (month * n)) by (done || by apply of_int_mul_value). by case_bool_decide.
  - intros Hr. unfold yminterval_div. rewrite of_int_is_zero by done. destruct (Z.eqb_spec n 0) as [->|Hn0]; [done|].
    cbn [iv_month ym_interval]. rewrite (checked_int32_value month); [by rewrite bool_decide_eq_true_2|done|].
    destruct (decide (month = 0)) as [->|Hm0]; [|left; by apply of_int_div].
    right. split; [done|]. destruct (of_int_nonzero n Hn0 Hn) as (p & _ & ->). by eexists.
Qed.

(** ** Witnesses *)

Definition c_class : char_class := mk_class (fun _ => false) (fun _ => false) (fun _ => false) (fun _ => false).
Definition c_ctype : ctype := mk_ctype (fun _ => false) (fun z => z).

Lemma yminterval_roundtrip_witness :
  exists text, yminterval_out (ym_interval (-2147483648)) (-1) = Ok text /\
    yminterval_in c_class c_ctype text (-1) = Ok (ym_interval (-2147483648)).
Proof. apply (yminterval_roundtrip c_class c_ctype (-2147483648) (-1) 2); [by vm_compute|by left|done]. Defined.

Lemma yminterval_order_witness :
  let x := ym_interval 3558399 in
  let y := ym_interval (-3558399) in
  yminterval_lt x y = false /\ yminterval_le x y = false /\ yminterval_eq x y = false /\
  yminterval_gt x y = true /\ yminterval_ge x y = true /\ yminterval_ne x y = true /\
  yminterval_smaller x y = ym_interval (-3558399) /\ yminterval_larger x y = ym_interval 3558399 /\
  (yminterval_eq x y = true -> yminterval_hash x = yminterval_hash y /\
     yminterval_hash_extended x 7 = yminterval_hash_extended y 7).
Proof. apply (yminterval_order 3558399 (-3558399) 7); by vm_compute. Defined.

(** One year, minus nine months, and an overflow. *)
Lemma yminterval_in_wraps_witness :
  yminterval_in c_class c_ctype (lit "+4294967297-03") (-1) = Ok (ym_interval 15) /\
  yminterval_in c_class c_ctype (lit "+4294967295-03") (-1) = Ok (ym_interval (-9)) /\
  yminterval_in c_class c_ctype (lit "+178956971-03") (-1) = DateTimeParseError DTERR_INTERVAL_OVERFLOW.
Proof.
  split; [|split].
  - apply (yminterval_in_wraps c_class c_ctype 4294967297 3 (lit "4294967297") (lit "03"));
      [by vm_compute|by vm_compute|cbn; lia|cbn; lia|lia].
  - apply (yminterval_in_wraps c_class c_ctype 4294967295 3 (lit "4294967295") (lit "03"));
      [by vm_compute|by vm_compute|cbn; lia|cbn; lia|lia].
  - apply (yminterval_in_wraps c_class c_ctype 178956971 3 (lit "178956971") (lit "03"));
      [by vm_compute|by vm_compute|cbn; lia|cbn; lia|lia].
Defined.

Lemma yminterval_sum_exact_witness :
  yminterval_pl (ym_interval INT_MAX) (ym_interval 1) = interval_out_of_range /\
  yminterval_mi (ym_interval INT_MAX) (ym_interval 1) = Ok (ym_interval 2147483646).
Proof. apply (yminterval_sum_exact INT_MAX 1); by vm_compute. Defined.

Lemma yminterval_product_exact_witness :
  yminterval_mul (ym_interval 14) (of_int (-3)) = Ok (ym_interval (-42)) /\
  mul_d_yminterval (of_int (-3)) (ym_interval 14) = yminterval_mul (ym_interval 14) (of_int (-3)) /\
  (is_int32 (-42) -> yminterval_div (ym_interval (-42)) (of_int (-3)) = Ok (ym_interval 14)).
Proof. apply (yminterval_product_exact 14 (-3)); by vm_compute. Defined.
