(* ===== verification/DsInterval.v ===== *)
(** * INTERVAL DAY TO SECOND

    The data type of [contrib/ivorysql_ora/src/datatype/dsinterval.c]: text and
    binary input and output, type modifiers, comparison, hashing and arithmetic.
    A number operand is the double that [numeric_float8] makes of it.

    Theorems: output and input are inverse for the normal values (no months, less
    than a day of time, one sign), fractions of seconds included; coercion rounds to
    the nearest unit; comparison is the order of the lengths up to the overflow of
    its 64-bit span; sums, differences and products are exact where they are not
    refused. What the code gets wrong is proved next to it: the overflow of the
    comparison, sums with two signs, differences refused without need. *)

From S2P Require Import Prelude Timestamp Float8 CText FloatText OraDate OraInterval HashFn DateTokens IntervalDecode.

Definition DSINTERVAL_RANGE_MASK : Z := 32767.
Definition DSINTERVAL_PRECISION_MASK : Z := 255.
Definition INTERVAL_DAY_TYPMOD (p r : Z) : Z :=
  Z.lor (Z.shiftl (Z.land r DSINTERVAL_RANGE_MASK) 16) (Z.shiftl (Z.land p DSINTERVAL_PRECISION_MASK) 8).
Definition INTERVAL_DS_TYPMOD (sp dp r : Z) : Z :=
  Z.lor (Z.lor (Z.shiftl (Z.land r DSINTERVAL_RANGE_MASK) 16) (Z.shiftl (Z.land dp DSINTERVAL_PRECISION_MASK) 8))
    (Z.land sp DSINTERVAL_PRECISION_MASK).
Definition INTERVAL_DAY_PRECISION (t : Z) : Z := Z.land (Z.shiftr t 8) DSINTERVAL_PRECISION_MASK.
Definition INTERVAL_SECOND_PRECISION (t : Z) : Z := Z.land t DSINTERVAL_PRECISION_MASK.
Definition INTERVAL_FULL_PRECISION : Z := 65535.

(** ** Adjusting to a type modifier *)

Definition IntervalScales : list Z := [1000000; 100000; 10000; 1000; 100; 10; 1].
Definition IntervalOffsets : list Z := [500000; 50000; 5000; 500; 50; 5; 0].

(** The fields below the range are cut off. *)
Definition truncate_to_range (range time : Z) : result Z :=
  if range =? INTERVAL_FULL_RANGE then Ok time
  else if range =? INTERVAL_MASK DAY then Ok 0
  else if range =? INTERVAL_MASK HOUR then Ok (Z.quot time USECS_PER_HOUR * USECS_PER_HOUR)
  else if range =? INTERVAL_MASK MINUTE then Ok (Z.quot time USECS_PER_MINUTE * USECS_PER_MINUTE)
  else if range =? INTERVAL_MASK SECOND then Ok time
  else if range =? DAY_TO_HOUR then Ok (Z.quot time USECS_PER_HOUR * USECS_PER_HOUR)
  else if range =? DAY_TO_MINUTE then Ok (Z.quot time USECS_PER_MINUTE * USECS_PER_MINUTE)
  else if range =? DAY_TO_SECOND then Ok time
  else if range =? HOUR_TO_MINUTE then Ok (Z.quot time USECS_PER_MINUTE * USECS_PER_MINUTE)
  else if range =? HOUR_TO_SECOND then Ok time
  else if range =? MINUTE_TO_SECOND then Ok time
  else ereport ERRCODE_INTERNAL_ERROR "unrecognized interval typmod: %d".

(** Rounding to the precision of the seconds, halves away from zero. *)
Definition round_seconds (precision time : Z) : result Z :=
  if precision =? INTERVAL_FULL_PRECISION then Ok time
  else if (precision <? 0) || (ORACLE_MAX_INTERVAL_PRECISION <? precision) then
    ereport ERRCODE_INVALID_PARAMETER_VALUE "interval(%d) precision must be between %d and %d"
  else
    let precision := if MAX_INTERVAL_PRECISION <? precision then MAX_INTERVAL_PRECISION else precision in
    let scale := nth (Z.to_nat precision) IntervalScales 0 in
    let offset := nth (Z.to_nat precision) IntervalOffsets 0 in
    Ok (if 0 <=? time then Z.quot (int64 (time + offset)) scale * scale
        else - (Z.quot (int64 (int64 (- time) + offset)) scale * scale)).

(** Whole days of the time move to the days. *)
Definition carry_days (i : Interval) : Interval :=
  mk_interval (Z.rem (iv_time i) USECS_PER_DAY) (int32 (iv_day i + Z.quot (iv_time i) USECS_PER_DAY)) (iv_month i).

Definition AdjustIntervalForTypmod (i : Interval) (typmod : Z) : result Interval :=
  time ← (if 0 <=? typmod then
            time ← truncate_to_range (INTERVAL_RANGE typmod) (iv_time i);
            round_seconds (INTERVAL_SECOND_PRECISION typmod) time
          else Ok (iv_time i));
  Ok (carry_days (mk_interval time (iv_day i) (iv_month i))).

Definition AdjustTypmodForDay (i : Interval) (typmod : Z) : result Interval :=
  if (0 <? typmod) && negb (INTERVAL_RANGE typmod =? INTERVAL_FULL_RANGE) then
    _ ← leading_precision (INTERVAL_DAY_PRECISION typmod) (c_abs (iv_day i)); Ok i
  else Ok i.

(** Both adjustments, as every function that takes a typmod makes them; the
    coercion function [dsinterval] is just that. *)
Definition dsinterval (i : Interval) (typmod : Z) : result Interval :=
  i ← AdjustIntervalForTypmod i typmod; AdjustTypmodForDay i typmod.

(** ** Input *)

Section Text.

Variable cc : char_class.
Variable lc : ctype.

(** The check at the end of [DecodeTime]. *)
Definition ds_sane (t : itm) : bool :=
  negb ((it_hour t <? 0) || (it_min t <? 0) || (it_sec t <? 0) || (it_fsec t <? 0) || (USECS_PER_SEC <? it_fsec t)).

(** The type of the rightmost field, by the range of the typmod. *)
Definition ds_rightmost (range : Z) : dt Z :=
  if (range =? INTERVAL_MASK YEAR) || (range =? INTERVAL_MASK MONTH) || (range =? YEAR_TO_MONTH) then DtErr DTERR_BAD_FORMAT
  else if range =? INTERVAL_MASK DAY then DtOk DTK_DAY
  else if (range =? INTERVAL_MASK HOUR) || (range =? DAY_TO_HOUR) then DtOk DTK_HOUR
  else if (range =? INTERVAL_MASK MINUTE) || (range =? HOUR_TO_MINUTE) || (range =? DAY_TO_MINUTE) then DtOk DTK_MINUTE
  else DtOk DTK_SECOND.

(** A number: the type, [val] and [fval]; [val2] is not used here. *)
Definition ds_number (range type : Z) (text : bytes) (val2 : Z) : dt (Z * Z * Z * float8) :=
  type ← (if type =? IGNORE_DTF then ds_rightmost range else DtOk type);
  let '(val, erange, cp) := strtoi cc text in
  if erange : bool then DtErr DTERR_FIELD_OVERFLOW
  else
    match cp with
    | [] => DtOk (type, val, val2, of_int 0)
    | c :: _ =>
        if is_char "." c then
          let '(fval, erange, rest) := strtod cc cp in
          match rest with
          | _ :: _ => DtErr DTERR_BAD_FORMAT
          | [] => if erange : bool then DtErr DTERR_BAD_FORMAT
                  else DtOk (type, val, val2, if is_char "-" (first_char text) then SFopp fval else fval)
          end
        else DtErr DTERR_BAD_FORMAT
    end.

Definition DecodeDsinterval (range : Z) (fields : list (Z * bytes)) : dt (Z * itm) :=
  DecodeFields cc ds_sane (ds_number range) false range fields.

(** The fields must match the range exactly; those after the first have their
    usual bounds. *)
Definition ds_check (range : Z) (t : itm) : result unit :=
  let valid mday hour min sec := require (set_fields_are false false mday hour min sec t)
                                   "The character string you specified is not a valid interval" in
  let hours := require (negb (23 <? c_abs (it_hour t))) "hour must be between 0 and 23" in
  let minutes := require (negb (59 <? c_abs (it_min t))) "minutes must be between 0 and 59" in
  let seconds := require (negb (59 <? c_abs (it_sec t))) "seconds must be between 0 and 59" in
  if range =? INTERVAL_MASK DAY then valid true false false false
  else if range =? DAY_TO_HOUR then _ ← valid true true false false; hours
  else if range =? DAY_TO_MINUTE then _ ← valid true true true false; _ ← hours; minutes
  else if (range =? INTERVAL_FULL_RANGE) || (range =? DAY_TO_SECOND) then
    _ ← valid true true true true; _ ← hours; _ ← minutes; seconds
  else if range =? INTERVAL_MASK HOUR then valid false true false false
  else if range =? HOUR_TO_MINUTE then _ ← valid false true true false; minutes
  else if range =? HOUR_TO_SECOND then _ ← valid false true true true; _ ← minutes; seconds
  else if range =? INTERVAL_MASK MINUTE then valid false false true false
  else if range =? MINUTE_TO_SECOND then _ ← valid false false true true; seconds
  else if range =? INTERVAL_MASK SECOND then valid false false false true
  else ereport ERRCODE_DATETIME_VALUE_OUT_OF_RANGE "missing or invalid datetime field".

(** Only the first field may have a sign. *)
Definition signs_misplaced (fields : list (Z * bytes)) : bool :=
  let istz := length (filter (fun f => f.1 = DTK_TZ) fields) in
  (1 <? length fields)%nat &&
  ((1 <? istz)%nat || ((istz =? 1)%nat && negb (match fields with (ty, _) :: _ => ty =? DTK_TZ | [] => false end))).

Definition dsinterval_in (str : bytes) (typmod : Z) : result Interval :=
  let range := if 0 <=? typmod then INTERVAL_RANGE typmod else INTERVAL_FULL_RANGE in
  let str := skip_blanks str in
  let str := squeeze_blanks (fun c => is_char ":" c || is_char "." c) (is_char ":") (length str) str in
  let parsed := ParseDateTime cc lc str 256 MAXDATEFIELDS in
  _ ← (match parsed with
       | DtOk fields => require (negb (signs_misplaced fields)) "the interval is invalid"
       | DtErr _ => Ok tt
       end);
  let decoded := fields ← parsed; DecodeDsinterval range fields in
  let '(decoded, isiso) := match decoded with
                           | DtErr DTERR_BAD_FORMAT => (ora_DecodeISO8601Interval cc str, true)
                           | _ => (decoded, false)
                           end in
  match decoded with
  | DtErr DTERR_FIELD_OVERFLOW => DateTimeParseError DTERR_INTERVAL_OVERFLOW
  | DtErr e => DateTimeParseError e
  | DtOk (dtype, t) =>
      _ ← (if isiso : bool then
             require ((c_abs (it_year t) =? 0) && (c_abs (it_mon t) =? 0))
               "The character string you specified is not a valid interval"
           else ds_check range t);
      let reset z := if isiso : bool then z else if unset z then 0 else z in
      let t := mk_itm 0 0 (reset (it_mday t)) (reset (it_hour t)) (reset (it_min t)) (reset (it_sec t)) (it_fsec t) in
      if dtype =? DTK_DELTA then
        match tm2interval t with
        | None => ereport ERRCODE_DATETIME_VALUE_OUT_OF_RANGE "interval out of range"
        | Some i => dsinterval i typmod
        end
      else ereport ERRCODE_INTERNAL_ERROR "unexpected dtype %d while parsing interval"
  end.

End Text.

(** ** Output *)

(** [AppendSeconds], with [fillzeros]: nanoseconds, with trailing zeros cut down to
    the precision. *)
Definition AppendSeconds (sec fsec precision : Z) : bytes :=
  let fsec := int32 (fsec * 1000) in
  if fsec =? 0 then
    if precision =? 0 then fmt_0d 2 (c_abs sec)
    else fmt_0d 2 (c_abs sec) ++ "."%char :: fmt_0d precision 0
  else
    TrimTrailingZeros (Z.to_nat (ORACLE_MAX_INTERVAL_PRECISION - precision))
      (fmt_0d 2 (c_abs sec) ++ "."%char :: fmt_0d ORACLE_MAX_INTERVAL_PRECISION (Z.abs fsec)).

Definition EncodeDsinterval (t : itm) (day_precision second_precision : Z) : bytes :=
  let neg := has_negative t in
  let standard := sql_standard_value t in
  let sign := (if neg && standard then ["-"%char] else []) ++ (if negb neg then ["+"%char] else []) in
  let t' := if neg && standard then negate_tm t else t in
  let seconds := AppendSeconds (it_sec t') (it_fsec t') second_precision in
  let day_time day :=
    fmt_0d day_precision day ++ " "%char :: fmt_0d 2 (it_hour t') ++ ":"%char :: fmt_0d 2 (it_min t') ++ ":"%char :: seconds in
  sign ++
  (if negb neg && negb (has_positive t) then day_time (it_mday t')
   else if negb standard then mixed_prefix t' ++ seconds
   else if has_year_month t then fmt_d (it_year t') ++ "-"%char :: fmt_d (it_mon t')
   else if negb (it_mday t =? 0) then day_time (it_mday t')
   else day_time 0).

(** The precisions of days and seconds that the output uses. *)
Definition ds_out_precision (typmod : Z) : Z * Z :=
  let cap p := if ORACLE_MAX_INTERVAL_PRECISION <? p then ORACLE_MAX_INTERVAL_PRECISION else p in
  if 0 <=? typmod then (cap (INTERVAL_DAY_PRECISION typmod), cap (INTERVAL_SECOND_PRECISION typmod))
  else (ORACLE_MAX_INTERVAL_PRECISION, ORACLE_MAX_INTERVAL_PRECISION).

Definition dsinterval_out (span : Interval) (typmod : Z) : result bytes :=
  t ← interval2tm span;
  let '(day_precision, second_precision) := ds_out_precision typmod in
  Ok (EncodeDsinterval t day_precision second_precision).

(** ** Type modifiers *)

Definition ds_precisions_ok (ps : list Z) : result unit :=
  if existsb (fun p => p <? 0) ps then
    ereport ERRCODE_INVALID_PARAMETER_VALUE "INTERVAL(%d) precision must not be negative"
  else if existsb (fun p => ORACLE_MAX_INTERVAL_PRECISION <? p) ps then
    ereport ERRCODE_INVALID_PARAMETER_VALUE "interval precision is out of range"
  else Ok tt.

Definition dsintervaltypmodin (tl : list Z) : result Z :=
  let bad {A} : result A := ereport ERRCODE_INVALID_PARAMETER_VALUE "invalid INTERVAL type modifier" in
  match tl with
  | r :: p1 :: rest =>
      if (r =? INTERVAL_MASK DAY) || (r =? INTERVAL_MASK HOUR) || (r =? INTERVAL_MASK MINUTE) || (r =? DAY_TO_HOUR)
         || (r =? DAY_TO_MINUTE) || (r =? HOUR_TO_MINUTE) then
        match rest with
        | [] => _ ← ds_precisions_ok [p1]; Ok (INTERVAL_DAY_TYPMOD p1 r)
        | _ => bad
        end
      else if r =? INTERVAL_MASK SECOND then
        match rest with
        | [] => _ ← ds_precisions_ok [p1]; Ok (INTERVAL_DS_TYPMOD p1 2 r)
        | [p2] => _ ← ds_precisions_ok [p1; p2]; Ok (INTERVAL_DS_TYPMOD p2 p1 r)
        | _ => Ok (-1)
        end
      else if (r =? DAY_TO_SECOND) || (r =? HOUR_TO_SECOND) || (r =? MINUTE_TO_SECOND) then
        match rest with
        | [p2] => _ ← ds_precisions_ok [p1; p2]; Ok (INTERVAL_DS_TYPMOD p2 p1 r)
        | _ => bad
        end
      else ereport ERRCODE_INVALID_PARAMETER_VALUE "missing or invalid datetime field"
  | _ => ereport ERRCODE_INVALID_PARAMETER_VALUE "invalid INTERVAL DAY TO SECOND type modifier"
  end.

(** The ranges a DAY TO SECOND type modifier can have. *)
Definition ds_ranges : list Z :=
  [INTERVAL_MASK DAY; INTERVAL_MASK HOUR; INTERVAL_MASK MINUTE; INTERVAL_MASK SECOND; DAY_TO_HOUR; DAY_TO_MINUTE;
   DAY_TO_SECOND; HOUR_TO_MINUTE; HOUR_TO_SECOND; MINUTE_TO_SECOND].

Definition dsintervaltypmodout (typmod : Z) : result bytes :=
  if typmod <? 0 then Ok []
  else
    let precision p := "("%char :: fmt_d p ++ [")"%char] in
    if existsb (Z.eqb (INTERVAL_RANGE typmod)) ds_ranges then
      Ok (lit " day" ++ precision (INTERVAL_DAY_PRECISION typmod) ++
          lit " to second" ++ precision (INTERVAL_SECOND_PRECISION typmod))
    else ereport ERRCODE_INVALID_PARAMETER_VALUE "invalid INTERVAL type modifier".

(** ** Binary input and output *)

Definition dsinterval_recv (msg : bytes) (typmod : Z) : result Interval :=
  '(i, _) ← recv_interval msg; dsinterval i typmod.

Definition dsinterval_send (i : Interval) : bytes := send_interval i.

(** ** Comparison *)

Definition dsinterval_cmp_value (i : Interval) : Z :=
  int64 (iv_time i + int64 (int64 (iv_day i * 24) * USECS_PER_HOUR)).

Definition dsinterval_cmp_internal (a b : Interval) : Z :=
  let span1 := dsinterval_cmp_value a in
  let span2 := dsinterval_cmp_value b in
  if span1 <? span2 then -1 else if span2 <? span1 then 1 else 0.

Definition dsinterval_eq (a b : Interval) : bool := dsinterval_cmp_internal a b =? 0.
Definition dsinterval_ne (a b : Interval) : bool := negb (dsinterval_cmp_internal a b =? 0).
Definition dsinterval_lt (a b : Interval) : bool := dsinterval_cmp_internal a b <? 0.
Definition dsinterval_gt (a b : Interval) : bool := 0 <? dsinterval_cmp_internal a b.
Definition dsinterval_le (a b : Interval) : bool := dsinterval_cmp_internal a b <=? 0.
Definition dsinterval_ge (a b : Interval) : bool := 0 <=? dsinterval_cmp_internal a b.
Definition dsinterval_cmp (a b : Interval) : Z := dsinterval_cmp_internal a b.

Definition dsinterval_smaller (a b : Interval) : Interval := if dsinterval_cmp_internal a b <? 0 then a else b.
Definition dsinterval_larger (a b : Interval) : Interval := if 0 <? dsinterval_cmp_internal a b then a else b.

Definition dsinterval_hash (i : Interval) : Z := hashint8 (dsinterval_cmp_value i).
Definition dsinterval_hash_extended (i : Interval) (seed : Z) : Z := hashint8extended (dsinterval_cmp_value i) seed.

(** ** Arithmetic *)

Definition dsinterval_pl (span1 span2 : Interval) : result Interval :=
  let day := int32 (iv_day span1 + iv_day span2) in
  if SAMESIGN (iv_day span1) (iv_day span2) && negb (SAMESIGN day (iv_day span1)) then interval_out_of_range
  else
    let time := int64 (iv_time span1 + iv_time span2) in
    if SAMESIGN (iv_time span1) (iv_time span2) && negb (SAMESIGN time (iv_time span1)) then interval_out_of_range
    else Ok (carry_days (mk_interval time day 0)).

Definition dsinterval_mi (span1 span2 : Interval) : result Interval :=
  let diff := int64 (dsinterval_cmp_value span1 - dsinterval_cmp_value span2) in
  let day := int32 (Z.quot diff USECS_PER_DAY) in
  let time := Z.rem diff USECS_PER_DAY in
  if negb (SAMESIGN (iv_day span1) (iv_day span2)) && negb (SAMESIGN day (iv_day span1)) then interval_out_of_range
  else if negb (SAMESIGN (iv_time span1) (iv_time span2)) && negb (SAMESIGN time (iv_time span1)) then interval_out_of_range
  else Ok (mk_interval time day 0).

Definition TSROUND (j : float8) : float8 := f_div (rint (f_mul j (of_int 1000000))) (of_int 1000000).

(** A conversion to int without a check of the range, which C leaves undefined
    outside it. *)
Definition unchecked_int32 (x : float8) : result Z :=
  match to_int32 x with Some z => Ok z | None => ereport ERRCODE_INTERNAL_ERROR "undefined conversion" end.

(** The body of [dsinterval_mul] and [dsinterval_div]; [op] multiplies or divides
    an integer by the factor. Their last check, [result->day > INT_MAX] on an int32,
    never fires. *)
Definition ds_scale (op : Z -> float8) (span : Interval) : result Interval :=
  month ← checked_int32 (op (iv_month span));
  day ← checked_int32 (op (iv_day span));
  let month_remainder_days := TSROUND (f_mul (f_sub (op (iv_month span)) (of_int month)) (of_int DAYS_PER_MONTH)) in
  month_days ← unchecked_int32 month_remainder_days;
  let sec_remainder :=
    TSROUND (f_mul (f_sub (f_add (f_sub (op (iv_day span)) (of_int day)) month_remainder_days) (of_int month_days))
               (of_int SECS_PER_DAY)) in
  '(day, sec_remainder) ←
    (if f_le (of_int SECS_PER_DAY) (SFabs sec_remainder) then
       days ← unchecked_int32 (f_div sec_remainder (of_int SECS_PER_DAY));
       Ok (int32 (day + days), f_sub sec_remainder (of_int (days * SECS_PER_DAY)))
     else Ok (day, sec_remainder));
  let day := int32 (day + month_days) in
  time ← checked_int64 (rint (f_add (op (iv_time span)) (f_mul sec_remainder (of_int USECS_PER_SEC))));
  Ok (carry_days (mk_interval time day 0)).

Definition dsinterval_mul (span : Interval) (factor : float8) : result Interval :=
  ds_scale (fun z => f_mul (of_int z) factor) span.

Definition mul_d_dsinterval (factor : float8) (span : Interval) : result Interval := dsinterval_mul span factor.

Definition dsinterval_div (span : Interval) (factor : float8) : result Interval :=
  if f_is_zero factor then ereport ERRCODE_DIVISION_BY_ZERO "division by zero"
  else ds_scale (fun z => f_div (of_int z) factor) span.

Definition in_range_dsinterval_dsinterval (val base offset : Interval) (sub less : bool) : result bool :=
  if dsinterval_cmp_value offset <? 0 then
    ereport ERRCODE_INVALID_PRECEDING_OR_FOLLOWING_SIZE "invalid preceding or following size in window function"
  else
    sum ← (if sub then dsinterval_mi base offset else dsinterval_pl base offset);
    Ok (if less then dsinterval_cmp_internal val sum <=? 0 else 0 <=? dsinterval_cmp_internal val sum).

(** ** Normal values *)

(** The values the type means to have: no months, less than a day of time, and one
    sign. [INT_MAX] days are left out: the input function takes that number for an
    unset field. *)
Definition ds_normal (i : Interval) : Prop :=
  iv_month i = 0 /\ Z.abs (iv_day i) < INT_MAX /\ Z.abs (iv_time i) < USECS_PER_DAY /\
  ((0 <= iv_day i /\ 0 <= iv_time i) \/ (iv_day i <= 0 /\ iv_time i <= 0)).

(** The length in microseconds. *)
Definition ds_total (i : Interval) : Z := iv_day i * USECS_PER_DAY + iv_time i.

(** Sign, days, hours, minutes, seconds. *)
Definition ds_text (day_precision second_precision : Z) (i : Interval) : bytes :=
  let a := Z.abs (iv_time i) in
  sign_char ((iv_day i <? 0) || (iv_time i <? 0)) :: fmt_0d day_precision (Z.abs (iv_day i)) ++
  " "%char :: fmt_0d 2 (a / USECS_PER_HOUR) ++ ":"%char :: fmt_0d 2 (a mod USECS_PER_HOUR / USECS_PER_MINUTE) ++
  ":"%char :: AppendSeconds (a mod USECS_PER_MINUTE / USECS_PER_SEC) (a mod USECS_PER_SEC) second_precision.

Lemma interval2tm_time time day :
  Z.abs time < USECS_PER_DAY ->
  interval2tm (mk_interval time day 0) =
  Ok (mk_itm 0 0 day (Z.quot time USECS_PER_HOUR) (Z.quot (Z.rem time USECS_PER_HOUR) USECS_PER_MINUTE)
        (Z.quot (Z.rem time USECS_PER_MINUTE) USECS_PER_SEC) (Z.rem time USECS_PER_SEC)).
Proof.
  unfold interval2tm, USECS_PER_DAY, USECS_PER_HOUR, USECS_PER_MINUTE, USECS_PER_SEC. intros H. cbn [iv_time iv_day iv_month].
  rewrite int32_small by (unfold is_int32, INT_MIN, INT_MAX; lia). unfold SAMESIGN. rewrite Bool.eqb_reflx. cbn [negb].
  f_equal. f_equal; lia.
Qed.

(** The fields of a time, by its sign. *)
Lemma time_fields (neg : bool) a :
  0 <= a ->
  let time := if neg then - a else a in
  let sgn z := if neg then - z else z in
  Z.quot time USECS_PER_HOUR = sgn (a / USECS_PER_HOUR) /\
  Z.quot (Z.rem time USECS_PER_HOUR) USECS_PER_MINUTE = sgn (a mod USECS_PER_HOUR / USECS_PER_MINUTE) /\
  Z.quot (Z.rem time USECS_PER_MINUTE) USECS_PER_SEC = sgn (a mod USECS_PER_MINUTE / USECS_PER_SEC) /\
  Z.rem time USECS_PER_SEC = sgn (a mod USECS_PER_SEC).
Proof.
  intros Ha. assert (Hq : forall z b, 0 <= z -> 0 < b -> Z.quot z b = z / b) by (intros; by apply Z.quot_div_nonneg).
  assert (Hr : forall z b, 0 <= z -> 0 < b -> Z.rem z b = z mod b) by (intros; by apply Z.rem_mod_nonneg).
  assert (Hm : forall b, 0 < b -> 0 <= a mod b) by (intros; by apply Z.mod_pos_bound).
  unfold USECS_PER_HOUR, USECS_PER_MINUTE, USECS_PER_SEC in *. destruct neg; cbv zeta iota.
  - rewrite !Z.rem_opp_l, !Z.quot_opp_l by done. rewrite !Hr by done. rewrite !Hq by (done || by apply Hm). done.
  - rewrite !Hr by done. rewrite !Hq by (done || by apply Hm). done.
Qed.

Lemma time_fields_bounds a :
  0 <= a < USECS_PER_DAY ->
  0 <= a / USECS_PER_HOUR < 24 /\ 0 <= a mod USECS_PER_HOUR / USECS_PER_MINUTE < 60 /\
  0 <= a mod USECS_PER_MINUTE / USECS_PER_SEC < 60 /\ 0 <= a mod USECS_PER_SEC < 1000000 /\
  ((a / USECS_PER_HOUR * 60 + a mod USECS_PER_HOUR / USECS_PER_MINUTE) * 60 + a mod USECS_PER_MINUTE / USECS_PER_SEC) *
    USECS_PER_SEC + a mod USECS_PER_SEC = a.
Proof.
  unfold USECS_PER_DAY, USECS_PER_HOUR, USECS_PER_MINUTE, USECS_PER_SEC. intros Ha.
  assert (E1 : a mod 60000000 = (a mod 3600000000) mod 60000000) by (symmetry; apply Z.mod_mod_divide; by exists 60).
  assert (E2 : a mod 1000000 = (a mod 60000000) mod 1000000) by (symmetry; apply Z.mod_mod_divide; by exists 60).
  rewrite E2, E1. clear E1 E2.
  pose proof (Z.div_mod a 3600000000 ltac:(lia)). pose proof (Z.mod_pos_bound a 3600000000 ltac:(lia)).
  set (h := a / 3600000000) in *. set (r := a mod 3600000000) in *. clearbody h r.
  pose proof (Z.div_mod r 60000000 ltac:(lia)). pose proof (Z.mod_pos_bound r 60000000 ltac:(lia)).
  set (m := r / 60000000) in *. set (q := r mod 60000000) in *. clearbody m q.
  pose proof (Z.div_mod q 1000000 ltac:(lia)). pose proof (Z.mod_pos_bound q 1000000 ltac:(lia)).
  set (s := q / 1000000) in *. set (f := q mod 1000000) in *. clearbody s f. lia.
Qed.

(** Negating what is printed with a minus. *)
Lemma ds_negate (neg : bool) day h m s f :
  (if neg then day <= 0 /\ h <= 0 /\ m <= 0 /\ s <= 0 /\ f <= 0 else 0 <= day /\ 0 <= h /\ 0 <= m /\ 0 <= s /\ 0 <= f) ->
  Z.abs day < INT_MAX -> Z.abs h < 24 -> Z.abs m < 60 -> Z.abs s < 60 -> Z.abs f < 1000000 ->
  (if neg then negate_tm (mk_itm 0 0 day h m s f) else mk_itm 0 0 day h m s f) =
  mk_itm 0 0 (Z.abs day) (Z.abs h) (Z.abs m) (Z.abs s) (Z.abs f).
Proof.
  unfold INT_MAX. intros Hs Hd Hh Hm Hsec Hf. destruct neg.
  - unfold negate_tm. cbn [it_year it_mon it_mday it_hour it_min it_sec it_fsec].
    rewrite !int32_small by (unfold is_int32, INT_MIN, INT_MAX; lia). f_equal; lia.
  - f_equal; lia.
Qed.

Lemma EncodeDsinterval_signs (neg : bool) day h m s f dp sp :
  (if neg then day <= 0 /\ h <= 0 /\ m <= 0 /\ s <= 0 /\ f <= 0 else 0 <= day /\ 0 <= h /\ 0 <= m /\ 0 <= s /\ 0 <= f) ->
  neg = (day <? 0) || (h <? 0) || (m <? 0) || (s <? 0) || (f <? 0) ->
  Z.abs day < INT_MAX -> Z.abs h < 24 -> Z.abs m < 60 -> Z.abs s < 60 -> Z.abs f < 1000000 ->
  EncodeDsinterval (mk_itm 0 0 day h m s f) dp sp =
  sign_char neg :: fmt_0d dp (Z.abs day) ++ " "%char :: fmt_0d 2 (Z.abs h) ++ ":"%char :: fmt_0d 2 (Z.abs m) ++
  ":"%char :: AppendSeconds (Z.abs s) (Z.abs f) sp.
Proof.
  intros Hsign Hneg Hd Hh Hm Hs Hf. pose proof (ds_negate neg day h m s f Hsign Hd Hh Hm Hs Hf) as Ht.
  unfold EncodeDsinterval. set (t := mk_itm 0 0 day h m s f) in *.
  assert (En : has_negative t = neg) by (by rewrite Hneg).
  assert (Ep : neg = true -> has_positive t = false).
  { intros ->. unfold has_positive. cbn. destruct (Z.ltb_spec 0 day), (Z.ltb_spec 0 h), (Z.ltb_spec 0 m), (Z.ltb_spec 0 s),
      (Z.ltb_spec 0 f); cbn; lia. }
  assert (Est : sql_standard_value t = true).
  { unfold sql_standard_value. rewrite En. change (has_year_month t) with false. cbn [andb negb]. rewrite andb_true_r.
    destruct neg; [by rewrite Ep|done]. }
  rewrite En, Est. change (has_year_month t) with false. cbn [andb negb]. rewrite !andb_true_r, Ht.
  cbn [it_year it_mon it_mday it_hour it_min it_sec it_fsec].
  assert (Hday : (it_mday t =? 0) = true -> Z.abs day = 0) by (cbn; lia).
  destruct neg; cbn [negb andb app sign_char]; f_equal.
  - destruct (it_mday t =? 0); [by rewrite Hday|done].
  - destruct (has_positive t); cbn [negb]; [|done]. destruct (it_mday t =? 0); [by rewrite Hday|done].
Qed.

Lemma dsinterval_out_text i typmod :
  ds_normal i ->
  dsinterval_out i typmod = Ok (ds_text (ds_out_precision typmod).1 (ds_out_precision typmod).2 i).
Proof.
  destruct i as [time day month]. unfold ds_normal. cbn [iv_time iv_day iv_month]. intros (-> & Hd & Ht & Hs).
  unfold dsinterval_out. rewrite interval2tm_time by done. cbn [mbind result_bind].
  destruct (ds_out_precision typmod) as [dp sp]. cbn [fst snd]. f_equal. unfold ds_text. cbn [iv_time iv_day].
  set (neg := (day <? 0) || (time <? 0)). set (a := Z.abs time).
  assert (Etime : time = if neg then - a else a).
  { unfold neg, a. destruct (Z.ltb_spec day 0), (Z.ltb_spec time 0); cbn [orb]; lia. }
  assert (Ha : 0 <= a < USECS_PER_DAY) by (unfold a; lia).
  destruct (time_fields neg a ltac:(lia)) as (E1 & E2 & E3 & E4). rewrite <- Etime in E1, E2, E3, E4.
  rewrite E1, E2, E3, E4. clear E1 E2 E3 E4. destruct (time_fields_bounds a Ha) as (B1 & B2 & B3 & B4 & Ea).
  set (h := a / USECS_PER_HOUR) in *. set (m := a mod USECS_PER_HOUR / USECS_PER_MINUTE) in *.
  set (s := a mod USECS_PER_MINUTE / USECS_PER_SEC) in *. set (f := a mod USECS_PER_SEC) in *. clearbody h m s f.
  assert (Habs : forall z, 0 <= z -> Z.abs (if neg then - z else z) = z) by (intros; destruct neg; lia).
  assert (Hzero : neg = false -> 0 <= day) by (unfold neg; lia).
  assert (Hless : neg = true -> day <= 0 /\ (day < 0 \/ h > 0 \/ m > 0 \/ s > 0 \/ f > 0)).
  { unfold neg, USECS_PER_SEC, a in *. clear -Ea Hs Ht. lia. }
  clear Ea Etime Hs Ht. clearbody neg a.
  rewrite (EncodeDsinterval_signs neg); rewrite ?Habs by lia; try lia; [done|..].
  - destruct neg; lia.
  - destruct neg; [|lia]. specialize (Hless eq_refl). lia.
Qed.

(** ** Reading back the output *)

(** The seconds are two digits and a fraction of the same value. *)
Lemma AppendSeconds_text sec fsec precision :
  0 <= sec < 60 -> 0 <= fsec < 1000000 -> 0 <= precision <= 9 ->
  exists frac, AppendSeconds sec fsec precision = fmt_0d 2 sec ++ frac /\ fraction_of fsec frac /\ (length frac <= 10)%nat.
Proof.
  intros Hs Hf Hp. unfold AppendSeconds, c_abs, ORACLE_MAX_INTERVAL_PRECISION.
  rewrite !int32_small by (unfold is_int32, INT_MIN, INT_MAX; lia). rewrite !Z.abs_eq by lia.
  destruct (Z.eqb_spec (fsec * 1000) 0) as [E|E].
  - assert (fsec = 0) as -> by lia. destruct (Z.eqb_spec precision 0).
    + exists []. rewrite app_nil_r. split; [done|]. split; [by left|cbn; lia].
    + assert (Hl : length (fmt_0d precision 0) = Z.to_nat precision).
      { apply fmt_0d_length; [lia|lia|]. apply Z.pow_pos_nonneg; lia. }
      exists ("."%char :: fmt_0d precision 0). split; [done|]. split; [|cbn [length]; lia].
      right. exists 0, (fmt_0d precision 0). split; [done|]. split; [apply fmt_0d_digits; lia|]. split; [lia|lia].
  - assert (Hl : length (fmt_0d 9 (fsec * 1000)) = 9%nat) by (apply fmt_0d_length; lia).
    destruct (TrimTrailingZeros_digits (Z.to_nat (9 - precision)) (fmt_0d 2 sec ++ ["."%char]) (fmt_0d 9 (fsec * 1000))
      (fsec * 1000)) as (k & ds & n & Et & El & Hd & En); [apply fmt_0d_digits; lia|done|].
    rewrite <- !app_assoc in Et. cbn [app] in Et. exists ("."%char :: ds). split; [done|]. split; [|cbn [length]; lia].
    right. exists n, ds. split; [done|]. split; [done|]. split; [lia|].
    assert (H9 : 10 ^ Z.of_nat (length ds) * 10 ^ Z.of_nat k = 10 ^ 9).
    { rewrite <- Z.pow_add_r by lia. f_equal. lia. }
    assert (Hk : 0 < 10 ^ Z.of_nat k) by (apply Z.pow_pos_nonneg; lia).
    apply (Z.mul_reg_r _ _ (10 ^ Z.of_nat k)); [lia|]. rewrite <- (Z.mul_assoc fsec), H9. lia.
Qed.

Lemma fraction_chars fsec frac :
  fraction_of fsec frac ->
  forallb (fun c => isdigit c || is_char ":" c || is_char "." c) frac = true /\
  forallb (fun c => negb (is_char " " c)) frac = true.
Proof.
  intros [[-> _]|(n & ds & -> & (_ & Hd & _) & _)]; [done|]. cbn. split; (eapply digits_all; [|exact Hd]).
  - by intros c ->.
  - intros c Hc. by rewrite (isdigit_not c " ").
Qed.

Section Read.

Context (cc : char_class) (lc : ctype).

(** The two fields: the signed days and the time. *)
Definition ds_fields (neg : bool) (d0 d1 d2 d3 frac : bytes) : list (Z * bytes) :=
  [(DTK_TZ, sign_char neg :: d0); (DTK_TIME, d1 ++ ":"%char :: d2 ++ ":"%char :: d3 ++ frac)].

Lemma DecodeDsinterval_text range (neg : bool) d h m s fsec d0 d1 d2 d3 frac :
  digits_of d d0 -> digits_of h d1 -> digits_of m d2 -> digits_of s d3 -> fraction_of fsec frac ->
  d <= INT_MAX -> h < 24 -> m < 60 -> s < 60 -> 0 <= fsec < 1000000 ->
  exists u, unset u = true /\
  let sgn z := if neg then - z else z in
  DecodeDsinterval cc range (ds_fields neg d0 d1 d2 d3 frac) =
  DtOk (DTK_DELTA, mk_itm u u (sgn d) (sgn h) (sgn m) (sgn s) (sgn fsec)).
Proof.
  intros D0 D1 D2 D3 Hf Hd Hh Hm Hs Hfs. unfold INT_MAX in Hd.
  pose proof (digits_of_nonneg _ _ D0). pose proof (digits_of_nonneg _ _ D1).
  pose proof (digits_of_nonneg _ _ D2). pose proof (digits_of_nonneg _ _ D3).
  exists (if neg then - INT_MAX else INT_MAX). split; [by destruct neg|].
  unfold DecodeDsinterval, DecodeFields, ds_fields. cbn [rev app decode_fields].
  unfold decode_field. change (DTK_TIME =? DTK_TIME) with true. change (DTK_TZ =? DTK_TIME) with false.
  change (DTK_TZ =? DTK_TZ) with true. cbn iota.
  rewrite (DecodeTime_digits cc ds_sane range _ h m s fsec d1 d2 d3 frac);
    [|done|done|done|done|unfold is_int32, INT_MIN, INT_MAX; lia..|].
  2:{ unfold ds_sane, USECS_PER_SEC. cbn [it_hour it_min it_sec it_fsec]. lia. }
  rewrite add_mask_fresh by done. cbn [ds_fmask ds_before ds_dtype ds_val2 ds_tm mbind dt_bind].
  assert (Hcolon : existsb (is_char ":") (tail (sign_char neg :: d0)) = false).
  { by apply digits_no_colon, D0. }
  rewrite Hcolon. unfold number_field, ds_number. cbn [ds_type ds_val2 ds_tm]. change (DTK_DAY =? IGNORE_DTF) with false.
  cbn [mbind dt_bind]. rewrite <- (app_nil_r d0).
  rewrite (strtoi_signed cc neg d d0 []) by (done || unfold is_int32, INT_MIN, INT_MAX; lia).
  cbn [mbind dt_bind]. unfold apply_unit.
  cbn [Z.eqb DTK_DATE DTK_MICROSEC DTK_MILLISEC DTK_SECOND DTK_MINUTE DTK_HOUR DTK_DAY Pos.eqb andb].
  change (AdjustFractSeconds (of_int 0) SECS_PER_DAY) with (fun t => DtOk t : dt itm). cbn beta. cbn [mbind dt_bind].
  rewrite add_mask_fresh by done. cbn [ds_fmask ds_before ds_dtype ds_val2 ds_tm mbind dt_bind].
  change (Z.lor (Z.lor 0 DTK_TIME_M) (DTK_M DAY) =? 0) with false. cbn iota.
  assert (is_char "-" (first_char (sign_char neg :: d0 ++ [])) = neg) as -> by (by destruct neg).
  assert (Hsg : existsb (fun f => is_sign (first_char f.2))
                  [(DTK_TIME, d1 ++ ":"%char :: d2 ++ ":"%char :: d3 ++ frac)] = false).
  { destruct (digits_head h d1 D1) as (c & s' & -> & Hc). cbn. unfold is_sign.
    rewrite (isdigit_not c "-"), (isdigit_not c "+") by done. done. }
  rewrite Hsg. change (or0 INT_MAX) with 0. unfold set_mday. cbn [it_year it_mon it_mday it_hour it_min it_sec it_fsec].
  change (or0 INT_MAX) with 0. rewrite Z.add_0_l.
  rewrite int32_small by (unfold is_int32, INT_MIN, INT_MAX; destruct neg; lia). destruct neg; cbn [andb negb]; [|done].
  unfold negative_tm. cbn [it_year it_mon it_mday it_hour it_min it_sec it_fsec].
  assert (Hmn : forall z, 0 <= z -> make_negative z = - z /\ make_negative (- z) = - z).
  { intros z Hz. unfold make_negative. destruct (Z.ltb_spec 0 z), (Z.ltb_spec 0 (- z)); lia. }
  rewrite (proj2 (Hmn d ltac:(lia))), (proj1 (Hmn h ltac:(lia))), (proj1 (Hmn m ltac:(lia))), (proj1 (Hmn s ltac:(lia))),
    (proj1 (Hmn fsec ltac:(lia))). done.
Qed.

Lemma ParseDateTime_ds (neg : bool) d h d0 d1 more :
  digits_of d d0 -> digits_of h d1 -> forallb (fun c => isdigit c || is_char ":" c || is_char "." c) more = true ->
  (length d0 + length d1 + length more < 100)%nat ->
  ParseDateTime cc lc (sign_char neg :: d0 ++ " "%char :: d1 ++ ":"%char :: more) 256 MAXDATEFIELDS =
  DtOk [(DTK_TZ, sign_char neg :: d0); (DTK_TIME, d1 ++ ":"%char :: more)].
Proof.
  intros D0 D1 Hm Hl. unfold ParseDateTime. cbn [length].
  change (d0 ++ " "%char :: d1 ++ ":"%char :: more) with (d0 ++ [] ++ " "%char :: d1 ++ ":"%char :: more).
  rewrite (parse_sign_field cc lc neg d0 [] (" "%char :: d1 ++ ":"%char :: more) d); [|done|done|done|unfold MAXDATEFIELDS; lia|].
  2:{ cbn [length]. lia. }
  rewrite app_nil_r. cbn [app length]. rewrite length_app. cbn [length]. rewrite length_app. cbn [length].
  assert (0 < length d0)%nat by (destruct (digits_head d d0 D0) as (c & s' & -> & _); cbn; lia).
  replace (length d0 + S (length d1 + S (length more)))%nat with (S (S (length d0 + (length d1 + length more)))) by lia.
  rewrite (parse_time_field cc lc d1 more h); [done|done|done|unfold MAXDATEFIELDS; lia|lia].
Qed.

(** The blank between days and time stays. *)
Lemma ds_blanks (neg : bool) d h d0 d1 more :
  digits_of d d0 -> digits_of h d1 -> forallb (fun c => isdigit c || is_char ":" c || is_char "." c) more = true ->
  let text := sign_char neg :: d0 ++ " "%char :: d1 ++ ":"%char :: more in
  skip_blanks text = text /\
  forall fuel, squeeze_blanks (fun c => is_char ":" c || is_char "." c) (is_char ":") fuel text = text.
Proof.
  intros D0 D1 Hm text. split.
  { unfold skip_blanks. rewrite take_run_none; [done|]. by destruct neg. }
  intros fuel. unfold text. destruct (digits_head h d1 D1) as (c & s' & E & Hc). destruct D1 as (_ & D1 & _).
  rewrite E. cbn [app]. apply (squeeze_blanks_word _ (is_char ":") fuel (sign_char neg :: d0)).
  - cbn. assert (Hd0 : forallb (fun c => negb (is_char " " c) && negb (is_char ":" c)) d0 = true).
    { eapply digits_all; [|apply D0]. intros x Hx. by rewrite (isdigit_not x " "), (isdigit_not x ":"). }
    rewrite Hd0. by destruct neg.
  - change (c :: s' ++ ":"%char :: more) with ((c :: s') ++ ":"%char :: more). rewrite <- E, forallb_app. cbn.
    apply andb_true_iff. split.
    + eapply digits_all; [|exact D1]. intros x Hx. by rewrite (isdigit_not x " ").
    + apply forallb_forall. intros x Hx. rewrite forallb_forall in Hm. specialize (Hm x Hx). apply negb_true_iff.
      apply bool_decide_eq_false_2. by intros ->.
  - cbn. by rewrite (isdigit_not c ":"), (isdigit_not c ".").
Qed.

(** Fields within their bounds pass the check for DAY TO SECOND. *)
Lemma ds_check_day_to_second range u d h m s f :
  range = INTERVAL_FULL_RANGE \/ range = DAY_TO_SECOND -> unset u = true ->
  Z.abs d < INT_MAX -> Z.abs h < 24 -> Z.abs m < 60 -> Z.abs s < 60 ->
  ds_check range (mk_itm u u d h m s f) = Ok tt /\ unset d = false /\ unset h = false /\ unset m = false /\ unset s = false.
Proof.
  unfold INT_MAX. intros Hr Hu Hd Hh Hm Hs.
  assert (Habs : forall z, Z.abs z < 2147483647 -> c_abs z = Z.abs z /\ unset z = false).
  { intros z Hz. unfold unset, c_abs, INT_MAX. rewrite int32_small by (unfold is_int32, INT_MIN, INT_MAX; lia). split; [done|lia]. }
  destruct (Habs d) as [_ Ud]; [done|]. destruct (Habs h) as [Eh Uh]; [lia|]. destruct (Habs m) as [Em Um]; [lia|].
  destruct (Habs s) as [Es Us]; [lia|]. split; [|done]. unfold ds_check, set_fields_are.
  cbn [it_year it_mon it_mday it_hour it_min it_sec]. rewrite Eh, Em, Es, Hu, Ud, Uh, Um, Us.
  destruct (Z.ltb_spec 23 (Z.abs h)); [lia|]. destruct (Z.ltb_spec 59 (Z.abs m)); [lia|].
  destruct (Z.ltb_spec 59 (Z.abs s)); [lia|]. by destruct Hr as [-> | ->].
Qed.

(** A sign, days and a time of day, as the input function reads them. *)
Lemma ds_in_digits (neg : bool) d h m s fsec d0 d1 d2 d3 frac typmod :
  digits_of d d0 -> digits_of h d1 -> digits_of m d2 -> digits_of s d3 -> fraction_of fsec frac ->
  d < INT_MAX -> h < 24 -> m < 60 -> s < 60 -> 0 <= fsec < 1000000 ->
  (length d0 <= 20)%nat -> (length d1 <= 2)%nat -> (length d2 <= 2)%nat -> (length d3 <= 2)%nat -> (length frac <= 10)%nat ->
  typmod < 0 \/ INTERVAL_RANGE typmod = DAY_TO_SECOND ->
  let time := ((h * 60 + m) * 60 + s) * USECS_PER_SEC + fsec in
  dsinterval_in cc lc (sign_char neg :: d0 ++ " "%char :: d1 ++ ":"%char :: d2 ++ ":"%char :: d3 ++ frac) typmod =
  dsinterval (mk_interval (if neg then - time else time) (if neg then - d else d) 0) typmod.
Proof.
  intros D0 D1 D2 D3 Hf Hd Hh Hm Hs Hfs L0 L1 L2 L3 L4 Htm time. unfold INT_MAX in Hd.
  pose proof (digits_of_nonneg _ _ D0). pose proof (digits_of_nonneg _ _ D1).
  pose proof (digits_of_nonneg _ _ D2). pose proof (digits_of_nonneg _ _ D3).
  assert (Hmore : forallb (fun c => isdigit c || is_char ":" c || is_char "." c) (d2 ++ ":"%char :: d3 ++ frac) = true).
  { rewrite !forallb_app. cbn. rewrite forallb_app. destruct (fraction_chars fsec frac Hf) as [-> _]. rewrite andb_true_r.
    apply andb_true_iff. split; (eapply digits_all; [|apply D2 || apply D3]); by intros c ->. }
  unfold dsinterval_in. destruct (ds_blanks neg d h d0 d1 _ D0 D1 Hmore) as [-> Hsq]. rewrite Hsq. clear Hsq.
  rewrite (ParseDateTime_ds neg d h) by (done || (rewrite length_app; cbn [length]; rewrite length_app; lia)).
  set (range := if 0 <=? typmod then _ else _).
  destruct (DecodeDsinterval_text range neg d h m s fsec d0 d1 d2 d3 frac) as (u & Hu & Hdec);
    [done|done|done|done|done|unfold INT_MAX; lia|done|done|done|done|].
  cbn [mbind dt_bind]. unfold ds_fields in Hdec. change (signs_misplaced _) with false. cbn [negb require mbind result_bind].
  rewrite Hdec. cbn iota.
  assert (Hrange : range = INTERVAL_FULL_RANGE \/ range = DAY_TO_SECOND).
  { unfold range. destruct (Z.leb_spec 0 typmod); [right; lia|by left]. }
  set (sgn := fun z : Z => if neg then - z else z).
  assert (Hsgn : forall z, Z.abs (sgn z) = Z.abs z) by (intros; unfold sgn; destruct neg; lia).
  destruct (ds_check_day_to_second range u (sgn d) (sgn h) (sgn m) (sgn s) (sgn fsec)) as (Hck & Ud & Uh & Um & Us);
    [done|done|rewrite Hsgn; unfold INT_MAX; lia|rewrite Hsgn; lia|rewrite Hsgn; lia|rewrite Hsgn; lia|].
  unfold sgn in *. rewrite Hck. cbn [mbind result_bind it_mday it_hour it_min it_sec it_fsec]. rewrite Ud, Uh, Um, Us.
  change (DTK_DELTA =? DTK_DELTA) with true. cbn iota. unfold tm2interval.
  cbn [it_year it_mon it_mday it_hour it_min it_sec it_fsec]. change (0 * MONTHS_PER_YEAR + 0) with 0.
  change ((INT_MAX <? 0) || (0 <? INT_MIN)) with false. cbn iota. f_equal. unfold time, USECS_PER_SEC. f_equal.
  rewrite int64_small by (unfold is_int64, INT64_MIN, INT64_MAX; destruct neg; lia). destruct neg; lia.
Qed.

(** A value printed and read. *)
Lemma ds_in_text i dp sp typmod :
  ds_normal i -> 0 <= dp <= 9 -> 0 <= sp <= 9 -> typmod < 0 \/ INTERVAL_RANGE typmod = DAY_TO_SECOND ->
  dsinterval_in cc lc (ds_text dp sp i) typmod = dsinterval i typmod.
Proof.
  destruct i as [time day month]. unfold ds_normal. cbn [iv_time iv_day iv_month]. intros (-> & Hd & Ht & Hs) Hdp Hsp Htm.
  unfold ds_text. cbn [iv_time iv_day]. set (a := Z.abs time).
  assert (Ha : 0 <= a < USECS_PER_DAY) by (unfold a; lia). destruct (time_fields_bounds a Ha) as (B1 & B2 & B3 & B4 & Ea).
  destruct (AppendSeconds_text (a mod USECS_PER_MINUTE / USECS_PER_SEC) (a mod USECS_PER_SEC) sp) as (frac & -> & Hf & Lf);
    [done|done|done|].
  set (h := a / USECS_PER_HOUR) in *. set (m := a mod USECS_PER_HOUR / USECS_PER_MINUTE) in *.
  set (s := a mod USECS_PER_MINUTE / USECS_PER_SEC) in *. set (f := a mod USECS_PER_SEC) in *. clearbody h m s f.
  unfold INT_MAX in Hd.
  rewrite (ds_in_digits _ (Z.abs day) h m s f); [|apply fmt_0d_digits; lia..|done|unfold INT_MAX; lia|lia|lia|lia|lia| | | | |done|done].
  - rewrite Ea. f_equal. f_equal; unfold a; destruct (Z.ltb_spec day 0), (Z.ltb_spec time 0); cbn [orb]; lia.
  - transitivity 10%nat; [|lia]. apply fmt_0d_length_le; lia.
  - apply fmt_0d_length_le; lia.
  - apply fmt_0d_length_le; lia.
  - apply fmt_0d_length_le; lia.
Qed.

End Read.

Lemma ds_typmod p q typmod :
  dsintervaltypmodin [DAY_TO_SECOND; p; q] = Ok typmod ->
  0 <= p <= 9 /\ 0 <= q <= 9 /\ 0 < typmod /\ INTERVAL_RANGE typmod = DAY_TO_SECOND /\
  INTERVAL_DAY_PRECISION typmod = p /\ INTERVAL_SECOND_PRECISION typmod = q.
Proof.
  assert (Hin : forall z, 0 <= z <= 9 -> In z [0; 1; 2; 3; 4; 5; 6; 7; 8; 9]) by (intros z Hz; cbn; lia).
  unfold dsintervaltypmodin. change (DAY_TO_SECOND =? INTERVAL_MASK DAY) with false. intros H. cbn in H.
  unfold ds_precisions_ok, ORACLE_MAX_INTERVAL_PRECISION in H. cbn in H.
  destruct (Z.ltb_spec p 0); [done|]. destruct (Z.ltb_spec q 0); [done|].
  destruct (Z.ltb_spec 9 p); [done|]. destruct (Z.ltb_spec 9 q); [done|]. injection H as <-.
  pose proof (Hin p ltac:(lia)) as Hp. pose proof (Hin q ltac:(lia)) as Hq. clear Hin.
  cbn in Hp, Hq. split; [lia|]. split; [lia|].
  repeat (destruct Hp as [<-|Hp]; [repeat (destruct Hq as [<-|Hq]; [by vm_compute|]); done|]). done.
Qed.

(** C21. Output and input are inverse: every normal INTERVAL DAY TO SECOND value prints,
    with no type modifier or with DAY(p) TO SECOND(q) for p and q that admit it, to a
    text from which the input function reads the same value, fraction included. *)
Theorem dsinterval_roundtrip cc lc i typmod p q :
  ds_normal i -> typmod < 0 \/ dsintervaltypmodin [DAY_TO_SECOND; p; q] = Ok typmod ->
  dsinterval i typmod = Ok i ->
  exists text, dsinterval_out i typmod = Ok text /\ dsinterval_in cc lc text typmod = Ok i.
Proof.
  intros Hn Htm Ha. eexists. split; [by apply dsinterval_out_text|]. rewrite <- Ha.
  unfold ds_out_precision, ORACLE_MAX_INTERVAL_PRECISION. destruct Htm as [Htm|(Hp & Hq & Ht & Hr & -> & ->)%ds_typmod].
  - destruct (Z.leb_spec 0 typmod); [lia|]. apply ds_in_text; [done|cbn; lia|cbn; lia|by left].
  - destruct (Z.leb_spec 0 typmod); [|lia]. destruct (Z.ltb_spec 9 p), (Z.ltb_spec 9 q); try lia.
    apply ds_in_text; [done|cbn; lia|cbn; lia|by right].
Qed.

(** ** Coercion to a type modifier *)

(** The normal value of a length. *)
Definition ds_of (total : Z) : Interval := mk_interval (Z.rem total USECS_PER_DAY) (Z.quot total USECS_PER_DAY) 0.

(** The multiple of [unit] nearest to a number, halves away from zero. *)
Definition round_half_away (unit z : Z) : Z := Z.sgn z * ((2 * Z.abs z + unit) / (2 * unit) * unit).

Lemma ds_of_total i : ds_normal i -> ds_of (ds_total i) = i.
Proof.
  destruct i as [time day month]. unfold ds_normal, ds_of, ds_total, USECS_PER_DAY. cbn [iv_time iv_day iv_month].
  intros (-> & Hd & Ht & Hs). f_equal; lia.
Qed.

Lemma ds_total_of n : ds_total (ds_of n) = n.
Proof. unfold ds_total, ds_of. cbn [iv_time iv_day]. pose proof (Z.quot_rem' n USECS_PER_DAY). lia. Qed.

Lemma round_half_away_nonneg u z : 0 < u -> 0 <= z -> round_half_away u z = (2 * z + u) / (2 * u) * u.
Proof.
  intros Hu Hz. unfold round_half_away. destruct (decide (z = 0)) as [->|Hne].
  - cbn [Z.sgn Z.abs]. rewrite Z.mul_0_l. symmetry. apply Z.mul_eq_0. left. apply Z.div_small. lia.
  - rewrite Z.sgn_pos, Z.abs_eq by lia. lia.
Qed.

Lemma round_half_away_opp u z : round_half_away u (- z) = - round_half_away u z.
Proof. unfold round_half_away. rewrite Z.abs_opp, Z.sgn_opp. lia. Qed.

(** Days stay, whatever the unit. *)
Lemma round_half_away_days u k day time :
  0 < u -> USECS_PER_DAY = k * u -> (0 <= day /\ 0 <= time) \/ (day <= 0 /\ time <= 0) ->
  round_half_away u (day * USECS_PER_DAY + time) = day * USECS_PER_DAY + round_half_away u time.
Proof.
  intros Hu Hk Hs.
  assert (Hpos : forall d t, 0 <= d -> 0 <= t -> round_half_away u (d * USECS_PER_DAY + t) = d * USECS_PER_DAY + round_half_away u t).
  { intros d t Hd Ht. assert (0 <= d * USECS_PER_DAY) by (unfold USECS_PER_DAY; lia).
    rewrite !round_half_away_nonneg by lia. rewrite Hk.
    replace (2 * (d * (k * u) + t) + u) with (d * k * (2 * u) + (2 * t + u)) by lia. rewrite Z.div_add_l by lia. lia. }
  destruct Hs as [[Hd Ht]|[Hd Ht]]; [by apply Hpos|].
  replace (day * USECS_PER_DAY + time) with (- (- day * USECS_PER_DAY + - time)) by lia.
  rewrite round_half_away_opp, Hpos, round_half_away_opp by lia. lia.
Qed.

(** The tables, for a precision of at most nine digits. *)
Lemma interval_scales q :
  0 <= q <= 9 ->
  let p := Z.to_nat (if MAX_INTERVAL_PRECISION <? q then MAX_INTERVAL_PRECISION else q) in
  let u := 10 ^ (6 - Z.min q 6) in
  nth p IntervalScales 0 = u /\ 0 <= nth p IntervalOffsets 0 <= 500000 /\
  (u = 2 * nth p IntervalOffsets 0 \/ (u = 1 /\ nth p IntervalOffsets 0 = 0)) /\
  0 < u /\ USECS_PER_DAY = USECS_PER_DAY / u * u.
Proof.
  intros Hq. assert (Hin : In q [0; 1; 2; 3; 4; 5; 6; 7; 8; 9]) by (cbn; lia). clear Hq. cbn in Hin.
  repeat (destruct Hin as [<-|Hin]; [vm_compute; split_and!; solve [done|by left|by right]|]). done.
Qed.

Lemma half_offset u o t : 0 < u -> u = 2 * o \/ (u = 1 /\ o = 0) -> (t + o) / u = (2 * t + u) / (2 * u).
Proof.
  intros Hu [E|[-> ->]]; [|lia]. replace (2 * t + u) with (2 * (t + o)) by lia. by rewrite Z.div_mul_cancel_l by lia.
Qed.

Lemma round_half_away_bound u k t : 0 < u -> Z.abs t < k * u -> Z.abs (round_half_away u t) <= k * u.
Proof.
  intros Hu. assert (Hpos : forall z, 0 <= z < k * u -> 0 <= round_half_away u z <= k * u).
  { intros z Hz. rewrite round_half_away_nonneg by lia. assert (0 <= (2 * z + u) / (2 * u)) by (apply Z.div_pos; lia).
    assert ((2 * z + u) / (2 * u) < k + 1) by (apply Z.div_lt_upper_bound; lia). nia. }
  intros Ht. destruct (Z.leb_spec 0 t); [specialize (Hpos t ltac:(lia)); lia|].
  specialize (Hpos (- t) ltac:(lia)). rewrite round_half_away_opp in Hpos. lia.
Qed.

Lemma round_seconds_spec q time :
  0 <= q <= 9 -> Z.abs time < USECS_PER_DAY ->
  let u := 10 ^ (6 - Z.min q 6) in
  round_seconds q time = Ok (round_half_away u time) /\ Z.abs (round_half_away u time) <= USECS_PER_DAY /\
  0 < u /\ USECS_PER_DAY = USECS_PER_DAY / u * u.
Proof.
  intros Hq Ht u. destruct (interval_scales q Hq) as (Es & Ho & Hu & Hu0 & Hd). fold u in Es, Hu, Hu0, Hd.
  split; [|split; [|done]].
  - unfold round_seconds, INTERVAL_FULL_PRECISION, ORACLE_MAX_INTERVAL_PRECISION.
    destruct (Z.eqb_spec q 65535); [lia|]. destruct (Z.ltb_spec q 0); [lia|]. destruct (Z.ltb_spec 9 q); [lia|].
    cbn [orb]. rewrite Es. set (o := nth _ IntervalOffsets 0) in *. clearbody o u. unfold USECS_PER_DAY in Ht. clear Hd.
    f_equal. destruct (Z.leb_spec 0 time).
    + rewrite int64_small by (unfold is_int64, INT64_MIN, INT64_MAX; lia).
      rewrite round_half_away_nonneg, Z.quot_div_nonneg, (half_offset u o) by lia. done.
    + rewrite <- (Z.opp_involutive time) at 2. rewrite !int64_small by
        (try rewrite int64_small; unfold is_int64, INT64_MIN, INT64_MAX; lia).
      rewrite round_half_away_opp, round_half_away_nonneg, Z.quot_div_nonneg, (half_offset u o) by lia. done.
  - rewrite Hd. apply round_half_away_bound; [done|]. by rewrite <- Hd.
Qed.

(** Carrying the whole days of a time of the same sign. *)
Lemma carry_days_of time day :
  is_int32 (day + Z.quot time USECS_PER_DAY) -> (0 <= day /\ 0 <= time) \/ (day <= 0 /\ time <= 0) ->
  carry_days (mk_interval time day 0) = ds_of (day * USECS_PER_DAY + time).
Proof.
  unfold carry_days, ds_of, USECS_PER_DAY. cbn [iv_time iv_day iv_month]. intros Hd Hs.
  rewrite int32_small by done. f_equal; lia.
Qed.

Lemma round_half_away_sign u z : 0 < u -> (0 <= z -> 0 <= round_half_away u z) /\ (z <= 0 -> round_half_away u z <= 0).
Proof.
  intros Hu. assert (Hp : forall y, 0 <= y -> 0 <= round_half_away u y).
  { intros y Hy. rewrite round_half_away_nonneg by lia. assert (0 <= (2 * y + u) / (2 * u)) by (apply Z.div_pos; lia). nia. }
  split; [apply Hp|]. intros Hz. specialize (Hp (- z) ltac:(lia)). rewrite round_half_away_opp in Hp. lia.
Qed.

(** C23. Coercion to DAY(p) TO SECOND(q) rounds a normal value to the nearest multiple of
    the last decimal of the seconds (at most six), halves away from zero, and refuses
    it exactly when the rounded value has more than p digits of days. *)
Theorem dsinterval_coerce i typmod p q :
  ds_normal i -> dsintervaltypmodin [DAY_TO_SECOND; p; q] = Ok typmod ->
  let r := round_half_away (10 ^ (6 - Z.min q 6)) (ds_total i) in
  dsinterval i typmod =
    if Z.abs r / USECS_PER_DAY <? 10 ^ p then Ok (ds_of r)
    else ereport ERRCODE_DATETIME_VALUE_OUT_OF_RANGE "Leading precision of the interval is too small".
Proof.
  destruct i as [time day month]. unfold ds_normal. cbn [iv_time iv_day iv_month].
  intros (-> & Hd & Ht & Hs) (Hp & Hq & Htm & Er & Ep & Eq)%ds_typmod. cbv zeta. unfold ds_total. cbn [iv_time iv_day].
  destruct (round_seconds_spec q time Hq Ht) as (Ers & Hb & Hu & Hk). set (u := 10 ^ (6 - Z.min q 6)) in *.
  rewrite (round_half_away_days u _ day time Hu Hk Hs). destruct (round_half_away_sign u time Hu) as [S1 S2].
  unfold dsinterval, AdjustIntervalForTypmod. destruct (Z.leb_spec 0 typmod); [|lia]. rewrite Er, Eq. cbn [iv_time iv_day iv_month].
  change (truncate_to_range DAY_TO_SECOND time) with (Ok time). cbn [mbind result_bind]. rewrite Ers. cbn [mbind result_bind].
  set (tr := round_half_away u time) in *. clearbody tr u. clear Ers Hk.
  rewrite carry_days_of; [|unfold is_int32, INT_MIN, INT_MAX, USECS_PER_DAY in *; lia|lia]. set (r := day * USECS_PER_DAY + tr). unfold AdjustTypmodForDay.
  destruct (Z.ltb_spec 0 typmod); [|lia]. rewrite Er. change (negb (DAY_TO_SECOND =? INTERVAL_FULL_RANGE)) with true.
  cbn [andb]. rewrite Ep. assert (Ec : c_abs (iv_day (ds_of r)) = Z.abs r / USECS_PER_DAY).
  { unfold c_abs, ds_of, r, USECS_PER_DAY, INT_MAX in *. cbn [iv_day].
    rewrite int32_small by (unfold is_int32, INT_MIN, INT_MAX; lia). lia. }
  rewrite Ec, leading_precision_spec by (done || apply Z.div_pos; unfold USECS_PER_DAY; lia).
  by destruct (_ <? _).
Qed.

(** ** Comparison *)

(** The span in microseconds is a 64-bit integer up to this many days. *)
Definition ds_max_days : Z := 106751990.

Definition ds_comparable (i : Interval) : Prop := Z.abs (iv_day i) <= ds_max_days /\ Z.abs (iv_time i) < USECS_PER_DAY.

Lemma ds_cmp_value_exact i : ds_comparable i -> dsinterval_cmp_value i = ds_total i.
Proof.
  unfold ds_comparable, ds_max_days, dsinterval_cmp_value, ds_total, USECS_PER_DAY, USECS_PER_HOUR. intros [Hd Ht].
  rewrite (int64_small (iv_day i * 24)) by (unfold is_int64, INT64_MIN, INT64_MAX; lia).
  rewrite (int64_small (iv_day i * 24 * _)) by (unfold is_int64, INT64_MIN, INT64_MAX; lia).
  rewrite int64_small by (unfold is_int64, INT64_MIN, INT64_MAX; lia). lia.
Qed.

(** C34. The comparison operators are the order of the lengths, equal values hash equally
    and the aggregates pick the shorter and the longer value, for intervals of at
    most 106751990 days. *)
Theorem dsinterval_order x y seed :
  ds_comparable x -> ds_comparable y ->
  let a := ds_total x in
  let b := ds_total y in
  dsinterval_lt x y = (a <? b) /\ dsinterval_le x y = (a <=? b) /\ dsinterval_eq x y = (a =? b) /\
  dsinterval_gt x y = (b <? a) /\ dsinterval_ge x y = (b <=? a) /\ dsinterval_ne x y = negb (a =? b) /\
  ds_total (dsinterval_smaller x y) = Z.min a b /\ ds_total (dsinterval_larger x y) = Z.max a b /\
  (dsinterval_eq x y = true -> dsinterval_hash x = dsinterval_hash y /\
     dsinterval_hash_extended x seed = dsinterval_hash_extended y seed).
Proof.
  intros Hx Hy a b. unfold dsinterval_lt, dsinterval_le, dsinterval_eq, dsinterval_gt, dsinterval_ge, dsinterval_ne,
    dsinterval_smaller, dsinterval_larger, dsinterval_hash, dsinterval_hash_extended, dsinterval_cmp_internal.
  rewrite !ds_cmp_value_exact by done. fold a b.
  destruct (Z.ltb_spec a b), (Z.ltb_spec b a); cbn; repeat split; try lia; try (unfold a, b in *; lia).
  - by replace b with a by lia.
  - by replace b with a by lia.
Qed.

(** Beyond that the span overflows its 64 bits: 106751992 days, an admitted value of
    INTERVAL DAY(9) TO SECOND(6), compares less than zero. *)
Theorem dsinterval_order_overflow cc lc :
  dsinterval_in cc lc (lit "+106751992 00:00:00.000000") (INTERVAL_DS_TYPMOD 6 9 DAY_TO_SECOND) =
    Ok (mk_interval 0 106751992 0) /\
  dsinterval_lt (mk_interval 0 106751992 0) (mk_interval 0 0 0) = true.
Proof.
  split; [|by vm_compute].
  change (lit "+106751992 00:00:00.000000") with (ds_text 9 6 (mk_interval 0 106751992 0)).
  rewrite ds_in_text; [by vm_compute| |lia|lia|by right]. unfold ds_normal, INT_MAX, USECS_PER_DAY. cbn. lia.
Qed.

(** ** Sums and differences *)

Lemma ds_same_sign x y :
  (0 <= iv_day x /\ 0 <= iv_time x) \/ (iv_day x <= 0 /\ iv_time x <= 0) ->
  (0 <= iv_day y /\ 0 <= iv_time y) \/ (iv_day y <= 0 /\ iv_time y <= 0) -> 0 <= ds_total x * ds_total y ->
  (0 <= iv_day x + iv_day y /\ 0 <= iv_time x + iv_time y) \/ (iv_day x + iv_day y <= 0 /\ iv_time x + iv_time y <= 0).
Proof.
  intros Hx Hy H. assert (Hz : (0 <= ds_total x /\ 0 <= ds_total y) \/ (ds_total x <= 0 /\ ds_total y <= 0)) by nia.
  unfold ds_total, USECS_PER_DAY in Hz. lia.
Qed.

(** The sum of normal values is exact when the days fit: its length is the sum of the
    lengths, with less than a day of time, and it is the normal value of that length
    when the two have the same sign. It is refused when the sum of the days leaves the
    ints. *)
Theorem dsinterval_sum x y :
  ds_normal x -> ds_normal y ->
  let day := iv_day x + iv_day y in
  let time := iv_time x + iv_time y in
  if bool_decide (is_int32 day) then
    is_int32 (day + Z.quot time USECS_PER_DAY) ->
    exists r, dsinterval_pl x y = Ok r /\ ds_total r = ds_total x + ds_total y /\ Z.abs (iv_time r) < USECS_PER_DAY /\
      (0 <= ds_total x * ds_total y -> r = ds_of (ds_total x + ds_total y))
  else dsinterval_pl x y = interval_out_of_range.
Proof.
  intros (_ & Hd1 & Ht1 & Hs1) (_ & Hd2 & Ht2 & Hs2) day time. unfold dsinterval_pl. unfold INT_MAX in Hd1, Hd2.
  pose proof (samesign_int32 (iv_day x) (iv_day y)) as [-> _];
    [unfold is_int32, INT_MIN, INT_MAX; lia|unfold is_int32, INT_MIN, INT_MAX; lia|]. fold day time.
  case_bool_decide as Hday; cbn [negb]; [|done]. intros Hday'. unfold USECS_PER_DAY in Ht1, Ht2.
  rewrite (int64_small time) by (unfold time, is_int64, INT64_MIN, INT64_MAX; lia). rewrite (int32_small day) by done.
  assert (Hss : SAMESIGN (iv_time x) (iv_time y) && negb (SAMESIGN time (iv_time x)) = false).
  { unfold SAMESIGN, time. destruct (Z.ltb_spec (iv_time x) 0), (Z.ltb_spec (iv_time y) 0), (Z.ltb_spec (iv_time x + iv_time y) 0);
      cbn; lia. }
  rewrite Hss. eexists. split; [done|]. unfold carry_days, ds_total. cbn [iv_time iv_day iv_month].
  rewrite int32_small by done. pose proof (Z.quot_rem' time USECS_PER_DAY) as Hqr. split; [unfold day, time in *; lia|].
  split; [exact (Z.rem_bound_abs time USECS_PER_DAY ltac:(done))|]. intros Hsame. unfold ds_of.
  replace (iv_day x * USECS_PER_DAY + iv_time x + (iv_day y * USECS_PER_DAY + iv_time y)) with (day * USECS_PER_DAY + time)
    by (unfold day, time; lia).
  assert (Hsg : (0 <= day /\ 0 <= time) \/ (day <= 0 /\ time <= 0)) by (by apply (ds_same_sign x y)).
  pose proof (carry_days_of time day Hday' Hsg) as Hc. unfold carry_days, ds_of in Hc. cbn [iv_time iv_day iv_month] in Hc.
  by rewrite int32_small in Hc.
Qed.

(** A sum of values of different signs need not be normal: a day and minus an hour
    make an interval with both signs, whose text the input function refuses. *)
Theorem dsinterval_sum_mixed cc lc :
  exists r text, dsinterval_pl (ds_of USECS_PER_DAY) (ds_of (- USECS_PER_HOUR)) = Ok r /\
    ds_total r = 23 * USECS_PER_HOUR /\ dsinterval_out r (-1) = Ok text /\
    dsinterval_in cc lc text (-1) = ereport ERRCODE_DATETIME_VALUE_OUT_OF_RANGE "the interval is invalid".
Proof. eexists _, _. by repeat split. Qed.

(** A difference from a value that is not negative is exact, as far as the lengths
    are comparable. *)
Theorem dsinterval_difference x y :
  ds_normal x -> ds_normal y -> Z.abs (iv_day x) <= 53375994 -> Z.abs (iv_day y) <= 53375994 -> 0 <= ds_total x ->
  dsinterval_mi x y = Ok (ds_of (ds_total x - ds_total y)).
Proof.
  intros (_ & _ & Ht1 & Hs1) (_ & _ & Ht2 & Hs2) Hd1 Hd2 Hx. unfold dsinterval_mi.
  rewrite !ds_cmp_value_exact by (split; [unfold ds_max_days; lia|done]).
  unfold ds_total, USECS_PER_DAY in *. rewrite int64_small by (unfold is_int64, INT64_MIN, INT64_MAX; lia).
  set (n := iv_day x * 86400000000 + iv_time x - (iv_day y * 86400000000 + iv_time y)).
  assert (Hn : Z.abs n < 10 ^ 19) by (unfold n; lia).
  rewrite int32_small by (unfold is_int32, INT_MIN, INT_MAX; lia).
  assert (Hsx : 0 <= iv_day x /\ 0 <= iv_time x) by lia.
  assert (Hny : iv_day y < 0 \/ iv_time y < 0 -> 0 <= n) by (unfold n; lia). clearbody n.
  assert (H1 : negb (SAMESIGN (iv_day x) (iv_day y)) && negb (SAMESIGN (Z.quot n 86400000000) (iv_day x)) = false).
  { unfold SAMESIGN. destruct (Z.ltb_spec (iv_day x) 0), (Z.ltb_spec (iv_day y) 0), (Z.ltb_spec (Z.quot n 86400000000) 0); cbn; lia. }
  assert (H2 : negb (SAMESIGN (iv_time x) (iv_time y)) && negb (SAMESIGN (Z.rem n 86400000000) (iv_time x)) = false).
  { unfold SAMESIGN. destruct (Z.ltb_spec (iv_time x) 0), (Z.ltb_spec (iv_time y) 0), (Z.ltb_spec (Z.rem n 86400000000) 0); cbn; lia. }
  by rewrite H1, H2.
Qed.

(** Differences from negative values can be refused although the result is a value
    of the type: minus one hour less 23 hours, and minus one hour less minus one day. *)
Theorem dsinterval_difference_refused :
  dsinterval_mi (ds_of (- USECS_PER_HOUR)) (ds_of (23 * USECS_PER_HOUR)) = interval_out_of_range /\
  dsinterval_mi (ds_of (- USECS_PER_HOUR)) (ds_of (- USECS_PER_DAY)) = interval_out_of_range.
Proof. by split. Qed.

(** ** Products and quotients *)

Lemma TSROUND_zero x : float_value 0 x -> float_value 0 (TSROUND x).
Proof.
  intros Hx. unfold TSROUND. pose proof (float_value_rint 0 _ ltac:(done) (float_value_zero_mul 1000000 x ltac:(done) Hx)) as Hr.
  apply float_value_zero in Hr as (s & ->). right. split; [done|]. by destruct s; eexists.
Qed.

(** When days and time scale to integers there is nothing to cascade. *)
Lemma ds_scale_whole op span day time :
  iv_month span = 0 -> float_value 0 (op 0) -> float_value day (op (iv_day span)) -> float_value time (op (iv_time span)) ->
  is_int32 day -> Z.abs time < 2 ^ 53 ->
  ds_scale op span = Ok (carry_days (mk_interval time day 0)).
Proof.
  intros Em H0 Hd Ht Hday Htime. assert (Hd53 : Z.abs day < 2 ^ 53) by (unfold is_int32, INT_MIN, INT_MAX in Hday; lia).
  unfold ds_scale. rewrite Em. rewrite (checked_int32_value 0 (op 0)) by done.
  rewrite bool_decide_eq_true_2 by done. cbn [mbind result_bind]. rewrite (checked_int32_value day (op (iv_day span))) by done.
  rewrite bool_decide_eq_true_2 by done. cbn [mbind result_bind].
  assert (Hm : float_value 0 (TSROUND (f_mul (f_sub (op 0) (of_int 0)) (of_int DAYS_PER_MONTH)))).
  { apply TSROUND_zero, float_value_zero_mul; [done|]. by apply float_value_sub_self. }
  set (mr := TSROUND _) in *. clearbody mr.
  assert (Hui : unchecked_int32 mr = Ok 0) by (by apply float_value_zero in Hm as (s & ->)).
  rewrite Hui. cbn [mbind result_bind]. set (sr := TSROUND _).
  assert (Hsr : float_value 0 sr).
  { apply TSROUND_zero, float_value_zero_mul; [done|]. apply float_value_sub_self; [done|].
    apply float_value_add_zero; [done| |done]. by apply float_value_sub_self. }
  clearbody sr. assert (Hle : f_le (of_int SECS_PER_DAY) (SFabs sr) = false) by (by apply float_value_zero in Hsr as (s & ->)).
  rewrite Hle. cbn [mbind result_bind]. rewrite Z.add_0_r, int32_small by done.
  rewrite (checked_int64_value time); [done|done|]. apply float_value_rint; [done|].
  apply float_value_add_zero; [done|done|]. by apply float_value_zero_mul.
Qed.

(** Multiplying by a whole number multiplies the length exactly, as far as days and
    microseconds stay within the ints and the exact doubles; dividing days and time
    that are multiples of the number gives the quotient; division by zero is refused. *)
Theorem dsinterval_product i n :
  ds_normal i -> Z.abs n < 2 ^ 53 -> Z.abs (iv_time i * n) < 2 ^ 53 -> is_int32 (iv_day i * n) ->
  is_int32 (iv_day i * n + Z.quot (iv_time i * n) USECS_PER_DAY) ->
  dsinterval_mul i (of_int n) = Ok (ds_of (ds_total i * n)) /\
  mul_d_dsinterval (of_int n) i = Ok (ds_of (ds_total i * n)) /\
  dsinterval_div (mk_interval (iv_time i * n) (iv_day i * n) 0) (of_int n) =
    if n =? 0 then ereport ERRCODE_DIVISION_BY_ZERO "division by zero" else Ok i.
Proof.
  intros Hn Hn53 Ht Hd Hc. pose proof Hn as (Hm & Hd1 & Ht1 & Hs). unfold INT_MAX, USECS_PER_DAY in Hd1, Ht1.
  assert (Hmul : dsinterval_mul i (of_int n) = Ok (ds_of (ds_total i * n))).
  { unfold dsinterval_mul. rewrite (ds_scale_whole _ i (iv_day i * n) (iv_time i * n)); [|done|..|done|done].
    - rewrite carry_days_of; [|done|nia]. f_equal. unfold ds_total. f_equal. lia.
    - apply (of_int_mul_value 0 n); lia.
    - apply of_int_mul_value; [unfold is_int32, INT_MIN, INT_MAX in Hd; lia|lia|done].
    - apply of_int_mul_value; [done|lia|done]. }
  split; [done|]. split; [done|]. unfold dsinterval_div. rewrite of_int_is_zero by done.
  destruct (Z.eqb_spec n 0) as [->|Hn0]; [done|].
  rewrite (ds_scale_whole _ _ (iv_day i) (iv_time i)); cbn [iv_time iv_day iv_month]; [|done|..|lia].
  - rewrite carry_days_of; [by rewrite <- (ds_of_total i Hn) at 3| |done].
    unfold is_int32, INT_MIN, INT_MAX, USECS_PER_DAY. clear -Hd1 Ht1. lia.
  - apply (of_int_div_value 0 n); lia.
  - apply of_int_div_value; [done|unfold is_int32, INT_MIN, INT_MAX in Hd; lia|done].
  - by apply of_int_div_value.
  - unfold is_int32, INT_MIN, INT_MAX. lia.
Qed.

(** ** Binary form *)

(** A value sent in binary form and received is the value coerced to the type
    modifier. *)
Theorem dsinterval_recv_send i typmod :
  is_int64 (iv_time i) -> is_int32 (iv_day i) -> is_int32 (iv_month i) ->
  dsinterval_recv (dsinterval_send i) typmod = dsinterval i typmod.
Proof.
  intros H1 H2 H3. unfold dsinterval_recv, dsinterval_send. rewrite <- (app_nil_r (send_interval i)).
  by rewrite recv_send.
Qed.

(** ** Witnesses *)

(** Minus one day, two hours, three minutes, 4.000005 seconds. *)
Definition some_interval : Interval := mk_interval (-7384000005) (-1) 0.

Definition c_chars : char_class := mk_class (fun _ => false) (fun _ => false) (fun _ => false) (fun _ => false).
Definition c_letters : ctype := mk_ctype (fun _ => false) (fun z => z).

Lemma dsinterval_roundtrip_witness :
  exists text, dsinterval_out some_interval (INTERVAL_DS_TYPMOD 6 2 DAY_TO_SECOND) = Ok text /\
    dsinterval_in c_chars c_letters text (INTERVAL_DS_TYPMOD 6 2 DAY_TO_SECOND) = Ok some_interval.
Proof.
  apply (dsinterval_roundtrip c_chars c_letters some_interval _ 2 6);
    [unfold ds_normal, INT_MAX, USECS_PER_DAY; cbn; lia|by right; vm_compute|by vm_compute].
Defined.

Lemma dsinterval_coerce_witness :
  dsinterval (mk_interval 86399999999 9 0) (INTERVAL_DS_TYPMOD 3 1 DAY_TO_SECOND) =
    ereport ERRCODE_DATETIME_VALUE_OUT_OF_RANGE "Leading precision of the interval is too small".
Proof.
  apply (dsinterval_coerce (mk_interval 86399999999 9 0) (INTERVAL_DS_TYPMOD 3 1 DAY_TO_SECOND) 1 3);
    [unfold ds_normal, INT_MAX, USECS_PER_DAY; cbn; lia|by vm_compute].
Defined.

Lemma dsinterval_order_witness :
  dsinterval_lt some_interval (mk_interval 1 0 0) = true /\ dsinterval_le some_interval (mk_interval 1 0 0) = true /\
  dsinterval_eq some_interval (mk_interval 1 0 0) = false /\ dsinterval_gt some_interval (mk_interval 1 0 0) = false /\
  dsinterval_ge some_interval (mk_interval 1 0 0) = false /\ dsinterval_ne some_interval (mk_interval 1 0 0) = true /\
  ds_total (dsinterval_smaller some_interval (mk_interval 1 0 0)) = -93784000005 /\
  ds_total (dsinterval_larger some_interval (mk_interval 1 0 0)) = 1 /\
  (dsinterval_eq some_interval (mk_interval 1 0 0) = true ->
   dsinterval_hash some_interval = dsinterval_hash (mk_interval 1 0 0) /\
   dsinterval_hash_extended some_interval 7 = dsinterval_hash_extended (mk_interval 1 0 0) 7).
Proof. apply (dsinterval_order some_interval (mk_interval 1 0 0) 7); by vm_compute. Defined.

Lemma dsinterval_sum_witness :
  exists r, dsinterval_pl some_interval some_interval = Ok r /\ ds_total r = -187568000010 /\
    Z.abs (iv_time r) < USECS_PER_DAY /\ (0 <= 93784000005 * 93784000005 -> r = ds_of (-187568000010)).
Proof.
  apply (dsinterval_sum some_interval some_interval); [unfold ds_normal, INT_MAX, USECS_PER_DAY; cbn; lia..|by vm_compute].
Defined.

Lemma dsinterval_difference_witness :
  dsinterval_mi (mk_interval 5 2 0) some_interval = Ok (ds_of 266584000010).
Proof.
  apply (dsinterval_difference (mk_interval 5 2 0) some_interval);
    [unfold ds_normal, INT_MAX, USECS_PER_DAY; cbn; lia..|by vm_compute|by vm_compute|by vm_compute].
Defined.

Lemma dsinterval_product_witness :
  dsinterval_mul some_interval (of_int (-12)) = Ok (ds_of 1125408000060) /\
  mul_d_dsinterval (of_int (-12)) some_interval = Ok (ds_of 1125408000060) /\
  dsinterval_div (mk_interval 88608000060 12 0) (of_int (-12)) = Ok some_interval.
Proof.
  apply (dsinterval_product some_interval (-12));
    [unfold ds_normal, INT_MAX, USECS_PER_DAY; cbn; lia|by vm_compute..].
Defined.

Lemma dsinterval_recv_send_witness :
  dsinterval_recv (dsinterval_send some_interval) (-1) = Ok some_interval.
Proof. apply (dsinterval_recv_send some_interval (-1)); by vm_compute. Defined.
