(* ===== verification/Deadlock.v ===== *)
(** * The deadlock detector

    [src/src/backend/storage/lmgr/deadlock.c], and [CheckDeadLock] of proc.c: the
    search for a cycle in the waits-for graph through a process, the rearrangement
    of wait queues that breaks cycles with soft edges, and what the backend does
    with the result. The whole check runs with every partition of the lock table
    locked, so it is one step on a [LockState].

    - A process is its number; the PGPROC of a waiting process gives its lock and
      mode. [waitLink] is attached exactly while [waitLock] is set. The pid of a
      process is its number.
    - [lockGroupMembers] is the list of a group leader, [is_autovacuum] the flag
      PROC_IS_AUTOVACUUM, both constant during the check.
    - The arrays of the detector have [MaxBackends] entries; an access outside them
      is an error. So is a loop that runs out of fuel, and a lock or process that
      is not there. *)

From S2P Require Import Prelude LockObject LockTable.
From stdpp Require Import gmap.
#[local] Open Scope Z_scope.

(** ** Data *)

(** The workspace fields [pred] and [link] of an edge are local to [TopoSort]. *)
Record EDGE := mkEDGE { waiter : ProcNumber; blocker : ProcNumber; edge_lock : LOCKTAG }.

Record WAIT_ORDER := mkWAIT_ORDER { wo_lock : LOCKTAG; wo_procs : list PGPROC }.

Record DEADLOCK_INFO := mkINFO { info_locktag : LOCKTAG; info_lockmode : LOCKMODE; info_pid : ProcNumber }.

Inductive DeadLockState :=
  | DS_NOT_YET_CHECKED
  | DS_NO_DEADLOCK
  | DS_SOFT_DEADLOCK
  | DS_HARD_DEADLOCK
  | DS_BLOCKED_BY_AUTOVACUUM.

(** What a run of [FindLockCycle] changes. [deadlockDetails] lists the entries
    from [depth] on, which the levels of the recursion fill on their way back. *)
Record cycle_search := mkSearch {
  visitedProcs : list ProcNumber;
  softEdges : list EDGE;
  nDeadlockDetails : nat;
  deadlockDetails : list DEADLOCK_INFO;
  blocking_autovacuum_proc : option ProcNumber
}.

Definition assert_failed {A} (what : string) : result A := ereport ERRCODE_INTERNAL_ERROR what.

Section Detector.

Variable lockGroupLeader : ProcNumber -> option ProcNumber.
Variable lockGroupMembers : ProcNumber -> list ProcNumber.
Variable is_autovacuum : ProcNumber -> bool.
Variable MaxBackends : nat.
Variable MyProc : ProcNumber.

Abbreviation leader := (group_leader lockGroupLeader).

Section Search.

Variable s : LockState.
Variable waitOrders : list WAIT_ORDER.

(** ** Searching for a cycle *)

Definition add_info (t : LOCKTAG) (m : LOCKMODE) (p : ProcNumber) (st : cycle_search) : cycle_search :=
  mkSearch (visitedProcs st) (softEdges st) (nDeadlockDetails st) (mkINFO t m p :: deadlockDetails st)
    (blocking_autovacuum_proc st).

Definition add_soft (e : EDGE) (st : cycle_search) : result cycle_search :=
  if (length (softEdges st) <? MaxBackends)%nat then
    Ok (mkSearch (visitedProcs st) (softEdges st ++ [e]) (nDeadlockDetails st) (deadlockDetails st)
          (blocking_autovacuum_proc st))
  else assert_failed "nSoftEdges < MaxBackends".

Definition set_autovacuum (p : ProcNumber) (st : cycle_search) : cycle_search :=
  mkSearch (visitedProcs st) (softEdges st) (nDeadlockDetails st) (deadlockDetails st) (Some p).

Definition mark_seen (p : ProcNumber) (st : cycle_search) : result cycle_search :=
  if (length (visitedProcs st) <? MaxBackends)%nat then
    Ok (mkSearch (visitedProcs st ++ [p]) (softEdges st) (nDeadlockDetails st) (deadlockDetails st)
          (blocking_autovacuum_proc st))
  else assert_failed "nVisitedProcs < MaxBackends".

Definition cycle_closed (depth : nat) (st : cycle_search) : result cycle_search :=
  if (depth <=? MaxBackends)%nat then
    Ok (mkSearch (visitedProcs st) (softEdges st) depth [] (blocking_autovacuum_proc st))
  else assert_failed "depth <= MaxBackends".

(** [FindLockCycleRecurseMember], its loops over holders and over the processes
    ahead in the queue; [rec] is [FindLockCycleRecurse] one level down. *)
Section Member.

Variable rec : ProcNumber -> cycle_search -> result (bool * cycle_search).
Variables checkProc checkProcLeader : ProcNumber.
Variable t : LOCKTAG.
Variable m : LOCKMODE.
Variable conflictMask : LOCKMASK.
Variable modes : list LOCKMODE.

(** The PROCLOCK holds a mode of the conflict mask. *)
Definition hard_blocks (pl : PROCLOCK) : bool :=
  negb (leader (myProc pl) =? checkProcLeader) &&
  existsb (fun lm => Z.testbit (holdMask pl) lm && Z.testbit conflictMask lm) modes.

Fixpoint hard_loop (pls : list PROCLOCK) (st : cycle_search) : result (bool * cycle_search) :=
  match pls with
  | [] => Ok (false, st)
  | pl :: pls =>
      if hard_blocks pl then
        '(found, st) ← rec (myProc pl) st;
        if found : bool then Ok (true, add_info t m checkProc st)
        else
          hard_loop pls (if (checkProc =? MyProc) && is_autovacuum (myProc pl)
                         then set_autovacuum (myProc pl) st else st)
      else hard_loop pls st
  end.

Definition soft_blocks (w : PGPROC) : bool :=
  Z.testbit conflictMask (waitLockMode w) && negb (leader (procNumber w) =? checkProcLeader).

Fixpoint soft_loop (ahead : list PGPROC) (st : cycle_search) : result (bool * cycle_search) :=
  match ahead with
  | [] => Ok (false, st)
  | w :: ahead =>
      if soft_blocks w then
        '(found, st) ← rec (procNumber w) st;
        if found : bool then
          st ← add_soft (mkEDGE checkProcLeader (leader (procNumber w)) t) (add_info t m checkProc st);
          Ok (true, st)
        else soft_loop ahead st
      else soft_loop ahead st
  end.

End Member.

(** The proposed order of a queue, if there is one. *)
Definition find_order (t : LOCKTAG) : option WAIT_ORDER := List.find (fun o => bool_decide (wo_lock o = t)) waitOrders.

(** The processes before the first one that satisfies the test. *)
Fixpoint until (stop : PGPROC -> bool) (queue : list PGPROC) : list PGPROC :=
  match queue with
  | [] => []
  | w :: queue => if stop w then [] else w :: until stop queue
  end.

(** The last member of the lock group in the queue. *)
Definition last_group_member (checkProc checkProcLeader : ProcNumber) (queue : list PGPROC) : option ProcNumber :=
  match lockGroupLeader checkProc with
  | None => Some checkProc
  | Some _ =>
      foldl (fun last w => if bool_decide (lockGroupLeader (procNumber w) = Some checkProcLeader)
                           then Some (procNumber w) else last) None queue
  end.

(** The processes ahead of the lock group in the proposed or the actual queue. *)
Definition soft_ahead (checkProc checkProcLeader : ProcNumber) (lock : LOCK) : list PGPROC :=
  match find_order (tag lock) with
  | Some o => until (fun w => leader (procNumber w) =? checkProcLeader) (wo_procs o)
  | None =>
      let last := last_group_member checkProc checkProcLeader (waitProcs lock) in
      until (fun w => bool_decide (last = Some (procNumber w))) (waitProcs lock)
  end.

Definition FindLockCycleRecurseMember (rec : ProcNumber -> cycle_search -> result (bool * cycle_search))
    (checkProc checkProcLeader : ProcNumber) (st : cycle_search) : result (bool * cycle_search) :=
  match waitLock (backend s checkProc) with
  | None => assert_failed "waitLock is NULL"
  | Some (t, m) =>
      match LockMethodLockHash s !! t, LockMethods (locktag_lockmethodid t) with
      | Some lock, Some lmt =>
          if bool_decide (locktag_type (tag lock) = LOCKTAG_RELATION_EXTEND) then Ok (false, st)
          else
            '(found, st) ← hard_loop rec checkProc checkProcLeader t m (conflict lmt m) (lockmodes lmt) (procLocks lock) st;
            if found : bool then Ok (true, st)
            else soft_loop rec checkProc checkProcLeader t m (conflict lmt m)
                   (soft_ahead checkProc checkProcLeader lock) st
      | _, _ => assert_failed "waitLock dangles"
      end
  end.

(** The process is linked in a wait queue. *)
Definition is_waiting (p : ProcNumber) : bool := bool_decide (waitLock (backend s p) <> None).

(** [dlist_foreach(iter, &checkProc->lockGroupMembers)] *)
Fixpoint members_loop (rec : ProcNumber -> cycle_search -> result (bool * cycle_search)) (checkProc : ProcNumber)
    (members : list ProcNumber) (st : cycle_search) : result (bool * cycle_search) :=
  match members with
  | [] => Ok (false, st)
  | memberProc :: members =>
      if is_waiting memberProc && negb (memberProc =? checkProc) then
        '(found, st) ← FindLockCycleRecurseMember rec memberProc checkProc st;
        if found : bool then Ok (true, st) else members_loop rec checkProc members st
      else members_loop rec checkProc members st
  end.

Fixpoint FindLockCycleRecurse (fuel : nat) (checkProc : ProcNumber) (depth : nat) (st : cycle_search)
    : result (bool * cycle_search) :=
  match fuel with
  | O => assert_failed "out of fuel"
  | S fuel =>
      let checkProc := leader checkProc in
      if bool_decide (checkProc ∈ visitedProcs st) then
        if bool_decide (head (visitedProcs st) = Some checkProc) then st ← cycle_closed depth st; Ok (true, st)
        else Ok (false, st)
      else
        st ← mark_seen checkProc st;
        let rec p := FindLockCycleRecurse fuel p (S depth) in
        '(found, st) ← (if is_waiting checkProc then FindLockCycleRecurseMember rec checkProc checkProc st
                        else Ok (false, st));
        if found : bool then Ok (true, st)
        else members_loop rec checkProc (lockGroupMembers checkProc) st
  end.

Definition FindLockCycle (checkProc : ProcNumber) (autovacuum : option ProcNumber) : result (bool * cycle_search) :=
  FindLockCycleRecurse (S MaxBackends) checkProc 0 (mkSearch [] [] 0 [] autovacuum).

End Search.

(** ** Rearranging a wait queue *)

(** The test of [TopoSort] for a process of the group led by [proc]. *)
Definition in_group (proc : ProcNumber) (w : PGPROC) : bool :=
  (procNumber w =? proc) || bool_decide (lockGroupLeader (procNumber w) = Some proc).

(** The scan of the queue, backwards, for the representative of a group: its last
    member. The others get -1. *)
Fixpoint mark_group (proc : ProcNumber) (j : nat) (queue : list PGPROC) (beforeConstraints : list Z)
    : result (option nat * list Z) :=
  match queue with
  | [] => Ok (None, beforeConstraints)
  | w :: queue =>
      '(jj, beforeConstraints) ← mark_group proc (S j) queue beforeConstraints;
      if in_group proc w then
        match jj with
        | None => Ok (Some j, beforeConstraints)
        | Some _ =>
            if beforeConstraints !!! j <=? 0 then Ok (jj, <[j := -1]> beforeConstraints)
            else assert_failed "beforeConstraints[j] <= 0"
        end
      else Ok (jj, beforeConstraints)
  end.

(** The scan of the constraints. [afterConstraints] has for each process the [pred]
    fields of its constraints, in the order of the links. *)
Fixpoint add_constraints (queue : list PGPROC) (constraints : list EDGE) (beforeConstraints : list Z)
    (afterConstraints : list (list nat)) : result (list Z * list (list nat)) :=
  match constraints with
  | [] => Ok (beforeConstraints, afterConstraints)
  | c :: constraints =>
      '(jj, beforeConstraints) ← mark_group (waiter c) 0 queue beforeConstraints;
      match jj with
      | None => add_constraints queue constraints beforeConstraints afterConstraints
      | Some jj =>
          '(kk, beforeConstraints) ← mark_group (blocker c) 0 queue beforeConstraints;
          match kk with
          | None => add_constraints queue constraints beforeConstraints afterConstraints
          | Some kk =>
              if 0 <=? beforeConstraints !!! jj then
                add_constraints queue constraints (alter Z.succ jj beforeConstraints)
                  (alter (cons jj) kk afterConstraints)
              else assert_failed "beforeConstraints[jj] >= 0"
          end
      end
  end.

(** The last process that is still there and need not come before another one. *)
Fixpoint find_candidate (topoProcs : list (option PGPROC)) (beforeConstraints : list Z) : option nat :=
  match topoProcs, beforeConstraints with
  | w :: topoProcs, b :: beforeConstraints =>
      match find_candidate topoProcs beforeConstraints with
      | Some j => Some (S j)
      | None => match w with Some _ => if b =? 0 then Some 0%nat else None | None => None end
      end
  | _, _ => None
  end.

(** [topoProcs[c]] is a process of the group. *)
Definition matches (proc : ProcNumber) (w : option PGPROC) : bool := match w with Some w => in_group proc w | None => false end.

Definition take_group (proc : ProcNumber) (topoProcs : list (option PGPROC)) : list PGPROC :=
  omap (fun w => if matches proc w then w else None) topoProcs.

Definition drop_group (proc : ProcNumber) (topoProcs : list (option PGPROC)) : list (option PGPROC) :=
  (fun w => if matches proc w then None else w) <$> topoProcs.

(** The output loop, which fills [ordering] from its end. What [last] saves is the
    scan of entries that are NULL. *)
Fixpoint emit (fuel : nat) (queue_size : nat) (topoProcs : list (option PGPROC)) (beforeConstraints : list Z)
    (afterConstraints : list (list nat)) (ordering : list PGPROC) : result (option (list PGPROC)) :=
  if (queue_size <=? length ordering)%nat then Ok (Some ordering)
  else
    match fuel with
    | O => assert_failed "out of fuel"
    | S fuel =>
        match find_candidate topoProcs beforeConstraints with
        | None => Ok None
        | Some j =>
            match topoProcs !! j with
            | Some (Some w) =>
                let proc := leader (procNumber w) in
                emit fuel queue_size (drop_group proc topoProcs)
                  (foldl (fun b pred => alter Z.pred pred b) beforeConstraints (afterConstraints !!! j)) afterConstraints
                  (rev (take_group proc topoProcs) ++ ordering)
            | _ => assert_failed "proc != NULL"
            end
        end
    end.

Definition TopoSort (queue : list PGPROC) (constraints : list EDGE) : result (option (list PGPROC)) :=
  let queue_size := length queue in
  if (MaxBackends <? queue_size)%nat then assert_failed "topoProcs has MaxBackends entries"
  else
    '(beforeConstraints, afterConstraints) ←
      add_constraints queue constraints (replicate queue_size 0) (replicate queue_size []);
    emit queue_size queue_size (Some <$> queue) beforeConstraints afterConstraints [].

(** ** Testing configurations *)

Section Check.

Variable s : LockState.

(** The constraints backwards, as [ExpandConstraints] scans them: the loop has the
    one it looks at and those before it. *)
Fixpoint expand (constraints : list EDGE) (waitOrders : list WAIT_ORDER) (nWaitOrderProcs : nat)
    : result (option (list WAIT_ORDER)) :=
  match constraints with
  | [] => Ok (Some waitOrders)
  | c :: before =>
      match find_order waitOrders (edge_lock c) with
      | Some _ => expand before waitOrders nWaitOrderProcs
      | None =>
          match LockMethodLockHash s !! edge_lock c with
          | None => assert_failed "lock is NULL"
          | Some lock =>
              let nWaitOrderProcs := (nWaitOrderProcs + length (waitProcs lock))%nat in
              if (MaxBackends / 2 <=? length waitOrders)%nat then assert_failed "waitOrders has MaxBackends / 2 entries"
              else if (MaxBackends <? nWaitOrderProcs)%nat then assert_failed "nWaitOrderProcs <= MaxBackends"
              else
                ordering ← TopoSort (waitProcs lock) (rev (c :: before));
                match ordering with
                | None => Ok None
                | Some procs => expand before (waitOrders ++ [mkWAIT_ORDER (edge_lock c) procs]) nWaitOrderProcs
                end
          end
      end
  end.

Definition ExpandConstraints (constraints : list EDGE) : result (option (list WAIT_ORDER)) :=
  expand (rev constraints) [] 0.

(** The searches of [TestConfiguration]: [None] for a cycle without soft edges, else
    the soft edges of the last cycle found. *)
Fixpoint test_procs (waitOrders : list WAIT_ORDER) (procs : list ProcNumber) (softFound : list EDGE)
    (autovacuum : option ProcNumber) : result (option (list EDGE) * option ProcNumber) :=
  match procs with
  | [] => Ok (Some softFound, autovacuum)
  | p :: procs =>
      '(found, st) ← FindLockCycle s waitOrders p autovacuum;
      if found : bool then
        match softEdges st with
        | [] => Ok (None, blocking_autovacuum_proc st)
        | edges => test_procs waitOrders procs edges (blocking_autovacuum_proc st)
        end
      else test_procs waitOrders procs softFound (blocking_autovacuum_proc st)
  end.

Definition maxPossibleConstraints : nat := (MaxBackends * 4)%nat.

(** [None] for -1, else the soft edges and the orders of the configuration. *)
Definition TestConfiguration (startProc : ProcNumber) (curConstraints : list EDGE) (nPossibleConstraints : nat)
    (autovacuum : option ProcNumber) : result (option (list EDGE * list WAIT_ORDER) * option ProcNumber) :=
  if (maxPossibleConstraints <? nPossibleConstraints + MaxBackends)%nat then Ok (None, autovacuum)
  else
    orders ← ExpandConstraints curConstraints;
    match orders with
    | None => Ok (None, autovacuum)
    | Some waitOrders =>
        '(edges, autovacuum) ←
          test_procs waitOrders (flat_map (fun c => [waiter c; blocker c]) curConstraints ++ [startProc]) [] autovacuum;
        Ok (option_map (fun edges => (edges, waitOrders)) edges, autovacuum)
    end.

(** The loop of [DeadLockCheckRecurse] from edge [i] on, [todo] of them. A
    list that could not be saved is computed again. *)
Fixpoint try_edges (test : option ProcNumber -> result (option (list EDGE * list WAIT_ORDER) * option ProcNumber))
    (rec : EDGE -> option ProcNumber -> result (option (list WAIT_ORDER) * option ProcNumber))
    (savedList : bool) (edges : list EDGE) (i todo : nat) (autovacuum : option ProcNumber)
    : result (option (list WAIT_ORDER) * option ProcNumber) :=
  match todo with
  | O => Ok (None, autovacuum)
  | S todo =>
      '(edges, autovacuum) ←
        (if negb savedList && (0 <? i)%nat then
           '(again, autovacuum) ← test autovacuum;
           match again with
           | Some (edges', _) =>
               if (length edges' =? length edges)%nat then Ok (edges', autovacuum)
               else ereport ERRCODE_INTERNAL_ERROR "inconsistent results during deadlock check"
           | None => ereport ERRCODE_INTERNAL_ERROR "inconsistent results during deadlock check"
           end
         else Ok (edges, autovacuum));
      match edges !! i with
      | None => assert_failed "i < nEdges"
      | Some c =>
          '(orders, autovacuum) ← rec c autovacuum;
          match orders with
          | Some orders => Ok (Some orders, autovacuum)
          | None => try_edges test rec savedList edges (S i) todo autovacuum
          end
      end
  end.

(** [None]: no solution exists; [Some orders]: the rearrangements. *)
Fixpoint DeadLockCheckRecurse (fuel : nat) (proc : ProcNumber) (curConstraints : list EDGE)
    (nPossibleConstraints : nat) (autovacuum : option ProcNumber)
    : result (option (list WAIT_ORDER) * option ProcNumber) :=
  match fuel with
  | O => assert_failed "out of fuel"
  | S fuel =>
      let test := TestConfiguration proc curConstraints nPossibleConstraints in
      '(edges, autovacuum) ← test autovacuum;
      match edges with
      | None => Ok (None, autovacuum)
      | Some ([], orders) => Ok (Some orders, autovacuum)
      | Some (edges, _) =>
          if (MaxBackends <=? length curConstraints)%nat then Ok (None, autovacuum)
          else
            let savedList := (nPossibleConstraints + length edges + MaxBackends <=? maxPossibleConstraints)%nat in
            let nPossible := if savedList then (nPossibleConstraints + length edges)%nat else nPossibleConstraints in
            try_edges test (fun c => DeadLockCheckRecurse fuel proc (curConstraints ++ [c]) nPossible)
              savedList edges 0 (length edges) autovacuum
      end
  end.

End Check.

(** "Apply any needed rearrangements of wait queues" *)
Fixpoint apply_orders (waitOrders : list WAIT_ORDER) : ST LockState unit :=
  match waitOrders with
  | [] => mret tt
  | o :: waitOrders => _ ← DeadLockCheck_soft lockGroupLeader MyProc (wo_lock o) (wo_procs o); apply_orders waitOrders
  end.

(** The result with [deadlockDetails] of a hard deadlock, and the autovacuum worker
    for [GetBlockingAutoVacuumPgproc]. *)
Definition DeadLockCheck (proc : ProcNumber)
    : ST LockState (DeadLockState * list DEADLOCK_INFO * option ProcNumber) := fun s =>
  match DeadLockCheckRecurse s (S MaxBackends) proc [] 0 None with
  | Err e => (Err e, s)
  | Ok (None, autovacuum) =>
      match FindLockCycle s [] proc autovacuum with
      | Err e => (Err e, s)
      | Ok (true, st) => (Ok (DS_HARD_DEADLOCK, deadlockDetails st, blocking_autovacuum_proc st), s)
      | Ok (false, _) => (ereport ERRCODE_INTERNAL_ERROR "deadlock seems to have disappeared", s)
      end
  | Ok (Some waitOrders, autovacuum) =>
      (_ ← apply_orders waitOrders;
       mret (match waitOrders, autovacuum with
             | _ :: _, _ => DS_SOFT_DEADLOCK
             | [], Some _ => DS_BLOCKED_BY_AUTOVACUUM
             | [], None => DS_NO_DEADLOCK
             end, [], autovacuum)) s
  end.

(** [CheckDeadLock] of proc.c, with the details for [DeadLockReport]. *)
Definition CheckDeadLock : ST LockState (DeadLockState * list DEADLOCK_INFO) := fun s =>
  match waitLock (backend s MyProc) with
  | None => (Ok (DS_NO_DEADLOCK, []), s)
  | Some _ =>
      ('(result, details, _) ← DeadLockCheck MyProc;
       match result with
       | DS_HARD_DEADLOCK => _ ← leave_queue lockGroupLeader MyProc; mret (result, details)
       | _ => mret (result, details)
       end) s
  end.

End Detector.

(** ** The waits-for graph *)

(** [lockGroupMembers] lists the members of a group. *)
Class MembersOK (lockGroupLeader : ProcNumber -> option ProcNumber) (lockGroupMembers : ProcNumber -> list ProcNumber)
    : Prop :=
  members_ok : forall p q, p ∈ lockGroupMembers q <-> lockGroupLeader p = Some q.

(** One edge of the graph with the data the detector records of it: the process of
    the group that waits, for which lock and mode, and whether the blocker holds the
    lock (hard) or is ahead in the queue (soft). *)
Record wait_step := mkStep { st_soft : bool; st_edge : EDGE; st_info : DEADLOCK_INFO }.

Section Graph.

Context (lockGroupLeader : ProcNumber -> option ProcNumber) (s : LockState) (waitOrders : list WAIT_ORDER).

Abbreviation leader := (group_leader lockGroupLeader).

Definition blocks (soft : bool) (lock : LOCK) (lmt : LockMethodData) (p : ProcNumber) (m : LOCKMODE) (v : ProcNumber)
    : Prop :=
  if soft then
    exists w, w ∈ soft_ahead lockGroupLeader waitOrders p (leader p) lock /\ leader (procNumber w) = v /\
      conflicts lmt m (waitLockMode w)
  else
    exists pl m', pl ∈ procLocks lock /\ leader (myProc pl) = v /\ 1 <= m' <= numLockModes lmt /\ holds pl m' /\
      conflicts lmt m m'.

Definition step_ok (x : wait_step) : Prop :=
  let p := info_pid (st_info x) in
  let t := info_locktag (st_info x) in
  let m := info_lockmode (st_info x) in
  waiter (st_edge x) = leader p /\ edge_lock (st_edge x) = t /\ blocker (st_edge x) <> leader p /\
  waitLock (backend s p) = Some (t, m) /\ locktag_type t <> LOCKTAG_RELATION_EXTEND /\
  exists lock lmt, LockMethodLockHash s !! t = Some lock /\ LockMethods (locktag_lockmethodid t) = Some lmt /\
    blocks (st_soft x) lock lmt p m (blocker (st_edge x)).

(** A way through the graph, edge by edge. *)
Fixpoint wait_path (u v : ProcNumber) (steps : list wait_step) : Prop :=
  match steps with
  | [] => u = v
  | x :: steps => step_ok x /\ waiter (st_edge x) = u /\ wait_path (blocker (st_edge x)) v steps
  end.

(** A cycle of lock groups that wait for each other. *)
Definition deadlock_cycle (u : ProcNumber) (steps : list wait_step) : Prop := steps <> [] /\ wait_path u u steps.

Definition waits_for (u v : ProcNumber) : Prop := exists x, step_ok x /\ waiter (st_edge x) = u /\ blocker (st_edge x) = v.

Lemma wait_path_snoc u v w steps x :
  wait_path u v steps -> step_ok x -> waiter (st_edge x) = v -> blocker (st_edge x) = w -> wait_path u w (steps ++ [x]).
Proof.
  revert u. induction steps as [|y steps IH]; intros u; cbn.
  - intros -> Hx Hv Hw. done.
  - intros (Hy & Hu & Hp) Hx Hv Hw. split; [done|]. split; [done|]. by apply IH.
Qed.

(** The soft edges and the report of a path, as the recursion leaves them. *)
Definition soft_of (steps : list wait_step) : list EDGE := rev (st_edge <$> filter (fun x => st_soft x = true) steps).

Lemma soft_of_cons x steps : soft_of (x :: steps) = soft_of steps ++ (if st_soft x then [st_edge x] else []).
Proof.
  unfold soft_of. rewrite filter_cons. destruct (st_soft x); case_decide; try done. by rewrite app_nil_r.
Qed.

Lemma soft_of_length steps : (length (soft_of steps) <= length steps)%nat.
Proof. unfold soft_of. rewrite length_rev, length_fmap. apply length_filter. Qed.

End Graph.

(** ** The search is right *)

Definition in_range (MaxBackends : nat) (p : ProcNumber) : Prop := 0 <= p < Z.of_nat MaxBackends.

Lemma in_range_length MaxBackends (l : list ProcNumber) : NoDup l -> Forall (in_range MaxBackends) l -> (length l <= MaxBackends)%nat.
Proof.
  intros Hnd Hr. transitivity (length (seqZ 0 (Z.of_nat MaxBackends))).
  - apply submseteq_length, NoDup_submseteq; [done|]. intros p Hp. rewrite Forall_forall in Hr. apply elem_of_seqZ.
    specialize (Hr p Hp). unfold in_range in Hr. lia.
  - rewrite length_seqZ. lia.
Qed.

(** The lock a process waits for is in the table. *)
Definition waits_ok (s : LockState) : Prop :=
  forall p t m, waitLock (backend s p) = Some (t, m) ->
    exists lock lmt, LockMethodLockHash s !! t = Some lock /\ tag lock = t /\ LockMethods (locktag_lockmethodid t) = Some lmt.

Lemma sys_waits_ok lockGroupLeader s : sys_ok lockGroupLeader s -> waits_ok s.
Proof.
  intros Hs p t m Hw. destruct (sys_waiting lockGroupLeader s p t m Hs Hw) as (lock & lmt & w & ? & ? & ? & _). by exists lock, lmt.
Qed.

Section Cycle.

Context (lockGroupLeader : ProcNumber -> option ProcNumber) `{!GroupsOK lockGroupLeader}.
Context (lockGroupMembers : ProcNumber -> list ProcNumber) `{!MembersOK lockGroupLeader lockGroupMembers}.
Context (is_autovacuum : ProcNumber -> bool) (MaxBackends : nat) (MyProc : ProcNumber).
Context (s : LockState) (Hs : waits_ok s) (waitOrders : list WAIT_ORDER).

Abbreviation in_range := (in_range MaxBackends).
Abbreviation leader := (group_leader lockGroupLeader).
Abbreviation step_ok := (step_ok lockGroupLeader s waitOrders).
Abbreviation wait_path := (wait_path lockGroupLeader s waitOrders).
Abbreviation waits_for := (waits_for lockGroupLeader s waitOrders).
Abbreviation soft_ahead := (soft_ahead lockGroupLeader waitOrders).

(** Lock groups that block someone are numbered below [MaxBackends]. *)
Context (Hrange : forall u v, waits_for u v -> in_range v).

(** The search from [r] has visited these groups. *)
Record search_ok (r : ProcNumber) (st : cycle_search) : Prop := {
  so_head : head (visitedProcs st) = Some r;
  so_nodup : NoDup (visitedProcs st);
  so_range : Forall in_range (visitedProcs st);
  so_soft : softEdges st = []
}.

(** What was visited since is closed under waiting, away from the start. *)
Definition extends (r : ProcNumber) (st st' : cycle_search) : Prop :=
  exists new, visitedProcs st' = visitedProcs st ++ new /\
    forall x y, x ∈ new -> waits_for x y -> y ∈ visitedProcs st' /\ y <> r.

(** The search closed a cycle of at least [least] more edges. *)
Definition found_cycle (least : nat) (r : ProcNumber) (depth : nat) (u : ProcNumber) (st' : cycle_search) : Prop :=
  exists steps, (least <= length steps)%nat /\ wait_path u r steps /\ softEdges st' = soft_of steps /\ deadlockDetails st' = st_info <$> steps /\
    nDeadlockDetails st' = (depth + length steps)%nat /\ (nDeadlockDetails st' <= MaxBackends)%nat.

Definition outcome (least : nat) (r : ProcNumber) (depth : nat) (u : ProcNumber) (st : cycle_search) (b : bool) (st' : cycle_search)
    (rest : Prop) : Prop :=
  if b then found_cycle least r depth u st' else search_ok r st' /\ extends r st st' /\ rest.

Lemma extends_refl r st : extends r st st.
Proof. exists []. rewrite app_nil_r. split; [done|]. intros x y Hx. by apply not_elem_of_nil in Hx. Qed.

Lemma extends_trans r st1 st2 st3 : extends r st1 st2 -> extends r st2 st3 -> extends r st1 st3.
Proof.
  intros (n1 & E1 & H1) (n2 & E2 & H2). exists (n1 ++ n2). rewrite E2, E1, app_assoc. split; [done|].
  intros x y [Hx|Hx]%elem_of_app Hw.
  - destruct (H1 x y Hx Hw) as [Hy Hr]. split; [|done]. rewrite E1 in Hy. apply elem_of_app. by left.
  - destruct (H2 x y Hx Hw) as [Hy Hr]. split; [|done]. by rewrite E2, E1 in Hy.
Qed.

Lemma extends_mono r st st' p : extends r st st' -> p ∈ visitedProcs st -> p ∈ visitedProcs st'.
Proof. intros (n & -> & _) Hp. apply elem_of_app. by left. Qed.

Lemma extends_length r st st' : extends r st st' -> (length (visitedProcs st) <= length (visitedProcs st'))%nat.
Proof. intros (n & -> & _). rewrite length_app. lia. Qed.

(** What the recursion promises for one level. *)
Definition rec_ok (r : ProcNumber) (depth fuel : nat) (rec : ProcNumber -> cycle_search -> result (bool * cycle_search)) : Prop :=
  forall p st, search_ok r st -> (depth <= length (visitedProcs st))%nat -> (MaxBackends < length (visitedProcs st) + fuel)%nat ->
    in_range (leader p) ->
    exists b st', rec p st = Ok (b, st') /\ outcome 0 r depth (leader p) st b st' (leader p ∈ visitedProcs st' /\ leader p <> r).

(** Room for one more level. *)
Definition room (r : ProcNumber) (depth fuel : nat) (st : cycle_search) : Prop :=
  search_ok r st /\ (S depth <= length (visitedProcs st))%nat /\ (MaxBackends < length (visitedProcs st) + fuel)%nat.

Lemma room_extends r depth fuel st st' : room r depth fuel st -> search_ok r st' -> extends r st st' -> room r depth fuel st'.
Proof. intros (_ & H1 & H2) H3 H4. pose proof (extends_length r st st' H4). split; [done|]. lia. Qed.

Section Member.

Context (r : ProcNumber) (depth fuel : nat) (rec : ProcNumber -> cycle_search -> result (bool * cycle_search)) (Hrec : rec_ok r (S depth) fuel rec).
Context (p : ProcNumber) (t : LOCKTAG) (m : LOCKMODE) (lock : LOCK) (lmt : LockMethodData).
Context (Hwait : waitLock (backend s p) = Some (t, m)) (Htype : locktag_type t <> LOCKTAG_RELATION_EXTEND).
Context (Hlock : LockMethodLockHash s !! t = Some lock) (Htag : tag lock = t) (Hlmt : LockMethods (locktag_lockmethodid t) = Some lmt).

(** A cycle found one level down, with this edge in front. *)
Lemma found_cycle_cons soft v st :
  v <> leader p -> blocks lockGroupLeader waitOrders soft lock lmt p m v -> found_cycle 0 r (S depth) v st ->
  let st1 := add_info t m p st in
  if soft then exists st2, add_soft MaxBackends (mkEDGE (leader p) v t) st1 = Ok st2 /\ found_cycle 1 r depth (leader p) st2
  else found_cycle 1 r depth (leader p) st1.
Proof.
  intros Hne Hb (steps & _ & Hp & Es & Ed & En & Hn) st1.
  set (x := mkStep soft (mkEDGE (leader p) v t) (mkINFO t m p)).
  assert (Hx : wait_path (leader p) r (x :: steps)).
  { split; [|done]. unfold Deadlock.step_ok. cbn. split_and!; [done|done|done|done|done|]. by exists lock, lmt. }
  subst st1. destruct soft.
  - unfold add_soft. cbn [softEdges add_info]. rewrite Es. pose proof (soft_of_length steps).
    destruct (Nat.ltb_spec (length (soft_of steps)) MaxBackends); [|lia]. eexists. split; [done|].
    exists (x :: steps). cbn [softEdges deadlockDetails nDeadlockDetails add_info]. split; [cbn; lia|]. split; [done|]. split; [by rewrite soft_of_cons|].
    split; [cbn; by rewrite Ed|]. cbn [length]. lia.
  - exists (x :: steps). cbn [softEdges deadlockDetails nDeadlockDetails add_info]. split; [cbn; lia|]. split; [done|].
    split; [by rewrite soft_of_cons, app_nil_r|]. split; [cbn; by rewrite Ed|]. cbn [length]. lia.
Qed.

Lemma blocks_waits soft v : v <> leader p -> blocks lockGroupLeader waitOrders soft lock lmt p m v -> waits_for (leader p) v.
Proof.
  intros Hne Hb. exists (mkStep soft (mkEDGE (leader p) v t) (mkINFO t m p)). unfold Deadlock.step_ok. cbn.
  split_and!; [done|done|done|done|done| |done|done]. by exists lock, lmt.
Qed.

Lemma hard_blocks_spec pl :
  hard_blocks lockGroupLeader (leader p) (conflict lmt m) (lockmodes lmt) pl = true <->
  leader (myProc pl) <> leader p /\ exists m', 1 <= m' <= numLockModes lmt /\ holds pl m' /\ conflicts lmt m m'.
Proof.
  unfold hard_blocks, holds, conflicts. rewrite andb_true_iff, negb_true_iff, Z.eqb_neq, existsb_exists.
  setoid_rewrite <- list_elem_of_In. setoid_rewrite lockmodes_spec. setoid_rewrite andb_true_iff. naive_solver.
Qed.

Lemma soft_blocks_spec w :
  soft_blocks lockGroupLeader (leader p) (conflict lmt m) w = true <->
  leader (procNumber w) <> leader p /\ conflicts lmt m (waitLockMode w).
Proof. unfold soft_blocks, conflicts. rewrite andb_true_iff, negb_true_iff, Z.eqb_neq. naive_solver. Qed.

Lemma hard_loop_ok pls st :
  room r depth fuel st -> (forall pl, pl ∈ pls -> pl ∈ procLocks lock) ->
  exists b st', hard_loop lockGroupLeader is_autovacuum MyProc rec p (leader p) t m (conflict lmt m) (lockmodes lmt) pls st = Ok (b, st') /\
    outcome 1 r depth (leader p) st b st'
      (forall pl, pl ∈ pls -> hard_blocks lockGroupLeader (leader p) (conflict lmt m) (lockmodes lmt) pl = true ->
         leader (myProc pl) ∈ visitedProcs st' /\ leader (myProc pl) <> r).
Proof.
  revert st. induction pls as [|pl pls IH]; intros st Hst Hin; cbn [hard_loop].
  { exists false, st. split; [done|]. split; [apply Hst|]. split; [apply extends_refl|]. intros pl Hpl. by apply not_elem_of_nil in Hpl. }
  assert (Hin' : forall q, q ∈ pls -> q ∈ procLocks lock) by (intros q Hq; apply Hin; by right).
  destruct (hard_blocks _ _ _ _ pl) eqn:Eb.
  - pose proof Eb as (Hne & m' & Hm' & Hh & Hc)%hard_blocks_spec.
    assert (Hbl : blocks lockGroupLeader waitOrders false lock lmt p m (leader (myProc pl))).
    { exists pl, m'. split_and!; try done; try lia. apply Hin. left. }
    pose proof Hst as (H1 & H2 & H3). destruct (Hrec (myProc pl) st H1 H2 H3) as (b & st1 & -> & Ho).
    { eapply Hrange. by apply blocks_waits in Hbl. }
    cbn [mbind result_bind]. destruct b.
    + exists true, (add_info t m p st1). split; [done|]. exact (found_cycle_cons false _ st1 Hne Hbl Ho).
    + destruct Ho as (Ho1 & Ho2 & Ho3). set (st2 := if _ && _ then _ else st1).
      assert (Hv : visitedProcs st2 = visitedProcs st1) by (unfold st2; by destruct (_ && _)).
      assert (Hst2 : room r depth fuel st2).
      { apply (room_extends r depth fuel st1); [by apply (room_extends r depth fuel st)| |].
        - destruct Ho1 as [A B C D]. unfold st2. by destruct (_ && _).
        - exists []. rewrite Hv, app_nil_r. split; [done|]. intros x y Hx. by apply not_elem_of_nil in Hx. }
      destruct (IH st2 Hst2 Hin') as (b & st' & -> & Ho'). exists b, st'. split; [done|]. destruct b; [done|].
      destruct Ho' as (G1 & G2 & G3). split; [done|].
      assert (E12 : extends r st1 st2).
      { exists []. rewrite Hv, app_nil_r. split; [done|]. intros x y Hx. by apply not_elem_of_nil in Hx. }
      split; [by eapply extends_trans; [exact Ho2|]; eapply extends_trans|].
      intros q [->|Hq]%elem_of_cons Hb; [|by apply G3]. split; [|apply Ho3].
      apply (extends_mono r st2 st' _ G2). rewrite Hv. apply Ho3.
  - destruct (IH st Hst Hin') as (b & st' & -> & Ho'). exists b, st'. split; [done|]. destruct b; [done|].
    destruct Ho' as (G1 & G2 & G3). split; [done|]. split; [done|].
    intros q [->|Hq]%elem_of_cons Hb; [congruence|by apply G3].
Qed.

Lemma soft_loop_ok ahead st :
  room r depth fuel st -> (forall w, w ∈ ahead -> w ∈ soft_ahead p (leader p) lock) ->
  exists b st', soft_loop lockGroupLeader MaxBackends rec p (leader p) t m (conflict lmt m) ahead st = Ok (b, st') /\
    outcome 1 r depth (leader p) st b st'
      (forall w, w ∈ ahead -> soft_blocks lockGroupLeader (leader p) (conflict lmt m) w = true ->
         leader (procNumber w) ∈ visitedProcs st' /\ leader (procNumber w) <> r).
Proof.
  revert st. induction ahead as [|w ahead IH]; intros st Hst Hin; cbn [soft_loop].
  { exists false, st. split; [done|]. split; [apply Hst|]. split; [apply extends_refl|]. intros w Hw. by apply not_elem_of_nil in Hw. }
  assert (Hin' : forall q, q ∈ ahead -> q ∈ soft_ahead p (leader p) lock) by (intros q Hq; apply Hin; by right).
  destruct (soft_blocks _ _ _ w) eqn:Eb.
  - pose proof Eb as (Hne & Hc)%soft_blocks_spec.
    assert (Hbl : blocks lockGroupLeader waitOrders true lock lmt p m (leader (procNumber w))).
    { exists w. split_and!; try done. apply Hin. left. }
    pose proof Hst as (H1 & H2 & H3). destruct (Hrec (procNumber w) st H1 H2 H3) as (b & st1 & -> & Ho).
    { eapply Hrange. by apply blocks_waits in Hbl. }
    cbn [mbind result_bind]. destruct b.
    + destruct (found_cycle_cons true _ st1 Hne Hbl Ho) as (st2 & -> & Hf). exists true, st2. done.
    + destruct Ho as (Ho1 & Ho2 & Ho3). destruct (IH st1) as (b & st' & -> & Ho'); [by apply (room_extends r depth fuel st)|done|].
      exists b, st'. split; [done|]. destruct b; [done|]. destruct Ho' as (G1 & G2 & G3). split; [done|].
      split; [by eapply extends_trans|]. intros q [->|Hq]%elem_of_cons Hb; [|by apply G3]. split; [|apply Ho3].
      apply (extends_mono r st1 st' _ G2). apply Ho3.
  - destruct (IH st Hst Hin') as (b & st' & -> & Ho'). exists b, st'. split; [done|]. destruct b; [done|].
    destruct Ho' as (G1 & G2 & G3). split; [done|]. split; [done|].
    intros q [->|Hq]%elem_of_cons Hb; [congruence|by apply G3].
Qed.

(** Every edge of the waiting process has been followed. *)
Lemma FindLockCycleRecurseMember_ok st :
  room r depth fuel st ->
  exists b st', FindLockCycleRecurseMember lockGroupLeader is_autovacuum MaxBackends MyProc s waitOrders rec p (leader p) st = Ok (b, st') /\
    outcome 1 r depth (leader p) st b st'
      (forall x, step_ok x -> info_pid (st_info x) = p ->
         blocker (st_edge x) ∈ visitedProcs st' /\ blocker (st_edge x) <> r).
Proof.
  intros Hst. unfold FindLockCycleRecurseMember. rewrite Hwait, Hlock, Hlmt.
  rewrite Htag, bool_decide_eq_false_2 by done.
  destruct (hard_loop_ok (procLocks lock) st Hst (fun _ H => H)) as (b & st1 & -> & Ho). cbn [mbind result_bind].
  destruct b; [by exists true, st1|]. destruct Ho as (G1 & G2 & G3).
  destruct (soft_loop_ok (soft_ahead p (leader p) lock) st1) as (b & st2 & -> & Ho); [by apply (room_extends r depth fuel st)|done|].
  exists b, st2. split; [done|]. destruct b; [done|]. destruct Ho as (F1 & F2 & F3). split; [done|].
  split; [by eapply extends_trans|]. intros x (E1 & E2 & E3 & E4 & E5 & l' & lmt' & E6 & E7 & E8) Ep.
  rewrite Ep in *. assert (info_locktag (st_info x) = t /\ info_lockmode (st_info x) = m) as [Et Em] by (split; congruence).
  rewrite Et, Em in *. assert (l' = lock) as -> by congruence. assert (lmt' = lmt) as -> by congruence. unfold blocks in E8. destruct (st_soft x).
  - destruct E8 as (w & W1 & W2 & W3). rewrite <- W2. apply F3; [done|]. apply soft_blocks_spec. by rewrite W2.
  - destruct E8 as (pl & m' & W1 & W2 & W3 & W4 & W5). rewrite <- W2.
    destruct (G3 pl W1) as [V1 V2]; [|split; [by apply (extends_mono r st1)|done]].
    apply hard_blocks_spec. rewrite W2. split; [done|]. by exists m'.
Qed.

End Member.

Lemma step_pid u v : waits_for u v -> exists x, step_ok x /\ leader (info_pid (st_info x)) = u /\ blocker (st_edge x) = v.
Proof. intros (x & Hx & Hu & Hv). exists x. split; [done|]. split; [|done]. destruct Hx as (E & _). congruence. Qed.

Section Level.

Context (r : ProcNumber) (depth fuel : nat) (rec : ProcNumber -> cycle_search -> result (bool * cycle_search)) (Hrec : rec_ok r (S depth) fuel rec).

(** The edges of the processes in [ps] have been followed. *)
Definition followed (ps : list ProcNumber) (st : cycle_search) : Prop :=
  forall x, step_ok x -> info_pid (st_info x) ∈ ps -> blocker (st_edge x) ∈ visitedProcs st /\ blocker (st_edge x) <> r.

Lemma followed_extends ps st st' : followed ps st -> extends r st st' -> followed ps st'.
Proof. intros H He x Hx Hp. destruct (H x Hx Hp) as [H1 H2]. split; [|done]. by apply (extends_mono r st). Qed.

Lemma followed_app ps qs st : followed ps st -> followed qs st -> followed (ps ++ qs) st.
Proof. intros H1 H2 x Hx [Hp|Hp]%elem_of_app; [by apply H1|by apply H2]. Qed.

Lemma followed_idle p st : waitLock (backend s p) = None -> followed [p] st.
Proof. intros Hw x (_ & _ & _ & E & _) Hp%list_elem_of_singleton. congruence. Qed.

Lemma member_ok p st :
  room r depth fuel st -> is_waiting s p = true ->
  exists b st', FindLockCycleRecurseMember lockGroupLeader is_autovacuum MaxBackends MyProc s waitOrders rec p (leader p) st = Ok (b, st') /\
    outcome 1 r depth (leader p) st b st' (followed [p] st').
Proof.
  intros Hst Hw%bool_decide_eq_true. destruct (waitLock (backend s p)) as [[t m]|] eqn:Ew; [|done]. clear Hw.
  destruct (Hs p t m Ew) as (lock & lmt & El & Ht & Em).
  destruct (decide (locktag_type t = LOCKTAG_RELATION_EXTEND)) as [Hx|Hx].
  - unfold FindLockCycleRecurseMember. rewrite Ew, El, Em, Ht, bool_decide_eq_true_2 by done. exists false, st. split; [done|].
    split; [apply Hst|]. split; [apply extends_refl|]. intros x (_ & _ & _ & E & Hn & _) Hp%list_elem_of_singleton.
    rewrite Hp, Ew in E. congruence.
  - destruct (FindLockCycleRecurseMember_ok r depth fuel rec Hrec p t m lock lmt Ew Hx El Ht Em st Hst) as (b & st' & E & Ho).
    exists b, st'. split; [done|]. destruct b; [done|]. destruct Ho as (G1 & G2 & G3). split; [done|]. split; [done|].
    intros x Hxx Hp%list_elem_of_singleton. by apply G3.
Qed.

Lemma members_loop_ok q members st :
  room r depth fuel st -> (forall p, p ∈ members -> leader p = q) -> followed [q] st ->
  exists b st', members_loop lockGroupLeader is_autovacuum MaxBackends MyProc s waitOrders rec q members st = Ok (b, st') /\
    outcome 1 r depth q st b st' (followed (q :: members) st').
Proof.
  revert st. induction members as [|p members IH]; intros st Hst Hm Hq; cbn [members_loop].
  { exists false, st. split; [done|]. split; [apply Hst|]. by split; [apply extends_refl|]. }
  assert (Hm' : forall x, x ∈ members -> leader x = q) by (intros x Hx; apply Hm; by right).
  assert (Hone : exists b st', (if is_waiting s p && negb (p =? q)
      then FindLockCycleRecurseMember lockGroupLeader is_autovacuum MaxBackends MyProc s waitOrders rec p q st
      else Ok (false, st)) = Ok (b, st') /\ outcome 1 r depth q st b st' (followed [p] st')).
  { destruct (is_waiting s p && negb (p =? q)) eqn:Ec.
    - apply andb_true_iff in Ec as [Ew _]. destruct (member_ok p st Hst Ew) as (b & st' & E & Ho).
      rewrite (Hm p) in E, Ho by left. by exists b, st'.
    - exists false, st. split; [done|]. split; [apply Hst|]. split; [apply extends_refl|].
      apply andb_false_iff in Ec as [Ew|Ew].
      + apply bool_decide_eq_false in Ew. apply followed_idle. destruct (waitLock _); [by destruct Ew|done].
      + rewrite negb_false_iff, Z.eqb_eq in Ew. by rewrite Ew. }
  destruct Hone as (b & st1 & E & Ho).
  assert (Hrest : outcome 1 r depth q st false st1 (followed [p] st1) ->
    exists b st', members_loop lockGroupLeader is_autovacuum MaxBackends MyProc s waitOrders rec q members st1 = Ok (b, st') /\
      outcome 1 r depth q st b st' (followed (q :: p :: members) st')).
  { intros (G1 & G2 & G3). destruct (IH st1) as (b' & st2 & E2 & Ho2).
    - by apply (room_extends r depth fuel st).
    - done.
    - by apply (followed_extends _ st).
    - exists b', st2. split; [done|]. destruct b'; [done|]. destruct Ho2 as (F1 & F2 & F3). split; [done|].
      split; [by eapply extends_trans|]. change (q :: p :: members) with ([q] ++ [p] ++ members).
      intros x Hx Hp. rewrite !elem_of_app in Hp. destruct Hp as [Hp|[Hp|Hp]].
      + apply F3; [done|]. rewrite list_elem_of_singleton in Hp. rewrite Hp. left.
      + by apply (followed_extends _ st1 st2 G3 F2).
      + apply F3; [done|]. by right. }
  destruct (is_waiting s p && negb (p =? q)).
  - rewrite E. cbn [mbind result_bind]. destruct b; [by exists true, st1|]. by apply Hrest.
  - injection E as <- <-. by apply Hrest.
Qed.

End Level.

Lemma leader_idem p : leader (leader p) = leader p.
Proof.
  unfold group_leader. destruct (lockGroupLeader p) as [q|] eqn:E; [|cbn; by rewrite E]. cbn. by rewrite (leader_ok p q E).
Qed.

(** The processes of a lock group. *)
Lemma group_members p u : leader p = u -> p ∈ u :: lockGroupMembers u.
Proof.
  unfold group_leader. destruct (lockGroupLeader p) as [q|] eqn:E; intros <-; [right|left]. by apply members_ok.
Qed.

Lemma members_leader p u : p ∈ lockGroupMembers u -> leader p = u.
Proof. intros E%members_ok. unfold group_leader. by rewrite E. Qed.

(** One level of the search, once the group is marked. *)
Lemma level_ok r depth fuel rec u st :
  rec_ok r (S depth) fuel rec -> room r depth fuel st -> leader u = u ->
  exists b st', ('(found, st) ← (if is_waiting s u
                  then FindLockCycleRecurseMember lockGroupLeader is_autovacuum MaxBackends MyProc s waitOrders rec u u st
                  else Ok (false, st));
                 if found : bool then Ok (true, st)
                 else members_loop lockGroupLeader is_autovacuum MaxBackends MyProc s waitOrders rec u (lockGroupMembers u) st)
                = Ok (b, st') /\
    outcome 1 r depth u st b st' (forall v, waits_for u v -> v ∈ visitedProcs st' /\ v <> r).
Proof.
  intros Hrec Hst Hu.
  assert (Hone : exists b st', (if is_waiting s u
      then FindLockCycleRecurseMember lockGroupLeader is_autovacuum MaxBackends MyProc s waitOrders rec u u st
      else Ok (false, st)) = Ok (b, st') /\ outcome 1 r depth u st b st' (followed r [u] st')).
  { destruct (is_waiting s u) eqn:Ew.
    - destruct (member_ok r depth fuel rec Hrec u st Hst Ew) as (b & st' & E & Ho). rewrite Hu in E, Ho. by exists b, st'.
    - exists false, st. split; [done|]. split; [apply Hst|]. split; [apply extends_refl|].
      apply bool_decide_eq_false in Ew. apply followed_idle. destruct (waitLock _); [by destruct Ew|done]. }
  destruct Hone as (b & st1 & -> & Ho). cbn [mbind result_bind]. destruct b; [by exists true, st1|].
  destruct Ho as (G1 & G2 & G3).
  destruct (members_loop_ok r depth fuel rec Hrec u (lockGroupMembers u) st1) as (b & st2 & -> & Ho2);
    [by apply (room_extends r depth fuel st)|intros p; apply members_leader|done|].
  exists b, st2. split; [done|]. destruct b; [done|]. destruct Ho2 as (F1 & F2 & F3). split; [done|].
  split; [by eapply extends_trans|]. intros v (x & Hx & Hl & <-)%step_pid. apply F3; [done|]. by apply group_members.
Qed.

Lemma mark_seen_ok r st u :
  head (visitedProcs st ++ [u]) = Some r -> NoDup (visitedProcs st) -> Forall in_range (visitedProcs st) -> softEdges st = [] ->
  u ∉ visitedProcs st -> in_range u ->
  exists st', mark_seen MaxBackends u st = Ok st' /\ search_ok r st' /\ visitedProcs st' = visitedProcs st ++ [u].
Proof.
  intros Hh Hn Hr Hsoft Hu Hru. unfold mark_seen.
  assert (Hnd : NoDup (visitedProcs st ++ [u])).
  { apply NoDup_app. split; [done|]. split; [|apply NoDup_singleton]. by intros x Hx ->%list_elem_of_singleton. }
  assert (Hrr : Forall in_range (visitedProcs st ++ [u])) by (apply Forall_app; by split; [|apply Forall_singleton]).
  pose proof (in_range_length MaxBackends _ Hnd Hrr) as Hlen. rewrite length_app in Hlen. cbn in Hlen.
  destruct (Nat.ltb_spec (length (visitedProcs st)) MaxBackends); [|lia]. eexists. by split; [|split].
Qed.

Lemma FindLockCycleRecurse_ok r fuel depth :
  rec_ok r depth fuel
    (fun p => FindLockCycleRecurse lockGroupLeader lockGroupMembers is_autovacuum MaxBackends MyProc s waitOrders fuel p depth).
Proof.
  revert depth. induction fuel as [|fuel IH]; intros depth p st Hst Hd Hf Hp.
  { destruct Hst as [_ Hn Hr _]. pose proof (in_range_length MaxBackends _ Hn Hr). lia. }
  cbn [FindLockCycleRecurse]. set (u := leader p) in *. destruct Hst as [Hh Hn Hr Hsoft].
  case_bool_decide as Hv; [rewrite Hh; case_bool_decide as Hur|].
  - unfold cycle_closed. pose proof (in_range_length MaxBackends _ Hn Hr). destruct (Nat.leb_spec depth MaxBackends); [|lia].
    cbn [mbind result_bind]. eexists true, _. split; [done|]. exists []. cbn. injection Hur as ->. split_and!; try done; lia.
  - exists false, st. split; [done|]. split; [done|]. split; [apply extends_refl|]. split; [done|]. congruence.
  - destruct (mark_seen_ok r st u) as (st1 & -> & Hst1 & Hv1); try done.
    { by destruct (visitedProcs st). }
    cbn [mbind result_bind].
    destruct (level_ok r depth fuel _ u st1 (IH (S depth))) as (b & st2 & -> & Ho);
      [split; [done|]; rewrite Hv1, length_app; cbn; lia|apply leader_idem|].
    exists b, st2. split; [done|]. destruct b; [destruct Ho as (steps & _ & Ho); exists steps; split; [lia|done]|].
    destruct Ho as (G1 & (new & En & G2) & G3). split; [done|].
    assert (Hu2 : u ∈ visitedProcs st2) by (rewrite En, Hv1; set_solver).
    split; [|split; [done|]].
    + exists (u :: new). split; [by rewrite En, Hv1, <- app_assoc|].
      intros x y [->|Hx]%elem_of_cons Hw; [by apply G3|by apply (G2 x)].
    + intros ->. apply Hv. destruct (visitedProcs st); [done|]. injection Hh as ->. left.
Qed.

(** The whole search: it ends, stays inside its arrays, and finds a cycle through
    the group of [p] exactly when there is one. *)
Lemma FindLockCycle_ok p av :
  in_range (leader p) ->
  exists b st', FindLockCycle lockGroupLeader lockGroupMembers is_autovacuum MaxBackends MyProc s waitOrders p av = Ok (b, st') /\
    if b then exists steps, deadlock_cycle lockGroupLeader s waitOrders (leader p) steps /\ softEdges st' = soft_of steps /\
      deadlockDetails st' = st_info <$> steps /\ nDeadlockDetails st' = length steps /\ (length steps <= MaxBackends)%nat
    else forall steps, ~ deadlock_cycle lockGroupLeader s waitOrders (leader p) steps.
Proof.
  intros Hp. unfold FindLockCycle. cbn [FindLockCycleRecurse visitedProcs]. set (u := leader p) in *.
  rewrite bool_decide_eq_false_2 by apply not_elem_of_nil.
  destruct (mark_seen_ok u (mkSearch [] [] 0 [] av) u) as (st1 & -> & Hst1 & Hv1); cbn; try done; [apply NoDup_nil_2|apply not_elem_of_nil|].
  cbn in Hv1. destruct (level_ok u 0 MaxBackends _ u st1 (FindLockCycleRecurse_ok u MaxBackends 1)) as (b & st2 & -> & Ho);
    [split; [done|]; rewrite Hv1; cbn; lia|apply leader_idem|].
  exists b, st2. split; [done|]. destruct b.
  - destruct Ho as (steps & Hl & Hw & E1 & E2 & E3 & E4). exists steps. split; [split; [by intros ->; cbn in Hl; lia|done]|].
    split_and!; try done; lia.
  - destruct Ho as (G1 & (new & En & G2) & G3). intros steps [Hne Hw].
    assert (Hclosed : forall x y, x ∈ visitedProcs st2 -> waits_for x y -> y ∈ visitedProcs st2 /\ y <> u).
    { intros x y Hx Hxy. rewrite En, Hv1 in Hx. apply elem_of_app in Hx as [->%list_elem_of_singleton|Hx]; [by apply G3|by apply (G2 x)]. }
    assert (Hpath : forall steps x, x ∈ visitedProcs st2 -> wait_path x u steps -> steps <> [] -> False).
    { clear steps Hne Hw. induction steps as [|e steps IHs]; intros x Hx Hpa Hne; [done|]. destruct Hpa as (He & Hw & Hrest).
      destruct (Hclosed x (blocker (st_edge e)) Hx) as [Hb Hbu]; [by exists e|].
      destruct steps as [|e' steps]; [by cbn in Hrest|]. by apply (IHs _ Hb Hrest). }
    apply (Hpath steps u); [rewrite En, Hv1; set_solver|done|done].
Qed.

End Cycle.
