(* ===== verification/DeadlockSort.v ===== *)
(** * The rearranged wait queue

    What [TopoSort] of [src/src/backend/storage/lmgr/deadlock.c] returns: the
    processes of the queue, lock groups together, in an order that satisfies the
    constraints; and no order when the constraints contradict each other. Processes
    overtake others only where a constraint asks for it. *)

From S2P Require Import Prelude LockObject LockTable Deadlock.
From stdpp Require Import gmap.
#[local] Open Scope Z_scope.

(** ** Orders of a queue *)

Section Orders.

Context (lockGroupLeader : ProcNumber -> option ProcNumber).

Definition wleader (w : PGPROC) : ProcNumber := group_leader lockGroupLeader (procNumber w).

(** The processes of the waiter's group are before those of the blocker's group. *)
Definition respects (order : list PGPROC) (c : EDGE) : Prop :=
  forall i j w b, order !! i = Some w -> order !! j = Some b -> wleader w = waiter c -> wleader b = blocker c -> (i < j)%nat.

(** The processes of a group are next to each other. *)
Definition adjacent (order : list PGPROC) : Prop :=
  forall i j k a b c, (i < j < k)%nat -> order !! i = Some a -> order !! j = Some b -> order !! k = Some c ->
    wleader a = wleader c -> wleader b = wleader a.

(** Both groups wait in the queue. *)
Definition relevant (queue : list PGPROC) (c : EDGE) : Prop :=
  waiter c ∈ wleader <$> queue /\ blocker c ∈ wleader <$> queue.

#[global] Instance relevant_dec queue c : Decision (relevant queue c).
Proof. unfold relevant. apply _. Defined.

(** The last process of a group. *)
Fixpoint group_index (v : ProcNumber) (queue : list PGPROC) : option nat :=
  match queue with
  | [] => None
  | w :: queue =>
      match group_index v queue with
      | Some j => Some (S j)
      | None => if bool_decide (wleader w = v) then Some 0%nat else None
      end
  end.

Lemma group_index_Some v queue j :
  group_index v queue = Some j <->
  (exists w, queue !! j = Some w /\ wleader w = v) /\ forall i w, (j < i)%nat -> queue !! i = Some w -> wleader w <> v.
Proof.
  revert j. induction queue as [|x queue IH]; intros j; cbn [group_index].
  - split; [done|]. intros [(w & E & _) _]. by destruct j.
  - destruct (group_index v queue) as [k|] eqn:Ek.
    + destruct (IH k) as [IH1 _]. destruct (IH1 eq_refl) as [(w & E1 & E2) E3]. split.
      * intros [= <-]. split; [by exists w|]. intros [|i] y Hi Hy; [lia|]. apply (E3 i); [lia|done].
      * intros [(y & Ey & Hy) Hlast]. destruct j as [|j]; [by destruct (Hlast (S k) w ltac:(lia) E1)|].
        cbn in Ey. f_equal. destruct (Nat.lt_trichotomy k j) as [Hl|[->|Hl]]; [by destruct (E3 j y Hl Ey)|done|].
        by destruct (Hlast (S k) w ltac:(lia) E1).
    + assert (Hno : forall i w, queue !! i = Some w -> wleader w <> v).
      { intros i. induction i as [i Hind] using (induction_ltof1 _ (fun i => (length queue - i)%nat)). intros w Hi Hv.
        assert (Hlt := lookup_lt_Some _ _ _ Hi). 
        enough (None = Some i) by congruence. apply IH. split; [by exists w|].
        intros i' w' Hlt' Hw'. apply (Hind i'); [unfold ltof; lia|done]. }
      case_bool_decide as Hx; split; try done.
      * intros [= <-]. split; [by exists x|]. intros [|i] w Hi Hw; [lia|]. by apply (Hno i).
      * intros [(w & Ew & Hw) _]. destruct j as [|j]; [done|]. by destruct (Hno j w).
      * intros [(w & Ew & Hw) _]. destruct j as [|j]; [cbn in Ew; congruence|]. by destruct (Hno j w).
Qed.

Lemma group_index_None v queue : group_index v queue = None <-> v ∉ wleader <$> queue.
Proof.
  induction queue as [|x queue IH]; cbn [group_index fmap list_fmap]; [split; [intros _; apply not_elem_of_nil|done]|].
  rewrite not_elem_of_cons. destruct (group_index v queue) as [k|] eqn:Ek.
  - split; [done|]. intros [_ Hn]. by apply IH in Hn.
  - case_bool_decide; split; try done; [by intros [? _]|]. intros _. split; [done|]. by apply IH.
Qed.

End Orders.

Section Scan.

Context (lockGroupLeader : ProcNumber -> option ProcNumber) `{!GroupsOK lockGroupLeader}.

Abbreviation leader := (group_leader lockGroupLeader).
Abbreviation wleader := (wleader lockGroupLeader).
Abbreviation group_index := (group_index lockGroupLeader).
Abbreviation relevant := (relevant lockGroupLeader).

Lemma in_group_spec v w : leader v = v -> in_group lockGroupLeader v w = bool_decide (wleader w = v).
Proof.
  intros Hv. unfold in_group, DeadlockSort.wleader, group_leader in *. apply eq_true_iff_eq.
  rewrite orb_true_iff, Z.eqb_eq, !bool_decide_eq_true. split.
  - intros [-> | ->]; done.
  - destruct (lockGroupLeader (procNumber w)) as [q|] eqn:E; cbn; intros <-; auto.
Qed.

(** A process of the group other than its representative. *)
Definition follower (v : ProcNumber) (queue : list PGPROC) (i : nat) : Prop :=
  (exists w, queue !! i = Some w /\ wleader w = v) /\ group_index v queue <> Some i.

#[global] Instance follower_dec v queue i : Decision (follower v queue i).
Proof.
  unfold follower. apply and_dec; [|apply _]. destruct (queue !! i) as [w|] eqn:E.
  - destruct (decide (wleader w = v)); [left; by exists w|right; naive_solver].
  - right. naive_solver.
Defined.

Lemma follower_cons v w queue i : follower v (w :: queue) (S i) <-> follower v queue i.
Proof.
  unfold follower. cbn [DeadlockSort.group_index lookup list_lookup]. destruct (group_index v queue) as [j|] eqn:Ej.
  - split; intros [H1 H2]; split; try done; congruence.
  - apply group_index_None in Ej. case_bool_decide; (split; intros [(x & Hx & Hv) _]; exfalso; apply Ej; rewrite <- Hv;
      by apply list_elem_of_fmap_2, list_elem_of_lookup_2 with i).
Qed.

Lemma mark_group_ok v queue k before :
  leader v = v -> (forall i, follower v queue i -> exists b, before !! (k + i)%nat = Some b /\ b <= 0) ->
  exists before', mark_group lockGroupLeader v k queue before = Ok ((fun i => (k + i)%nat) <$> group_index v queue, before') /\
    (forall i, follower v queue i -> before' !! (k + i)%nat = Some (-1)) /\
    (forall j, (forall i, j = (k + i)%nat -> ~ follower v queue i) -> before' !! j = before !! j).
Proof.
  intros Hv. revert k. induction queue as [|w queue IH]; intros k Hb; cbn [mark_group DeadlockSort.group_index].
  { exists before. split; [done|]. split; [|done]. by intros i [(x & Hx & _) _]. }
  destruct (IH (S k)) as (b1 & -> & H1 & H2).
  { intros i Hi. replace (S k + i)%nat with (k + S i)%nat by lia. apply Hb. by apply follower_cons. }
  cbn [mbind result_bind]. rewrite in_group_spec by done.
  assert (Hbelow : forall i, follower v (w :: queue) (S i) -> b1 !! (k + S i)%nat = Some (-1)).
  { intros i Hi%follower_cons. replace (k + S i)%nat with (S k + i)%nat by lia. by apply H1. }
  assert (Hother : forall j, (forall i, j = (k + S i)%nat -> ~ follower v (w :: queue) (S i)) -> b1 !! j = before !! j).
  { intros j Hj. apply H2. intros i E. rewrite <- (follower_cons _ w). apply Hj. lia. }
  assert (H0 : b1 !! k = before !! k) by (apply Hother; lia).
  destruct (group_index v queue) as [j0|] eqn:Ej; cbn [fmap option_fmap option_map]; case_bool_decide as Hw.
  - assert (Hf : follower v (w :: queue) 0).
    { split; [by exists w|]. cbn. by rewrite Ej. }
    destruct (Hb 0%nat Hf) as (b & Eb & Hle). rewrite Nat.add_0_r in Eb.
    rewrite (list_lookup_total_correct b1 k b) by congruence. destruct (Z.leb_spec b 0); [|lia].
    eexists. split; [cbn; by rewrite ?Nat.add_succ_r, ?Nat.add_0_r|]. split.
    + intros [|i] Hi; [|rewrite list_lookup_insert_ne by lia; by apply Hbelow].
      rewrite Nat.add_0_r. apply list_lookup_insert_eq. rewrite <- H0 in Eb. by apply lookup_lt_Some in Eb.
    + intros j Hj. destruct (decide (j = k)) as [->|Hne]; [destruct (Hj 0%nat); [lia|done]|].
      rewrite list_lookup_insert_ne by done. apply Hother. intros i ->. by apply Hj.
  - eexists. split; [cbn; by rewrite ?Nat.add_succ_r, ?Nat.add_0_r|]. split; [intros [|i] Hi; [|by apply Hbelow]|intros j Hj; apply Hother; by intros i ->; apply Hj].
    destruct Hi as [(x & Hx & Hxv) _]. cbn in Hx. congruence.
  - eexists. split; [cbn; by rewrite ?Nat.add_succ_r, ?Nat.add_0_r|]. split; [intros [|i] Hi; [|by apply Hbelow]|intros j Hj; apply Hother; by intros i ->; apply Hj].
    destruct Hi as [_ Hn]. cbn in Hn. rewrite Ej, bool_decide_eq_true_2 in Hn by done. done.
  - eexists. split; [done|]. split; [intros [|i] Hi; [|by apply Hbelow]|intros j Hj; apply Hother; by intros i ->; apply Hj].
    destruct Hi as [(x & Hx & Hxv) _]. cbn in Hx. congruence.
Qed.

(** ** The scan of the constraints *)

Context (queue : list PGPROC).

(** How many of the constraints ask for [v] to be before a group not in [E]. *)
Definition pending_before (cs : list EDGE) (E : list ProcNumber) (v : ProcNumber) : nat :=
  length (filter (fun c => relevant queue c /\ waiter c = v /\ blocker c ∉ E) cs).

Definition unconstrained (cs : list EDGE) (v : ProcNumber) : Prop :=
  Forall (fun c => relevant queue c -> waiter c <> v /\ blocker c <> v) cs.

(** What the counts say of the groups not in [E] yet. *)
Definition counts_ok (cs : list EDGE) (E : list ProcNumber) (before : list Z) : Prop :=
  length before = length queue /\
  forall j w, queue !! j = Some w -> wleader w ∉ E -> exists b, before !! j = Some b /\
    if decide (group_index (wleader w) queue = Some j) then b = Z.of_nat (pending_before cs E (wleader w))
    else b <= 0 /\ (b = 0 -> unconstrained cs (wleader w)).

(** The list of constraints of a process that say it is after another one. *)
Definition preds_of (cs : list EDGE) (v : ProcNumber) : list nat :=
  omap (fun c => if decide (relevant queue c /\ blocker c = v) then group_index (waiter c) queue else None) cs.

Definition lists_ok (cs : list EDGE) (after : list (list nat)) : Prop :=
  length after = length queue /\
  forall j w, queue !! j = Some w ->
    after !! j = Some (if decide (group_index (wleader w) queue = Some j) then rev (preds_of cs (wleader w)) else []).

Lemma counts_follower cs before v i :
  counts_ok cs [] before -> follower v queue i -> exists b, before !! i = Some b /\ b <= 0.
Proof.
  intros [_ Hc] [(w & Hw & <-) Hn]. destruct (Hc i w Hw) as (b & Hb & H); [apply not_elem_of_nil|].
  rewrite decide_False in H by done. exists b. split; [done|]. apply H.
Qed.

Lemma pending_before_app cs c E v :
  pending_before (cs ++ [c]) E v =
  (pending_before cs E v + if decide (relevant queue c /\ waiter c = v /\ blocker c ∉ E) then 1 else 0)%nat.
Proof. unfold pending_before. rewrite filter_app, length_app, filter_cons, filter_nil. by case_decide. Qed.

Lemma unconstrained_app cs c v :
  unconstrained (cs ++ [c]) v <-> unconstrained cs v /\ (relevant queue c -> waiter c <> v /\ blocker c <> v).
Proof. unfold unconstrained. by rewrite Forall_app, Forall_singleton. Qed.

(** [mark_group] in terms of the whole queue. *)
Lemma mark_whole cs before v :
  leader v = v -> counts_ok cs [] before ->
  exists before', mark_group lockGroupLeader v 0 queue before = Ok (group_index v queue, before') /\ counts_ok cs [] before' /\
    (forall i, follower v queue i -> before' !! i = Some (-1)) /\
    (forall j, before !! j = Some (-1) -> before' !! j = Some (-1)).
Proof.
  intros Hv Hc. destruct (mark_group_ok v queue 0 before Hv) as (b' & E & H1 & H2); [by intros i; apply counts_follower with cs|].
  assert (H2' : forall j, ~ follower v queue j -> b' !! j = before !! j) by (intros j Hj; apply H2; by intros i ->).
  exists b'. split; [rewrite E; by destruct (group_index v queue)|]. split; [|split].
  - destruct Hc as [Hl Hc]. split.
    + rewrite <- Hl. apply Nat.le_antisymm; apply Nat.nlt_ge; intros Hlt.
      * destruct (lookup_lt_is_Some_2 b' (length before) Hlt) as [x Hx].
        rewrite H2', lookup_ge_None_2 in Hx; [done|lia|]. intros [(w & Hw & _) _]. apply lookup_lt_Some in Hw. lia.
      * destruct (lookup_lt_is_Some_2 before (length b') Hlt) as [x Hx].
        destruct (decide (follower v queue (length b'))) as [Hf|Hf].
        -- specialize (H1 _ Hf). apply lookup_lt_Some in H1. cbn in H1. lia.
        -- rewrite <- H2', lookup_ge_None_2 in Hx; [done|lia|done].
    + intros j w Hw Hn. destruct (decide (follower v queue j)) as [Hf|Hf].
      * exists (-1). split; [by apply H1|]. destruct Hf as [(x & Hx & <-) Hni]. assert (x = w) as -> by congruence.
        rewrite decide_False by done. split; lia.
      * rewrite H2' by done. by apply Hc.
  - intros i Hi. by apply H1.
  - intros j Hj. destruct (decide (follower v queue j)) as [Hf|Hf]; [by apply H1|by rewrite H2'].
Qed.

Lemma counts_skip cs c before : counts_ok cs [] before -> ~ relevant queue c -> counts_ok (cs ++ [c]) [] before.
Proof.
  intros [Hl Hc] Hr. split; [done|]. intros j w Hw Hn. destruct (Hc j w Hw Hn) as (b & Eb & Hb). exists b. split; [done|].
  rewrite pending_before_app, (decide_False (P := relevant queue c /\ _)) by naive_solver. rewrite Nat.add_0_r.
  case_decide; [done|]. split; [apply Hb|]. intros E0. apply unconstrained_app. split; [by apply Hb|]. by intros.
Qed.

Lemma lists_skip cs c after : lists_ok cs after -> ~ relevant queue c -> lists_ok (cs ++ [c]) after.
Proof.
  intros [Hl Hc] Hr. split; [done|]. intros j w Hw. rewrite (Hc j w Hw). unfold preds_of. rewrite omap_app. cbn.
  rewrite (decide_False (P := relevant queue c /\ _)) by naive_solver. by rewrite app_nil_r.
Qed.

(** A relevant constraint. *)
Lemma counts_add cs c before jj :
  counts_ok cs [] before -> relevant queue c -> group_index (waiter c) queue = Some jj ->
  (forall i, follower (waiter c) queue i \/ follower (blocker c) queue i -> before !! i = Some (-1)) ->
  counts_ok (cs ++ [c]) [] (alter Z.succ jj before).
Proof.
  intros [Hl Hc] Hr Hj Hf. split; [by rewrite length_alter|]. intros j w Hw Hn. destruct (Hc j w Hw Hn) as (b & Eb & Hb).
  rewrite pending_before_app. destruct (decide (j = jj)) as [->|Hne].
  - rewrite list_lookup_alter_eq, Eb. exists (Z.succ b). split; [done|].
    pose proof Hj as [(x & Hx & Ex) _]%group_index_Some. assert (x = w) as -> by congruence. rewrite Ex in *.
    rewrite decide_True in Hb by done. rewrite !decide_True; [lia|..|done]. split; [done|]. split; [done|]. apply not_elem_of_nil.
  - rewrite list_lookup_alter_ne by done. exists b. split; [done|]. case_decide as Hrep.
    + rewrite decide_False; [lia|]. intros (_ & E & _). congruence.
    + split; [apply Hb|]. intros ->. apply unconstrained_app. split; [by apply Hb|]. intros _.
      assert (Hfw : follower (wleader w) queue j) by (split; [by exists w|done]).
      split; intros E; rewrite <- E in Hfw; rewrite Hf in Eb by auto; done.
Qed.

Lemma lists_add cs c after jj kk :
  lists_ok cs after -> relevant queue c -> group_index (waiter c) queue = Some jj -> group_index (blocker c) queue = Some kk ->
  lists_ok (cs ++ [c]) (alter (cons jj) kk after).
Proof.
  intros [Hl Hc] Hr Hj Hk. split; [by rewrite length_alter|]. intros j w Hw. unfold preds_of. rewrite omap_app. cbn.
  specialize (Hc j w Hw). destruct (decide (j = kk)) as [->|Hne].
  - pose proof Hk as [(x & Hx & Ex) _]%group_index_Some. assert (x = w) as -> by congruence. rewrite Ex in *.
    rewrite list_lookup_alter_eq, Hc, !decide_True by done. rewrite Hj, rev_app_distr. done.
  - rewrite list_lookup_alter_ne, Hc by done. f_equal. case_decide as Hrep; [|done].
    rewrite decide_False, app_nil_r; [done|]. intros [_ E]. congruence.
Qed.

Definition leaders_only (cs : list EDGE) : Prop := Forall (fun c => leader (waiter c) = waiter c /\ leader (blocker c) = blocker c) cs.

Lemma add_constraints_ok cs cs0 before after :
  leaders_only cs -> counts_ok cs0 [] before -> lists_ok cs0 after ->
  exists before' after', add_constraints lockGroupLeader queue cs before after = Ok (before', after') /\
    counts_ok (cs0 ++ cs) [] before' /\ lists_ok (cs0 ++ cs) after'.
Proof.
  revert cs0 before after. induction cs as [|c cs IH]; intros cs0 before after Hld Hc Hl; cbn [add_constraints].
  { exists before, after. by rewrite app_nil_r. }
  apply Forall_cons in Hld as [[Hw Hb] Hld]. replace (cs0 ++ c :: cs) with ((cs0 ++ [c]) ++ cs) by by rewrite <- app_assoc.
  destruct (mark_whole cs0 before (waiter c) Hw Hc) as (b1 & -> & Hc1 & Hf1 & _). cbn [mbind result_bind].
  destruct (group_index (waiter c) queue) as [jj|] eqn:Ej.
  2: { apply IH; [done|apply counts_skip|apply lists_skip]; try done; intros [Hr _]; by apply group_index_None in Ej. }
  destruct (mark_whole cs0 b1 (blocker c) Hb Hc1) as (b2 & -> & Hc2 & Hf2 & Hm). cbn [mbind result_bind].
  destruct (group_index (blocker c) queue) as [kk|] eqn:Ek.
  2: { apply IH; [done|apply counts_skip|apply lists_skip]; try done; intros [_ Hr]; by apply group_index_None in Ek. }
  assert (Hr : relevant queue c).
  { split; apply dec_stable; intros Hn%group_index_None; congruence. }
  assert (Hjj : 0 <= b2 !!! jj).
  { pose proof Ej as [(x & Hx & Ex) _]%group_index_Some. destruct Hc2 as [_ Hc2].
    destruct (Hc2 jj x Hx (not_elem_of_nil _)) as (b & Eb & Hbb). rewrite Ex, decide_True in Hbb by done.
    rewrite (list_lookup_total_correct _ _ _ Eb). lia. }
  destruct (Z.leb_spec 0 (b2 !!! jj)); [|lia]. apply IH; [done| |by apply lists_add].
  apply counts_add; try done. intros i [Hi|Hi]; [by apply Hm, Hf1|by apply Hf2].
Qed.

(** ** The output loop *)

Definition topo_of (E : list ProcNumber) : list (option PGPROC) :=
  (fun w => if decide (wleader w ∈ E) then None else Some w) <$> queue.

Lemma topo_of_lookup E j w : topo_of E !! j = Some (Some w) <-> queue !! j = Some w /\ wleader w ∉ E.
Proof.
  unfold topo_of. rewrite list_lookup_fmap. destruct (queue !! j) as [x|]; cbn; [|naive_solver].
  case_decide; naive_solver.
Qed.

Lemma matches_topo v (E : list ProcNumber) w :
  leader v = v -> v ∉ E ->
  matches lockGroupLeader v (if decide (wleader w ∈ E) then None else Some w) = bool_decide (wleader w = v).
Proof.
  intros Hv Hn. case_decide as Hd; cbn [matches].
  - symmetry. apply bool_decide_eq_false. congruence.
  - by apply in_group_spec.
Qed.

Lemma take_group_topo v E :
  leader v = v -> v ∉ E -> take_group lockGroupLeader v (topo_of E) = filter (fun w => wleader w = v) queue.
Proof.
  intros Hv Hn. unfold take_group, topo_of. induction queue as [|w q IH]; [done|]. cbn [fmap list_fmap omap list_omap].
  rewrite matches_topo, filter_cons by done. case_bool_decide as Hw; [|rewrite decide_False by done; exact IH].
  rewrite (decide_True (P := wleader w = v)), decide_False by (done || by rewrite Hw). f_equal. exact IH.
Qed.

Lemma drop_group_topo v E : leader v = v -> v ∉ E -> drop_group lockGroupLeader v (topo_of E) = topo_of (v :: E).
Proof.
  intros Hv Hn. unfold drop_group, topo_of. rewrite <- list_fmap_compose. apply list_fmap_ext. intros i w _. cbn.
  rewrite matches_topo by done. case_bool_decide as Hw.
  - rewrite decide_True; [done|]. rewrite Hw. left.
  - destruct (decide (wleader w ∈ E)) as [Hd|Hd]; [rewrite decide_True; [done|by right]|].
    rewrite decide_False; [done|]. by intros [?|?]%elem_of_cons.
Qed.

Lemma find_candidate_None topo before i w :
  find_candidate topo before = None -> topo !! i = Some (Some w) -> before !! i <> Some 0.
Proof.
  revert before i. induction topo as [|y topo IH]; intros [|b before] i Ek; try done.
  cbn [find_candidate] in Ek. destruct (find_candidate topo before) eqn:Ek'; [done|]. destruct i as [|i]; [|exact (IH before i Ek')].
  cbn. intros [= ->]. destruct (Z.eqb_spec b 0); [done|]. congruence.
Qed.

Lemma find_candidate_Some topo before j :
  find_candidate topo before = Some j ->
  (exists w, topo !! j = Some (Some w)) /\ before !! j = Some 0 /\
  forall i w, (j < i)%nat -> topo !! i = Some (Some w) -> before !! i <> Some 0.
Proof.
  revert before j. induction topo as [|x topo IH]; intros [|b before] j; try done. cbn [find_candidate].
  destruct (find_candidate topo before) as [k|] eqn:Ek.
  - intros [= <-]. destruct (IH before k Ek) as (H1 & H2 & H3). split; [done|]. split; [done|].
    intros [|i] w Hi Hw; [lia|]. apply (H3 i w); [lia|done].
  - destruct x as [x|]; [|done]. destruct (Z.eqb_spec b 0) as [->|]; [|done]. intros [= <-]. split; [by exists x|]. split; [done|].
    intros [|i] y Hi Hy; [lia|]. by apply (find_candidate_None topo before i y).
Qed.

(** The counts after the constraints of a group are gone. *)
Lemma decrement_lookup (preds : list nat) (before : list Z) (i : nat) :
  foldl (fun b pred => alter Z.pred pred b) before preds !! i =
  (fun b => b - Z.of_nat (length (filter (fun k => k = i) preds))) <$> before !! i.
Proof.
  revert before. induction preds as [|k preds IH]; intros before; cbn [foldl].
  - destruct (before !! i); cbn; f_equal; lia.
  - rewrite IH, filter_cons. destruct (decide (k = i)) as [->|Hne].
    + rewrite list_lookup_alter_eq. destruct (before !! i); cbn; f_equal; lia.
    + by rewrite list_lookup_alter_ne.
Qed.

Lemma decrement_length (preds : list nat) (before : list Z) : length (foldl (fun b pred => alter Z.pred pred b) before preds) = length before.
Proof. revert before. induction preds as [|k preds IH]; intros before; [done|]. cbn [foldl]. by rewrite IH, length_alter. Qed.

Lemma group_index_inj u v j : group_index u queue = Some j -> group_index v queue = Some j -> u = v.
Proof. intros [(w & H1 & <-) _]%group_index_Some [(w' & H2 & <-) _]%group_index_Some. congruence. Qed.

(** The constraints of [v] that ask for [u] to be before it. *)
Lemma preds_count cs E v u i :
  group_index u queue = Some i -> v ∉ E ->
  pending_before cs E u = (pending_before cs (v :: E) u + length (filter (fun k => k = i) (preds_of cs v)))%nat.
Proof.
  intros Hi Hv. unfold pending_before, preds_of. induction cs as [|c cs IH]; [done|]. cbn [omap list_omap].
  rewrite !filter_cons. pose proof (not_elem_of_cons E (blocker c) v) as Hcons.
  destruct (decide (relevant queue c /\ blocker c = v)) as [[Hr Hb]|Hn].
  - destruct (group_index (waiter c) queue) as [k|] eqn:Ek.
    + rewrite filter_cons. destruct (decide (k = i)) as [->|Hk].
      * assert (waiter c = u) by (by eapply group_index_inj).
        rewrite decide_True by (by rewrite Hb). rewrite decide_False by naive_solver. cbn [length]. lia.
      * rewrite !decide_False by naive_solver. done.
    + rewrite !decide_False by naive_solver. done.
  - destruct (decide (relevant queue c /\ waiter c = u /\ blocker c ∉ E)) as [Hc|Hc].
    + rewrite decide_True by naive_solver. cbn [length]. lia.
    + rewrite decide_False by naive_solver. done.
Qed.

Lemma preds_of_rep cs v k : k ∈ preds_of cs v -> exists w, queue !! k = Some w /\ group_index (wleader w) queue = Some k.
Proof.
  intros (c & _ & Hc)%list_elem_of_omap. case_decide; [|done]. pose proof Hc as [(w & Hw & E) _]%group_index_Some.
  exists w. by rewrite E.
Qed.

Lemma pending_unconstrained cs E v u : unconstrained cs v -> pending_before cs (v :: E) u = pending_before cs E u.
Proof.
  intros Hu. unfold pending_before. induction Hu as [|c cs Hc Hu IH]; [done|]. rewrite !filter_cons.
  pose proof (not_elem_of_cons E (blocker c) v) as Hcons.
  destruct (decide (relevant queue c /\ waiter c = u /\ blocker c ∉ E)).
  - rewrite decide_True by naive_solver. cbn [length]. by rewrite IH.
  - by rewrite decide_False by naive_solver.
Qed.

(** Taking out the group of the candidate. *)
Lemma counts_emit cs E before after j w :
  counts_ok cs E before -> lists_ok cs after -> queue !! j = Some w -> wleader w ∉ E -> before !! j = Some 0 ->
  counts_ok cs (wleader w :: E) (foldl (fun b pred => alter Z.pred pred b) before (after !!! j)).
Proof.
  intros [Hl Hc] [_ Ha] Hw Hn Hz. split; [by rewrite decrement_length|]. intros i x Hx [Hxw Hxe]%not_elem_of_cons.
  rewrite (list_lookup_total_correct _ _ _ (Ha j w Hw)).
  destruct (Hc j w Hw Hn) as (b0 & Eb0 & H0). assert (b0 = 0) as -> by congruence.
  destruct (Hc i x Hx Hxe) as (b & Eb & Hb). rewrite decrement_lookup, Eb. cbn [fmap option_fmap option_map]. eexists. split; [done|].
  destruct (decide (group_index (wleader w) queue = Some j)) as [Hj|Hj].
  - assert (El : forall l : list nat, length (filter (fun k => k = i) (rev l)) = length (filter (fun k => k = i) l)).
    { intros l. by rewrite (Permutation_rev l) at 2. }
    rewrite El. case_decide as Hi.
    + pose proof (preds_count cs E (wleader w) _ i Hi Hn). lia.
    + assert (filter (fun k => k = i) (preds_of cs (wleader w)) = []) as ->.
      { destruct (filter _ _) as [|k l] eqn:Ef; [done|].
        assert (Hk : k ∈ filter (fun k => k = i) (preds_of cs (wleader w))) by (rewrite Ef; left).
        apply list_elem_of_filter in Hk as [-> Hk]. destruct (preds_of_rep _ _ _ Hk) as (y & Hy & E'). congruence. }
      cbn [length]. by rewrite Z.sub_0_r.
  - destruct H0 as [_ H0]. specialize (H0 eq_refl). rewrite filter_nil. cbn [length]. rewrite Z.sub_0_r.
    case_decide; [|done]. by rewrite pending_unconstrained.
Qed.

(** A process that is left has a group that must be before another one, unless it is
    a candidate. *)
Lemma not_candidate cs E before i x :
  counts_ok cs E before -> queue !! i = Some x -> wleader x ∉ E ->
  (forall k y, (i <= k)%nat -> queue !! k = Some y -> wleader y ∉ E -> before !! k <> Some 0) ->
  exists c, c ∈ cs /\ relevant queue c /\ waiter c = wleader x /\ blocker c ∉ E.
Proof.
  intros [_ Hc] Hx Hn Hno.
  assert (exists k, group_index (wleader x) queue = Some k) as [k Hk].
  { destruct (group_index (wleader x) queue) eqn:Eg; [eauto|]. apply group_index_None in Eg. destruct Eg.
    by apply list_elem_of_fmap_2, list_elem_of_lookup_2 with i. }
  pose proof Hk as [(y & Hy & Ey) Hlast]%group_index_Some.
  assert (Hik : (i <= k)%nat).
  { apply Nat.nlt_ge. intros Hlt. by destruct (Hlast i x Hlt Hx). }
  assert (Hyn : wleader y ∉ E) by congruence.
  destruct (Hc k y Hy Hyn) as (b & Eb & Hb). rewrite Ey, decide_True in Hb by done.
  assert (Hpos : pending_before cs E (wleader x) <> 0%nat).
  { intros Hz. apply (Hno k y Hik Hy Hyn). rewrite Eb. f_equal. lia. }
  unfold pending_before in Hpos. destruct (filter _ cs) as [|c l] eqn:Ef; [done|].
  assert (Hin : c ∈ filter (fun c => relevant queue c /\ waiter c = wleader x /\ blocker c ∉ E) cs) by (rewrite Ef; left).
  apply list_elem_of_filter in Hin as ((H1 & H2 & H3) & H4). by exists c.
Qed.

(** [y] is ahead of a process of the group of [x] in the queue, or a constraint wants
    it to be ahead of something. *)
Definition may_overtake (cs : list EDGE) (y x : PGPROC) : Prop :=
  (exists c, c ∈ cs /\ waiter c = wleader y) \/
  (exists k l w, (k < l)%nat /\ queue !! k = Some y /\ queue !! l = Some w /\ wleader w = wleader x).

Definition no_overtaking (cs : list EDGE) (order : list PGPROC) : Prop :=
  forall i j y x, (i < j)%nat -> order !! i = Some y -> order !! j = Some x -> wleader y <> wleader x -> may_overtake cs y x.

Record emit_inv (cs : list EDGE) (E : list ProcNumber) (ordering : list PGPROC) : Prop := {
  ei_perm : ordering ≡ₚ filter (fun w => wleader w ∈ E) queue;
  ei_adjacent : adjacent lockGroupLeader ordering;
  ei_closed : forall c, c ∈ cs -> relevant queue c -> waiter c ∈ E -> blocker c ∈ E;
  ei_respects : forall c, c ∈ cs -> relevant queue c -> respects lockGroupLeader ordering c;
  ei_order : no_overtaking cs ordering;
  ei_left : forall i y x, queue !! i = Some y -> x ∈ queue -> wleader y ∉ E -> wleader x ∈ E -> may_overtake cs y x
}.

Lemma emitted_leader cs E ordering x : emit_inv cs E ordering -> x ∈ ordering -> wleader x ∈ E /\ x ∈ queue.
Proof. intros H Hx. rewrite (ei_perm _ _ _ H) in Hx. by apply list_elem_of_filter in Hx. Qed.

Lemma filter_group_perm v (E : list ProcNumber) (q : list PGPROC) :
  v ∉ E -> filter (fun w => wleader w = v) q ++ filter (fun w => wleader w ∈ E) q ≡ₚ filter (fun w => wleader w ∈ v :: E) q.
Proof.
  intros Hv. induction q as [|w q IH]; [done|]. rewrite !filter_cons. pose proof (elem_of_cons E (wleader w) v) as Hc.
  destruct (decide (wleader w = v)) as [Hw|Hw].
  - rewrite (decide_False (P := wleader w ∈ E)), decide_True by naive_solver. cbn. by rewrite IH.
  - destruct (decide (wleader w ∈ E)) as [He|He].
    + rewrite decide_True by naive_solver. by rewrite <- Permutation_middle, IH.
    + by rewrite decide_False by naive_solver.
Qed.

Section Block.

Context (v : ProcNumber) (A B : list PGPROC) (HA : Forall (fun w => wleader w = v) A) (HB : Forall (fun w => wleader w <> v) B).

Lemma block_lookup i x : (A ++ B) !! i = Some x ->
  (i < length A /\ wleader x = v)%nat \/ (length A <= i /\ B !! (i - length A) = Some x /\ wleader x <> v)%nat.
Proof.
  intros [H|[H1 H2]]%lookup_app_Some.
  - left. split; [by eapply lookup_lt_Some|]. by eapply (Forall_lookup_1 _ _ _ _ HA).
  - right. split; [done|]. split; [done|]. by eapply (Forall_lookup_1 _ _ _ _ HB).
Qed.

Lemma block_adjacent : adjacent lockGroupLeader B -> adjacent lockGroupLeader (A ++ B).
Proof.
  intros Hadj i j k a b c Hijk Ha%block_lookup Hb%block_lookup Hc%block_lookup Hac.
  destruct Ha as [[Ha1 Ha2]|(Ha1 & Ha2 & Ha3)], Hc as [[Hc1 Hc2]|(Hc1 & Hc2 & Hc3)]; try congruence.
  - destruct Hb as [[_ Hb]|(Hb & _)]; [congruence|lia].
  - destruct Hb as [[Hb _]|(Hb1 & Hb2 & _)]; [lia|]. apply (Hadj (i - length A) (j - length A) (k - length A) a b c)%nat; try done; lia.
Qed.

Lemma block_respects c :
  respects lockGroupLeader B c -> blocker c <> v -> respects lockGroupLeader (A ++ B) c.
Proof.
  intros Hr Hn i j w b Hw%block_lookup Hb%block_lookup Ew Eb.
  destruct Hb as [[_ Hb]|(Hb1 & Hb2 & Hb3)]; [congruence|]. destruct Hw as [[Hw _]|(Hw1 & Hw2 & Hw3)]; [lia|].
  pose proof (Hr _ _ _ _ Hw2 Hb2 Ew Eb). lia.
Qed.

End Block.

(** The group of the candidate need not be before anything that is left. *)
Lemma candidate_free cs E before j w c :
  counts_ok cs E before -> queue !! j = Some w -> wleader w ∉ E -> before !! j = Some 0 ->
  c ∈ cs -> relevant queue c -> waiter c = wleader w -> blocker c ∈ E.
Proof.
  intros [_ Hc] Hw Hn Hz Hin Hr Hwc. destruct (Hc j w Hw Hn) as (b & Eb & Hb). assert (b = 0) as -> by congruence.
  case_decide.
  - apply dec_stable. intros Hbn. unfold pending_before in Hb.
    assert (Hin' : c ∈ filter (fun c => relevant queue c /\ waiter c = wleader w /\ blocker c ∉ E) cs) by by apply list_elem_of_filter.
    destruct (filter _ cs); [by apply not_elem_of_nil in Hin'|done].
  - destruct Hb as [_ Hu]. specialize (Hu eq_refl). unfold unconstrained in Hu. rewrite Forall_forall in Hu.
    by destruct (Hu c Hin Hr).
Qed.

Lemma emit_inv_step cs E before ordering j w :
  emit_inv cs E ordering -> counts_ok cs E before -> queue !! j = Some w -> wleader w ∉ E -> before !! j = Some 0 ->
  (forall i y, (j < i)%nat -> queue !! i = Some y -> wleader y ∉ E -> before !! i <> Some 0) ->
  emit_inv cs (wleader w :: E) (rev (filter (fun x => wleader x = wleader w) queue) ++ ordering).
Proof.
  intros Hi Hc Hw Hn Hz Hlast. set (v := wleader w) in *. set (A := rev _).
  assert (HA : Forall (fun x => wleader x = v) A).
  { apply Forall_forall. intros x Hx. unfold A in Hx. rewrite <- Permutation_rev in Hx. by apply list_elem_of_filter in Hx as [? _]. }
  assert (HB : Forall (fun x => wleader x <> v) ordering).
  { apply Forall_forall. intros x Hx E'. destruct (emitted_leader _ _ _ _ Hi Hx). congruence. }
  pose proof (fun c => candidate_free cs E before j w c Hc Hw Hn Hz) as Hfree. fold v in Hfree.
  assert (Hleft : forall i y x, queue !! i = Some y -> x ∈ queue -> wleader y ∉ v :: E -> wleader x ∈ v :: E -> may_overtake cs y x).
  { intros i y x Hy Hx [Hyv Hye]%not_elem_of_cons [Hxv|Hxe]%elem_of_cons; [|by apply (ei_left _ _ _ Hi i)].
    destruct (decide (Exists (fun z => wleader z = v) (drop (S i) queue))) as [He|He].
    - right. apply Exists_exists in He as (z & [k Hk]%list_elem_of_lookup_1 & Ez). rewrite lookup_drop in Hk.
      exists i, (S i + k)%nat, z. split_and!; try done; [lia|congruence].
    - left. destruct (not_candidate cs E before i y) as (c & H1 & _ & H2 & _); try done; [|by exists c].
      intros k z Hik Hk Hze. apply (Hlast k z); [|done|done]. apply Nat.nle_gt. intros Hkj. apply He.
      assert (i <> j) by (intros ->; apply Hyv; unfold v; congruence). apply Exists_exists. exists w. split; [|done].
      apply list_elem_of_lookup_2 with (j - S i)%nat. rewrite lookup_drop. rewrite <- Hw. f_equal. lia. }
  split.
  - unfold A. rewrite <- Permutation_rev, (ei_perm _ _ _ Hi). by apply filter_group_perm.
  - apply (block_adjacent v); [done|done|apply Hi].
  - intros c Hin Hr [Hcv|Hce]%elem_of_cons; right; [by apply Hfree|by apply (ei_closed _ _ _ Hi)].
  - intros c Hin Hr. destruct (decide (blocker c = v)) as [Hb|Hb].
    + intros i k x b Hx%list_elem_of_lookup_2 _ Ex _. exfalso.
      apply elem_of_app in Hx as [Hx|Hx].
      * rewrite Forall_forall in HA. apply Hn. rewrite <- Hb. apply (Hfree c Hin Hr). rewrite <- Ex. by apply HA.
      * destruct (emitted_leader _ _ _ _ Hi Hx) as [He _]. apply Hn. rewrite <- Hb.
        apply (ei_closed _ _ _ Hi c Hin Hr). by rewrite <- Ex.
    + apply (block_respects v); [done|done| |done]. by apply Hi.
  - intros i k y x Hik Hy Hx Hne. destruct (block_lookup v A ordering HA HB i y Hy) as [[Hy1 Hy2]|(Hy1 & Hy2 & Hy3)];
      apply (block_lookup v A ordering HA HB) in Hx as [[Hx1 Hx2]|(Hx1 & Hx2 & Hx3)]; try congruence; try lia.
    + destruct (emitted_leader _ _ _ x Hi (list_elem_of_lookup_2 _ _ _ Hx2)) as [Hxe Hxq].
      apply (list_elem_of_lookup_2 _ _ _) in Hy as [Hya|Hyo]%elem_of_app; [|destruct (emitted_leader _ _ _ _ Hi Hyo); congruence].
      unfold A in Hya. rewrite <- Permutation_rev in Hya. apply list_elem_of_filter in Hya as [_ [m Hm]%list_elem_of_lookup_1].
      apply (ei_left _ _ _ Hi m y x Hm Hxq); [by rewrite Hy2|done].
    + apply (ei_order _ _ _ Hi (i - length A) (k - length A) y x)%nat; try done; lia.
  - done.
Qed.

(** What a sorted queue is. *)
Record sorted_queue (cs : list EDGE) (order : list PGPROC) : Prop := {
  sq_perm : order ≡ₚ queue;
  sq_adjacent : adjacent lockGroupLeader order;
  sq_respects : Forall (respects lockGroupLeader order) cs;
  sq_order : no_overtaking cs order
}.

(** A constraint says that [u] is before [v]. *)
Definition must_precede (cs : list EDGE) (u v : ProcNumber) : Prop :=
  exists c, c ∈ cs /\ relevant queue c /\ waiter c = u /\ blocker c = v.

Definition contradictory (cs : list EDGE) : Prop := exists u, tc (must_precede cs) u u.

(** A relation in which every element of a finite set has a successor in the set has
    a cycle. *)
Lemma finite_cycle {A} `{!EqDecision A} (R : A -> A -> Prop) (S : list A) x :
  x ∈ S -> (forall u, u ∈ S -> exists v, v ∈ S /\ R u v) -> exists u, tc R u u.
Proof.
  intros Hx Hs. assert (Hn : forall n, (exists u, tc R u u) \/ exists h l, NoDup (h :: l) /\ (forall y, y ∈ h :: l -> y ∈ S) /\
      (forall y, y ∈ l -> tc R y h) /\ length l = n).
  { induction n as [|n [IH|(h & l & H1 & H2 & H3 & H4)]]; [|by left|].
    - right. exists x, []. split; [apply NoDup_singleton|]. split; [by intros y ->%list_elem_of_singleton|]. split; [|done].
      intros y Hy. by apply not_elem_of_nil in Hy.
    - destruct (Hs h) as (v & Hv & HR); [apply H2; left|].
      assert (Hto : forall y, y ∈ h :: l -> tc R y v).
      { intros y [->|Hy]%elem_of_cons; [by apply tc_once|]. eapply tc_r; [by apply H3|done]. }
      destruct (decide (v ∈ h :: l)) as [Hin|Hin]; [left; exists v; by apply Hto|]. right. exists v, (h :: l).
      split; [by apply NoDup_cons|]. split; [|split; [done|cbn; lia]]. by intros y [->|Hy]%elem_of_cons; [|apply H2]. }
  destruct (Hn (length S)) as [H|(h & l & H1 & H2 & _ & H4)]; [done|].
  assert (Hl : (length (h :: l) <= length S)%nat) by by apply submseteq_length, NoDup_submseteq. cbn in Hl. lia.
Qed.

Lemma some_left cs E ordering :
  emit_inv cs E ordering -> (length ordering < length queue)%nat -> exists x, x ∈ queue /\ wleader x ∉ E.
Proof.
  intros Hi Hl. rewrite (ei_perm _ _ _ Hi) in Hl.
  destruct (decide (Forall (fun w => wleader w ∈ E) queue)) as [Ha|Ha].
  - rewrite filter_all in Hl by done. lia.
  - apply not_Forall_Exists in Ha; [|apply _]. by apply Exists_exists in Ha.
Qed.

Lemma stuck_contradictory cs E before ordering :
  emit_inv cs E ordering -> counts_ok cs E before -> (length ordering < length queue)%nat ->
  find_candidate (topo_of E) before = None -> contradictory cs.
Proof.
  intros Hi Hc Hl Hf. destruct (some_left cs E ordering Hi Hl) as (x0 & Hx0 & Hn0).
  apply (finite_cycle _ (wleader <$> filter (fun w => wleader w ∉ E) queue) (wleader x0)).
  { apply list_elem_of_fmap_2, list_elem_of_filter. done. }
  intros u (x & -> & [Hxn [i Hx]%list_elem_of_lookup_1]%list_elem_of_filter)%list_elem_of_fmap.
  destruct (not_candidate cs E before i x Hc Hx Hxn) as (c & Hin & Hr & Hcw & Hcb).
  { intros k y _ Hy Hyn. apply (find_candidate_None (topo_of E) before k y Hf). by apply topo_of_lookup. }
  exists (blocker c). split; [|by exists c]. destruct Hr as [_ (b & Hb & Hbq)%list_elem_of_fmap]. rewrite Hb.
  apply list_elem_of_fmap_2, list_elem_of_filter. by rewrite <- Hb.
Qed.

(** Then no order of the queue satisfies them. *)
Lemma contradictory_no_order cs order : contradictory cs -> order ≡ₚ queue -> ~ Forall (respects lockGroupLeader order) cs.
Proof.
  intros (u & Hu) Hp Hr. rewrite Forall_forall in Hr.
  assert (Hlt : forall a b, tc (must_precede cs) a b -> forall i j w x, order !! i = Some w -> order !! j = Some x ->
    wleader w = a -> wleader x = b -> (i < j)%nat).
  { induction 1 as [a b (c & H1 & H2 & H3 & H4)|a b d (c & H1 & H2 & H3 & H4) Ht IH]; intros i j w x Hi Hj Hw Hx.
    - apply (Hr c H1 i j w x); congruence.
    - destruct H2 as [_ (y & Hy & Hyq)%list_elem_of_fmap]. rewrite <- Hp in Hyq. apply list_elem_of_lookup_1 in Hyq as [k Hk].
      transitivity k; [apply (Hr c H1 i k w y); congruence|apply (IH k j y x); congruence]. }
  assert (exists i w, order !! i = Some w /\ wleader w = u) as (i & w & Hi & Hw).
  { assert (Hin : u ∈ wleader <$> queue) by (inversion Hu as [? ? (c & _ & [Hc _] & <- & _)|? ? ? (c & _ & [Hc _] & <- & _)]; done).
    apply list_elem_of_fmap in Hin as (w & -> & Hw). rewrite <- Hp in Hw. apply list_elem_of_lookup_1 in Hw as [i Hi]. by exists i, w. }
  pose proof (Hlt u u Hu i i w w Hi Hi Hw Hw). lia.
Qed.

Lemma emit_done cs E ordering : emit_inv cs E ordering -> (length queue <= length ordering)%nat -> sorted_queue cs ordering.
Proof.
  intros Hi Hl. assert (Hp : ordering ≡ₚ queue).
  { destruct (decide (Forall (fun w => wleader w ∈ E) queue)) as [Ha|Ha].
    - rewrite (ei_perm _ _ _ Hi). by rewrite filter_all.
    - exfalso. apply not_Forall_Exists in Ha; [|apply _]. apply Exists_exists in Ha as (x & Hx & Hn).
      rewrite (ei_perm _ _ _ Hi) in Hl. pose proof (length_filter_lt (fun w => wleader w ∈ E) queue x Hx Hn). lia. }
  split; [done|apply Hi| |apply Hi]. apply Forall_forall. intros c Hc. destruct (decide (relevant queue c)) as [Hr|Hr]; [by apply Hi|].
  intros i j w b Hw%list_elem_of_lookup_2 Hb%list_elem_of_lookup_2 Ew Eb. destruct Hr. rewrite Hp in Hw, Hb.
  split; [rewrite <- Ew|rewrite <- Eb]; by apply list_elem_of_fmap_2.
Qed.

Lemma emit_ok cs after fuel : lists_ok cs after ->
  forall E before ordering, emit_inv cs E ordering -> counts_ok cs E before -> (length queue <= length ordering + fuel)%nat ->
  exists r, emit lockGroupLeader fuel (length queue) (topo_of E) before after ordering = Ok r /\
    match r with Some order => sorted_queue cs order | None => contradictory cs end.
Proof.
  intros Ha. induction fuel as [|fuel IH]; intros E before ordering Hi Hc Hf; cbn [emit].
  all: destruct (Nat.leb_spec (length queue) (length ordering)) as [Hl|Hl]; [|try lia].
  1,2: exists (Some ordering); split; [done|]; by apply emit_done with E.
  destruct (find_candidate (topo_of E) before) as [j|] eqn:Ej; [|exists None; split; [done|by eapply stuck_contradictory]].
  apply find_candidate_Some in Ej as ([w Hw] & Hz & Hlast). rewrite Hw. apply topo_of_lookup in Hw as [Hw Hn].
  fold (wleader w). rewrite take_group_topo, drop_group_topo by (done || apply leader_idem, _).
  apply IH.
  - eapply emit_inv_step; try done. intros i y Hlt Hy Hyn. apply (Hlast i y Hlt). by apply topo_of_lookup.
  - by apply counts_emit.
  - rewrite length_app, length_rev.
    assert (0 < length (filter (fun x => wleader x = wleader w) queue))%nat; [|lia].
    assert (Hin : w ∈ filter (fun x => wleader x = wleader w) queue) by (apply list_elem_of_filter; split; [done|by eapply list_elem_of_lookup_2]).
    destruct (filter _ queue); [by apply not_elem_of_nil in Hin|cbn; lia].
Qed.

Lemma counts_start : counts_ok [] [] (replicate (length queue) 0).
Proof.
  split; [apply length_replicate|]. intros j w Hw _. exists 0. split.
  - apply lookup_replicate. split; [done|]. by eapply lookup_lt_Some.
  - case_decide; [done|]. split; [done|]. intros _. apply Forall_nil_2.
Qed.

Lemma lists_start : lists_ok [] (replicate (length queue) []).
Proof.
  split; [apply length_replicate|]. intros j w Hw. case_decide; (apply lookup_replicate; split; [done|by eapply lookup_lt_Some]).
Qed.

Lemma emit_inv_start cs : emit_inv cs [] [].
Proof.
  split; try done.
  - induction queue as [|w q IH]; [done|]. rewrite filter_cons, decide_False by apply not_elem_of_nil. done.
  - intros c _ _ H. by apply not_elem_of_nil in H.
  - intros i y x _ _ _ H. by apply not_elem_of_nil in H.
Qed.

Lemma TopoSort_ok MaxBackends cs :
  (length queue <= MaxBackends)%nat -> leaders_only cs ->
  exists r, TopoSort lockGroupLeader MaxBackends queue cs = Ok r /\
    match r with Some order => sorted_queue cs order | None => contradictory cs end.
Proof.
  intros Hm Hl. unfold TopoSort. destruct (Nat.ltb_spec MaxBackends (length queue)); [lia|].
  destruct (add_constraints_ok cs [] _ _ Hl counts_start lists_start) as (before & after & -> & Hc & Ha).
  cbn [mbind result_bind]. assert (Et : Some <$> queue = topo_of []).
  { unfold topo_of. apply list_fmap_ext. intros i w _. by rewrite decide_False by apply not_elem_of_nil. }
  rewrite Et. apply (emit_ok cs after); [done|apply emit_inv_start|done|cbn; lia].
Qed.

End Scan.
