(* ===== verification/DeadlockCheck.v ===== *)
(** * What the deadlock detector guarantees

    [ExpandConstraints], [TestConfiguration], [DeadLockCheckRecurse] and
    [DeadLockCheck] of [src/src/backend/storage/lmgr/deadlock.c], with [CheckDeadLock]
    of proc.c: the check ends without an error and inside its arrays, a deadlock it
    reports is a cycle of the waits-for graph, and what it leaves behind has none. *)

From S2P Require Import Prelude LockObject LockTable Deadlock DeadlockSort.
From stdpp Require Import gmap.
#[local] Open Scope Z_scope.

Lemma tc_mono {A} (R R' : A -> A -> Prop) a b : (forall x y, R x y -> R' x y) -> tc R a b -> tc R' a b.
Proof. intros H. induction 1; [apply tc_once; auto|eapply tc_l; eauto]. Qed.

Lemma tc_rtc_loop {A} (R : A -> A -> Prop) a z : tc R a a -> rtc R a z -> rtc R z a -> tc R z z.
Proof. intros H1 H2 H3. eapply tc_rtc_l; [done|]. by eapply tc_rtc_r. Qed.

Lemma tc_first {A} (R : A -> A -> Prop) a b : tc R a b -> exists c, R a c.
Proof. destruct 1; eauto. Qed.

Lemma tc_last {A} (R : A -> A -> Prop) a b : tc R a b -> exists c, R c b.
Proof. induction 1; eauto. Qed.

(** ** The search does not depend on the autovacuum worker found so far *)

Section Blind.

Context (lockGroupLeader : ProcNumber -> option ProcNumber) (lockGroupMembers : ProcNumber -> list ProcNumber).
Context (is_autovacuum : ProcNumber -> bool) (MaxBackends : nat) (MyProc : ProcNumber) (s : LockState).
Context (waitOrders : list WAIT_ORDER).

Definition same_search (st st' : cycle_search) : Prop :=
  visitedProcs st = visitedProcs st' /\ softEdges st = softEdges st' /\ nDeadlockDetails st = nDeadlockDetails st' /\
  deadlockDetails st = deadlockDetails st'.

Definition same_outcome (r r' : result (bool * cycle_search)) : Prop :=
  match r, r' with
  | Ok (b, st), Ok (b', st') => b = b' /\ same_search st st'
  | Err e, Err e' => e = e'
  | _, _ => False
  end.

Definition blind (rec : ProcNumber -> cycle_search -> result (bool * cycle_search)) : Prop :=
  forall p st st', same_search st st' -> same_outcome (rec p st) (rec p st').

Lemma same_add_info t m p st st' : same_search st st' -> same_search (add_info t m p st) (add_info t m p st').
Proof. intros (H1 & H2 & H3 & H4). split_and!; cbn; congruence. Qed.

(** Run a sub-search on both sides. *)
Ltac run_same H :=
  let b := fresh "b" in let st := fresh "st" in let b' := fresh "b" in let st' := fresh "st" in let E := fresh in
  revert H; unfold same_outcome at 1;
  match goal with |- match ?x with _ => _ end -> _ => destruct x as [[b st]|?] end;
  match goal with |- match ?x with _ => _ end -> _ => destruct x as [[b' st']|?] end; try done;
  first [intros [-> E]; revert E; cbn [mbind result_bind]|intros ->; done].

Lemma hard_loop_blind rec p u t m mask modes pls st st' :
  blind rec -> same_search st st' ->
  same_outcome (hard_loop lockGroupLeader is_autovacuum MyProc rec p u t m mask modes pls st)
    (hard_loop lockGroupLeader is_autovacuum MyProc rec p u t m mask modes pls st').
Proof.
  intros Hr. revert st st'. induction pls as [|pl pls IH]; intros st st' Hs; cbn [hard_loop]; [done|].
  destruct (hard_blocks _ _ _ _ pl); [|by apply IH]. pose proof (Hr (myProc pl) st st' Hs) as Hrun. run_same Hrun.
  intros H1. destruct b0; [split; [done|]; by apply same_add_info|]. apply IH. by destruct (_ && _).
Qed.

Lemma soft_loop_blind rec p u t m mask ahead st st' :
  blind rec -> same_search st st' ->
  same_outcome (soft_loop lockGroupLeader MaxBackends rec p u t m mask ahead st)
    (soft_loop lockGroupLeader MaxBackends rec p u t m mask ahead st').
Proof.
  intros Hr. revert st st'. induction ahead as [|w ahead IH]; intros st st' Hs; cbn [soft_loop]; [done|].
  destruct (soft_blocks _ _ _ w); [|by apply IH]. pose proof (Hr (procNumber w) st st' Hs) as Hrun. run_same Hrun.
  intros (H1 & H2 & H3 & H4). destruct b0; [|by apply IH]. unfold add_soft. cbn [softEdges add_info]. rewrite H2.
  destruct (Nat.ltb _ _); cbn; [|done]. split; [done|]. split_and!; cbn; congruence.
Qed.

Lemma member_blind rec p u st st' :
  blind rec -> same_search st st' ->
  same_outcome (FindLockCycleRecurseMember lockGroupLeader is_autovacuum MaxBackends MyProc s waitOrders rec p u st)
    (FindLockCycleRecurseMember lockGroupLeader is_autovacuum MaxBackends MyProc s waitOrders rec p u st').
Proof.
  intros Hr Hs. unfold FindLockCycleRecurseMember. destruct (waitLock _) as [[t m]|]; [|done].
  destruct (LockMethodLockHash s !! t) as [lock|]; [|done]. destruct (LockMethods _) as [lmt|]; [|done].
  case_bool_decide; [done|].
  pose proof (hard_loop_blind rec p u t m (conflict lmt m) (lockmodes lmt) (procLocks lock) st st' Hr Hs) as Hrun. run_same Hrun.
  intros H1. destruct b0; [done|]. by apply soft_loop_blind.
Qed.

Lemma members_loop_blind rec u members st st' :
  blind rec -> same_search st st' ->
  same_outcome (members_loop lockGroupLeader is_autovacuum MaxBackends MyProc s waitOrders rec u members st)
    (members_loop lockGroupLeader is_autovacuum MaxBackends MyProc s waitOrders rec u members st').
Proof.
  intros Hr. revert st st'. induction members as [|p members IH]; intros st st' Hs; cbn [members_loop]; [done|].
  destruct (_ && _); [|by apply IH]. pose proof (member_blind rec p u st st' Hr Hs) as Hrun. run_same Hrun.
  intros H1. destruct b0; [done|]. by apply IH.
Qed.

Lemma FindLockCycleRecurse_blind fuel depth :
  blind (fun p => FindLockCycleRecurse lockGroupLeader lockGroupMembers is_autovacuum MaxBackends MyProc s waitOrders fuel p depth).
Proof.
  revert depth. induction fuel as [|fuel IH]; intros depth p st st' Hs; cbn [FindLockCycleRecurse]; [done|].
  destruct Hs as (H1 & H2 & H3 & H4). rewrite <- H1. case_bool_decide.
  - case_bool_decide; [|done]. unfold cycle_closed. destruct (Nat.leb _ _); [|done]. by cbn.
  - unfold mark_seen. rewrite <- H1. destruct (Nat.ltb _ _); [|done]. cbn [mbind result_bind].
    assert (Hs : same_search
      (mkSearch (visitedProcs st ++ [group_leader lockGroupLeader p]) (softEdges st) (nDeadlockDetails st) (deadlockDetails st) (blocking_autovacuum_proc st))
      (mkSearch (visitedProcs st ++ [group_leader lockGroupLeader p]) (softEdges st') (nDeadlockDetails st') (deadlockDetails st') (blocking_autovacuum_proc st')))
      by by split_and!.
    destruct (is_waiting s (group_leader lockGroupLeader p)).
    + pose proof (member_blind _ (group_leader lockGroupLeader p) (group_leader lockGroupLeader p) _ _ (IH (S depth)) Hs) as Hrun.
      run_same Hrun. intros Hs'. destruct b0; [done|]. by apply members_loop_blind.
    + cbn [mbind result_bind]. by apply members_loop_blind.
Qed.

Lemma FindLockCycle_blind p av av' :
  same_outcome (FindLockCycle lockGroupLeader lockGroupMembers is_autovacuum MaxBackends MyProc s waitOrders p av)
    (FindLockCycle lockGroupLeader lockGroupMembers is_autovacuum MaxBackends MyProc s waitOrders p av').
Proof. apply FindLockCycleRecurse_blind. by split_and!. Qed.

End Blind.

(** ** The graph under proposed orders *)

Section Ahead.

Context (lockGroupLeader : ProcNumber -> option ProcNumber) `{!GroupsOK lockGroupLeader}.

Abbreviation leader := (group_leader lockGroupLeader).
Abbreviation wleader := (wleader lockGroupLeader).

(** [w] is ahead of a process of the group [u], and not in the group. *)
Definition ahead_of (queue : list PGPROC) (u : ProcNumber) (w : PGPROC) : Prop :=
  exists i k x, (i < k)%nat /\ queue !! i = Some w /\ queue !! k = Some x /\ wleader x = u /\ wleader w <> u.

Lemma until_spec stop l w :
  w ∈ until stop l <-> exists i, l !! i = Some w /\ forall j x, (j <= i)%nat -> l !! j = Some x -> stop x = false.
Proof.
  induction l as [|y l IH]; cbn [until].
  - split; [by intros H%not_elem_of_nil|by intros (i & H & _)].
  - destruct (stop y) eqn:Ey.
    + split; [by intros H%not_elem_of_nil|]. intros (i & _ & H). by rewrite (H 0%nat y) in Ey by (done || lia).
    + rewrite elem_of_cons, IH. split.
      * intros [->|(i & H1 & H2)]; [exists 0%nat|exists (S i)]; (split; [done|]).
        -- intros [|j] x Hj Hx; [by injection Hx as <-|lia].
        -- intros [|j] x Hj Hx; [by injection Hx as <-|]. apply (H2 j); [lia|done].
      * intros ([|i] & H1 & H2); [left; by injection H1|right]. exists i. split; [done|]. intros j x Hj Hx.
        apply (H2 (S j)); [lia|done].
Qed.

(** A proposed order keeps groups together. *)
Lemma order_ahead order u w :
  adjacent lockGroupLeader order -> u ∈ wleader <$> order ->
  w ∈ until (fun w => leader (procNumber w) =? u) order <-> ahead_of order u w.
Proof.
  intros Hadj (x & Hu & [k Hx]%list_elem_of_lookup_1)%list_elem_of_fmap. rewrite until_spec. split.
  - intros (i & Hi & Hno). assert (Hn : forall j y, (j <= i)%nat -> order !! j = Some y -> wleader y <> u).
    { intros j y Hj Hy. by apply Z.eqb_neq, (Hno j). }
    exists i, k, x. split_and!; try done; [|by apply (Hn i)]. apply Nat.nle_gt. intros Hle. by apply (Hn k x Hle Hx).
  - intros (i & k' & y & Hlt & Hi & Hk & Hy & Hw). exists i. split; [done|]. intros j z Hj Hz. apply Z.eqb_neq. fold (wleader z).
    intros Ez. destruct (decide (j = i)) as [->|Hne]; [congruence|].
    apply Hw. rewrite <- Ez. apply (Hadj j i k' z w y); [lia|done|done|done|congruence].
Qed.

(** The scan for the last member of the group [u]. *)
Lemma last_member_scan u queue k x :
  (forall w, bool_decide (lockGroupLeader (procNumber w) = Some u) = bool_decide (wleader w = u)) ->
  queue !! k = Some x -> wleader x = u -> (forall i w, (k < i)%nat -> queue !! i = Some w -> wleader w <> u) ->
  foldl (fun last w => if bool_decide (lockGroupLeader (procNumber w) = Some u) then Some (procNumber w) else last) None queue =
  Some (procNumber x).
Proof.
  intros Hl. revert k x. induction queue as [|y queue IH] using rev_ind; [done|]. intros k x Hx Ex Hlast.
  rewrite foldl_snoc, Hl. case_bool_decide as Hy.
  - assert (k = length queue) as ->.
    { apply Nat.le_antisymm; apply Nat.nlt_ge; intros Hlt.
      - apply lookup_lt_Some in Hx. rewrite length_app in Hx. cbn in Hx. lia.
      - apply (Hlast (length queue) y Hlt); [by apply list_lookup_middle|done]. }
    rewrite list_lookup_middle in Hx by done. by injection Hx as ->.
  - assert (Hk : queue !! k = Some x).
    { apply lookup_app_Some in Hx as [Hx|[Hx1 Hx2]]; [done|]. apply list_lookup_singleton_Some in Hx2 as [_ <-]. done. }
    apply (IH k x); try done. intros i w Hi Hw. apply (Hlast i w Hi). by apply lookup_app_l_Some.
Qed.

(** The last member of a group in the queue. *)
Lemma last_group_member_spec p queue :
  NoDup (procNumber <$> queue) -> p ∈ procNumber <$> queue ->
  exists k x, queue !! k = Some x /\ wleader x = leader p /\ last_group_member lockGroupLeader p (leader p) queue = Some (procNumber x) /\
    forall j y, queue !! j = Some y -> wleader y = leader p -> (j <= k)%nat.
Proof.
  intros Hnd Hp. unfold last_group_member. destruct (lockGroupLeader p) as [u|] eqn:Eu.
  - assert (Hlu : leader p = u) by (unfold group_leader; by rewrite Eu). rewrite Hlu.
    destruct (group_index lockGroupLeader u queue) as [k|] eqn:Ek.
    2: { apply group_index_None in Ek. destruct Ek. apply list_elem_of_fmap in Hp as (w & -> & Hw).
         rewrite <- Hlu. by apply (list_elem_of_fmap_2 wleader). }
    apply group_index_Some in Ek as [(x & Hx & Ex) Hlast]. exists k, x. split; [done|]. split; [done|]. split.
    + apply (last_member_scan u queue k x); try done. intros w. apply bool_decide_ext. unfold DeadlockSort.wleader, group_leader.
      destruct (lockGroupLeader (procNumber w)) as [v|] eqn:Ev; cbn; [naive_solver|].
      split; [done|]. intros E. pose proof (leader_ok p u Eu). congruence.
    + intros j y Hy Ey. apply Nat.nlt_ge. intros Hlt. by apply (Hlast j y Hlt Hy).
  - assert (Hlu : leader p = p) by (unfold group_leader; by rewrite Eu). rewrite Hlu.
    apply list_elem_of_fmap in Hp as (x & Ex & [k Hx]%list_elem_of_lookup_1). exists k, x. split; [done|].
    split; [unfold DeadlockSort.wleader, group_leader; by rewrite <- Ex, Eu|]. split; [by rewrite Ex|].
    intros j y Hy Ey. assert (Epy : procNumber y = p).
    { unfold DeadlockSort.wleader, group_leader in Ey. destruct (lockGroupLeader (procNumber y)) as [v|] eqn:Ev; cbn in Ey; [|done].
      pose proof (leader_ok _ _ Ev). congruence. }
    assert (j = k) as ->; [|lia]. eapply (NoDup_lookup _ _ _ p Hnd); rewrite list_lookup_fmap; [rewrite Hy|rewrite Hx]; cbn; congruence.
Qed.

Lemma queue_ahead p queue w :
  NoDup (procNumber <$> queue) -> p ∈ procNumber <$> queue ->
  w ∈ until (fun w => bool_decide (last_group_member lockGroupLeader p (leader p) queue = Some (procNumber w))) queue /\ wleader w <> leader p <->
  ahead_of queue (leader p) w.
Proof.
  intros Hnd Hp. destruct (last_group_member_spec p queue Hnd Hp) as (k & x & Hx & Ex & -> & Hlast). rewrite until_spec. split.
  - intros [(i & Hi & Hno) Hw]. exists i, k, x. split_and!; try done. apply Nat.nle_gt. intros Hle.
    specialize (Hno k x Hle Hx). by apply bool_decide_eq_false in Hno.
  - intros (i & k' & y & Hlt & Hi & Hk & Hy & Hw). split; [|done]. exists i. split; [done|]. intros j z Hj Hz.
    apply bool_decide_eq_false. intros [= E]. pose proof (Hlast k' y Hk Hy).
    assert (j = k); [|lia]. eapply (NoDup_lookup _ _ _ (procNumber z) Hnd); rewrite list_lookup_fmap; [rewrite Hz|rewrite Hx]; cbn; congruence.
Qed.

End Ahead.

Section Waits.

Context (lockGroupLeader : ProcNumber -> option ProcNumber) `{!GroupsOK lockGroupLeader}.

Abbreviation leader := (group_leader lockGroupLeader).
Abbreviation wleader := (wleader lockGroupLeader).
Abbreviation ahead_of := (ahead_of lockGroupLeader).
Abbreviation waits_for := (waits_for lockGroupLeader).

(** Proposed orders are orders of the queues, with the groups together. *)
Definition order_ok (s : LockState) (o : WAIT_ORDER) : Prop :=
  exists lock, LockMethodLockHash s !! wo_lock o = Some lock /\ wo_procs o ≡ₚ waitProcs lock /\ adjacent lockGroupLeader (wo_procs o).

Definition orders_ok (s : LockState) (orders : list WAIT_ORDER) : Prop :=
  NoDup (wo_lock <$> orders) /\ Forall (order_ok s) orders.

(** The queue of a lock under proposed orders. *)
Definition queue_under (orders : list WAIT_ORDER) (t : LOCKTAG) (lock : LOCK) : list PGPROC :=
  match find_order orders t with Some o => wo_procs o | None => waitProcs lock end.

Lemma find_order_Some orders t o : find_order orders t = Some o -> o ∈ orders /\ wo_lock o = t.
Proof. intros [H1 H2]%List.find_some. apply bool_decide_eq_true in H2. split; [by apply list_elem_of_In|done]. Qed.

Lemma find_order_None orders t : find_order orders t = None <-> t ∉ wo_lock <$> orders.
Proof.
  induction orders as [|o orders IH]; cbn; [split; [intros _; apply not_elem_of_nil|done]|]. rewrite not_elem_of_cons.
  case_bool_decide as E; [split; [done|]; by intros [? _]|]. unfold find_order in IH. rewrite IH. naive_solver.
Qed.

Lemma find_order_elem orders o : NoDup (wo_lock <$> orders) -> o ∈ orders -> find_order orders (wo_lock o) = Some o.
Proof.
  intros Hnd Ho. destruct (find_order orders (wo_lock o)) as [o'|] eqn:E.
  - apply find_order_Some in E as [Ho' E]. apply list_elem_of_lookup_1 in Ho as [i Hi], Ho' as [j Hj].
    assert (i = j) as -> by (eapply (NoDup_lookup _ _ _ (wo_lock o) Hnd); rewrite list_lookup_fmap; [rewrite Hi|rewrite Hj]; cbn; congruence).
    congruence.
  - apply find_order_None in E. destruct E. by apply list_elem_of_fmap_2.
Qed.

Lemma queue_under_perm s orders t lock :
  orders_ok s orders -> LockMethodLockHash s !! t = Some lock -> queue_under orders t lock ≡ₚ waitProcs lock.
Proof.
  intros [_ Hf] Hl. unfold queue_under. destruct (find_order orders t) as [o|] eqn:Eo; [|done].
  apply find_order_Some in Eo as [Ho <-]. rewrite Forall_forall in Hf. destruct (Hf o Ho) as (l & El & Hp & _). congruence.
Qed.

(** The edges, in terms of the queues. *)
Definition hard_edge (s : LockState) (u v : ProcNumber) : Prop :=
  u <> v /\ exists p t m lock lmt pl m', leader p = u /\ waitLock (backend s p) = Some (t, m) /\
    locktag_type t <> LOCKTAG_RELATION_EXTEND /\ LockMethodLockHash s !! t = Some lock /\
    LockMethods (locktag_lockmethodid t) = Some lmt /\ pl ∈ procLocks lock /\ leader (myProc pl) = v /\
    1 <= m' <= numLockModes lmt /\ holds pl m' /\ conflicts lmt m m'.

Definition soft_edge (s : LockState) (orders : list WAIT_ORDER) (t : LOCKTAG) (u v : ProcNumber) : Prop :=
  exists p m lock lmt w, leader p = u /\ waitLock (backend s p) = Some (t, m) /\
    locktag_type t <> LOCKTAG_RELATION_EXTEND /\ LockMethodLockHash s !! t = Some lock /\
    LockMethods (locktag_lockmethodid t) = Some lmt /\ ahead_of (queue_under orders t lock) u w /\ wleader w = v /\
    conflicts lmt m (waitLockMode w).

(** A process that waits is in the queue of its lock. *)
Definition queues_ok (s : LockState) : Prop :=
  forall p t m lock, waitLock (backend s p) = Some (t, m) -> LockMethodLockHash s !! t = Some lock ->
    tag lock = t /\ NoDup (procNumber <$> waitProcs lock) /\
    exists w, w ∈ waitProcs lock /\ procNumber w = p /\ waitLockMode w = m.

Lemma sys_queues_ok s : sys_ok lockGroupLeader s -> queues_ok s.
Proof.
  intros Hs p t m lock Hw Hl. destruct (sys_waiting lockGroupLeader s p t m Hs Hw) as (l & lmt & w & El & Ht & _ & _ & Hi & Hin & Hp & Hm).
  assert (l = lock) as -> by congruence. split; [done|]. split; [apply (wf_queue _ _ _ _ (inv_wf _ _ _ Hi))|]. by exists w.
Qed.

Lemma soft_ahead_spec s orders p t m lock w :
  queues_ok s -> orders_ok s orders -> waitLock (backend s p) = Some (t, m) -> LockMethodLockHash s !! t = Some lock ->
  w ∈ soft_ahead lockGroupLeader orders p (leader p) lock /\ wleader w <> leader p <-> ahead_of (queue_under orders t lock) (leader p) w.
Proof.
  intros Hs Ho Hw Hl. destruct (Hs p t m lock Hw Hl) as (Ht & Hnd & y & Hy & Hp & _).
  assert (Hpq : p ∈ procNumber <$> waitProcs lock) by (rewrite <- Hp; by apply list_elem_of_fmap_2).
  unfold soft_ahead. rewrite Ht. pose proof (queue_under_perm s orders t lock Ho Hl) as Hperm. unfold queue_under in *.
  destruct (find_order orders t) as [o|] eqn:Eo; [|by apply queue_ahead].
  apply find_order_Some in Eo as [Hin <-]. destruct Ho as [_ Hf]. rewrite Forall_forall in Hf. destruct (Hf o Hin) as (l & El & _ & Hadj).
  rewrite order_ahead; [|done|].
  - split; [by intros [? _]|]. intros H. split; [done|]. by destruct H as (i & k & x & _ & _ & _ & _ & ?).
  - rewrite Hperm, <- Hp. by apply (list_elem_of_fmap_2 wleader).
Qed.

Lemma step_hard s orders x : step_ok lockGroupLeader s orders x -> st_soft x = false -> hard_edge s (waiter (st_edge x)) (blocker (st_edge x)).
Proof.
  intros (E1 & E2 & E3 & E4 & E5 & lock & lmt & E6 & E7 & E8) Ex. rewrite Ex in E8. destruct E8 as (pl & m' & ? & ? & ? & ? & ?).
  split; [congruence|]. eexists _, _, _, lock, lmt, pl, m'. split_and!; try done; lia.
Qed.

Lemma step_soft s orders x :
  queues_ok s -> orders_ok s orders -> step_ok lockGroupLeader s orders x -> st_soft x = true ->
  soft_edge s orders (edge_lock (st_edge x)) (waiter (st_edge x)) (blocker (st_edge x)).
Proof.
  intros Hs Ho (E1 & E2 & E3 & E4 & E5 & lock & lmt & E6 & E7 & E8) Ex. rewrite Ex in E8. destruct E8 as (w & W1 & W2 & W3).
  rewrite E1, E2. eexists _, _, lock, lmt, w. split_and!; try done. eapply soft_ahead_spec; try done. split; [done|].
  unfold DeadlockSort.wleader. congruence.
Qed.

Lemma waits_for_spec s orders u v :
  queues_ok s -> orders_ok s orders ->
  waits_for s orders u v <-> hard_edge s u v \/ exists t, soft_edge s orders t u v.
Proof.
  intros Hs Ho. split.
  - intros (x & Hx & <- & <-). destruct (st_soft x) eqn:Ex; [right; eexists; by apply step_soft|left; by eapply step_hard].
  - intros [(Hne & p & t & m & lock & lmt & pl & m' & Hp & Hw & Ht & Hl & Hlmt & H1 & H2 & H3 & H4 & H5)|
            (t & p & m & lock & lmt & w & Hp & Hw & Ht & Hl & Hlmt & H1 & H2 & H3)].
    + exists (mkStep false (mkEDGE u v t) (mkINFO t m p)). split; [|done]. split_and!; cbn; try done; [congruence|].
      exists lock, lmt. split; [done|]. split; [done|]. exists pl, m'. split_and!; try done; lia.
    + rewrite <- Hp in H1. pose proof H1 as [Ha Hn]%(soft_ahead_spec s orders p t m lock w Hs Ho Hw Hl).
      exists (mkStep true (mkEDGE u v t) (mkINFO t m p)). split; [|done]. split_and!; cbn; try done; [congruence|].
      exists lock, lmt. split; [done|]. split; [done|]. by exists w.
Qed.

(** A cycle of steps is a group that waits for itself. *)
Lemma path_tc s orders u v steps : steps <> [] -> wait_path lockGroupLeader s orders u v steps -> tc (waits_for s orders) u v.
Proof.
  revert u. induction steps as [|x steps IH]; intros u Hne; [done|]. intros (Hx & Hu & Hp).
  assert (He : waits_for s orders u (blocker (st_edge x))) by by exists x.
  destruct steps as [|y steps]; [cbn in Hp; rewrite <- Hp; by apply tc_once|]. eapply tc_l; [done|]. by apply IH.
Qed.

Lemma tc_path s orders u v : tc (waits_for s orders) u v -> exists steps, steps <> [] /\ wait_path lockGroupLeader s orders u v steps.
Proof.
  induction 1 as [u v (x & Hx & Hu & Hv)|u v w (x & Hx & Hu & Hv) _ (steps & _ & Hp)].
  - exists [x]. done.
  - exists (x :: steps). split; [done|]. split; [done|]. split; [done|]. by rewrite Hv.
Qed.

Definition no_cycle (s : LockState) (orders : list WAIT_ORDER) (u : ProcNumber) : Prop := ~ tc (waits_for s orders) u u.

Lemma no_cycle_steps s orders u : no_cycle s orders u <-> forall steps, ~ deadlock_cycle lockGroupLeader s orders u steps.
Proof.
  split.
  - intros H steps [H1 H2]. apply H. by eapply path_tc.
  - intros H (steps & H1 & H2)%tc_path. by apply (H steps).
Qed.

End Waits.

(** ** Constraints and orders *)

(** The processes in the lock table are backends. *)
Definition procs_ok (lockGroupLeader : ProcNumber -> option ProcNumber) (MaxBackends : nat) (s : LockState) : Prop :=
  forall t lock p, LockMethodLockHash s !! t = Some lock ->
    p ∈ myProc <$> procLocks lock \/ p ∈ procNumber <$> waitProcs lock ->
    in_range MaxBackends p /\ in_range MaxBackends (group_leader lockGroupLeader p).

Section Configuration.

Context (lockGroupLeader : ProcNumber -> option ProcNumber) `{!GroupsOK lockGroupLeader}.
Context (lockGroupMembers : ProcNumber -> list ProcNumber) `{!MembersOK lockGroupLeader lockGroupMembers}.
Context (is_autovacuum : ProcNumber -> bool) (MaxBackends : nat) (MyProc : ProcNumber).
Context (s : LockState) (Hs : sys_ok lockGroupLeader s) (Hqs : queues_ok s) (Hprocs : procs_ok lockGroupLeader MaxBackends s).

Abbreviation leader := (group_leader lockGroupLeader).
Abbreviation wleader := (wleader lockGroupLeader).
Abbreviation waits_for := (waits_for lockGroupLeader s).
Abbreviation orders_ok := (orders_ok lockGroupLeader s).
Abbreviation no_cycle := (no_cycle lockGroupLeader s).
Abbreviation FindLockCycle := (FindLockCycle lockGroupLeader lockGroupMembers is_autovacuum MaxBackends MyProc s).

Lemma waiter_range t lock w : LockMethodLockHash s !! t = Some lock -> w ∈ waitProcs lock -> in_range MaxBackends (wleader w).
Proof. intros Hl Hw. apply (Hprocs t lock (procNumber w) Hl). right. by apply list_elem_of_fmap_2. Qed.

Lemma ahead_in_queue orders t lock u w :
  orders_ok orders -> LockMethodLockHash s !! t = Some lock -> ahead_of lockGroupLeader (queue_under orders t lock) u w -> w ∈ waitProcs lock.
Proof. intros Ho Hl (i & k & x & _ & Hi & _). rewrite <- (queue_under_perm lockGroupLeader s orders t lock) by done. by eapply list_elem_of_lookup_2. Qed.

Lemma waits_range orders u v : orders_ok orders -> waits_for orders u v -> in_range MaxBackends v.
Proof.
  intros Ho Hw. apply (waits_for_spec lockGroupLeader s orders u v Hqs Ho) in Hw as [H|[t H]].
  - destruct H as (_ & p & t & m & lock & lmt & pl & m' & _ & _ & _ & Hl & _ & Hpl & <- & _).
    apply (Hprocs t lock (myProc pl) Hl). left. by apply list_elem_of_fmap_2.
  - destruct H as (p & m & lock & lmt & w & _ & _ & _ & Hl & _ & Ha & <- & _). eapply waiter_range; [done|].
    by eapply ahead_in_queue.
Qed.

(** An edge to be reversed: two groups with conflicting requests in the queue of the
    lock. *)
Definition constraint_ok (c : EDGE) : Prop :=
  waiter c <> blocker c /\ exists lock lmt w b, LockMethodLockHash s !! edge_lock c = Some lock /\
    LockMethods (locktag_lockmethodid (edge_lock c)) = Some lmt /\ locktag_type (edge_lock c) <> LOCKTAG_RELATION_EXTEND /\
    w ∈ waitProcs lock /\ b ∈ waitProcs lock /\ wleader w = waiter c /\ wleader b = blocker c /\
    conflicts lmt (waitLockMode w) (waitLockMode b).

Lemma constraint_relevant c lock :
  constraint_ok c -> LockMethodLockHash s !! edge_lock c = Some lock -> relevant lockGroupLeader (waitProcs lock) c.
Proof.
  intros (_ & l & lmt & w & b & Hl & _ & _ & Hw & Hb & Ew & Eb & _) Hl'. assert (l = lock) as -> by congruence.
  unfold relevant. rewrite <- Ew, <- Eb. split; by apply list_elem_of_fmap_2.
Qed.

Lemma constraint_leaders c : constraint_ok c -> leader (waiter c) = waiter c /\ leader (blocker c) = blocker c.
Proof. intros (_ & l & lmt & w & b & _ & _ & _ & _ & _ & <- & <- & _). split; by apply leader_idem. Qed.

Lemma constraint_range c : constraint_ok c -> in_range MaxBackends (leader (waiter c)) /\ in_range MaxBackends (leader (blocker c)).
Proof.
  intros Hc. destruct (constraint_leaders c Hc) as [E1 E2]. rewrite E1, E2.
  destruct Hc as (_ & l & lmt & w & b & Hl & _ & _ & Hw & Hb & Ew & Eb & _). rewrite <- Ew, <- Eb. split; by eapply waiter_range.
Qed.

Lemma soft_edge_constraint orders c :
  orders_ok orders -> soft_edge lockGroupLeader s orders (edge_lock c) (waiter c) (blocker c) -> constraint_ok c.
Proof.
  intros Ho (p & m & lock & lmt & w & Hp & Hw & Ht & Hl & Hlmt & Ha & Hb & Hc). pose proof (ahead_in_queue _ _ _ _ _ Ho Hl Ha) as Hin.
  destruct Ha as (i & k & x & _ & _ & _ & _ & Hne). split; [congruence|].
  destruct (Hqs p _ m lock Hw Hl) as (_ & _ & y & Hy & Ey & Em). exists lock, lmt, y, w. split_and!; try done.
  - unfold DeadlockSort.wleader. by rewrite Ey.
  - by rewrite Em.
Qed.

(** *** Room for the orders *)

Definition order_perm (o : WAIT_ORDER) : Prop :=
  exists lock, LockMethodLockHash s !! wo_lock o = Some lock /\ wo_procs o ≡ₚ waitProcs lock.

(** A process waits in one queue only, so the queues are disjoint. *)
Lemma orders_NoDup orders :
  NoDup (wo_lock <$> orders) -> Forall order_perm orders -> NoDup (procNumber <$> concat (wo_procs <$> orders)).
Proof.
  induction orders as [|o orders IH]; cbn; [intros _ _; apply NoDup_nil_2|].
  intros [Hn Hnd]%NoDup_cons [(lock & Hl & Hp) Hf]%Forall_cons. rewrite fmap_app, NoDup_app. split_and!; [| |by apply IH].
  - rewrite Hp. destruct (sys_lookup lockGroupLeader s _ lock Hs Hl) as (_ & lmt & _ & _ & Hi). apply (wf_queue _ _ _ _ (inv_wf _ _ _ Hi)).
  - intros p Hp1 Hp2. apply Hn. rewrite Hp in Hp1. apply list_elem_of_fmap in Hp1 as (w & -> & Hw), Hp2 as (w' & E & Hw').
    apply list_elem_of_In, in_concat in Hw' as (l & Hl' & Hw'). apply list_elem_of_In, list_elem_of_fmap in Hl' as (o' & -> & Ho').
    rewrite Forall_forall in Hf. destruct (Hf o' Ho') as (lock' & El' & Hp').
    assert (waitLock (backend s (procNumber w)) = Some (wo_lock o, waitLockMode w)).
    { apply (ag_waits _ _ (sys_agree _ _ Hs)). exists lock. split; [done|]. by exists w. }
    assert (waitLock (backend s (procNumber w)) = Some (wo_lock o', waitLockMode w')).
    { apply (ag_waits _ _ (sys_agree _ _ Hs)). exists lock'. split; [done|]. exists w'. split; [|done].
      rewrite <- Hp'. by apply list_elem_of_In. }
    assert (wo_lock o = wo_lock o') as -> by congruence. by apply list_elem_of_fmap_2.
Qed.

Lemma orders_room orders :
  NoDup (wo_lock <$> orders) -> Forall order_perm orders -> Forall (fun o => 2 <= length (wo_procs o))%nat orders ->
  (length (concat (wo_procs <$> orders)) <= MaxBackends /\ length orders <= MaxBackends / 2)%nat.
Proof.
  intros Hnd Hp H2. assert (Hlen : (length (concat (wo_procs <$> orders)) <= MaxBackends)%nat).
  { rewrite <- (length_fmap procNumber). apply in_range_length; [by apply orders_NoDup|]. apply Forall_forall.
    intros p (w & -> & Hw)%list_elem_of_fmap. apply list_elem_of_In, in_concat in Hw as (l & Hl & Hw).
    apply list_elem_of_In, list_elem_of_fmap in Hl as (o & -> & Ho). rewrite Forall_forall in Hp.
    destruct (Hp o Ho) as (lock & El & Hperm). apply (Hprocs _ lock (procNumber w) El). right.
    rewrite <- Hperm. by apply list_elem_of_fmap_2, list_elem_of_In. }
  split; [done|]. apply Nat.div_le_lower_bound; [lia|].
  assert (Hsum : (2 * length orders <= length (concat (wo_procs <$> orders)))%nat); [|lia].
  clear -H2. induction H2 as [|o orders Ho _ IH]; [done|]. cbn. rewrite length_app. lia.
Qed.

(** *** Expanding constraints *)

(** The proposed order of a queue, for the constraints [cs]. *)
Definition order_good (cs : list EDGE) (o : WAIT_ORDER) : Prop :=
  exists lock, LockMethodLockHash s !! wo_lock o = Some lock /\ wo_procs o ≡ₚ waitProcs lock /\
    adjacent lockGroupLeader (wo_procs o) /\ no_overtaking lockGroupLeader (waitProcs lock) cs (wo_procs o) /\
    (forall c, c ∈ cs -> edge_lock c = wo_lock o -> respects lockGroupLeader (wo_procs o) c) /\ (2 <= length (wo_procs o))%nat.

Definition expanded (cs : list EDGE) (orders : list WAIT_ORDER) : Prop :=
  NoDup (wo_lock <$> orders) /\ Forall (order_good cs) orders /\ forall c, c ∈ cs -> edge_lock c ∈ wo_lock <$> orders.

(** The constraints contradict each other. *)
Definition precedes (cs : list EDGE) (u v : ProcNumber) : Prop := exists c, c ∈ cs /\ waiter c = u /\ blocker c = v.

Lemma order_good_perm cs o : order_good cs o -> order_perm o.
Proof. intros (lock & Hl & Hp & _). by exists lock. Qed.

Lemma order_good_two cs o : order_good cs o -> (2 <= length (wo_procs o))%nat.
Proof. by intros (lock & _ & _ & _ & _ & _ & ?). Qed.

Lemma expanded_ok cs orders : expanded cs orders -> orders_ok orders.
Proof.
  intros (H1 & H2 & _). split; [done|]. eapply Forall_impl; [exact H2|]. intros o (lock & Hl & Hp & Ha & _). by exists lock.
Qed.

Lemma no_overtaking_mono queue cs cs' order :
  (forall c, c ∈ cs -> c ∈ cs') -> no_overtaking lockGroupLeader queue cs order -> no_overtaking lockGroupLeader queue cs' order.
Proof.
  intros Hsub H i j y x Hij Hy Hx Hne. destruct (H i j y x Hij Hy Hx Hne) as [(c & Hc & E)|Hr]; [left|by right].
  exists c. split; [by apply Hsub|done].
Qed.

Lemma relevant_two queue c : relevant lockGroupLeader queue c -> waiter c <> blocker c -> (2 <= length queue)%nat.
Proof.
  intros [H1 H2] Hne. destruct queue as [|a [|b queue]]; cbn in *; [by apply not_elem_of_nil in H1| |lia].
  apply list_elem_of_singleton in H1, H2. congruence.
Qed.

Lemma leaders_only_ok cs : Forall constraint_ok cs -> leaders_only lockGroupLeader cs.
Proof. intros H. eapply Forall_impl; [exact H|]. apply constraint_leaders. Qed.

(** One more order fits into the arrays. *)
Lemma expand_room cs orders c lock :
  NoDup (wo_lock <$> orders) -> Forall (order_good cs) orders -> edge_lock c ∉ wo_lock <$> orders ->
  LockMethodLockHash s !! edge_lock c = Some lock -> (2 <= length (waitProcs lock))%nat ->
  (length (concat (wo_procs <$> orders)) + length (waitProcs lock) <= MaxBackends /\ S (length orders) <= MaxBackends / 2)%nat.
Proof.
  intros Hnd Hg Eo Hl Htwo. destruct (orders_room (orders ++ [mkWAIT_ORDER (edge_lock c) (waitProcs lock)])) as [R1 R2].
  - rewrite fmap_app, NoDup_app. split; [done|]. split; [|apply NoDup_singleton]. intros t Ht ->%list_elem_of_singleton. done.
  - apply Forall_app. split; [eapply Forall_impl; [exact Hg|by apply order_good_perm]|]. apply Forall_singleton. by exists lock.
  - apply Forall_app. split; [eapply Forall_impl; [exact Hg|by apply order_good_two]|]. by apply Forall_singleton.
  - rewrite fmap_app, concat_app, length_app in R1. cbn in R1. rewrite app_nil_r in R1. rewrite length_app in R2. cbn [length] in R2. lia.
Qed.

Lemma expand_ok todo : forall seen orders,
  let cs := rev todo ++ seen in
  Forall constraint_ok cs -> NoDup (wo_lock <$> orders) -> Forall (order_good cs) orders ->
  (forall c, c ∈ seen -> edge_lock c ∈ wo_lock <$> orders) ->
  exists r, expand lockGroupLeader MaxBackends s todo orders (length (concat (wo_procs <$> orders))) = Ok r /\
    match r with Some orders' => expanded cs orders' | None => exists u, tc (precedes cs) u u end.
Proof.
  induction todo as [|c todo IH]; intros seen orders cs Hcs Hnd Hg Hseen; cbn [expand].
  { exists (Some orders). split; [done|]. split; [done|]. split; [done|]. exact Hseen. }
  assert (Ecs : cs = rev todo ++ c :: seen) by (unfold cs; cbn; by rewrite <- app_assoc). clearbody cs. subst cs.
  destruct (find_order orders (edge_lock c)) as [o|] eqn:Eo.
  { apply IH; try done. intros c' [->|Hc']%elem_of_cons; [|by apply Hseen]. apply find_order_Some in Eo as [Ho <-].
    by apply list_elem_of_fmap_2. }
  apply find_order_None in Eo. pose proof Hcs as [Hcs1 [Hc _]%Forall_cons]%Forall_app.
  pose proof Hc as (Hne & lock & lmt & w & b & Hl & _). pose proof (constraint_relevant c lock Hc Hl) as Hrel. rewrite Hl.
  pose proof (relevant_two _ _ Hrel Hne) as Htwo.
  destruct (expand_room _ orders c lock Hnd Hg Eo Hl Htwo) as [Hroom1 Hroom2].
  destruct (Nat.leb_spec (MaxBackends / 2) (length orders)); [lia|].
  destruct (Nat.ltb_spec MaxBackends (length (concat (wo_procs <$> orders)) + length (waitProcs lock))); [lia|].
  destruct (TopoSort_ok lockGroupLeader (waitProcs lock) MaxBackends (rev (c :: todo))) as (r & -> & Hr); [lia| |].
  { apply leaders_only_ok. cbn. apply Forall_app. split; [done|]. by apply Forall_singleton. }
  assert (Hsub : forall e, e ∈ rev (c :: todo) -> e ∈ rev todo ++ c :: seen).
  { cbn. intros e. rewrite !elem_of_app, list_elem_of_singleton, elem_of_cons. naive_solver. }
  cbn [mbind result_bind]. destruct r as [procs|].
  - assert (Hgo : order_good (rev todo ++ c :: seen) (mkWAIT_ORDER (edge_lock c) procs)).
    { destruct Hr as [P1 P2 P3 P4]. exists lock. cbn. split_and!; try done.
      - by eapply no_overtaking_mono.
      - intros e He Et. rewrite Forall_forall in P3. apply P3. cbn. rewrite !elem_of_app, elem_of_cons in *.
        destruct He as [He|[->|He]]; [by left|right; by left|]. destruct Eo. rewrite <- Et. by apply Hseen.
      - by rewrite P1. }
    replace (length (concat (wo_procs <$> orders)) + length (waitProcs lock))%nat
      with (length (concat (wo_procs <$> (orders ++ [mkWAIT_ORDER (edge_lock c) procs])))).
    + apply IH; [done| | |].
      * rewrite fmap_app, NoDup_app. split; [done|]. split; [|apply NoDup_singleton]. intros t Ht ->%list_elem_of_singleton. done.
      * apply Forall_app. by split; [|apply Forall_singleton].
      * intros e [->|He]%elem_of_cons; rewrite fmap_app, elem_of_app; [right; cbn; by apply list_elem_of_singleton|left; by apply Hseen].
    + rewrite fmap_app, concat_app, length_app. cbn. rewrite app_nil_r. by rewrite (sq_perm _ _ _ _ Hr).
  - exists None. split; [done|]. destruct Hr as (u & Hu). exists u. eapply tc_mono; [|exact Hu].
    intros x y (e & H1 & _ & H3 & H4). exists e. by split; [apply Hsub|].
Qed.

Lemma ExpandConstraints_ok cs :
  Forall constraint_ok cs ->
  exists r, ExpandConstraints lockGroupLeader MaxBackends s cs = Ok r /\
    match r with Some orders => expanded cs orders | None => exists u, tc (precedes cs) u u end.
Proof.
  intros H. pose proof (expand_ok (rev cs) [] []) as He. cbn in He. rewrite rev_involutive, app_nil_r in He. apply He; [done|apply NoDup_nil_2|done|].
  intros c Hc. by apply not_elem_of_nil in Hc.
Qed.

(** *** Testing a configuration *)

Context (startProc : ProcNumber) (Hstart : in_range MaxBackends (leader startProc)).

Definition tested (cs : list EDGE) : list ProcNumber := flat_map (fun c => [waiter c; blocker c]) cs ++ [startProc].

(** The soft edges of a cycle of one of the processes. *)
Definition found_edges (orders : list WAIT_ORDER) (procs : list ProcNumber) (edges : list EDGE) : Prop :=
  exists p steps, p ∈ procs /\ deadlock_cycle lockGroupLeader s orders (leader p) steps /\ edges = soft_of steps.

Definition hard_cycle (u : ProcNumber) : Prop := tc (hard_edge lockGroupLeader s) u u.

Lemma search_ok_range orders p av :
  orders_ok orders -> in_range MaxBackends (leader p) ->
  exists b st, FindLockCycle orders p av = Ok (b, st) /\
    if b then exists steps, deadlock_cycle lockGroupLeader s orders (leader p) steps /\ softEdges st = soft_of steps /\
      deadlockDetails st = st_info <$> steps /\ nDeadlockDetails st = length steps /\ (length steps <= MaxBackends)%nat
    else forall steps, ~ deadlock_cycle lockGroupLeader s orders (leader p) steps.
Proof. intros Ho Hp. apply FindLockCycle_ok; try done; [by apply sys_waits_ok with lockGroupLeader|]. intros u v. by apply waits_range. Qed.

(** A cycle without soft edges. *)
Lemma soft_of_nil orders u v steps :
  steps <> [] -> wait_path lockGroupLeader s orders u v steps -> soft_of steps = [] -> tc (hard_edge lockGroupLeader s) u v.
Proof.
  revert u. induction steps as [|x steps IH]; intros u Hne; [done|]. intros (Hx & <- & Hp) Hsoft. rewrite soft_of_cons in Hsoft.
  apply app_eq_nil in Hsoft as [Hsoft Hx']. destruct (st_soft x) eqn:Ex; [done|].
  pose proof (step_hard lockGroupLeader s orders x Hx Ex) as He. destruct steps as [|y steps].
  - cbn in Hp. rewrite <- Hp. by apply tc_once.
  - eapply tc_l; [done|]. by apply IH.
Qed.

Lemma test_procs_ok orders procs soft av :
  orders_ok orders -> (forall p, p ∈ procs -> in_range MaxBackends (leader p)) ->
  exists r av', test_procs lockGroupLeader lockGroupMembers is_autovacuum MaxBackends MyProc s orders procs soft av = Ok (r, av') /\
    match r with
    | None => exists p, p ∈ procs /\ hard_cycle (leader p)
    | Some edges => (edges = soft /\ forall p, p ∈ procs -> no_cycle orders (leader p)) \/ (edges <> [] /\ found_edges orders procs edges)
    end.
Proof.
  intros Ho. revert soft av. induction procs as [|p procs IH]; intros soft av Hr; cbn [test_procs].
  { exists (Some soft), av. split; [done|]. left. split; [done|]. intros p Hp. by apply not_elem_of_nil in Hp. }
  assert (Hr' : forall q, q ∈ procs -> in_range MaxBackends (leader q)) by (intros q Hq; apply Hr; by right).
  destruct (search_ok_range orders p av Ho) as (b & st & -> & Hb); [apply Hr; left|]. cbn [mbind result_bind]. destruct b.
  - destruct Hb as (steps & Hc & Es & _). destruct (softEdges st) as [|e es] eqn:Ee.
    + exists None, (blocking_autovacuum_proc st). split; [done|]. exists p. split; [left|]. destruct Hc as [Hne Hp].
      by eapply soft_of_nil.
    + destruct (IH (e :: es) (blocking_autovacuum_proc st) Hr') as (r & av' & -> & Hres). exists r, av'. split; [done|].
      destruct r as [edges|]; [|destruct Hres as (q & Hq & Hh); exists q; split; [by right|done]].
      right. destruct Hres as [[-> _]|(Hne & q & st' & Hq & Hcy & Ed)].
      * split; [done|]. exists p, steps. split; [left|]. done.
      * split; [done|]. exists q, st'. split; [by right|done].
  - destruct (IH soft (blocking_autovacuum_proc st) Hr') as (r & av' & -> & Hres). exists r, av'. split; [done|].
    destruct r as [edges|]; [|destruct Hres as (q & Hq & Hh); exists q; split; [by right|done]].
    destruct Hres as [[-> Hn]|(Hne & q & st' & Hq & Hcy & Ed)].
    + left. split; [done|]. intros q [->|Hq]%elem_of_cons; [by apply no_cycle_steps|by apply Hn].
    + right. split; [done|]. exists q, st'. split; [by right|done].
Qed.

Lemma tested_range cs p : Forall constraint_ok cs -> p ∈ tested cs -> in_range MaxBackends (leader p).
Proof.
  intros Hcs [Hp | ->%list_elem_of_singleton]%elem_of_app; [|done].
  apply list_elem_of_In, in_flat_map in Hp as (c & Hc%list_elem_of_In & Hp). rewrite Forall_forall in Hcs.
  destruct (constraint_range c (Hcs c Hc)). by destruct Hp as [<-|[<-|[]]].
Qed.

Abbreviation TestConfiguration := (TestConfiguration lockGroupLeader lockGroupMembers is_autovacuum MaxBackends MyProc s startProc).

(** The configuration has no deadlock. *)
Definition good (cs : list EDGE) (orders : list WAIT_ORDER) : Prop :=
  expanded cs orders /\ forall p, p ∈ tested cs -> no_cycle orders (leader p).

Lemma TestConfiguration_ok cs nPossible av :
  Forall constraint_ok cs -> (nPossible <= MaxBackends * 3)%nat ->
  exists r av', TestConfiguration cs nPossible av = Ok (r, av') /\
    match r with
    | None => (exists u, tc (precedes cs) u u) \/ exists p, p ∈ tested cs /\ hard_cycle (leader p)
    | Some ([], orders) => good cs orders
    | Some (edges, orders) => expanded cs orders /\ found_edges orders (tested cs) edges
    end.
Proof.
  intros Hcs Hn. unfold Deadlock.TestConfiguration, maxPossibleConstraints.
  destruct (Nat.ltb_spec (MaxBackends * 4) (nPossible + MaxBackends)); [lia|].
  destruct (ExpandConstraints_ok cs Hcs) as (r & -> & Hr). cbn [mbind result_bind]. destruct r as [orders|].
  2: { exists None, av. split; [done|]. by left. }
  destruct (test_procs_ok orders (tested cs) [] av) as (r & av' & E & Hres);
    [by eapply expanded_ok|intros p; by apply tested_range|]. unfold tested in E at 1. rewrite E. cbn [mbind result_bind].
  destruct r as [edges|]; cbn [option_map]; eexists _, av'; (split; [done|]); [|by right].
  destruct Hres as [[-> Hno]|[Hne Hf]]; [done|]. by destruct edges.
Qed.

(** The result does not depend on the autovacuum worker. *)
Lemma test_procs_blind orders procs soft av av' :
  fst <$> test_procs lockGroupLeader lockGroupMembers is_autovacuum MaxBackends MyProc s orders procs soft av =
  fst <$> test_procs lockGroupLeader lockGroupMembers is_autovacuum MaxBackends MyProc s orders procs soft av'.
Proof.
  revert soft av av'. induction procs as [|p procs IH]; intros soft av av'; cbn [test_procs]; [done|].
  pose proof (FindLockCycle_blind lockGroupLeader lockGroupMembers is_autovacuum MaxBackends MyProc s orders p av av') as H.
  unfold same_outcome in H. destruct (FindLockCycle orders p av) as [[b st]|e], (FindLockCycle orders p av') as [[b' st']|e']; try done; [|by rewrite H].
  destruct H as [-> (_ & Hsoft & _)]. cbn [mbind result_bind]. rewrite Hsoft. destruct b'; [destruct (softEdges st')|]; (done || apply IH).
Qed.

Lemma TestConfiguration_blind cs nPossible av av' :
  fst <$> TestConfiguration cs nPossible av = fst <$> TestConfiguration cs nPossible av'.
Proof.
  unfold Deadlock.TestConfiguration. destruct (Nat.ltb _ _); [done|].
  destruct (ExpandConstraints lockGroupLeader MaxBackends s cs) as [[orders|]|e]; cbn [mbind result_bind]; [|done|done].
  pose proof (test_procs_blind orders (flat_map (fun c => [waiter c; blocker c]) cs ++ [startProc]) [] av av') as H.
  destruct (test_procs _ _ _ _ _ _ _ _ _ av) as [[r x]|e], (test_procs _ _ _ _ _ _ _ _ _ av') as [[r' x']|e']; cbn in H; try done.
  - injection H as ->. done.
  - injection H as ->. done.
Qed.

(** *** Rearrangements that solve the deadlock *)

(** The pairs of processes in the queues, first before second. *)
Fixpoint pairs_of (t : LOCKTAG) (queue : list PGPROC) : list EDGE :=
  match queue with
  | [] => []
  | w :: queue => ((fun b => mkEDGE (wleader w) (wleader b) t) <$> queue) ++ pairs_of t queue
  end.

Definition order_pairs (orders : list WAIT_ORDER) : list EDGE := concat ((fun o => pairs_of (wo_lock o) (wo_procs o)) <$> orders).

(** An order for every queue, and no cycle in the graph. *)
Definition complete_orders (orders : list WAIT_ORDER) : Prop :=
  orders_ok orders /\ forall t lock, LockMethodLockHash s !! t = Some lock -> t ∈ wo_lock <$> orders.

Definition solution (cs : list EDGE) (orders : list WAIT_ORDER) : Prop :=
  complete_orders orders /\ (forall u, no_cycle orders u) /\
  forall c o, c ∈ cs -> o ∈ orders -> wo_lock o = edge_lock c -> respects lockGroupLeader (wo_procs o) c.

Lemma complete_order orders t lock :
  complete_orders orders -> LockMethodLockHash s !! t = Some lock ->
  exists o, o ∈ orders /\ wo_lock o = t /\ find_order orders t = Some o /\ wo_procs o ≡ₚ waitProcs lock /\ adjacent lockGroupLeader (wo_procs o).
Proof.
  intros [[Hnd Hf] Hall] Hl. pose proof (Hall t lock Hl) as (o & -> & Ho)%list_elem_of_fmap. exists o. split; [done|]. split; [done|].
  split; [by apply find_order_elem|]. rewrite Forall_forall in Hf. destruct (Hf o Ho) as (l & El & Hp & Ha).
  assert (l = lock) as -> by congruence. done.
Qed.

Lemma pairs_of_elem t queue i j w b :
  (i < j)%nat -> queue !! i = Some w -> queue !! j = Some b -> mkEDGE (wleader w) (wleader b) t ∈ pairs_of t queue.
Proof.
  revert i j. induction queue as [|x queue IH]; intros i j Hij Hi Hj; [done|]. cbn [pairs_of]. apply elem_of_app.
  destruct j as [|j]; [lia|]. destruct i as [|i].
  - left. injection Hi as ->. apply (list_elem_of_fmap_2 (fun b => mkEDGE (wleader w) (wleader b) t)). by eapply list_elem_of_lookup_2.
  - right. apply (IH i j); [lia|done|done].
Qed.

(** What a solution respects are pairs of its queues. *)
Lemma solution_pairs cs orders : Forall constraint_ok cs -> solution cs orders -> forall c, c ∈ cs -> c ∈ order_pairs orders.
Proof.
  intros Hcs (Hco & _ & Hr) c Hc. rewrite Forall_forall in Hcs.
  destruct (Hcs c Hc) as (_ & lock & lmt & w & b & Hl & _ & _ & Hw & Hb & Ew & Eb & _).
  destruct (complete_order orders _ lock Hco Hl) as (o & Ho & Ht & _ & Hp & _).
  rewrite <- Hp in Hw, Hb. apply list_elem_of_lookup_1 in Hw as [i Hi], Hb as [j Hj].
  pose proof (Hr c o Hc Ho Ht i j w b Hi Hj Ew Eb) as Hij. unfold order_pairs.
  apply list_elem_of_In, in_concat. exists (pairs_of (wo_lock o) (wo_procs o)). split.
  - by apply list_elem_of_In, (list_elem_of_fmap_2 (fun o => pairs_of (wo_lock o) (wo_procs o))).
  - apply list_elem_of_In. pose proof (pairs_of_elem (wo_lock o) _ i j w b Hij Hi Hj) as H. rewrite Ew, Eb, Ht in H. rewrite Ht. by destruct c.
Qed.

(** In a solution, a constraint is an edge the other way round. *)
Lemma solution_edge cs orders u v :
  Forall constraint_ok cs -> solution cs orders -> precedes cs u v -> waits_for orders v u.
Proof.
  intros Hcs (Hco & _ & Hr) (c & Hc & <- & <-). rewrite Forall_forall in Hcs.
  destruct (Hcs c Hc) as (Hne & lock & lmt & w & b & Hl & Hlmt & Hx & Hw & Hb & Ew & Eb & Hcf).
  destruct (complete_order orders _ lock Hco Hl) as (o & Ho & Ht & Hfo & Hp & _).
  assert (Hwl : waitLock (backend s (procNumber b)) = Some (edge_lock c, waitLockMode b)).
  { apply (ag_waits _ _ (sys_agree _ _ Hs)). exists lock. split; [done|]. by exists b. }
  apply waits_for_spec; [done|done|apply Hco|]. right. exists (edge_lock c), (procNumber b), (waitLockMode b), lock, lmt, w.
  split_and!; try done.
  - unfold queue_under. rewrite Hfo. pose proof Hw as Hw'. rewrite <- Hp in Hw, Hb.
    apply list_elem_of_lookup_1 in Hw as [i Hi], Hb as [j Hj].
    exists i, j, b. split_and!; try done; [|congruence]. exact (Hr c o Hc Ho Ht i j w b Hi Hj Ew Eb).
  - destruct (sys_lookup lockGroupLeader s _ lock Hs Hl) as (_ & lmt' & Em & Hok & Hi). assert (lmt' = lmt) as -> by congruence.
    pose proof (wf_waiters _ _ _ _ (inv_wf _ _ _ Hi)) as Hwf. rewrite Forall_forall in Hwf.
    destruct (Hwf w Hw) as [Hm1 _], (Hwf b Hb) as [Hm2 _]. by apply conflicts_sym.
Qed.

Lemma solution_consistent cs orders u : Forall constraint_ok cs -> solution cs orders -> ~ tc (precedes cs) u u.
Proof.
  intros Hcs Hsol Ht. pose proof Hsol as (_ & Hno & _). apply (Hno u).
  assert (Hrev : forall a b, tc (precedes cs) a b -> tc (waits_for orders) b a).
  { induction 1 as [a b H|a b d H _ IH]; [apply tc_once; by eapply solution_edge|].
    eapply tc_r; [done|]. by eapply solution_edge. }
  by apply Hrev.
Qed.

Lemma hard_waits orders u v : orders_ok orders -> hard_edge lockGroupLeader s u v -> waits_for orders u v.
Proof. intros Ho H. apply waits_for_spec; [done|done|done|by left]. Qed.

Lemma hard_cycle_any orders u : orders_ok orders -> hard_cycle u -> ~ no_cycle orders u.
Proof. intros Ho H Hn. apply Hn. eapply tc_mono; [|exact H]. intros a b. by apply hard_waits. Qed.

(** A soft edge stays one under an order, or the order reverses it. *)
Lemma soft_edge_or_reversed orders orders' t u v :
  orders_ok orders -> complete_orders orders' -> soft_edge lockGroupLeader s orders t u v ->
  waits_for orders' u v \/ forall o, o ∈ orders' -> wo_lock o = t -> respects lockGroupLeader (wo_procs o) (mkEDGE u v t).
Proof.
  intros Ho Hco (p & m & lock & lmt & w & Hp & Hw & Ht & Hl & Hlmt & Ha & Hv & Hc).
  pose proof (ahead_in_queue _ _ _ _ _ Ho Hl Ha) as Hin. destruct Ha as (_ & _ & _ & _ & _ & _ & _ & Hne).
  destruct (complete_order orders' t lock Hco Hl) as (o & Hoo & Et & Hfo & Hperm & Hadj).
  rewrite <- Hperm in Hin. apply list_elem_of_lookup_1 in Hin as [i Hi].
  destruct (decide (Exists (fun x => wleader x = u) (drop (S i) (wo_procs o)))) as [He|He].
  - left. apply Exists_exists in He as (x & [k Hk]%list_elem_of_lookup_1 & Ex). rewrite lookup_drop in Hk.
    apply waits_for_spec; [done|done|apply Hco|]. right. exists t, p, m, lock, lmt, w. split_and!; try done.
    unfold queue_under. rewrite Hfo. exists i, (S i + k)%nat, x. split_and!; try done. lia.
  - right. intros o' Ho' Et'. assert (o' = o) as ->.
    { destruct Hco as [[Hnd _] _]. pose proof (find_order_elem orders' o' Hnd Ho') as E. rewrite Et' in E. congruence. }
    intros k l x b Hk Hlb Ex Eb. cbn in Ex, Eb.
    assert (Hki : (k < i)%nat).
    { apply Nat.nle_gt. intros Hle. assert (k <> i) by (intros ->; congruence). apply He, Exists_exists. exists x. split; [|done].
      apply list_elem_of_lookup_2 with (k - S i)%nat. rewrite lookup_drop, <- Hk. f_equal. lia. }
    apply Nat.nle_gt. intros Hle. assert (l <> k) by (intros ->; congruence).
    assert (wleader x = wleader b); [|congruence]. apply (Hadj l k i b x w); [lia|done|done|done|congruence].
Qed.

Lemma cycle_reversed orders orders' u v steps :
  orders_ok orders -> complete_orders orders' -> steps <> [] -> wait_path lockGroupLeader s orders u v steps ->
  tc (waits_for orders') u v \/
  exists x, x ∈ steps /\ st_soft x = true /\ step_ok lockGroupLeader s orders x /\
    forall o, o ∈ orders' -> wo_lock o = edge_lock (st_edge x) -> respects lockGroupLeader (wo_procs o) (st_edge x).
Proof.
  intros Ho Hco. revert u. induction steps as [|x steps IH]; intros u Hne; [done|]. intros (Hx & <- & Hp).
  assert (Hedge : waits_for orders' (waiter (st_edge x)) (blocker (st_edge x)) \/
    (st_soft x = true /\ forall o, o ∈ orders' -> wo_lock o = edge_lock (st_edge x) -> respects lockGroupLeader (wo_procs o) (st_edge x))).
  { destruct (st_soft x) eqn:Ex.
    - destruct (soft_edge_or_reversed orders orders' _ _ _ Ho Hco (step_soft lockGroupLeader s orders x Hqs Ho Hx Ex)) as [H|H]; [by left|].
      right. split; [done|]. by destruct (st_edge x).
    - left. apply hard_waits; [apply Hco|]. by eapply step_hard. }
  destruct Hedge as [He|[Hsx Hr]]; [|right; exists x; split; [left|done]].
  destruct steps as [|y steps]; [left; cbn in Hp; rewrite <- Hp; by apply tc_once|].
  destruct (IH _ ltac:(done) Hp) as [H|(z & Hz & H)]; [left; by eapply tc_l|right; exists z; split; [by right|done]].
Qed.

Lemma soft_of_elem x steps : x ∈ steps -> st_soft x = true -> st_edge x ∈ soft_of steps.
Proof.
  intros Hx Hs'. unfold soft_of. rewrite <- Permutation_rev. apply list_elem_of_fmap_2, list_elem_of_filter. done.
Qed.

(** The order of the configuration respects its constraints, so a soft edge of a cycle
    is a new one. *)
Lemma soft_edge_new cs orders c :
  expanded cs orders -> soft_edge lockGroupLeader s orders (edge_lock c) (waiter c) (blocker c) -> c ∉ cs.
Proof.
  intros Hex (p & m & lock & lmt & w & _ & _ & _ & Hl & _ & (i & k & x & Hik & Hi & Hk & Hx & _) & Hv & _) Hc.
  destruct Hex as (Hnd & Hg & Hall). pose proof (Hall c Hc) as (o & Et & Ho)%list_elem_of_fmap.
  unfold queue_under in Hi, Hk. rewrite Et, (find_order_elem orders o Hnd Ho) in Hi, Hk.
  rewrite Forall_forall in Hg. destruct (Hg o Ho) as (_ & _ & _ & _ & _ & Hr & _).
  pose proof (Hr c Hc Et k i x w Hk Hi Hx Hv). lia.
Qed.

Lemma solution_extends cs orders edges orders' :
  Forall constraint_ok cs -> expanded cs orders -> found_edges orders (tested cs) edges -> solution cs orders' ->
  exists c, c ∈ edges /\ c ∉ cs /\ solution (cs ++ [c]) orders'.
Proof.
  intros Hcs Hex (p & steps & _ & [Hne Hp] & ->) Hsol. pose proof Hsol as (Hco & Hno & Hr).
  pose proof (expanded_ok cs orders Hex) as Ho.
  destruct (cycle_reversed orders orders' _ _ steps Ho Hco Hne Hp) as [Ht|(x & Hx & Hsx & Hok & Hrx)]; [by destruct (Hno (leader p))|].
  pose proof (step_soft lockGroupLeader s orders x Hqs Ho Hok Hsx) as He. exists (st_edge x). split_and!.
  - by apply soft_of_elem.
  - by eapply soft_edge_new.
  - split; [done|]. split; [done|]. intros c o [Hc | ->%list_elem_of_singleton]%elem_of_app Hoo Et; [by apply Hr|by apply Hrx].
Qed.

Lemma found_constraints orders procs edges : orders_ok orders -> found_edges orders procs edges -> Forall constraint_ok edges.
Proof.
  intros Ho (p & steps & _ & [_ Hp] & ->). apply Forall_forall. intros c Hc. unfold soft_of in Hc. rewrite <- Permutation_rev in Hc.
  apply list_elem_of_fmap in Hc as (x & -> & [Hsx Hx]%list_elem_of_filter). apply (soft_edge_constraint orders); [done|].
  apply step_soft; try done. clear Hsx. revert Hp Hx. generalize (leader p) at 1. induction steps as [|y steps IH]; intros u Hp Hx; [by apply not_elem_of_nil in Hx|].
  destruct Hp as (Hy & _ & Hp). apply elem_of_cons in Hx as [->|Hx]; [done|by eapply IH].
Qed.

(** *** The search for a rearrangement *)

(** What a level of the search promises: a configuration without deadlock, or that
    no order of the queues that satisfies the constraints is free of cycles. The
    exception is a search that ran into the limit of [MaxBackends] constraints. *)
Definition search_result (cs : list EDGE) (r : option (list WAIT_ORDER)) : Prop :=
  match r with
  | Some orders => exists cs', Forall constraint_ok cs' /\ good cs' orders
  | None => NoDup cs -> forall orders, solution cs orders -> (MaxBackends <= length (order_pairs orders))%nat
  end.

Lemma try_edges_ok test rec savedList edges orders P i todo av :
  (forall av, exists av', test av = Ok (Some (edges, orders), av')) ->
  (forall c av, c ∈ edges -> exists r av', rec c av = Ok (r, av') /\ P c r) ->
  (i + todo = length edges)%nat ->
  exists r av', try_edges test rec savedList edges i todo av = Ok (r, av') /\
    match r with
    | Some _ => exists c, c ∈ edges /\ P c r
    | None => forall j c, (i <= j)%nat -> edges !! j = Some c -> P c r
    end.
Proof.
  intros Ht Hrec. revert i av. induction todo as [|todo IH]; intros i av Hi; cbn [try_edges].
  { exists None, av. split; [done|]. intros j c Hj Hc. apply lookup_lt_Some in Hc. lia. }
  assert (Hlist : exists av', (if negb savedList && (0 <? i)%nat then
           '(again, autovacuum) ← test av;
           match again with
           | Some (edges', _) =>
               if (length edges' =? length edges)%nat then Ok (edges', autovacuum)
               else ereport ERRCODE_INTERNAL_ERROR "inconsistent results during deadlock check"
           | None => ereport ERRCODE_INTERNAL_ERROR "inconsistent results during deadlock check"
           end
         else Ok (edges, av)) = Ok (edges, av')).
  { destruct (_ && _); [|by exists av]. destruct (Ht av) as (av' & ->). exists av'. cbn. by rewrite Nat.eqb_refl. }
  destruct Hlist as (av1 & ->). cbn [mbind result_bind].
  destruct (lookup_lt_is_Some_2 edges i) as [c Hc]; [lia|]. rewrite Hc.
  destruct (Hrec c av1) as (r & av2 & -> & HP); [by eapply list_elem_of_lookup_2|]. cbn [mbind result_bind].
  destruct r as [orders'|].
  - exists (Some orders'), av2. split; [done|]. exists c. split; [by eapply list_elem_of_lookup_2|done].
  - destruct (IH (S i) av2) as (r & av3 & -> & Hr); [lia|]. exists r, av3. split; [done|]. destruct r; [done|].
    intros j c' Hj Hc'. destruct (decide (j = i)) as [->|Hne]; [congruence|]. apply (Hr j c'); [lia|done].
Qed.

Abbreviation DeadLockCheckRecurse :=
  (DeadLockCheckRecurse lockGroupLeader lockGroupMembers is_autovacuum MaxBackends MyProc s).

Lemma test_again cs nPossible av r av' :
  TestConfiguration cs nPossible av = Ok (r, av') -> forall av1, exists av2, TestConfiguration cs nPossible av1 = Ok (r, av2).
Proof.
  intros E av1. pose proof (TestConfiguration_blind cs nPossible av av1) as H. rewrite E in H.
  destruct (TestConfiguration cs nPossible av1) as [[r' av2]|e]; cbn in H; [|done]. injection H as <-. by exists av2.
Qed.

Lemma DeadLockCheckRecurse_ok fuel : forall cs nPossible av,
  Forall constraint_ok cs -> (nPossible <= MaxBackends * 3)%nat -> (length cs <= MaxBackends < length cs + fuel)%nat ->
  exists r av', DeadLockCheckRecurse fuel startProc cs nPossible av = Ok (r, av') /\ search_result cs r.
Proof.
  induction fuel as [|fuel IH]; intros cs nPossible av Hcs Hn Hf; [lia|]. cbn [Deadlock.DeadLockCheckRecurse].
  destruct (TestConfiguration_ok cs nPossible av Hcs Hn) as (r & av1 & E & Hr). rewrite E. cbn [mbind result_bind].
  destruct r as [[edges orders]|].
  2: { exists None, av1. split; [done|]. intros _ O Hsol. exfalso.
       destruct Hr as [(u & Hu)|(p & _ & Hh)]; [by eapply solution_consistent|].
       destruct Hsol as ((Ho & _) & Hno & _). by apply (hard_cycle_any O (leader p)). }
  destruct edges as [|e es]; [exists (Some orders), av1; split; [done|]; by exists cs|].
  destruct Hr as [Hex Hfound]. set (edges := e :: es) in *.
  destruct (Nat.leb_spec MaxBackends (length cs)) as [Hle|Hlt].
  { exists None, av1. split; [done|]. intros Hnd O Hsol. etransitivity; [exact Hle|].
    apply submseteq_length, NoDup_submseteq; [done|]. intros c. by apply solution_pairs. }
  pose proof (found_constraints orders _ edges (expanded_ok cs orders Hex) Hfound) as Hedges. rewrite Forall_forall in Hedges.
  set (saved := (nPossible + length edges + MaxBackends <=? maxPossibleConstraints MaxBackends)%nat).
  assert (Hnp : ((if saved then nPossible + length edges else nPossible) <= MaxBackends * 3)%nat).
  { unfold saved, maxPossibleConstraints. destruct (Nat.leb_spec (nPossible + length edges + MaxBackends) (MaxBackends * 4)); lia. }
  destruct (try_edges_ok (TestConfiguration cs nPossible)
    (fun c => DeadLockCheckRecurse fuel startProc (cs ++ [c]) (if saved then nPossible + length edges else nPossible)%nat)
    saved edges orders (fun c => search_result (cs ++ [c])) 0 (length edges) av1) as (r & av2 & Er & Hr).
  - by eapply test_again.
  - intros c av2 Hc. apply IH; [|done|rewrite length_app; cbn; lia]. apply Forall_app. split; [done|].
    apply Forall_singleton. by apply Hedges.
  - done.
  - exists r, av2. split; [done|]. destruct r as [orders'|].
    + by destruct Hr as (c & _ & Hr).
    + intros Hnd O Hsol. destruct (solution_extends cs orders edges O Hcs Hex Hfound Hsol) as (c & [j Hj]%list_elem_of_lookup_1 & Hn' & Hsol').
      apply (Hr j c); [lia|done| |done]. apply NoDup_app. split; [done|]. split; [|apply NoDup_singleton].
      intros x Hx ->%list_elem_of_singleton. done.
Qed.

(** *** No deadlock anywhere *)

Lemma orders_ok_nil : orders_ok [].
Proof. split; [apply NoDup_nil_2|done]. Qed.

(** A new edge leads to the waiter of a constraint. *)
Lemma edge_kept_or_constrained cs orders u v :
  expanded cs orders -> waits_for orders u v -> waits_for [] u v \/ exists c, c ∈ cs /\ waiter c = v.
Proof.
  intros Hex Hw. pose proof (expanded_ok cs orders Hex) as Ho. pose proof orders_ok_nil as Hnil.
  apply (waits_for_spec lockGroupLeader s orders u v Hqs Ho) in Hw as [Hh|(t & p & m & lock & lmt & w & Hp & Hwl & Ht & Hl & Hlmt & Ha & Hv & Hc)];
    [left; by apply hard_waits|].
  assert (Hkeep : ahead_of lockGroupLeader (waitProcs lock) u w -> waits_for [] u v).
  { intros Ha'. apply waits_for_spec; [done|done|done|]. right. exists t, p, m, lock, lmt, w. done. }
  unfold queue_under in Ha. destruct (find_order orders t) as [o|] eqn:Eo; [|left; by apply Hkeep].
  apply find_order_Some in Eo as [Hoo <-]. destruct Hex as (_ & Hg & _). rewrite Forall_forall in Hg.
  destruct (Hg o Hoo) as (lock' & El' & Hperm & _ & Hover & _). assert (lock' = lock) as -> by congruence.
  destruct Ha as (i & k & x & Hik & Hi & Hk & Hx & Hne).
  destruct (Hover i k w x Hik Hi Hk) as [(c & Hcs & Ec)|(a & b & y & Hab & Hya & Hyb & Ey)]; [congruence| |].
  - right. exists c. split; [done|congruence].
  - left. apply Hkeep. exists a, b, y. split_and!; try done. congruence.
Qed.

(** If every cycle of the actual graph goes through the process that checks, a good
    configuration has none. *)
Lemma good_no_cycle cs orders :
  Forall constraint_ok cs -> good cs orders -> (forall u, ~ tc (fun a b => waits_for [] a b /\ a <> leader startProc) u u) -> forall u, no_cycle orders u.
Proof.
  intros Hcs [Hex Hno] H0 u Hu. rewrite Forall_forall in Hcs.
  assert (Hpath : forall a b, tc (waits_for orders) a b -> tc (fun a b => waits_for [] a b /\ a <> leader startProc) a b \/
    exists z, no_cycle orders z /\ rtc (waits_for orders) a z /\ rtc (waits_for orders) z b).
  { assert (Hstep : forall a b, waits_for orders a b -> (waits_for [] a b /\ a <> leader startProc) \/
      exists z, no_cycle orders z /\ rtc (waits_for orders) a z /\ rtc (waits_for orders) z b).
    { intros a b Hab. destruct (decide (a = leader startProc)) as [->|Hne].
      - right. exists (leader startProc). split; [apply Hno; unfold tested; set_solver|]. split; [done|by apply rtc_once].
      - destruct (edge_kept_or_constrained cs orders a b Hex Hab) as [H|(c & Hc & <-)]; [by left|]. right. exists (waiter c).
        split; [|split; [by apply rtc_once|done]]. intros Ht. apply (Hno (waiter c)).
        + unfold tested. apply elem_of_app. left. apply list_elem_of_In, in_flat_map. exists c. split; [by apply list_elem_of_In|by left].
        + destruct (constraint_leaders c (Hcs c Hc)) as [-> _]. done. }
    induction 1 as [a b Hab|a b d Hab Hbd IH].
    - destruct (Hstep a b Hab) as [H|H]; [left; by apply tc_once|by right].
    - destruct (Hstep a b Hab) as [H|(z & H1 & H2 & H3)].
      + destruct IH as [IH|(z & H1 & H2 & H3)]; [left; by eapply tc_l|]. right. exists z. split; [done|]. split; [by eapply rtc_l|done].
      + right. exists z. split; [done|]. split; [done|]. etransitivity; [done|]. by apply tc_rtc. }
  destruct (Hpath u u Hu) as [H|(z & Hz & H1 & H2)]; [by apply (H0 u)|]. apply Hz. by eapply tc_rtc_loop.
Qed.

(** Without a cycle through the process there is nothing to rearrange. *)
Lemma check_clear av :
  no_cycle [] (leader startProc) -> exists av', DeadLockCheckRecurse (S MaxBackends) startProc [] 0 av = Ok (Some [], av').
Proof.
  intros Hno. cbn [Deadlock.DeadLockCheckRecurse]. unfold Deadlock.TestConfiguration, maxPossibleConstraints.
  destruct (Nat.ltb_spec (MaxBackends * 4) (0 + MaxBackends)); [lia|]. cbn [mbind result_bind ExpandConstraints rev expand flat_map app].
  destruct (test_procs_ok [] [startProc] [] av) as (r & av' & E & Hr); [apply orders_ok_nil|by intros p ->%list_elem_of_singleton|].
  change (ExpandConstraints lockGroupLeader MaxBackends s []) with (Ok (Some ([] : list WAIT_ORDER))). cbn [mbind result_bind].
  rewrite E. cbn [mbind result_bind]. exists av'. destruct r as [edges|]; cbn [option_map].
  - destruct Hr as [[-> _]|(_ & p & steps & ->%list_elem_of_singleton & Hc & _)]; [done|].
    destruct (proj1 (no_cycle_steps lockGroupLeader s [] (leader startProc)) Hno steps Hc).
  - destruct Hr as (p & ->%list_elem_of_singleton & Hh). destruct (hard_cycle_any [] (leader startProc)); [apply orders_ok_nil|done|done].
Qed.

End Configuration.
