(* ===== verification/DeadlockFree.v ===== *)
(** * No deadlock is left

    What [DeadLockCheck] and [CheckDeadLock] ([src/src/backend/storage/lmgr/deadlock.c]
    and proc.c) leave in the lock table: rearranging queues and waking processes adds
    no edge to the waits-for graph of the chosen configuration, and neither does
    leaving the queue. *)

From S2P Require Import Prelude LockObject LockTable Deadlock DeadlockSort DeadlockCheck.
From stdpp Require Import gmap.
#[local] Open Scope Z_scope.

(** ** The order of wakeups *)

Section Wakeup.

Context (lmt : LockMethodData) (lockGroupLeader : ProcNumber -> option ProcNumber).

(** A process that is woken does not conflict with one that stays ahead of it. *)
Definition woken_in_order (queue : list PGPROC) (woken : list ProcNumber) : Prop :=
  forall i j x w, (i < j)%nat -> queue !! i = Some x -> queue !! j = Some w -> procNumber x ∉ woken -> procNumber w ∈ woken ->
    ~ conflicts lmt (waitLockMode w) (waitLockMode x).

Lemma land_no_conflict a b i : 0 <= i -> Z.land a b = 0 -> Z.testbit b i = true -> Z.testbit a i = false.
Proof. intros Hi H Hb. assert (E := Z.land_spec a b i). rewrite H, Z.bits_0, Hb, andb_true_r in E. done. Qed.

Lemma testbit_LOCKBIT_self m : 0 <= m -> Z.testbit (LOCKBIT_ON m) m = true.
Proof. intros Hm. unfold LOCKBIT_ON. rewrite Z.shiftl_spec by done. by rewrite Z.sub_diag. Qed.

Lemma wakeup_loop_order MyProc queue : forall ahead l l' woken,
  wakeup_loop lmt lockGroupLeader MyProc queue ahead l = Ok (l', woken) ->
  NoDup (procNumber <$> queue) -> Forall (fun w => 0 <= waitLockMode w) queue ->
  (forall p, p ∈ woken -> p ∈ procNumber <$> queue) /\ woken_in_order queue woken /\
  forall j w, queue !! j = Some w -> procNumber w ∈ woken ->
    forall i, 0 <= i -> Z.testbit ahead i = true -> Z.testbit (conflict lmt (waitLockMode w)) i = false.
Proof.
  induction queue as [|x queue IH]; intros ahead l l' woken E Hnd Hm; cbn [wakeup_loop] in E.
  { injection E as <- <-. split; [by intros p Hp|]. split; [|done]. by intros i j y w _ Hy. }
  destruct (find_proclock l (procNumber x)) as [pl|]; [|done].
  cbn in Hnd. apply NoDup_cons in Hnd as [Hx Hnd]. apply Forall_cons in Hm as [Hmx Hm].
  destruct (if Z.land (conflict lmt (waitLockMode x)) ahead =? 0 then _ else _) as [b|e] eqn:Eb; cbn [mbind result_bind] in E; [|done].
  destruct b; cbn [negb] in E.
  - destruct (IH _ _ _ _ E Hnd Hm) as (H1 & H2 & H3). split_and!.
    + intros p Hp. right. by apply H1.
    + intros i [|j] y w Hij Hy Hw Hyn Hwn; [lia|]. destruct i as [|i].
      * injection Hy as <-. unfold conflicts. intros Hc. rewrite (H3 j w Hw Hwn (waitLockMode x) Hmx) in Hc; [done|].
        by rewrite Z.lor_spec, testbit_LOCKBIT_self, orb_true_r.
      * apply (H2 i j y w); [lia|done..].
    + intros [|j] w Hw Hwn i Hi Ha.
      * injection Hw as <-. destruct Hx. by apply H1.
      * apply (H3 j w Hw Hwn i Hi). by rewrite Z.lor_spec, Ha.
  - destruct (wakeup_loop _ _ _ queue _ _) as [[l1 woken1]|e] eqn:E1; cbn [mbind result_bind] in E; [|done]. injection E as <- <-.
    destruct (IH _ _ _ _ E1 Hnd Hm) as (H1 & H2 & H3).
    assert (Hin : forall w, w ∈ queue -> procNumber w ∈ procNumber x :: woken1 -> procNumber w ∈ woken1).
    { intros w Hw [Ew|Hwn]%elem_of_cons; [|done]. destruct Hx. rewrite <- Ew. by apply list_elem_of_fmap_2. }
    split_and!.
    + intros p [->|Hp]%elem_of_cons; [left|right; by apply H1].
    + intros i [|j] y w Hij Hy Hw Hyn Hwn; [lia|]. apply not_elem_of_cons in Hyn as [Hy0 Hyn]. destruct i as [|i]; [by injection Hy as <-|].
      apply (H2 i j y w); try done; [lia|]. apply Hin; [by eapply list_elem_of_lookup_2|done].
    + intros [|j] w Hw Hwn i Hi Ha.
      * injection Hw as <-. destruct (Z.eqb_spec (Z.land (conflict lmt (waitLockMode x)) ahead) 0) as [Ez|]; [|done].
        by eapply land_no_conflict.
      * apply (H3 j w Hw); try done. apply Hin; [by eapply list_elem_of_lookup_2|done].
Qed.

Lemma ProcLockWakeup_order MyProc l l' woken :
  ProcLockWakeup lmt lockGroupLeader MyProc l = Ok (l', woken) ->
  NoDup (procNumber <$> waitProcs l) -> Forall (fun w => 0 <= waitLockMode w) (waitProcs l) -> woken_in_order (waitProcs l) woken.
Proof. intros E Hnd Hm. by destruct (wakeup_loop_order MyProc _ _ _ _ _ E Hnd Hm) as (_ & H & _). Qed.

(** Withdrawing a request wakes processes in order. *)
Lemma RemoveFromWaitQueue_order MyProc l p m r woken :
  RemoveFromWaitQueue lmt lockGroupLeader MyProc l p m = Ok (r, woken) ->
  NoDup (procNumber <$> waitProcs l) -> Forall (fun w => 0 <= waitLockMode w) (waitProcs l) ->
  woken_in_order (waitProcs (remove_waiter p l)) woken.
Proof.
  unfold RemoveFromWaitQueue, CleanUpLock. match goal with |- context [drop_idle_proclock p ?x] => set (l1 := x) end. set (d := drop_idle_proclock p l1).
  assert (Hd : waitProcs d = waitProcs (remove_waiter p l)).
  { unfold d, drop_idle_proclock, l1. destruct (find_proclock _ p) as [pl|]; [|by destruct (_ =? _)].
    destruct (holdMask pl =? 0); by destruct (_ =? _). }
  intros E Hnd Hm. destruct (nRequested d =? 0); [injection E as <- <-; intros i j x w _ _ _ _ Hw; by apply not_elem_of_nil in Hw|].
  destruct (ProcLockWakeup lmt lockGroupLeader MyProc d) as [[l2 woken2]|e] eqn:Ew; cbn [mbind result_bind] in E; [|done].
  injection E as <- <-. rewrite <- Hd. eapply ProcLockWakeup_order; [done| |]; rewrite Hd; cbn.
  - eapply sublist_NoDup; [exact Hnd|]. apply fmap_sublist, sublist_filter.
  - apply Forall_forall. intros w [_ Hw]%list_elem_of_filter. rewrite Forall_forall in Hm. by apply Hm.
Qed.

End Wakeup.

(** ** Wakeups add no edges *)

Section Shrink.

Context (lockGroupLeader : ProcNumber -> option ProcNumber) `{!GroupsOK lockGroupLeader}.

Abbreviation leader := (group_leader lockGroupLeader).
Abbreviation wleader := (wleader lockGroupLeader).

Definition edge (s : LockState) (orders : list WAIT_ORDER) (u v : ProcNumber) : Prop :=
  hard_edge lockGroupLeader s u v \/ exists t, soft_edge lockGroupLeader s orders t u v.

(** [s'] comes from [s] by the wakeup of some processes in the queue of [t]. *)
Record woken_state (s s' : LockState) (orders orders' : list WAIT_ORDER) (t : LOCKTAG) (woken : list ProcNumber) : Prop := {
  ws_waits : forall q k, waitLock (backend s' q) = Some k -> waitLock (backend s q) = Some k /\ q ∉ woken;
  ws_other : forall t', t' <> t -> LockMethodLockHash s' !! t' = LockMethodLockHash s !! t' /\ find_order orders' t' = find_order orders t';
  ws_lock : forall l', LockMethodLockHash s' !! t = Some l' -> exists l lmt, LockMethodLockHash s !! t = Some l /\
    LockMethods (locktag_lockmethodid t) = Some lmt /\
    let queue := queue_under orders t l in
    queue_under orders' t l' = filter (fun w => procNumber w ∉ woken) queue /\
    (forall p m, waitLock (backend s p) = Some (t, m) -> exists w, w ∈ queue /\ procNumber w = p /\ waitLockMode w = m) /\
    (forall p m, lock_holds l' p m -> lock_holds l p m \/ (p ∈ woken /\ exists w, w ∈ queue /\ procNumber w = p /\ waitLockMode w = m)) /\
    (forall i j x w, (i < j)%nat -> queue !! i = Some x -> queue !! j = Some w -> procNumber x ∉ woken -> procNumber w ∈ woken ->
       ~ conflicts lmt (waitLockMode x) (waitLockMode w))
}.

(** Positions in a filtered queue. *)
Lemma filter_lookup_order (P : PGPROC -> Prop) `{forall x, Decision (P x)} (queue : list PGPROC) i k w x :
  (i < k)%nat -> filter P queue !! i = Some w -> filter P queue !! k = Some x ->
  exists i' k', (i' < k')%nat /\ queue !! i' = Some w /\ queue !! k' = Some x.
Proof.
  revert i k. induction queue as [|y queue IH]; intros i k Hik Hi Hk; [done|]. rewrite filter_cons in Hi, Hk. case_decide as Hy.
  - destruct k as [|k]; [lia|]. destruct i as [|i].
    + injection Hi as <-. change (filter P queue !! k = Some x) in Hk. apply list_elem_of_lookup_2, list_elem_of_filter in Hk as [_ [k' Hk']%list_elem_of_lookup_1].
      exists 0%nat, (S k'). split; [lia|done].
    + destruct (IH i k) as (i' & k' & H1 & H2 & H3); [lia|done|done|]. exists (S i'), (S k'). split; [lia|done].
  - destruct (IH i k) as (i' & k' & H1 & H2 & H3); [done|done|done|]. exists (S i'), (S k'). split; [lia|done].
Qed.

Lemma filter_keep_order (P : PGPROC -> Prop) `{forall x, Decision (P x)} (queue : list PGPROC) i k w x :
  (i < k)%nat -> queue !! i = Some w -> queue !! k = Some x -> P w -> P x ->
  exists i' k', (i' < k')%nat /\ filter P queue !! i' = Some w /\ filter P queue !! k' = Some x.
Proof.
  revert i k. induction queue as [|y queue IH]; intros i k Hik Hi Hk Hw Hx; [done|]. rewrite filter_cons.
  destruct k as [|k]; [lia|]. destruct i as [|i].
  - injection Hi as <-. rewrite decide_True by done. change (queue !! k = Some x) in Hk. apply list_elem_of_lookup_2 in Hk.
    assert (Hf : x ∈ filter P queue) by by apply list_elem_of_filter. apply list_elem_of_lookup_1 in Hf as [k' Hk']. exists 0%nat, (S k'). split; [lia|done].
  - destruct (IH i k) as (i' & k' & H1 & H2 & H3); [lia|done..|]. case_decide; [exists (S i'), (S k'); split; [lia|done]|by exists i', k'].
Qed.

Lemma ahead_of_filter (P : PGPROC -> Prop) `{forall x, Decision (P x)} (queue : list PGPROC) u w :
  ahead_of lockGroupLeader (filter P queue) u w -> ahead_of lockGroupLeader queue u w.
Proof.
  intros (i & k & x & Hik & Hi & Hk & Hx & Hne). destruct (filter_lookup_order P queue i k w x Hik Hi Hk) as (i' & k' & ? & ? & ?).
  by exists i', k', x.
Qed.

Lemma woken_edges s s' orders orders' t woken u v : woken_state s s' orders orders' t woken -> edge s' orders' u v -> edge s orders u v.
Proof.
  intros [Hw Ho Hl] [(Hne & p & t' & m & lock & lmt & pl & m' & Hp & Hwl & Hx & Hlk & Hlmt & Hpl & Hv & Hm & Hh & Hc)|
    (t' & p & m & lock & lmt & w & Hp & Hwl & Hx & Hlk & Hlmt & Ha & Hv & Hc)];
    destruct (Hw p _ Hwl) as [Hwl0 Hpn]; (destruct (decide (t' = t)) as [->|Hne']; [|destruct (Ho t' Hne') as [Hlk0 Hfo]; rewrite Hlk0 in Hlk]).
  - destruct (Hl lock Hlk) as (l & lmt' & Hl0 & Hlmt' & _ & Hq & Hholds & Hord). assert (lmt' = lmt) as -> by congruence.
    destruct (Hholds (myProc pl) m') as [(pl0 & H1 & H2 & H3)|(Hwk & w & Hwq & Ewp & Ewm)]; [by exists pl| |].
    + left. split; [done|]. exists p, t, m, l, lmt, pl0, m'. split_and!; try done; try lia. congruence.
    + right. exists t. exists p, m, l, lmt, w. destruct (Hq p m Hwl0) as (y & Hy & Eyp & Eym).
      apply list_elem_of_lookup_1 in Hwq as [i Hi], Hy as [k Hk].
      assert (Hvw : wleader w = v) by (unfold DeadlockSort.wleader; congruence).
      assert (Huy : wleader y = u) by (unfold DeadlockSort.wleader; congruence).
      split_and!; try done; [|by rewrite Ewm]. exists i, k, y. split_and!; try done; [|congruence].
      apply Nat.nle_gt. intros Hle. assert (k <> i) by (intros ->; congruence).
      apply (Hord k i y w); [lia|done|done|by rewrite Eyp|by rewrite Ewp|by rewrite Eym, Ewm].
  - left. split; [done|]. exists p, t', m, lock, lmt, pl, m'. split_and!; try done; lia.
  - destruct (Hl lock Hlk) as (l & lmt' & Hl0 & Hlmt' & Hqu & _). rewrite Hqu in Ha. apply ahead_of_filter in Ha.
    right. exists t, p, m, l, lmt, w. done.
  - right. exists t', p, m, lock, lmt, w. unfold queue_under in *. rewrite Hfo in Ha. done.
Qed.

End Shrink.

(** ** Rearranging a queue *)

Section Apply.

Context (lockGroupLeader : ProcNumber -> option ProcNumber) `{!GroupsOK lockGroupLeader}.

Abbreviation leader := (group_leader lockGroupLeader).
Abbreviation sys_ok := (sys_ok lockGroupLeader).
Abbreviation orders_ok := (orders_ok lockGroupLeader).
Abbreviation waits_for := (waits_for lockGroupLeader).
Abbreviation edge := (edge lockGroupLeader).

Lemma edge_waits s orders u v : queues_ok s -> orders_ok s orders -> edge s orders u v <-> waits_for s orders u v.
Proof. intros Hq Ho. symmetry. by apply waits_for_spec. Qed.

Lemma find_order_head o orders t : wo_lock o <> t -> find_order (o :: orders) t = find_order orders t.
Proof. intros Hne. unfold find_order. cbn. by rewrite bool_decide_eq_false_2. Qed.

Lemma queue_modes s t lock lmt :
  sys_ok s -> LockMethodLockHash s !! t = Some lock -> LockMethods (locktag_lockmethodid t) = Some lmt ->
  LockMethodOK lmt /\ lock_inv lmt lockGroupLeader lock /\ Forall (fun w => 1 <= waitLockMode w <= numLockModes lmt) (waitProcs lock).
Proof.
  intros Hs Hl Hm. destruct (sys_lookup lockGroupLeader s t lock Hs Hl) as (_ & lmt' & Hm' & Hok & Hi).
  assert (lmt' = lmt) as -> by congruence. split; [done|]. split; [done|].
  eapply Forall_impl; [exact (wf_waiters _ _ _ _ (inv_wf _ _ _ Hi))|]. by intros w [? _].
Qed.

(** The order of wakeups, with the conflict the other way round. *)
Lemma woken_in_order_sym lmt queue woken :
  LockMethodOK lmt -> Forall (fun w => 1 <= waitLockMode w <= numLockModes lmt) queue -> woken_in_order lmt queue woken ->
  forall i j x w, (i < j)%nat -> queue !! i = Some x -> queue !! j = Some w -> procNumber x ∉ woken -> procNumber w ∈ woken ->
    ~ conflicts lmt (waitLockMode x) (waitLockMode w).
Proof.
  intros Hok Hm Ho i j x w Hij Hx Hw Hxn Hwn Hc. apply (Ho i j x w Hij Hx Hw Hxn Hwn). rewrite Forall_forall in Hm.
  apply conflicts_sym; [done|apply Hm; by eapply list_elem_of_lookup_2|apply Hm; by eapply list_elem_of_lookup_2|done].
Qed.

(** One rearranged queue. *)
Lemma soft_woken s p o orders :
  sys_ok s -> orders_ok s (o :: orders) ->
  exists s1 woken, DeadLockCheck_soft lockGroupLeader p (wo_lock o) (wo_procs o) s = (Ok tt, s1) /\ sys_ok s1 /\
    woken_state s s1 (o :: orders) orders (wo_lock o) woken /\ orders_ok s1 orders.
Proof.
  intros Hs [Hnd Hf]. cbn in Hnd. apply NoDup_cons in Hnd as [Hn Hnd]. apply Forall_cons in Hf as [(l & Hl & Hperm & _) Hf].
  destruct (DeadLockCheck_soft_ok lockGroupLeader s p (wo_lock o) (wo_procs o) Hs) as (s1 & E & Hs1); [by exists l|].
  destruct (sys_lookup lockGroupLeader s _ l Hs Hl) as (_ & lmt & Hm & _). destruct (queue_modes s _ l lmt Hs Hl Hm) as (Hok & Hi & Hmodes).
  pose proof E as E'. unfold DeadLockCheck_soft in E'. rewrite Hl, Hm in E'.
  destruct (rearrange_queue_spec lmt lockGroupLeader p l (wo_procs o) Hi Hperm) as (l' & woken & Er & Hi' & [W1 W2 W3 W4 W5 W6]).
  rewrite Er in E'. injection E' as Es1. exists s1, woken. split; [done|]. split; [done|].
  assert (Hlocks : LockMethodLockHash s1 = partial_alter (fun _ => Some l') (wo_lock o) (LockMethodLockHash s)).
  { rewrite <- Es1. apply locks_ProcWakeup. }
  assert (Hbk : forall q, waitLock (backend s1 q) = if bool_decide (q ∈ woken) then None else waitLock (backend s q)).
  { intros q. rewrite <- Es1, backend_ProcWakeup, backend_put_lock. by case_bool_decide. }
  assert (Hqm : Forall (fun w => 1 <= waitLockMode w <= numLockModes lmt) (wo_procs o)) by by rewrite Hperm.
  split; [split|split; [done|]].
  - intros q k. rewrite Hbk. by case_bool_decide.
  - intros t' Hne. rewrite Hlocks, lookup_partial_alter_ne, find_order_head by done. done.
  - intros l1 Hl1. rewrite Hlocks, lookup_partial_alter_eq in Hl1. injection Hl1 as <-. exists l, lmt. split; [done|]. split; [done|].
    assert (Eq : queue_under (o :: orders) (wo_lock o) l = wo_procs o).
    { unfold queue_under, find_order. cbn. by rewrite bool_decide_eq_true_2. }
    rewrite Eq. cbn zeta. split_and!.
    + unfold queue_under. by rewrite (proj2 (find_order_None orders (wo_lock o)) Hn).
    + intros q m Hw. destruct (sys_queues_ok lockGroupLeader s Hs q _ m l Hw Hl) as (_ & _ & w & Hw1 & Hw2). exists w. by rewrite Hperm.
    + intros q m Hh. by apply W6.
    + apply woken_in_order_sym; [done|done|]. eapply (ProcLockWakeup_order lmt lockGroupLeader p (set_waitProcs (wo_procs o) l)); [done| |].
      * cbn. rewrite Hperm. apply (wf_queue _ _ _ _ (inv_wf _ _ _ Hi)).
      * cbn. eapply Forall_impl; [exact Hqm|]. cbn. lia.
  - apply Forall_forall. intros o' Ho'. rewrite Forall_forall in Hf. destruct (Hf o' Ho') as (lo & Hlo & H). exists lo. split; [|done].
    rewrite Hlocks, lookup_partial_alter_ne; [done|]. intros E2. apply Hn. rewrite E2. by apply list_elem_of_fmap_2.
Qed.

(** All of them: no new edges. *)
Lemma apply_orders_ok p orders : forall s,
  sys_ok s -> orders_ok s orders ->
  exists s', apply_orders lockGroupLeader p orders s = (Ok tt, s') /\ sys_ok s' /\ rtc (step lockGroupLeader) s s' /\ forall u v, waits_for s' [] u v -> waits_for s orders u v.
Proof.
  induction orders as [|o orders IH]; intros s Hs Ho; cbn [apply_orders]; [by exists s|].
  destruct (soft_woken s p o orders Hs Ho) as (s1 & woken & E & Hs1 & Hw & Ho1).
  destruct (IH s1 Hs1 Ho1) as (s' & E' & Hs' & Hstep & Hsub). exists s'. split_and!; [|done| |].
  - unfold mbind, ST_bind. rewrite E. exact E'.
  - eapply rtc_l; [|exact Hstep]. destruct Ho as [_ [(l & Hl & Hperm & _) _]%Forall_cons].
    apply (step_call _ p (mkEnv 0 false true true) (CallSoftDeadLock (wo_lock o) (wo_procs o)) s (Ok Done) s1); [by exists l|].
    cbn. unfold mbind, ST_bind. by rewrite E.
  - intros u v Huv. apply edge_waits; [by apply sys_queues_ok with lockGroupLeader|done|].
    eapply woken_edges; [done|]. apply edge_waits; [by apply sys_queues_ok with lockGroupLeader|done|]. by apply Hsub.
Qed.

(** *** Leaving the queue *)

(** The state without the request of [p]. *)
Definition withdraw (p : ProcNumber) (s : LockState) : LockState :=
  match waitLock (backend s p) with
  | None => s
  | Some (t, _) =>
      match LockMethodLockHash s !! t with
      | None => s
      | Some l => set_wait p None PROC_WAIT_STATUS_ERROR (awaitedLock (backend s p)) (put_lock t (Some (remove_waiter p l)) s)
      end
  end.

Section Withdraw.

Context (s : LockState) (Hs : sys_ok s) (p : ProcNumber) (t : LOCKTAG) (m : LOCKMODE) (l : LOCK).
Context (Hw : waitLock (backend s p) = Some (t, m)) (Hl : LockMethodLockHash s !! t = Some l).

Lemma withdraw_locks : LockMethodLockHash (withdraw p s) = partial_alter (fun _ => Some (remove_waiter p l)) t (LockMethodLockHash s).
Proof. unfold withdraw. by rewrite Hw, Hl. Qed.

Lemma withdraw_waits q : waitLock (backend (withdraw p s) q) = if bool_decide (q = p) then None else waitLock (backend s q).
Proof.
  unfold withdraw. rewrite Hw, Hl. unfold set_wait. case_bool_decide as E; [rewrite E; by rewrite backend_set_same|].
  by rewrite backend_set_other by done.
Qed.

Lemma withdraw_queues : queues_ok (withdraw p s).
Proof.
  intros q u i lock Hq Hlk. rewrite withdraw_waits in Hq. case_bool_decide as Eq; [done|]. rewrite withdraw_locks in Hlk.
  assert (Hcase : exists l0, LockMethodLockHash s !! u = Some l0 /\ (lock = l0 \/ lock = remove_waiter p l0)).
  { destruct (decide (u = t)) as [->|Hne].
    - rewrite lookup_partial_alter_eq in Hlk. injection Hlk as <-. exists l. auto.
    - rewrite lookup_partial_alter_ne in Hlk by done. exists lock. auto. }
  destruct Hcase as (l0 & Hl0 & Hc). destruct (sys_queues_ok lockGroupLeader s Hs q u i l0 Hq Hl0) as (Ht & Hnd & w & H1 & H2 & H3).
  destruct Hc as [-> | ->]; (split; [done|]); [split; [done|]; by exists w|]. split.
  - eapply sublist_NoDup; [exact Hnd|]. apply fmap_sublist, sublist_filter.
  - exists w. split; [|done]. apply list_elem_of_filter. split; [congruence|done].
Qed.

Lemma leave_woken :
  exists s1 woken, leave_queue lockGroupLeader p s = (Ok tt, s1) /\ sys_ok s1 /\ woken_state (withdraw p s) s1 [] [] t woken.
Proof.
  destruct (leave_queue_ok lockGroupLeader s p Hs) as (s1 & E & Hs1 & _).
  destruct (sys_waiting lockGroupLeader s p t m Hs Hw) as (l0 & lmt & w & El & _ & Hm & Hok & Hi & Hin & Hp & Hmw).
  assert (l0 = l) as -> by congruence. destruct (queue_modes s t l lmt Hs Hl Hm) as (_ & _ & Hmodes).
  pose proof E as E'. unfold leave_queue in E'. rewrite Hw, Hl, Hm in E'.
  destruct (RemoveFromWaitQueue_spec lmt lockGroupLeader p l w Hi Hin) as (r & woken & Er & Hc). rewrite Hp, Hmw in Er. rewrite Hp in Hc.
  rewrite Er in E'. injection E' as Es1. exists s1, woken. split; [done|]. split; [done|].
  assert (Hlocks : LockMethodLockHash s1 = partial_alter (fun _ => r) t (LockMethodLockHash s)) by (rewrite <- Es1; apply locks_ProcWakeup).
  assert (Hbk : forall q, waitLock (backend s1 q) = if bool_decide (q ∈ woken) then None else waitLock (backend (withdraw p s) q)).
  { intros q. rewrite <- Es1, backend_ProcWakeup. case_bool_decide; [done|]. unfold withdraw. rewrite Hw, Hl. unfold set_wait.
    by rewrite !backend_set_backend, !backend_put_lock. }
  split.
  - intros q k. rewrite Hbk. by case_bool_decide.
  - intros t' Hne. rewrite Hlocks, withdraw_locks, !lookup_partial_alter_ne by done. done.
  - intros l1 Hl1. rewrite Hlocks, lookup_partial_alter_eq in Hl1. subst r. destruct Hc as (_ & _ & _ & Hq & _ & Hh).
    exists (remove_waiter p l), lmt. rewrite withdraw_locks, lookup_partial_alter_eq. split; [done|]. split; [done|]. cbn zeta.
    change (queue_under [] t (remove_waiter p l)) with (waitProcs (remove_waiter p l)). change (queue_under [] t l1) with (waitProcs l1).
    split_and!; [done| |by apply Hh|].
    + intros q i Hqi. assert (Hlk : LockMethodLockHash (withdraw p s) !! t = Some (remove_waiter p l)) by (by rewrite withdraw_locks, lookup_partial_alter_eq).
      by destruct (withdraw_queues q t i _ Hqi Hlk) as (_ & _ & ?).
    + apply woken_in_order_sym; [done| |].
      * apply Forall_forall. intros x [_ Hx]%list_elem_of_filter. rewrite Forall_forall in Hmodes. by apply Hmodes.
      * eapply RemoveFromWaitQueue_order; [done|apply (wf_queue _ _ _ _ (inv_wf _ _ _ Hi))|].
        eapply Forall_impl; [exact Hmodes|]. cbn. lia.
Qed.

(** Edges between other groups do not need the request of [p]. *)
Lemma withdraw_edge u v : edge s [] u v -> u <> leader p -> v <> leader p -> edge (withdraw p s) [] u v.
Proof.
  intros [(Hne & q & t' & i & lock & lmt & pl & m' & Hq & Hwl & Hx & Hlk & Hlmt & Hpl & Hv & Hm & Hh & Hc)|
    (t' & q & i & lock & lmt & w & Hq & Hwl & Hx & Hlk & Hlmt & Ha & Hv & Hc)] Hu Hvp;
    assert (Hqp : q <> p) by congruence;
    assert (Hwl' : waitLock (backend (withdraw p s) q) = Some (t', i)) by (rewrite withdraw_waits; by rewrite bool_decide_eq_false_2);
    assert (Hlk' : exists lock', LockMethodLockHash (withdraw p s) !! t' = Some lock' /\ procLocks lock' = procLocks lock /\
      (waitProcs lock' = waitProcs lock \/ waitProcs lock' = filter (fun w => procNumber w <> p) (waitProcs lock))).
  1, 3: rewrite withdraw_locks; destruct (decide (t' = t)) as [->|Hne']; [exists (remove_waiter p l); rewrite lookup_partial_alter_eq|
    exists lock; rewrite lookup_partial_alter_ne by done; auto]; assert (lock = l) as -> by congruence; auto.
  - destruct Hlk' as (lock' & Hlk' & Epl & _). left. split; [done|]. exists q, t', i, lock', lmt, pl, m'. rewrite Epl. split_and!; try done; lia.
  - destruct Hlk' as (lock' & Hlk' & _ & Hqu). right. exists t', q, i, lock', lmt, w. split_and!; try done.
    change (queue_under [] t' lock') with (waitProcs lock'). change (queue_under [] t' lock) with (waitProcs lock) in Ha.
    destruct Hqu as [-> | ->]; [done|]. destruct Ha as (a & b & x & Hab & Hwa & Hxb & Ex & Hn).
    assert (Hpos : exists a' b', (a' < b')%nat /\ filter (fun w => procNumber w <> p) (waitProcs lock) !! a' = Some w /\
      filter (fun w => procNumber w <> p) (waitProcs lock) !! b' = Some x).
    { apply (filter_keep_order _ _ a b); try done; intros E; [apply Hvp; rewrite <- Hv|apply Hu; rewrite <- Ex]; unfold wleader; congruence. }
    destruct Hpos as (a' & b' & ? & ? & ?). by exists a', b', x.
Qed.

End Withdraw.

End Apply.

(** ** The guarantee *)

Definition deadlocked (lockGroupLeader : ProcNumber -> option ProcNumber) (s : LockState) : Prop :=
  exists u, tc (waits_for lockGroupLeader s []) u u.

Section Guarantee.

Context (lockGroupLeader : ProcNumber -> option ProcNumber) `{!GroupsOK lockGroupLeader}.
Context (lockGroupMembers : ProcNumber -> list ProcNumber) `{!MembersOK lockGroupLeader lockGroupMembers}.
Context (is_autovacuum : ProcNumber -> bool) (MaxBackends : nat) (MyProc : ProcNumber).

Abbreviation leader := (group_leader lockGroupLeader).
Abbreviation sys_ok := (sys_ok lockGroupLeader).
Abbreviation procs_ok := (procs_ok lockGroupLeader MaxBackends).
Abbreviation waits_for := (waits_for lockGroupLeader).
Abbreviation no_cycle := (no_cycle lockGroupLeader).
Abbreviation good := (good lockGroupLeader).
Abbreviation FindLockCycle := (FindLockCycle lockGroupLeader lockGroupMembers is_autovacuum MaxBackends MyProc).
Abbreviation DeadLockCheckRecurse := (DeadLockCheckRecurse lockGroupLeader lockGroupMembers is_autovacuum MaxBackends MyProc).
Abbreviation DeadLockCheck := (DeadLockCheck lockGroupLeader lockGroupMembers is_autovacuum MaxBackends MyProc).
Abbreviation CheckDeadLock := (CheckDeadLock lockGroupLeader lockGroupMembers is_autovacuum MaxBackends MyProc).

(** The search decides whether there is a deadlock at all. *)
Definition all_clear (s : LockState) : bool :=
  forallb (fun u => match FindLockCycle s [] u None with Ok (false, _) => true | _ => false end) (seqZ 0 (Z.of_nat MaxBackends)).

Lemma all_clear_ok s : waits_ok s -> queues_ok s -> procs_ok s -> all_clear s = true -> ~ deadlocked lockGroupLeader s.
Proof.
  intros Hw Hq Hp Hall [u Hu]. pose proof (orders_ok_nil lockGroupLeader s) as Ho.
  assert (Hr : forall a b, waits_for s [] a b -> in_range MaxBackends b) by (intros a b; by apply waits_range).
  destruct (tc_last _ u u Hu) as [a Ha]. destruct (tc_first _ u u Hu) as (b & e & (Ee & _) & Eu & _).
  assert (Hlu : leader u = u) by (rewrite <- Eu, Ee; by apply leader_idem).
  unfold all_clear in Hall. rewrite forallb_forall in Hall. specialize (Hall u). rewrite <- list_elem_of_In, elem_of_seqZ in Hall.
  pose proof (Hr a u Ha) as Hru. destruct (FindLockCycle_ok lockGroupLeader lockGroupMembers is_autovacuum MaxBackends MyProc s Hw [] Hr u None) as (b0 & st & E & Hb);
    [by rewrite Hlu|]. rewrite E in Hall. unfold in_range in Hru. destruct b0; [by assert (false = true) by (apply Hall; lia)|].
  rewrite Hlu in Hb. by apply (proj2 (no_cycle_steps lockGroupLeader s [] u)) in Hb.
Qed.

(** The two outcomes of the check. *)
Lemma DeadLockCheck_cases s p :
  sys_ok s -> procs_ok s -> in_range MaxBackends (leader p) ->
  (exists av steps, DeadLockCheckRecurse s (S MaxBackends) p [] 0 None = Ok (None, av) /\
     (exists av', DeadLockCheck p s = (Ok (DS_HARD_DEADLOCK, st_info <$> steps, av'), s)) /\
     deadlock_cycle lockGroupLeader s [] (leader p) steps /\ (length steps <= MaxBackends)%nat) \/
  (exists orders cs av s' r, DeadLockCheckRecurse s (S MaxBackends) p [] 0 None = Ok (Some orders, av) /\
     DeadLockCheck p s = (Ok (r, [], av), s') /\
     r = match orders, av with _ :: _, _ => DS_SOFT_DEADLOCK | [], Some _ => DS_BLOCKED_BY_AUTOVACUUM | [], None => DS_NO_DEADLOCK end /\
     Forall (constraint_ok lockGroupLeader s) cs /\ good s p cs orders /\ sys_ok s' /\ rtc (step lockGroupLeader) s s' /\
     (orders = [] -> s' = s) /\ forall u v, waits_for s' [] u v -> waits_for s orders u v).
Proof.
  intros Hs Hp Hr. pose proof (sys_queues_ok lockGroupLeader s Hs) as Hq.
  destruct (DeadLockCheckRecurse_ok lockGroupLeader lockGroupMembers is_autovacuum MaxBackends MyProc s Hs Hq Hp p Hr (S MaxBackends) [] 0 None)
    as (r & av & E & Hres); [done|lia|cbn; lia|]. unfold Deadlock.DeadLockCheck. rewrite E. destruct r as [orders|].
  - right. destruct Hres as (cs & Hcs & Hg). pose proof (expanded_ok lockGroupLeader s cs orders (proj1 Hg)) as Ho.
    destruct (apply_orders_ok lockGroupLeader MyProc orders s Hs Ho) as (s' & Ea & Hs' & Hstep & Hsub).
    exists orders, cs, av, s'. eexists. split; [done|]. split; [unfold mbind, ST_bind; rewrite Ea; done|]. split_and!; try done.
    intros ->. by injection Ea as <-.
  - left. destruct (search_ok_range lockGroupLeader lockGroupMembers is_autovacuum MaxBackends MyProc s Hs Hq Hp [] p av) as (b & st & Ef & Hb);
      [apply orders_ok_nil|done|]. destruct b.
    + destruct Hb as (steps & Hc & _ & Ed & _ & Hl). exists av, steps. split; [done|]. rewrite Ef, Ed. split; [by eexists|done].
    + exfalso. destruct (check_clear lockGroupLeader lockGroupMembers is_autovacuum MaxBackends MyProc s Hs Hq Hp p Hr None) as (av' & E').
      * by apply no_cycle_steps.
      * congruence.
Qed.

End Guarantee.

(** ** The autovacuum worker *)

Section Worker.

Context (lockGroupLeader : ProcNumber -> option ProcNumber) (lockGroupMembers : ProcNumber -> list ProcNumber).
Context (is_autovacuum : ProcNumber -> bool) (MaxBackends : nat) (MyProc : ProcNumber) (s : LockState).

Abbreviation leader := (group_leader lockGroupLeader).

(** [q] is an autovacuum worker that holds a lock [MyProc] waits for. *)
Definition worker_blocks (q : ProcNumber) : Prop :=
  is_autovacuum q = true /\ leader q <> leader MyProc /\
  exists t m lock lmt m', waitLock (backend s MyProc) = Some (t, m) /\ LockMethodLockHash s !! t = Some lock /\
    LockMethods (locktag_lockmethodid t) = Some lmt /\ lock_holds lock q m' /\ conflicts lmt m m'.

Definition worker_ok (av : option ProcNumber) : Prop := forall q, av = Some q -> worker_blocks q.

Definition keeps_worker (r : result (bool * cycle_search)) : Prop :=
  match r with Ok (_, st) => worker_ok (blocking_autovacuum_proc st) | Err _ => True end.

Definition rec_worker (rec : ProcNumber -> cycle_search -> result (bool * cycle_search)) : Prop :=
  forall p st, worker_ok (blocking_autovacuum_proc st) -> keeps_worker (rec p st).

Section Level.

Context (orders : list WAIT_ORDER) (rec : ProcNumber -> cycle_search -> result (bool * cycle_search)) (Hrec : rec_worker rec).

Lemma hard_loop_worker p u t m lock lmt pls st :
  u = leader p -> waitLock (backend s p) = Some (t, m) -> LockMethodLockHash s !! t = Some lock ->
  LockMethods (locktag_lockmethodid t) = Some lmt -> (forall pl, pl ∈ pls -> pl ∈ procLocks lock) ->
  worker_ok (blocking_autovacuum_proc st) ->
  keeps_worker (hard_loop lockGroupLeader is_autovacuum MyProc rec p u t m (conflict lmt m) (lockmodes lmt) pls st).
Proof.
  intros -> Hw Hl Hm. revert st. induction pls as [|pl pls IH]; intros st Hin Hst; cbn [hard_loop]; [done|].
  assert (Hin' : forall x, x ∈ pls -> x ∈ procLocks lock) by (intros x Hx; apply Hin; by right).
  destruct (hard_blocks _ _ _ _ pl) eqn:Eb; [|by apply IH].
  pose proof (Hrec (myProc pl) st Hst) as Hr. destruct (rec (myProc pl) st) as [[b st1]|e]; [|done]. cbn [mbind result_bind].
  destruct b; [done|]. apply IH; [done|]. destruct (Z.eqb_spec p MyProc) as [->|]; cbn [andb]; [|done].
  destruct (is_autovacuum (myProc pl)) eqn:Ea; [|done]. cbn. intros q [= <-]. split; [done|].
  unfold hard_blocks in Eb. apply andb_true_iff in Eb as [Eb1 Eb2]. apply negb_true_iff, Z.eqb_neq in Eb1. split; [done|].
  apply existsb_exists in Eb2 as (m' & _ & [H1 H2]%andb_true_iff). exists t, m, lock, lmt, m'. split_and!; try done.
  exists pl. split; [apply Hin; left|done].
Qed.

Lemma soft_loop_worker p u t m mask ahead st :
  worker_ok (blocking_autovacuum_proc st) -> keeps_worker (soft_loop lockGroupLeader MaxBackends rec p u t m mask ahead st).
Proof.
  revert st. induction ahead as [|w ahead IH]; intros st Hst; cbn [soft_loop]; [done|].
  destruct (soft_blocks _ _ _ w); [|by apply IH].
  pose proof (Hrec (procNumber w) st Hst) as Hr. destruct (rec (procNumber w) st) as [[b st1]|e]; [|done]. cbn [mbind result_bind].
  destruct b; [|by apply IH]. unfold add_soft. by destruct (Nat.ltb _ _).
Qed.

Lemma member_worker p u st :
  u = leader p -> worker_ok (blocking_autovacuum_proc st) ->
  keeps_worker (FindLockCycleRecurseMember lockGroupLeader is_autovacuum MaxBackends MyProc s orders rec p u st).
Proof.
  intros Hu Hst. unfold FindLockCycleRecurseMember. destruct (waitLock (backend s p)) as [[t m]|] eqn:Ew; [|done].
  destruct (LockMethodLockHash s !! t) as [lock|] eqn:El; [|done]. destruct (LockMethods _) as [lmt|] eqn:Em; [|done].
  case_bool_decide; [done|].
  pose proof (hard_loop_worker p u t m lock lmt (procLocks lock) st Hu Ew El Em (fun _ H => H) Hst) as Hh.
  destruct (hard_loop _ _ _ _ _ _ _ _ _ _ _ st) as [[b st1]|e]; [|done]. cbn [mbind result_bind].
  destruct b; [done|]. by apply soft_loop_worker.
Qed.

Lemma members_worker u members st :
  (forall p, p ∈ members -> leader p = u) -> worker_ok (blocking_autovacuum_proc st) ->
  keeps_worker (members_loop lockGroupLeader is_autovacuum MaxBackends MyProc s orders rec u members st).
Proof.
  revert st. induction members as [|p members IH]; intros st Hm Hst; cbn [members_loop]; [done|].
  assert (Hm' : forall x, x ∈ members -> leader x = u) by (intros x Hx; apply Hm; by right).
  destruct (_ && _); [|by apply IH].
  pose proof (member_worker p u st (eq_sym (Hm p ltac:(left))) Hst) as Hr.
  destruct (FindLockCycleRecurseMember _ _ _ _ _ _ _ p u st) as [[b st1]|e]; [|done]. cbn [mbind result_bind].
  destruct b; [done|]. by apply IH.
Qed.

End Level.

Context `{!GroupsOK lockGroupLeader} `{!MembersOK lockGroupLeader lockGroupMembers}.

Lemma FindLockCycleRecurse_worker orders fuel depth :
  rec_worker (fun p => FindLockCycleRecurse lockGroupLeader lockGroupMembers is_autovacuum MaxBackends MyProc s orders fuel p depth).
Proof.
  revert depth. induction fuel as [|fuel IH]; intros depth p st Hst; cbn [FindLockCycleRecurse]; [done|].
  case_bool_decide; [case_bool_decide; [unfold cycle_closed; by destruct (Nat.leb _ _)|done]|].
  unfold mark_seen. destruct (Nat.ltb _ _); [|done]. cbn [mbind result_bind].
  set (st1 := mkSearch _ _ _ _ _). assert (H1 : worker_ok (blocking_autovacuum_proc st1)) by done. clearbody st1.
  assert (Hm : forall q, q ∈ lockGroupMembers (leader p) -> leader q = leader p) by (intros q; by apply members_leader).
  destruct (is_waiting s (leader p)); cbn [mbind result_bind]; [|by apply members_worker].
  pose proof (member_worker orders _ (IH (S depth)) (leader p) (leader p) st1 (eq_sym (leader_idem lockGroupLeader p)) H1) as Hr.
  destruct (FindLockCycleRecurseMember _ _ _ _ _ _ _ _ _ st1) as [[b st2]|e]; [|done]. cbn [mbind result_bind].
  destruct b; [done|]. by apply members_worker.
Qed.

Lemma test_procs_worker orders procs soft av :
  worker_ok av ->
  match test_procs lockGroupLeader lockGroupMembers is_autovacuum MaxBackends MyProc s orders procs soft av with
  | Ok (_, av') => worker_ok av'
  | Err _ => True
  end.
Proof.
  revert soft av. induction procs as [|p procs IH]; intros soft av Hav; cbn [test_procs]; [done|].
  pose proof (FindLockCycleRecurse_worker orders (S MaxBackends) 0 p (mkSearch [] [] 0 [] av) Hav) as Hr. cbv beta in Hr. unfold FindLockCycle.
  destruct (FindLockCycleRecurse _ _ _ _ _ _ _ _ _ _ _) as [[b st]|e]; [|done]. cbn [mbind result_bind].
  destruct b; [destruct (softEdges st)|]; (done || by apply IH).
Qed.

Lemma TestConfiguration_worker p cs n av :
  worker_ok av ->
  match TestConfiguration lockGroupLeader lockGroupMembers is_autovacuum MaxBackends MyProc s p cs n av with
  | Ok (_, av') => worker_ok av'
  | Err _ => True
  end.
Proof.
  intros Hav. unfold TestConfiguration. destruct (Nat.ltb _ _); [done|].
  destruct (ExpandConstraints _ _ _ _) as [[orders|]|e]; cbn [mbind result_bind]; [|done|done].
  pose proof (test_procs_worker orders (flat_map (fun c => [waiter c; blocker c]) cs ++ [p]) [] av Hav) as Hr.
  by destruct (test_procs _ _ _ _ _ _ _ _ _ _) as [[r av']|e].
Qed.

Lemma try_edges_worker test rec saved edges i todo av :
  (forall av, worker_ok av -> match test av with Ok (_, av') => worker_ok av' | Err _ => True end) ->
  (forall c av, worker_ok av -> match rec c av with Ok (_, av') => worker_ok av' | Err _ => True end) ->
  worker_ok av -> match try_edges test rec saved edges i todo av with Ok (_, av') => worker_ok av' | Err _ => True end.
Proof.
  intros Ht Hr. revert edges i av. induction todo as [|todo IH]; intros edges i av Hav; cbn [try_edges]; [done|].
  set (first := if _ && _ then _ else _).
  assert (Hf : match first with Ok (_, av') => worker_ok av' | Err _ => True end).
  { unfold first. destruct (_ && _); [|done]. specialize (Ht av Hav). destruct (test av) as [[[[es os]|] av1]|e]; cbn; [|done|done].
    by destruct (Nat.eqb _ _). }
  clearbody first. destruct first as [[es av1]|e]; [|done]. cbn [mbind result_bind]. destruct (es !! i) as [c|]; [|done].
  specialize (Hr c av1 Hf). destruct (rec c av1) as [[r av2]|e]; [|done]. cbn [mbind result_bind]. destruct r; [done|]. by apply IH.
Qed.

Lemma DeadLockCheckRecurse_worker fuel p : forall cs n av,
  worker_ok av ->
  match DeadLockCheckRecurse lockGroupLeader lockGroupMembers is_autovacuum MaxBackends MyProc s fuel p cs n av with
  | Ok (_, av') => worker_ok av'
  | Err _ => True
  end.
Proof.
  induction fuel as [|fuel IH]; intros cs n av Hav; cbn [DeadLockCheckRecurse]; [done|].
  pose proof (TestConfiguration_worker p cs n av Hav) as Ht.
  destruct (TestConfiguration _ _ _ _ _ _ _ _ _ av) as [[r av1]|e]; [|done]. cbn [mbind result_bind].
  destruct r as [[[|e es] orders]|]; [done| |done]. destruct (Nat.leb _ _); [done|].
  apply try_edges_worker; [|intros c av2; apply IH|done]. intros av2. by apply TestConfiguration_worker.
Qed.

End Worker.
