(* ===== verification/DeadlockContract.v ===== *)
(** * The deadlock detector: its contract

    What [CheckDeadLock] (proc.c) and [DeadLockCheck] ([src/src/backend/storage/lmgr/deadlock.c])
    promise over the reachable states of the lock manager: the search for a cycle is
    exact, the new order of a queue satisfies its constraints, what the check reports
    is so, no deadlock is left behind, and a hard deadlock is one that no order of the
    queues avoids. *)

From S2P Require Import Prelude LockObject LockTable LockManager Deadlock DeadlockSort DeadlockCheck DeadlockFree.
From stdpp Require Import gmap.
#[local] Open Scope Z_scope.

Section Contract.

Context (lockGroupLeader : ProcNumber -> option ProcNumber) `{!GroupsOK lockGroupLeader}.
Context (lockGroupMembers : ProcNumber -> list ProcNumber) `{!MembersOK lockGroupLeader lockGroupMembers}.
Context (is_autovacuum : ProcNumber -> bool) (MaxBackends : nat) (MyProc : ProcNumber).

Abbreviation leader := (group_leader lockGroupLeader).
Abbreviation reachable := (reachable lockGroupLeader).
Abbreviation procs_ok := (procs_ok lockGroupLeader MaxBackends).
Abbreviation waits_for := (waits_for lockGroupLeader).
Abbreviation deadlocked := (deadlocked lockGroupLeader).
Abbreviation deadlock_cycle := (deadlock_cycle lockGroupLeader).
Abbreviation FindLockCycle := (FindLockCycle lockGroupLeader lockGroupMembers is_autovacuum MaxBackends MyProc).
Abbreviation DeadLockCheck := (DeadLockCheck lockGroupLeader lockGroupMembers is_autovacuum MaxBackends MyProc).
Abbreviation CheckDeadLock := (CheckDeadLock lockGroupLeader lockGroupMembers is_autovacuum MaxBackends MyProc).

Lemma waiting_range s p k : reachable s -> procs_ok s -> waitLock (backend s p) = Some k -> in_range MaxBackends (leader p).
Proof.
  intros Hs%reachable_ok Hp Hw; [|done]. destruct k as [t m].
  destruct (sys_waiting lockGroupLeader s p t m Hs Hw) as (l & lmt & w & Hl & _ & _ & _ & _ & Hin & Ep & _).
  apply (Hp t l p Hl). right. rewrite <- Ep. by apply list_elem_of_fmap_2.
Qed.

(** A cycle that avoids the group of [p] does without its request. *)
Lemma withdrawn_cycle s p k :
  reachable s -> waitLock (backend s p) = Some k -> ~ deadlocked (withdraw p s) ->
  forall u, ~ tc (fun a b => waits_for s [] a b /\ a <> leader p) u u.
Proof.
  intros Hs%reachable_ok Hw Hno u Hu; [|done]. destruct k as [t m]. apply Hno. exists u.
  destruct (sys_waiting lockGroupLeader s p t m Hs Hw) as (l & lmt & w & Hl & _).
  pose proof (sys_queues_ok lockGroupLeader s Hs) as Hq. pose proof (withdraw_queues lockGroupLeader s Hs p t m l Hw Hl) as Hq'.
  assert (Hpath : forall a b, tc (fun a b => waits_for s [] a b /\ a <> leader p) a b -> b <> leader p -> tc (waits_for (withdraw p s) []) a b).
  { assert (Hstep : forall a b, waits_for s [] a b -> a <> leader p -> b <> leader p -> waits_for (withdraw p s) [] a b).
    { intros a b Hab Ha Hb. apply waits_for_spec; [done|done|apply orders_ok_nil|]. eapply withdraw_edge; try done.
      apply waits_for_spec; [done|done|apply orders_ok_nil|done]. }
    induction 1 as [a b [Hab Ha]|a b d [Hab Ha] Hbd IH]; intros Hd; [apply tc_once; by apply Hstep|].
    eapply tc_l; [|by apply IH]. apply Hstep; [done|done|]. by destruct (tc_first _ b d Hbd) as (c & _ & ?). }
  apply Hpath; [done|]. by destruct (tc_first _ u u Hu) as (c & _ & ?).
Qed.

(** C7. The search for a cycle ends, stays inside its arrays of MaxBackends entries,
    and is exact: under any proposed queue orders it finds a cycle of the waits-for
    graph through the lock group of the process if and only if there is one. The soft
    edges and the details it records are those of such a cycle. *)
Theorem find_lock_cycle_correct s orders p av :
  reachable s -> procs_ok s -> orders_ok lockGroupLeader s orders -> in_range MaxBackends (leader p) ->
  exists found st, FindLockCycle s orders p av = Ok (found, st) /\
    if found then exists steps, deadlock_cycle s orders (leader p) steps /\ softEdges st = soft_of steps /\
      deadlockDetails st = st_info <$> steps /\ nDeadlockDetails st = length steps /\ (length steps <= MaxBackends)%nat
    else forall steps, ~ deadlock_cycle s orders (leader p) steps.
Proof.
  intros Hs%reachable_ok Hp Ho Hr; [|done]. apply search_ok_range; try done. by apply sys_queues_ok with lockGroupLeader.
Qed.

(** C8. [TopoSort] returns the processes of the queue in an order in which lock groups
    are together and every constraint is satisfied, and in which a process overtakes
    others only if it is the waiter of a constraint. It fails only for constraints that
    form a cycle, which no order satisfies. *)
Theorem toposort_correct queue constraints :
  (length queue <= MaxBackends)%nat -> leaders_only lockGroupLeader constraints ->
  exists r, TopoSort lockGroupLeader MaxBackends queue constraints = Ok r /\
    match r with
    | Some order => sorted_queue lockGroupLeader queue constraints order
    | None => contradictory lockGroupLeader queue constraints /\
        forall order, order ≡ₚ queue -> ~ Forall (respects lockGroupLeader order) constraints
    end.
Proof.
  intros Hl Hc. destruct (TopoSort_ok lockGroupLeader queue MaxBackends constraints Hl Hc) as (r & E & Hr). exists r. split; [done|].
  destruct r; [done|]. split; [done|]. intros order. by apply contradictory_no_order.
Qed.

(** C6. The deadlock check of a waiting backend never fails, and leaves no deadlock:
    if the other processes are not deadlocked without its request, then after
    [CheckDeadLock] no lock group waits for itself, whatever the outcome. The change of
    the lock table is a sequence of steps of the lock manager. *)
Theorem deadlock_check_leaves_none s k :
  reachable s -> procs_ok s -> waitLock (backend s MyProc) = Some k -> ~ deadlocked (withdraw MyProc s) ->
  exists r details s', CheckDeadLock s = (Ok (r, details), s') /\ rtc (step lockGroupLeader) s s' /\ ~ deadlocked s'.
Proof.
  intros Hs Hp Hw Hno. pose proof (waiting_range s MyProc k Hs Hp Hw) as Hr.
  pose proof (withdrawn_cycle s MyProc k Hs Hw Hno) as Hcyc. pose proof Hs as Hsys%reachable_ok; [|done]. destruct k as [t m].
  unfold Deadlock.CheckDeadLock. rewrite Hw. unfold mbind at 1, ST_bind at 1.
  destruct (DeadLockCheck_cases lockGroupLeader lockGroupMembers is_autovacuum MaxBackends MyProc s MyProc Hsys Hp Hr)
    as [(av & steps & _ & (av' & ->) & _)|(orders & cs & av & s' & r & _ & -> & Er & Hcs & Hg & Hs' & Hstep & _ & Hsub)].
  - destruct (sys_waiting lockGroupLeader s MyProc t m Hsys Hw) as (l & lmt & w & Hl & _).
    destruct (leave_woken lockGroupLeader s Hsys MyProc t m l Hw Hl) as (s1 & woken & E & Hs1 & Hwk).
    unfold mbind, ST_bind. rewrite E. eexists _, _, s1. split; [done|]. split.
    + apply rtc_once, (step_call _ MyProc (mkEnv 0 false true true) CallDeadLock s (Ok Done) s1); [by exists (t, m)|].
      cbn. unfold CheckDeadLock_hard, mbind, ST_bind. by rewrite E.
    + intros [u Hu]. apply Hno. exists u. eapply tc_mono; [|exact Hu]. intros a b Hab.
      apply waits_for_spec; [done|by eapply withdraw_queues|apply orders_ok_nil|]. eapply woken_edges; [done|].
      apply waits_for_spec; [done|by apply sys_queues_ok with lockGroupLeader|apply orders_ok_nil|done].
  - exists r, [], s'. split; [destruct orders, av; rewrite Er; done|]. split; [done|]. intros [u Hu].
    apply (good_no_cycle lockGroupLeader lockGroupMembers is_autovacuum MaxBackends s Hsys (sys_queues_ok lockGroupLeader s Hsys) Hp
      MyProc Hr cs orders Hcs Hg Hcyc u).
    eapply tc_mono; [|exact Hu]. exact Hsub.
Qed.

(** C10. What [DeadLockCheck] reports of a process is so. No deadlock, or blocked by
    an autovacuum worker: the table is unchanged and the group is on no cycle, and in
    the second case a worker holds the lock the backend waits for. Soft deadlock: the
    group was on a cycle, it was on none of hard edges alone, and it is on none now.
    Hard deadlock: the table is unchanged, and the details are those of a cycle through
    the group, in the order of its edges. *)
Theorem deadlock_check_result s k :
  reachable s -> procs_ok s -> waitLock (backend s MyProc) = Some k ->
  exists r details av s', DeadLockCheck MyProc s = (Ok (r, details, av), s') /\
    match r with
    | DS_NOT_YET_CHECKED => False
    | DS_NO_DEADLOCK => s' = s /\ forall steps, ~ deadlock_cycle s [] (leader MyProc) steps
    | DS_BLOCKED_BY_AUTOVACUUM => s' = s /\ (forall steps, ~ deadlock_cycle s [] (leader MyProc) steps) /\
        exists q, av = Some q /\ worker_blocks lockGroupLeader is_autovacuum MyProc s q
    | DS_SOFT_DEADLOCK => (exists steps, deadlock_cycle s [] (leader MyProc) steps) /\
        ~ hard_cycle lockGroupLeader s (leader MyProc) /\ forall steps, ~ deadlock_cycle s' [] (leader MyProc) steps
    | DS_HARD_DEADLOCK => s' = s /\ exists steps, deadlock_cycle s [] (leader MyProc) steps /\ details = st_info <$> steps
    end.
Proof.
  intros Hs Hp Hw. pose proof (waiting_range s MyProc k Hs Hp Hw) as Hr. pose proof Hs as Hsys%reachable_ok; [|done].
  pose proof (sys_queues_ok lockGroupLeader s Hsys) as Hq.
  destruct (DeadLockCheck_cases lockGroupLeader lockGroupMembers is_autovacuum MaxBackends MyProc s MyProc Hsys Hp Hr)
    as [(av & steps & _ & (av' & ->) & Hc & _)|(orders & cs & av & s' & r & E & -> & Er & Hcs & [Hex Hg] & Hs' & _ & Hnil & Hsub)].
  { eexists _, _, _, s. split; [done|]. split; [done|]. by exists steps. }
  assert (Hclear : no_cycle lockGroupLeader s orders (leader MyProc)) by (apply Hg; unfold tested; set_solver).
  pose proof (DeadLockCheckRecurse_worker lockGroupLeader lockGroupMembers is_autovacuum MaxBackends MyProc s (S MaxBackends) MyProc [] 0 None) as Hwk.
  rewrite E in Hwk. exists r, [], av, s'. split; [done|]. rewrite Er. destruct orders as [|o orders].
  - rewrite (Hnil eq_refl). pose proof (proj1 (no_cycle_steps lockGroupLeader s [] (leader MyProc)) Hclear) as Hno.
    destruct av as [q|]; [|done]. split; [done|]. split; [done|]. exists q. split; [done|]. by apply Hwk.
  - split_and!.
    + destruct (search_ok_range lockGroupLeader lockGroupMembers is_autovacuum MaxBackends MyProc s Hsys Hq Hp [] MyProc None)
        as (b & st & _ & Hb); [apply orders_ok_nil|done|]. destruct b; [destruct Hb as (steps & Hb & _); by exists steps|].
      destruct (check_clear lockGroupLeader lockGroupMembers is_autovacuum MaxBackends MyProc s Hsys Hq Hp MyProc Hr None) as (av' & E'); [by apply no_cycle_steps|].
      congruence.
    + intros Hh. apply Hclear. eapply tc_mono; [|exact Hh]. intros a b Hab.
      apply waits_for_spec; [done|done|by eapply expanded_ok|by left].
    + apply no_cycle_steps. intros Ht. apply Hclear. eapply tc_mono; [|exact Ht]. exact Hsub.
Qed.

(** C9. A hard deadlock is one that no order of the wait queues avoids: when the check
    reports it, every rearrangement of the queues that keeps lock groups together has
    a cycle. The condition is that fewer than MaxBackends pairs of processes share a
    queue, for the search gives up at MaxBackends constraints. *)
Theorem hard_deadlock_unavoidable s k details av s' orders :
  reachable s -> procs_ok s -> waitLock (backend s MyProc) = Some k ->
  DeadLockCheck MyProc s = (Ok (DS_HARD_DEADLOCK, details, av), s') ->
  complete_orders lockGroupLeader s orders -> (length (order_pairs lockGroupLeader orders) < MaxBackends)%nat ->
  ~ forall u steps, ~ deadlock_cycle s orders u steps.
Proof.
  intros Hs Hp Hw E Hco Hlt Hno. pose proof (waiting_range s MyProc k Hs Hp Hw) as Hr. pose proof Hs as Hsys%reachable_ok; [|done].
  pose proof (sys_queues_ok lockGroupLeader s Hsys) as Hq.
  destruct (DeadLockCheckRecurse_ok lockGroupLeader lockGroupMembers is_autovacuum MaxBackends MyProc s Hsys Hq Hp MyProc Hr (S MaxBackends) [] 0 None)
    as (r & av1 & E1 & Hres); [done|lia|cbn; lia|].
  destruct (DeadLockCheck_cases lockGroupLeader lockGroupMembers is_autovacuum MaxBackends MyProc s MyProc Hsys Hp Hr)
    as [(av' & steps & E2 & _)|(orders' & cs & av' & s1 & r' & _ & E2 & Er & _)].
  - rewrite E2 in E1. injection E1 as <- <-. cbn in Hres. specialize (Hres (NoDup_nil_2) orders).
    assert (MaxBackends <= length (order_pairs lockGroupLeader orders))%nat; [|lia]. apply Hres. split; [done|]. split.
    + intros u. by apply no_cycle_steps, Hno.
    + intros c o Hc. by apply not_elem_of_nil in Hc.
  - rewrite E2 in E. injection E as E _ _ _. rewrite Er in E. by destruct orders', av'.
Qed.

End Contract.

(** ** Concrete states *)

(** The processes of the table are below [MaxBackends]. *)
Definition procs_okb (lockGroupLeader : ProcNumber -> option ProcNumber) (MaxBackends : nat) (s : LockState) : bool :=
  let ok p := (0 <=? p) && (p <? Z.of_nat MaxBackends) in
  forallb (fun '(_, l) => forallb (fun p => ok p && ok (group_leader lockGroupLeader p))
             ((myProc <$> procLocks l) ++ (procNumber <$> waitProcs l))) (map_to_list (LockMethodLockHash s)).

Lemma procs_okb_ok lockGroupLeader MaxBackends s :
  procs_okb lockGroupLeader MaxBackends s = true -> procs_ok lockGroupLeader MaxBackends s.
Proof.
  unfold procs_okb. rewrite forallb_forall. intros H t l p Hl Hp.
  specialize (H (t, l)). rewrite <- list_elem_of_In, elem_of_map_to_list in H. specialize (H Hl). cbn in H.
  rewrite forallb_forall in H. specialize (H p). rewrite <- list_elem_of_In, elem_of_app in H. specialize (H Hp).
  unfold in_range. rewrite !andb_true_iff in H. lia.
Qed.

Lemma withdraw_clear lockGroupLeader `{!GroupsOK lockGroupLeader} members `{!MembersOK lockGroupLeader members} is_autovacuum MaxBackends s p t m :
  reachable lockGroupLeader s -> waitLock (backend s p) = Some (t, m) ->
  procs_okb lockGroupLeader MaxBackends (withdraw p s) = true ->
  all_clear lockGroupLeader members is_autovacuum MaxBackends p (withdraw p s) = true ->
  ~ deadlocked lockGroupLeader (withdraw p s).
Proof.
  intros Hs%reachable_ok Hw Hp Hc; [|done]. destruct (sys_waiting lockGroupLeader s p t m Hs Hw) as (l & lmt & w & Hl & Ht & Hm & _).
  apply (all_clear_ok lockGroupLeader members is_autovacuum MaxBackends p (withdraw p s)); [|by eapply withdraw_queues|by apply procs_okb_ok|done].
  intros q u i Hq. rewrite (withdraw_waits s p t m l Hw Hl) in Hq. case_bool_decide; [done|].
  destruct (sys_waits_ok lockGroupLeader s Hs q u i Hq) as (lock & lmt' & Hlk & Etag & Hlm).
  rewrite (withdraw_locks s p t m l Hw Hl). destruct (decide (u = t)) as [->|Hne].
  - exists (remove_waiter p l), lmt. by rewrite lookup_partial_alter_eq.
  - exists lock, lmt'. by rewrite lookup_partial_alter_ne.
Qed.

Definition no_members : ProcNumber -> list ProcNumber := fun _ => [].

#[export] Instance no_members_ok : MembersOK no_groups no_members.
Proof. intros p q. split; [intros H; by apply not_elem_of_nil in H|done]. Qed.

Definition tag1 : LOCKTAG := mkLOCKTAG 5 1259 16384 0 LOCKTAG_OBJECT DEFAULT_LOCKMETHOD.
Definition tag2 : LOCKTAG := mkLOCKTAG 5 1259 16385 0 LOCKTAG_OBJECT DEFAULT_LOCKMETHOD.

(** Process 3 waits for an exclusive lock on [tag1], process 2 for a share lock behind
    it, and process 1, which shares [tag1], for [tag2] of process 2. *)
Definition soft_state : LockState :=
  script_state no_groups demo_env
    [(2, CallAcquire tag2 ExclusiveLock false false true); (1, CallAcquire tag1 ShareLock false false true);
     (3, CallAcquire tag1 ExclusiveLock false false true); (2, CallAcquire tag1 ShareLock false false true);
     (1, CallAcquire tag2 ShareLock false false true)].

(** Two processes wait for each other's lock. *)
Definition hard_state : LockState :=
  script_state no_groups demo_env
    [(1, CallAcquire tag1 ExclusiveLock false false true); (2, CallAcquire tag2 ExclusiveLock false false true);
     (2, CallAcquire tag1 ShareLock false false true); (1, CallAcquire tag2 ShareLock false false true)].

(** Every queue as it is. *)
Definition own_orders (s : LockState) : list WAIT_ORDER :=
  (fun '(t, l) => mkWAIT_ORDER t (waitProcs l)) <$> map_to_list (LockMethodLockHash s).

Lemma own_orders_complete s : reachable no_groups s -> complete_orders no_groups s (own_orders s).
Proof.
  intros Hs%reachable_ok; [|apply _]. assert (Hlocks : wo_lock <$> own_orders s = (map_to_list (LockMethodLockHash s)).*1).
  { unfold own_orders. rewrite <- list_fmap_compose. apply list_fmap_ext. by intros i [t l] _. }
  split; [split|].
  - rewrite Hlocks. apply NoDup_fst_map_to_list.
  - apply Forall_forall. intros o ([t l] & -> & Hl%elem_of_map_to_list)%list_elem_of_fmap. exists l. split; [done|]. split; [done|].
    cbn. destruct (sys_lookup no_groups s t l Hs Hl) as (_ & lmt & _ & _ & Hi). pose proof (wf_queue _ _ _ _ (inv_wf _ _ _ Hi)) as Hnd.
    intros i j k a b c Hijk Ha _ Hc Eac. assert (i = k); [|lia].
    eapply (NoDup_lookup _ _ _ (procNumber a) Hnd); rewrite list_lookup_fmap; [by rewrite Ha|rewrite Hc; cbn; f_equal; exact (eq_sym Eac)].
  - intros t l Hl. rewrite Hlocks. apply list_elem_of_fmap. exists (t, l). split; [done|]. by apply elem_of_map_to_list.
Qed.

Lemma find_lock_cycle_correct_witness :
  exists found st, FindLockCycle no_groups no_members (fun _ => false) 4 1 soft_state [] 1 None = Ok (found, st) /\
    if found then exists steps, deadlock_cycle no_groups soft_state [] 1 steps /\ softEdges st = soft_of steps /\
      deadlockDetails st = st_info <$> steps /\ nDeadlockDetails st = length steps /\ (length steps <= 4)%nat
    else forall steps, ~ deadlock_cycle no_groups soft_state [] 1 steps.
Proof.
  apply (find_lock_cycle_correct no_groups no_members (fun _ => false) 4 1 soft_state [] 1 None).
  - apply script_reachable.
  - apply procs_okb_ok. vm_compute. reflexivity.
  - apply orders_ok_nil.
  - vm_compute. split; [discriminate|reflexivity].
Defined.

Lemma toposort_correct_witness :
  exists r, TopoSort no_groups 4 [mkPGPROC 3 ExclusiveLock 0; mkPGPROC 2 ShareLock 0] [mkEDGE 2 3 tag1] = Ok r /\
    match r with
    | Some order => sorted_queue no_groups [mkPGPROC 3 ExclusiveLock 0; mkPGPROC 2 ShareLock 0] [mkEDGE 2 3 tag1] order
    | None => contradictory no_groups [mkPGPROC 3 ExclusiveLock 0; mkPGPROC 2 ShareLock 0] [mkEDGE 2 3 tag1] /\
        forall order, order ≡ₚ [mkPGPROC 3 ExclusiveLock 0; mkPGPROC 2 ShareLock 0] ->
          ~ Forall (respects no_groups order) [mkEDGE 2 3 tag1]
    end.
Proof.
  apply (toposort_correct no_groups 4 [mkPGPROC 3 ExclusiveLock 0; mkPGPROC 2 ShareLock 0] [mkEDGE 2 3 tag1]).
  - cbn. lia.
  - apply Forall_singleton. done.
Defined.

Lemma deadlock_check_leaves_none_witness :
  exists r details s', CheckDeadLock no_groups no_members (fun _ => false) 4 1 soft_state = (Ok (r, details), s') /\
    rtc (step no_groups) soft_state s' /\ ~ deadlocked no_groups s'.
Proof.
  assert (Hw : waitLock (backend soft_state 1) = Some (tag2, ShareLock)) by (vm_compute; reflexivity).
  apply (deadlock_check_leaves_none no_groups no_members (fun _ => false) 4 1 soft_state (tag2, ShareLock)).
  - apply script_reachable.
  - apply procs_okb_ok. vm_compute. reflexivity.
  - exact Hw.
  - apply (withdraw_clear no_groups no_members (fun _ => false) 4 soft_state 1 tag2 ShareLock);
      [apply script_reachable|exact Hw|vm_compute; reflexivity|vm_compute; reflexivity].
Defined.

Lemma soft_check : (DeadLockCheck no_groups no_members (fun _ => false) 4 1 1 soft_state).1 = Ok (DS_SOFT_DEADLOCK, [], None).
Proof. vm_compute. reflexivity. Qed.

Lemma hard_check :
  (DeadLockCheck no_groups no_members (fun _ => false) 4 1 1 hard_state).1 =
  Ok (DS_HARD_DEADLOCK, [mkINFO tag2 ShareLock 1; mkINFO tag1 ShareLock 2], None).
Proof. vm_compute. reflexivity. Qed.

Lemma deadlock_check_result_witness :
  exists s', DeadLockCheck no_groups no_members (fun _ => false) 4 1 1 soft_state = (Ok (DS_SOFT_DEADLOCK, [], None), s') /\
    ~ hard_cycle no_groups soft_state 1 /\ forall steps, ~ deadlock_cycle no_groups s' [] 1 steps.
Proof.
  destruct (deadlock_check_result no_groups no_members (fun _ => false) 4 1 soft_state (tag2, ShareLock)) as (r & details & av & s' & E & H).
  - apply script_reachable.
  - apply procs_okb_ok. vm_compute. reflexivity.
  - vm_compute. reflexivity.
  - pose proof soft_check as Ev. rewrite E in Ev. cbn [fst] in Ev. injection Ev as -> -> ->.
    exists s'. split; [exact E|]. change (group_leader no_groups 1) with 1 in H. exact (proj2 H).
Defined.

Lemma hard_deadlock_unavoidable_witness :
  ~ forall u steps, ~ deadlock_cycle no_groups hard_state (own_orders hard_state) u steps.
Proof.
  destruct (DeadLockCheck no_groups no_members (fun _ => false) 4 1 1 hard_state) as [r s'] eqn:E.
  pose proof hard_check as Ev. rewrite E in Ev. cbn [fst] in Ev. subst r.
  refine (hard_deadlock_unavoidable no_groups no_members (fun _ => false) 4 1 hard_state (tag2, ShareLock) _ _ s' (own_orders hard_state) _ _ _ E _ _).
  - apply script_reachable.
  - apply procs_okb_ok. vm_compute. reflexivity.
  - vm_compute. reflexivity.
  - apply own_orders_complete, script_reachable.
  - vm_compute. lia.
Defined.
